(* ===== verification/_CoqProject ===== *)
-Q . S2P
Prelude.v
FreeQueue.v
Request.v
BlockHash.v
BlockPool.v
KVSpec.v
KVConfig.v
KVGroups.v
KVPlan.v
KVFit.v
CacheHit.v
SingleType.v
Accounting.v
Coordinator.v
CoordInv.v
CoordOps.v
KVManager.v
KVSafety.v
KVCalls.v
HybridHit.v
HitToSlots.v
KVService.v
Heap.v
RequestQueue.v
SchedUtils.v
EncoderCache.v
SpecControl.v
SchedOutput.v
SchedState.v
EncoderSched.v
Schedule.v
SchedRequests.v
SchedUpdate.v
EngineCore.v
EngineProc.v
Stable.v
SchedFrame.v
SchedInv.v
SchedRun.v
SchedWait.v
SchedStep.v
SchedLife.v
SchedLeave.v
SchedApply.v
SchedOrder.v
SchedProgress.v
EngineSafe.v
EngineArrive.v
EngineQueue.v
EngineLive.v
KVGaps.v
Float.v
OffloadPolicy.v
OffloadLaws.v
OffloadManager.v
OffloadSafe.v
OffloadCalls.v
