(* ===== verification/Prelude.v ===== *)
(** * A verification library for the engine core of vLLM

    vLLM serves large language models.  Its engine core decides, step by step, which
    requests compute how many tokens, and which blocks of the KV cache hold them.  This
    library models that core, the code under src/vllm/vllm/v1/core/ and
    src/vllm/vllm/v1/engine/core.py with what it uses of request.py, kv_cache_interface.py,
    outputs.py and metrics/stats.py, and the manager of offloaded blocks under
    src/vllm/vllm/v1/kv_offload/, and proves what the rest of the system relies on.  The
    code is Python; objects that are shared or mutated live in explicit stores, methods are
    functions from the state to a result and the state they leave behind, and every
    exception the code can raise is a value.

    ** The parts and how they interact

    The scheduler (Scheduler.schedule, update_from_output, add_request, finish_requests)
    keeps the requests in a running list and two queues.  It asks the KV-cache manager for
    the cached prefix of a new request (get_computed_blocks) and for the slots of the
    tokens it wants to compute (allocate_slots), preempts requests when there are none
    left, and gives the blocks back (free).  The manager works through a coordinator that
    holds one manager for each KV-cache group (layers with the same attention type), and
    all groups share one block pool.  The pool keeps its free blocks in an intrusive doubly
    linked list and maps block hashes to blocks; a request hashes its tokens block by block
    into a chain.  Multi-modal inputs go through the encoder cache in the same way.  The
    engine core calls the scheduler, hands its output to the workers and their answers back
    to it; the engine process takes the messages of the clients from a queue and loops over
    the steps.  Before all this the layers of the model are put into groups, and the memory
    of the workers is turned into tensors and a number of blocks (get_kv_cache_configs).
    Blocks that leave the device can be kept in CPU memory; a manager gives them slots there
    and a replacement policy decides which of them have to go.

    ** The files

    - Prelude.v: the exceptions, the state-and-exception monad [M] with its weakest
      preconditions [wp] and their tactics, Python's ranges, slices, integer division and
      insertion-ordered dictionaries, and lemmas on lists, maps and sums.
    - FreeQueue.v: KVCacheBlock and FreeKVCacheBlockQueue of kv_cache_utils.py; the blocks
      are a heap of nodes with their prev and next pointers.
    - Request.v: Request, RequestStatus and StreamingUpdate of request.py.
    - BlockHash.v: the extra keys, hash_block_tokens, get_request_block_hasher,
      BlockHashListWithBlockSize and the packing of group ids of kv_cache_utils.py.
    - BlockPool.v: block_pool.py, with the cached-block map, the KV-cache events and the
      metrics collector of kv_cache_metrics.py.
    - KVSpec.v: the specifications of kv_cache_interface.py, their page sizes and memory
      bounds, merging, and the resolution of block sizes.
    - KVConfig.v: the plan of the cache in kv_cache_utils.py, from the check of the memory
      to get_kv_cache_configs; KVGroups.v, KVPlan.v, KVFit.v: its theorems; KVGaps.v: three
      plans that fall short.
    - CacheHit.v: find_longest_cache_hit of every class of
      single_type_kv_cache_manager.py; SingleType.v: the operations of these classes.
    - Coordinator.v: kv_cache_coordinator.py, with the fixed-point lookup of hybrid models.
    - KVManager.v: KVCacheManager and KVCacheBlocks of kv_cache_manager.py.
    - Accounting.v, CoordInv.v, CoordOps.v, KVSafety.v, KVCalls.v, HybridHit.v,
      HitToSlots.v: the invariants of the block accounting and the theorems on them.
    - KVService.v: the interface [KVService] that the scheduler sees of the manager, and
      the instance for models with one KV-cache group.
    - Heap.v: Python's heapq; RequestQueue.v: sched/request_queue.py.
    - SchedUtils.v: sched/utils.py (stop conditions, repetition detection).
    - EncoderCache.v: encoder_cache_manager.py.
    - SpecControl.v: the controller of the number of draft tokens in scheduler.py.
    - SchedOutput.v: sched/output.py and v1/outputs.py; SchedState.v: the state and the
      constructor of the scheduler; EncoderSched.v: _try_schedule_encoder_inputs;
      Schedule.v: schedule() with everything it calls; SchedRequests.v: requests that
      arrive, stream, finish or are reset, and failed KV transfers; SchedUpdate.v:
      update_from_output and the draft tokens.  AsyncScheduler is the same state with its
      overriding methods selected by a flag.
    - Stable.v: properties that every run keeps; SchedFrame.v: what every run of schedule()
      leaves alone; SchedInv.v, SchedRun.v, SchedWait.v, SchedStep.v, SchedLife.v: the
      invariant of the scheduler between its methods, and that schedule() and add_request keep it; SchedLeave.v: the same for
      requests that leave; SchedApply.v: for update_from_output.
    - EngineCore.v: EngineCore of engine/core.py, the steps with and without the batch
      queue; EngineProc.v: EngineCoreProc and DPEngineCoreProc of the same file, the busy
      loop with its messages, pauses and shutdown, where messages, aborts (on both queues, as
      the input thread puts them) and signals arrive between any two reads of the queues by a
      schedule of arrivals; EngineSafe.v, EngineQueue.v: the
      theorems on them; EngineArrive.v: the messages of clients as they become requests.
    - SchedOrder.v, SchedProgress.v: the order of the running list and the progress of a
      step; EngineLive.v: that requests finish and that shutdown completes.

    - Float.v: Python's floats; OffloadPolicy.v: the replacement policies of
      kv_offload/cpu/policies with the interface [CachePolicy] and its laws; OffloadLaws.v:
      LRU and ARC satisfy them; OffloadManager.v: kv_offload/cpu/manager.py, mediums.py and
      reuse_manager.py behind the interface [OffloadingManager]; OffloadSafe.v: the laws of
      that interface, proved of the manager over any lawful policy and of the reuse filter
      over any lawful manager; OffloadCalls.v: sequences of calls with transfers in flight.
    ** What the theorems show

    - KV cache (KVCalls.v, KVSafety.v, HitToSlots.v, HybridHit.v): every legal sequence of
      calls of the manager raises nothing and keeps the reference counts exact; a request
      gets all the slots it asks for or none; blocks do not leak; a prefix-cache hit can be
      given to allocate_slots; the hybrid lookup terminates.
    - Blocks and hashes (FreeQueue.v, BlockPool.v, BlockHash.v, CacheHit.v): the linked
      list is a deque; the pool's operations keep their contracts; equal hashes mean equal
      prefixes, for a hash function without collisions and requests whose multi-modal
      inputs, but for the last, lie in full blocks of the prompt; the lookups return the
      longest cached prefix (full attention, chunked attention, Mamba) or one whose last
      window is cached (sliding window).
    - Memory (KVSpec.v, KVPlan.v, KVFit.v): the plan gives the layers tensors with the
      number of blocks that all workers have, in pages of the size of their group, apart from
      the other layers of it; within the memory if the number of blocks is not overridden; one
      tensor for every layer if the worker is [undivided]; and it has the blocks of a longest
      request; auto-fit finds the greatest length that fits; pages of layers that are
      [scalable] are made equal or the model is refused; the padding of layer tuples is least.
    - Scheduling (RequestQueue.v, SchedUtils.v, EncoderCache.v, EncoderSched.v,
      SpecControl.v, SchedLife.v): the queues implement one list
      machine; requests stop in bounds; the encoder cache is exact and its inputs are there
      when they are needed; a step of the scheduler raises
      nothing, loses no request and gives every scheduled request its slots.
    - Engine (EngineSafe.v, EngineArrive.v, EngineQueue.v): a message with a valid prompt of
      tokens becomes a request that the engine serves; whatever clients add and abort, the
      engine never raises; a step ends exactly the requests that were aborted or are due to
      stop; batches leave the batch queue in the order they entered it.  The setting of these
      theorems and of those on progress is the synchronous scheduler with text requests that
      have new ids and are within the limits, without drafts, LoRA, structured output and
      connectors ([plain_config], [serving]), over a manager that meets [KVService], shown
      for one KV-cache group; the batch queue needs no setting.
    - Progress (SchedOrder.v, SchedProgress.v, EngineLive.v): first come, first served, not
      paused, with room for one longest request, the oldest running request keeps its place
      and gets tokens in every step, and when none runs one is started; so all requests
      finish, in a number of steps bounded by the tokens they may still take, and after a
      signal the loop of the engine process (without batch queue, drafts and data parallelism)
      ends, whatever clients send at any point, as long as the workers do not fail.
    - Offloading (OffloadLaws.v, OffloadCalls.v): no slot of CPU memory is reused while a
      transfer reads or writes it, none is lost, and no call raises; a store reserves slots
      for exactly the missing blocks or changes nothing; LRU gives up the oldest blocks; ARC
      keeps its lists apart and its target in bounds.
    - Some theorems show where the code does not do what it means to (a LoRA name that
      collides with a cache salt, a hit that is too long for hybrid models with EAGLE,
      memory that is exactly enough and starves the longest request, and others); the
      manifest lists them.

    ** Fuel and bounds

    Loops whose recursion is not structural take fuel, and running out of it is the value
    [OutOfFuel], which no theorem about results allows: the hybrid lookup runs with
    max_cache_hit_length + 1 passes (shown to be enough), the eviction loop of the encoder
    cache with one more than the entries it can evict, the loops of schedule() with one
    more than the length of the running list or of the queues, the bisection for the
    greatest length with one more than the lengths it chooses from, the loops over the input
    queue with one more than the messages it has and the events still to arrive.  Python
    integers are [Z]; the widths that matter are those of packed keys (four bytes of a group
    id; make_block_hash_with_group_id raises for larger ids, and the pool, whose group ids are
    positions in the list of groups, uses the key itself, [group_key]) and of the status of an
    offloaded block (c_int32 and c_int64), and are kept.  Floats are rationals rounded to 53
    bits after each operation.

    ** What is not modelled

    The hash function, the random sampling of the metrics, clocks, the iteration order of
    Python sets, KV and encoder connectors, grammars and reasoning parsers are parameters
    of the definitions.  Not modelled are the code that runs on devices (workers, model
    runners, models, kernels, vllm-ascend), transport (sockets and handshakes of the engine
    processes, executors, distributed back ends, elastic scaling, Mooncake), the profiling
    of the memory that is available, the API servers and the command line, and logging. *)

From stdpp Require Export prelude strings gmap fin_maps numbers list.
From stdpp Require Export options.

Declare Scope vllm_scope.
Delimit Scope vllm_scope with vllm.
#[global] Open Scope Z_scope.

(** ** Python exceptions and the state-and-exception monad

    A method that mutates its object and may raise is a function from the
    state to a result and the state it leaves behind, also when it raises. *)

Inductive exn :=
  | AssertionError
  | ValueError
  | RuntimeError
  | KeyError
  | IndexError
  | NotImplementedError
  | OverflowError
  | AttributeError
  | StopIteration
  | ZeroDivisionError
  | OutOfFuel.  (* no Python exception: the model's bound on a loop was too small *)

#[global] Instance exn_eq_dec : EqDecision exn.
Proof. solve_decision. Defined.

Inductive result (A : Type) :=
  | Ok (a : A)
  | Raise (e : exn).
Arguments Ok {A} a.
Arguments Raise {A} e.

Definition M (S A : Type) : Type := S → result A * S.

Section Monad.
Context {S : Type}.

#[global] Instance M_ret : MRet (M S) := λ A a s, (Ok a, s).
#[global] Instance M_bind : MBind (M S) := λ A B k m s,
  match m s with
  | (Ok a, s') => k a s'
  | (Raise e, s') => (Raise e, s')
  end.

Definition gets {A} (f : S → A) : M S A := λ s, (Ok (f s), s).
Definition modify (f : S → S) : M S unit := λ s, (Ok tt, f s).
Definition raise {A} (e : exn) : M S A := λ s, (Raise e, s).

(** [assert b]: Python's [assert] statement. *)
Definition assert (b : bool) : M S unit :=
  if b then mret tt else raise AssertionError.

(** [for x in l: body] *)
Fixpoint for_ {A} (l : list A) (body : A → M S unit) : M S unit :=
  match l with
  | [] => mret tt
  | x :: l => _ ← body x; for_ l body
  end.

(** A list comprehension whose element expression has effects. *)
Fixpoint collect {A B} (l : list A) (body : A → M S B) : M S (list B) :=
  match l with
  | [] => mret []
  | x :: l => y ← body x; ys ← collect l body; mret (y :: ys)
  end.

(** A value that is missing raises. *)
Definition or_raise {A} (e : exn) (o : option A) : M S A :=
  match o with Some a => mret a | None => raise e end.
End Monad.

(** Run an operation of a component on the field of the object that holds it. *)
Definition zoom {S T A} (get : S → T) (set : T → S → S) (m : M T A) : M S A :=
  λ s, let '(r, t) := m (get s) in (r, set t s).

(** ** Total correctness of a stateful operation

    [wp m Q s]: started in [s], [m] raises nothing and its result and final
    state satisfy [Q]. *)
Definition wp {S A} (m : M S A) (Q : A → S → Prop) (s : S) : Prop :=
  match m s with (Ok a, s') => Q a s' | (Raise _, _) => False end.

Section Wp.
Context {S : Type}.
Implicit Types (s : S).

Lemma wp_ret {A} (a : A) Q s : Q a s → wp (mret a) Q s.
Proof. done. Qed.

Lemma wp_bind {A B} (m : M S A) (k : A → M S B) Q s :
  wp m (λ a, wp (k a) Q) s → wp (m ≫= k) Q s.
Proof. unfold wp, mbind, M_bind. by destruct (m s) as [[] ?]. Qed.

Lemma wp_gets {A} (f : S → A) Q s : Q (f s) s → wp (gets f) Q s.
Proof. done. Qed.

Lemma wp_modify f Q s : Q tt (f s) → wp (modify f) Q s.
Proof. done. Qed.

Lemma wp_assert b Q s : b = true → Q tt s → wp (assert b) Q s.
Proof. by intros ->. Qed.

Lemma wp_or_raise {A} e (o : option A) a Q s :
  o = Some a → Q a s → wp (or_raise e o) Q s.
Proof. by intros ->. Qed.

Lemma wp_mono {A} (m : M S A) (Q Q' : A → S → Prop) s :
  wp m Q s → (∀ a s', Q a s' → Q' a s') → wp m Q' s.
Proof. unfold wp. destruct (m s) as [[] ?]; [|done]. intros ? H. by apply H. Qed.

Lemma wp_run {A} (m : M S A) Q s :
  wp m Q s ↔ ∃ a s', m s = (Ok a, s') ∧ Q a s'.
Proof.
  unfold wp. destruct (m s) as [[a|e] s'].
  - split; [by eauto|]. by intros (? & ? & [= -> ->] & ?).
  - split; [done|]. by intros (? & ? & ? & ?).
Qed.

(** The loop rule: an invariant indexed by the elements already visited. *)
Lemma wp_for {A} (I : list A → S → Prop) (l : list A) (body : A → M S unit) s Q :
  I [] s →
  (∀ done x todo s', l = done ++ x :: todo → I done s' →
     wp (body x) (λ _, I (done ++ [x])) s') →
  (∀ s', I l s' → Q tt s') →
  wp (for_ l body) Q s.
Proof.
  intros H0 Hstep HQ.
  cut (∀ done todo s', l = done ++ todo → I done s' →
         wp (for_ todo body) (λ _, I l) s').
  { intros H. apply wp_mono with (λ _, I l); [by apply (H [] l)|].
    intros [] s'. apply HQ. }
  clear s H0 HQ. intros done todo. revert done.
  induction todo as [|x todo IH]; intros done s' -> HI; simpl.
  - rewrite app_nil_r in *. by apply wp_ret.
  - apply wp_bind. eapply wp_mono; [by eapply Hstep|].
    intros [] s'' HI'. apply (IH (done ++ [x])); [by rewrite <- app_assoc|done].
Qed.

Lemma wp_assoc {A B C} (m : M S A) (k : A → M S B) (h : B → M S C) Q s :
  wp ((m ≫= k) ≫= h) Q s → wp (m ≫= λ a, k a ≫= h) Q s.
Proof. unfold wp, mbind, M_bind. by destruct (m s) as [[] ?]. Qed.

(** A loop is a comprehension whose values are dropped. *)
Lemma wp_for_collect {A} (l : list A) (body : A → M S unit) Q s :
  wp (collect l body) (λ _, Q tt) s → wp (for_ l body) Q s.
Proof.
  revert s. induction l as [|x l IH]; intros s; simpl; [done|].
  unfold wp, mbind, M_bind in *. destruct (body x s) as [[[]|e] s1]; [|done].
  specialize (IH s1). destruct (collect l body s1) as [[ys|e] s2]; [|done].
  intros H. by apply IH.
Qed.
End Wp.

Lemma wp_zoom {S T A} (get : S → T) (set : T → S → S) (m : M T A) Q s :
  wp m (λ a t, Q a (set t s)) (get s) → wp (zoom get set m) Q s.
Proof. unfold wp, zoom. by destruct (m (get s)) as [[] ?]. Qed.

(** One step of a computation without branches. *)
Ltac wp_prim :=
  lazymatch goal with
  | |- wp (mbind _ _) _ _ => apply wp_bind
  | |- wp (mret _) _ _ => apply wp_ret
  | |- wp (gets _) _ _ => apply wp_gets
  | |- wp (modify _) _ _ => apply wp_modify
  end.

(** ** Python lists and integers *)

(** [l[i]]; a negative index counts from the end, an index out of range raises
    [IndexError], here [None]. *)
Definition py_get {A} (l : list A) (i : Z) : option A :=
  let j := if i <? 0 then Z.of_nat (length l) + i else i in
  if j <? 0 then None else l !! Z.to_nat j.

(** The bounds of a slice are clamped to the list. *)
Definition py_clamp (n i : Z) : Z :=
  Z.min n (Z.max 0 (if i <? 0 then n + i else i)).

(** [l[a:b]] *)
Definition py_slice {A} (l : list A) (a b : Z) : list A :=
  let n := Z.of_nat (length l) in
  let a' := py_clamp n a in
  let b' := py_clamp n b in
  take (Z.to_nat (b' - a')) (drop (Z.to_nat a') l).

(** [l[a:]] *)
Definition py_slice_from {A} (l : list A) (a : Z) : list A :=
  py_slice l a (Z.of_nat (length l)).

(** [len(l)] *)
Definition len {A} (l : list A) : Z := Z.of_nat (length l).

(** [x or default], on an optional list *)
Definition py_or_nil {A} (o : option (list A)) : list A := default [] o.

Section PyLists.
Context {A : Type}.
Implicit Types (l : list A).

Lemma len_nonneg l : 0 ≤ len l.
Proof. unfold len. lia. Qed.

Lemma len_app l1 l2 : len (l1 ++ l2) = len l1 + len l2.
Proof. unfold len. rewrite length_app. lia. Qed.

Lemma len_cons x l : len (x :: l) = 1 + len l.
Proof. unfold len. simpl. lia. Qed.

Lemma len_nil : len (@nil A) = 0.
Proof. done. Qed.

Lemma py_get_nonneg l i : 0 ≤ i → py_get l i = l !! Z.to_nat i.
Proof.
  intros Hi. unfold py_get. rewrite (proj2 (Z.ltb_ge i 0)) by lia.
  by rewrite (proj2 (Z.ltb_ge i 0)) by lia.
Qed.

Lemma py_slice_nonneg l a b :
  0 ≤ a → 0 ≤ b →
  py_slice l a b = take (Z.to_nat b - Z.to_nat a) (drop (Z.to_nat a) l).
Proof.
  intros Ha Hb. unfold py_slice, py_clamp.
  rewrite (proj2 (Z.ltb_ge a 0)), (proj2 (Z.ltb_ge b 0)) by lia.
  rewrite !(Z.max_r 0) by lia.
  destruct (decide (a ≤ Z.of_nat (length l))) as [Hal|Hal].
  - rewrite (Z.min_r _ a) by lia.
    destruct (decide (b ≤ Z.of_nat (length l))) as [Hbl|Hbl].
    + rewrite Z.min_r by lia. f_equal. lia.
    + rewrite Z.min_l by lia. rewrite !take_ge; [done| |]; rewrite length_drop; lia.
  - rewrite (Z.min_l _ a) by lia. rewrite !drop_ge by lia. by rewrite !take_nil.
Qed.

Lemma py_slice_from_nonneg l a : 0 ≤ a → py_slice_from l a = drop (Z.to_nat a) l.
Proof.
  intros Ha. unfold py_slice_from. rewrite py_slice_nonneg by lia.
  apply take_ge. rewrite length_drop. lia.
Qed.

Lemma py_slice_app_l l1 l2 a b :
  0 ≤ a → 0 ≤ b ≤ len l1 → py_slice (l1 ++ l2) a b = py_slice l1 a b.
Proof.
  unfold len. intros Ha Hb. rewrite !py_slice_nonneg by lia.
  destruct (decide (Z.to_nat a ≤ length l1)%nat).
  - rewrite drop_app_le by lia. apply take_app_le. rewrite length_drop. lia.
  - replace (Z.to_nat b - Z.to_nat a)%nat with 0%nat by lia. done.
Qed.

(** A negative bound cuts a suffix off. *)
Lemma py_slice_drop_suffix l1 l2 k :
  len l2 = k → 0 < k → py_slice (l1 ++ l2) 0 (- k) = l1.
Proof.
  unfold len. intros <- Hk. unfold py_slice, py_clamp. rewrite length_app.
  rewrite (proj2 (Z.ltb_lt (- _) 0)) by lia. simpl (0 <? 0).
  rewrite (Z.min_r _ (Z.max 0 0)) by lia. rewrite drop_0.
  rewrite take_app_le by lia. apply take_ge. lia.
Qed.

(** A negative start keeps a suffix. *)
Lemma py_slice_suffix l1 l2 k :
  len l2 = k → 0 < k → py_slice_from (l1 ++ l2) (- k) = l2.
Proof.
  unfold len. intros <- Hk. unfold py_slice_from, py_slice, py_clamp. rewrite length_app.
  rewrite (proj2 (Z.ltb_lt (- _) 0)) by lia. rewrite (proj2 (Z.ltb_ge _ 0)) by lia.
  rewrite drop_app_ge by lia.
  replace (Z.to_nat _ - length l1)%nat with 0%nat by lia.
  rewrite drop_0. apply take_ge. lia.
Qed.
End PyLists.

Create Rewrite HintDb len.
#[global] Hint Rewrite @len_app @len_cons @len_nil : len.

(** [range(a, b)] *)
Definition py_range (a b : Z) : list Z := seqZ a (b - a).

Lemma length_py_range a b : length (py_range a b) = Z.to_nat (b - a).
Proof. apply length_seqZ. Qed.

(** [range(a, -1, -1)] for [a = n - 1]: the indices below [n], downwards. *)
Definition py_range_down (n : Z) : list Z := reverse (seqZ 0 n).

(** ** Generic list lemmas *)

Lemma filter_ne_id `{EqDecision A} (x : A) (l : list A) : x ∉ l → filter (λ y, y ≠ x) l = l.
Proof.
  induction l as [|y l IH]; [done|]. rewrite not_elem_of_cons. intros [? ?].
  rewrite filter_cons_True by done. f_equal. auto.
Qed.

Lemma filter_ext_in {A} (P Q : A → Prop) `{!∀ x, Decision (P x)} `{!∀ x, Decision (Q x)} (l : list A) :
  (∀ x, x ∈ l → P x ↔ Q x) → filter P l = filter Q l.
Proof.
  induction l as [|x l IH]; intros Hl; [done|]. rewrite !filter_cons.
  rewrite IH by (intros y Hy; apply Hl; by right).
  pose proof (Hl x (list_elem_of_here x l)). repeat case_decide; done || tauto.
Qed.

Lemma elem_of_take_in {A} (x : A) n (l : list A) : x ∈ take n l → x ∈ l.
Proof. intros. rewrite <- (take_drop n l). apply elem_of_app. by left. Qed.

Lemma elem_of_drop_in {A} (x : A) n (l : list A) : x ∈ drop n l → x ∈ l.
Proof. intros. rewrite <- (take_drop n l). apply elem_of_app. by right. Qed.

(** [sum(l)] *)
Definition sumZ (l : list Z) : Z := foldr Z.add 0 l.

Lemma sumZ_cons x l : sumZ (x :: l) = x + sumZ l.
Proof. done. Qed.

Lemma sumZ_app l1 l2 : sumZ (l1 ++ l2) = sumZ l1 + sumZ l2.
Proof. induction l1 as [|x l1 IH]; simpl; [done|]. fold (sumZ (l1 ++ l2)) (sumZ l1). lia. Qed.

Lemma sumZ_perm l1 l2 : l1 ≡ₚ l2 → sumZ l1 = sumZ l2.
Proof.
  induction 1 as [|x l l' _ IH|x y l|l1 l2 l3 _ IH1 _ IH2]; simpl; [done| |lia|congruence].
  fold (sumZ l) (sumZ l'). lia.
Qed.

Lemma sumZ_nonneg l : Forall (λ x, 0 ≤ x) l → 0 ≤ sumZ l.
Proof. induction 1 as [|x l Hx _ IH]; simpl; [done|]. fold (sumZ l). lia. Qed.

Lemma sumZ_take_S l i x : l !! i = Some x → sumZ (take (S i) l) = sumZ (take i l) + x.
Proof.
  intros Hi. erewrite take_S_r by done. rewrite sumZ_app. unfold sumZ at 2. simpl. lia.
Qed.

Lemma sumZ_take_le l i : Forall (λ x, 0 ≤ x) l → sumZ (take i l) ≤ sumZ l.
Proof.
  intros Hl. rewrite <- (take_drop i l) at 2. rewrite sumZ_app.
  pose proof (sumZ_nonneg (drop i l) (Forall_drop _ i l Hl)). lia.
Qed.

Lemma sumZ_imap_add {A} (f g : nat → A → Z) (l : list A) :
  sumZ (imap (λ i x, f i x + g i x) l) = sumZ (imap f l) + sumZ (imap g l).
Proof.
  revert f g. induction l as [|x l IH]; intros f g; [done|].
  specialize (IH (f ∘ S) (g ∘ S)). unfold sumZ, compose in *. simpl. unfold compose. lia.
Qed.

(** The number of occurrences of [x] in [l]. *)
Definition occ `{EqDecision A} (x : A) (l : list A) : Z := len (filter (x =.) l).

Section Occ.
Context `{EqDecision A}.
Implicit Types (x y : A) (l : list A).

Lemma occ_nil x : occ x [] = 0.
Proof. done. Qed.

Lemma occ_cons x y l : occ x (y :: l) = (if decide (x = y) then 1 else 0) + occ x l.
Proof.
  unfold occ. destruct (decide (x = y)) as [->|Hne].
  - rewrite filter_cons_True by done. by rewrite len_cons.
  - by rewrite filter_cons_False by done.
Qed.

Lemma occ_app x l1 l2 : occ x (l1 ++ l2) = occ x l1 + occ x l2.
Proof. unfold occ. by rewrite filter_app, len_app. Qed.

Lemma occ_nonneg x l : 0 ≤ occ x l.
Proof. apply len_nonneg. Qed.

Lemma occ_reverse x l : occ x (reverse l) = occ x l.
Proof.
  induction l as [|y l IH]; [done|].
  rewrite reverse_cons, occ_app, IH, !occ_cons, occ_nil. lia.
Qed.

Lemma occ_not_elem x l : x ∉ l ↔ occ x l = 0.
Proof.
  induction l as [|y l IH]; [by rewrite occ_nil; set_solver|].
  rewrite occ_cons, not_elem_of_cons, IH. pose proof (occ_nonneg x l). case_decide; naive_solver lia.
Qed.

Lemma occ_elem x l : x ∈ l ↔ 0 < occ x l.
Proof.
  pose proof (occ_nonneg x l). split; intros Hx.
  - destruct (decide (occ x l = 0)) as [H0|]; [|lia]. by apply occ_not_elem in H0.
  - destruct (decide (x ∈ l)) as [|H0]; [done|]. apply occ_not_elem in H0. lia.
Qed.

Lemma occ_nodup x l : NoDup l → x ∈ l → occ x l = 1.
Proof.
  induction 1 as [|y l Hy _ IH]; [by set_solver|].
  rewrite elem_of_cons, occ_cons. intros [->|Hx].
  - rewrite decide_True by done. apply occ_not_elem in Hy. lia.
  - rewrite decide_False by (by intros ->). rewrite IH by done. done.
Qed.

Lemma NoDup_occ l : (∀ x, x ∈ l → occ x l = 1) → NoDup l.
Proof.
  induction l as [|y l IH]; intros Hl; [constructor|].
  assert (y ∉ l) as Hy.
  { apply occ_not_elem. specialize (Hl y (list_elem_of_here y l)).
    rewrite occ_cons, decide_True in Hl by done. lia. }
  constructor; [done|]. apply IH. intros x Hx. specialize (Hl x (list_elem_of_further x y l Hx)).
  rewrite occ_cons, decide_False in Hl by (by intros ->). done.
Qed.

Lemma occ_filter x (P : A → Prop) `{!∀ y, Decision (P y)} l :
  occ x (filter P l) = if decide (P x) then occ x l else 0.
Proof.
  induction l as [|y l IH]; [by rewrite !occ_nil; case_decide|].
  destruct (decide (P y)) as [Hy|Hy].
  - rewrite filter_cons_True, !occ_cons, IH by done. repeat case_decide; by subst || lia.
  - rewrite filter_cons_False, !occ_cons, IH by done. repeat case_decide; by subst || lia.
Qed.

Lemma occ_take_drop_le x n k l : occ x (take n (drop k l)) ≤ occ x l.
Proof.
  rewrite <- (take_drop k l) at 2. rewrite <- (take_drop n (drop k l)) at 2. rewrite !occ_app.
  pose proof (occ_nonneg x (take k l)). pose proof (occ_nonneg x (drop n (drop k l))). lia.
Qed.

Lemma occ_unique x l i j : occ x l = 1 → l !! i = Some x → l !! j = Some x → i = j.
Proof.
  revert i j. induction l as [|y l IH]; intros i j Ho Hi Hj; [done|]. rewrite occ_cons in Ho.
  assert (∀ k, l !! k = Some x → x = y → False) as Hno.
  { intros k Hk ->. rewrite decide_True in Ho by done.
    assert (0 < occ y l) by (apply occ_elem; by eapply list_elem_of_lookup_2). lia. }
  destruct i as [|i], j as [|j]; simpl in *; [done|naive_solver..|].
  f_equal. apply IH; [|done..]. case_decide; [by exfalso; eapply Hno|lia].
Qed.

Lemma occ_one x l : (∀ i j, l !! i = Some x → l !! j = Some x → i = j) → x ∈ l → occ x l = 1.
Proof.
  induction l as [|y l IH]; intros Hinj Hin; [by apply not_elem_of_nil in Hin|]. rewrite occ_cons.
  destruct (decide (x = y)) as [->|Hne].
  - assert (y ∉ l) as Hy; [|by rewrite (proj1 (occ_not_elem _ _) Hy)].
    intros [i Hi]%list_elem_of_lookup_1. by specialize (Hinj 0%nat (S i) eq_refl Hi).
  - rewrite IH; [done| |by apply elem_of_cons in Hin as [?|?]].
    intros i j Hi Hj. specialize (Hinj (S i) (S j) Hi Hj). lia.
Qed.
End Occ.

Create Rewrite HintDb occ.
#[global] Hint Rewrite @occ_nil @occ_cons @occ_app @occ_reverse : occ.

Lemma filter_keep {A} (P : A → Prop) `{!∀ x, Decision (P x)} (l : list A) : (∀ x, x ∈ l → P x) → filter P l = l.
Proof. induction l as [|x l IH]; intros HP; [done|]. rewrite filter_cons_True, IH; set_solver. Qed.
Lemma filter_drop {A} (P : A → Prop) `{!∀ x, Decision (P x)} (l : list A) : (∀ x, x ∈ l → ¬ P x) → filter P l = [].
Proof. induction l as [|x l IH]; intros HP; [done|]. rewrite filter_cons_False, IH; set_solver. Qed.

(** ** [OrderedDict]

    A dictionary whose iteration order is the order of insertion, as the list of its
    items. *)
Section OrderedDict.
Context {K V : Type} `{EqDecision K}.
Implicit Types (k : K) (v : V) (d : list (K * V)).

Fixpoint od_get k d : option V :=
  match d with
  | [] => None
  | (k', v) :: d => if decide (k = k') then Some v else od_get k d
  end.
Fixpoint od_del k d : list (K * V) :=
  match d with
  | [] => []
  | (k', v) :: d => if decide (k = k') then d else (k', v) :: od_del k d
  end.
(** [d[k] = v]: a new key goes to the end. *)
Fixpoint od_set k v d : list (K * V) :=
  match d with
  | [] => [(k, v)]
  | (k', v') :: d => if decide (k = k') then (k, v) :: d else (k', v') :: od_set k v d
  end.
(** [k in d] *)
Definition od_mem k d : bool := bool_decide (is_Some (od_get k d)).
(** [d.move_to_end(k)], for a key of the dictionary. *)
Definition od_move_to_end k d : list (K * V) :=
  match od_get k d with Some v => od_del k d ++ [(k, v)] | None => d end.

Lemma od_get_elem k v d : NoDup d.*1 → (k, v) ∈ d → od_get k d = Some v.
Proof.
  induction d as [|[k' v'] d IH]; simpl; [by intros ? ?%elem_of_nil|].
  intros [Hk Hd]%NoDup_cons [[= -> ->]|Hin]%elem_of_cons; [by rewrite decide_True|].
  rewrite decide_False; [by apply IH|]. intros ->. apply Hk. apply (list_elem_of_fmap_2 fst) in Hin. done.
Qed.

Lemma od_get_Some k v d : od_get k d = Some v → (k, v) ∈ d.
Proof.
  induction d as [|[k' v'] d IH]; simpl; [done|]. case_decide; [intros [= ->]; subst; by left|].
  intros ?. right. by apply IH.
Qed.

Lemma od_get_None k d : od_get k d = None ↔ k ∉ d.*1.
Proof.
  induction d as [|[k' v'] d IH]; simpl; [split; [intros _; apply not_elem_of_nil|done]|].
  rewrite not_elem_of_cons. case_decide; [naive_solver|]. rewrite IH. naive_solver.
Qed.

Lemma od_mem_elem k d : od_mem k d = true ↔ k ∈ d.*1.
Proof.
  unfold od_mem. rewrite bool_decide_eq_true. pose proof (od_get_None k d) as H.
  destruct (od_get k d) eqn:Hk.
  - split; [|by eauto]. intros _. apply od_get_Some in Hk. by apply (list_elem_of_fmap_2 fst) in Hk.
  - split; [by intros []|]. intros Hin. exfalso. by apply H.
Qed.

Lemma od_del_elem k k' v' d : NoDup d.*1 → (k', v') ∈ od_del k d ↔ (k', v') ∈ d ∧ k' ≠ k.
Proof.
  induction d as [|[k0 v0] d IH]; simpl; [by set_solver|]. intros [Hk Hd]%NoDup_cons.
  case_decide as Heq.
  - subst k0. split; [|set_solver]. intros Hin. split; [by right|]. intros ->.
    apply Hk. apply (list_elem_of_fmap_2 fst) in Hin. done.
  - rewrite !elem_of_cons, IH by done. naive_solver.
Qed.

Lemma od_del_keys k d : (od_del k d).*1 `sublist_of` d.*1.
Proof.
  induction d as [|[k0 v0] d IH]; simpl; [done|]. case_decide; [by constructor|]. simpl. by constructor.
Qed.

Lemma od_del_NoDup k d : NoDup d.*1 → NoDup (od_del k d).*1.
Proof. intros Hd. eapply sublist_NoDup; [done|apply od_del_keys]. Qed.

Lemma od_del_key_iff k k' d : NoDup d.*1 → k' ∈ (od_del k d).*1 ↔ k' ∈ d.*1 ∧ k' ≠ k.
Proof.
  intros Hd. rewrite !list_elem_of_fmap. split.
  - intros ([a v] & -> & [Hin Hne]%od_del_elem); [|done]. split; [by exists (a, v)|done].
  - intros [([a v] & -> & Hin) Hne]. exists (a, v). by rewrite od_del_elem.
Qed.

Lemma od_del_len k d : k ∈ d.*1 → len (od_del k d) = len d - 1.
Proof.
  unfold len. induction d as [|[k0 v0] d IH]; simpl; [by intros ?%elem_of_nil|].
  rewrite elem_of_cons. case_decide; [simpl; lia|]. intros [?|Hk]; [done|].
  specialize (IH Hk). destruct d; [by apply elem_of_nil in Hk|]. simpl in *. lia.
Qed.

Lemma od_del_absent k d : k ∉ d.*1 → od_del k d = d.
Proof.
  induction d as [|[k0 v0] d IH]; simpl; [done|]. intros [Hk Hd]%not_elem_of_cons.
  rewrite decide_False by done. by rewrite IH.
Qed.

Lemma od_set_new k v d : k ∉ d.*1 → od_set k v d = d ++ [(k, v)].
Proof.
  induction d as [|[k0 v0] d IH]; simpl; [done|]. intros [Hk Hd]%not_elem_of_cons.
  rewrite decide_False by done. by rewrite IH.
Qed.

Lemma od_set_keys k v d : k ∈ d.*1 → (od_set k v d).*1 = d.*1.
Proof.
  induction d as [|[k0 v0] d IH]; simpl; [by intros ?%elem_of_nil|]. rewrite elem_of_cons.
  case_decide as Hd; [by subst|]. intros [?|Hk]; [done|]. rewrite fmap_cons. simpl. f_equal. by apply IH.
Qed.

Lemma od_set_NoDup k v d : NoDup d.*1 → NoDup (od_set k v d).*1.
Proof.
  intros Hd. destruct (decide (k ∈ d.*1)) as [Hin|Hin]; [by rewrite od_set_keys|].
  rewrite od_set_new, fmap_app by done. apply NoDup_app. split; [done|]. split; [set_solver|apply NoDup_singleton].
Qed.

Lemma od_get_app k d1 d2 :
  od_get k (d1 ++ d2) = match od_get k d1 with Some v => Some v | None => od_get k d2 end.
Proof. induction d1 as [|[k0 v0] d1 IH]; simpl; [done|]. by case_decide. Qed.

Lemma od_get_set k k' v d : od_get k' (od_set k v d) = if decide (k' = k) then Some v else od_get k' d.
Proof.
  induction d as [|[k0 v0] d IH]; simpl; [done|].
  destruct (decide (k = k0)) as [<-|Hne]; simpl; [by case_decide|].
  rewrite IH. repeat case_decide; congruence.
Qed.

Lemma od_get_del k k' d :
  NoDup d.*1 → od_get k' (od_del k d) = if decide (k' = k) then None else od_get k' d.
Proof.
  induction d as [|[k0 v0] d IH]; simpl; [by case_decide|]. intros [Hk Hd]%NoDup_cons.
  destruct (decide (k = k0)) as [<-|Hne]; simpl.
  - case_decide; [|done]. subst. by apply od_get_None.
  - rewrite IH by done. repeat case_decide; congruence.
Qed.

Lemma od_move_to_end_get k k' d : NoDup d.*1 → od_get k' (od_move_to_end k d) = od_get k' d.
Proof.
  intros Hd. unfold od_move_to_end. destruct (od_get k d) as [v|] eqn:Hk; [|done].
  rewrite od_get_app, od_get_del by done. simpl.
  destruct (decide (k' = k)) as [->|]; [done|]. by destruct (od_get k' d).
Qed.

Lemma od_move_to_end_perm k d : od_move_to_end k d ≡ₚ d.
Proof.
  unfold od_move_to_end. destruct (od_get k d) as [v|] eqn:Hk; [|done].
  revert Hk. induction d as [|[k0 v0] d IH]; simpl; [done|].
  case_decide as Heq; [intros [= ->]; subst|intros Hk; simpl; by rewrite IH].
  by rewrite Permutation_app_comm.
Qed.
End OrderedDict.
