(* ===== verification/FreeQueue.v ===== *)
(** * The free-block queue

    [KVCacheBlock] and [FreeKVCacheBlockQueue] of vllm/v1/core/kv_cache_utils.py:
    an intrusive doubly linked list threaded through the blocks' own
    [prev_free_block] and [next_free_block] fields between two sentinel blocks.
    The blocks live in a heap; a Python reference to a block is a [ref].  The
    module [Spec] is the deque the queue promises to be, and the theorems show
    that every operation on the links implements the list operation. *)

From S2P Require Import Prelude.

(** A [bytes] object. *)
Abbreviation bytes := (list Z).

(** A reference to a block: one of the two sentinels the queue allocates, or
    block [i] of the pool. *)
Inductive ref :=
  | FakeHead
  | FakeTail
  | Blk (i : nat).

#[global] Instance ref_eq_dec : EqDecision ref.
Proof. solve_decision. Defined.

#[global] Instance ref_countable : Countable ref.
Proof.
  refine (inj_countable'
    (λ r, match r with FakeHead => inl true | FakeTail => inl false | Blk i => inr i end)
    (λ s, match s with inl true => FakeHead | inl false => FakeTail | inr i => Blk i end) _).
  by intros [].
Defined.

Record KVCacheBlock := mkKVCacheBlock {
  block_id : Z;
  ref_cnt : Z;
  _block_hash : option bytes;
  prev_free_block : option ref;
  next_free_block : option ref;
  is_null : bool
}.

(** [KVCacheBlock(block_id=i)] *)
Definition new_block (i : Z) : KVCacheBlock :=
  mkKVCacheBlock i 0 None None None false.

#[global] Instance KVCacheBlock_inhabited : Inhabited KVCacheBlock := populate (new_block (-1)).

(** The block objects, by reference. *)
Abbreviation heap := (gmap ref KVCacheBlock).

(** Assignments to one attribute of a block. *)
Definition set_ref_cnt (v : Z) (b : KVCacheBlock) : KVCacheBlock :=
  mkKVCacheBlock (block_id b) v (_block_hash b) (prev_free_block b) (next_free_block b) (is_null b).
Definition set_hash (v : option bytes) (b : KVCacheBlock) : KVCacheBlock :=
  mkKVCacheBlock (block_id b) (ref_cnt b) v (prev_free_block b) (next_free_block b) (is_null b).
Definition set_prev (v : option ref) (b : KVCacheBlock) : KVCacheBlock :=
  mkKVCacheBlock (block_id b) (ref_cnt b) (_block_hash b) v (next_free_block b) (is_null b).
Definition set_next (v : option ref) (b : KVCacheBlock) : KVCacheBlock :=
  mkKVCacheBlock (block_id b) (ref_cnt b) (_block_hash b) (prev_free_block b) v (is_null b).
Definition set_is_null (v : bool) (b : KVCacheBlock) : KVCacheBlock :=
  mkKVCacheBlock (block_id b) (ref_cnt b) (_block_hash b) (prev_free_block b) (next_free_block b) v.

Definition upd (f : KVCacheBlock → KVCacheBlock) (r : ref) (h : heap) : heap :=
  <[r := f (h !!! r)]> h.

(** Both links of a block set to [None]. *)
Definition unlink (r : ref) (h : heap) : heap :=
  upd (set_next None) r (upd (set_prev None) r h).

Record FreeKVCacheBlockQueue := mkQueue {
  q_heap : heap;
  num_free_blocks : Z
}.

Definition set_q_heap (h : heap) (q : FreeKVCacheBlockQueue) : FreeKVCacheBlockQueue :=
  mkQueue h (num_free_blocks q).

Section Operations.
Abbreviation Q := FreeKVCacheBlockQueue.

Definition load (r : ref) : M Q KVCacheBlock := gets (λ q, q_heap q !!! r).
Definition store (f : KVCacheBlock → KVCacheBlock) (r : ref) : M Q unit :=
  modify (λ q, set_q_heap (upd f r (q_heap q)) q).
Definition add_num_free (n : Z) : M Q unit :=
  modify (λ q, mkQueue (q_heap q) (num_free_blocks q + n)).

(** [__init__]: the queue over [blocks], with fresh sentinels. *)
Definition queue_init (blocks : list ref) : M Q unit :=
  let n := len blocks in
  _ ← modify (λ q, mkQueue (q_heap q) n);
  _ ← for_ (py_range 0 n) (λ i,
        b ← or_raise IndexError (py_get blocks i);
        _ ← (if 0 <? i then
               p ← or_raise IndexError (py_get blocks (i - 1));
               store (set_prev (Some p)) b
             else mret tt);
        if i <? n - 1 then
          x ← or_raise IndexError (py_get blocks (i + 1));
          store (set_next (Some x)) b
        else mret tt);
  _ ← modify (λ q, set_q_heap
        (<[FakeTail := new_block (-1)]> (<[FakeHead := new_block (-1)]> (q_heap q))) q);
  if 0 <? n then
    first ← or_raise IndexError (py_get blocks 0);
    last ← or_raise IndexError (py_get blocks (-1));
    _ ← store (set_next (Some first)) FakeHead;
    _ ← store (set_prev (Some FakeHead)) first;
    _ ← store (set_prev (Some last)) FakeTail;
    store (set_next (Some FakeTail)) last
  else
    _ ← store (set_next (Some FakeTail)) FakeHead;
    store (set_prev (Some FakeHead)) FakeTail.

Definition popleft : M Q ref :=
  hd ← load FakeHead;
  match next_free_block hd with
  | None | Some FakeTail =>
      n ← gets num_free_blocks;
      _ ← assert (n =? 0);
      raise ValueError
  | Some first_block =>
      fb ← load first_block;
      match next_free_block fb with
      | None => raise RuntimeError
      | Some second =>
          _ ← store (set_next (Some second)) FakeHead;
          _ ← store (set_prev (Some FakeHead)) second;
          _ ← store (set_prev None) first_block;
          _ ← store (set_next None) first_block;
          _ ← add_num_free (-1);
          mret first_block
      end
  end.

(** The [for _ in range(n)] loop of [popleft_n]. *)
Fixpoint popleft_n_loop (n : nat) (curr_block : option ref) (ret : list ref) :
    M Q (option ref * list ref) :=
  match n with
  | O => mret (curr_block, ret)
  | S n =>
      match curr_block with
      | None => raise AssertionError
      | Some last_block =>
          b ← load last_block;
          _ ← store (set_prev None) last_block;
          _ ← store (set_next None) last_block;
          popleft_n_loop n (next_free_block b) (ret ++ [last_block])
      end
  end.

Definition popleft_n (n : Z) : M Q (list ref) :=
  if n =? 0 then mret [] else
  free ← gets num_free_blocks;
  _ ← assert (n <=? free);
  _ ← add_num_free (- n);
  hd ← load FakeHead;
  p ← popleft_n_loop (Z.to_nat n) (next_free_block hd) [];
  match p with
  | (Some curr_block, ret) =>
      _ ← store (set_next (Some curr_block)) FakeHead;
      _ ← store (set_prev (Some FakeHead)) curr_block;
      mret ret
  | (None, ret) => mret ret
  end.

Definition remove (block : ref) : M Q unit :=
  b ← load block;
  match prev_free_block b, next_free_block b with
  | Some p, Some n =>
      _ ← store (set_next (Some n)) p;
      _ ← store (set_prev (Some p)) n;
      _ ← store (set_prev None) block;
      _ ← store (set_next None) block;
      add_num_free (-1)
  | _, _ => raise RuntimeError
  end.

Definition append (block : ref) : M Q unit :=
  tl ← load FakeTail;
  match prev_free_block tl with
  | None => raise RuntimeError
  | Some last_block =>
      _ ← store (set_next (Some block)) last_block;
      _ ← store (set_prev (Some last_block)) block;
      _ ← store (set_next (Some FakeTail)) block;
      _ ← store (set_prev (Some block)) FakeTail;
      add_num_free 1
  end.

(** The loop of [append_n]; returns the last block appended. *)
Fixpoint append_n_loop (blocks : list ref) (last_block : ref) : M Q ref :=
  match blocks with
  | [] => mret last_block
  | block :: blocks =>
      _ ← store (set_prev (Some last_block)) block;
      _ ← store (set_next (Some block)) last_block;
      append_n_loop blocks block
  end.

Definition append_n (blocks : list ref) : M Q unit :=
  if len blocks =? 0 then mret tt else
  tl ← load FakeTail;
  match prev_free_block tl with
  | None => raise AssertionError
  | Some last_block =>
      last_block ← append_n_loop blocks last_block;
      _ ← store (set_next (Some FakeTail)) last_block;
      _ ← store (set_prev (Some last_block)) FakeTail;
      add_num_free (len blocks)
  end.

(** The [while] loop of [get_all_free_blocks]; [fuel] bounds the number of
    blocks visited, and running out of it raises nothing Python raises. *)
Fixpoint walk (fuel : nat) (h : heap) (curr_block : ref) (ret : list ref) :
    option (list ref) :=
  match fuel with
  | O => None
  | S fuel =>
      match next_free_block (h !!! curr_block) with
      | None => Some ret
      | Some n => walk fuel h n (ret ++ [curr_block])
      end
  end.

Definition get_all_free_blocks (fuel : nat) (q : Q) : result (option (list ref)) :=
  match next_free_block (q_heap q !!! FakeHead) with
  | None => Raise RuntimeError
  | Some first => Ok (walk fuel (q_heap q) first [])
  end.
End Operations.

(** ** The deque the queue implements *)
Module Spec.
Definition popleft (l : list ref) : option (ref * list ref) :=
  match l with [] => None | b :: l => Some (b, l) end.
Definition popleft_n (n : nat) (l : list ref) : list ref * list ref := (take n l, drop n l).
Definition remove (b : ref) (l : list ref) : list ref := filter (λ r, r ≠ b) l.
Definition append_n (bs l : list ref) : list ref := l ++ bs.
End Spec.

(** ** Reading the heap after an assignment *)

Definition prev (h : heap) (r : ref) : option ref := prev_free_block (h !!! r).
Definition next (h : heap) (r : ref) : option ref := next_free_block (h !!! r).

Lemma upd_lookup f r h r' :
  upd f r h !!! r' = if decide (r = r') then f (h !!! r') else h !!! r'.
Proof. unfold upd. rewrite lookup_total_insert. case_decide; by subst. Qed.

Lemma upd_lookup_ne f r h r' : r ≠ r' → upd f r h !!! r' = h !!! r'.
Proof. intros. rewrite upd_lookup. by rewrite decide_False. Qed.

Lemma next_set_prev v r h r' : next (upd (set_prev v) r h) r' = next h r'.
Proof. unfold next. rewrite upd_lookup. by case_decide. Qed.
Lemma prev_set_next v r h r' : prev (upd (set_next v) r h) r' = prev h r'.
Proof. unfold prev. rewrite upd_lookup. by case_decide. Qed.
Lemma next_set_next v r h r' :
  next (upd (set_next v) r h) r' = if decide (r = r') then v else next h r'.
Proof. unfold next. rewrite upd_lookup. by case_decide. Qed.
Lemma prev_set_prev v r h r' :
  prev (upd (set_prev v) r h) r' = if decide (r = r') then v else prev h r'.
Proof. unfold prev. rewrite upd_lookup. by case_decide. Qed.

Create Rewrite HintDb links.
#[global] Hint Rewrite next_set_prev prev_set_next next_set_next prev_set_prev : links.

(** The fields of a block other than its links. *)
Definition payload (b : KVCacheBlock) : Z * Z * option bytes * bool :=
  (block_id b, ref_cnt b, _block_hash b, is_null b).

(** Two heaps that differ in links only. *)
Definition same_payload (h h' : heap) : Prop := ∀ i, payload (h' !!! Blk i) = payload (h !!! Blk i).

#[global] Instance same_payload_preorder : PreOrder same_payload.
Proof.
  split; [done|]. intros h1 h2 h3 H1 H2 i. by rewrite H2, H1.
Qed.

Lemma same_payload_set_prev v r h : same_payload h (upd (set_prev v) r h).
Proof. intros i. rewrite upd_lookup. by case_decide. Qed.
Lemma same_payload_set_next v r h : same_payload h (upd (set_next v) r h).
Proof. intros i. rewrite upd_lookup. by case_decide. Qed.
Create HintDb payload.
#[global] Hint Resolve same_payload_set_prev same_payload_set_next : payload.

(** ** Doubly linked paths *)

(** The end of the path that starts at [a] and visits [l]. *)
Fixpoint path_end (a : ref) (l : list ref) : ref :=
  match l with [] => a | b :: l => path_end b l end.

Fixpoint linked (h : heap) (a : ref) (l : list ref) : Prop :=
  match l with
  | [] => True
  | b :: l => next h a = Some b ∧ prev h b = Some a ∧ linked h b l
  end.

Lemma path_end_snoc a l b : path_end a (l ++ [b]) = b.
Proof. revert a; induction l; simpl; auto. Qed.

Lemma path_end_elem a l : path_end a l ∈ a :: l.
Proof.
  revert a; induction l as [|b l IH]; intros a; [by left|].
  right. apply IH.
Qed.

Lemma linked_app h a l1 l2 :
  linked h a (l1 ++ l2) ↔ linked h a l1 ∧ linked h (path_end a l1) l2.
Proof.
  revert a; induction l1 as [|b l1 IH]; intros a; simpl; [by intuition|].
  rewrite IH. tauto.
Qed.

(** Only the [next] fields before the end and the [prev] fields after the start
    of a path matter to it. *)
Lemma linked_frame h h' a l :
  NoDup (a :: l) →
  (∀ r, r ∈ a :: l → r ≠ path_end a l → next h' r = next h r) →
  (∀ r, r ∈ l → prev h' r = prev h r) →
  linked h a l → linked h' a l.
Proof.
  revert a; induction l as [|b l IH]; intros a Hnd Hn Hp; simpl; [done|].
  simpl in Hn. inversion_clear Hnd as [|?? Hal Hbl].
  intros (Hab & Hba & Hl). split_and!.
  - rewrite Hn; [done|by left|]. intros ->. apply Hal, path_end_elem.
  - rewrite Hp; [done|by left].
  - apply IH; [done| | |done]; intros r Hr.
    + apply Hn. by right.
    + apply Hp. by right.
Qed.

(** ** The representation predicate

    [queue_rep q l]: the links of [q] spell the deque [l], front first; a block
    outside [l] is linked to nothing. *)
Record queue_rep (q : FreeKVCacheBlockQueue) (l : list ref) : Prop := {
  qr_nodup : NoDup (FakeHead :: l ++ [FakeTail]);
  qr_linked : linked (q_heap q) FakeHead (l ++ [FakeTail]);
  qr_head : prev (q_heap q) FakeHead = None;
  qr_tail : next (q_heap q) FakeTail = None;
  qr_out i : Blk i ∉ l → prev (q_heap q) (Blk i) = None ∧ next (q_heap q) (Blk i) = None;
  qr_num : num_free_blocks q = len l
}.

Lemma queue_rep_real q l r : queue_rep q l → r ∈ l → ∃ i, r = Blk i.
Proof.
  intros [Hnd _ _ _ _ _] Hr. destruct r as [| |i]; [| |by eexists]; exfalso.
  - inversion_clear Hnd as [|?? H _]. set_solver.
  - inversion_clear Hnd as [|?? _ H]. apply NoDup_app in H as (_ & H & _). set_solver.
Qed.

Lemma queue_rep_nodup q l : queue_rep q l → NoDup l.
Proof.
  intros [Hnd _ _ _ _ _]. inversion_clear Hnd as [|?? _ H]. by apply NoDup_app in H as [? _].
Qed.

(** ** Refinement of the single-block operations *)

Ltac run_queue :=
  unfold load, store, add_num_free, wp, mbind, M_bind, gets, modify, mret, M_ret,
    raise, assert, set_q_heap in *; simpl in *.

(** Split the membership and distinctness facts of a path. *)
Ltac nodup_facts H :=
  rewrite ?NoDup_cons, ?NoDup_app, ?not_elem_of_cons, ?not_elem_of_app in H;
  destruct_and? H.

(** Evaluate the link fields of an updated heap, using the distinctness of the
    blocks involved. *)
Ltac solve_links :=
  autorewrite with links; repeat case_decide; simplify_eq/=; eauto; try done.

Lemma same_payload_unlink r h : same_payload h (unlink r h).
Proof. unfold unlink. etrans; [apply same_payload_set_prev|apply same_payload_set_next]. Qed.
#[global] Hint Resolve same_payload_unlink : payload.

(** A sequence of assignments to links changes no payload. *)
Ltac solve_payload :=
  repeat (etrans; [|apply same_payload_set_prev || apply same_payload_set_next]); reflexivity.

Lemma popleft_rep q b l :
  queue_rep q (b :: l) →
  wp popleft (λ r q', r = b ∧ queue_rep q' l ∧ same_payload (q_heap q) (q_heap q')) q.
Proof.
  intros HR. assert (∃ i, b = Blk i) as [i ->] by (eapply queue_rep_real; [done|by left]).
  destruct HR as [Hnd Hlk Hh Ht Hout Hnum].
  destruct (l ++ [FakeTail]) as [|c m] eqn:Hm; [by destruct l|].
  assert (Hc : c :: m = l ++ [FakeTail]) by done.
  simpl in Hlk. rewrite Hm in Hlk. destruct Hlk as (Hn & Hp & Hnb & Hpb & Hlk).
  unfold popleft. run_queue. unfold next in Hn, Hnb. rewrite Hn. simpl. rewrite Hnb. simpl.
  simpl in Hnd. rewrite Hm in Hnd.
  assert (Hnd' := Hnd). rewrite !NoDup_cons, !not_elem_of_cons in Hnd.
  destruct Hnd as ((? & ? & ?) & (? & ?) & ? & ?).
  split; [done|]. split; [split; simpl|].
  - rewrite <- Hc. rewrite !NoDup_cons, !not_elem_of_cons. naive_solver.
  - rewrite <- Hc. simpl. split_and!; [solve_links..|].
    eapply linked_frame; [|..|exact Hlk].
    + by rewrite NoDup_cons.
    + intros r Hr _. assert (r ≠ FakeHead ∧ r ≠ Blk i) as [? ?] by set_solver. solve_links.
    + intros r Hr. assert (r ≠ Blk i ∧ r ≠ c) as [? ?] by set_solver. solve_links.
  - solve_links.
  - solve_links.
  - intros j Hj. assert (c = Blk j → False).
    { intros ->. destruct l; simplify_eq/=. set_solver. }
    destruct (decide (j = i)) as [->|]; [by solve_links|].
    destruct (Hout j ltac:(set_solver)). split; solve_links.
  - rewrite Hnum. autorewrite with len. lia.
  - solve_payload.
Qed.

Lemma popleft_empty q :
  queue_rep q [] → popleft q = (Raise ValueError, q).
Proof.
  intros [_ Hlk _ _ _ Hnum]. simpl in Hlk. destruct Hlk as (Hn & _).
  unfold popleft. run_queue. unfold next in Hn. rewrite Hn. by rewrite Hnum.
Qed.

(** Taking one block out of the middle of the path. *)
Lemma remove_rep q l1 b l2 :
  queue_rep q (l1 ++ b :: l2) →
  wp (remove b)
    (λ _ q', queue_rep q' (l1 ++ l2) ∧ same_payload (q_heap q) (q_heap q')) q.
Proof.
  intros HR.
  assert (∃ i, b = Blk i) as [i ->] by (eapply queue_rep_real; [done|set_solver]).
  destruct HR as [Hnd Hlk Hh Ht Hout Hnum].
  rewrite <- app_assoc, <- app_comm_cons in Hlk, Hnd.
  destruct (l2 ++ [FakeTail]) as [|c m] eqn:Hm; [by destruct l2|].
  apply linked_app in Hlk as [Hlk1 Hlk2]. simpl in Hlk2.
  pose proof (path_end_elem FakeHead l1) as Hpin.
  remember (path_end FakeHead l1) as p eqn:Hend.
  destruct Hlk2 as (Hnp & Hpb & Hnb & Hpc & Hlk2).
  unfold remove. run_queue. unfold prev in Hpb. unfold next in Hnb.
  rewrite Hpb, Hnb. simpl.
  rewrite app_comm_cons, NoDup_app, !NoDup_cons, !not_elem_of_cons in Hnd.
  destruct Hnd as ([Hnh ?] & Hdisj & (? & ?) & ? & ?).
  assert (HL : ∀ r, r ∈ FakeHead :: l1 → r ≠ Blk i ∧ r ≠ c ∧ r ∉ m).
  { intros r Hr. specialize (Hdisj r Hr). rewrite !not_elem_of_cons in Hdisj. done. }
  assert (HR : ∀ r, r ∈ c :: m → r ≠ Blk i ∧ r ≠ p).
  { intros r Hr. split; intros ->; [set_solver|]. apply (Hdisj p Hpin). by right. }
  destruct (HL p Hpin) as (? & ? & ?). clear Hdisj.
  split; [split; simpl|].
  - rewrite <- app_assoc, Hm, app_comm_cons, NoDup_app, !NoDup_cons.
    split_and!; try done. intros r Hr. apply HL in Hr as (_ & ? & ?). by apply not_elem_of_cons.
  - rewrite <- app_assoc, Hm. apply linked_app. rewrite <- Hend. simpl. split_and!.
    + eapply linked_frame; [by rewrite NoDup_cons|..|exact Hlk1].
      * intros r Hr Hrp. apply HL in Hr as (? & _). rewrite <- Hend in Hrp. solve_links.
      * intros r Hr. destruct (HL r) as (? & ? & _); [by right|]. solve_links.
    + solve_links.
    + solve_links.
    + eapply linked_frame; [by rewrite NoDup_cons|..|exact Hlk2].
      * intros r Hr _. apply HR in Hr as [? ?]. solve_links.
      * intros r Hr. assert (r ≠ c) by (by intros ->).
        destruct (HR r) as [? ?]; [by right|]. solve_links.
  - destruct (HL FakeHead) as (? & ? & _); [by left|]. solve_links.
  - destruct (HR FakeTail) as [? ?]; [rewrite <- Hm; set_solver|]. solve_links.
  - intros j Hj. destruct (decide (j = i)) as [->|]; [by split; solve_links|].
    assert (Blk j ≠ p ∧ Blk j ≠ c) as [? ?].
    { split; intros <-; [apply Hj; set_solver|]. destruct l2; simplify_eq/=. set_solver. }
    destruct (Hout j) as [? ?]; [set_solver|]. split; solve_links.
  - rewrite Hnum. autorewrite with len. lia.
  - solve_payload.
Qed.

Lemma remove_unlinked q l i :
  queue_rep q l → Blk i ∉ l → remove (Blk i) q = (Raise RuntimeError, q).
Proof.
  intros HR Hi. destruct (qr_out _ _ HR i Hi) as [Hp _].
  unfold remove. run_queue. unfold prev in Hp. by rewrite Hp.
Qed.

(** ** Refinement of the bulk operations *)

Definition unlink_all (l : list ref) (h : heap) : heap := foldl (λ h r, unlink r h) h l.

Lemma next_unlink r h r' : next (unlink r h) r' = if decide (r = r') then None else next h r'.
Proof. unfold unlink. solve_links. Qed.
Lemma prev_unlink r h r' : prev (unlink r h) r' = if decide (r = r') then None else prev h r'.
Proof. unfold unlink. solve_links. Qed.
#[global] Hint Rewrite next_unlink prev_unlink : links.

Lemma next_unlink_all l h r :
  next (unlink_all l h) r = if decide (r ∈ l) then None else next h r.
Proof.
  revert h. induction l as [|x l IH]; intros h; simpl; [done|].
  rewrite IH, next_unlink. repeat case_decide; set_solver.
Qed.
Lemma prev_unlink_all l h r :
  prev (unlink_all l h) r = if decide (r ∈ l) then None else prev h r.
Proof.
  revert h. induction l as [|x l IH]; intros h; simpl; [done|].
  rewrite IH, prev_unlink. repeat case_decide; set_solver.
Qed.
#[global] Hint Rewrite next_unlink_all prev_unlink_all : links.

Lemma same_payload_unlink_all l h : same_payload h (unlink_all l h).
Proof.
  revert h. induction l as [|x l IH]; intros h; simpl; [done|].
  etrans; [apply same_payload_unlink|apply IH].
Qed.

(** A path that avoids the unlinked blocks survives. *)
Lemma linked_unlink_all h a m l :
  NoDup (a :: m) → (∀ r, r ∈ a :: m → r ∉ l) → linked h a m → linked (unlink_all l h) a m.
Proof.
  intros Hnd Hl. apply linked_frame; [done|..].
  - intros r Hr _. apply Hl in Hr. solve_links.
  - intros r Hr. assert (r ∉ l) by (apply Hl; by right). solve_links.
Qed.

Lemma popleft_n_loop_run n : ∀ q c m acc,
  NoDup (c :: m) → linked (q_heap q) c m → (n ≤ length m)%nat →
  popleft_n_loop n (Some c) acc q =
    (Ok ((c :: m) !! n, acc ++ take n (c :: m)),
     set_q_heap (unlink_all (take n (c :: m)) (q_heap q)) q).
Proof.
  induction n as [|n IH]; intros q c m acc Hnd Hlk Hn; simpl.
  - rewrite app_nil_r. by destruct q.
  - destruct m as [|d m]; simpl in Hn; [lia|]. destruct Hlk as (Hcd & Hdc & Hlk).
    run_queue. unfold next in Hcd. rewrite Hcd. rewrite (IH _ d m).
    + by rewrite <- app_assoc.
    + by inversion_clear Hnd.
    + simpl. apply (linked_unlink_all _ _ _ [c]); [by inversion_clear Hnd| |done].
      intros r Hr. inversion_clear Hnd. set_solver.
    + lia.
Qed.

(** Dropping a prefix of the deque: unlink its blocks and let the front sentinel
    point past them. *)
Lemma drop_prefix_rep q l1 l2 x rest :
  queue_rep q (l1 ++ l2) → l2 ++ [FakeTail] = x :: rest →
  queue_rep (mkQueue (upd (set_prev (Some FakeHead)) x
              (upd (set_next (Some x)) FakeHead (unlink_all l1 (q_heap q))))
              (num_free_blocks q - len l1)) l2.
Proof.
  intros [Hnd Hlk Hh Ht Hout Hnum] Hx.
  rewrite <- app_assoc, Hx in Hnd, Hlk.
  apply linked_app in Hlk as [_ Hlk]. simpl in Hlk. destruct Hlk as (_ & _ & Hlk).
  rewrite NoDup_cons, NoDup_app, not_elem_of_app in Hnd.
  destruct Hnd as ([Hh1 Hhx] & _ & Hdisj & Hnd2).
  assert (HX : ∀ r, r ∈ x :: rest → r ∉ l1 ∧ r ≠ FakeHead).
  { intros r Hr. split; [intros Hr'; by apply (Hdisj r)|]. by intros ->. }
  split; simpl.
  - rewrite Hx. by apply NoDup_cons.
  - rewrite Hx. simpl. split_and!; [solve_links..|].
    apply linked_frame with (unlink_all l1 (q_heap q)); [done|..].
    + intros r Hr _. apply HX in Hr as [? ?]. solve_links.
    + intros r Hr. assert (x ≠ r) by (intros ->; by inversion_clear Hnd2). solve_links.
    + apply linked_unlink_all; [done| |done]. intros r Hr. by apply HX.
  - assert (x ≠ FakeHead) by (apply HX; by left). solve_links.
  - solve_links.
  - intros j Hj. assert (x ≠ Blk j).
    { intros ->. destruct l2; simplify_eq/=. set_solver. }
    destruct (decide (Blk j ∈ l1)); [by split; solve_links|].
    destruct (Hout j) as [? ?]; [set_solver|]. split; solve_links.
  - rewrite Hnum. autorewrite with len. lia.
Qed.

Lemma popleft_n_rep q l n :
  queue_rep q l → 0 ≤ n ≤ len l →
  wp (popleft_n n)
    (λ r q', r = take (Z.to_nat n) l ∧ queue_rep q' (drop (Z.to_nat n) l) ∧
             same_payload (q_heap q) (q_heap q')) q.
Proof.
  intros HR Hn. unfold popleft_n.
  destruct (Z.eqb_spec n 0) as [->|Hn0]; [done|].
  unfold len in Hn. pose proof (qr_linked _ _ HR) as Hlk. pose proof (qr_nodup _ _ HR) as Hnd.
  assert (∃ c m, l ++ [FakeTail] = c :: m) as (c & m & Hm) by (destruct l; eauto).
  assert (length m = length l) by (apply (f_equal length) in Hm; rewrite length_app in Hm; simpl in Hm; lia).
  assert (∃ x rest, drop (Z.to_nat n) l ++ [FakeTail] = x :: rest) as (x & rest & Hx)
    by (destruct (drop (Z.to_nat n) l); eauto).
  rewrite Hm in Hlk, Hnd. destruct Hlk as (Hhc & _ & Hlk). inversion_clear Hnd.
  run_queue. rewrite (qr_num _ _ HR), (proj2 (Z.leb_le n (len l))) by (unfold len; lia).
  simpl. unfold next in Hhc. rewrite Hhc.
  rewrite (popleft_n_loop_run _ _ c m) by (done || lia). simpl.
  rewrite <- Hm, take_app_le by lia.
  assert ((l ++ [FakeTail]) !! Z.to_nat n = Some x) as ->.
  { rewrite <- (Nat.add_0_r (Z.to_nat n)), <- lookup_drop, drop_app_le by lia. by rewrite Hx. }
  simpl. split; [done|]. split.
  - eapply (drop_prefix_rep q (take (Z.to_nat n) l)) in Hx; [|by rewrite take_drop].
    rewrite <- (Z.add_opp_r (num_free_blocks q)) in Hx. unfold len in Hx.
    rewrite length_take, Nat.min_l, Z2Nat.id in Hx by lia. done.
  - etrans; [apply same_payload_unlink_all|solve_payload].
Qed.

(** Asking for more blocks than the queue holds fails an assertion. *)
Lemma popleft_n_short q n :
  n ≠ 0 → num_free_blocks q < n → popleft_n n q = (Raise AssertionError, q).
Proof.
  intros Hn Hlt. unfold popleft_n. rewrite (proj2 (Z.eqb_neq n 0)) by done.
  run_queue. by rewrite (proj2 (Z.leb_gt n _)) by lia.
Qed.

(** The heap after the loop of [append_n], [bs] linked one after the other
    behind [a]. *)
Fixpoint chain (a : ref) (bs : list ref) (h : heap) : heap :=
  match bs with
  | [] => h
  | b :: bs => chain b bs (upd (set_next (Some b)) a (upd (set_prev (Some a)) b h))
  end.

Lemma append_n_loop_run bs : ∀ a q,
  append_n_loop bs a q = (Ok (path_end a bs), set_q_heap (chain a bs (q_heap q)) q).
Proof.
  induction bs as [|b bs IH]; intros a q; simpl; [by destruct q|].
  run_queue. by rewrite IH.
Qed.

Lemma chain_next_out a bs h r : r ∉ a :: bs → next (chain a bs h) r = next h r.
Proof.
  revert a h. induction bs as [|b bs IH]; intros a h Hr; simpl; [done|].
  rewrite not_elem_of_cons in Hr. destruct Hr as [? ?].
  rewrite IH by done. solve_links.
Qed.

Lemma chain_prev_out a bs h r : r ∉ bs → prev (chain a bs h) r = prev h r.
Proof.
  revert a h. induction bs as [|b bs IH]; intros a h Hr; simpl; [done|].
  rewrite not_elem_of_cons in Hr. destruct Hr as [? ?].
  rewrite IH by done. solve_links.
Qed.

Lemma chain_linked a bs h : NoDup (a :: bs) → linked (chain a bs h) a bs.
Proof.
  revert a h. induction bs as [|b bs IH]; intros a h Hnd; simpl; [done|].
  inversion_clear Hnd as [|?? Ha Hnd'].
  rewrite chain_next_out, chain_prev_out by (done || by inversion_clear Hnd').
  split_and!; [by solve_links|by solve_links|by apply IH].
Qed.

Lemma same_payload_chain a bs h : same_payload h (chain a bs h).
Proof.
  revert a h. induction bs as [|b bs IH]; intros a h; simpl; [done|].
  etrans; [|apply IH]. solve_payload.
Qed.

Lemma path_end_elem_tail a l : l ≠ [] → path_end a l ∈ l.
Proof. destruct l as [|b l]; [done|]. intros _. apply (path_end_elem b l). Qed.

(** Appending a suffix to the deque: chain its blocks behind the last block and
    let the back sentinel follow them. *)
Lemma append_suffix_rep q l bs p e :
  queue_rep q l → NoDup bs → bs ≠ [] → (∀ r, r ∈ bs → r ∉ l ∧ (∃ i, r = Blk i)) →
  p = path_end FakeHead l → e = path_end p bs →
  queue_rep (mkQueue (upd (set_prev (Some e)) FakeTail
              (upd (set_next (Some FakeTail)) e (chain p bs (q_heap q))))
              (num_free_blocks q + len bs)) (l ++ bs).
Proof.
  intros [HndL Hlk Hh Ht Hout Hnum] Hnd Hne Hbs Hp He.
  apply linked_app in Hlk as [Hlk _].
  assert (Hpin : p ∈ FakeHead :: l) by (subst p; apply path_end_elem).
  assert (Hebs : e ∈ bs) by (subst e; by apply path_end_elem_tail).
  rewrite app_comm_cons, NoDup_app in HndL. destruct HndL as (HndL & HdT & _).
  assert (HT : FakeTail ∉ FakeHead :: l) by (intros H; apply (HdT _ H); set_solver).
  assert (HTb : FakeTail ∉ bs) by (intros H; by destruct (Hbs _ H) as [_ [? ?]]).
  assert (HL : ∀ r, r ∈ FakeHead :: l → r ∉ bs).
  { intros r Hr Hb. destruct (Hbs _ Hb) as [? [i ->]]. by inversion Hr; simplify_eq. }
  assert (Hndp : NoDup (p :: bs)) by (apply NoDup_cons; auto).
  assert (FakeTail ≠ p) by (by intros <-).
  split; simpl.
  - rewrite app_comm_cons, NoDup_app, app_comm_cons, NoDup_app.
    split_and!; [done..| |apply NoDup_singleton]. intros r Hr ->%list_elem_of_singleton.
    apply elem_of_app in Hr as [?|?]; done.
  - rewrite <- app_assoc. apply linked_app. rewrite <- Hp. split; [|apply linked_app; split].
    + apply (linked_frame (q_heap q)); [done|..|done].
      * intros r Hr Hrp. rewrite <- Hp in Hrp. assert (r ≠ e) by (intros ->; by apply (HL e)).
        autorewrite with links. rewrite decide_False by done.
        rewrite chain_next_out; [done|]. rewrite not_elem_of_cons. auto.
      * intros r Hr. assert (FakeTail ≠ r) by (intros <-; apply HT; by right).
        autorewrite with links. rewrite decide_False by done.
        apply chain_prev_out, HL. by right.
    + apply (linked_frame (chain p bs (q_heap q))); [done|..|by apply chain_linked].
      * intros r Hr Hre. rewrite <- He in Hre. solve_links.
      * intros r Hr. assert (FakeTail ≠ r) by (by intros <-). solve_links.
    + rewrite <- He. simpl. split_and!; [solve_links..|done].
  - autorewrite with links. simpl. rewrite chain_prev_out; [done|]. apply HL. by left.
  - assert (e ≠ FakeTail) by (by intros ->). autorewrite with links.
    rewrite decide_False, chain_next_out by (done || by rewrite not_elem_of_cons). done.
  - intros j Hj. rewrite not_elem_of_app in Hj. destruct Hj as [Hjl Hjb].
    assert (Blk j ≠ p) by (intros <-; by inversion Hpin; simplify_eq).
    assert (e ≠ Blk j) by (by intros ->).
    autorewrite with links. rewrite !decide_False by done.
    rewrite chain_next_out, chain_prev_out by (done || by rewrite not_elem_of_cons). auto.
  - rewrite Hnum. autorewrite with len. lia.
Qed.

Lemma append_n_rep q l bs :
  queue_rep q l → NoDup bs → (∀ r, r ∈ bs → r ∉ l ∧ (∃ i, r = Blk i)) →
  wp (append_n bs)
    (λ _ q', queue_rep q' (l ++ bs) ∧ same_payload (q_heap q) (q_heap q')) q.
Proof.
  intros HR Hnd Hbs. unfold append_n.
  destruct (decide (bs = [])) as [->|Hne]; [by rewrite app_nil_r|].
  rewrite (proj2 (Z.eqb_neq _ _)) by (destruct bs; unfold len; simpl; [done|lia]).
  pose proof (qr_linked _ _ HR) as Hlk. apply linked_app in Hlk as [_ (_ & Htp & _)].
  run_queue. unfold prev in Htp. rewrite Htp, append_n_loop_run. simpl. split.
  - by eapply append_suffix_rep.
  - etrans; [apply same_payload_chain|solve_payload].
Qed.

Lemma set_prev_next_comm v w r r' h :
  upd (set_prev v) r (upd (set_next w) r' h) = upd (set_next w) r' (upd (set_prev v) r h).
Proof.
  unfold upd. apply map_eq. intros k. rewrite !lookup_insert, !lookup_total_insert.
  repeat case_decide; by simplify_eq.
Qed.

Lemma append_rep q l b :
  queue_rep q l → b ∉ l → (∃ i, b = Blk i) →
  wp (append b)
    (λ _ q', queue_rep q' (l ++ [b]) ∧ same_payload (q_heap q) (q_heap q')) q.
Proof.
  intros HR Hb [i ->]. pose proof (qr_linked _ _ HR) as Hlk.
  apply linked_app in Hlk as [_ (_ & Htp & _)].
  eapply (append_suffix_rep _ _ [Blk i]) in HR as HR';
    [|apply NoDup_singleton|done|set_solver|reflexivity|reflexivity].
  unfold append. run_queue. unfold prev in Htp. rewrite Htp. simpl. split; [|solve_payload].
  by rewrite (set_prev_next_comm (Some (path_end FakeHead l))).
Qed.

(** ** The queue built by the constructor, and reading it back *)

Lemma linked_index h a l :
  (∀ i x y, (a :: l) !! i = Some x → l !! i = Some y →
     next h x = Some y ∧ prev h y = Some x) → linked h a l.
Proof.
  revert a; induction l as [|b l IH]; intros a H; simpl; [done|].
  destruct (H 0%nat a b) as [? ?]; [done..|]. split_and!; [done..|].
  apply IH. intros i x y Hx Hy. by apply (H (S i)).
Qed.

(** A heap in which the blocks are not linked to anything yet. *)
Definition unlinked (h : heap) : Prop := ∀ i, prev h (Blk i) = None ∧ next h (Blk i) = None.

(** The links after the first [k] iterations of the constructor's loop. *)
Definition init_inv (blocks : list ref) (h0 : heap) (k : nat) (h : heap) : Prop :=
  same_payload h0 h ∧
  (∀ r, r ∉ blocks → prev h r = prev h0 r ∧ next h r = next h0 r) ∧
  (∀ i b, blocks !! i = Some b →
    prev h b = (if decide (i < k ∧ 0 < i)%nat then blocks !! (i - 1)%nat else None) ∧
    next h b = (if decide (i < k)%nat then blocks !! S i else None)).

Lemma init_inv_0 blocks h :
  unlinked h → Forall (λ r, ∃ i, r = Blk i) blocks → init_inv blocks h 0 h.
Proof.
  intros Hu Hb. split_and!; [done..|]. intros i b Hi.
  eapply Forall_lookup_1 in Hb as [j ->]; [|done]. by rewrite !decide_False by lia.
Qed.

Lemma init_inv_step blocks h0 k h b h' :
  NoDup blocks → blocks !! k = Some b → init_inv blocks h0 k h →
  same_payload h h' →
  (∀ r, prev h' r = if decide (b = r ∧ (0 < k)%nat) then blocks !! (k - 1)%nat else prev h r) →
  (∀ r, next h' r = if decide (b = r) then blocks !! S k else next h r) →
  init_inv blocks h0 (S k) h'.
Proof.
  intros Hnd Hk (Hpay & Hout & Hin) Hpay' Hp' Hn'. split_and!.
  - by etrans.
  - intros r Hr. assert (b ≠ r) by (intros <-; apply Hr; by eapply list_elem_of_lookup_2).
    rewrite Hp', Hn', !decide_False by tauto. auto.
  - intros i c Hi. destruct (Hin _ _ Hi) as [Hp Hn]. rewrite Hp', Hn'.
    destruct (decide (b = c)) as [<-|Hbc].
    + assert (i = k) as -> by (by eapply NoDup_lookup).
      rewrite (decide_True (P := (k < S k)%nat)) by lia. split; [|done].
      destruct (decide (0 < k)%nat).
      * by rewrite !decide_True by (split; done || lia).
      * rewrite !decide_False by lia. rewrite Hp, decide_False; [done|lia].
    + assert (i ≠ k) by (intros ->; congruence).
      rewrite (decide_False (P := (b = c ∧ _)%type)) by tauto. rewrite Hp, Hn.
      split; repeat case_decide; (done || lia).
Qed.

Lemma seqZ_split n done x todo : seqZ 0 n = done ++ x :: todo → x = Z.of_nat (length done).
Proof.
  intros H. assert (seqZ 0 n !! length done = Some x) as Hx.
  { rewrite H. by apply list_lookup_middle. }
  apply lookup_seqZ in Hx. lia.
Qed.

(** The body of the loop, for index [k] of the list. *)
Lemma init_body blocks h0 k (q : FreeKVCacheBlockQueue) :
  NoDup blocks → (k < length blocks)%nat → init_inv blocks h0 k (q_heap q) →
  wp (b ← or_raise IndexError (py_get blocks (Z.of_nat k));
      _ ← (if 0 <? Z.of_nat k then
             p ← or_raise IndexError (py_get blocks (Z.of_nat k - 1));
             store (set_prev (Some p)) b
           else mret tt);
      if Z.of_nat k <? len blocks - 1 then
        x ← or_raise IndexError (py_get blocks (Z.of_nat k + 1));
        store (set_next (Some x)) b
      else mret tt)
    (λ _ q', num_free_blocks q' = num_free_blocks q ∧
             init_inv blocks h0 (S k) (q_heap q')) q.
Proof.
  intros Hnd Hk Hinv. unfold len.
  destruct (lookup_lt_is_Some_2 blocks k Hk) as [b Hb].
  apply wp_bind. eapply wp_or_raise; [by rewrite py_get_nonneg, Nat2Z.id by lia|].
  apply wp_bind. apply wp_mono with (λ _ q', num_free_blocks q' = num_free_blocks q ∧
    same_payload (q_heap q) (q_heap q') ∧ (∀ r, next (q_heap q') r = next (q_heap q) r) ∧
    (∀ r, prev (q_heap q') r = if decide (b = r ∧ (0 < k)%nat)
                                then blocks !! (k - 1)%nat else prev (q_heap q) r)).
  { destruct (Z.ltb_spec 0 (Z.of_nat k)).
    - destruct (lookup_lt_is_Some_2 blocks (k - 1)) as [p Hp]; [lia|].
      apply wp_bind. eapply wp_or_raise.
      { rewrite py_get_nonneg by lia. by replace (Z.to_nat (Z.of_nat k - 1)) with (k - 1)%nat by lia. }
      rewrite Hp. run_queue. split_and!; [done|solve_payload|intros; solve_links|].
      intros r. autorewrite with links. repeat case_decide; done || intuition lia.
    - apply wp_ret. split_and!; [done..|]. intros r. by rewrite decide_False by lia. }
  intros _ q1 (Hnum & Hpay & Hn & Hp).
  destruct (Z.ltb_spec (Z.of_nat k) (Z.of_nat (length blocks) - 1)).
  - destruct (lookup_lt_is_Some_2 blocks (S k)) as [x Hx]; [lia|].
    apply wp_bind. eapply wp_or_raise.
    { rewrite py_get_nonneg by lia. by replace (Z.to_nat (Z.of_nat k + 1)) with (S k)%nat by lia. }
    run_queue. split; [done|].
    eapply init_inv_step; [done..|etrans; [done|solve_payload]| |]; intros r;
      autorewrite with links; [by rewrite Hp|]. by rewrite Hn, Hx.
  - apply wp_ret. split; [done|]. eapply init_inv_step; [done..|]. intros r. rewrite Hn.
    destruct (decide (b = r)) as [<-|]; [|reflexivity]. destruct Hinv as (_ & _ & Hin).
    destruct (Hin _ _ Hb) as [_ ->]. rewrite decide_False by lia.
    symmetry. apply lookup_ge_None_2. lia.
Qed.

(** Allocating the two sentinels. *)
Definition with_sentinels (h : heap) : heap :=
  <[FakeTail := new_block (-1)]> (<[FakeHead := new_block (-1)]> h).

Lemma with_sentinels_lookup h r :
  with_sentinels h !!! r =
    match r with Blk _ => h !!! r | _ => new_block (-1) end.
Proof.
  unfold with_sentinels. rewrite !lookup_total_insert. destruct r; repeat case_decide; congruence.
Qed.

Lemma next_with_sentinels h r :
  next (with_sentinels h) r = match r with Blk _ => next h r | _ => None end.
Proof. unfold next. rewrite with_sentinels_lookup. by destruct r. Qed.
Lemma prev_with_sentinels h r :
  prev (with_sentinels h) r = match r with Blk _ => prev h r | _ => None end.
Proof. unfold prev. rewrite with_sentinels_lookup. by destruct r. Qed.
#[global] Hint Rewrite next_with_sentinels prev_with_sentinels : links.

Lemma same_payload_with_sentinels h : same_payload h (with_sentinels h).
Proof. intros i. by rewrite with_sentinels_lookup. Qed.

(** Connecting the sentinels to the first and the last block. *)
Lemma init_connect blocks h0 h first last :
  NoDup blocks → Forall (λ r, ∃ i, r = Blk i) blocks → unlinked h0 →
  init_inv blocks h0 (length blocks) h →
  blocks !! 0%nat = Some first → blocks !! (length blocks - 1)%nat = Some last →
  queue_rep (mkQueue
    (upd (set_next (Some FakeTail)) last (upd (set_prev (Some last)) FakeTail
      (upd (set_prev (Some FakeHead)) first (upd (set_next (Some first)) FakeHead
        (with_sentinels h))))) (len blocks)) blocks.
Proof.
  intros Hnd Hreal Hu (_ & Hout & Hin) Hf Hl.
  assert (HB : ∀ r, r ∈ blocks → ∃ i, r = Blk i) by (by rewrite <- Forall_forall).
  destruct (HB first) as [f ->]; [by eapply list_elem_of_lookup_2|].
  destruct (HB last) as [t ->]; [by eapply list_elem_of_lookup_2|].
  split; simpl.
  - rewrite NoDup_cons, NoDup_app, not_elem_of_app. split_and!; [| |done| |apply NoDup_singleton].
    + intros H. by destruct (HB _ H).
    + set_solver.
    + intros r Hr ->%list_elem_of_singleton. by destruct (HB _ Hr).
  - apply linked_index. intros i x y Hx Hy. destruct i as [|i]; simpl in Hx.
    + assert (y = Blk f) as -> by (destruct blocks; simplify_eq/=; done). simplify_eq.
      split; solve_links.
    + assert (Hxi := Hx). rewrite lookup_app in Hx, Hy.
      destruct (blocks !! i) as [c|] eqn:Hc; simplify_eq.
      2: { apply lookup_ge_None in Hc. destruct (blocks !! S i) eqn:E;
           [apply lookup_lt_Some in E; lia|].
           apply lookup_lt_Some in Hy. simpl in Hy. lia. }
      destruct (HB x) as [j ->]; [by eapply list_elem_of_lookup_2|].
      destruct (Hin _ _ Hc) as [_ Hnx].
      rewrite decide_True in Hnx by (by eapply lookup_lt_Some).
      destruct (blocks !! S i) as [d|] eqn:Hd; simplify_eq.
      * destruct (HB y) as [m ->]; [by eapply list_elem_of_lookup_2|].
        destruct (Hin _ _ Hd) as [Hpv _]. pose proof (lookup_lt_Some _ _ _ Hd).
        rewrite decide_True in Hpv by lia. simpl in Hpv. rewrite Nat.sub_0_r, Hc in Hpv.
        assert (Blk t ≠ Blk j) by (intros E; rewrite <- E in Hc; assert (i = (length blocks - 1)%nat)
          by (by eapply NoDup_lookup); lia).
        assert (Blk f ≠ Blk m) by (intros E; rewrite <- E in Hd;
          by assert (S i = 0%nat) by (by eapply NoDup_lookup)).
        split; solve_links.
      * apply lookup_ge_None in Hd. pose proof (lookup_lt_Some _ _ _ Hc).
        assert (i = (length blocks - 1)%nat) as -> by lia. simplify_eq.
        replace (S (length blocks - 1) - length blocks)%nat with 0%nat in Hy by lia.
        simplify_eq/=. split; solve_links.
  - solve_links.
  - solve_links.
  - intros i Hi. destruct (Hout _ Hi) as [-> ->] || destruct (Hout _ Hi) as [Hp Hn].
    assert (Blk f ≠ Blk i ∧ Blk t ≠ Blk i) as [? ?]
      by (split; intros E; rewrite <- E in Hi; apply Hi; by eapply list_elem_of_lookup_2).
    destruct (Hu i) as [Hu1 Hu2]. rewrite Hu1 in Hp. rewrite Hu2 in Hn. split; solve_links.
  - done.
Qed.

Lemma queue_init_rep blocks q :
  NoDup blocks → Forall (λ r, ∃ i, r = Blk i) blocks → unlinked (q_heap q) →
  wp (queue_init blocks)
    (λ _ q', queue_rep q' blocks ∧ same_payload (q_heap q) (q_heap q')) q.
Proof.
  intros Hnd Hreal Hu. unfold queue_init. apply wp_bind, wp_modify, wp_bind.
  apply wp_for with (I := λ done q', num_free_blocks q' = len blocks ∧
    init_inv blocks (q_heap q) (length done) (q_heap q')).
  { split; [done|]. by apply init_inv_0. }
  { intros done x todo q' Hd [Hnum Hinv]. unfold py_range in Hd. rewrite Z.sub_0_r in Hd.
    apply seqZ_split in Hd as Hx. rewrite length_app, Nat.add_1_r, Hx.
    eapply wp_mono; [eapply init_body; [exact Hnd| |exact Hinv]|].
    - apply (f_equal length) in Hd. rewrite length_seqZ, length_app in Hd.
      unfold len in Hd. simpl in Hd. lia.
    - intros _ q2 [? ?]. by rewrite <- Hnum. }
  intros q1 [Hnum1 Hinv]. unfold py_range in Hinv. rewrite length_seqZ, Z.sub_0_r in Hinv.
  unfold len in Hinv. rewrite Nat2Z.id in Hinv. pose proof Hinv as (Hpay & Hout & _).
  apply wp_bind, wp_modify. fold (with_sentinels (q_heap q1)).
  destruct (Z.ltb_spec 0 (len blocks)) as [Hpos|Hpos]; unfold len in Hpos.
  - destruct (lookup_lt_is_Some_2 blocks 0) as [first Hf]; [lia|].
    destruct (lookup_lt_is_Some_2 blocks (length blocks - 1)) as [last Hl]; [lia|].
    apply wp_bind. eapply wp_or_raise; [by rewrite py_get_nonneg by lia|].
    apply wp_bind. eapply wp_or_raise.
    { unfold py_get. simpl. rewrite (proj2 (Z.ltb_ge _ 0)) by lia.
      by replace (Z.to_nat (Z.of_nat (length blocks) + -1)) with (length blocks - 1)%nat by lia. }
    run_queue. rewrite Hnum1. split; [by eapply init_connect|].
    etrans; [exact Hpay|]. etrans; [apply same_payload_with_sentinels|solve_payload].
  - destruct blocks as [|b blocks]; simpl in Hpos; [|lia]. run_queue. split; [split; simpl|].
    + repeat constructor; set_solver.
    + split_and!; [solve_links..|done].
    + solve_links.
    + solve_links.
    + intros i Hi. destruct (Hout _ Hi) as [Hp Hn]. destruct (Hu i) as [Hu1 Hu2].
      split; solve_links; congruence.
    + done.
    + etrans; [exact Hpay|]. etrans; [apply same_payload_with_sentinels|solve_payload].
Qed.

Lemma walk_run h l : ∀ fuel c m acc,
  c :: m = l ++ [FakeTail] → linked h c m → next h FakeTail = None →
  (length l < fuel)%nat → walk fuel h c acc = Some (acc ++ l).
Proof.
  induction l as [|b l IH]; intros fuel c m acc Hm Hlk Ht Hf;
    destruct fuel as [|fuel]; simpl in *; simplify_eq; try lia.
  - unfold next in Ht. by rewrite Ht, app_nil_r.
  - destruct (l ++ [FakeTail]) as [|d m'] eqn:E; [by destruct l|].
    destruct Hlk as (Hn & _ & Hlk). unfold next in Hn. rewrite Hn.
    rewrite (IH _ d m') by (done || lia). by rewrite <- app_assoc.
Qed.

Lemma get_all_free_blocks_rep q l fuel :
  queue_rep q l → (length l < fuel)%nat → get_all_free_blocks fuel q = Ok (Some l).
Proof.
  intros [_ Hlk _ Ht _ _] Hf. unfold get_all_free_blocks.
  destruct (l ++ [FakeTail]) as [|c m] eqn:E; [by destruct l|].
  destruct Hlk as (Hn & _ & Hlk). unfold next in Hn. rewrite Hn.
  by rewrite (walk_run _ l _ c m).
Qed.

(** ** The queue simulates the deque *)

Inductive queue_op :=
  | Popleft
  | PopleftN (n : Z)
  | Remove (b : ref)
  | Append (b : ref)
  | AppendN (bs : list ref).

(** One call, with the blocks it returns. *)
Definition run_op (o : queue_op) : M FreeKVCacheBlockQueue (list ref) :=
  match o with
  | Popleft => b ← popleft; mret [b]
  | PopleftN n => popleft_n n
  | Remove b => _ ← remove b; mret []
  | Append b => _ ← append b; mret []
  | AppendN bs => _ ← append_n bs; mret []
  end.

Definition is_real (r : ref) : Prop := match r with Blk _ => True | _ => False end.

#[global] Instance is_real_dec r : Decision (is_real r).
Proof. destruct r; apply _. Defined.

(** The same call on the deque; [None] when the caller breaks its contract: it
    takes more than there is, removes a block that is not free, or frees a block
    that is already free. *)
Definition spec_op (o : queue_op) (l : list ref) : option (list ref * list ref) :=
  match o with
  | Popleft => '(b, l') ← Spec.popleft l; Some ([b], l')
  | PopleftN n => if decide (0 ≤ n ≤ len l) then Some (Spec.popleft_n (Z.to_nat n) l) else None
  | Remove b => if decide (b ∈ l) then Some ([], Spec.remove b l) else None
  | Append b => if decide (b ∉ l ∧ is_real b) then Some ([], Spec.append_n [b] l) else None
  | AppendN bs =>
      if decide (NoDup bs ∧ Forall (λ b, b ∉ l ∧ is_real b) bs)
      then Some ([], Spec.append_n bs l) else None
  end.

Lemma is_real_Blk r : is_real r ↔ ∃ i, r = Blk i.
Proof. destruct r; simpl; naive_solver. Qed.

Lemma remove_middle (l1 l2 : list ref) b :
  NoDup (l1 ++ b :: l2) → Spec.remove b (l1 ++ b :: l2) = l1 ++ l2.
Proof.
  intros Hnd. apply NoDup_app in Hnd as (_ & Hd & Hnd). inversion_clear Hnd as [|?? Hb Hnd2].
  unfold Spec.remove. rewrite filter_app, filter_cons_False by tauto.
  rewrite !filter_ne_id; [done|done|]. intros Hr. apply (Hd b Hr). by left.
Qed.

Lemma run_op_spec o q l outs l' :
  queue_rep q l → spec_op o l = Some (outs, l') →
  wp (run_op o) (λ r q', r = outs ∧ queue_rep q' l' ∧ same_payload (q_heap q) (q_heap q')) q.
Proof.
  intros HR Hs. destruct o as [|n|b|b|bs]; simpl in *.
  - destruct l as [|b l0]; simplify_eq/=. apply wp_bind.
    eapply wp_mono; [by apply popleft_rep|]. intros ? q' (-> & ? & ?). by apply wp_ret.
  - case_decide; simplify_eq. injection Hs as <- <-. by apply popleft_n_rep.
  - case_decide as Hb; simplify_eq. apply list_elem_of_split in Hb as (l1 & l2 & ->).
    rewrite remove_middle by by eapply queue_rep_nodup.
    apply wp_bind. eapply wp_mono; [by apply remove_rep|]. intros ? q' [??]. by apply wp_ret.
  - case_decide as Hb; simplify_eq. apply wp_bind.
    eapply wp_mono; [apply append_rep; [done|tauto|apply is_real_Blk; tauto]|].
    intros ? q' [??]. by apply wp_ret.
  - case_decide as Hb; simplify_eq. destruct Hb as [? Hb]. apply wp_bind.
    eapply wp_mono; [apply append_n_rep; [done..|]|intros ? q' [??]; by apply wp_ret].
    intros r Hr. rewrite Forall_forall in Hb. destruct (Hb _ Hr). split; [done|by apply is_real_Blk].
Qed.

(** A sequence of calls, with everything they return. *)
Fixpoint run_ops (os : list queue_op) : M FreeKVCacheBlockQueue (list (list ref)) :=
  match os with
  | [] => mret []
  | o :: os => r ← run_op o; rs ← run_ops os; mret (r :: rs)
  end.

Fixpoint spec_ops (os : list queue_op) (l : list ref) : option (list (list ref) * list ref) :=
  match os with
  | [] => Some ([], l)
  | o :: os => '(r, l) ← spec_op o l; '(rs, l) ← spec_ops os l; Some (r :: rs, l)
  end.

Lemma run_ops_spec os : ∀ q l outs l',
  queue_rep q l → spec_ops os l = Some (outs, l') →
  wp (run_ops os) (λ r q', r = outs ∧ queue_rep q' l' ∧ same_payload (q_heap q) (q_heap q')) q.
Proof.
  induction os as [|o os IH]; intros q l outs l' HR Hs; simpl in *.
  - by simplify_eq.
  - destruct (spec_op o l) as [[r1 l1]|] eqn:E1; simplify_eq/=.
    destruct (spec_ops os l1) as [[rs l2]|] eqn:E2; simplify_eq/=.
    apply wp_bind. eapply wp_mono; [by eapply run_op_spec|]. intros ? q1 (-> & HR1 & Hp1).
    apply wp_bind. eapply wp_mono; [by eapply IH|]. intros ? q2 (-> & HR2 & Hp2).
    apply wp_ret. split_and!; [done..|by etrans].
Qed.

(** C30: The intrusive doubly linked list is a deque.  For every sequence of calls of
    [popleft], [popleft_n], [remove], [append] and [append_n] that respects the
    contract of the deque, starting from the queue the constructor builds over
    distinct unlinked blocks, no call raises, the calls return the blocks the deque
    returns, [get_all_free_blocks] then lists the deque, [num_free_blocks] is its
    length, and no field of a block but its links has changed. *)
Theorem free_queue_is_a_deque blocks q os outs l' :
  NoDup blocks → Forall is_real blocks → unlinked (q_heap q) →
  spec_ops os blocks = Some (outs, l') →
  ∃ q', (queue_init blocks ≫= λ _, run_ops os) q = (Ok outs, q') ∧
    get_all_free_blocks (S (length l')) q' = Ok (Some l') ∧
    num_free_blocks q' = len l' ∧ same_payload (q_heap q) (q_heap q').
Proof.
  intros Hnd Hreal Hu Hs.
  assert (wp (queue_init blocks ≫= λ _, run_ops os) (λ r q', r = outs ∧ queue_rep q' l' ∧
    same_payload (q_heap q) (q_heap q')) q) as (r & q' & Hrun & -> & HR & Hp)%wp_run.
  { apply wp_bind. eapply wp_mono; [apply queue_init_rep; [done| |done]|].
    - eapply Forall_impl; [exact Hreal|]. intros r. by apply is_real_Blk.
    - intros _ q1 [HR1 Hp1]. eapply wp_mono; [by eapply run_ops_spec|].
      intros ? q2 (-> & HR2 & Hp2). split_and!; [done..|by etrans]. }
  exists q'. split_and!; [done| |by apply qr_num|done].
  apply get_all_free_blocks_rep; [done|lia].
Qed.

Lemma free_queue_is_a_deque_witness :
  ∃ q', (queue_init [Blk 0; Blk 1; Blk 2; Blk 3] ≫= λ _,
           run_ops [PopleftN 2; Remove (Blk 3); AppendN [Blk 1; Blk 0]; Popleft]) (mkQueue ∅ 0) =
          (Ok [[Blk 0; Blk 1]; []; []; [Blk 2]], q') ∧
        get_all_free_blocks 3 q' = Ok (Some [Blk 1; Blk 0]).
Proof.
  destruct (free_queue_is_a_deque [Blk 0; Blk 1; Blk 2; Blk 3] (mkQueue ∅ 0)
    [PopleftN 2; Remove (Blk 3); AppendN [Blk 1; Blk 0]; Popleft]
    [[Blk 0; Blk 1]; []; []; [Blk 2]] [Blk 1; Blk 0]) as (q' & Hr & Hg & _).
  - by apply (bool_decide_unpack _).
  - by apply (bool_decide_unpack _).
  - intros i. split; reflexivity.
  - vm_compute. reflexivity.
  - by exists q'.
Defined.

(** C40: The error paths of the queue: popping from an empty queue raises
    [ValueError], popping more blocks than are free fails an assertion, and removing
    a block that is not in the queue raises [RuntimeError]; each leaves the queue as
    it was. *)
Theorem free_queue_errors q l :
  queue_rep q l →
  (l = [] → popleft q = (Raise ValueError, q)) ∧
  (∀ n, len l < n → popleft_n n q = (Raise AssertionError, q)) ∧
  (∀ i, Blk i ∉ l → remove (Blk i) q = (Raise RuntimeError, q)).
Proof.
  intros HR. split_and!.
  - intros ->. by apply popleft_empty.
  - intros n Hn. apply popleft_n_short; [pose proof (len_nonneg l); lia|].
    by rewrite (qr_num _ _ HR).
  - intros i. by apply remove_unlinked.
Qed.

Lemma free_queue_errors_witness :
  popleft (mkQueue {[ FakeHead := set_next (Some FakeTail) (new_block (-1));
                      FakeTail := set_prev (Some FakeHead) (new_block (-1)) ]} 0) =
    (Raise ValueError, mkQueue {[ FakeHead := set_next (Some FakeTail) (new_block (-1));
                      FakeTail := set_prev (Some FakeHead) (new_block (-1)) ]} 0).
Proof.
  apply (free_queue_errors _ []); [|done]. split.
  - by apply (bool_decide_unpack _).
  - done.
  - done.
  - done.
  - intros i _. done.
  - done.
Defined.
