(* ===== verification/Request.v ===== *)
(** * Requests

    [Request] and [RequestStatus] of vllm/v1/request.py with the data they carry:
    sampling parameters, multi-modal features, LoRA request, streaming updates.
    A request is an object the scheduler mutates: its methods are operations of
    the monad over [Request].  The block hasher a request is built with is a
    parameter of the operations that call it; BlockHash.v defines it.
    [arrival_time] and the event timestamps are clock ticks, and [object_id] is
    the identity Python's [id] returns. *)

From S2P Require Import Prelude FreeQueue.

Inductive RequestStatus :=
  | WAITING
  | WAITING_FOR_STRUCTURED_OUTPUT_GRAMMAR
  | WAITING_FOR_REMOTE_KVS
  | WAITING_FOR_STREAMING_REQ
  | RUNNING
  | PREEMPTED
  | FINISHED_STOPPED
  | FINISHED_LENGTH_CAPPED
  | FINISHED_ABORTED
  | FINISHED_IGNORED
  | FINISHED_ERROR
  | FINISHED_REPETITION.

#[global] Instance RequestStatus_eq_dec : EqDecision RequestStatus.
Proof. solve_decision. Defined.

(** The value [enum.auto()] gives each member. *)
Definition status_value (s : RequestStatus) : Z :=
  match s with
  | WAITING => 1
  | WAITING_FOR_STRUCTURED_OUTPUT_GRAMMAR => 2
  | WAITING_FOR_REMOTE_KVS => 3
  | WAITING_FOR_STREAMING_REQ => 4
  | RUNNING => 5
  | PREEMPTED => 6
  | FINISHED_STOPPED => 7
  | FINISHED_LENGTH_CAPPED => 8
  | FINISHED_ABORTED => 9
  | FINISHED_IGNORED => 10
  | FINISHED_ERROR => 11
  | FINISHED_REPETITION => 12
  end.

Definition status_is_finished (s : RequestStatus) : bool :=
  status_value PREEMPTED <? status_value s.

Inductive FinishReason := STOP | LENGTH | ABORT | ERROR | REPETITION.

#[global] Instance FinishReason_eq_dec : EqDecision FinishReason.
Proof. solve_decision. Defined.

(** [_FINISHED_REASON_MAP.get(status)] *)
Definition status_get_finished_reason (s : RequestStatus) : option FinishReason :=
  match s with
  | FINISHED_STOPPED => Some STOP
  | FINISHED_LENGTH_CAPPED => Some LENGTH
  | FINISHED_ABORTED => Some ABORT
  | FINISHED_IGNORED => Some LENGTH
  | FINISHED_ERROR => Some ERROR
  | WAITING_FOR_STREAMING_REQ => Some STOP
  | FINISHED_REPETITION => Some REPETITION
  | _ => None
  end.

Inductive EngineCoreEventType := QUEUED | SCHEDULED | EVENT_PREEMPTED.

Record EngineCoreEvent := mkEvent {
  event_type : EngineCoreEventType;
  timestamp : Z
}.

Inductive StopReason :=
  | StopToken (t : Z)
  | StopString (s : string).

Record RepetitionDetectionParams := mkRepetition {
  max_pattern_size : Z;
  min_pattern_size : Z;
  min_count : Z
}.

(** The constraint fields of [StructuredOutputsParams]. *)
Record StructuredOutputsParams := mkStructuredOutputs {
  so_json : option string;
  so_regex : option string;
  so_choice : option string;
  so_grammar : option string;
  so_json_object : option bool;
  so_structural_tag : option string
}.

Definition all_constraints_none (p : StructuredOutputsParams) : bool :=
  bool_decide (so_json p = None) && bool_decide (so_regex p = None) &&
  bool_decide (so_choice p = None) && bool_decide (so_grammar p = None) &&
  bool_decide (so_json_object p = None) && bool_decide (so_structural_tag p = None).

Record StructuredOutputRequest := mkStructuredOutputRequest {
  so_params : StructuredOutputsParams;
  reasoning_ended : option bool
}.

Record SamplingParams := mkSamplingParams {
  sp_max_tokens : option Z;
  sp_min_tokens : Z;
  sp_eos_token_id : option Z;
  sp_stop_token_ids : option (list Z);
  sp_repetition_detection : option RepetitionDetectionParams;
  sp_skip_reading_prefix_cache : option bool;
  sp_structured_outputs : option StructuredOutputsParams;
  sp_extra_args : option (gmap string string)
}.

Record PoolingParams := mkPoolingParams {
  pp_task : option string;
  pp_skip_reading_prefix_cache : option bool
}.

Record LoRARequest := mkLoRARequest {
  lora_name : string;
  lora_int_id : Z
}.

(** [is_embed] is the boolean mask of the positions that take an embedding. *)
Record PlaceholderRange := mkPlaceholderRange {
  offset : Z;
  length_ : Z;
  is_embed : option (list bool)
}.

Record MultiModalFeatureSpec := mkFeature {
  modality : string;
  identifier : string;
  mm_position : PlaceholderRange
}.

Record PrefillStats := mkPrefillStats {
  ps_num_prompt_tokens : Z;
  ps_num_computed_tokens : Z;
  ps_num_cached_tokens : Z;
  ps_num_local_cached_tokens : Z;
  ps_num_external_cached_tokens : Z
}.

Record StreamingUpdate := mkStreamingUpdate {
  su_mm_features : option (list MultiModalFeatureSpec);
  su_prompt_token_ids : option (list Z);
  su_max_tokens : Z;
  su_arrival_time : Z;
  su_sampling_params : option SamplingParams
}.

(** ** The fields of a request and the assignments to them *)

Record Request := mkRequest {
  request_id : string;
  client_index : Z;
  priority : Z;
  sampling_params : option SamplingParams;
  pooling_params : option PoolingParams;
  lora_request : option LoRARequest;
  structured_output_request : option StructuredOutputRequest;
  arrival_time : Z;
  status : RequestStatus;
  events : list EngineCoreEvent;
  stop_reason : option StopReason;
  max_tokens : Z;
  prompt_token_ids : option (list Z);
  prompt_embeds : option (list bytes);
  _prompt_embeds_per_block_hashes : gmap (Z * Z) bytes;
  num_prompt_tokens : Z;
  _output_token_ids : list Z;
  _all_token_ids : list Z;
  num_output_placeholders : Z;
  discard_latest_async_tokens : bool;
  spec_token_ids : list Z;
  num_computed_tokens : Z;
  cache_salt : option string;
  mm_features : list MultiModalFeatureSpec;
  is_prefill_chunk : bool;
  num_preemptions : Z;
  prefill_stats : option PrefillStats;
  block_hashes : list bytes;
  skip_reading_prefix_cache : bool;
  resumable : bool;
  streaming_queue : option (list (option StreamingUpdate));
  kv_transfer_params : option string;
  num_nans_in_logits : Z;
  object_id : Z
}.

Definition set_sampling_params (v : option SamplingParams) (r : Request) : Request :=
  mkRequest
    (request_id r) (client_index r) (priority r) v (pooling_params r) (lora_request r)
    (structured_output_request r) (arrival_time r) (status r) (events r) (stop_reason r)
    (max_tokens r) (prompt_token_ids r) (prompt_embeds r)
    (_prompt_embeds_per_block_hashes r) (num_prompt_tokens r) (_output_token_ids r)
    (_all_token_ids r) (num_output_placeholders r) (discard_latest_async_tokens r)
    (spec_token_ids r) (num_computed_tokens r) (cache_salt r) (mm_features r)
    (is_prefill_chunk r) (num_preemptions r) (prefill_stats r) (block_hashes r)
    (skip_reading_prefix_cache r) (resumable r) (streaming_queue r) (kv_transfer_params
    r) (num_nans_in_logits r) (object_id r).
Definition set_arrival_time (v : Z) (r : Request) : Request :=
  mkRequest
    (request_id r) (client_index r) (priority r) (sampling_params r) (pooling_params r)
    (lora_request r) (structured_output_request r) v (status r) (events r) (stop_reason
    r) (max_tokens r) (prompt_token_ids r) (prompt_embeds r)
    (_prompt_embeds_per_block_hashes r) (num_prompt_tokens r) (_output_token_ids r)
    (_all_token_ids r) (num_output_placeholders r) (discard_latest_async_tokens r)
    (spec_token_ids r) (num_computed_tokens r) (cache_salt r) (mm_features r)
    (is_prefill_chunk r) (num_preemptions r) (prefill_stats r) (block_hashes r)
    (skip_reading_prefix_cache r) (resumable r) (streaming_queue r) (kv_transfer_params
    r) (num_nans_in_logits r) (object_id r).
Definition set_status (v : RequestStatus) (r : Request) : Request :=
  mkRequest
    (request_id r) (client_index r) (priority r) (sampling_params r) (pooling_params r)
    (lora_request r) (structured_output_request r) (arrival_time r) v (events r)
    (stop_reason r) (max_tokens r) (prompt_token_ids r) (prompt_embeds r)
    (_prompt_embeds_per_block_hashes r) (num_prompt_tokens r) (_output_token_ids r)
    (_all_token_ids r) (num_output_placeholders r) (discard_latest_async_tokens r)
    (spec_token_ids r) (num_computed_tokens r) (cache_salt r) (mm_features r)
    (is_prefill_chunk r) (num_preemptions r) (prefill_stats r) (block_hashes r)
    (skip_reading_prefix_cache r) (resumable r) (streaming_queue r) (kv_transfer_params
    r) (num_nans_in_logits r) (object_id r).
Definition set_events (v : list EngineCoreEvent) (r : Request) : Request :=
  mkRequest
    (request_id r) (client_index r) (priority r) (sampling_params r) (pooling_params r)
    (lora_request r) (structured_output_request r) (arrival_time r) (status r) v
    (stop_reason r) (max_tokens r) (prompt_token_ids r) (prompt_embeds r)
    (_prompt_embeds_per_block_hashes r) (num_prompt_tokens r) (_output_token_ids r)
    (_all_token_ids r) (num_output_placeholders r) (discard_latest_async_tokens r)
    (spec_token_ids r) (num_computed_tokens r) (cache_salt r) (mm_features r)
    (is_prefill_chunk r) (num_preemptions r) (prefill_stats r) (block_hashes r)
    (skip_reading_prefix_cache r) (resumable r) (streaming_queue r) (kv_transfer_params
    r) (num_nans_in_logits r) (object_id r).
Definition set_stop_reason (v : option StopReason) (r : Request) : Request :=
  mkRequest
    (request_id r) (client_index r) (priority r) (sampling_params r) (pooling_params r)
    (lora_request r) (structured_output_request r) (arrival_time r) (status r) (events
    r) v (max_tokens r) (prompt_token_ids r) (prompt_embeds r)
    (_prompt_embeds_per_block_hashes r) (num_prompt_tokens r) (_output_token_ids r)
    (_all_token_ids r) (num_output_placeholders r) (discard_latest_async_tokens r)
    (spec_token_ids r) (num_computed_tokens r) (cache_salt r) (mm_features r)
    (is_prefill_chunk r) (num_preemptions r) (prefill_stats r) (block_hashes r)
    (skip_reading_prefix_cache r) (resumable r) (streaming_queue r) (kv_transfer_params
    r) (num_nans_in_logits r) (object_id r).
Definition set_prompt_token_ids (v : option (list Z)) (r : Request) : Request :=
  mkRequest
    (request_id r) (client_index r) (priority r) (sampling_params r) (pooling_params r)
    (lora_request r) (structured_output_request r) (arrival_time r) (status r) (events
    r) (stop_reason r) (max_tokens r) v (prompt_embeds r)
    (_prompt_embeds_per_block_hashes r) (num_prompt_tokens r) (_output_token_ids r)
    (_all_token_ids r) (num_output_placeholders r) (discard_latest_async_tokens r)
    (spec_token_ids r) (num_computed_tokens r) (cache_salt r) (mm_features r)
    (is_prefill_chunk r) (num_preemptions r) (prefill_stats r) (block_hashes r)
    (skip_reading_prefix_cache r) (resumable r) (streaming_queue r) (kv_transfer_params
    r) (num_nans_in_logits r) (object_id r).
Definition set_prompt_embeds_per_block_hashes (v : gmap (Z * Z) bytes) (r : Request) : Request :=
  mkRequest
    (request_id r) (client_index r) (priority r) (sampling_params r) (pooling_params r)
    (lora_request r) (structured_output_request r) (arrival_time r) (status r) (events
    r) (stop_reason r) (max_tokens r) (prompt_token_ids r) (prompt_embeds r) v
    (num_prompt_tokens r) (_output_token_ids r) (_all_token_ids r)
    (num_output_placeholders r) (discard_latest_async_tokens r) (spec_token_ids r)
    (num_computed_tokens r) (cache_salt r) (mm_features r) (is_prefill_chunk r)
    (num_preemptions r) (prefill_stats r) (block_hashes r) (skip_reading_prefix_cache r)
    (resumable r) (streaming_queue r) (kv_transfer_params r) (num_nans_in_logits r)
    (object_id r).
Definition set_num_prompt_tokens (v : Z) (r : Request) : Request :=
  mkRequest
    (request_id r) (client_index r) (priority r) (sampling_params r) (pooling_params r)
    (lora_request r) (structured_output_request r) (arrival_time r) (status r) (events
    r) (stop_reason r) (max_tokens r) (prompt_token_ids r) (prompt_embeds r)
    (_prompt_embeds_per_block_hashes r) v (_output_token_ids r) (_all_token_ids r)
    (num_output_placeholders r) (discard_latest_async_tokens r) (spec_token_ids r)
    (num_computed_tokens r) (cache_salt r) (mm_features r) (is_prefill_chunk r)
    (num_preemptions r) (prefill_stats r) (block_hashes r) (skip_reading_prefix_cache r)
    (resumable r) (streaming_queue r) (kv_transfer_params r) (num_nans_in_logits r)
    (object_id r).
Definition set_output_token_ids (v : list Z) (r : Request) : Request :=
  mkRequest
    (request_id r) (client_index r) (priority r) (sampling_params r) (pooling_params r)
    (lora_request r) (structured_output_request r) (arrival_time r) (status r) (events
    r) (stop_reason r) (max_tokens r) (prompt_token_ids r) (prompt_embeds r)
    (_prompt_embeds_per_block_hashes r) (num_prompt_tokens r) v (_all_token_ids r)
    (num_output_placeholders r) (discard_latest_async_tokens r) (spec_token_ids r)
    (num_computed_tokens r) (cache_salt r) (mm_features r) (is_prefill_chunk r)
    (num_preemptions r) (prefill_stats r) (block_hashes r) (skip_reading_prefix_cache r)
    (resumable r) (streaming_queue r) (kv_transfer_params r) (num_nans_in_logits r)
    (object_id r).
Definition set_all_token_ids (v : list Z) (r : Request) : Request :=
  mkRequest
    (request_id r) (client_index r) (priority r) (sampling_params r) (pooling_params r)
    (lora_request r) (structured_output_request r) (arrival_time r) (status r) (events
    r) (stop_reason r) (max_tokens r) (prompt_token_ids r) (prompt_embeds r)
    (_prompt_embeds_per_block_hashes r) (num_prompt_tokens r) (_output_token_ids r) v
    (num_output_placeholders r) (discard_latest_async_tokens r) (spec_token_ids r)
    (num_computed_tokens r) (cache_salt r) (mm_features r) (is_prefill_chunk r)
    (num_preemptions r) (prefill_stats r) (block_hashes r) (skip_reading_prefix_cache r)
    (resumable r) (streaming_queue r) (kv_transfer_params r) (num_nans_in_logits r)
    (object_id r).
Definition set_num_output_placeholders (v : Z) (r : Request) : Request :=
  mkRequest
    (request_id r) (client_index r) (priority r) (sampling_params r) (pooling_params r)
    (lora_request r) (structured_output_request r) (arrival_time r) (status r) (events
    r) (stop_reason r) (max_tokens r) (prompt_token_ids r) (prompt_embeds r)
    (_prompt_embeds_per_block_hashes r) (num_prompt_tokens r) (_output_token_ids r)
    (_all_token_ids r) v (discard_latest_async_tokens r) (spec_token_ids r)
    (num_computed_tokens r) (cache_salt r) (mm_features r) (is_prefill_chunk r)
    (num_preemptions r) (prefill_stats r) (block_hashes r) (skip_reading_prefix_cache r)
    (resumable r) (streaming_queue r) (kv_transfer_params r) (num_nans_in_logits r)
    (object_id r).
Definition set_discard_latest_async_tokens (v : bool) (r : Request) : Request :=
  mkRequest
    (request_id r) (client_index r) (priority r) (sampling_params r) (pooling_params r)
    (lora_request r) (structured_output_request r) (arrival_time r) (status r) (events
    r) (stop_reason r) (max_tokens r) (prompt_token_ids r) (prompt_embeds r)
    (_prompt_embeds_per_block_hashes r) (num_prompt_tokens r) (_output_token_ids r)
    (_all_token_ids r) (num_output_placeholders r) v (spec_token_ids r)
    (num_computed_tokens r) (cache_salt r) (mm_features r) (is_prefill_chunk r)
    (num_preemptions r) (prefill_stats r) (block_hashes r) (skip_reading_prefix_cache r)
    (resumable r) (streaming_queue r) (kv_transfer_params r) (num_nans_in_logits r)
    (object_id r).
Definition set_spec_token_ids (v : list Z) (r : Request) : Request :=
  mkRequest
    (request_id r) (client_index r) (priority r) (sampling_params r) (pooling_params r)
    (lora_request r) (structured_output_request r) (arrival_time r) (status r) (events
    r) (stop_reason r) (max_tokens r) (prompt_token_ids r) (prompt_embeds r)
    (_prompt_embeds_per_block_hashes r) (num_prompt_tokens r) (_output_token_ids r)
    (_all_token_ids r) (num_output_placeholders r) (discard_latest_async_tokens r) v
    (num_computed_tokens r) (cache_salt r) (mm_features r) (is_prefill_chunk r)
    (num_preemptions r) (prefill_stats r) (block_hashes r) (skip_reading_prefix_cache r)
    (resumable r) (streaming_queue r) (kv_transfer_params r) (num_nans_in_logits r)
    (object_id r).
Definition set_num_computed_tokens (v : Z) (r : Request) : Request :=
  mkRequest
    (request_id r) (client_index r) (priority r) (sampling_params r) (pooling_params r)
    (lora_request r) (structured_output_request r) (arrival_time r) (status r) (events
    r) (stop_reason r) (max_tokens r) (prompt_token_ids r) (prompt_embeds r)
    (_prompt_embeds_per_block_hashes r) (num_prompt_tokens r) (_output_token_ids r)
    (_all_token_ids r) (num_output_placeholders r) (discard_latest_async_tokens r)
    (spec_token_ids r) v (cache_salt r) (mm_features r) (is_prefill_chunk r)
    (num_preemptions r) (prefill_stats r) (block_hashes r) (skip_reading_prefix_cache r)
    (resumable r) (streaming_queue r) (kv_transfer_params r) (num_nans_in_logits r)
    (object_id r).
Definition set_mm_features (v : list MultiModalFeatureSpec) (r : Request) : Request :=
  mkRequest
    (request_id r) (client_index r) (priority r) (sampling_params r) (pooling_params r)
    (lora_request r) (structured_output_request r) (arrival_time r) (status r) (events
    r) (stop_reason r) (max_tokens r) (prompt_token_ids r) (prompt_embeds r)
    (_prompt_embeds_per_block_hashes r) (num_prompt_tokens r) (_output_token_ids r)
    (_all_token_ids r) (num_output_placeholders r) (discard_latest_async_tokens r)
    (spec_token_ids r) (num_computed_tokens r) (cache_salt r) v (is_prefill_chunk r)
    (num_preemptions r) (prefill_stats r) (block_hashes r) (skip_reading_prefix_cache r)
    (resumable r) (streaming_queue r) (kv_transfer_params r) (num_nans_in_logits r)
    (object_id r).
Definition set_is_prefill_chunk (v : bool) (r : Request) : Request :=
  mkRequest
    (request_id r) (client_index r) (priority r) (sampling_params r) (pooling_params r)
    (lora_request r) (structured_output_request r) (arrival_time r) (status r) (events
    r) (stop_reason r) (max_tokens r) (prompt_token_ids r) (prompt_embeds r)
    (_prompt_embeds_per_block_hashes r) (num_prompt_tokens r) (_output_token_ids r)
    (_all_token_ids r) (num_output_placeholders r) (discard_latest_async_tokens r)
    (spec_token_ids r) (num_computed_tokens r) (cache_salt r) (mm_features r) v
    (num_preemptions r) (prefill_stats r) (block_hashes r) (skip_reading_prefix_cache r)
    (resumable r) (streaming_queue r) (kv_transfer_params r) (num_nans_in_logits r)
    (object_id r).
Definition set_num_preemptions (v : Z) (r : Request) : Request :=
  mkRequest
    (request_id r) (client_index r) (priority r) (sampling_params r) (pooling_params r)
    (lora_request r) (structured_output_request r) (arrival_time r) (status r) (events
    r) (stop_reason r) (max_tokens r) (prompt_token_ids r) (prompt_embeds r)
    (_prompt_embeds_per_block_hashes r) (num_prompt_tokens r) (_output_token_ids r)
    (_all_token_ids r) (num_output_placeholders r) (discard_latest_async_tokens r)
    (spec_token_ids r) (num_computed_tokens r) (cache_salt r) (mm_features r)
    (is_prefill_chunk r) v (prefill_stats r) (block_hashes r) (skip_reading_prefix_cache
    r) (resumable r) (streaming_queue r) (kv_transfer_params r) (num_nans_in_logits r)
    (object_id r).
Definition set_prefill_stats (v : option PrefillStats) (r : Request) : Request :=
  mkRequest
    (request_id r) (client_index r) (priority r) (sampling_params r) (pooling_params r)
    (lora_request r) (structured_output_request r) (arrival_time r) (status r) (events
    r) (stop_reason r) (max_tokens r) (prompt_token_ids r) (prompt_embeds r)
    (_prompt_embeds_per_block_hashes r) (num_prompt_tokens r) (_output_token_ids r)
    (_all_token_ids r) (num_output_placeholders r) (discard_latest_async_tokens r)
    (spec_token_ids r) (num_computed_tokens r) (cache_salt r) (mm_features r)
    (is_prefill_chunk r) (num_preemptions r) v (block_hashes r)
    (skip_reading_prefix_cache r) (resumable r) (streaming_queue r) (kv_transfer_params
    r) (num_nans_in_logits r) (object_id r).
Definition set_block_hashes (v : list bytes) (r : Request) : Request :=
  mkRequest
    (request_id r) (client_index r) (priority r) (sampling_params r) (pooling_params r)
    (lora_request r) (structured_output_request r) (arrival_time r) (status r) (events
    r) (stop_reason r) (max_tokens r) (prompt_token_ids r) (prompt_embeds r)
    (_prompt_embeds_per_block_hashes r) (num_prompt_tokens r) (_output_token_ids r)
    (_all_token_ids r) (num_output_placeholders r) (discard_latest_async_tokens r)
    (spec_token_ids r) (num_computed_tokens r) (cache_salt r) (mm_features r)
    (is_prefill_chunk r) (num_preemptions r) (prefill_stats r) v
    (skip_reading_prefix_cache r) (resumable r) (streaming_queue r) (kv_transfer_params
    r) (num_nans_in_logits r) (object_id r).
Definition set_streaming_queue (v : option (list (option StreamingUpdate))) (r : Request) : Request :=
  mkRequest
    (request_id r) (client_index r) (priority r) (sampling_params r) (pooling_params r)
    (lora_request r) (structured_output_request r) (arrival_time r) (status r) (events
    r) (stop_reason r) (max_tokens r) (prompt_token_ids r) (prompt_embeds r)
    (_prompt_embeds_per_block_hashes r) (num_prompt_tokens r) (_output_token_ids r)
    (_all_token_ids r) (num_output_placeholders r) (discard_latest_async_tokens r)
    (spec_token_ids r) (num_computed_tokens r) (cache_salt r) (mm_features r)
    (is_prefill_chunk r) (num_preemptions r) (prefill_stats r) (block_hashes r)
    (skip_reading_prefix_cache r) (resumable r) v (kv_transfer_params r)
    (num_nans_in_logits r) (object_id r).
Definition set_kv_transfer_params (v : option string) (r : Request) : Request :=
  mkRequest
    (request_id r) (client_index r) (priority r) (sampling_params r) (pooling_params r)
    (lora_request r) (structured_output_request r) (arrival_time r) (status r) (events
    r) (stop_reason r) (max_tokens r) (prompt_token_ids r) (prompt_embeds r)
    (_prompt_embeds_per_block_hashes r) (num_prompt_tokens r) (_output_token_ids r)
    (_all_token_ids r) (num_output_placeholders r) (discard_latest_async_tokens r)
    (spec_token_ids r) (num_computed_tokens r) (cache_salt r) (mm_features r)
    (is_prefill_chunk r) (num_preemptions r) (prefill_stats r) (block_hashes r)
    (skip_reading_prefix_cache r) (resumable r) (streaming_queue r) v
    (num_nans_in_logits r) (object_id r).
Definition set_num_nans_in_logits (v : Z) (r : Request) : Request :=
  mkRequest
    (request_id r) (client_index r) (priority r) (sampling_params r) (pooling_params r)
    (lora_request r) (structured_output_request r) (arrival_time r) (status r) (events
    r) (stop_reason r) (max_tokens r) (prompt_token_ids r) (prompt_embeds r)
    (_prompt_embeds_per_block_hashes r) (num_prompt_tokens r) (_output_token_ids r)
    (_all_token_ids r) (num_output_placeholders r) (discard_latest_async_tokens r)
    (spec_token_ids r) (num_computed_tokens r) (cache_salt r) (mm_features r)
    (is_prefill_chunk r) (num_preemptions r) (prefill_stats r) (block_hashes r)
    (skip_reading_prefix_cache r) (resumable r) (streaming_queue r) (kv_transfer_params
    r) v (object_id r).

(** ** Placeholder ranges *)

(** [is_embed.cumsum(dim=0).tolist()] *)
Fixpoint cumsum_from (acc : Z) (mask : list bool) : list Z :=
  match mask with
  | [] => []
  | b :: mask => let acc := acc + (if b then 1 else 0) in acc :: cumsum_from acc mask
  end.

Definition embeds_cumsum (p : PlaceholderRange) : option (list Z) :=
  cumsum_from 0 <$> is_embed p.

Definition get_num_embeds (p : PlaceholderRange) : Z :=
  match embeds_cumsum p with
  | None => length_ p
  | Some [] => 0
  | Some (c :: cs) => List.last (c :: cs) 0
  end.

Definition get_embeds_indices_in_range (p : PlaceholderRange) (start_idx end_idx : Z) :
    option (Z * Z) :=
  match embeds_cumsum p with
  | None => Some (start_idx, end_idx)
  | Some cs =>
      s ← (if 0 <? start_idx then py_get cs (start_idx - 1) else Some 0);
      e ← (if 0 <? end_idx then py_get cs (end_idx - 1) else Some 0);
      Some (s, e)
  end.

(** ** The request object *)

Definition from_sampling_params (sp : option SamplingParams) : option StructuredOutputRequest :=
  match sp with
  | None => None
  | Some sp =>
      match sp_structured_outputs sp with
      | None => None
      | Some p => if all_constraints_none p then None else Some (mkStructuredOutputRequest p None)
      end
  end.

Definition length_from_prompt_token_ids_or_embeds
    (ids : option (list Z)) (embeds : option (list bytes)) : result Z :=
  match ids, embeds with
  | None, None => Raise ValueError
  | None, Some e => Ok (len e)
  | Some t, Some e => if len e =? len t then Ok (len t) else Raise ValueError
  | Some t, None => Ok (len t)
  end.

Definition get_skip_reading_prefix_cache
    (sp : option SamplingParams) (pp : option PoolingParams) : bool :=
  match sp ≫= sp_skip_reading_prefix_cache with
  | Some b => b
  | None => default false (pp ≫= pp_skip_reading_prefix_cache)
  end.

Definition num_tokens (r : Request) : Z := len (_all_token_ids r).
Definition num_tokens_with_spec (r : Request) : Z := len (_all_token_ids r) + len (spec_token_ids r).
Definition num_output_tokens (r : Request) : Z := len (_output_token_ids r).
Definition num_encoder_inputs (r : Request) : Z := len (mm_features r).
Definition has_encoder_inputs (r : Request) : bool := 0 <? num_encoder_inputs r.
Definition use_structured_output (r : Request) : bool :=
  bool_decide (is_Some (structured_output_request r)).
Definition is_finished (r : Request) : bool := status_is_finished (status r).
Definition get_finished_reason (r : Request) : option FinishReason :=
  status_get_finished_reason (status r).

(** [get_num_encoder_embeds(input_id)] *)
Definition get_num_encoder_embeds (r : Request) (input_id : Z) : result Z :=
  if input_id <? len (mm_features r) then
    match py_get (mm_features r) input_id with
    | Some f => Ok (get_num_embeds (mm_position f))
    | None => Raise IndexError
    end
  else Raise AssertionError.

Definition py_min_max_tokens (sp : SamplingParams) : result Z :=
  match sp_max_tokens sp with Some n => Ok n | None => Raise AssertionError end.

Section Methods.
(** The [block_hasher] argument of the constructor; it may cache what it
    computes on the request. *)
Context (block_hasher : option (M Request (list bytes))).

Definition update_block_hashes : M Request unit :=
  match block_hasher with
  | None => mret tt
  | Some f => hs ← f; modify (λ r, set_block_hashes (block_hashes r ++ hs) r)
  end.

(** [append_output_token_ids], a single token being the list of it. *)
Definition append_output_token_ids (token_ids : list Z) : M Request unit :=
  _ ← modify (λ r, set_output_token_ids (_output_token_ids r ++ token_ids) r);
  _ ← modify (λ r, set_all_token_ids (_all_token_ids r ++ token_ids) r);
  update_block_hashes.

(** [Request.__init__]; [now] is the time read when no arrival time is given and
    [oid] the identity of the new object. *)
Definition request_init (id : string) (ids : option (list Z))
    (sp : option SamplingParams) (pp : option PoolingParams) (client : Z)
    (arrival : option Z) (now oid : Z) (embeds : option (list bytes))
    (features : option (list MultiModalFeatureSpec)) (lora : option LoRARequest)
    (salt : option string) (prio : Z) (resum : bool) (reasoning : option bool) :
    result Request :=
  let so : option StructuredOutputRequest :=
    (λ s, mkStructuredOutputRequest (so_params s) reasoning) <$> from_sampling_params sp in
  let setup : result (Z * RequestStatus * option string) :=
    match pp, sp with
    | Some _, _ => Ok (1, WAITING, None)
    | None, Some sp' =>
        match py_min_max_tokens sp' with
        | Raise e => Raise e
        | Ok n => Ok (n, (if so is Some _ then WAITING_FOR_STRUCTURED_OUTPUT_GRAMMAR else WAITING),
                      sp_extra_args sp' ≫= lookup "kv_transfer_params"%string)
        end
    | None, None => Raise ValueError
    end in
  match setup with
  | Raise e => Raise e
  | Ok (max_toks, st, kvp) =>
      match length_from_prompt_token_ids_or_embeds ids embeds with
      | Raise e => Raise e
      | Ok n =>
          let all := match ids with Some t => t | None => replicate (Z.to_nat n) 0 end in
          let r := mkRequest id client prio sp pp lora so (default now arrival) st [] None
            max_toks ids embeds ∅ n [] all 0 false [] 0 salt (default [] features) false 0
            (Some (mkPrefillStats 0 0 0 0 0)) [] (get_skip_reading_prefix_cache sp pp) resum
            None kvp 0 oid in
          match update_block_hashes r with
          | (Ok _, r) => Ok r
          | (Raise e, _) => Raise e
          end
      end
  end.
End Methods.

Definition record_event (ty : EngineCoreEventType) (ts : Z) : M Request unit :=
  modify (λ r, set_events (events r ++ [mkEvent ty ts]) r).

Definition take_events : M Request (option (list EngineCoreEvent)) :=
  evs ← gets events;
  match evs with
  | [] => mret None
  | _ => _ ← modify (set_events []); mret (Some evs)
  end.

Definition take_prefill_stats : M Request (option PrefillStats) :=
  ps ← gets prefill_stats;
  match ps with
  | None => mret None
  | Some _ => _ ← modify (set_prefill_stats None); mret ps
  end.

(** [StreamingUpdate.from_request] *)
Definition streaming_update_from_request (r : Request) : option StreamingUpdate :=
  if resumable r then
    Some (mkStreamingUpdate (Some (mm_features r)) (prompt_token_ids r) (max_tokens r)
            (arrival_time r) (sampling_params r))
  else None.

(** [Request.__lt__]: the order of the priority queue. *)
Definition request_lt (a b : Request) : bool :=
  if negb (priority a =? priority b) then priority a <? priority b
  else if negb (arrival_time a =? arrival_time b) then arrival_time a <? arrival_time b
  else if negb (String.eqb (request_id a) (request_id b)) then
    String.ltb (request_id a) (request_id b)
  else object_id a <? object_id b.
