(* ===== verification/BlockHash.v ===== *)
(** * Block hashes

    The hashing half of vllm/v1/core/kv_cache_utils.py: the packed key of a block
    hash and a KV-cache group id, the extra keys that multi-modal inputs, LoRA,
    cache salt and prompt embeddings add to a block, the hash chain over the full
    blocks of a request, and the change of granularity between block sizes.  The
    hash function and SHA-256 are parameters. *)

From Stdlib Require Import Sorted.
From S2P Require Import Prelude FreeQueue Request.

(** ** Keys *)

(** [v.to_bytes(n, "big")] for [0 <= v < 256 ** n]. *)
Fixpoint to_bytes_be (n : nat) (v : Z) : bytes :=
  match n with
  | O => []
  | S n => (v / 256 ^ Z.of_nat n) mod 256 :: to_bytes_be n v
  end.

(** [int.from_bytes(b, "big")] *)
Definition from_bytes_be (b : bytes) : Z := foldl (λ acc x, acc * 256 + x) 0 b.

(** The key of a block hash and of a group id of four bytes. *)
Definition group_key (block_hash : bytes) (group_id : Z) : bytes :=
  block_hash ++ to_bytes_be 4 group_id.

(** [to_bytes] raises for a number that needs more bytes, or is negative.  The callers
    take the group id from the positions of the list of groups, and no list has 2^32 of
    them: they are written with [group_key]. *)
Definition make_block_hash_with_group_id (block_hash : bytes) (group_id : Z) : result bytes :=
  if (0 <=? group_id) && (group_id <? 2 ^ 32) then Ok (group_key block_hash group_id) else Raise OverflowError.

Definition get_block_hash (key : bytes) : bytes := py_slice key 0 (-4).

Definition get_group_id (key : bytes) : Z := from_bytes_be (py_slice_from key (-4)).

(** [ExternalBlockHash = bytes | int] *)
Inductive ExternalBlockHash :=
  | HashBytes (b : bytes)
  | HashInt (v : Z).

(** [use_int] is [envs.VLLM_KV_EVENTS_USE_INT_BLOCK_HASHES]. *)
Definition maybe_convert_block_hash (use_int : bool) (hash_bytes : bytes) : ExternalBlockHash :=
  if negb use_int then HashBytes hash_bytes
  else HashInt (Z.land (from_bytes_be hash_bytes) (Z.shiftl 1 64 - 1)).

(** ** Extra keys *)

(** The elements of an extra-keys tuple, as the Python values they are: a LoRA
    name and a cache salt are both plain strings. *)
Inductive ExtraKey :=
  | KStr (s : string)
  | KMm (ident : string) (off : Z)
  | KBytes (b : bytes).

#[global] Instance ExtraKey_eq_dec : EqDecision ExtraKey.
Proof. solve_decision. Defined.

#[global] Instance ExtraKey_countable : Countable ExtraKey.
Proof.
  refine (inj_countable'
    (λ k, match k with KStr s => inl s | KMm i o => inr (inl (i, o)) | KBytes b => inr (inr b) end)
    (λ k, match k with inl s => KStr s | inr (inl (i, o)) => KMm i o | inr (inr b) => KBytes b end) _).
  by intros [].
Defined.

Definition need_extra_keys (request : Request) : bool :=
  negb (bool_decide (mm_features request = [])) ||
  bool_decide (is_Some (lora_request request)) || bool_decide (is_Some (cache_salt request)).

(** The [while] loop of [_gen_mm_extra_hash_keys], over the features from the
    current index on. *)
Fixpoint mm_keys_loop (features : list MultiModalFeatureSpec) (start_token_idx end_token_idx : Z)
    (curr_mm_idx : Z) (extra_keys : list ExtraKey) : list ExtraKey * Z :=
  match features with
  | [] => (extra_keys, curr_mm_idx)
  | f :: features =>
      let off := offset (mm_position f) in
      let length := length_ (mm_position f) in
      if off <? end_token_idx then
        if off + length <=? start_token_idx then
          mm_keys_loop features start_token_idx end_token_idx (curr_mm_idx + 1) extra_keys
        else
          let extra_keys := extra_keys ++ [KMm (identifier f) (off - start_token_idx)] in
          if off + length <=? end_token_idx then
            mm_keys_loop features start_token_idx end_token_idx (curr_mm_idx + 1) extra_keys
          else (extra_keys, curr_mm_idx)
      else (extra_keys, curr_mm_idx)
  end.

Definition _gen_mm_extra_hash_keys (request : Request)
    (start_token_idx end_token_idx start_mm_idx : Z) : result (list ExtraKey * Z) :=
  match List.rev (mm_features request) with
  | [] => Ok ([], start_mm_idx)
  | last_feature :: _ =>
      let last_pos := mm_position last_feature in
      if offset last_pos + length_ last_pos <=? start_token_idx then Ok ([], start_mm_idx)
      else
        let n := len (mm_features request) in
        if (start_mm_idx <? 0) && (n <? - start_mm_idx) then Raise AssertionError
        else
          let idx := if start_mm_idx <? 0 then n + start_mm_idx else start_mm_idx in
          Ok (mm_keys_loop (py_slice_from (mm_features request) idx)
                start_token_idx end_token_idx idx [])
  end.

Definition _gen_lora_extra_hash_keys (request : Request) : list ExtraKey :=
  match lora_request request with None => [] | Some l => [KStr (lora_name l)] end.

Section Hasher.
(** [hashlib.sha256(tensor_data(rows)).digest()] *)
Context (sha256 : list bytes → bytes).
(** The caching hash function, on the triple it is given. *)
Context (hash_function : bytes * list Z * option (list ExtraKey) → bytes).
(** The module variable [NONE_HASH]. *)
Context (NONE_HASH : bytes).

Definition _gen_prompt_embeds_extra_hash_keys (start_token_idx end_token_idx : Z) :
    M Request (list ExtraKey) :=
  embeds ← gets prompt_embeds;
  match embeds with
  | None => mret []
  | Some rows =>
      cache ← gets _prompt_embeds_per_block_hashes;
      match cache !! (start_token_idx, end_token_idx) with
      | Some h => mret [KBytes h]
      | None =>
          let h := sha256 (py_slice rows start_token_idx end_token_idx) in
          _ ← modify (λ r, set_prompt_embeds_per_block_hashes
                (<[(start_token_idx, end_token_idx) := h]> (_prompt_embeds_per_block_hashes r)) r);
          mret [KBytes h]
      end
  end.

Definition generate_block_hash_extra_keys (start_token_idx end_token_idx start_mm_idx : Z) :
    M Request (option (list ExtraKey) * Z) :=
  request ← gets id;
  match _gen_mm_extra_hash_keys request start_token_idx end_token_idx start_mm_idx with
  | Raise e => raise e
  | Ok (mm_extra_keys, new_start_mm_idx) =>
      let lora_extra_keys := _gen_lora_extra_hash_keys request in
      let cache_salt_keys :=
        match cache_salt request with
        | Some s => if (start_token_idx =? 0) && negb (String.eqb s "") then [KStr s] else []
        | None => []
        end in
      prompt_embeds_keys ← _gen_prompt_embeds_extra_hash_keys start_token_idx end_token_idx;
      let extra_keys := lora_extra_keys ++ mm_extra_keys ++ cache_salt_keys ++ prompt_embeds_keys in
      match extra_keys with
      | [] => mret (None, new_start_mm_idx)
      | _ => mret (Some extra_keys, new_start_mm_idx)
      end
  end.

Definition hash_block_tokens (parent_block_hash : option bytes)
    (curr_block_token_ids : list Z) (extra_keys : option (list ExtraKey)) : bytes :=
  let parent := match parent_block_hash with
                | None | Some [] => NONE_HASH
                | Some h => h
                end in
  hash_function (parent, curr_block_token_ids, extra_keys).

(** The [while True] loop of [request_block_hasher]. *)
Fixpoint block_hasher_loop (fuel : nat) (block_size num_tokens start_token_idx curr_mm_idx : Z)
    (prev_block_hash_value : option bytes) (new_block_hashes : list bytes) :
    M Request (list bytes) :=
  match fuel with
  | O => raise OutOfFuel
  | S fuel =>
      let end_token_idx := start_token_idx + block_size in
      if num_tokens <? end_token_idx then mret new_block_hashes
      else
        p ← generate_block_hash_extra_keys start_token_idx end_token_idx curr_mm_idx;
        toks ← gets _all_token_ids;
        let block_tokens := py_slice toks start_token_idx end_token_idx in
        let block_hash := hash_block_tokens prev_block_hash_value block_tokens p.1 in
        block_hasher_loop fuel block_size num_tokens end_token_idx p.2 (Some block_hash)
          (new_block_hashes ++ [block_hash])
  end.

(** [get_request_block_hasher(block_size, caching_hash_fn)]; one unit of fuel
    per token and one more are enough for a positive block size. *)
Definition request_block_hasher (block_size : Z) : M Request (list bytes) :=
  r ← gets id;
  let start_token_idx := len (block_hashes r) * block_size in
  let num := num_tokens r in
  if num <? start_token_idx + block_size then mret []
  else
    let curr_mm_idx := if 0 <? start_token_idx then -1 else 0 in
    let prev := match List.rev (block_hashes r) with [] => None | h :: _ => Some h end in
    block_hasher_loop (S (Z.to_nat num)) block_size num start_token_idx curr_mm_idx prev [].
End Hasher.

(** ** Change of granularity *)

(** [BlockHashListWithBlockSize]; a [BlockHashList] is the plain list or this
    view of it. *)
Record BlockHashListWithBlockSize := mkScaled {
  scaled_block_hashes : list bytes;
  scale_factor : Z
}.

Definition scaled_init (block_hashes : list bytes) (hash_block_size target_block_size : Z) :
    result BlockHashListWithBlockSize :=
  if target_block_size mod hash_block_size =? 0
  then Ok (mkScaled block_hashes (target_block_size / hash_block_size))
  else Raise AssertionError.

Definition scaled_len (b : BlockHashListWithBlockSize) : Z :=
  len (scaled_block_hashes b) / scale_factor b.

Definition _get_value_at (b : BlockHashListWithBlockSize) (idx : Z) : bytes :=
  let base := idx * scale_factor b in
  concat (py_slice (scaled_block_hashes b) base (base + scale_factor b)).

(** [__iter__]: all the hashes at the target granularity. *)
Definition scaled_iter (b : BlockHashListWithBlockSize) : list bytes :=
  _get_value_at b <$> py_range 0 (scaled_len b).

Inductive BlockHashList :=
  | Plain (l : list bytes)
  | Scaled (b : BlockHashListWithBlockSize).

(** [block_hashes[i]] for an integer index. *)
Definition bhl_get (l : BlockHashList) (i : Z) : option bytes :=
  match l with
  | Plain l => py_get l i
  | Scaled b => Some (_get_value_at b i)
  end.

(** [iter(block_hashes)] *)
Definition bhl_iter (l : BlockHashList) : list bytes :=
  match l with Plain l => l | Scaled b => scaled_iter b end.

(** [block_hashes[a:]] for [0 <= a] *)
Definition bhl_slice_from (l : BlockHashList) (a : Z) : list bytes := py_slice_from (bhl_iter l) a.

(** ** Packing *)

Lemma length_to_bytes_be n v : length (to_bytes_be n v) = n.
Proof. induction n; simpl; auto. Qed.

Lemma foldl_be acc b : foldl (λ acc x, acc * 256 + x) acc b = acc * 256 ^ len b + from_bytes_be b.
Proof.
  unfold from_bytes_be. revert acc. induction b as [|x b IH]; intros acc; simpl.
  - rewrite len_nil. lia.
  - pose proof (len_nonneg b). rewrite IH, len_cons, Z.pow_add_r by lia.
    rewrite (IH (0 * 256 + x)). lia.
Qed.

Lemma from_to_bytes_be n v : from_bytes_be (to_bytes_be n v) = v mod 256 ^ Z.of_nat n.
Proof.
  induction n as [|n IH].
  - simpl. by rewrite Z.mod_1_r.
  - simpl to_bytes_be. unfold from_bytes_be. simpl foldl. rewrite foldl_be, IH.
    unfold len. rewrite length_to_bytes_be, Nat2Z.inj_succ, Z.pow_succ_r by lia.
    rewrite (Z.mul_comm 256), Z.rem_mul_r by lia. lia.
Qed.

Lemma get_block_hash_make h g : get_block_hash (group_key h g) = h.
Proof. apply (py_slice_drop_suffix h (to_bytes_be 4 g) 4); done. Qed.

Lemma get_group_id_make h g :
  0 ≤ g < 2 ^ 32 → get_group_id (group_key h g) = g.
Proof.
  intros Hg. unfold get_group_id, group_key.
  pose proof (py_slice_suffix h (to_bytes_be 4 g) 4 eq_refl eq_refl) as E.
  change (- (4)) with (-4) in E. rewrite E.
  rewrite from_to_bytes_be. apply Z.mod_small. simpl. lia.
Qed.

Lemma make_block_hash_inj h g h' g' :
  0 ≤ g < 2 ^ 32 → 0 ≤ g' < 2 ^ 32 →
  group_key h g = group_key h' g' → h = h' ∧ g = g'.
Proof.
  intros Hg Hg' E. split.
  - by rewrite <- (get_block_hash_make h g), E, get_block_hash_make.
  - by rewrite <- (get_group_id_make h g), E, get_group_id_make.
Qed.

(** ** The multi-modal cursor computes the features that overlap a block *)

Definition feature_end (f : MultiModalFeatureSpec) : Z :=
  offset (mm_position f) + length_ (mm_position f).

(** Placeholders have a length, do not overlap, and are listed in order. *)
Definition features_sorted (fs : list MultiModalFeatureSpec) : Prop :=
  Forall (λ f, 0 < length_ (mm_position f)) fs ∧
  StronglySorted (λ f g, feature_end f ≤ offset (mm_position g)) fs.

Definition overlaps (s e : Z) (f : MultiModalFeatureSpec) : Prop :=
  offset (mm_position f) < e ∧ s < feature_end f.

#[global] Instance overlaps_dec s e f : Decision (overlaps s e f).
Proof. unfold overlaps. apply _. Defined.

(** The keys a block [[s, e)] ought to have: one per feature it overlaps. *)
Definition mm_keys (fs : list MultiModalFeatureSpec) (s e : Z) : list ExtraKey :=
  (λ f, KMm (identifier f) (offset (mm_position f) - s)) <$> filter (overlaps s e) fs.

Lemma mm_keys_cons_in f fs s e :
  overlaps s e f → mm_keys (f :: fs) s e = KMm (identifier f) (offset (mm_position f) - s) :: mm_keys fs s e.
Proof. intros H. unfold mm_keys. by rewrite filter_cons_True. Qed.
Lemma mm_keys_cons_out f fs s e : ¬ overlaps s e f → mm_keys (f :: fs) s e = mm_keys fs s e.
Proof. intros H. unfold mm_keys. by rewrite filter_cons_False. Qed.

Lemma mm_keys_none fs s e : Forall (λ f, ¬ overlaps s e f) fs → mm_keys fs s e = [].
Proof. induction 1; [done|]. by rewrite mm_keys_cons_out. Qed.

Lemma mm_keys_app fs1 fs2 s e : mm_keys (fs1 ++ fs2) s e = mm_keys fs1 s e ++ mm_keys fs2 s e.
Proof. unfold mm_keys. by rewrite filter_app, fmap_app. Qed.

Lemma features_sorted_cons f fs :
  features_sorted (f :: fs) →
  features_sorted fs ∧ 0 < length_ (mm_position f) ∧
  Forall (λ g, feature_end f ≤ offset (mm_position g)) fs.
Proof.
  intros [H1 H2]. inversion_clear H1. inversion_clear H2. by repeat split.
Qed.

Lemma features_sorted_app fs1 fs2 :
  features_sorted (fs1 ++ fs2) → features_sorted fs2.
Proof.
  induction fs1 as [|f fs1 IH]; simpl; [done|]. intros [H _]%features_sorted_cons. by apply IH.
Qed.

Lemma mm_keys_loop_spec fs : ∀ s e idx acc,
  s ≤ e → features_sorted fs →
  ∃ k, (k ≤ length fs)%nat ∧ Forall (λ f, feature_end f ≤ e) (take k fs) ∧
    mm_keys_loop fs s e idx acc = (acc ++ mm_keys fs s e, idx + Z.of_nat k).
Proof.
  induction fs as [|f fs IH]; intros s e idx acc Hse Hs; simpl.
  - exists 0%nat. split_and!; [done..|]. by rewrite app_nil_r, Z.add_0_r.
  - apply features_sorted_cons in Hs as (Hs & Hlen & Hf). fold (feature_end f).
    assert (Hstop : e ≤ feature_end f → mm_keys fs s e = []).
    { intros He. apply mm_keys_none. eapply Forall_impl; [exact Hf|]. intros g Hg [? ?].
      simpl in *. lia. }
    destruct (Z.ltb_spec (offset (mm_position f)) e) as [Ho|Ho].
    + destruct (Z.leb_spec (feature_end f) s) as [He|He].
      * destruct (IH s e (idx + 1) acc Hse Hs) as (k & Hk & Hfin & ->).
        exists (S k). split_and!; [simpl; lia|simpl; constructor; [lia|done]|].
        rewrite mm_keys_cons_out by (intros [? ?]; lia). f_equal. lia.
      * assert (overlaps s e f) by by split.
        destruct (Z.leb_spec (feature_end f) e) as [He'|He'].
        -- destruct (IH s e (idx + 1) (acc ++ [KMm (identifier f) (offset (mm_position f) - s)]) Hse Hs)
             as (k & Hk & Hfin & ->).
           exists (S k). split_and!; [simpl; lia|simpl; constructor; [lia|done]|].
           rewrite mm_keys_cons_in by done. rewrite <- app_assoc. simpl. f_equal. lia.
        -- exists 0%nat. split_and!; [lia|done|]. rewrite Z.add_0_r, mm_keys_cons_in by done.
           by rewrite Hstop by lia.
    + exists 0%nat. split_and!; [lia|done|]. unfold feature_end in *.
      rewrite Z.add_0_r, mm_keys_cons_out by (intros [? ?]; lia).
      by rewrite Hstop, app_nil_r by lia.
Qed.

(** The multi-modal index [idx] is a sound place to start looking for the
    features of a block that starts at [s]. *)
Definition cursor_ok (fs : list MultiModalFeatureSpec) (s idx : Z) : Prop :=
  fs = [] ∨
  let j := if idx <? 0 then len fs + idx else idx in
  0 ≤ j ≤ len fs ∧ Forall (λ f, feature_end f ≤ s) (take (Z.to_nat j) fs).

Lemma cursor_ok_mono fs s s' idx : s ≤ s' → cursor_ok fs s idx → cursor_ok fs s' idx.
Proof.
  intros Hs [->|[Hj Hf]]; [by left|right]. split; [done|].
  eapply Forall_impl; [exact Hf|]. simpl. lia.
Qed.

Lemma cursor_ok_0 fs s : cursor_ok fs s 0.
Proof. right. simpl. split; [pose proof (len_nonneg fs); lia|constructor]. Qed.

(** Before the first block is hashed the search starts at feature 0; later it
    starts at the last feature, so the others must lie before the block. *)
Lemma cursor_ok_last fs s :
  Forall (λ f, feature_end f ≤ s) (take (length fs - 1) fs) → cursor_ok fs s (-1).
Proof.
  intros Hf. destruct fs as [|f fs]; [by left|right]. simpl. unfold len. split; [simpl; lia|].
  replace (Z.to_nat (Z.of_nat (length (f :: fs)) + -1)) with (length (f :: fs) - 1)%nat by lia.
  done.
Qed.

Lemma sorted_last_bounds fs f g :
  features_sorted (fs ++ [f]) → g ∈ fs ++ [f] → feature_end g ≤ feature_end f.
Proof.
  induction fs as [|h fs IH]; simpl; intros Hs Hg.
  - apply list_elem_of_singleton in Hg as ->. lia.
  - apply features_sorted_cons in Hs as (Hs & ? & Hh).
    apply elem_of_cons in Hg as [->|Hg]; [|by apply IH].
    rewrite Forall_app in Hh. destruct Hh as [_ Hh]. inversion_clear Hh as [|?? Hf _].
    apply features_sorted_app in Hs as [Hl _]. inversion_clear Hl.
    unfold feature_end in *. lia.
Qed.

Lemma gen_mm_spec r s e idx :
  s ≤ e → features_sorted (mm_features r) → cursor_ok (mm_features r) s idx →
  ∃ idx', _gen_mm_extra_hash_keys r s e idx = Ok (mm_keys (mm_features r) s e, idx') ∧
          cursor_ok (mm_features r) e idx'.
Proof.
  intros Hse Hs Hc. unfold _gen_mm_extra_hash_keys.
  destruct (mm_features r) as [|f fs' _] eqn:E using rev_ind.
  { exists idx. split; [done|by left]. }
  rewrite rev_app_distr. simpl. fold (feature_end f).
  destruct (Z.leb_spec (feature_end f) s) as [He|He].
  { exists idx. split; [|by eapply cursor_ok_mono].
    rewrite mm_keys_none; [done|]. apply Forall_forall. intros g Hg [_ ?].
    apply (sorted_last_bounds fs' f) in Hg; [lia|done]. }
  destruct Hc as [Hc|[Hj Hf]]; [by destruct fs'|].
  rewrite <- E in *. set (fs := mm_features r) in *. clear He E.
  replace ((idx <? 0) && (len fs <? - idx)) with false; cycle 1.
  { symmetry. destruct (Z.ltb_spec idx 0); simpl in *; [|done]. apply Z.ltb_ge. lia. }
  set (j := if idx <? 0 then len fs + idx else idx) in *.
  rewrite py_slice_from_nonneg by lia.
  rewrite <- (take_drop (Z.to_nat j) fs) in Hs at 1. apply features_sorted_app in Hs.
  destruct (mm_keys_loop_spec _ s e j [] Hse Hs) as (k & Hk & Hfin & ->). simpl.
  rewrite length_drop in Hk. unfold len in Hj.
  exists (j + Z.of_nat k). split.
  - f_equal. f_equal. rewrite <- (take_drop (Z.to_nat j) fs) at 2. rewrite mm_keys_app.
    rewrite (mm_keys_none (take _ fs)); [done|]. eapply Forall_impl; [exact Hf|].
    intros g Hg [? ?]. simpl in Hg. lia.
  - right. rewrite (proj2 (Z.ltb_ge (j + Z.of_nat k) 0)) by lia. split; [unfold len; lia|].
    replace (Z.to_nat (j + Z.of_nat k)) with (Z.to_nat j + k)%nat by lia.
    rewrite <- take_take_drop. apply Forall_app. split; [|done].
    eapply Forall_impl; [exact Hf|]. simpl. lia.
Qed.

(** ** The hash chain of a request *)

Section Chain.
Context (sha256 : list bytes → bytes).
Context (hash_function : bytes * list Z * option (list ExtraKey) → bytes).
Context (NONE_HASH : bytes).

Abbreviation set_memo := set_prompt_embeds_per_block_hashes.
Abbreviation memo := _prompt_embeds_per_block_hashes.

(** What the extra keys of block [[s, e)] are, with no cursor and no cache. *)
Definition block_extra_keys (r : Request) (s e : Z) : option (list ExtraKey) :=
  let keys :=
    _gen_lora_extra_hash_keys r ++ mm_keys (mm_features r) s e ++
    match cache_salt r with
    | Some t => if (s =? 0) && negb (String.eqb t "") then [KStr t] else []
    | None => []
    end ++
    match prompt_embeds r with
    | Some rows => [KBytes (sha256 (py_slice rows s e))]
    | None => []
    end in
  match keys with [] => None | _ => Some keys end.

(** The hash of the [i]-th block: it covers the tokens and the extra keys of
    the blocks up to it. *)
Fixpoint chain_hash (r : Request) (bs : Z) (i : nat) : bytes :=
  let s := Z.of_nat i * bs in
  hash_block_tokens hash_function NONE_HASH
    match i with O => None | S j => Some (chain_hash r bs j) end
    (py_slice (_all_token_ids r) s (s + bs)) (block_extra_keys r s (s + bs)).

(** The number of full blocks. *)
Definition num_full (r : Request) (bs : Z) : nat := Z.to_nat (num_tokens r / bs).

(** The cached hashes of the prompt embeddings are the hashes of their rows. *)
Definition memo_ok (r : Request) : Prop :=
  ∀ s e h, memo r !! (s, e) = Some h →
    ∃ rows, prompt_embeds r = Some rows ∧ h = sha256 (py_slice rows s e).

Lemma generate_keys_spec r s e idx :
  s ≤ e → features_sorted (mm_features r) → cursor_ok (mm_features r) s idx → memo_ok r →
  wp (generate_block_hash_extra_keys sha256 s e idx)
    (λ p r', p.1 = block_extra_keys r s e ∧ cursor_ok (mm_features r) e p.2 ∧
             memo_ok r' ∧ ∃ m, r' = set_memo m r) r.
Proof.
  intros Hse Hs Hc Hm. unfold generate_block_hash_extra_keys. apply wp_bind, wp_gets. simpl.
  destruct (gen_mm_spec r s e idx Hse Hs Hc) as (idx' & -> & Hc').
  apply wp_bind. unfold block_extra_keys.
  apply wp_mono with (λ ks r', ks = match prompt_embeds r with
      | Some rows => [KBytes (sha256 (py_slice rows s e))] | None => [] end ∧
      memo_ok r' ∧ ∃ m, r' = set_memo m r).
  - unfold _gen_prompt_embeds_extra_hash_keys. apply wp_bind, wp_gets.
    destruct (prompt_embeds r) as [rows|] eqn:Er.
    2: { apply wp_ret. split_and!; [done..|]. exists (memo r). by destruct r. }
    apply wp_bind, wp_gets. destruct (memo r !! (s, e)) as [h|] eqn:Eh.
    + apply wp_ret. destruct (Hm _ _ _ Eh) as (? & ? & ->). simplify_eq.
      split_and!; [done..|]. exists (memo r). by destruct r.
    + apply wp_bind, wp_modify, wp_ret. split_and!; [done| |by eexists].
      intros s' e' h' Hh. simpl in Hh. rewrite lookup_insert in Hh.
      case_decide as Hd; simplify_eq/=; eauto.
  - intros ks r' (-> & Hm' & Hr'). destruct (_ ++ _ ++ _ ++ _); apply wp_ret; auto.
Qed.

(** The result of the loop from block [i] on. *)
Lemma block_hasher_loop_spec bs r : ∀ fuel i idx acc m,
  0 < bs → features_sorted (mm_features r) → cursor_ok (mm_features r) (Z.of_nat i * bs) idx →
  memo_ok (set_memo m r) → (num_full r bs - i < fuel)%nat →
  wp (block_hasher_loop sha256 hash_function NONE_HASH fuel bs (num_tokens r) (Z.of_nat i * bs)
        idx match i with O => None | S j => Some (chain_hash r bs j) end acc)
    (λ hs r', hs = acc ++ (chain_hash r bs <$> seq i (num_full r bs - i)) ∧
              memo_ok r' ∧ ∃ m', r' = set_memo m' r) (set_memo m r).
Proof.
  induction fuel as [|fuel IH]; intros i idx acc m Hbs Hs Hc Hm Hfuel; [lia|].
  assert (Hnf : Z.of_nat (num_full r bs) = num_tokens r / bs).
  { unfold num_full. rewrite Z2Nat.id; [done|]. apply Z.div_pos; [apply len_nonneg|lia]. }
  pose proof (Z.mul_div_le (num_tokens r) bs Hbs).
  pose proof (Z.mul_succ_div_gt (num_tokens r) bs Hbs).
  simpl. destruct (Z.ltb_spec (num_tokens r) (Z.of_nat i * bs + bs)).
  - apply wp_ret. replace (num_full r bs - i)%nat with 0%nat by nia.
    rewrite app_nil_r. split_and!; [done..|by eexists].
  - apply wp_bind. eapply wp_mono.
    { apply (generate_keys_spec (set_memo m r) (Z.of_nat i * bs)); [lia|done..]. }
    intros [ks idx'] r' (Hks & Hc' & Hm' & m' & ->). simpl in Hks, Hc'. subst ks.
    apply wp_bind, wp_gets. simpl.
    match goal with |- context [hash_block_tokens ?f ?n ?p ?t ?k] =>
      replace (hash_block_tokens f n p t k) with (chain_hash r bs i) by (by destruct i) end.
    replace (Z.of_nat i * bs + bs) with (Z.of_nat (S i) * bs) in * by lia.
    eapply wp_mono; [apply (IH (S i) idx' _ m'); try done; nia|].
    intros hs r'' (-> & Hm'' & Hr''). split_and!; [|done..].
    replace (num_full r bs - i)%nat with (S (num_full r bs - S i))%nat by nia.
    by rewrite <- app_assoc.
Qed.

(** The hashes of the first [k] blocks. *)
Definition hashes_upto (r : Request) (bs : Z) (k : nat) : list bytes :=
  chain_hash r bs <$> seq 0 k.

Lemma hasher_spec bs r :
  0 < bs → features_sorted (mm_features r) → memo_ok r →
  (length (block_hashes r) ≤ num_full r bs)%nat →
  block_hashes r = hashes_upto r bs (length (block_hashes r)) →
  (block_hashes r = [] ∨
   cursor_ok (mm_features r) (len (block_hashes r) * bs) (-1)) →
  wp (update_block_hashes (Some (request_block_hasher sha256 hash_function NONE_HASH bs)))
    (λ _ r', block_hashes r' = hashes_upto r bs (num_full r bs) ∧ memo_ok r' ∧
      ∃ m, r' = set_block_hashes (hashes_upto r bs (num_full r bs)) (set_memo m r)) r.
Proof.
  intros Hbs Hs Hm Hk Hh Hc. unfold update_block_hashes, request_block_hasher.
  set (k := length (block_hashes r)) in *.
  apply wp_bind. apply wp_mono with (λ hs r', hs = chain_hash r bs <$> seq k (num_full r bs - k) ∧
    memo_ok r' ∧ ∃ m, r' = set_memo m r).
  - apply wp_bind, wp_gets. unfold id, len. fold k. cbv zeta.
    assert (Hnf : Z.of_nat (num_full r bs) = num_tokens r / bs).
    { unfold num_full. rewrite Z2Nat.id; [done|]. apply Z.div_pos; [apply len_nonneg|lia]. }
    pose proof (Z.mul_div_le (num_tokens r) bs Hbs).
    pose proof (Z.mul_succ_div_gt (num_tokens r) bs Hbs).
    assert (Hr : set_memo (memo r) r = r) by by destruct r.
    destruct (Z.ltb_spec (num_tokens r) (Z.of_nat k * bs + bs)).
    { apply wp_ret. replace (num_full r bs - k)%nat with 0%nat by nia.
      split_and!; [done..|by exists (memo r)]. }
    assert (Hprev : match List.rev (block_hashes r) with [] => None | h :: _ => Some h end =
      match k with O => None | S j => Some (chain_hash r bs j) end).
    { rewrite Hh. unfold hashes_upto. destruct k as [|j]; [done|].
      rewrite seq_S, fmap_app, rev_app_distr. done. }
    rewrite Hprev. eapply wp_mono.
    { pose proof (λ fuel i idx acc, block_hasher_loop_spec bs r fuel i idx acc (memo r)) as L.
      rewrite Hr in L. apply (L _ k); [done..| |done|].
      - destruct Hc as [Hc|Hc].
        + destruct k; [|by rewrite Hc in *]. simpl. apply cursor_ok_0.
        + destruct (Z.ltb_spec 0 (Z.of_nat k * bs)); [done|].
          apply cursor_ok_0.
      - pose proof (len_nonneg (_all_token_ids r)). unfold num_full, num_tokens in *. nia. }
    intros hs r' (-> & ? & ?). done.
  - intros hs r' (-> & Hm' & m & ->). apply wp_modify. simpl.
    assert (block_hashes r ++ (chain_hash r bs <$> seq k (num_full r bs - k)) =
            hashes_upto r bs (num_full r bs)) as E.
    { rewrite Hh. unfold hashes_upto. rewrite <- fmap_app. f_equal.
      replace (num_full r bs) with (k + (num_full r bs - k))%nat at 2 by lia.
      by rewrite seq_app. }
    rewrite E. split_and!; [done|done|by eexists].
Qed.

(** Appending tokens changes no hash of a block that is already full. *)
Lemma chain_hash_ext r r' bs i :
  0 < bs → (Z.of_nat i + 1) * bs ≤ num_tokens r →
  (∃ ts, _all_token_ids r' = _all_token_ids r ++ ts) →
  mm_features r' = mm_features r → lora_request r' = lora_request r →
  cache_salt r' = cache_salt r → prompt_embeds r' = prompt_embeds r →
  chain_hash r' bs i = chain_hash r bs i.
Proof.
  intros Hbs Hi [ts Hts] Hmm Hl Hs He.
  assert (Hk : ∀ s e, block_extra_keys r' s e = block_extra_keys r s e).
  { intros s e. unfold block_extra_keys, _gen_lora_extra_hash_keys. by rewrite Hmm, Hl, Hs, He. }
  assert (Ht : ∀ k, (k ≤ i)%nat →
    py_slice (_all_token_ids r') (Z.of_nat k * bs) (Z.of_nat k * bs + bs) =
    py_slice (_all_token_ids r) (Z.of_nat k * bs) (Z.of_nat k * bs + bs)).
  { intros k Hki. rewrite Hts. apply py_slice_app_l; unfold num_tokens in Hi; nia. }
  clear Hi. induction i as [|i IH]; simpl; rewrite ?Hk, ?Ht by lia; [done|].
  rewrite IH; [done|]. intros k Hki. apply Ht. lia.
Qed.

Lemma hashes_upto_ext r r' bs k :
  0 < bs → (k ≤ num_full r bs)%nat → (∃ ts, _all_token_ids r' = _all_token_ids r ++ ts) →
  mm_features r' = mm_features r → lora_request r' = lora_request r →
  cache_salt r' = cache_salt r → prompt_embeds r' = prompt_embeds r →
  hashes_upto r' bs k = hashes_upto r bs k.
Proof.
  intros Hbs Hk Hts ????. unfold hashes_upto. apply list_fmap_ext. intros j i Hi.
  apply lookup_seq in Hi as [-> Hi]. simpl. apply chain_hash_ext; try done.
  unfold num_full in Hk. pose proof (Z.mul_div_le (num_tokens r) bs Hbs).
  assert (Z.of_nat j + 1 ≤ num_tokens r / bs) by lia. nia.
Qed.

(** The request's list of hashes is the hash chain over its full blocks. *)
Definition hash_inv (bs : Z) (r : Request) : Prop :=
  memo_ok r ∧ features_sorted (mm_features r) ∧ block_hashes r = hashes_upto r bs (num_full r bs).

Lemma num_full_le r r' bs :
  0 < bs → num_tokens r ≤ num_tokens r' → (num_full r bs ≤ num_full r' bs)%nat.
Proof. intros Hbs Hle. unfold num_full. pose proof (Z.div_le_mono _ _ bs Hbs Hle). lia. Qed.

Lemma append_output_frame bs r toks :
  0 < bs → hash_inv bs r →
  Forall (λ f, feature_end f ≤ len (block_hashes r) * bs)
    (take (length (mm_features r) - 1) (mm_features r)) ∨ block_hashes r = [] →
  wp (append_output_token_ids
        (Some (request_block_hasher sha256 hash_function NONE_HASH bs)) toks)
    (λ _ r', ∃ hs m, r' = set_block_hashes hs (set_memo m (set_all_token_ids (_all_token_ids r ++ toks)
               (set_output_token_ids (_output_token_ids r ++ toks) r))) ∧ hash_inv bs r') r.
Proof.
  intros Hbs (Hm & Hs & Hh) Hc. unfold append_output_token_ids.
  apply wp_bind, wp_modify, wp_bind, wp_modify. simpl.
  set (r1 := set_all_token_ids _ _).
  assert (Hnf : (num_full r bs ≤ num_full r1 bs)%nat).
  { apply num_full_le; [done|]. unfold num_tokens. simpl. rewrite len_app.
    pose proof (len_nonneg toks). lia. }
  assert (Hlen : length (block_hashes r) = num_full r bs).
  { rewrite Hh. unfold hashes_upto. by rewrite length_fmap, length_seq. }
  assert (Hup : block_hashes r = hashes_upto r1 bs (num_full r bs)).
  { rewrite Hh. symmetry. apply hashes_upto_ext; try done. by eexists. }
  eapply wp_mono.
  { apply (hasher_spec bs r1); [done..| | |]; simpl.
    - by rewrite Hlen.
    - by rewrite Hlen.
    - destruct Hc as [Hc|Hc]; [right|by left]. by apply cursor_ok_last. }
  intros _ r' (Hb & Hm' & m & ->). eexists _, m. split; [done|]. split_and!; [done..|]. symmetry.
  apply (hashes_upto_ext r1); try done. exists []. by rewrite app_nil_r.
Qed.

Lemma append_output_hashes bs r toks :
  0 < bs → hash_inv bs r →
  Forall (λ f, feature_end f ≤ len (block_hashes r) * bs)
    (take (length (mm_features r) - 1) (mm_features r)) ∨ block_hashes r = [] →
  wp (append_output_token_ids
        (Some (request_block_hasher sha256 hash_function NONE_HASH bs)) toks)
    (λ _ r', _all_token_ids r' = _all_token_ids r ++ toks ∧
             _output_token_ids r' = _output_token_ids r ++ toks ∧ hash_inv bs r') r.
Proof.
  intros Hbs Hi Hc. eapply wp_mono; [by apply append_output_frame|]. by intros _ r' (hs & m & -> & ?).
Qed.

(** The multi-modal inputs of a new request are in the order of their positions, and all
    but the last of them lie in full blocks. *)
Definition inputs_in_full (bs : Z) (r : Request) : Prop :=
  features_sorted (mm_features r) ∧
  Forall (λ f, feature_end f ≤ num_tokens r / bs * bs) (take (length (mm_features r) - 1) (mm_features r)).

(** The requests whose hashes the hasher has computed: those of a new request, and then of
    generated tokens, in any portions. *)
Inductive hashed_request (bs : Z) : Request → Prop :=
  | hashed_new r r' :
      block_hashes r = [] → memo r = ∅ → inputs_in_full bs r →
      update_block_hashes (Some (request_block_hasher sha256 hash_function NONE_HASH bs)) r = (Ok tt, r') →
      hashed_request bs r'
  | hashed_append r toks r' :
      hashed_request bs r →
      append_output_token_ids (Some (request_block_hasher sha256 hash_function NONE_HASH bs)) toks r = (Ok tt, r') →
      hashed_request bs r'.

Lemma hashed_request_inv bs r : 0 < bs → hashed_request bs r → hash_inv bs r ∧ inputs_in_full bs r.
Proof.
  intros Hbs. induction 1 as [r r' Hb Hm [Hs Hin] Hrun|r toks r' _ [Hi [Hs Hin]] Hrun].
  - assert (Hw := hasher_spec bs r Hbs Hs). rewrite Hb in Hw. unfold wp in Hw. rewrite Hrun in Hw.
    destruct Hw as (Hh & Hm1 & m & ->); [intros s e h; by rewrite Hm, lookup_empty|simpl; lia|done|by left|].
    split; [|done]. split_and!; [done..|]. rewrite Hh. symmetry. apply (hashes_upto_ext r); try done. exists []. by rewrite app_nil_r.
  - assert (len (block_hashes r) = num_tokens r / bs) as Hlen.
    { destruct Hi as (_ & _ & ->). unfold hashes_upto, num_full, len. rewrite length_fmap, length_seq. apply Z2Nat.id, Z.div_pos; [|done].
      apply len_nonneg. }
    assert (Hw := append_output_frame bs r toks Hbs Hi). unfold wp in Hw. rewrite Hrun in Hw.
    destruct Hw as (hs & m & -> & Hi'); [left; by rewrite Hlen|]. split; [done|]. split; [done|].
    eapply Forall_impl; [exact Hin|]. intros f Hf. etrans; [exact Hf|]. apply Z.mul_le_mono_nonneg_r; [lia|].
    apply Z.div_le_mono; [done|]. unfold num_tokens. simpl. rewrite len_app. pose proof (len_nonneg toks). lia.
Qed.
End Chain.

(** ** Soundness of the chain *)

Section Soundness.
#[local] Set Default Proof Using "Type*".
Context (sha256 : list bytes → bytes).
Context (hash_function : bytes * list Z * option (list ExtraKey) → bytes).
Context (NONE_HASH : bytes).
(** No collisions, and the seed of the chain is no hash value: what the choice of
    SHA-256 and of a random seed is meant to provide. *)
Context (hash_inj : ∀ x y, hash_function x = hash_function y → x = y).
Context (hash_not_none : ∀ x, hash_function x ≠ NONE_HASH).
Context (hash_not_empty : ∀ x, hash_function x ≠ []).

Abbreviation chain := (chain_hash sha256 hash_function NONE_HASH).
Abbreviation keys := (block_extra_keys sha256).

(** The hash of block [i] determines the hash of its parent, its tokens and its
    extra keys. *)
Lemma chain_hash_inv r r' bs i j :
  chain r bs i = chain r' bs j →
  py_slice (_all_token_ids r) (Z.of_nat i * bs) (Z.of_nat i * bs + bs) =
    py_slice (_all_token_ids r') (Z.of_nat j * bs) (Z.of_nat j * bs + bs) ∧
  keys r (Z.of_nat i * bs) (Z.of_nat i * bs + bs) =
    keys r' (Z.of_nat j * bs) (Z.of_nat j * bs + bs) ∧
  match i, j with
  | O, O => True
  | S i, S j => chain r bs i = chain r' bs j
  | _, _ => False
  end.
Proof.
  assert (Hnn : ∀ r k, chain r bs k ≠ NONE_HASH) by (intros r0 [|]; apply hash_not_none).
  assert (Hp : ∀ r k, match chain r bs k with [] => NONE_HASH | _ => chain r bs k end = chain r bs k).
  { intros r0 k. destruct (chain r0 bs k) eqn:E; [|done].
    destruct k; simpl in E; by apply hash_not_empty in E. }
  destruct i as [|i], j as [|j]; simpl; unfold hash_block_tokens; intros E%hash_inj;
    pose proof (f_equal (λ x, x.1.1) E) as E1; pose proof (f_equal (λ x, x.1.2) E) as E2;
    pose proof (f_equal snd E) as E3; simpl in E1, E2, E3; split_and!; try done.
  - rewrite (Hp r' j) in E1. by apply (Hnn r' j).
  - rewrite (Hp r i) in E1. by apply (Hnn r i).
  - by rewrite (Hp r i), (Hp r' j) in E1.
Qed.

Lemma take_slices {A} (l l' : list A) bs n :
  0 < bs →
  (∀ k, (k < n)%nat → py_slice l (Z.of_nat k * bs) (Z.of_nat k * bs + bs) =
                        py_slice l' (Z.of_nat k * bs) (Z.of_nat k * bs + bs)) →
  take (Z.to_nat (Z.of_nat n * bs)) l = take (Z.to_nat (Z.of_nat n * bs)) l'.
Proof.
  intros Hbs. induction n as [|n IH]; intros Hk; [done|].
  replace (Z.to_nat (Z.of_nat (S n) * bs)) with
    (Z.to_nat (Z.of_nat n * bs) + Z.to_nat bs)%nat by lia.
  rewrite <- !take_take_drop. f_equal; [apply IH; intros; apply Hk; lia|].
  specialize (Hk n ltac:(lia)). rewrite !py_slice_nonneg in Hk by lia.
  replace (Z.to_nat (Z.of_nat n * bs + bs) - Z.to_nat (Z.of_nat n * bs))%nat
    with (Z.to_nat bs) in Hk by lia. done.
Qed.

Lemma chain_hash_blocks r r' bs i j :
  chain r bs i = chain r' bs j → i = j ∧
  ∀ k, (k ≤ i)%nat →
    py_slice (_all_token_ids r) (Z.of_nat k * bs) (Z.of_nat k * bs + bs) =
      py_slice (_all_token_ids r') (Z.of_nat k * bs) (Z.of_nat k * bs + bs) ∧
    keys r (Z.of_nat k * bs) (Z.of_nat k * bs + bs) =
      keys r' (Z.of_nat k * bs) (Z.of_nat k * bs + bs).
Proof.
  revert j. induction i as [|i IH]; intros j (Ht & Hk & Hp)%chain_hash_inv; destruct j as [|j];
    try done.
  - split; [done|]. intros k ?. by replace k with 0%nat by lia.
  - destruct (IH j Hp) as [-> Hall]. split; [done|]. intros k Hki.
    destruct (decide (k = S j)) as [->|]; [done|]. apply Hall. lia.
Qed.

(** C22: Equal block hashes mean equal prefixes.  Take two requests whose hashes the
    request hasher has computed, for the prompt and then for generated tokens in any
    portions; their multi-modal inputs are in order, and all but the last lie in full blocks
    of the prompt.  With a collision-free hash function whose values differ from the seed,
    if the hash of block [i] of one is the hash of block [j] of the other, then [i = j], the
    tokens agree in all blocks up to this one, and in each of them the extra keys agree:
    the LoRA name, the multi-modal inputs the block overlaps and their offsets, the salt in
    the first block, and the embeddings of the prompt. *)
Theorem equal_hash_equal_prefix r r' bs i j h :
  0 < bs → hashed_request sha256 hash_function NONE_HASH bs r → hashed_request sha256 hash_function NONE_HASH bs r' →
  block_hashes r !! i = Some h → block_hashes r' !! j = Some h →
  i = j ∧
  take (Z.to_nat ((Z.of_nat i + 1) * bs)) (_all_token_ids r) =
    take (Z.to_nat ((Z.of_nat i + 1) * bs)) (_all_token_ids r') ∧
  ∀ k, (k ≤ i)%nat →
    keys r (Z.of_nat k * bs) (Z.of_nat k * bs + bs) =
      keys r' (Z.of_nat k * bs) (Z.of_nat k * bs + bs).
Proof.
  intros Hbs Hr Hr' Hi Hj.
  assert (Hat : ∀ r i, hashed_request sha256 hash_function NONE_HASH bs r → block_hashes r !! i = Some h → chain r bs i = h).
  { intros r0 k [(_ & _ & Hh) _]%hashed_request_inv Hk; [|done]. rewrite Hh in Hk. unfold hashes_upto in Hk.
    apply list_lookup_fmap_Some in Hk as (x & -> & [-> _]%lookup_seq). done. }
  destruct (chain_hash_blocks r r' bs i j) as [-> Hall]; [by rewrite (Hat r i), (Hat r' j)|].
  split_and!; [done| |intros k Hk; by apply Hall].
  replace (Z.of_nat j + 1) with (Z.of_nat (S j)) by lia. apply take_slices; [done|].
  intros k Hk. apply Hall. lia.
Qed.
End Soundness.

(** A collision-free hash function: the encoding of its argument, as one number. *)
Definition injective_hash (x : bytes * list Z * option (list ExtraKey)) : bytes :=
  [Z.pos (encode x)].

Lemma injective_hash_inj x y : injective_hash x = injective_hash y → x = y.
Proof. intros [= H]. by apply (inj encode). Qed.

(** A text request with the given prompt. *)
Definition text_request (id : string) (toks : list Z) (lora : option LoRARequest)
    (salt : option string) (features : list MultiModalFeatureSpec) : Request :=
  mkRequest id 0 0 None None lora None 0 WAITING [] None 16 (Some toks) None ∅ (len toks) []
    toks 0 false [] 0 salt features false 0 None [] false false None None 0 0.

(** The request after its hashes were computed. *)
Definition hashed_text sha256 hash_function NONE_HASH bs (r : Request) : Request :=
  (update_block_hashes (Some (request_block_hasher sha256 hash_function NONE_HASH bs)) r).2.

(** The second request has generated its fourth and fifth token. *)
Lemma equal_hash_equal_prefix_witness :
  let hasher := Some (request_block_hasher (λ _, []) injective_hash [0] 2) in
  let r := hashed_text (λ _, []) injective_hash [0] 2 (text_request "a" [1; 2; 3; 4; 5] None None []) in
  let r0 := hashed_text (λ _, []) injective_hash [0] 2 (text_request "b" [1; 2; 3] None None []) in
  let r' := (append_output_token_ids hasher [4; 9] r0).2 in
  is_Some (block_hashes r !! 1%nat) ∧ block_hashes r !! 1%nat = block_hashes r' !! 1%nat ∧
  take 4 (_all_token_ids r) = take 4 (_all_token_ids r').
Proof.
  intros hasher r r0 r'.
  assert (is_Some (block_hashes r !! 1%nat)) as [h Hh] by (vm_compute; eauto).
  assert (block_hashes r' !! 1%nat = block_hashes r !! 1%nat) as He by (vm_compute; reflexivity).
  split; [by exists h|]. split; [done|]. rewrite Hh in He.
  destruct (equal_hash_equal_prefix (λ _, []) injective_hash [0] injective_hash_inj
    ltac:(discriminate) ltac:(discriminate) r r' 2 1 1 h) as (_ & Ht & _); [lia| | |done|done|exact Ht].
  - apply hashed_new with (text_request "a" [1; 2; 3; 4; 5] None None []); [done|done|by split; repeat constructor|reflexivity].
  - apply hashed_append with r0 [4; 9]; [|reflexivity].
    apply hashed_new with (text_request "b" [1; 2; 3] None None []); [done|done|by split; repeat constructor|reflexivity].
Defined.

(** ** Properties of the keys *)

(** C35: A block hash and a group id packed into one key are recovered by
    [get_block_hash] and [get_group_id], and two packed keys are equal only if
    both components are: blocks of different groups never share a key.  Packing raises an
    overflow for an id that is negative or needs more than four bytes, and for no other. *)
Theorem packed_key_roundtrip h g :
  match make_block_hash_with_group_id h g with
  | Ok key => 0 ≤ g < 2 ^ 32 ∧ get_block_hash key = h ∧ get_group_id key = g ∧
      ∀ h' g', make_block_hash_with_group_id h' g' = Ok key ↔ h' = h ∧ g' = g
  | Raise e => e = OverflowError ∧ ¬ 0 ≤ g < 2 ^ 32
  end.
Proof.
  assert (Hin : ∀ x, (0 <=? x) && (x <? 2 ^ 32) = bool_decide (0 ≤ x < 2 ^ 32)).
  { intros x. destruct (Z.leb_spec 0 x), (Z.ltb_spec x (2 ^ 32)); cbn [andb];
      symmetry; (apply bool_decide_eq_true_2; lia) || (apply bool_decide_eq_false_2; lia). }
  unfold make_block_hash_with_group_id. rewrite Hin. case_bool_decide as Hg; [|done].
  split_and!; [lia|lia|apply get_block_hash_make|by apply get_group_id_make|]. intros h' g'. rewrite Hin.
  case_bool_decide as Hg'; (split; [|by intros [-> ->]]); [|done]. intros [= E]. by apply make_block_hash_inj.
Qed.

Lemma concat_uniform_inj {A} n (l1 l2 : list (list A)) :
  length l1 = length l2 → Forall (λ x, length x = n) l1 → Forall (λ x, length x = n) l2 →
  concat l1 = concat l2 → l1 = l2.
Proof.
  revert l2. induction l1 as [|x l1 IH]; intros [|y l2]; simpl; try done.
  intros Hlen H1 H2 E. inversion_clear H1. inversion_clear H2.
  apply app_inj_1 in E as [-> E]; [|congruence]. f_equal. apply IH; [lia|done..].
Qed.

Lemma scaled_slice (b : BlockHashListWithBlockSize) (i : nat) :
  0 < scale_factor b → Z.of_nat i < scaled_len b →
  _get_value_at b (Z.of_nat i) =
    concat (take (Z.to_nat (scale_factor b)) (drop (i * Z.to_nat (scale_factor b)) (scaled_block_hashes b))).
Proof.
  intros Hk Hi. unfold _get_value_at. rewrite py_slice_nonneg by nia. f_equal.
  replace (Z.to_nat (Z.of_nat i * scale_factor b)) with (i * Z.to_nat (scale_factor b))%nat by nia.
  f_equal. nia.
Qed.

Lemma scaled_iter_lookup b (i : nat) :
  Z.of_nat i < scaled_len b → scaled_iter b !! i = Some (_get_value_at b (Z.of_nat i)).
Proof.
  intros Hi. unfold scaled_iter, py_range. rewrite list_lookup_fmap, Z.sub_0_r.
  rewrite (proj2 (lookup_seqZ 0 (scaled_len b) i (Z.of_nat i))) by lia. done.
Qed.

(** An index of the view addresses [scale_factor] hashes of the list. *)
Lemma scaled_room b (i : nat) :
  0 < scale_factor b → Z.of_nat i < scaled_len b →
  (i * Z.to_nat (scale_factor b) + Z.to_nat (scale_factor b) ≤ length (scaled_block_hashes b))%nat.
Proof.
  intros Hk Hi. unfold scaled_len, len in Hi.
  pose proof (Z.mul_div_le (Z.of_nat (length (scaled_block_hashes b))) (scale_factor b) Hk). nia.
Qed.

(** The coarse-grained view [BlockHashListWithBlockSize] of a list of hashes
    of one length loses nothing: it has one entry per [scale_factor] hashes, and if
    the entries of two requests agree at index [i], all the fine-grained hashes they
    are made of agree. *)
Theorem scaled_hashes_faithful hs hs' hbs tbs b b' n (i : nat) :
  0 < hbs → 0 < tbs →
  scaled_init hs hbs tbs = Ok b → scaled_init hs' hbs tbs = Ok b' →
  Forall (λ h, length h = n) hs → Forall (λ h, length h = n) hs' →
  Z.of_nat i < scaled_len b → Z.of_nat i < scaled_len b' →
  scaled_iter b !! i = scaled_iter b' !! i →
  ∀ j : nat, Z.of_nat j < tbs / hbs →
    hs !! (i * Z.to_nat (tbs / hbs) + j)%nat = hs' !! (i * Z.to_nat (tbs / hbs) + j)%nat.
Proof.
  intros Hh Ht Hb Hb' Hn Hn' Hi Hi' E j Hj. unfold scaled_init in *.
  destruct (Z.eqb_spec (tbs mod hbs) 0); simplify_eq. set (k := tbs / hbs) in *.
  assert (Hk : 0 < k) by (pose proof (Z_div_mod_eq_full tbs hbs); subst k; nia).
  rewrite (scaled_iter_lookup _ _ Hi), (scaled_iter_lookup _ _ Hi') in E. injection E as E.
  rewrite !scaled_slice in E by done. simpl in E.
  apply (concat_uniform_inj n) in E; [|..|].
  - apply (f_equal (lookup j)) in E. rewrite !lookup_take_lt in E by lia.
    by rewrite !lookup_drop in E.
  - rewrite !length_take, !length_drop.
    pose proof (scaled_room (mkScaled hs k) i Hk Hi).
    pose proof (scaled_room (mkScaled hs' k) i Hk Hi'). simpl in *. lia.
  - by apply Forall_take, Forall_drop.
  - by apply Forall_take, Forall_drop.
Qed.

Lemma scaled_hashes_faithful_witness :
  [[1]; [2]; [3]; [4]] !! 1%nat = [[1]; [2]; [5]; [6]] !! 1%nat.
Proof.
  apply (scaled_hashes_faithful [[1]; [2]; [3]; [4]] [[1]; [2]; [5]; [6]] 16 32
    (mkScaled [[1]; [2]; [3]; [4]] 2) (mkScaled [[1]; [2]; [5]; [6]] 2) 1 0);
    first [reflexivity | by repeat constructor].
Defined.

(** C33: Appending generated tokens keeps the request's hash list equal to the hash
    chain over its full blocks, if all multi-modal inputs but the last end before the first
    block that has no hash yet, or there is no hash yet: then new full blocks get the hash of
    their parent, their tokens and the extra keys of exactly the multi-modal inputs they
    overlap, and no other hash changes. *)
Theorem append_keeps_hash_chain sha256 hash_function NONE_HASH bs r toks :
  0 < bs → hash_inv sha256 hash_function NONE_HASH bs r →
  Forall (λ f, feature_end f ≤ len (block_hashes r) * bs)
    (take (length (mm_features r) - 1) (mm_features r)) ∨ block_hashes r = [] →
  ∃ r', append_output_token_ids
          (Some (request_block_hasher sha256 hash_function NONE_HASH bs)) toks r = (Ok tt, r') ∧
    _all_token_ids r' = _all_token_ids r ++ toks ∧
    _output_token_ids r' = _output_token_ids r ++ toks ∧
    hash_inv sha256 hash_function NONE_HASH bs r'.
Proof.
  intros Hbs Hi Hc. destruct (proj1 (wp_run _ _ _)
    (append_output_hashes sha256 hash_function NONE_HASH bs r toks Hbs Hi Hc)) as ([] & r' & ? & ?).
  by exists r'.
Qed.

Lemma append_keeps_hash_chain_witness :
  ∃ r', append_output_token_ids
          (Some (request_block_hasher (λ _, []) injective_hash [0] 2)) [7; 8; 9]
          (text_request "a" [5] None None []) = (Ok tt, r') ∧
        _all_token_ids r' = [5; 7; 8; 9] ∧
        block_hashes r' = hashes_upto (λ _, []) injective_hash [0] r' 2 2.
Proof.
  destruct (append_keeps_hash_chain (λ _, []) injective_hash [0] 2
    (text_request "a" [5] None None []) [7; 8; 9]) as (r' & Hr & Ha & _ & _ & _ & Hh).
  - lia.
  - split_and!; [intros ??? Hl; vm_compute in Hl; discriminate|by repeat constructor|reflexivity].
  - by right.
  - exists r'. split_and!; [done..|]. rewrite Hh. unfold num_full, num_tokens. by rewrite Ha.
Defined.

(** ** Where the keys do not separate requests *)

(** C37: A LoRA name and a cache salt are both plain strings of the extra-keys tuple,
    so the hasher gives the first block of a request for adapter [x] and the first block of a
    request for the base model with salt [x] the same hash, for every prompt of a block
    at least, every name and every hash function. *)
Theorem lora_name_and_salt_collide sha256 hash_function NONE_HASH x toks bs lora_id :
  x ≠ ""%string → 0 < bs ≤ len toks →
  ∃ h, block_hashes (hashed_text sha256 hash_function NONE_HASH bs
         (text_request "a" toks (Some (mkLoRARequest x lora_id)) None [])) !! 0%nat = Some h ∧
       block_hashes (hashed_text sha256 hash_function NONE_HASH bs
         (text_request "b" toks None (Some x) [])) !! 0%nat = Some h.
Proof.
  intros Hx Hbs.
  assert (Hone : ∀ id lora salt, block_hashes (hashed_text sha256 hash_function NONE_HASH bs (text_request id toks lora salt [])) !! 0%nat =
    Some (chain_hash sha256 hash_function NONE_HASH (text_request id toks lora salt []) bs 0)).
  { intros id lora salt. set (r := text_request id toks lora salt []).
    assert (Hw := hasher_spec sha256 hash_function NONE_HASH bs r). unfold hashed_text. unfold wp in Hw.
    destruct (update_block_hashes _ r) as [[[]|] r'].
    - cbn [snd]. destruct Hw as [-> _]; [lia|by repeat constructor|done|simpl; lia|done|by left|].
      unfold hashes_upto. assert (1 ≤ num_full r bs)%nat as Hn.
      { unfold num_full, num_tokens. simpl. assert (1 ≤ len toks / bs) by (apply Z.div_le_lower_bound; lia). lia. }
      destruct (num_full r bs) as [|n]; [lia|done].
    - destruct Hw; [lia|by repeat constructor|done|simpl; lia|done|by left]. }
  eexists. split; [apply Hone|]. rewrite Hone. f_equal. simpl. unfold block_extra_keys. simpl.
  by rewrite (proj2 (String.eqb_neq x "")) by done.
Qed.

Lemma lora_name_and_salt_collide_witness :
  ∃ h, block_hashes (hashed_text (λ _, []) injective_hash [0] 2
         (text_request "a" [1; 2; 3] (Some (mkLoRARequest "sql" 1)) None [])) !! 0%nat = Some h ∧
       block_hashes (hashed_text (λ _, []) injective_hash [0] 2
         (text_request "b" [1; 2; 3] None (Some "sql"%string) [])) !! 0%nat = Some h.
Proof. apply (lora_name_and_salt_collide (λ _, []) injective_hash [0] "sql" [1; 2; 3] 2 1); [discriminate|unfold len; simpl; lia]. Defined.

(** An image whose placeholder is one token at [off]. *)
Definition image (ident : string) (off : Z) : MultiModalFeatureSpec :=
  mkFeature "image" ident (mkPlaceholderRange off 1 None).

(** A prompt of seven tokens, block size four, with two images in its last,
    partial block. *)
Definition two_image_request (first_image : string) : Request :=
  text_request "a" [1; 2; 3; 4; 0; 0; 7] None None [image first_image 4; image "C" 5].

(** Its hashes after one generated token has completed the block. *)
Definition two_image_hashes sha256 hash_function NONE_HASH (first_image : string) : list bytes :=
  let hasher := Some (request_block_hasher sha256 hash_function NONE_HASH 4) in
  let r := (update_block_hashes hasher (two_image_request first_image)).2 in
  block_hashes (append_output_token_ids hasher [8] r).2.

(** The hasher resumes at the last multi-modal input, so when the partial block
    at the end of a prompt holds two of them, the first does not enter the block's
    hash: two requests that differ in that image get the same hashes although the
    extra keys of the block differ. *)
Theorem tail_block_ignores_first_image sha256 hash_function NONE_HASH :
  two_image_hashes sha256 hash_function NONE_HASH "A" =
    two_image_hashes sha256 hash_function NONE_HASH "B" ∧
  block_extra_keys sha256 (two_image_request "A") 4 8 ≠
    block_extra_keys sha256 (two_image_request "B") 4 8.
Proof. split; [reflexivity|]. vm_compute. discriminate. Qed.
