(* ===== verification/BlockPool.v ===== *)
(** * The block pool

    vllm/v1/core/block_pool.py and kv_cache_metrics.py: the pool of KV-cache blocks
    with its free queue, the map from block hashes to cached blocks, the event
    queue and the optional residency metrics.  The clock, the random generator,
    SHA-256 and the environment variable the code reads are the fields of the class
    [Env]; [time_ns n] is what the [n]-th call of the clock returns. *)

From Stdlib Require Import QArith.
From S2P Require Import Prelude FreeQueue Request BlockHash.


Class Env := {
  sha256 : list bytes → bytes;
  VLLM_KV_EVENTS_USE_INT_BLOCK_HASHES : bool;
  time_ns : nat → Z;
  random : nat → Q
}.

(** ** Residency metrics *)

Record BlockMetricsState := mkBlockMetrics {
  birth_time_ns : Z;
  last_access_ns : Z;
  access_history : list Z
}.

(** [deque(maxlen=4).append] *)
Definition deque4_append (l : list Z) (x : Z) : list Z :=
  let l := l ++ [x] in drop (length l - 4) l.

(** Nanoseconds divided by [1e9], as the exact rational. *)
Definition seconds (ns : Z) : Q := ns # 1000000000.

Fixpoint reuse_gaps (history : list Z) : list Q :=
  match history with
  | a :: (b :: _) as rest => seconds (b - a) :: reuse_gaps rest
  | _ => []
  end.

Record KVCacheEvictionEvent := mkEviction {
  lifetime_seconds : Q;
  idle_seconds : Q;
  reuse_gaps_seconds : list Q
}.

(** [clock] and [draws] count the calls of the clock and of the generator. *)
Record KVCacheMetricsCollector := mkMetrics {
  sample_rate : Q;
  block_metrics : gmap Z BlockMetricsState;
  eviction_events : list KVCacheEvictionEvent;
  clock : nat;
  draws : nat
}.

Section Metrics.
Context {E : Env}.

Definition on_block_allocated (block_id : Z) (c : KVCacheMetricsCollector) :
    KVCacheMetricsCollector :=
  let sampled := negb (Qle_bool (sample_rate c) (random (draws c))) in
  if sampled then
    let now := time_ns (clock c) in
    mkMetrics (sample_rate c) (<[block_id := mkBlockMetrics now now []]> (block_metrics c))
      (eviction_events c) (S (clock c)) (S (draws c))
  else mkMetrics (sample_rate c) (block_metrics c) (eviction_events c) (clock c) (S (draws c)).

Definition on_block_accessed (block_id : Z) (c : KVCacheMetricsCollector) :
    KVCacheMetricsCollector :=
  match block_metrics c !! block_id with
  | None => c
  | Some m =>
      let now := time_ns (clock c) in
      mkMetrics (sample_rate c)
        (<[block_id := mkBlockMetrics (birth_time_ns m) now (deque4_append (access_history m) now)]>
           (block_metrics c))
        (eviction_events c) (S (clock c)) (draws c)
  end.

Definition on_block_evicted (block_id : Z) (c : KVCacheMetricsCollector) :
    KVCacheMetricsCollector :=
  match block_metrics c !! block_id with
  | None => c
  | Some m =>
      let lifetime := seconds (time_ns (clock c) - birth_time_ns m) in
      let idle_time := seconds (time_ns (S (clock c)) - last_access_ns m) in
      mkMetrics (sample_rate c) (delete block_id (block_metrics c))
        (eviction_events c ++ [mkEviction lifetime idle_time (reuse_gaps (access_history m))])
        (S (S (clock c))) (draws c)
  end.

Definition metrics_reset (c : KVCacheMetricsCollector) : KVCacheMetricsCollector :=
  mkMetrics (sample_rate c) ∅ [] (clock c) (draws c).

Definition drain_events (c : KVCacheMetricsCollector) :
    list KVCacheEvictionEvent * KVCacheMetricsCollector :=
  (eviction_events c, mkMetrics (sample_rate c) (block_metrics c) [] (clock c) (draws c)).
End Metrics.

(** ** Events *)

Inductive KVCacheEvent :=
  | BlockStored (block_hashes : list ExternalBlockHash) (parent : option ExternalBlockHash)
      (token_ids : list Z) (block_size : Z) (lora_id : option Z) (lora_name : option string)
      (extra_keys : option (list (option (list ExtraKey)))) (group_idx : Z)
  | BlockRemoved (block_hashes : list ExternalBlockHash) (group_idx : Z)
  | AllBlocksCleared.

(** ** The map from hashes to cached blocks *)

(** A key maps to one block, or to a dict from block ids to blocks, in insertion
    order. *)
Inductive CacheEntry :=
  | One (b : ref)
  | Many (d : list (Z * ref)).

Abbreviation BlockHashToBlockMap := (gmap bytes CacheEntry).

(** [d[k] = v] on a Python dict. *)
Fixpoint dict_set (d : list (Z * ref)) (k : Z) (v : ref) : list (Z * ref) :=
  match d with
  | [] => [(k, v)]
  | (k', v') :: d => if k' =? k then (k, v) :: d else (k', v') :: dict_set d k v
  end.

(** [d.pop(k, None)] *)
Fixpoint dict_pop (d : list (Z * ref)) (k : Z) : option ref * list (Z * ref) :=
  match d with
  | [] => (None, [])
  | (k', v') :: d =>
      if k' =? k then (Some v', d) else let '(r, d') := dict_pop d k in (r, (k', v') :: d')
  end.

(** A dict of the map is never empty. *)
Definition get_one_block (c : BlockHashToBlockMap) (key : bytes) : option ref :=
  match c !! key with
  | None => None
  | Some (One b) => Some b
  | Some (Many d) => snd <$> head d
  end.

(** [id_of] reads the [block_id] of a block. *)
Definition map_insert (id_of : ref → Z) (c : BlockHashToBlockMap) (key : bytes) (block : ref) :
    BlockHashToBlockMap :=
  match c !! key with
  | None => <[key := One block]> c
  | Some (One b) => <[key := Many (dict_set [(id_of b, b)] (id_of block) block)]> c
  | Some (Many d) => <[key := Many (dict_set d (id_of block) block)]> c
  end.

Definition map_pop (id_of : ref → Z) (c : BlockHashToBlockMap) (key : bytes) (block_id : Z) :
    option ref * BlockHashToBlockMap :=
  match c !! key with
  | None => (None, c)
  | Some (One b) =>
      if id_of b =? block_id then (Some b, delete key c)
      else (None, <[key := One b]> (delete key c))
  | Some (Many d) =>
      let '(r, d') := dict_pop d block_id in
      if 0 <? len d' then (r, <[key := Many d']> (delete key c)) else (r, delete key c)
  end.

(** ** The pool *)

Record BlockPool := mkBlockPool {
  num_gpu_blocks : Z;
  enable_caching : bool;
  hash_block_size : Z;
  blocks : list ref;
  free_block_queue : FreeKVCacheBlockQueue;
  cached_block_hash_to_block : BlockHashToBlockMap;
  null_block : ref;
  enable_kv_cache_events : bool;
  kv_event_queue : list KVCacheEvent;
  metrics_collector : option KVCacheMetricsCollector
}.

Definition set_free_block_queue (v : FreeKVCacheBlockQueue) (p : BlockPool) : BlockPool :=
  mkBlockPool
    (num_gpu_blocks p) (enable_caching p) (hash_block_size p) (blocks p) v
    (cached_block_hash_to_block p) (null_block p) (enable_kv_cache_events p)
    (kv_event_queue p) (metrics_collector p).
Definition set_cached_block_hash_to_block (v : BlockHashToBlockMap) (p : BlockPool) : BlockPool :=
  mkBlockPool
    (num_gpu_blocks p) (enable_caching p) (hash_block_size p) (blocks p)
    (free_block_queue p) v (null_block p) (enable_kv_cache_events p) (kv_event_queue p)
    (metrics_collector p).
Definition set_kv_event_queue (v : list KVCacheEvent) (p : BlockPool) : BlockPool :=
  mkBlockPool
    (num_gpu_blocks p) (enable_caching p) (hash_block_size p) (blocks p)
    (free_block_queue p) (cached_block_hash_to_block p) (null_block p)
    (enable_kv_cache_events p) v (metrics_collector p).
Definition set_metrics_collector (v : option KVCacheMetricsCollector) (p : BlockPool) : BlockPool :=
  mkBlockPool
    (num_gpu_blocks p) (enable_caching p) (hash_block_size p) (blocks p)
    (free_block_queue p) (cached_block_hash_to_block p) (null_block p)
    (enable_kv_cache_events p) (kv_event_queue p) v.

Section Pool.
Context {E : Env}.
Abbreviation P := BlockPool.

Definition hp (p : P) : heap := q_heap (free_block_queue p).
Definition id_of (p : P) (r : ref) : Z := block_id (hp p !!! r).

(** An operation of the free queue, run on the pool's queue. *)
Definition on_queue {A} : M FreeKVCacheBlockQueue A → M P A :=
  zoom free_block_queue set_free_block_queue.

Definition load_block (r : ref) : M P KVCacheBlock := on_queue (load r).
Definition store_block (f : KVCacheBlock → KVCacheBlock) (r : ref) : M P unit :=
  on_queue (store f r).

(** [if self.metrics_collector: self.metrics_collector.f(block)] *)
Definition on_metrics (f : Z → KVCacheMetricsCollector → KVCacheMetricsCollector) (r : ref) :
    M P unit :=
  modify (λ p, set_metrics_collector (f (id_of p r) <$> metrics_collector p) p).

Definition emit (e : KVCacheEvent) : M P unit :=
  modify (λ p, set_kv_event_queue (kv_event_queue p ++ [e]) p).

Definition get_num_free_blocks (p : P) : Z := num_free_blocks (free_block_queue p).

(** [BlockPool.__init__] *)
Definition pool_init (num_gpu_blocks : Z) (enable_caching : bool) (hash_block_size : Z)
    (enable_kv_cache_events : bool) (metrics : option KVCacheMetricsCollector) : result P :=
  if negb (0 <? num_gpu_blocks) then Raise AssertionError
  else
    let ids := seq 0 (Z.to_nat num_gpu_blocks) in
    let blocks := Blk <$> ids in
    let h : heap := list_to_map ((λ i, (Blk i, new_block (Z.of_nat i))) <$> ids) in
    match (_ ← queue_init blocks; popleft) (mkQueue h 0) with
    | (Raise e, _) => Raise e
    | (Ok null_block, q) =>
        let q := set_q_heap (upd (set_is_null true) null_block (q_heap q)) q in
        Ok (mkBlockPool num_gpu_blocks enable_caching hash_block_size blocks q ∅ null_block
              enable_kv_cache_events [] metrics)
    end.

(** [get_cached_block]: one block per group, or nothing if a group misses. *)
Definition get_cached_block (p : P) (block_hash : bytes) (kv_cache_group_ids : list Z) :
    option (list ref) :=
  mapM (λ g, get_one_block (cached_block_hash_to_block p)
               (group_key block_hash g)) kv_cache_group_ids.

(** The [block_hash] setter of a block. *)
Definition set_block_hash (r : ref) (key : bytes) : M P unit :=
  b ← load_block r;
  _ ← assert (bool_decide (_block_hash b = None));
  store_block (set_hash (Some key)) r.

(** The loop of [cache_full_blocks] over the new full blocks; returns the list
    [new_hashes] of the event. *)
Fixpoint cache_loop (new_full_blocks : list ref) (new_block_hashes : list bytes)
    (kv_cache_group_id : Z) : M P (list ExternalBlockHash) :=
  match new_full_blocks with
  | [] => mret []
  | blk :: rest =>
      b ← load_block blk;
      if is_null b then cache_loop rest (tail new_block_hashes) kv_cache_group_id
      else
        _ ← assert (bool_decide (_block_hash b = None));
        block_hash ← or_raise IndexError (head new_block_hashes);
        let key := group_key block_hash kv_cache_group_id in
        _ ← set_block_hash blk key;
        _ ← modify (λ p, set_cached_block_hash_to_block
              (map_insert (id_of p) (cached_block_hash_to_block p) key blk) p);
        hs ← cache_loop rest (tail new_block_hashes) kv_cache_group_id;
        mret (maybe_convert_block_hash VLLM_KV_EVENTS_USE_INT_BLOCK_HASHES block_hash :: hs)
  end.

(** The loop that collects the extra keys of the event. *)
Fixpoint event_keys_loop (request : Request) (idxs : list Z) (blocks : list ref)
    (block_size curr_mm_idx : Z) : M P (list (option (list ExtraKey))) :=
  match idxs with
  | [] => mret []
  | i :: idxs =>
      blk ← or_raise IndexError (py_get blocks i);
      b ← load_block blk;
      if is_null b then event_keys_loop request idxs blocks block_size curr_mm_idx
      else
        let block_start := i * block_size in
        match generate_block_hash_extra_keys sha256 block_start (block_start + block_size)
                curr_mm_idx request with
        | (Raise e, _) => raise e
        | (Ok (extra_keys, curr_mm_idx), request) =>
            ks ← event_keys_loop request idxs blocks block_size curr_mm_idx;
            mret (extra_keys :: ks)
        end
  end.

Definition cache_full_blocks (request : Request) (blocks : list ref)
    (num_cached_blocks num_full_blocks block_size kv_cache_group_id : Z) : M P unit :=
  if num_full_blocks <=? num_cached_blocks then mret tt
  else
    let new_full_blocks := py_slice blocks num_cached_blocks num_full_blocks in
    _ ← assert (num_full_blocks <=? len (block_hashes request));
    hash_block_size ← gets hash_block_size;
    block_hashes ←
      (if block_size =? hash_block_size then mret (Plain (block_hashes request))
       else
         _ ← assert (block_size mod hash_block_size =? 0);
         match scaled_init (block_hashes request) hash_block_size block_size with
         | Ok b => mret (Scaled b)
         | Raise e => raise e
         end);
    let new_block_hashes := bhl_slice_from block_hashes num_cached_blocks in
    new_hashes ← cache_loop new_full_blocks new_block_hashes kv_cache_group_id;
    events ← gets enable_kv_cache_events;
    if (events : bool) then
      parent ←
        (if num_cached_blocks =? 0 then mret None
         else
           h ← or_raise IndexError (bhl_get block_hashes (num_cached_blocks - 1));
           mret (Some (maybe_convert_block_hash VLLM_KV_EVENTS_USE_INT_BLOCK_HASHES h)));
      let start_token_idx := num_cached_blocks * block_size in
      let end_token_idx := num_full_blocks * block_size in
      keys ← event_keys_loop request (py_range num_cached_blocks num_full_blocks) blocks block_size 0;
      emit (BlockStored new_hashes parent
              (py_slice (_all_token_ids request) start_token_idx end_token_idx) block_size
              (lora_int_id <$> lora_request request) (lora_name <$> lora_request request)
              (match keys with [] => None | _ => Some keys end) kv_cache_group_id)
    else mret tt.

Definition _maybe_evict_cached_block (block : ref) : M P bool :=
  _ ← on_metrics on_block_evicted block;
  b ← load_block block;
  match _block_hash b with
  | None => mret false
  | Some block_hash =>
      r ← gets (λ p, map_pop (id_of p) (cached_block_hash_to_block p) block_hash (block_id b));
      _ ← modify (set_cached_block_hash_to_block r.2);
      match r.1 with
      | None => mret false
      | Some _ =>
          _ ← store_block (set_hash None) block;
          events ← gets enable_kv_cache_events;
          _ ← (if (events : bool) then
                 emit (BlockRemoved
                   [maybe_convert_block_hash VLLM_KV_EVENTS_USE_INT_BLOCK_HASHES
                      (get_block_hash block_hash)] (get_group_id block_hash))
               else mret tt);
          mret true
      end
  end.

(** The body of the two loops of [get_new_blocks]. *)
Definition allocate_block (evict : bool) (block : ref) : M P unit :=
  _ ← (if evict then _ ← _maybe_evict_cached_block block; mret tt else mret tt);
  b ← load_block block;
  _ ← assert (ref_cnt b =? 0);
  _ ← store_block (λ b, set_ref_cnt (ref_cnt b + 1) b) block;
  on_metrics on_block_allocated block.

Definition get_new_blocks (num_blocks : Z) : M P (list ref) :=
  free ← gets get_num_free_blocks;
  if free <? num_blocks then raise ValueError
  else
    ret ← on_queue (popleft_n num_blocks);
    caching ← gets enable_caching;
    _ ← for_ ret (allocate_block caching);
    mret ret.

Definition touch_block (block : ref) : M P unit :=
  b ← load_block block;
  _ ← (if (ref_cnt b =? 0) && negb (is_null b) then on_queue (remove block) else mret tt);
  _ ← store_block (λ b, set_ref_cnt (ref_cnt b + 1) b) block;
  on_metrics on_block_accessed block.

Definition touch (blocks : list ref) : M P unit := for_ blocks touch_block.

Definition free_blocks (ordered_blocks : list ref) : M P unit :=
  _ ← for_ ordered_blocks (store_block (λ b, set_ref_cnt (ref_cnt b - 1) b));
  freed ← gets (λ p, filter (λ r, ref_cnt (hp p !!! r) = 0 ∧ is_null (hp p !!! r) = false)
                       ordered_blocks);
  on_queue (append_n freed).

(** [block_ids] is the set in the order it is iterated. *)
Definition evict_blocks (block_ids : list Z) : M P unit :=
  for_ block_ids (λ block_id,
    blocks ← gets blocks;
    _ ← assert (block_id <? len blocks);
    block ← or_raise IndexError (py_get blocks block_id);
    _ ← _maybe_evict_cached_block block;
    mret tt).

Definition reset_prefix_cache : M P bool :=
  num_used_blocks ← gets (λ p, num_gpu_blocks p - get_num_free_blocks p);
  if negb (num_used_blocks =? 1) then mret false
  else
    _ ← modify (set_cached_block_hash_to_block ∅);
    blocks ← gets blocks;
    _ ← for_ blocks (store_block (set_hash None));
    _ ← modify (λ p, set_metrics_collector (metrics_reset <$> metrics_collector p) p);
    events ← gets enable_kv_cache_events;
    _ ← (if (events : bool) then emit AllBlocksCleared else mret tt);
    mret true.

Definition get_usage (p : P) : Q :=
  let total_gpu_blocks := num_gpu_blocks p - 1 in
  if total_gpu_blocks =? 0 then 0%Q
  else (1 - inject_Z (get_num_free_blocks p) / inject_Z total_gpu_blocks)%Q.

Definition take_events : M P (list KVCacheEvent) :=
  events ← gets enable_kv_cache_events;
  if negb events then mret []
  else evs ← gets kv_event_queue; _ ← modify (set_kv_event_queue []); mret evs.
End Pool.

(** ** Correctness of the map from hashes to blocks *)

Definition entry_blocks (e : option CacheEntry) : list ref :=
  match e with
  | None => []
  | Some (One b) => [b]
  | Some (Many d) => d.*2
  end.

Definition entry_ok (idf : ref → Z) (e : option CacheEntry) : Prop :=
  match e with
  | Some (Many d) => d ≠ [] ∧ NoDup d.*1 ∧ ∀ k r, (k, r) ∈ d → k = idf r
  | _ => True
  end.

(** The map lists under each key exactly the blocks that carry that hash. *)
Definition cache_ok (idf : ref → Z) (hash : ref → option bytes) (valid : ref → Prop)
    (c : BlockHashToBlockMap) : Prop :=
  ∀ key, entry_ok idf (c !! key) ∧
    ∀ r, r ∈ entry_blocks (c !! key) ↔ valid r ∧ hash r = Some key.

Section Dict.
Implicit Types (d : list (Z * ref)) (k : Z) (r : ref).

Lemma dict_set_fresh d k r : k ∉ d.*1 → dict_set d k r = d ++ [(k, r)].
Proof.
  induction d as [|[k' r'] d IH]; simpl; [done|]. rewrite not_elem_of_cons. intros [Hk Hd].
  rewrite (proj2 (Z.eqb_neq k' k)) by done. by rewrite IH.
Qed.

Lemma dict_pop_here d1 k r d2 :
  k ∉ d1.*1 → dict_pop (d1 ++ (k, r) :: d2) k = (Some r, d1 ++ d2).
Proof.
  induction d1 as [|[k' r'] d1 IH]; simpl; [by rewrite Z.eqb_refl|].
  rewrite not_elem_of_cons. intros [Hk Hd].
  rewrite (proj2 (Z.eqb_neq k' k)) by done. by rewrite IH.
Qed.

Lemma dict_keys_fresh idf d r :
  (∀ k r', (k, r') ∈ d → k = idf r') → (∀ r', r' ∈ d.*2 → idf r' ≠ idf r) → idf r ∉ d.*1.
Proof.
  intros Hk Hr [[k r'] [Hkr Hin]]%list_elem_of_fmap. simpl in Hkr. subst k.
  apply (Hr r'); [|by apply Hk in Hin].
  apply list_elem_of_fmap. by exists (idf r, r').
Qed.
(** The dict of a key without one of its blocks. *)
Lemma dict_drop_ok idf d1 b d2 :
  entry_ok idf (Some (Many (d1 ++ (idf b, b) :: d2))) →
  idf b ∉ d1.*1 ∧ NoDup (d1 ++ d2).*1 ∧ (∀ k r, (k, r) ∈ d1 ++ d2 → k = idf r) ∧
  (∀ r, r ∈ (d1 ++ d2).*2 ↔ r ∈ (d1 ++ (idf b, b) :: d2).*2 ∧ r ≠ b).
Proof.
  intros (_ & Hnd & Hks). rewrite fmap_app in Hnd. simpl in Hnd.
  apply NoDup_app in Hnd as (Hn1 & Hdj & Hn2). apply NoDup_cons in Hn2 as [Hb2 Hn2].
  assert (idf b ∉ d1.*1) as Hb1 by (intros Hb1; apply (Hdj _ Hb1); by left).
  assert (Hd12 : ∀ k r, (k, r) ∈ d1 ++ d2 → k = idf r).
  { intros k r Hkr. apply Hks. rewrite elem_of_app in Hkr. rewrite elem_of_app, elem_of_cons.
    tauto. }
  split_and!; [done| |done|].
  - rewrite fmap_app. apply NoDup_app. split_and!; [done| |done].
    intros k H1 H2. apply (Hdj k H1). by right.
  - intros r. rewrite !fmap_app. simpl. rewrite !elem_of_app, elem_of_cons.
    split; [|tauto]. intros Hr. split; [tauto|]. intros ->.
    destruct Hr as [Hr|Hr]; apply list_elem_of_fmap in Hr as [[k r'] [-> Hr]];
      [apply Hb1|apply Hb2]; apply list_elem_of_fmap; exists (k, r');
      (split; [|done]); symmetry; apply Hd12; rewrite elem_of_app; tauto.
Qed.
End Dict.

Section CacheMap.
Context (idf : ref → Z) (hash : ref → option bytes) (valid : ref → Prop).
Hypothesis idf_inj : ∀ r r', valid r → valid r' → idf r = idf r' → r = r'.
#[local] Set Default Proof Using "Type*".

(** Nothing else is looked up under a key than the blocks with that hash. *)
Lemma get_one_block_ok c key :
  cache_ok idf hash valid c →
  match get_one_block c key with
  | Some r => valid r ∧ hash r = Some key
  | None => ∀ r, valid r → hash r ≠ Some key
  end.
Proof.
  intros Hc. destruct (Hc key) as [Hok Hin]. unfold get_one_block.
  destruct (c !! key) as [[b|[|[k b] d]]|]; simpl in *.
  - apply Hin. by left.
  - by destruct Hok.
  - apply Hin. by left.
  - intros r Hv Hr. destruct (Hin r) as [_ Hn]. by apply (not_elem_of_nil r), Hn.
Qed.

Lemma map_insert_ok c key b hash' :
  cache_ok idf hash valid c → valid b → hash b = None →
  (∀ r, hash' r = if decide (r = b) then Some key else hash r) →
  cache_ok idf hash' valid (map_insert idf c key b).
Proof.
  intros Hc Hb Hnone Hh key'.
  assert (Hother : ∀ r, r ≠ b → hash' r = hash r) by (intros r Hr; by rewrite Hh, decide_False).
  assert (Hself : hash' b = Some key) by by rewrite Hh, decide_True.
  assert (Hnot : ∀ k, b ∉ entry_blocks (c !! k)).
  { intros k Hin. apply (Hc k) in Hin as [_ Hin]. congruence. }
  destruct (decide (key' = key)) as [->|Hne].
  - assert (∀ r, r ∈ entry_blocks (c !! key) ++ [b] ↔ valid r ∧ hash' r = Some key) as Hin.
    { intros r. rewrite elem_of_app, list_elem_of_singleton. destruct (Hc key) as [_ Hin].
      rewrite Hin. destruct (decide (r = b)) as [->|Hrb]; [naive_solver|].
      rewrite (Hother r Hrb). naive_solver. }
    destruct (Hc key) as [Hok Hin0]. specialize (Hnot key). unfold map_insert.
    assert (∀ r, r ∈ entry_blocks (c !! key) → idf r ≠ idf b) as Hids.
    { intros r Hr He. apply Hin0 in Hr as Hr'. destruct Hr' as [Hv _].
      apply idf_inj in He; [|done..]. by subst. }
    destruct (c !! key) as [[b0|d]|]; simpl in *; rewrite lookup_insert_eq; simpl.
    + rewrite (proj2 (Z.eqb_neq _ _)) by (apply Hids; by left). split; [|exact Hin].
      split_and!; [done| |].
      * constructor; [rewrite list_elem_of_singleton; apply Hids; by left|apply NoDup_singleton].
      * intros k r [[= -> ->]|[[= -> ->]|[]%not_elem_of_nil]%elem_of_cons]%elem_of_cons; done.
    + destruct Hok as (Hd & Hnd & Hks).
      assert (idf b ∉ d.*1) as Hfresh by by apply dict_keys_fresh.
      rewrite dict_set_fresh by done. rewrite !fmap_app. simpl. split; [|exact Hin].
      split_and!; [by destruct d| |].
      * apply NoDup_app. split_and!; [done| |apply NoDup_singleton].
        intros k Hk ->%list_elem_of_singleton. done.
      * intros k r [Hkr|[= -> ->]%list_elem_of_singleton]%elem_of_app; [by apply Hks|done].
    + split; [done|]. exact Hin.
  - assert (map_insert idf c key b !! key' = c !! key') as ->.
    { unfold map_insert. destruct (c !! key) as [[]|]; by rewrite lookup_insert_ne by done. }
    destruct (Hc key') as [Hok Hin]. split; [done|]. intros r. rewrite Hin.
    destruct (decide (r = b)) as [->|Hrb]; [|by rewrite Hother].
    rewrite Hself, Hnone. naive_solver.
Qed.

(** Taking [b] out of the entry of its key, whatever the entry becomes. *)
Lemma cache_ok_drop c c' key b hash' :
  cache_ok idf hash valid c → hash b = Some key →
  (∀ r, hash' r = if decide (r = b) then None else hash r) →
  (∀ k, k ≠ key → c' !! k = c !! k) → entry_ok idf (c' !! key) →
  (∀ r, r ∈ entry_blocks (c' !! key) ↔ r ∈ entry_blocks (c !! key) ∧ r ≠ b) →
  cache_ok idf hash' valid c'.
Proof.
  intros Hc Hkey Hh Hk Hok Hin key'. destruct (decide (key' = key)) as [->|Hne].
  - split; [done|]. intros r. rewrite Hin, Hh. destruct (Hc key) as [_ ->].
    case_decide; naive_solver.
  - rewrite Hk by done. destruct (Hc key') as [? Hin']. split; [done|]. intros r.
    rewrite Hin', Hh. case_decide; naive_solver.
Qed.

Lemma map_pop_ok c key b hash' :
  cache_ok idf hash valid c → valid b → hash b = Some key →
  (∀ r, hash' r = if decide (r = b) then None else hash r) →
  ∃ c', map_pop idf c key (idf b) = (Some b, c') ∧ cache_ok idf hash' valid c'.
Proof.
  intros Hc Hb Hkey Hh. destruct (Hc key) as [Hok Hin].
  assert (b ∈ entry_blocks (c !! key)) as Hbin by by apply Hin.
  unfold map_pop. destruct (c !! key) as [[b0|d]|] eqn:Ek; simpl in *.
  - apply list_elem_of_singleton in Hbin as <-. rewrite Z.eqb_refl. eexists. split; [done|].
    eapply cache_ok_drop; [done..|intros; by apply lookup_delete_ne| |];
      rewrite lookup_delete_eq; [done|].
    intros r. rewrite Ek. simpl. rewrite list_elem_of_singleton. set_solver.
  - apply list_elem_of_fmap in Hbin as [[k b'] [Hb' Hbd]]. simpl in Hb'. subst b'.
    destruct Hok as (Hd & Hnd & Hks).
    apply Hks in Hbd as Hk'. subst k. apply list_elem_of_split in Hbd as (d1 & d2 & ->).
    destruct (dict_drop_ok idf d1 b d2) as (Hb1 & Hnd' & Hks' & Hmem); [done|].
    rewrite dict_pop_here by done.
    destruct (Z.ltb_spec 0 (len (d1 ++ d2))) as [Hl|Hl]; eexists; (split; [done|]);
      eapply cache_ok_drop; try done; rewrite ?Ek.
    + intros k Hk. by rewrite lookup_insert_ne, lookup_delete_ne by done.
    + rewrite lookup_insert_eq. split_and!; [by intros Hd0; rewrite Hd0 in Hl|done..].
    + rewrite lookup_insert_eq. done.
    + intros k Hk. by apply lookup_delete_ne.
    + by rewrite lookup_delete_eq.
    + rewrite lookup_delete_eq. intros r. simpl. rewrite <- Hmem.
      destruct (d1 ++ d2); [done|]. autorewrite with len in Hl. pose proof (len_nonneg l). lia.
  - by apply not_elem_of_nil in Hbin.
Qed.
End CacheMap.

(** ** The invariant of the pool *)

Section PoolInvariant.
Implicit Types (p : BlockPool) (r : ref) (free reserved : list ref).

Definition rc p r : Z := ref_cnt (hp p !!! r).
Definition bhash p r : option bytes := _block_hash (hp p !!! r).
Definition nblocks p : nat := Z.to_nat (num_gpu_blocks p).

(** A block of the pool that can be handed out: any but the null block. *)
Definition valid p r : Prop := ∃ i, r = Blk i ∧ (0 < i < nblocks p)%nat.

(** The structure of the pool: [free] is the free queue, front first. *)
Record pool_wf p free : Prop := {
  pw_pos : 0 < num_gpu_blocks p;
  pw_blocks : blocks p = Blk <$> seq 0 (nblocks p);
  pw_null : null_block p = Blk 0;
  pw_id i : (i < nblocks p)%nat → id_of p (Blk i) = Z.of_nat i;
  pw_is_null i : (i < nblocks p)%nat → is_null (hp p !!! Blk i) = bool_decide (i = 0%nat);
  pw_queue : queue_rep (free_block_queue p) free;
  pw_free r : r ∈ free → valid p r;
  pw_nullhash : bhash p (Blk 0) = None;
  pw_cache : cache_ok (id_of p) (bhash p) (valid p) (cached_block_hash_to_block p)
}.

(** The reference counts: a block is free, or set aside for good ([reserved]), just
    when nobody refers to it.  A reserved block is never cached. *)
Record refs_ok p free reserved : Prop := {
  ro_nonneg r : valid p r → 0 ≤ rc p r;
  ro_zero r : valid p r → (rc p r = 0 ↔ r ∈ free ∨ r ∈ reserved);
  ro_disj r : r ∈ free → r ∉ reserved;
  ro_reserved r : r ∈ reserved → valid p r ∧ bhash p r = None
}.

Definition pool_inv p free reserved : Prop := pool_wf p free ∧ refs_ok p free reserved.

(** The fields no operation assigns. *)
Definition config p :=
  (num_gpu_blocks p, enable_caching p, hash_block_size p, blocks p, null_block p,
   enable_kv_cache_events p).

(** What an operation did to a block: [p'] has the free queue [free'] and the given
    reference counts and hashes. *)
Record pool_step p p' free' (rcf : ref → Z) (hashf : ref → option bytes) : Prop := {
  ps_wf : pool_wf p' free';
  ps_config : config p' = config p;
  ps_rc i : rc p' (Blk i) = rcf (Blk i);
  ps_hash i : bhash p' (Blk i) = hashf (Blk i)
}.

Lemma config_valid p p' r : config p' = config p → valid p' r ↔ valid p r.
Proof. unfold config, valid, nblocks. intros [= ->]. done. Qed.

Lemma valid_Blk p r : valid p r → ∃ i, r = Blk i.
Proof. intros (i & -> & _). by exists i. Qed.

Lemma valid_ne_null p r : valid p r → r ≠ Blk 0.
Proof. intros (i & -> & ?) [=]. lia. Qed.

Lemma valid_id_inj p free r r' :
  pool_wf p free → valid p r → valid p r' → id_of p r = id_of p r' → r = r'.
Proof.
  intros Hwf (i & -> & Hi) (j & -> & Hj). rewrite !(pw_id _ _ Hwf) by lia.
  intros Hij. f_equal. lia.
Qed.

Lemma valid_is_null p free r : pool_wf p free → valid p r → is_null (hp p !!! r) = false.
Proof.
  intros Hwf (i & -> & Hi). rewrite (pw_is_null _ _ Hwf) by lia. apply bool_decide_false. lia.
Qed.

Lemma null_is_null p free : pool_wf p free → is_null (hp p !!! Blk 0) = true.
Proof.
  intros Hwf. pose proof (pw_pos _ _ Hwf). rewrite (pw_is_null _ _ Hwf); [done|].
  unfold nblocks. lia.
Qed.

(** An operation keeps the structure if it keeps identities, leaves a queue, and
    keeps the map of cached blocks in step with the hashes. *)
Lemma pool_wf_step p p' free free' :
  pool_wf p free → config p' = config p →
  (∀ i, id_of p' (Blk i) = id_of p (Blk i)) →
  (∀ i, is_null (hp p' !!! Blk i) = is_null (hp p !!! Blk i)) →
  queue_rep (free_block_queue p') free' → (∀ r, r ∈ free' → valid p r) →
  bhash p' (Blk 0) = None →
  cache_ok (id_of p') (bhash p') (valid p') (cached_block_hash_to_block p') →
  pool_wf p' free'.
Proof.
  intros Hwf Hcfg Hid Hnull Hq Hfree Hnh Hc. pose proof Hcfg as Hcfg0.
  unfold config in Hcfg. injection Hcfg as Hn He Hh Hb Hnb Hev.
  assert (nblocks p' = nblocks p) as Hnn by (unfold nblocks; by rewrite Hn).
  split; [..|done|done].
  - rewrite Hn. by eapply pw_pos.
  - rewrite Hb, Hnn. by eapply pw_blocks.
  - rewrite Hnb. by eapply pw_null.
  - intros i. rewrite Hnn, Hid. by eapply pw_id.
  - intros i. rewrite Hnn, Hnull. by eapply pw_is_null.
  - done.
  - intros r Hr. rewrite config_valid by done. by apply Hfree.
Qed.

(** The map of cached blocks depends on the identities and hashes of the pool's
    blocks only. *)
Lemma cache_ok_ext idf idf' hash hash' vld vld' c :
  (∀ r, vld r → idf' r = idf r ∧ hash' r = hash r) → (∀ r, vld' r ↔ vld r) →
  cache_ok idf hash vld c → cache_ok idf' hash' vld' c.
Proof.
  intros Hext Hv Hc key. destruct (Hc key) as [Hok Hin]. split.
  - destruct (c !! key) as [[b|d]|]; simpl in *; [done| |done].
    destruct Hok as (Hd & Hnd & Hk). split_and!; [done..|]. intros k r Hkr.
    rewrite (Hk k r Hkr). symmetry. apply Hext, Hin, list_elem_of_fmap. by exists (k, r).
  - intros r. rewrite Hin, Hv. split; intros [Hr ?]; (split; [done|]);
      destruct (Hext r Hr) as [_ ?]; congruence.
Qed.

Lemma linked_ext h h' a l :
  (∀ r, prev h' r = prev h r) → (∀ r, next h' r = next h r) → linked h a l → linked h' a l.
Proof.
  intros Hp Hn. revert a. induction l as [|b l IH]; intros a; simpl; [done|].
  rewrite Hp, Hn. intros (? & ? & ?). auto.
Qed.

(** The queue depends on the links only. *)
Lemma queue_rep_links q q' l :
  (∀ r, prev (q_heap q') r = prev (q_heap q) r ∧ next (q_heap q') r = next (q_heap q) r) →
  num_free_blocks q' = num_free_blocks q → queue_rep q l → queue_rep q' l.
Proof.
  intros Hlk Hn [Hnd Hl Hh Ht Hout Hnum].
  split; try (destruct (Hlk FakeHead), (Hlk FakeTail); congruence).
  - eapply linked_ext; [..|done]; apply Hlk.
  - intros i Hi. destruct (Hlk (Blk i)) as [-> ->]. by apply Hout.
Qed.

Lemma queue_rep_upd q l f r :
  (∀ b, prev_free_block (f b) = prev_free_block b ∧ next_free_block (f b) = next_free_block b) →
  queue_rep q l → queue_rep (set_q_heap (upd f r (q_heap q)) q) l.
Proof.
  intros Hf. apply queue_rep_links; [|done]. intros r'. unfold prev, next. simpl.
  rewrite upd_lookup. case_decide; [apply Hf|done].
Qed.
End PoolInvariant.

(** ** The steps an operation is made of *)

Section PoolSteps.
Context {E : Env}.
Implicit Types (p : BlockPool) (r : ref) (free : list ref).

Definition with_heap (h : heap) p : BlockPool :=
  set_free_block_queue (set_q_heap h (free_block_queue p)) p.

Lemma wp_load_block r Q p : Q (hp p !!! r) p → wp (load_block r) Q p.
Proof. intros HQ. destruct p. exact HQ. Qed.

Lemma wp_store_block f r Q p : Q tt (with_heap (upd f r (hp p)) p) → wp (store_block f r) Q p.
Proof. intros HQ. destruct p. exact HQ. Qed.

Lemma pool_step_refl p free : pool_wf p free → pool_step p p free (rc p) (bhash p).
Proof. by split. Qed.

Lemma pool_step_ext p p' free rcf rcf' hf hf' :
  (∀ i, rcf' (Blk i) = rcf (Blk i)) → (∀ i, hf' (Blk i) = hf (Blk i)) →
  pool_step p p' free rcf hf → pool_step p p' free rcf' hf'.
Proof.
  intros Hrc Hh [Hwf Hcfg Hr Hb].
  split; [done|done|intros i; by rewrite Hrc|intros i; by rewrite Hh].
Qed.

(** Steps compose. *)
Lemma pool_step_trans p1 p2 p3 free2 free3 rcf2 rcf3 hf2 hf3 rcf hf :
  pool_step p1 p2 free2 rcf2 hf2 → pool_step p2 p3 free3 rcf3 hf3 →
  (∀ i, rcf3 (Blk i) = rcf (Blk i)) → (∀ i, hf3 (Blk i) = hf (Blk i)) →
  pool_step p1 p3 free3 rcf hf.
Proof.
  intros [_ Hc2 _ _] [Hwf Hc3 Hr Hh] Hrc Hhash.
  split; [done|congruence|intros i; by rewrite Hr|intros i; by rewrite Hh].
Qed.

Lemma pool_step_seq p1 p2 p3 free2 free3 rcf2 rcf3 hf2 hf3 :
  pool_step p1 p2 free2 rcf2 hf2 → pool_step p2 p3 free3 rcf3 hf3 →
  pool_step p1 p3 free3 rcf3 hf3.
Proof. intros H1 H2. by eapply pool_step_trans. Qed.

(** The metrics and the event queue are no part of the invariant. *)
Lemma pool_step_metrics p free v :
  pool_wf p free → pool_step p (set_metrics_collector v p) free (rc p) (bhash p).
Proof. intros []. by split. Qed.

Lemma pool_step_then_metrics p p' free rcf hf v :
  pool_step p p' free rcf hf → pool_step p (set_metrics_collector v p') free rcf hf.
Proof. intros [[] ? ? ?]. by split. Qed.

Lemma pool_step_then_events p p' free rcf hf v :
  pool_step p p' free rcf hf → pool_step p (set_kv_event_queue v p') free rcf hf.
Proof. intros [[] ? ? ?]. by split. Qed.

(** An assignment to the reference count of a block. *)
Lemma pool_step_rc p free f r :
  pool_wf p free →
  pool_step p (with_heap (upd (λ b, set_ref_cnt (f (ref_cnt b)) b) r (hp p)) p) free
    (λ r', if decide (r' = r) then f (rc p r') else rc p r') (bhash p).
Proof.
  intros Hwf. set (p' := with_heap _ p).
  assert (Hl : ∀ r', hp p' !!! r' =
    if decide (r = r') then set_ref_cnt (f (rc p r')) (hp p !!! r') else hp p !!! r')
    by (intros r'; exact (upd_lookup _ _ _ _)).
  assert (Hid : ∀ r', id_of p' r' = id_of p r').
  { intros r'. unfold id_of. rewrite Hl. by case_decide. }
  assert (Hh : ∀ r', bhash p' r' = bhash p r').
  { intros r'. unfold bhash. rewrite Hl. by case_decide. }
  split; [|done| |by intros i].
  - eapply pool_wf_step; [exact Hwf|done|done| | |apply (pw_free _ _ Hwf)| |].
    + intros i. rewrite Hl. by case_decide.
    + apply queue_rep_upd; [done|]. by eapply pw_queue.
    + rewrite Hh. by eapply pw_nullhash.
    + eapply cache_ok_ext; [..|exact (pw_cache _ _ Hwf)]; [intros r' _; by rewrite Hid, Hh|done].
  - intros i. unfold rc at 1. rewrite Hl. repeat case_decide; by subst.
Qed.

(** A change of the free queue by one of its operations. *)
Lemma pool_step_queue p free free' q' :
  pool_wf p free → queue_rep q' free' → same_payload (hp p) (q_heap q') →
  (∀ r, r ∈ free' → valid p r) →
  pool_step p (set_free_block_queue q' p) free' (rc p) (bhash p).
Proof.
  intros Hwf Hq Hpay Hfree.
  assert (Hl : ∀ i, payload (hp (set_free_block_queue q' p) !!! Blk i) = payload (hp p !!! Blk i))
    by done.
  unfold payload in Hl. split; [|done| |].
  - eapply pool_wf_step; [exact Hwf|done| | |done|done| |].
    + intros i. specialize (Hl i). unfold id_of. congruence.
    + intros i. specialize (Hl i). congruence.
    + specialize (Hl 0%nat). rewrite <- (pw_nullhash _ _ Hwf). unfold bhash. congruence.
    + eapply cache_ok_ext; [..|exact (pw_cache _ _ Hwf)]; [|done]. intros r (i & -> & _).
      specialize (Hl i). unfold id_of, bhash. split; congruence.
  - intros i. specialize (Hl i). unfold rc. congruence.
  - intros i. specialize (Hl i). unfold bhash. congruence.
Qed.

(** An assignment to the hash of a block together with the matching change of the
    map of cached blocks. *)
Lemma pool_step_hash p free r v c' :
  pool_wf p free → valid p r →
  (∀ hash', (∀ r', hash' r' = if decide (r' = r) then v else bhash p r') →
     cache_ok (id_of p) hash' (valid p) c') →
  pool_step p (set_cached_block_hash_to_block c' (with_heap (upd (set_hash v) r (hp p)) p)) free
    (rc p) (λ r', if decide (r' = r) then v else bhash p r').
Proof.
  intros Hwf Hv Hc. set (p' := set_cached_block_hash_to_block _ _).
  assert (Hl : ∀ r', hp p' !!! r' =
    if decide (r = r') then set_hash v (hp p !!! r') else hp p !!! r')
    by (intros r'; exact (upd_lookup _ _ _ _)).
  assert (Hid : ∀ r', id_of p' r' = id_of p r').
  { intros r'. unfold id_of. rewrite Hl. by case_decide. }
  assert (Hh : ∀ r', bhash p' r' = if decide (r' = r) then v else bhash p r').
  { intros r'. unfold bhash at 1. rewrite Hl. repeat case_decide; by subst. }
  split; [|done| |by intros i].
  - eapply pool_wf_step; [exact Hwf|done|done| | |apply (pw_free _ _ Hwf)| |].
    + intros i. rewrite Hl. by case_decide.
    + apply queue_rep_upd; [done|]. by eapply pw_queue.
    + rewrite Hh, decide_False; [by eapply pw_nullhash|].
      intros <-. by apply valid_ne_null in Hv.
    + eapply cache_ok_ext; [..|exact (Hc (bhash p') Hh)]; [intros r' _; by rewrite Hid|done].
  - intros i. unfold rc at 1. rewrite Hl. by case_decide.
Qed.
End PoolSteps.

(** ** The operations of the pool *)

Ltac wp_pool :=
  repeat (wp_prim ||
    lazymatch goal with
    | |- wp (load_block _) _ _ => apply wp_load_block
    | |- wp (store_block _ _) _ _ => apply wp_store_block
    end); cbn [fst snd].

Section PoolOperations.
Context {E : Env}.
Implicit Types (p : BlockPool) (r : ref) (free reserved bs : list ref).

(** The hashes after [r] has lost its own. *)
Definition unhash (f : ref → option bytes) bs : ref → option bytes :=
  λ r, if decide (r ∈ bs) then None else f r.

Lemma wp_on_metrics f r Q p :
  (∀ v, Q tt (set_metrics_collector v p)) → wp (on_metrics f r) Q p.
Proof. intros HQ. apply wp_modify, HQ. Qed.

Lemma wp_emit_if (b : bool) e Q p :
  (∀ v, Q tt (set_kv_event_queue v p)) → Q tt p → wp (if b then emit e else mret tt) Q p.
Proof. intros HQ HQ'. destruct b; [apply wp_modify, HQ|by apply wp_ret]. Qed.

Lemma evict_cached_ok p free r key :
  pool_wf p free → valid p r → bhash p r = Some key →
  ∃ c', map_pop (id_of p) (cached_block_hash_to_block p) key (block_id (hp p !!! r)) = (Some r, c') ∧
    pool_step p (set_cached_block_hash_to_block c' (with_heap (upd (set_hash None) r (hp p)) p))
      free (rc p) (unhash (bhash p) [r]).
Proof.
  intros Hwf Hv Hk.
  assert (Hun : ∀ r', unhash (bhash p) [r] r' = if decide (r' = r) then None else bhash p r').
  { intros r'. unfold unhash. do 2 case_decide; set_solver. }
  destruct (map_pop_ok (id_of p) (bhash p) (valid p)
    (λ r r', valid_id_inj p free r r' Hwf)
    (cached_block_hash_to_block p) key r (unhash (bhash p) [r])) as (c' & Hpop & Hc');
    [by apply pw_cache with free|done..|].
  exists c'. split; [done|].
  eapply pool_step_ext; [done| |apply pool_step_hash; [done..|]].
  - intros i. apply Hun.
  - intros hash' Hh. eapply cache_ok_ext; [..|exact Hc']; [|done]. intros r' _. split; [done|].
    by rewrite Hh, Hun.
Qed.

(** Evicting a block takes its hash and its entry in the map, and nothing else. *)
Lemma maybe_evict_ok p free r :
  pool_wf p free → valid p r ∨ r = Blk 0 →
  wp (_maybe_evict_cached_block r)
    (λ b p', b = bool_decide (bhash p r ≠ None) ∧
             pool_step p p' free (rc p) (unhash (bhash p) [r])) p.
Proof.
  intros Hwf Hr. unfold _maybe_evict_cached_block. apply wp_bind, wp_on_metrics. intros v.
  set (p1 := set_metrics_collector v p).
  assert (pool_step p p1 free (rc p) (bhash p)) as Hs1 by by apply pool_step_metrics.
  pose proof (ps_wf _ _ _ _ _ Hs1) as Hwf1.
  wp_pool. change (_block_hash (hp p1 !!! r)) with (bhash p r).
  destruct (bhash p r) as [key|] eqn:Hk.
  - destruct (evict_cached_ok p1 free r key) as (c' & Hpop & Hs2); [done| |done|].
    { destruct Hr as [Hr| ->]; [done|]. by rewrite (pw_nullhash _ _ Hwf) in Hk. }
    eapply pool_step_seq in Hs2; [|exact Hs1].
    wp_pool. rewrite Hpop. cbn [fst snd]. wp_pool.
    apply wp_emit_if; [intros v'|]; wp_pool; (split; [done|]); [|exact Hs2].
    by apply pool_step_then_events.
  - wp_pool. split; [done|]. eapply pool_step_ext; [done| |exact Hs1].
    intros i. unfold unhash. case_decide as Hi; [|done].
    apply list_elem_of_singleton in Hi as <-. by symmetry.
Qed.

Lemma allocate_block_ok p free r (evict : bool) :
  pool_wf p free → valid p r → rc p r = 0 →
  wp (allocate_block evict r)
    (λ _ p', pool_step p p' free (λ r', rc p r' + occ r' [r])
               (if evict then unhash (bhash p) [r] else bhash p)) p.
Proof.
  intros Hwf Hv H0. unfold allocate_block. apply wp_bind.
  apply wp_mono with (λ _ p', pool_step p p' free (rc p)
    (if evict then unhash (bhash p) [r] else bhash p)).
  { destruct evict; [|by apply wp_ret, pool_step_refl].
    apply wp_bind. eapply wp_mono; [apply maybe_evict_ok; [done|by left]|].
    intros ? p' [_ ?]. by apply wp_ret. }
  intros _ p1 Hs1. destruct (valid_Blk _ _ Hv) as [i ->]. wp_pool.
  apply wp_assert.
  { apply Z.eqb_eq. rewrite <- H0. exact (ps_rc _ _ _ _ _ Hs1 i). }
  wp_pool. apply wp_on_metrics. intros v.
  pose proof (pool_step_rc _ _ (λ n, n + 1) (Blk i) (ps_wf _ _ _ _ _ Hs1)) as Hs2.
  eapply pool_step_seq in Hs2; [|exact Hs1].
  apply pool_step_then_metrics. eapply pool_step_ext; [..|exact Hs2]; intros j.
  - cbn beta. rewrite (ps_rc _ _ _ _ _ Hs1). autorewrite with occ.
    repeat case_decide; simplify_eq; lia.
  - by rewrite (ps_hash _ _ _ _ _ Hs1).
Qed.

Lemma unhash_snoc f bs r r' : unhash (unhash f bs) [r] r' = unhash f (bs ++ [r]) r'.
Proof.
  unfold unhash. rewrite <- (decide_ext (r' ∈ bs ∨ r' ∈ [r]) (r' ∈ bs ++ [r]))
    by (symmetry; apply elem_of_app).
  repeat case_decide; tauto.
Qed.

(** [get_new_blocks] hands out the front of the free queue, each block with one
    reference and, when caching, without its old hash. *)
Lemma get_new_blocks_ok p free reserved n :
  pool_inv p free reserved → 0 ≤ n ≤ len free →
  wp (get_new_blocks n)
    (λ bs p', bs = take (Z.to_nat n) free ∧
       pool_step p p' (drop (Z.to_nat n) free) (λ r, rc p r + occ r bs)
         (if enable_caching p then unhash (bhash p) bs else bhash p)) p.
Proof.
  intros [Hwf Href] Hn. unfold get_new_blocks, get_num_free_blocks.
  pose proof (pw_queue _ _ Hwf) as Hq.
  wp_pool. rewrite (qr_num _ _ Hq), (proj2 (Z.ltb_ge _ _)) by lia.
  apply wp_bind, wp_zoom. eapply wp_mono; [by apply popleft_n_rep|].
  intros bs q1 (-> & Hq1 & Hpay).
  assert (pool_step p (set_free_block_queue q1 p) (drop (Z.to_nat n) free) (rc p) (bhash p)) as Hs1.
  { eapply pool_step_queue; [done..|]. intros r Hr. by eapply (pw_free _ _ Hwf), elem_of_drop_in. }
  set (p1 := set_free_block_queue q1 p) in *. wp_pool.
  change (enable_caching p1) with (enable_caching p).
  set (bs := take (Z.to_nat n) free).
  assert (NoDup bs) as Hnd.
  { eapply sublist_NoDup; [exact (queue_rep_nodup _ _ Hq)|apply sublist_take]. }
  assert (Hbs : ∀ r, r ∈ bs → valid p r ∧ rc p r = 0).
  { intros r Hr. assert (r ∈ free) as Hf by by eapply elem_of_take_in.
    pose proof (pw_free _ _ Hwf _ Hf) as Hv. split; [done|].
    apply (ro_zero _ _ _ Href _ Hv). by left. }
  apply wp_for with (I := λ done p', pool_step p p' (drop (Z.to_nat n) free)
    (λ r, rc p r + occ r done) (if enable_caching p then unhash (bhash p) done else bhash p)).
  - eapply pool_step_ext; [| |exact Hs1]; intros i.
    + autorewrite with occ. lia.
    + by destruct (enable_caching p).
  - intros dn r todo p2 Hsplit Hs2. rewrite Hsplit in Hnd, Hbs.
    apply NoDup_app in Hnd as (_ & Hdj & _).
    destruct (Hbs r) as [Hv H0]; [set_solver|].
    destruct (valid_Blk _ _ Hv) as [i ->].
    eapply wp_mono; [apply allocate_block_ok|].
    + by eapply ps_wf.
    + rewrite config_valid; [done|by eapply ps_config].
    + rewrite (ps_rc _ _ _ _ _ Hs2), H0. simpl. apply occ_not_elem.
      intros Hi. apply (Hdj _ Hi). by left.
    + intros [] p3 Hs3. eapply pool_step_trans; [exact Hs2|exact Hs3|..]; intros j.
      * cbn beta. rewrite (ps_rc _ _ _ _ _ Hs2), (occ_app _ dn). lia.
      * destruct (enable_caching p); [|apply (ps_hash _ _ _ _ _ Hs2)].
        rewrite <- unhash_snoc. unfold unhash at 1 2.
        case_decide; [done|apply (ps_hash _ _ _ _ _ Hs2)].
  - intros p2 Hs2. by wp_pool.
Qed.

(** The reference counts stay in step with the free queue if each block's count and
    its place in the queue change together. *)
Lemma refs_ok_step p p' free free' reserved rcf hf :
  refs_ok p free reserved → pool_step p p' free' rcf hf →
  (∀ r, valid p r → 0 ≤ rcf r ∧ (rcf r = 0 ↔ r ∈ free' ∨ r ∈ reserved)) →
  (∀ r, r ∈ free' → r ∉ reserved) → (∀ r, r ∈ reserved → hf r = None) →
  refs_ok p' free' reserved.
Proof.
  intros Href Hs Hrc Hdj Hres. pose proof (ps_config _ _ _ _ _ Hs) as Hcfg.
  split.
  - intros r Hv. rewrite config_valid in Hv by done. destruct (valid_Blk _ _ Hv) as [i ->].
    rewrite (ps_rc _ _ _ _ _ Hs). by apply Hrc.
  - intros r Hv. rewrite config_valid in Hv by done. destruct (valid_Blk _ _ Hv) as [i ->].
    rewrite (ps_rc _ _ _ _ _ Hs). by apply Hrc.
  - done.
  - intros r Hr. destruct (ro_reserved _ _ _ Href _ Hr) as [Hv _].
    rewrite config_valid by done. split; [done|]. destruct (valid_Blk _ _ Hv) as [i ->].
    rewrite (ps_hash _ _ _ _ _ Hs). by apply Hres.
Qed.

Lemma get_new_blocks_inv p p' free reserved n hf :
  pool_inv p free reserved →
  pool_step p p' (drop n free) (λ r, rc p r + occ r (take n free)) hf →
  (∀ r, bhash p r = None → hf r = None) →
  pool_inv p' (drop n free) reserved.
Proof.
  intros [Hwf Href] Hs Hhf. split; [by eapply ps_wf|].
  assert (NoDup free) as Hnd by by eapply queue_rep_nodup, pw_queue.
  rewrite <- (take_drop n free) in Hnd. apply NoDup_app in Hnd as (_ & Hdj & _).
  eapply refs_ok_step; [done..| | |].
  - intros r Hv. pose proof (ro_nonneg _ _ _ Href _ Hv). pose proof (occ_nonneg r (take n free)).
    split; [lia|]. pose proof (ro_zero _ _ _ Href _ Hv) as Hz.
    rewrite <- (take_drop n free), elem_of_app in Hz.
    split.
    + intros Hsum. assert (r ∉ take n free) by (apply occ_not_elem; lia). assert (rc p r = 0) by lia. tauto.
    + intros [Hr|Hr].
      * assert (r ∉ take n free) as ?%occ_not_elem by (intros Ht; by apply (Hdj _ Ht)).
        assert (rc p r = 0) by tauto. lia.
      * assert (r ∉ take n free) as ?%occ_not_elem.
        { intros Ht. by apply (ro_disj _ _ _ Href r); [eapply elem_of_take_in|]. }
        assert (rc p r = 0) by tauto. lia.
  - intros r Hr. eapply (ro_disj _ _ _ Href), elem_of_drop_in, Hr.
  - intros r Hr. apply Hhf. by eapply ro_reserved.
Qed.

(** A block that is touched leaves the free queue if it is in it. *)
Lemma touch_unqueue p free reserved r :
  pool_inv p free reserved → (valid p r ∧ r ∉ reserved) ∨ r = Blk 0 →
  wp (if (ref_cnt (hp p !!! r) =? 0) && negb (is_null (hp p !!! r))
      then on_queue (remove r) else mret tt)
    (λ _ p', pool_step p p' (Spec.remove r free) (rc p) (bhash p)) p.
Proof.
  intros [Hwf Href] Hr.
  destruct ((ref_cnt (hp p !!! r) =? 0) && negb (is_null (hp p !!! r))) eqn:Hc.
  - apply andb_true_iff in Hc as [Hz%Z.eqb_eq Hn].
    destruct Hr as [[Hv Hres]| ->]; [|by rewrite (null_is_null _ _ Hwf) in Hn].
    apply (ro_zero _ _ _ Href _ Hv) in Hz as [Hf|]; [|done].
    apply list_elem_of_split in Hf as (l1 & l2 & ->). apply wp_zoom.
    assert (NoDup (l1 ++ r :: l2)) as Hnd by by eapply queue_rep_nodup, pw_queue.
    rewrite remove_middle by done.
    eapply wp_mono; [by eapply remove_rep, pw_queue|]. intros [] q' [Hq' Hpay].
    eapply pool_step_queue; [done..|]. intros r' Hr'. apply (pw_free _ _ Hwf). set_solver.
  - apply wp_ret. unfold Spec.remove. rewrite filter_ne_id; [by apply pool_step_refl|].
    intros Hf. pose proof (pw_free _ _ Hwf _ Hf) as Hv.
    rewrite (valid_is_null _ _ _ Hwf Hv), andb_true_r in Hc. apply Z.eqb_neq in Hc. apply Hc.
    apply (ro_zero _ _ _ Href _ Hv). by left.
Qed.

Lemma touch_block_ok p free reserved r :
  pool_inv p free reserved → (valid p r ∧ r ∉ reserved) ∨ r = Blk 0 →
  wp (touch_block r)
    (λ _ p', pool_inv p' (Spec.remove r free) reserved ∧
       pool_step p p' (Spec.remove r free) (λ r', rc p r' + occ r' [r]) (bhash p)) p.
Proof.
  intros Hinv Hr. unfold touch_block. wp_pool.
  eapply wp_mono; [by eapply touch_unqueue|]. destruct Hinv as [Hwf Href].
  intros [] p1 Hs1. wp_pool. apply wp_on_metrics. intros v.
  pose proof (pool_step_rc _ _ (λ n, n + 1) r (ps_wf _ _ _ _ _ Hs1)) as Hs2.
  eapply pool_step_seq in Hs2; [|exact Hs1].
  assert (pool_step p (set_metrics_collector v
    (with_heap (upd (λ b, set_ref_cnt (ref_cnt b + 1) b) r (hp p1)) p1))
    (Spec.remove r free) (λ r', rc p r' + occ r' [r]) (bhash p)) as Hs3.
  { apply pool_step_then_metrics. eapply pool_step_ext; [..|exact Hs2]; intros j.
    - cbn beta. rewrite (ps_rc _ _ _ _ _ Hs1). autorewrite with occ.
    repeat case_decide; simplify_eq; lia.
    - by rewrite (ps_hash _ _ _ _ _ Hs1). }
  split; [|exact Hs3]. split; [by eapply ps_wf|].
  eapply refs_ok_step; [done|exact Hs3|..].
  - intros r' Hv'. pose proof (ro_nonneg _ _ _ Href _ Hv'). pose proof (ro_zero _ _ _ Href _ Hv').
    unfold Spec.remove. rewrite list_elem_of_filter. autorewrite with occ. case_decide; subst.
    + split; [lia|]. split; [lia|]. intros [[]|Hres]; [done|].
      destruct Hr as [[]| ->]; [done|]. by apply valid_ne_null in Hv'.
    + rewrite Z.add_0_r. split; [done|]. tauto.
  - intros r' [_ Hr']%list_elem_of_filter. by eapply ro_disj.
  - intros r' Hr'. by eapply ro_reserved.
Qed.

(** The free queue without the blocks [bs]. *)
Definition without free bs : list ref := foldl (λ f r, Spec.remove r f) free bs.

Lemma elem_of_without free bs r : r ∈ without free bs ↔ r ∈ free ∧ r ∉ bs.
Proof.
  unfold without. revert free. induction bs as [|b bs IH]; intros free; simpl; [set_solver|].
  rewrite IH. unfold Spec.remove. rewrite list_elem_of_filter, not_elem_of_cons. tauto.
Qed.

(** [touch] takes the blocks out of the free queue and gives each of them one more
    reference per occurrence. *)
Lemma touch_ok p free reserved bs :
  pool_inv p free reserved → (∀ r, r ∈ bs → (valid p r ∧ r ∉ reserved) ∨ r = Blk 0) →
  wp (touch bs)
    (λ _ p', pool_inv p' (without free bs) reserved ∧
       pool_step p p' (without free bs) (λ r, rc p r + occ r bs) (bhash p)) p.
Proof.
  intros Hinv Hbs. unfold touch.
  apply wp_for with (I := λ dn p', pool_inv p' (without free dn) reserved ∧
       pool_step p p' (without free dn) (λ r, rc p r + occ r dn) (bhash p)).
  - split; [done|]. eapply pool_step_ext; [| |apply pool_step_refl, Hinv]; [|done].
    intros i. rewrite occ_nil. lia.
  - intros dn r todo p1 -> [Hinv1 Hs1].
    eapply wp_mono; [eapply touch_block_ok; [done|]|].
    + rewrite config_valid by by eapply ps_config. apply Hbs. set_solver.
    + intros [] p2 [Hinv2 Hs2]. unfold without. rewrite foldl_app. split; [exact Hinv2|].
      eapply pool_step_trans; [exact Hs1|exact Hs2|..]; intros i.
      * cbn beta. rewrite (ps_rc _ _ _ _ _ Hs1), (occ_app _ dn). lia.
      * apply (ps_hash _ _ _ _ _ Hs1).
  - done.
Qed.

Lemma decrement_ok p free bs :
  pool_wf p free →
  wp (for_ bs (store_block (λ b, set_ref_cnt (ref_cnt b - 1) b)))
    (λ _ p', pool_step p p' free (λ r, rc p r - occ r bs) (bhash p)) p.
Proof.
  intros Hwf.
  apply wp_for with (I := λ dn p', pool_step p p' free (λ r, rc p r - occ r dn) (bhash p)).
  - eapply pool_step_ext; [| |by apply pool_step_refl]; [|done]. intros i. rewrite occ_nil. lia.
  - intros dn r todo p1 -> Hs1. wp_pool.
    pose proof (pool_step_rc _ _ (λ n, n - 1) r (ps_wf _ _ _ _ _ Hs1)) as Hs2.
    eapply pool_step_trans; [exact Hs1|exact Hs2|..]; intros i.
    + cbn beta. rewrite (ps_rc _ _ _ _ _ Hs1). autorewrite with occ.
      repeat case_decide; simplify_eq; lia.
    + apply (ps_hash _ _ _ _ _ Hs1).
  - done.
Qed.

(** The blocks that [free_blocks bs] puts back: those whose last reference it was. *)
Definition last_refs p bs : list ref := filter (λ r, rc p r = 1 ∧ r ≠ Blk 0) bs.

Lemma free_refs_ok p p' free reserved bs :
  refs_ok p free reserved →
  (∀ r, r ∈ bs → (valid p r ∧ 0 < rc p r ∧ occ r bs = 1) ∨ r = Blk 0) →
  pool_step p p' (free ++ last_refs p bs) (λ r, rc p r - occ r bs) (bhash p) →
  refs_ok p' (free ++ last_refs p bs) reserved.
Proof.
  intros Href Hbs Hs. eapply refs_ok_step; [done|exact Hs|..].
  - intros r Hv. pose proof (ro_nonneg _ _ _ Href _ Hv). pose proof (ro_zero _ _ _ Href _ Hv) as Hz.
    pose proof (valid_ne_null _ _ Hv). rewrite elem_of_app. unfold last_refs.
    rewrite list_elem_of_filter. destruct (decide (r ∈ bs)) as [Hr|Hr].
    + destruct (Hbs r Hr) as [(_ & Hpos & ->)|]; [|done].
      assert (r ∉ free ∧ r ∉ reserved) as [? ?] by (split; intros ?; assert (rc p r = 0) by tauto; lia).
      split; [lia|]. split; [intros; left; right; split_and!; [lia|done..]|].
      intros [[?|[[? _] _]]|?]; [done|lia|done].
    + rewrite (proj1 (occ_not_elem r bs) Hr), Z.sub_0_r. tauto.
  - intros r [Hr|Hr]%elem_of_app; [by eapply ro_disj|].
    apply list_elem_of_filter in Hr as [[Hrc ?] Hr]. destruct (Hbs r Hr) as [(Hv & _)|]; [|done].
    intros Hres. pose proof (ro_zero _ _ _ Href _ Hv). assert (rc p r = 0) by tauto. lia.
  - intros r Hr. by eapply ro_reserved.
Qed.

(** [free_blocks] takes one reference of each block and appends those nobody refers
    to any more to the free queue, in the given order. *)
Lemma free_blocks_ok p free reserved bs :
  pool_inv p free reserved →
  (∀ r, r ∈ bs → (valid p r ∧ 0 < rc p r ∧ occ r bs = 1) ∨ r = Blk 0) →
  wp (free_blocks bs)
    (λ _ p', pool_inv p' (free ++ last_refs p bs) reserved ∧
       pool_step p p' (free ++ last_refs p bs) (λ r, rc p r - occ r bs) (bhash p)) p.
Proof.
  intros [Hwf Href] Hbs. unfold free_blocks. apply wp_bind.
  eapply wp_mono; [by apply decrement_ok|]. intros [] p1 Hs1. wp_pool.
  pose proof (ps_wf _ _ _ _ _ Hs1) as Hwf1. pose proof (ps_config _ _ _ _ _ Hs1) as Hcfg.
  assert (filter (λ r, ref_cnt (hp p1 !!! r) = 0 ∧ is_null (hp p1 !!! r) = false) bs =
    last_refs p bs) as ->.
  { apply filter_ext_in. intros r Hr. fold (rc p1 r).
    destruct (Hbs r Hr) as [(Hv & Hpos & Hocc)| ->].
    - rewrite (valid_is_null p1 free) by (done || by rewrite config_valid).
      destruct (valid_Blk _ _ Hv) as [i ->]. rewrite (ps_rc _ _ _ _ _ Hs1), Hocc.
      apply valid_ne_null in Hv. split; intros [? _]; (split; [lia|done]).
    - rewrite (null_is_null _ _ Hwf1). naive_solver. }
  assert (Hlast : ∀ r, r ∈ last_refs p bs → valid p r ∧ rc p r = 1 ∧ occ r bs = 1).
  { intros r [[? ?] Hr]%list_elem_of_filter. destruct (Hbs r Hr) as [(? & _ & ?)|]; done. }
  assert (Hfresh : ∀ r, r ∈ last_refs p bs → r ∉ free ∧ r ∉ reserved).
  { intros r (Hv & Hr & _)%Hlast. pose proof (ro_zero _ _ _ Href _ Hv) as Hz.
    split; intros ?; assert (rc p r = 0) by tauto; lia. }
  apply wp_zoom. eapply wp_mono; [apply append_n_rep|].
  - by apply pw_queue.
  - apply NoDup_occ. intros r Hr. unfold last_refs. rewrite occ_filter.
    rewrite decide_True by (by apply list_elem_of_filter in Hr as [? _]). by apply Hlast.
  - intros r Hr. split; [by apply Hfresh|]. eapply valid_Blk. by apply Hlast.
  - intros [] q' [Hq' Hpay].
    assert (pool_step p (set_free_block_queue q' p1) (free ++ last_refs p bs)
      (λ r, rc p r - occ r bs) (bhash p)) as Hs2.
    { eapply pool_step_trans; [exact Hs1|eapply pool_step_queue; [exact Hwf1|done..|]|..].
      - intros r [Hr|Hr]%elem_of_app; [by apply (pw_free _ _ Hwf1)|].
        rewrite config_valid by done. by apply Hlast.
      - apply (ps_rc _ _ _ _ _ Hs1).
      - apply (ps_hash _ _ _ _ _ Hs1). }
    split; [|exact Hs2]. split; [by eapply ps_wf|].
    by eapply free_refs_ok.
Qed.

(** The hashes after the blocks [bs] have been cached under [hs] for group [g]; a
    null block is skipped together with its hash. *)
Fixpoint assign (g : Z) bs (hs : list bytes) (f : ref → option bytes) : ref → option bytes :=
  match bs, hs with
  | b :: bs, h :: hs =>
      assign g bs hs (if decide (b = Blk 0) then f
                      else λ r, if decide (r = b) then Some (group_key h g) else f r)
  | _, _ => f
  end.

Lemma assign_ext g bs : ∀ hs f f' i,
  (∀ i, f (Blk i) = f' (Blk i)) → assign g bs hs f (Blk i) = assign g bs hs f' (Blk i).
Proof.
  induction bs as [|b bs IH]; intros [|h hs] f f' i Hf; simpl; try done.
  apply IH. intros i'. case_decide; [done|]. case_decide; done.
Qed.

Lemma assign_out g bs : ∀ hs f r, r ∉ bs → assign g bs hs f r = f r.
Proof.
  induction bs as [|b bs IH]; intros [|h hs] f r Hr; simpl; try done.
  apply not_elem_of_cons in Hr as [? ?]. rewrite IH by done.
  case_decide; [done|]. by rewrite decide_False.
Qed.

Lemma assign_in g bs : ∀ hs f i r h,
  bs !! i = Some r → r ≠ Blk 0 → occ r bs = 1 → hs !! i = Some h →
  assign g bs hs f r = Some (group_key h g).
Proof.
  induction bs as [|b bs IH]; intros [|h0 hs] f [|i] r h Hr Hn Ho Hh; simplify_eq/=.
  - rewrite occ_cons, decide_True in Ho by done. rewrite assign_out by (apply occ_not_elem; lia).
    rewrite decide_False by done. by rewrite decide_True.
  - pose proof (list_elem_of_lookup_2 _ _ _ Hr) as Hin%occ_elem. rewrite occ_cons in Ho.
    eapply IH; [done..| |done]. case_decide; lia.
Qed.

(** A block that may be cached: a block of the pool that has no hash yet and occurs
    once, or the null block. *)
Definition cachable p bs r : Prop := (valid p r ∧ bhash p r = None ∧ occ r bs = 1) ∨ r = Blk 0.

Lemma cache_one_ok p free r key :
  pool_wf p free → valid p r → bhash p r = None →
  wp (set_block_hash r key)
    (λ _ p', pool_step p
       (set_cached_block_hash_to_block (map_insert (id_of p') (cached_block_hash_to_block p') key r) p')
       free (rc p) (λ r', if decide (r' = r) then Some key else bhash p r')) p.
Proof.
  intros Hwf Hv Hn. unfold set_block_hash. wp_pool.
  apply wp_assert; [by apply bool_decide_true|]. wp_pool.
  set (p1 := with_heap _ p).
  apply (pool_step_hash p free r (Some key) (map_insert (id_of p1) (cached_block_hash_to_block p) key r));
    [done..|].
  intros hash' Hh.
  assert (Hid : ∀ r', id_of p1 r' = id_of p r').
  { intros r'. unfold id_of, p1, with_heap, hp. simpl. rewrite upd_lookup. by case_decide. }
  eapply (cache_ok_ext (id_of p1)); [intros r' _; by split|done|].
  eapply map_insert_ok; [|eapply cache_ok_ext; [..|exact (pw_cache _ _ Hwf)]|done..].
  - intros r1 r2. rewrite !Hid. by eapply valid_id_inj.
  - intros r' _. by rewrite Hid.
  - done.
Qed.

Lemma cache_loop_ok free bs : ∀ p hs g,
  pool_wf p free → (∀ r, r ∈ bs → cachable p bs r) → (length bs ≤ length hs)%nat →
  wp (cache_loop bs hs g) (λ _ p', pool_step p p' free (rc p) (assign g bs hs (bhash p))) p.
Proof.
  induction bs as [|b bs IH]; intros p [|h hs] g Hwf Hbs Hlen; simpl in *; try lia.
  - by apply wp_ret, pool_step_refl.
  - by apply wp_ret, pool_step_refl.
  - wp_pool. destruct (Hbs b) as [(Hv & Hn & Ho)| ->]; [by left|..].
    + rewrite (valid_is_null _ _ _ Hwf Hv). pose proof (valid_ne_null _ _ Hv).
      rewrite occ_cons, decide_True in Ho by done. assert (b ∉ bs) by (apply occ_not_elem; lia).
      wp_pool. apply wp_assert; [by apply bool_decide_true|]. wp_pool.
      eapply wp_mono; [by apply cache_one_ok|]. intros [] p1 Hs1. wp_pool.
      eapply wp_mono; [apply IH; [by eapply ps_wf| |lia]|].
      * intros r Hr. assert (r ≠ b) by (by intros ->).
        destruct (Hbs r) as [(Hvr & Hnr & Hor)|]; [by right|left|by right].
        rewrite occ_cons, decide_False in Hor by done.
        rewrite config_valid by by eapply ps_config.
        destruct (valid_Blk _ _ Hvr) as [i ->]. rewrite (ps_hash _ _ _ _ _ Hs1).
        by rewrite decide_False.
      * intros ks p2 Hs2. wp_pool. rewrite (decide_False (P := b = Blk 0)) by done.
        eapply pool_step_trans; [exact Hs1|exact Hs2|apply (ps_rc _ _ _ _ _ Hs1)|].
        intros i. apply assign_ext, (ps_hash _ _ _ _ _ Hs1).
    + rewrite (null_is_null _ _ Hwf), decide_True by done. apply IH; [done| |lia].
      intros r Hr. destruct (Hbs r) as [(? & ? & Ho)|]; [by right| |by right].
      left. rewrite occ_cons, decide_False in Ho by (by apply valid_ne_null in Hr || eapply valid_ne_null).
      done.
Qed.

(** From a cursor that counts from the front, the extra keys are always computed. *)
Lemma mm_keys_loop_nonneg fs : ∀ s e idx acc, 0 ≤ idx → 0 ≤ (mm_keys_loop fs s e idx acc).2.
Proof.
  induction fs as [|f fs IH]; intros s e idx acc Hi; simpl; [done|].
  repeat case_match; simpl; try done; apply IH; lia.
Qed.

Lemma generate_keys_total (r : Request) s e idx :
  0 ≤ idx → wp (generate_block_hash_extra_keys sha256 s e idx) (λ ki _, 0 ≤ ki.2) r.
Proof.
  intros Hi. unfold generate_block_hash_extra_keys. wp_prim. wp_prim.
  assert (∃ ks idx', _gen_mm_extra_hash_keys (id r) s e idx = Ok (ks, idx') ∧ 0 ≤ idx')
    as (ks & idx' & -> & Hi').
  { unfold _gen_mm_extra_hash_keys. destruct (List.rev _); [by eauto|].
    case_match; [by eauto|]. rewrite (proj2 (Z.ltb_ge idx 0)) by done. simpl.
    pose proof (mm_keys_loop_nonneg (py_slice_from (mm_features r) idx) s e idx [] Hi).
    destruct (mm_keys_loop _ _ _ _ _). by eauto. }
  wp_prim. unfold _gen_prompt_embeds_extra_hash_keys. wp_prim. wp_prim.
  destruct (prompt_embeds r); repeat (wp_prim || case_match || done).
Qed.

Lemma event_keys_ok blks bsz : ∀ idxs req idx p,
  Forall (λ i, 0 ≤ i < len blks) idxs → 0 ≤ idx →
  wp (event_keys_loop req idxs blks bsz idx) (λ _ p', p' = p) p.
Proof.
  induction idxs as [|i idxs IH]; intros req idx p Hf Hidx; simpl; [by apply wp_ret|].
  apply Forall_cons in Hf as [Hi Hf]. unfold len in Hi.
  destruct (lookup_lt_is_Some_2 blks (Z.to_nat i)) as [b Hb]; [lia|].
  wp_prim. eapply wp_or_raise; [by rewrite py_get_nonneg by lia|].
  wp_pool. case_match; [by apply IH|].
  pose proof (generate_keys_total req (i * bsz) (i * bsz + bsz) idx Hidx) as Hg.
  apply wp_run in Hg as ([ks idx'] & req' & -> & Hidx').
  wp_prim. eapply wp_mono; [by apply IH|]. intros ks' p' ->. by apply wp_ret.
Qed.

(** The hashes of a request at the granularity of a group. *)
Definition hash_view (hash_block_size block_size : Z) (hs : list bytes) : list bytes :=
  if block_size =? hash_block_size then hs
  else scaled_iter (mkScaled hs (block_size / hash_block_size)).

(** [cache_full_blocks] gives the new full blocks their hashes, enters them into the
    map, and changes nothing else but the event queue. *)
Lemma cache_full_blocks_ok p free req blks nc nf bsz g :
  pool_wf p free → 0 ≤ nc → nf ≤ len blks → bsz mod hash_block_size p = 0 →
  nf ≤ len (block_hashes req) → nf ≤ len (hash_view (hash_block_size p) bsz (block_hashes req)) →
  (∀ r, r ∈ py_slice blks nc nf → cachable p (py_slice blks nc nf) r) →
  wp (cache_full_blocks req blks nc nf bsz g)
    (λ _ p', pool_step p p' free (rc p)
      (if nf <=? nc then bhash p
       else assign g (py_slice blks nc nf)
              (drop (Z.to_nat nc) (hash_view (hash_block_size p) bsz (block_hashes req))) (bhash p))) p.
Proof.
  intros Hwf Hnc Hnf Hmod Hlen Hview Hbs. unfold cache_full_blocks.
  destruct (Z.leb_spec nf nc) as [|Hlt]; [by apply wp_ret, pool_step_refl|].
  wp_prim. apply wp_assert; [by apply Z.leb_le|]. wp_prim. wp_prim. wp_prim.
  set (hv := hash_view _ _ _) in *.
  apply wp_mono with (λ l p', p' = p ∧ bhl_iter l = hv ∧ is_Some (bhl_get l (nc - 1)) ∨
                              p' = p ∧ bhl_iter l = hv ∧ nc = 0).
  { unfold hv, hash_view in *. unfold len in Hlen, Hview.
    destruct (Z.eqb_spec bsz (hash_block_size p)).
    - apply wp_ret. destruct (decide (nc = 0)); [by right|left]. split_and!; [done..|].
      simpl. rewrite py_get_nonneg by lia. apply lookup_lt_is_Some_2. lia.
    - wp_prim. apply wp_assert; [by apply Z.eqb_eq|]. unfold scaled_init.
      rewrite (proj2 (Z.eqb_eq _ _) Hmod). apply wp_ret.
      destruct (decide (nc = 0)); [by right|left]. split_and!; [done..|]. by eexists. }
  intros l p0 Hl. assert (p0 = p ∧ bhl_iter l = hv) as [-> Hit] by tauto.
  wp_prim. unfold bhl_slice_from. rewrite Hit, py_slice_from_nonneg by done.
  eapply wp_mono; [apply cache_loop_ok; [done..|]|].
  { rewrite py_slice_nonneg, length_take, !length_drop by lia. unfold len in *. lia. }
  intros hs p1 Hs1. wp_prim. wp_prim. destruct (enable_kv_cache_events p1); [|by apply wp_ret].
  wp_prim. apply wp_mono with (λ _ p', p' = p1).
  { destruct (Z.eqb_spec nc 0); [by apply wp_ret|]. wp_prim.
    destruct Hl as [(_ & _ & h & Hh)|]; [|tauto].
    eapply wp_or_raise; [exact Hh|]. by apply wp_ret. }
  intros parent p2 ->. wp_prim. eapply wp_mono; [apply event_keys_ok; [|done]|].
  { unfold py_range. apply Forall_forall. intros i Hi%elem_of_seqZ. lia. }
  intros keys p2 ->. apply wp_modify.
  by apply pool_step_then_events.
Qed.

Lemma py_get_blocks p free i :
  pool_wf p free → 0 ≤ i < num_gpu_blocks p → py_get (blocks p) i = Some (Blk (Z.to_nat i)).
Proof.
  intros Hwf Hi. rewrite (pw_blocks _ _ Hwf), py_get_nonneg by lia.
  rewrite list_lookup_fmap, (lookup_seq_lt 0) by (unfold nblocks; lia). done.
Qed.

Lemma Blk_valid_or_null p i : (i < nblocks p)%nat → valid p (Blk i) ∨ Blk i = Blk 0.
Proof. destruct i as [|i]; [by right|]. left. eexists. split; [done|lia]. Qed.

(** [evict_blocks] takes the hashes of the given blocks, free or in use. *)
Lemma evict_blocks_ok p free ids :
  pool_wf p free → Forall (λ i, 0 ≤ i < num_gpu_blocks p) ids →
  wp (evict_blocks ids)
    (λ _ p', pool_step p p' free (rc p) (unhash (bhash p) ((λ i, Blk (Z.to_nat i)) <$> ids))) p.
Proof.
  intros Hwf Hids. unfold evict_blocks.
  apply wp_for with (I := λ dn p', pool_step p p' free (rc p)
    (unhash (bhash p) ((λ i, Blk (Z.to_nat i)) <$> dn))).
  - eapply pool_step_ext; [| |by apply pool_step_refl]; [done|]. intros i. unfold unhash.
    by rewrite decide_False by set_solver.
  - intros dn i todo p1 -> Hs1. apply Forall_app in Hids as [_ [Hi _]%Forall_cons].
    pose proof (ps_config _ _ _ _ _ Hs1) as Hcfg. pose proof (ps_wf _ _ _ _ _ Hs1) as Hwf1.
    assert (num_gpu_blocks p1 = num_gpu_blocks p) as Hn by (unfold config in Hcfg; congruence).
    wp_pool. apply wp_assert.
    { rewrite (pw_blocks _ _ Hwf1). unfold len, nblocks. rewrite length_fmap, length_seq.
      apply Z.ltb_lt. lia. }
    wp_pool. eapply wp_or_raise; [apply (py_get_blocks _ free); [done|lia]|].
    wp_pool. eapply wp_mono; [apply maybe_evict_ok; [done|]|].
    { apply Blk_valid_or_null. unfold nblocks. lia. }
    intros b p2 [_ Hs2]. wp_pool.
    eapply pool_step_trans; [exact Hs1|exact Hs2|apply (ps_rc _ _ _ _ _ Hs1)|].
    intros k. rewrite fmap_app. simpl. rewrite <- unhash_snoc. unfold unhash at 1 2.
    case_decide; [done|apply (ps_hash _ _ _ _ _ Hs1)].
  - done.
Qed.

Lemma clear_hashes_ok p bs :
  wp (for_ bs (store_block (set_hash None)))
    (λ _ p', ∃ h, p' = with_heap h p ∧ (∀ r, prev h r = prev (hp p) r ∧ next h r = next (hp p) r) ∧
       ∀ r, let b := hp p !!! r in
         payload (h !!! r) = (block_id b, ref_cnt b, unhash (bhash p) bs r, is_null b)) p.
Proof.
  apply wp_for with (I := λ dn p', ∃ h, p' = with_heap h p ∧
    (∀ r, prev h r = prev (hp p) r ∧ next h r = next (hp p) r) ∧
    ∀ r, let b := hp p !!! r in
      payload (h !!! r) = (block_id b, ref_cnt b, unhash (bhash p) dn r, is_null b)).
  - exists (hp p). split_and!; [by destruct p as [???? []]|done|]. intros r.
    unfold payload, unhash, bhash. by rewrite decide_False by set_solver.
  - intros dn r todo p1 -> (h & -> & Hlk & Hp). wp_pool.
    exists (upd (set_hash None) r h). split_and!; [done| |].
    + intros r'. destruct (Hlk r') as [H1 H2]. unfold prev, next in *. rewrite upd_lookup.
      by case_decide.
    + intros r'. specialize (Hp r'). simpl in *. rewrite <- unhash_snoc, upd_lookup.
      unfold unhash at 1. unfold payload in *.
      repeat case_decide; simplify_eq; simpl; congruence || set_solver.
  - done.
Qed.

Lemma pool_step_reset p free h v :
  pool_wf p free →
  (∀ r, prev h r = prev (hp p) r ∧ next h r = next (hp p) r) →
  (∀ r, let b := hp p !!! r in
     payload (h !!! r) = (block_id b, ref_cnt b, unhash (bhash p) (blocks p) r, is_null b)) →
  pool_step p (set_metrics_collector v (with_heap h (set_cached_block_hash_to_block ∅ p))) free
    (rc p) (unhash (bhash p) (blocks p)).
Proof.
  intros Hwf Hlk Hp. set (p1 := set_metrics_collector _ _).
  assert (Hh : ∀ r, bhash p1 r = unhash (bhash p) (blocks p) r).
  { intros r. specialize (Hp r). unfold payload in Hp. simpl in Hp. by injection Hp. }
  assert (Hnone : ∀ i, (i < nblocks p)%nat → unhash (bhash p) (blocks p) (Blk i) = None).
  { intros i Hi. unfold unhash. rewrite decide_True; [done|]. rewrite (pw_blocks _ _ Hwf).
    apply list_elem_of_fmap. exists i. split; [done|]. apply elem_of_seq. lia. }
  split; [|done|intros i..].
  - eapply pool_wf_step; [exact Hwf|done|intros i..| |apply (pw_free _ _ Hwf)| |].
    + specialize (Hp (Blk i)). unfold payload in Hp. simpl in Hp. by injection Hp.
    + specialize (Hp (Blk i)). unfold payload in Hp. simpl in Hp. by injection Hp.
    + by eapply queue_rep_links; [..|apply (pw_queue _ _ Hwf)].
    + rewrite Hh. apply Hnone. pose proof (pw_pos _ _ Hwf). unfold nblocks. lia.
    + intros key. simpl. rewrite lookup_empty. split; [done|]. intros r. simpl.
      split; [by intros ?%not_elem_of_nil|]. intros [(i & -> & Hi) Hk].
      rewrite Hh, Hnone in Hk; [done|]. change (nblocks p1) with (nblocks p) in Hi. lia.
  - specialize (Hp (Blk i)). unfold payload in Hp. simpl in Hp. by injection Hp.
  - apply Hh.
Qed.

(** [reset_prefix_cache] succeeds exactly when no block is in use; it then forgets
    every hash.  Otherwise it changes nothing. *)
Lemma reset_prefix_cache_ok p free reserved :
  pool_inv p free reserved →
  wp reset_prefix_cache
    (λ b p', if decide (len free = num_gpu_blocks p - 1)
             then b = true ∧ pool_step p p' free (rc p) (unhash (bhash p) (blocks p))
             else b = false ∧ p' = p) p.
Proof.
  intros [Hwf Href]. unfold reset_prefix_cache, get_num_free_blocks. wp_prim. wp_prim.
  rewrite (qr_num _ _ (pw_queue _ _ Hwf)). case_decide as Hfree.
  2: { rewrite (proj2 (Z.eqb_neq _ _)) by lia. by apply wp_ret. }
  rewrite (proj2 (Z.eqb_eq _ _)) by lia. simpl. wp_pool.
  eapply wp_mono; [apply clear_hashes_ok|]. intros [] p1 (h & -> & Hlk & Hp). wp_pool.
  apply wp_emit_if; [intros v|]; wp_pool; (split; [done|]);
    [apply pool_step_then_events|]; by apply pool_step_reset.
Qed.

Definition fresh_heap (n : nat) : heap :=
  list_to_map ((λ i, (Blk i, new_block (Z.of_nat i))) <$> seq 0 n).

Lemma fresh_heap_lookup n i :
  fresh_heap n !!! Blk i = if decide (i < n)%nat then new_block (Z.of_nat i) else new_block (-1).
Proof.
  unfold fresh_heap. rewrite lookup_total_alt. case_decide as Hi.
  - erewrite elem_of_list_to_map_1; [done| |].
    + rewrite <- list_fmap_compose. apply NoDup_fmap; [by intros ?? [=]|apply NoDup_seq].
    + apply list_elem_of_fmap. exists i. split; [done|]. apply elem_of_seq. lia.
  - rewrite not_elem_of_list_to_map_1; [done|].
    intros [[r b] [Hr Hin]]%list_elem_of_fmap. simpl in Hr. subst r.
    apply list_elem_of_fmap in Hin as (k & [= -> _] & ?%elem_of_seq). lia.
Qed.

Lemma init_queue_ok m :
  (0 < m)%nat →
  ∃ q, (_ ← queue_init (Blk <$> seq 0 m); popleft) (mkQueue (fresh_heap m) 0) = (Ok (Blk 0), q) ∧
    queue_rep q (Blk <$> seq 1 (m - 1)) ∧ same_payload (fresh_heap m) (q_heap q).
Proof.
  intros Hm. assert (Blk <$> seq 0 m = Blk 0 :: (Blk <$> seq 1 (m - 1))) as Hseq.
  { replace m with (S (m - 1)) at 1 by lia. done. }
  assert (wp (_ ← queue_init (Blk <$> seq 0 m); popleft)
    (λ r q, r = Blk 0 ∧ queue_rep q (Blk <$> seq 1 (m - 1)) ∧
            same_payload (fresh_heap m) (q_heap q)) (mkQueue (fresh_heap m) 0))
    as (r & q & Hrun & -> & Hq & Hpay)%wp_run; [|by exists q].
  wp_prim. eapply wp_mono; [apply queue_init_rep|].
  - apply NoDup_fmap; [by intros ?? [=]|apply NoDup_seq].
  - apply Forall_forall. intros r (i & -> & _)%list_elem_of_fmap. by exists i.
  - intros i. simpl. unfold prev, next. rewrite fresh_heap_lookup. by case_decide.
  - intros [] q1 [Hq1 Hp1]. rewrite Hseq in Hq1.
    eapply wp_mono; [by apply popleft_rep|]. intros r q2 (-> & Hq2 & Hp2).
    split_and!; [done..|by etrans].
Qed.

(** The constructor: block 0 is the null block, all the others are free. *)
Lemma pool_init_ok n caching hbs events metrics :
  0 < n →
  ∃ p, pool_init n caching hbs events metrics = Ok p ∧
    pool_inv p (Blk <$> seq 1 (Z.to_nat n - 1)) [] ∧
    config p = (n, caching, hbs, Blk <$> seq 0 (Z.to_nat n), Blk 0, events) ∧
    (∀ i, bhash p (Blk i) = None) ∧ kv_event_queue p = [] ∧ metrics_collector p = metrics.
Proof.
  intros Hn. unfold pool_init. rewrite (proj2 (Z.ltb_lt 0 n)) by done. simpl.
  set (m := Z.to_nat n). fold (fresh_heap m).
  destruct (init_queue_ok m) as (q & -> & Hq & Hpay); [lia|].
  eexists. split; [done|]. set (p := mkBlockPool _ _ _ _ _ _ _ _ _ _).
  assert (Hl : ∀ i, payload (hp p !!! Blk i) =
    (block_id (fresh_heap m !!! Blk i), 0, None, bool_decide (i = 0%nat))).
  { intros i. specialize (Hpay i). unfold payload in *. unfold hp, p. simpl. rewrite upd_lookup.
    rewrite fresh_heap_lookup in Hpay |- *. repeat case_decide; simplify_eq/=;
      rewrite ?bool_decide_false by naive_solver; congruence. }
  assert (Hhash : ∀ i, bhash p (Blk i) = None).
  { intros i. specialize (Hl i). unfold payload in Hl. by injection Hl. }
  assert (Hvalid : ∀ r, r ∈ Blk <$> seq 1 (m - 1) ↔ valid p r).
  { intros r. rewrite list_elem_of_fmap. unfold valid, nblocks. simpl.
    setoid_rewrite elem_of_seq. split; intros (i & -> & ?); exists i; (split; [done|lia]). }
  split_and!; [split; split|done|done|done|done].
  - done.
  - done.
  - done.
  - intros i Hi. specialize (Hl i). unfold payload in Hl. rewrite fresh_heap_lookup in Hl.
    unfold nblocks in Hi. simpl in Hi. rewrite decide_True in Hl by done. by injection Hl.
  - intros i Hi. specialize (Hl i). unfold payload in Hl. by injection Hl.
  - by apply queue_rep_upd.
  - intros r. apply Hvalid.
  - apply Hhash.
  - intros key. simpl. rewrite lookup_empty. split; [done|]. intros r. simpl.
    split; [by intros ?%not_elem_of_nil|]. intros [(i & -> & _) Hk]. by rewrite Hhash in Hk.
  - intros r (i & -> & _). specialize (Hl i). unfold payload in Hl. injection Hl as _ Hrc _ _.
    unfold rc. lia.
  - intros r Hv. split; [by left; apply Hvalid|]. intros _. destruct Hv as (i & -> & _).
    specialize (Hl i). unfold payload in Hl. by injection Hl.
  - intros r _. apply not_elem_of_nil.
  - by intros r ?%not_elem_of_nil.
Qed.
End PoolOperations.

(** ** Sequences of calls *)

#[global] Instance valid_dec p r : Decision (valid p r).
Proof.
  destruct r as [| |i]; [right; by intros (? & ? & _)..|].
  destruct (decide (0 < i < nblocks p)%nat); [left; by exists i|right].
  intros (? & [= <-] & ?). done.
Defined.

Section PoolCalls.
Context {E : Env}.
Implicit Types (p : BlockPool) (r : ref) (free reserved bs : list ref).

Inductive pool_call :=
  | GetNewBlocks (n : Z)
  | Touch bs
  | FreeBlocks bs
  | CacheFullBlocks (request : Request) (blks : list ref) (nc nf bsz g : Z)
  | EvictBlocks (ids : list Z)
  | ResetPrefixCache
  | TakeEvents.

Definition run_call (c : pool_call) : M BlockPool (list ref) :=
  match c with
  | GetNewBlocks n => get_new_blocks n
  | Touch bs => _ ← touch bs; mret []
  | FreeBlocks bs => _ ← free_blocks bs; mret []
  | CacheFullBlocks req blks nc nf bsz g => _ ← cache_full_blocks req blks nc nf bsz g; mret []
  | EvictBlocks ids => _ ← evict_blocks ids; mret []
  | ResetPrefixCache => _ ← reset_prefix_cache; mret []
  | TakeEvents => _ ← take_events; mret []
  end.

(** What a caller owes the pool. *)
Definition legal p (c : pool_call) : Prop :=
  match c with
  | GetNewBlocks n => 0 ≤ n ≤ get_num_free_blocks p
  | Touch bs => Forall (λ r, valid p r ∨ r = Blk 0) bs
  | FreeBlocks bs => Forall (λ r, (valid p r ∧ 0 < rc p r ∧ occ r bs = 1) ∨ r = Blk 0) bs
  | CacheFullBlocks req blks nc nf bsz g =>
      0 ≤ nc ∧ nf ≤ len blks ∧ bsz mod hash_block_size p = 0 ∧ nf ≤ len (block_hashes req) ∧
      nf ≤ len (hash_view (hash_block_size p) bsz (block_hashes req)) ∧
      Forall (cachable p (py_slice blks nc nf)) (py_slice blks nc nf)
  | EvictBlocks ids => Forall (λ i, 0 ≤ i < num_gpu_blocks p) ids
  | ResetPrefixCache | TakeEvents => True
  end.

#[global] Instance legal_dec p c : Decision (legal p c).
Proof. destruct c; unfold legal, cachable; apply _. Defined.

(** A sequence of calls, each legal in the state it is made in. *)
Fixpoint legal_run (cs : list pool_call) p : Prop :=
  match cs with
  | [] => True
  | c :: cs => legal p c ∧ legal_run cs (run_call c p).2
  end.

#[global] Instance legal_run_dec cs p : Decision (legal_run cs p).
Proof. revert p. induction cs; intros p; simpl; apply _. Defined.

Fixpoint run_calls (cs : list pool_call) : M BlockPool unit :=
  match cs with
  | [] => mret tt
  | c :: cs => _ ← run_call c; run_calls cs
  end.

(** A step that changes no reference count keeps the counts in order. *)
Lemma pool_inv_hashes p p' free hf :
  pool_inv p free [] → pool_step p p' free (rc p) hf → pool_inv p' free [].
Proof.
  intros [Hwf Href] Hs. split; [by eapply ps_wf|]. eapply refs_ok_step; [done|exact Hs|..].
  - intros r Hv. split; [by eapply ro_nonneg|by eapply ro_zero].
  - intros r _. apply not_elem_of_nil.
  - by intros r ?%not_elem_of_nil.
Qed.

Lemma run_call_inv p free c :
  pool_inv p free [] → legal p c →
  wp (run_call c) (λ _ p', config p' = config p ∧ ∃ free', pool_inv p' free' []) p.
Proof.
  intros Hinv Hlegal. destruct c as [n|bs|bs|req blks nc nf bsz g|ids| |]; simpl in *.
  - unfold get_num_free_blocks in Hlegal. rewrite (qr_num _ free) in Hlegal by apply pw_queue, Hinv.
    eapply wp_mono; [by eapply get_new_blocks_ok|]. intros bs p' [-> Hs].
    split; [by eapply ps_config|]. eexists. eapply get_new_blocks_inv; [done|exact Hs|].
    intros r Hr. destruct (enable_caching p); [|done]. unfold unhash. by case_decide.
  - wp_prim. eapply wp_mono; [eapply touch_ok; [done|]|].
    + intros r Hr. rewrite Forall_forall in Hlegal. destruct (Hlegal r Hr); [left|by right].
      split; [done|apply not_elem_of_nil].
    + intros [] p' [? Hs]. wp_pool. split; [by eapply ps_config|by eexists].
  - wp_prim. eapply wp_mono; [eapply free_blocks_ok; [done|by apply Forall_forall]|].
    intros [] p' [? Hs]. wp_pool. split; [by eapply ps_config|by eexists].
  - destruct Hlegal as (? & ? & ? & ? & ? & Hc). wp_prim.
    eapply wp_mono; [eapply cache_full_blocks_ok; try done; [apply Hinv|by apply Forall_forall]|].
    intros [] p' Hs. wp_pool. split; [by eapply ps_config|]. exists free. by eapply pool_inv_hashes.
  - wp_prim. eapply wp_mono; [eapply evict_blocks_ok; [apply Hinv|done]|].
    intros [] p' Hs. wp_pool. split; [by eapply ps_config|]. exists free. by eapply pool_inv_hashes.
  - wp_prim. eapply wp_mono; [by eapply reset_prefix_cache_ok|]. intros b p' Hs. wp_pool.
    case_decide; destruct Hs as [_ Hs]; [|subst; split; [done|by exists free]].
    split; [by eapply ps_config|]. exists free. by eapply pool_inv_hashes.
  - wp_prim. unfold take_events. wp_prim. wp_prim.
    destruct (enable_kv_cache_events p); simpl; wp_pool; (split; [done|]); exists free; [|done].
    eapply pool_inv_hashes; [done|]. apply pool_step_then_events, pool_step_refl, Hinv.
Qed.

Lemma run_calls_inv cs : ∀ p free,
  pool_inv p free [] → legal_run cs p →
  wp (run_calls cs) (λ _ p', config p' = config p ∧ ∃ free', pool_inv p' free' []) p.
Proof.
  induction cs as [|c cs IH]; intros p free Hinv Hl; simpl in *.
  { wp_prim. split; [done|by exists free]. }
  destruct Hl as [Hc Hl]. pose proof (run_call_inv p free c Hinv Hc) as Hrun.
  apply wp_run in Hrun as (bs & p' & Hrun & Hcfg & free' & Hinv').
  rewrite Hrun in Hl. wp_prim. apply wp_run. exists bs, p'. split; [done|].
  eapply wp_mono; [by eapply IH|]. intros _ p2 [? ?]. split; [congruence|done].
Qed.
End PoolCalls.

(** ** Theorems *)

Section PoolTheorems.
Context {E : Env}.
Implicit Types (p : BlockPool) (r : ref) (free reserved bs : list ref).

(** C18: The pool is safe under every sequence of calls of [get_new_blocks], [touch],
    [free_blocks], [cache_full_blocks], [evict_blocks], [reset_prefix_cache] and
    [take_events] in which each call respects its contract, from the pool the
    constructor builds: no call raises; afterwards walking the links of the free
    queue lists exactly the blocks, but the null block, whose reference count is 0;
    and a block is filed under a key in the map of cached blocks exactly when that
    key is the block's hash. *)
Theorem pool_calls_safe n caching hbs events metrics p cs :
  pool_init n caching hbs events metrics = Ok p → legal_run cs p →
  ∃ p' free, run_calls cs p = (Ok tt, p') ∧
    get_all_free_blocks (S (length free)) (free_block_queue p') = Ok (Some free) ∧
    (∀ i, Blk i ∈ free ↔ (0 < i < Z.to_nat n)%nat ∧ rc p' (Blk i) = 0) ∧
    (∀ i key, Blk i ∈ entry_blocks (cached_block_hash_to_block p' !! key) ↔
       (0 < i < Z.to_nat n)%nat ∧ bhash p' (Blk i) = Some key).
Proof.
  intros Hinit Hl. destruct (decide (0 < n)) as [Hn|Hn].
  2: { unfold pool_init in Hinit. by rewrite (proj2 (Z.ltb_ge 0 n)) in Hinit by lia. }
  destruct (pool_init_ok n caching hbs events metrics Hn) as (p0 & Hp & Hinv & Hcfg & _).
  rewrite Hp in Hinit. injection Hinit as ->. pose proof (run_calls_inv cs p _ Hinv Hl) as Hrun.
  apply wp_run in Hrun as ([] & p' & Hrun & Hc & free & Hwf & Href).
  assert (nblocks p' = Z.to_nat n) as Hnb.
  { unfold nblocks, config in *. congruence. }
  exists p', free. split; [done|]. split; [|split].
  - apply get_all_free_blocks_rep; [by apply pw_queue|lia].
  - intros i. assert (valid p' (Blk i) ↔ (0 < i < Z.to_nat n)%nat) as Hv.
    { unfold valid. rewrite Hnb. naive_solver. }
    rewrite <- Hv. split.
    + intros Hi. pose proof (pw_free _ _ Hwf _ Hi). split; [done|].
      apply (ro_zero _ _ _ Href); [done|]. by left.
    + intros [Hi H0]. apply (ro_zero _ _ _ Href) in H0; [|done]. set_solver.
  - intros i key. destruct (pw_cache _ _ Hwf key) as [_ ->]. unfold valid. rewrite Hnb.
    naive_solver.
Qed.

(** C39: [get_new_blocks n] with enough free blocks returns the [n] blocks at the front
    of the free queue, in order; each of them then has exactly one reference and,
    when caching is enabled, is filed under no key any more; the rest of the queue
    and the counts and hashes of all other blocks are as before.  With too few free
    blocks it raises [ValueError] and changes nothing. *)
Theorem get_new_blocks_spec p free reserved n :
  pool_inv p free reserved →
  (len free < n → get_new_blocks n p = (Raise ValueError, p)) ∧
  (0 ≤ n ≤ len free → ∃ p', get_new_blocks n p = (Ok (take (Z.to_nat n) free), p') ∧
     pool_inv p' (drop (Z.to_nat n) free) reserved ∧
     (∀ r, r ∈ take (Z.to_nat n) free → rc p' r = 1 ∧
        (enable_caching p = true → ∀ key, r ∉ entry_blocks (cached_block_hash_to_block p' !! key))) ∧
     (∀ i, Blk i ∉ take (Z.to_nat n) free →
        rc p' (Blk i) = rc p (Blk i) ∧ bhash p' (Blk i) = bhash p (Blk i))).
Proof.
  intros Hinv. assert (Hnum : num_free_blocks (free_block_queue p) = len free)
    by apply qr_num, pw_queue, Hinv.
  split; intros Hn.
  { unfold get_new_blocks, get_num_free_blocks, mbind, M_bind, gets.
    by rewrite Hnum, (proj2 (Z.ltb_lt _ _)) by lia. }
  pose proof (get_new_blocks_ok p free reserved n Hinv Hn) as Hrun.
  apply wp_run in Hrun as (bs & p' & Hrun & -> & Hs). exists p'. split; [done|].
  assert (pool_inv p' (drop (Z.to_nat n) free) reserved) as Hinv'.
  { eapply get_new_blocks_inv; [done|exact Hs|]. intros r Hr.
    destruct (enable_caching p); [|done]. unfold unhash. by case_decide. }
  split; [done|]. destruct Hinv as [Hwf Href]. split.
  - intros r Hr. assert (r ∈ free) as Hf by by eapply elem_of_take_in.
    pose proof (pw_free _ _ Hwf _ Hf) as Hv. destruct (valid_Blk _ _ Hv) as [i ->].
    assert (NoDup (take (Z.to_nat n) free)) as Hnd.
    { eapply sublist_NoDup; [by eapply queue_rep_nodup, pw_queue|apply sublist_take]. }
    split.
    + rewrite (ps_rc _ _ _ _ _ Hs), occ_nodup by done.
      rewrite (proj2 (ro_zero _ _ _ Href _ Hv)) by by left. done.
    + intros Hcaching key Hin. apply (pw_cache _ _ (proj1 Hinv') key) in Hin as [_ Hin].
      rewrite (ps_hash _ _ _ _ _ Hs), Hcaching in Hin. unfold unhash in Hin.
      by rewrite decide_True in Hin.
  - intros i Hi. rewrite (ps_rc _ _ _ _ _ Hs), (ps_hash _ _ _ _ _ Hs).
    rewrite (proj1 (occ_not_elem _ _) Hi). split; [lia|].
    destruct (enable_caching p); [|done]. unfold unhash. by rewrite decide_False.
Qed.

Lemma get_cached_block_ok p free h gs :
  pool_wf p free →
  match get_cached_block p h gs with
  | Some bs => Forall2 (λ g r, valid p r ∧ bhash p r = Some (group_key h g)) gs bs
  | None => ∃ g, g ∈ gs ∧ ∀ r, valid p r → bhash p r ≠ Some (group_key h g)
  end.
Proof.
  intros Hwf. pose proof (λ r r', valid_id_inj p free r r' Hwf) as Hinj.
  pose proof (pw_cache _ _ Hwf) as Hc. unfold get_cached_block.
  destruct (mapM _ gs) as [bs|] eqn:Hm.
  - apply mapM_Some_1 in Hm. eapply Forall2_impl; [exact Hm|]. intros g r Hg.
    pose proof (get_one_block_ok _ _ _ Hinj _ (group_key h g) Hc) as Hok.
    by rewrite Hg in Hok.
  - apply mapM_None_1, Exists_exists in Hm as (g & Hg & Hnone). exists g. split; [done|].
    pose proof (get_one_block_ok _ _ _ Hinj _ (group_key h g) Hc) as Hok.
    by rewrite Hnone in Hok.
Qed.

(** A lookup in the prefix cache is exact: for a block hash and a list of groups,
    [get_cached_block] returns one block per group, each carrying that hash for that
    group, and returns nothing only if some group has no such block. *)
Theorem cached_lookup_exact p free h gs :
  pool_wf p free →
  match get_cached_block p h gs with
  | Some bs => Forall2 (λ g r, valid p r ∧ bhash p r = Some (group_key h g)) gs bs
  | None => ∃ g, g ∈ gs ∧ ∀ r, valid p r → bhash p r ≠ Some (group_key h g)
  end.
Proof. apply get_cached_block_ok. Qed.

Lemma num_free_bound p free : pool_wf p free → len free ≤ num_gpu_blocks p - 1.
Proof.
  intros Hwf. pose proof (pw_pos _ _ Hwf) as Hpos.
  assert (free ⊆+ Blk <$> seq 1 (nblocks p - 1)) as Hsub.
  { apply NoDup_submseteq; [by eapply queue_rep_nodup, pw_queue|].
    intros r (i & -> & Hi)%(pw_free _ _ Hwf). apply list_elem_of_fmap. exists i.
    split; [done|]. apply elem_of_seq. lia. }
  apply submseteq_length in Hsub. rewrite length_fmap, length_seq in Hsub.
  unfold len, nblocks in *. lia.
Qed.

(** The usage the pool reports is the fraction of its blocks, the null block not
    counted, that are not in the free queue, and lies between 0 and 1. *)
Theorem usage_is_a_fraction p free :
  pool_wf p free →
  (get_usage p == if decide (num_gpu_blocks p = 1%Z) then 0
                  else inject_Z (num_gpu_blocks p - 1 - len free) / inject_Z (num_gpu_blocks p - 1))%Q ∧
  (0 <= get_usage p <= 1)%Q.
Proof.
  intros Hwf. pose proof (num_free_bound _ _ Hwf) as Hle. pose proof (pw_pos _ _ Hwf) as Hpos.
  pose proof (len_nonneg free) as Hnn.
  unfold get_usage, get_num_free_blocks. rewrite (qr_num _ _ (pw_queue _ _ Hwf)).
  destruct (Z.eqb_spec (num_gpu_blocks p - 1) 0) as [H0|H0]; case_decide as Hd; try lia.
  { split; [done|split; done]. }
  assert (0 < inject_Z (num_gpu_blocks p - 1))%Q as Ht by (rewrite <- (Zlt_Qlt 0); lia).
  assert (~ inject_Z (num_gpu_blocks p - 1) == 0)%Q as Hne by (intros He; by rewrite He in Ht).
  assert (1 - inject_Z (len free) / inject_Z (num_gpu_blocks p - 1) ==
    inject_Z (num_gpu_blocks p - 1 - len free) / inject_Z (num_gpu_blocks p - 1))%Q as Heq.
  { unfold Z.sub at 2. rewrite inject_Z_plus, inject_Z_opp. field. done. }
  split; [done|]. rewrite Heq. split.
  - apply Qle_shift_div_l; [done|]. rewrite Qmult_0_l. change 0%Q with (inject_Z 0).
    rewrite <- Zle_Qle. lia.
  - apply Qle_shift_div_r; [done|]. rewrite Qmult_1_l, <- Zle_Qle. lia.
Qed.
End PoolTheorems.

(** ** Witnesses *)

Definition test_env : Env := {|
  sha256 := λ _, [];
  VLLM_KV_EVENTS_USE_INT_BLOCK_HASHES := false;
  time_ns := Z.of_nat;
  random := λ _, (1 # 2)%Q
|}.
#[local] Existing Instance test_env.

(** A request of two blocks of two tokens with hashes [[7]] and [[9]]. *)
Definition cached_request : Request :=
  set_block_hashes [[7]; [9]] (text_request "r" [1; 2; 3; 4] None None []).

(** Two blocks are taken, cached and freed; one is hit again. *)
Definition pool_example : list pool_call :=
  [GetNewBlocks 2; CacheFullBlocks cached_request [Blk 1; Blk 2] 0 2 2 0; FreeBlocks [Blk 2; Blk 1];
   Touch [Blk 1]; EvictBlocks [2]; GetNewBlocks 2; ResetPrefixCache; TakeEvents].

Definition pool4 : BlockPool :=
  match pool_init 4 true 2 true (Some (mkMetrics 1 ∅ [] 0 0)) with
  | Ok p => p
  | Raise _ => mkBlockPool 0 false 0 [] (mkQueue ∅ 0) ∅ FakeHead false [] None
  end.

Lemma pool4_inv : pool_inv pool4 [Blk 1; Blk 2; Blk 3] [].
Proof.
  destruct (pool_init_ok 4 true 2 true (Some (mkMetrics 1 ∅ [] 0 0)))
    as (p & Hp & Hinv & _); [lia|].
  unfold pool4. rewrite Hp. exact Hinv.
Qed.

Lemma pool_calls_safe_witness :
  ∃ p' free, run_calls pool_example pool4 = (Ok tt, p') ∧
    get_all_free_blocks (S (length free)) (free_block_queue p') = Ok (Some free) ∧ free = [].
Proof.
  destruct (pool_calls_safe 4 true 2 true (Some (mkMetrics 1 ∅ [] 0 0)) pool4
    pool_example) as (p' & free & Hrun & Hall & Hfree & _).
  - vm_compute. reflexivity.
  - apply (bool_decide_unpack _). vm_compute. exact I.
  - exists p', free. split_and!; [done..|].
    assert (p' = (run_calls pool_example pool4).2) as -> by by rewrite Hrun.
    destruct free as [|r free]; [done|]. vm_compute in Hall. discriminate Hall.
Defined.

Lemma get_new_blocks_spec_witness :
  ∃ p', get_new_blocks 2 pool4 = (Ok [Blk 1; Blk 2], p') ∧ rc p' (Blk 2) = 1.
Proof.
  destruct (get_new_blocks_spec pool4 [Blk 1; Blk 2; Blk 3] [] 2 pool4_inv)
    as [_ (p' & Hrun & _ & Hr & _)]; [by vm_compute|].
  exists p'. split; [exact Hrun|]. apply Hr. right. left.
Defined.

Lemma cached_lookup_exact_witness :
  get_cached_block pool4 [7] [0] = None ∧
  ∃ g, g ∈ [0] ∧ ∀ r, valid pool4 r → bhash pool4 r ≠ Some (group_key [7] g).
Proof.
  split; [vm_compute; reflexivity|].
  exact (cached_lookup_exact pool4 [Blk 1; Blk 2; Blk 3] [7] [0] (proj1 pool4_inv)).
Defined.

Lemma usage_is_a_fraction_witness : (0 <= get_usage pool4 <= 1)%Q.
Proof. exact (proj2 (usage_is_a_fraction pool4 [Blk 1; Blk 2; Blk 3] (proj1 pool4_inv))). Defined.
