(* ===== verification/KVSpec.v ===== *)
(** * KV-cache specifications

    vllm/v1/kv_cache_interface.py and vllm/utils/math_utils.py: the cache format of
    one attention layer, the size of its pages, the number of blocks a request may
    hold, and the merging of the specifications of the layers of a group.  The
    subclasses of [KVCacheSpec] are the constructors of one type; [isinstance] is a
    boolean function on it.  A [torch.dtype] is its name and element size. *)

From S2P Require Import Prelude.

(** ** Integer helpers *)

Definition cdiv (a b : Z) : Z := - (a / - b).
Definition round_up (x y : Z) : Z := ((x + y - 1) / y) * y.
Definition round_down (x y : Z) : Z := (x / y) * y.
(** [1 << (n - 1).bit_length()] *)
Definition bit_length (n : Z) : Z := if n =? 0 then 0 else Z.log2 (Z.abs n) + 1.
Definition next_power_of_2 (n : Z) : Z := if n <? 1 then 1 else Z.shiftl 1 (bit_length (n - 1)).
Definition largest_power_of_2_divisor (n : Z) : Z := Z.land n (- n).

(** ** Data types *)

Record dtype := mkDtype { dtype_name : string; dtype_itemsize : Z }.
#[global] Instance dtype_eq_dec : EqDecision dtype.
Proof. solve_decision. Defined.

Definition get_dtype_size (d : dtype) : Z := dtype_itemsize d.
Definition float32 : dtype := mkDtype "float32" 4.

Inductive KVQuantMode :=
  | NONE
  | FP8_PER_TENSOR
  | INT8_PER_TOKEN_HEAD
  | FP8_PER_TOKEN_HEAD
  | NVFP4.
#[global] Instance KVQuantMode_eq_dec : EqDecision KVQuantMode.
Proof. solve_decision. Defined.

Definition is_per_token_head (m : KVQuantMode) : bool :=
  bool_decide (m = INT8_PER_TOKEN_HEAD ∨ m = FP8_PER_TOKEN_HEAD).
Definition is_nvfp4 (m : KVQuantMode) : bool := bool_decide (m = NVFP4).

Definition get_kv_quant_mode (kv_cache_dtype : string) : KVQuantMode :=
  if String.eqb kv_cache_dtype "int8_per_token_head" then INT8_PER_TOKEN_HEAD
  else if String.eqb kv_cache_dtype "fp8_per_token_head" then FP8_PER_TOKEN_HEAD
  else if String.eqb kv_cache_dtype "nvfp4" then NVFP4
  else if String.prefix "fp8" kv_cache_dtype then FP8_PER_TENSOR
  else NONE.

Definition is_quantized_kv_cache (kv_cache_dtype : string) : bool :=
  negb (bool_decide (get_kv_quant_mode kv_cache_dtype = NONE)).
Definition kv_cache_uses_per_token_head_scales (kv_cache_dtype : string) : bool :=
  is_per_token_head (get_kv_quant_mode kv_cache_dtype).

(** Packed last dimension of an NVFP4 cache: fp4 data and fp8 block scales. *)
Definition nvfp4_kv_cache_full_dim (head_size : Z) : Z := head_size / 2 + head_size / 16.

(** ** The specifications *)

(** The fields of [AttentionSpec]. *)
Record AttentionSpec := mkAttention {
  attn_block_size : Z;
  num_kv_heads : Z;
  head_size : Z;
  attn_dtype : dtype;
  kv_quant_mode : KVQuantMode;
  page_size_padded : option Z
}.
#[global] Instance AttentionSpec_eq_dec : EqDecision AttentionSpec.
Proof. solve_decision. Defined.

(** The fields [FullAttentionSpec] adds. *)
Record FullFields := mkFull {
  head_size_v : Z;
  full_sliding_window : option Z;
  full_attention_chunk_size : option Z
}.
#[global] Instance FullFields_eq_dec : EqDecision FullFields.
Proof. solve_decision. Defined.

(** The fields the two MLA classes add. *)
Record MLAFields := mkMLA {
  cache_dtype_str : option string;
  alignment : option Z;
  compress_ratio : Z;
  model_version : option string
}.
#[global] Instance MLAFields_eq_dec : EqDecision MLAFields.
Proof. solve_decision. Defined.

Inductive MambaCacheMode := MambaNone | MambaAll | MambaAlign.
#[global] Instance MambaCacheMode_eq_dec : EqDecision MambaCacheMode.
Proof. solve_decision. Defined.

Record MambaFields := mkMamba {
  mamba_block_size : Z;
  shapes : list (list Z);
  dtypes : list dtype;
  mamba_page_size_padded : option Z;
  mamba_type : string;
  mamba_cache_mode : MambaCacheMode;
  num_speculative_blocks : Z
}.
#[global] Instance MambaFields_eq_dec : EqDecision MambaFields.
Proof. solve_decision. Defined.

Inductive KVCacheSpec :=
  | FullAttentionSpec (a : AttentionSpec) (f : FullFields)
  | TQFullAttentionSpec (a : AttentionSpec) (f : FullFields) (tq_slot_size : Z)
  | MLAAttentionSpec (a : AttentionSpec) (f : FullFields) (m : MLAFields)
  | SinkFullAttentionSpec (a : AttentionSpec) (f : FullFields) (sink_len : option Z)
  | ChunkedLocalAttentionSpec (a : AttentionSpec) (attention_chunk_size : Z)
  | SlidingWindowSpec (a : AttentionSpec) (sliding_window : Z) (head_size_v : Z)
  | SlidingWindowMLASpec (a : AttentionSpec) (sliding_window : Z) (m : MLAFields)
  | MambaSpec (m : MambaFields)
  | EncoderOnlyAttentionSpec (a : AttentionSpec)
  | CrossAttentionSpec (a : AttentionSpec).
#[global] Instance KVCacheSpec_eq_dec : EqDecision KVCacheSpec.
Proof. solve_decision. Defined.

(** [isinstance]; a subclass counts as its parents. *)
Definition is_full_attention (s : KVCacheSpec) : bool :=
  match s with
  | FullAttentionSpec _ _ | TQFullAttentionSpec _ _ _ | MLAAttentionSpec _ _ _
  | SinkFullAttentionSpec _ _ _ => true
  | _ => false
  end.
Definition is_mla (s : KVCacheSpec) : bool :=
  match s with MLAAttentionSpec _ _ _ => true | _ => false end.
Definition is_chunked_local (s : KVCacheSpec) : bool :=
  match s with ChunkedLocalAttentionSpec _ _ => true | _ => false end.
Definition is_sliding_window (s : KVCacheSpec) : bool :=
  match s with SlidingWindowSpec _ _ _ | SlidingWindowMLASpec _ _ _ => true | _ => false end.
Definition is_sliding_window_mla (s : KVCacheSpec) : bool :=
  match s with SlidingWindowMLASpec _ _ _ => true | _ => false end.
Definition is_mamba (s : KVCacheSpec) : bool := match s with MambaSpec _ => true | _ => false end.
Definition is_cross (s : KVCacheSpec) : bool :=
  match s with CrossAttentionSpec _ => true | _ => false end.

(** The attention fields of a specification; a Mamba layer has none. *)
Definition attention (s : KVCacheSpec) : option AttentionSpec :=
  match s with
  | FullAttentionSpec a _ | TQFullAttentionSpec a _ _ | MLAAttentionSpec a _ _
  | SinkFullAttentionSpec a _ _ | ChunkedLocalAttentionSpec a _ | SlidingWindowSpec a _ _
  | SlidingWindowMLASpec a _ _ | EncoderOnlyAttentionSpec a | CrossAttentionSpec a => Some a
  | MambaSpec _ => None
  end.

Definition block_size (s : KVCacheSpec) : Z :=
  match s with
  | MambaSpec m => mamba_block_size m
  | FullAttentionSpec a _ | TQFullAttentionSpec a _ _ | MLAAttentionSpec a _ _
  | SinkFullAttentionSpec a _ _ | ChunkedLocalAttentionSpec a _ | SlidingWindowSpec a _ _
  | SlidingWindowMLASpec a _ _ | EncoderOnlyAttentionSpec a | CrossAttentionSpec a =>
      attn_block_size a
  end.

Definition storage_block_size (s : KVCacheSpec) : Z :=
  match s with
  | MLAAttentionSpec a _ m | SlidingWindowMLASpec a _ m => attn_block_size a / compress_ratio m
  | _ => block_size s
  end.

(** [AttentionSpec.real_page_size_bytes] *)
Definition attention_page (a : AttentionSpec) : Z :=
  2 * attn_block_size a * num_kv_heads a * head_size a * get_dtype_size (attn_dtype a).

(** [FullAttentionSpec.real_page_size_bytes] *)
Definition full_page (a : AttentionSpec) (f : FullFields) : Z :=
  if is_nvfp4 (kv_quant_mode a) then
    attn_block_size a * num_kv_heads a *
    (nvfp4_kv_cache_full_dim (head_size a) + nvfp4_kv_cache_full_dim (head_size_v f)) *
    get_dtype_size (attn_dtype a)
  else
    attn_block_size a * num_kv_heads a * (head_size a + head_size_v f) * get_dtype_size (attn_dtype a).

(** [MLAAttentionSpec.real_page_size_bytes] *)
Definition mla_page (a : AttentionSpec) (m : MLAFields) : Z :=
  let storage := attn_block_size a / compress_ratio m in
  if bool_decide (cache_dtype_str m = Some "fp8_ds_mla") then
    if bool_decide (model_version m = Some "deepseek_v4") then storage * 584
    else attn_block_size a * 656
  else storage * num_kv_heads a * head_size a * get_dtype_size (attn_dtype a).

(** [SlidingWindowMLASpec.real_page_size_bytes] *)
Definition swa_mla_page (a : AttentionSpec) (m : MLAFields) : result Z :=
  let storage := attn_block_size a / compress_ratio m in
  if bool_decide (model_version m = Some "deepseek_v4") then Ok (storage * 584)
  else if bool_decide (model_version m = None)
  then Ok (storage * num_kv_heads a * head_size a * get_dtype_size (attn_dtype a))
  else Raise AssertionError.

(** [real_page_size_bytes] of an attention layer. *)
Definition real_page_size_bytes (s : KVCacheSpec) : result Z :=
  match s with
  | FullAttentionSpec a f | SinkFullAttentionSpec a f _ => Ok (full_page a f)
  | TQFullAttentionSpec a f tq_slot_size =>
      if 0 <? tq_slot_size then Ok (attn_block_size a * num_kv_heads a * tq_slot_size)
      else Ok (full_page a f)
  | MLAAttentionSpec a _ m => Ok (mla_page a m)
  | SlidingWindowSpec a _ hv =>
      Ok (attn_block_size a * num_kv_heads a * (head_size a + hv) * get_dtype_size (attn_dtype a))
  | SlidingWindowMLASpec a _ m => swa_mla_page a m
  | ChunkedLocalAttentionSpec a _ | EncoderOnlyAttentionSpec a | CrossAttentionSpec a =>
      Ok (attention_page a)
  | MambaSpec _ => Raise NotImplementedError
  end.

(** The padding both [page_size_bytes] apply. *)
Definition padded (padding : option Z) (page_size : Z) : result Z :=
  match padding with
  | Some n => if page_size <=? n then Ok n else Raise AssertionError
  | None => Ok page_size
  end.

Definition mamba_page (m : MambaFields) : Z :=
  sumZ (zip_with (λ shape d, foldr Z.mul 1 shape * get_dtype_size d) (shapes m) (dtypes m)).

Definition page_size_bytes (s : KVCacheSpec) : result Z :=
  match s with
  | MambaSpec m => padded (mamba_page_size_padded m) (mamba_page m)
  | _ =>
      match attention s, real_page_size_bytes s with
      | Some a, Ok real_page_size =>
          let real_page_size :=
            if is_per_token_head (kv_quant_mode a)
            then real_page_size + 2 * attn_block_size a * num_kv_heads a * get_dtype_size float32
            else real_page_size in
          padded (page_size_padded a) real_page_size
      | _, Raise e => Raise e
      | None, _ => Raise NotImplementedError
      end
  end.

(** ** Construction *)

Definition set_page_size_padded (v : option Z) (a : AttentionSpec) : AttentionSpec :=
  mkAttention (attn_block_size a) (num_kv_heads a) (head_size a) (attn_dtype a) (kv_quant_mode a) v.

(** [_apply_alignment_padding], given the page size *)
Definition _apply_alignment_padding (al : option Z) (actual_page_size : Z) (a : AttentionSpec) :
    AttentionSpec :=
  match al with
  | None => a
  | Some n =>
      let padded_page_size := round_up actual_page_size n in
      if negb (padded_page_size =? actual_page_size)
      then set_page_size_padded (Some padded_page_size) a else a
  end.

(** The constructors with [__post_init__]; [head_size_v] defaults to [head_size]. *)
Definition make_full (a : AttentionSpec) (hv sw chunk : option Z) : KVCacheSpec :=
  FullAttentionSpec a (mkFull (default (head_size a) hv) sw chunk).
Definition make_mla (a : AttentionSpec) (hv sw chunk : option Z) (m : MLAFields) : KVCacheSpec :=
  MLAAttentionSpec (_apply_alignment_padding (alignment m) (mla_page a m) a)
    (mkFull (default (head_size a) hv) sw chunk) m.
Definition make_sliding_window (a : AttentionSpec) (sw : Z) (hv : option Z) : KVCacheSpec :=
  SlidingWindowSpec a sw (default (head_size a) hv).
Definition make_sliding_window_mla (a : AttentionSpec) (sw : Z) (m : MLAFields) :
    result KVCacheSpec :=
  match alignment m with
  | None => Ok (SlidingWindowMLASpec a sw m)
  | Some _ =>
      match swa_mla_page a m with
      | Ok page => Ok (SlidingWindowMLASpec (_apply_alignment_padding (alignment m) page a) sw m)
      | Raise e => Raise e
      end
  end.

(** [copy_with_new_block_size] of the classes without [__post_init__] work. *)
Definition with_block_size (n : Z) (a : AttentionSpec) : AttentionSpec :=
  mkAttention n (num_kv_heads a) (head_size a) (attn_dtype a) (kv_quant_mode a) (page_size_padded a).
Definition copy_with_new_block_size (s : KVCacheSpec) (n : Z) : result KVCacheSpec :=
  match s with
  | FullAttentionSpec a f => Ok (FullAttentionSpec (with_block_size n a) f)
  | TQFullAttentionSpec a f t => Ok (TQFullAttentionSpec (with_block_size n a) f t)
  | SinkFullAttentionSpec a f k => Ok (SinkFullAttentionSpec (with_block_size n a) f k)
  | MLAAttentionSpec a f m =>
      Ok (make_mla (with_block_size n a) (Some (head_size_v f)) (full_sliding_window f)
            (full_attention_chunk_size f) m)
  | ChunkedLocalAttentionSpec a c => Ok (ChunkedLocalAttentionSpec (with_block_size n a) c)
  | SlidingWindowSpec a w hv => Ok (SlidingWindowSpec (with_block_size n a) w hv)
  | SlidingWindowMLASpec a w m => make_sliding_window_mla (with_block_size n a) w m
  | MambaSpec m =>
      Ok (MambaSpec (mkMamba n (shapes m) (dtypes m) (mamba_page_size_padded m) (mamba_type m)
            (mamba_cache_mode m) (num_speculative_blocks m)))
  | EncoderOnlyAttentionSpec a => Ok (EncoderOnlyAttentionSpec (with_block_size n a))
  | CrossAttentionSpec a => Ok (CrossAttentionSpec (with_block_size n a))
  end.

(** ** Memory needed by a request *)

(** The fields of [VllmConfig] the specifications read. *)
Record VllmConfig := mkVllmConfig {
  cfg_max_model_len : Z;
  decode_context_parallel_size : Z;
  prefill_context_parallel_size : Z;
  cfg_max_num_batched_tokens : Z;
  cfg_mamba_cache_mode : MambaCacheMode;
  max_num_encoder_input_tokens : Z
}.

(** [max_admission_blocks_per_request] of the two kinds that recycle blocks. *)
Definition chunked_admission_blocks (bs attention_chunk_size max_num_batched_tokens max_model_len : Z) : Z :=
  let num_tokens := Z.min (attention_chunk_size + max_num_batched_tokens) max_model_len in
  cdiv num_tokens bs.
Definition sliding_admission_blocks (bs sliding_window max_num_batched_tokens max_model_len : Z) : Z :=
  let num_tokens := Z.min (sliding_window - 1 + max_num_batched_tokens) max_model_len in
  cdiv num_tokens bs + 1.

Definition max_admission_blocks_per_request (s : KVCacheSpec)
    (max_num_batched_tokens max_model_len : Z) : option Z :=
  match s with
  | ChunkedLocalAttentionSpec a c =>
      Some (chunked_admission_blocks (attn_block_size a) c max_num_batched_tokens max_model_len)
  | SlidingWindowSpec a w _ | SlidingWindowMLASpec a w _ =>
      Some (sliding_admission_blocks (attn_block_size a) w max_num_batched_tokens max_model_len)
  | _ => None
  end.

(** The number of blocks behind [max_memory_usage_bytes]. *)
Definition max_memory_usage_blocks (s : KVCacheSpec) (cfg : VllmConfig) : result Z :=
  match s with
  | FullAttentionSpec _ _ | TQFullAttentionSpec _ _ _ | MLAAttentionSpec _ _ _
  | SinkFullAttentionSpec _ _ _ =>
      let ws := decode_context_parallel_size cfg * prefill_context_parallel_size cfg in
      let max_model_len :=
        if 1 <? ws then cdiv (cfg_max_model_len cfg) ws else cfg_max_model_len cfg in
      Ok (cdiv max_model_len (block_size s))
  | ChunkedLocalAttentionSpec a c =>
      Ok (chunked_admission_blocks (attn_block_size a) c (cfg_max_num_batched_tokens cfg)
            (cfg_max_model_len cfg))
  | SlidingWindowSpec a w _ | SlidingWindowMLASpec a w _ =>
      if decode_context_parallel_size cfg =? 1 then
        Ok (sliding_admission_blocks (attn_block_size a) w (cfg_max_num_batched_tokens cfg)
              (cfg_max_model_len cfg))
      else Raise AssertionError
  | MambaSpec m =>
      match cfg_mamba_cache_mode cfg with
      | MambaAll => Ok (cdiv (cfg_max_model_len cfg) (block_size s))
      | MambaAlign => Ok (2 + num_speculative_blocks m)
      | MambaNone => Ok (1 + num_speculative_blocks m)
      end
  | EncoderOnlyAttentionSpec _ => Ok 0
  | CrossAttentionSpec _ => Ok (cdiv (max_num_encoder_input_tokens cfg) (block_size s))
  end.

Definition max_memory_usage_bytes (s : KVCacheSpec) (cfg : VllmConfig) : result Z :=
  match max_memory_usage_blocks s cfg, s with
  | Raise e, _ => Raise e
  | Ok _, EncoderOnlyAttentionSpec _ => Ok 0
  | Ok n, _ => match page_size_bytes s with Ok page => Ok (n * page) | Raise e => Raise e end
  end.

(** ** Merging the layers of a group *)

(** [set(x for ... if x is not None)] and the sets of the MLA fields, without
    duplicates. *)
Definition window_set (f : FullFields → option Z) (specs : list FullFields) : list Z :=
  remove_dups (omap f specs).

Definition merge_window_sizes (window_sizes : list Z) : result (option Z) :=
  match window_sizes with
  | [] => Ok None
  | [w] => Ok (Some w)
  | _ => Raise ValueError
  end.

(** The full-attention fields of a specification. *)
Definition full_fields (s : KVCacheSpec) : option FullFields :=
  match s with
  | FullAttentionSpec _ f | TQFullAttentionSpec _ f _ | MLAAttentionSpec _ f _
  | SinkFullAttentionSpec _ f _ => Some f
  | _ => None
  end.

Definition mla_fields (s : KVCacheSpec) : option MLAFields :=
  match s with
  | MLAAttentionSpec _ _ m | SlidingWindowMLASpec _ _ m => Some m
  | _ => None
  end.

(** The body shared by [FullAttentionSpec.merge] and [SinkFullAttentionSpec.merge];
    returns the fields of [merged_spec]. *)
Definition merge_full (specs : list KVCacheSpec) : result (AttentionSpec * FullFields) :=
  if negb (forallb is_full_attention specs) then Raise AssertionError
  else
    let fs := omap full_fields specs in
    let sliding_window := window_set full_sliding_window fs in
    let attention_chunk_size := window_set full_attention_chunk_size fs in
    if existsb is_mla specs then Raise AssertionError
    else
      match specs, fs with
      | s0 :: _, f0 :: _ =>
          match attention s0, merge_window_sizes sliding_window, merge_window_sizes attention_chunk_size with
          | Some a0, Ok sw, Ok chunk =>
              if negb (forallb (λ s, bool_decide (attention s = Some a0)) specs) then Raise AssertionError
              else if bool_decide (is_Some sw) && bool_decide (is_Some chunk) then Raise AssertionError
              else Ok (a0, mkFull (head_size_v f0) sw chunk)
          | _, Raise e, _ | _, _, Raise e => Raise e
          | None, _, _ => Raise AssertionError
          end
      | _, _ => Raise IndexError
      end.

(** [all(s.tq_slot_size == t for s in specs)], asserted *)
Fixpoint check_tq_slots (t : Z) (specs : list KVCacheSpec) : result unit :=
  match specs with
  | [] => Ok tt
  | TQFullAttentionSpec _ _ t' :: specs => if t' =? t then check_tq_slots t specs else Raise AssertionError
  | _ :: _ => Raise AttributeError
  end.

(** [len(set(...)) == 1] for a field of the MLA layers; the common value *)
Definition singleton_set `{EqDecision A} (l : list A) : option A :=
  match remove_dups l with [x] => Some x | _ => None end.

Definition merge_mla_fields (specs : list KVCacheSpec) : option MLAFields :=
  let ms := omap mla_fields specs in
  match singleton_set (cache_dtype_str <$> ms), singleton_set (compress_ratio <$> ms),
        singleton_set (model_version <$> ms) with
  | Some d, Some c, Some v => Some (mkMLA d None c v)
  | _, _, _ => None
  end.

Definition window_of (s : KVCacheSpec) : option Z :=
  match s with SlidingWindowSpec _ w _ | SlidingWindowMLASpec _ w _ => Some w | _ => None end.

(** [type(specs[0]).merge(specs)] *)
Definition merge (specs : list KVCacheSpec) : result KVCacheSpec :=
  match specs with
  | [] => Raise IndexError
  | FullAttentionSpec _ _ :: _ =>
      match merge_full specs with Ok (a, f) => Ok (FullAttentionSpec a f) | Raise e => Raise e end
  | SinkFullAttentionSpec _ _ k :: _ =>
      match merge_full specs with Ok (a, f) => Ok (SinkFullAttentionSpec a f k) | Raise e => Raise e end
  | TQFullAttentionSpec _ _ t :: _ =>
      match merge_full specs with
      | Ok (a, f) =>
          match check_tq_slots t specs with
          | Ok _ => Ok (TQFullAttentionSpec a f t)
          | Raise e => Raise e
          end
      | Raise e => Raise e
      end
  | MLAAttentionSpec a _ _ :: _ =>
      if negb (forallb is_mla specs) then Raise AssertionError
      else match merge_mla_fields specs with
           | Some m => Ok (make_mla a None None None m)
           | None => Raise AssertionError
           end
  | SlidingWindowMLASpec a w _ :: _ =>
      if negb (forallb is_sliding_window_mla specs) then Raise AssertionError
      else match merge_mla_fields specs, singleton_set (omap window_of specs) with
           | Some m, Some w =>
               make_sliding_window_mla
                 (mkAttention (attn_block_size a) (num_kv_heads a) (head_size a) (attn_dtype a) NONE
                    (page_size_padded a)) w m
           | _, _ => Raise AssertionError
           end
  | s0 :: rest => if forallb (λ s, bool_decide (s = s0)) rest then Ok s0 else Raise AssertionError
  end.

(** ** Groups of layers of one type *)

Record UniformTypeKVCacheSpecs := mkUniform {
  uniform_block_size : Z;
  kv_cache_specs : list (string * KVCacheSpec)
}.

Fixpoint sum_results (l : list (result Z)) : result Z :=
  match l with
  | [] => Ok 0
  | Raise e :: _ => Raise e
  | Ok x :: l => match sum_results l with Ok y => Ok (x + y) | Raise e => Raise e end
  end.

Definition uniform_page_size_bytes (u : UniformTypeKVCacheSpecs) : result Z :=
  sum_results (page_size_bytes ∘ snd <$> kv_cache_specs u).

(** [cdiv(spec.max_memory_usage_bytes(cfg), spec.page_size_bytes)] *)
Definition spec_pages (cfg : VllmConfig) (s : KVCacheSpec) : result Z :=
  match max_memory_usage_bytes s cfg, page_size_bytes s with
  | Ok m, Ok p => Ok (cdiv m p)
  | Raise e, _ | _, Raise e => Raise e
  end.

(** [max(...)] over the layers; of no layer at all it raises. *)
Fixpoint max_results (l : list (result Z)) : result Z :=
  match l with
  | [] => Raise ValueError
  | [r] => r
  | Raise e :: _ => Raise e
  | Ok x :: l => match max_results l with Ok y => Ok (Z.max x y) | Raise e => Raise e end
  end.

Definition max_memory_usage_pages (u : UniformTypeKVCacheSpecs) (cfg : VllmConfig) : result Z :=
  max_results (spec_pages cfg ∘ snd <$> kv_cache_specs u).

Definition uniform_max_memory_usage_bytes (u : UniformTypeKVCacheSpecs) (cfg : VllmConfig) : result Z :=
  match max_memory_usage_pages u cfg, uniform_page_size_bytes u with
  | Ok n, Ok p => Ok (n * p)
  | Raise e, _ | _, Raise e => Raise e
  end.

Definition is_uniform_type (specs : list (string * KVCacheSpec)) : result bool :=
  let ss := specs.*2 in
  if 1 <? len (remove_dups (block_size <$> ss)) then Ok false
  else
    match ss with
    | [] => Raise StopIteration
    | SlidingWindowMLASpec _ w _ :: _ =>
        Ok (forallb (λ s, is_sliding_window_mla s && bool_decide (window_of s = Some w)) ss)
    | (FullAttentionSpec _ _ | TQFullAttentionSpec _ _ _ | MLAAttentionSpec _ _ _
       | SinkFullAttentionSpec _ _ _) :: _ => Ok (forallb is_full_attention ss)
    | CrossAttentionSpec _ :: _ => Ok (forallb is_cross ss)
    | SlidingWindowSpec _ w _ :: _ => Ok (forallb (λ s, bool_decide (window_of s = Some w)) ss)
    | ChunkedLocalAttentionSpec _ c :: _ =>
        Ok (forallb (λ s, match s with ChunkedLocalAttentionSpec _ c' => c' =? c | _ => false end) ss)
    | MambaSpec m :: _ =>
        Ok (forallb (λ s, match s with
                          | MambaSpec m' => num_speculative_blocks m' =? num_speculative_blocks m
                          | _ => false
                          end) ss)
    | EncoderOnlyAttentionSpec _ :: _ => Raise NotImplementedError
    end.

Definition from_specs (specs : list (string * KVCacheSpec)) : result (option UniformTypeKVCacheSpecs) :=
  match is_uniform_type specs with
  | Raise e => Raise e
  | Ok false => Ok None
  | Ok true =>
      match specs with
      | [] => Raise StopIteration
      | (_, s) :: _ => Ok (Some (mkUniform (block_size s) specs))
      end
  end.

(** ** The configuration of the cache *)

Record KVCacheGroupSpec := mkGroup {
  layer_names : list string;
  kv_cache_spec : KVCacheSpec;
  is_eagle_group : bool
}.

Record KVCacheTensor := mkTensor { tensor_size : Z; shared_by : list string }.

Record KVCacheConfig := mkKVCacheConfig {
  num_blocks : Z;
  kv_cache_tensors : list KVCacheTensor;
  kv_cache_groups : list KVCacheGroupSpec
}.

Definition has_mamba_layers (c : KVCacheConfig) : bool :=
  existsb (λ g, is_mamba (kv_cache_spec g)) (kv_cache_groups c).
Definition needs_kv_cache_zeroing (c : KVCacheConfig) : bool := has_mamba_layers c.

(** [is_kv_cache_spec_uniform]: only an [AssertionError] of [merge] is caught. *)
Definition is_kv_cache_spec_uniform (kv_cache_spec : list (string * KVCacheSpec)) : result bool :=
  match kv_cache_spec with
  | [] => Ok true
  | _ =>
      match merge kv_cache_spec.*2 with
      | Ok _ => Ok true
      | Raise AssertionError => Ok false
      | Raise e => Raise e
      end
  end.

(** The settings [resolve_kv_cache_block_sizes] reads besides the parallel sizes. *)
Record CacheConfig := mkCacheConfig {
  cache_block_size : Z;
  enable_prefix_caching : bool;
  requested_hash_block_size : option Z;
  kv_connector_enabled : bool
}.

(** [math.lcm] and [math.gcd] of any number of arguments *)
Definition lcm_list (l : list Z) : Z := foldr Z.lcm 1 l.
Definition gcd_list (l : list Z) : Z := foldr Z.gcd 0 l.

Definition resolve_kv_cache_block_sizes (kv : KVCacheConfig) (cfg : VllmConfig) (cc : CacheConfig) :
    result (Z * Z) :=
  let dcp := decode_context_parallel_size cfg in
  let pcp := prefill_context_parallel_size cfg in
  let groups := kv_cache_groups kv in
  if len groups <=? 1 then
    let bs := cache_block_size cc * dcp * pcp in Ok (bs, bs)
  else if negb (dcp =? 1) || negb (pcp =? 1) then Raise ValueError
  else
    let group_block_sizes := (λ g, block_size (kv_cache_spec g)) <$> groups in
    let scheduler_block_size := lcm_list group_block_sizes in
    if negb (enable_prefix_caching cc || kv_connector_enabled cc)
    then Ok (scheduler_block_size, scheduler_block_size)
    else if existsb (λ g, is_mamba (kv_cache_spec g) &&
                          negb (block_size (kv_cache_spec g) =? cache_block_size cc)) groups
    then Ok (scheduler_block_size, scheduler_block_size)
    else
      let hash_block_size :=
        match requested_hash_block_size cc with Some r => r | None => gcd_list group_block_sizes end in
      if hash_block_size =? 0 then Raise ZeroDivisionError
      else if existsb (λ bs, negb (bs mod hash_block_size =? 0)) group_block_sizes
      then Raise ValueError
      else Ok (scheduler_block_size, hash_block_size).

(** ** Rounding *)

Section Rounding.
Implicit Types (a b x y n : Z).

Lemma cdiv_spec a b : 0 < b → a ≤ cdiv a b * b < a + b.
Proof.
  intros Hb. unfold cdiv. pose proof (Z.div_mod a (- b)). pose proof (Z.mod_neg_bound a (- b)). nia.
Qed.

Lemma cdiv_unique a b q : 0 < b → a ≤ q * b < a + b → cdiv a b = q.
Proof. intros Hb Hq. pose proof (cdiv_spec a b Hb). nia. Qed.

Lemma cdiv_mul q b : 0 < b → cdiv (q * b) b = q.
Proof. intros. apply cdiv_unique; lia. Qed.

Lemma cdiv_le a a' b : 0 < b → a ≤ a' → cdiv a b ≤ cdiv a' b.
Proof. intros Hb Ha. pose proof (cdiv_spec a b Hb). pose proof (cdiv_spec a' b Hb). nia. Qed.

Lemma cdiv_nonneg a b : 0 < b → 0 ≤ a → 0 ≤ cdiv a b.
Proof. intros Hb Ha. pose proof (cdiv_spec a b Hb). nia. Qed.

Lemma cdiv_div a b : 0 < b → a / b ≤ cdiv a b.
Proof. intros Hb. pose proof (cdiv_spec a b Hb). pose proof (Z.mul_div_le a b Hb). nia. Qed.

Lemma round_up_spec x y : 0 < y → x ≤ round_up x y < x + y ∧ round_up x y mod y = 0.
Proof.
  intros Hy. unfold round_up. rewrite Z.mod_mul by lia. split; [|done].
  pose proof (Z.mul_div_le (x + y - 1) y Hy). pose proof (Z.mul_succ_div_gt (x + y - 1) y Hy). lia.
Qed.
End Rounding.

(** ** Merging *)

Lemma omap_full_fields specs : forallb is_full_attention specs = true →
  ∀ s f, s ∈ specs → full_fields s = Some f → f ∈ omap full_fields specs.
Proof. intros _ s f Hs Hf. apply list_elem_of_omap. by exists s. Qed.

(** The merged window is the window of every layer that has one. *)
Lemma merge_window_ok (f : FullFields → option Z) fs w :
  merge_window_sizes (window_set f fs) = Ok w → ∀ x, x ∈ fs → f x = None ∨ f x = w.
Proof.
  unfold merge_window_sizes, window_set. intros Hm x Hx.
  destruct (f x) as [v|] eqn:Hv; [|by left]. right.
  assert (v ∈ remove_dups (omap f fs)) as Hin.
  { apply elem_of_remove_dups, list_elem_of_omap. by exists x. }
  destruct (remove_dups (omap f fs)) as [|v0 [|]]; simplify_eq/=.
  - by apply not_elem_of_nil in Hin.
  - by apply list_elem_of_singleton in Hin as ->.
Qed.

Lemma merge_full_ok specs a f :
  merge_full specs = Ok (a, f) →
  ∀ s, s ∈ specs → attention s = Some a ∧ ∃ g, full_fields s = Some g ∧
    (full_sliding_window g = None ∨ full_sliding_window g = full_sliding_window f) ∧
    (full_attention_chunk_size g = None ∨
     full_attention_chunk_size g = full_attention_chunk_size f).
Proof.
  unfold merge_full. intros Hm s Hs.
  destruct (forallb is_full_attention specs) eqn:Hall; cbn [negb] in Hm; [|done].
  destruct (existsb is_mla specs); [done|].
  assert (∃ g, full_fields s = Some g) as [g Hg].
  { rewrite forallb_forall in Hall. specialize (Hall s (proj1 (list_elem_of_In _ _) Hs)).
    destruct s; simplify_eq/=; by eexists. }
  pose proof (omap_full_fields _ Hall _ _ Hs Hg) as Hin.
  remember (omap full_fields specs) as fs eqn:Hfs.
  destruct specs as [|s0 rest]; [by apply not_elem_of_nil in Hs|].
  destruct fs as [|f0 fs]; [by apply not_elem_of_nil in Hin|]. rewrite <- Hfs in Hm.
  destruct (attention s0) as [a0|]; [|by repeat case_match].
  destruct (merge_window_sizes (window_set full_sliding_window _)) as [sw|] eqn:Hsw;
    [|by repeat case_match].
  destruct (merge_window_sizes (window_set full_attention_chunk_size _)) as [ck|] eqn:Hck;
    [|by repeat case_match].
  destruct (forallb (λ s, bool_decide (attention s = Some a0)) (s0 :: rest)) eqn:Hattn;
    cbn [negb] in Hm; [|done].
  assert (Ok (a0, mkFull (head_size_v f0) sw ck) = Ok (a, f)) as [= <- <-] by by repeat case_match.
  rewrite forallb_forall in Hattn.
  specialize (Hattn s (proj1 (list_elem_of_In _ _) Hs)). apply bool_decide_eq_true in Hattn.
  split; [done|]. exists g. split; [done|].
  split; by eapply merge_window_ok.
Qed.

(** ** Theorems *)

(** A page is never smaller than the data of the block it holds, whatever the
    padding and the scales. *)
Theorem page_holds_its_data s page real :
  page_size_bytes s = Ok page → real_page_size_bytes s = Ok real →
  0 ≤ block_size s → (∀ a, attention s = Some a → 0 ≤ num_kv_heads a) →
  real ≤ page.
Proof.
  intros Hp Hr Hb Hh. unfold page_size_bytes in Hp. destruct s; simplify_eq/=;
    try (rewrite Hr in Hp; simplify_eq/=);
    pose proof (Hh _ eq_refl);
    unfold padded in Hp; repeat case_match; simplify_eq; unfold get_dtype_size, float32 in *;
    simpl in *; nia.
Qed.

Definition bf16 : dtype := mkDtype "bfloat16" 2.
Definition attn16 (hs : Z) : AttentionSpec := mkAttention 16 8 hs bf16 NONE None.

Lemma page_holds_its_data_witness :
  page_size_bytes (TQFullAttentionSpec (mkAttention 16 8 64 bf16 INT8_PER_TOKEN_HEAD None)
    (mkFull 64 None None) 80) = Ok 11264 ∧ 10240 ≤ 11264.
Proof.
  split; [reflexivity|].
  apply (page_holds_its_data (TQFullAttentionSpec (mkAttention 16 8 64 bf16 INT8_PER_TOKEN_HEAD None)
    (mkFull 64 None None) 80)); [reflexivity..|vm_compute; discriminate|].
  intros a [= <-]. vm_compute. discriminate.
Defined.

(** The alignment padding of an MLA layer makes its page the least multiple of the
    alignment that holds the data. *)
Theorem mla_page_aligned a hv sw chunk m n page :
  alignment m = Some n → 0 < n → page_size_padded a = None →
  is_per_token_head (kv_quant_mode a) = false →
  page_size_bytes (make_mla a hv sw chunk m) = Ok page →
  page mod n = 0 ∧ mla_page a m ≤ page < mla_page a m + n.
Proof.
  intros Hal Hn Hpad Hq Hp. pose proof (round_up_spec (mla_page a m) n Hn) as [Hr Hmod].
  unfold make_mla, _apply_alignment_padding in Hp. rewrite Hal in Hp.
  destruct (Z.eqb_spec (round_up (mla_page a m) n) (mla_page a m)) as [He|He]; simpl in Hp.
  - rewrite Hq, Hpad in Hp. simpl in Hp. injection Hp as <-. split; [congruence|lia].
  - unfold page_size_bytes in Hp. simpl in Hp. rewrite Hq in Hp. unfold padded in Hp.
    replace (mla_page (set_page_size_padded _ a) m) with (mla_page a m) in Hp by done.
    case_match; simplify_eq. done.
Qed.

Lemma mla_page_aligned_witness :
  let m := mkMLA (Some "fp8_ds_mla") (Some 576) 1 None in
  page_size_bytes (make_mla (attn16 576) None None None m) = Ok 10944 ∧ 10944 mod 576 = 0.
Proof.
  split; [reflexivity|].
  exact (proj1 (mla_page_aligned (attn16 576) None None None
    (mkMLA (Some "fp8_ds_mla") (Some 576) 1 None) 576 10944 eq_refl eq_refl eq_refl eq_refl eq_refl)).
Defined.

(** Merging full-attention layers into one group loses no layer: all of them have
    the attention fields of the merged specification, and each layer's sliding window
    and chunk size is either absent or the merged one. *)
Theorem merge_full_attention_faithful specs a f :
  merge specs = Ok (FullAttentionSpec a f) →
  ∀ s, s ∈ specs → attention s = Some a ∧ ∃ g, full_fields s = Some g ∧
    (full_sliding_window g = None ∨ full_sliding_window g = full_sliding_window f) ∧
    (full_attention_chunk_size g = None ∨
     full_attention_chunk_size g = full_attention_chunk_size f).
Proof.
  unfold merge. intros Hm. repeat case_match; simplify_eq; try done; try (by apply merge_full_ok);
    unfold make_mla, make_sliding_window_mla in *; repeat case_match; simplify_eq.
Qed.

Lemma merge_full_attention_faithful_witness :
  merge [FullAttentionSpec (attn16 64) (mkFull 64 None None);
         FullAttentionSpec (attn16 64) (mkFull 64 (Some 128) None)] =
    Ok (FullAttentionSpec (attn16 64) (mkFull 64 (Some 128) None)) ∧
  attention (FullAttentionSpec (attn16 64) (mkFull 64 None None)) = Some (attn16 64).
Proof.
  split; [vm_compute; reflexivity|].
  refine (proj1 (merge_full_attention_faithful
    [FullAttentionSpec (attn16 64) (mkFull 64 None None);
     FullAttentionSpec (attn16 64) (mkFull 64 (Some 128) None)] (attn16 64) (mkFull 64 (Some 128) None)
    _ (FullAttentionSpec (attn16 64) (mkFull 64 None None)) _)); [vm_compute; reflexivity|left].
Defined.

(** The uniformity test does not look at the head size of the values: two layers that
    differ only in it pass as uniform and are merged into the specification of the
    first, although their pages have different sizes. *)
Theorem uniform_test_ignores_value_heads :
  let wide := FullAttentionSpec (attn16 64) (mkFull 64 None None) in
  let narrow := FullAttentionSpec (attn16 64) (mkFull 32 None None) in
  is_kv_cache_spec_uniform [("a", narrow); ("b", wide)] = Ok true ∧
  merge [narrow; wide] = Ok narrow ∧
  page_size_bytes narrow = Ok 24576 ∧ page_size_bytes wide = Ok 32768.
Proof. vm_compute. done. Qed.

(** The per-request cap of chunked local attention bounds the blocks from the first that
    is not skipped to the last one allocated when a chunk is a whole number of blocks; and
    it does not when it is not: with chunks of 6 tokens and blocks of 4, a request
    with 11 tokens computed and 2 more scheduled holds 3 blocks, and the cap is 2. *)
Theorem chunked_local_peak bs chunk batched max_len c new :
  0 < bs → 0 < chunk → chunk mod bs = 0 → 0 ≤ c → 0 ≤ new ≤ batched → c + new ≤ max_len →
  cdiv (c + new) bs - (c / chunk * chunk) / bs ≤ chunked_admission_blocks bs chunk batched max_len ∧
  cdiv (11 + 2) 4 - (11 / 6 * 6) / 4 = 3 ∧ chunked_admission_blocks 4 6 2 1000 = 2.
Proof.
  intros Hb Hk Hmod Hc Hn Hmax. split; [|split; reflexivity].
  unfold chunked_admission_blocks. set (n := Z.min (chunk + batched) max_len).
  apply Z.mod_divide in Hmod as [k ->]; [|lia].
  set (q := c / (k * bs)). replace (q * (k * bs)) with ((q * k) * bs) by lia.
  rewrite Z.div_mul by lia.
  pose proof (cdiv_spec (c + new) bs Hb). pose proof (cdiv_spec n bs Hb).
  pose proof (Z.mul_div_le c (k * bs) Hk). pose proof (Z.mul_succ_div_gt c (k * bs) Hk).
  fold q in H1, H2. assert (0 ≤ q) by (apply Z.div_pos; lia).
  assert (c + new - q * k * bs ≤ n) by nia. nia.
Qed.

Lemma chunked_local_peak_witness :
  cdiv (13 + 4) 4 - (13 / 8 * 8) / 4 ≤ chunked_admission_blocks 4 8 4 100.
Proof. apply (chunked_local_peak 4 8 4 100 13 4); (lia || reflexivity). Defined.

Lemma lcm_list_divide l x : x ∈ l → (x | lcm_list l)%Z.
Proof.
  induction l as [|y l IH]; [by intros ?%not_elem_of_nil|]. intros [->|Hx]%elem_of_cons; simpl.
  - apply Z.divide_lcm_l.
  - etrans; [by apply IH|apply Z.divide_lcm_r].
Qed.

(** With several groups, the scheduler block size is a multiple of every group's block
    size; and unless the hash granularity was backed off to it, every group's block
    size is a multiple of the hash block size. *)
Theorem resolved_block_sizes kv cfg cc sbs hbs :
  1 < len (kv_cache_groups kv) → resolve_kv_cache_block_sizes kv cfg cc = Ok (sbs, hbs) →
  (∀ g, g ∈ kv_cache_groups kv → (block_size (kv_cache_spec g) | sbs)%Z) ∧
  (hbs = sbs ∨ ∀ g, g ∈ kv_cache_groups kv → (hbs | block_size (kv_cache_spec g))%Z).
Proof.
  intros Hl. unfold resolve_kv_cache_block_sizes. rewrite (proj2 (Z.leb_gt _ 1)) by done. simpl.
  set (sizes := _ <$> kv_cache_groups kv).
  assert (∀ g, g ∈ kv_cache_groups kv → block_size (kv_cache_spec g) ∈ sizes) as Hin.
  { intros g Hg. apply list_elem_of_fmap. by exists g. }
  intros Hr. repeat (case_match; simplify_eq/=);
    (split; [intros g Hg; by apply lcm_list_divide, Hin|]); try (by left); right; intros g Hg.
  all: match goal with H : existsb (λ bs, _) _ = false |- _ => rename H into Hex end.
  all: match goal with H : (_ =? 0) = false |- _ => apply Z.eqb_neq in H; rename H into Hne end.
  all: apply Z.mod_divide; [done|].
  all: match goal with |- ?x = 0 => destruct (Z.eqb_spec x 0) as [|Hm]; [done|exfalso] end.
  all: apply not_true_iff_false in Hex; apply Hex, existsb_exists.
  all: exists (block_size (kv_cache_spec g)); split; [by apply list_elem_of_In, Hin|].
  all: apply negb_true_iff, Z.eqb_neq; done.
Qed.

Definition hybrid_config : KVCacheConfig :=
  mkKVCacheConfig 100 [] [mkGroup ["a"] (FullAttentionSpec (attn16 64) (mkFull 64 None None)) false;
    mkGroup ["b"] (SlidingWindowSpec (mkAttention 24 8 64 bf16 NONE None) 128 64) false].

Lemma resolved_block_sizes_witness :
  resolve_kv_cache_block_sizes hybrid_config (mkVllmConfig 1000 1 1 64 MambaNone 0)
    (mkCacheConfig 16 true None false) = Ok (48, 8) ∧ (16 | 48)%Z.
Proof.
  split; [vm_compute; reflexivity|].
  refine (proj1 (resolved_block_sizes hybrid_config (mkVllmConfig 1000 1 1 64 MambaNone 0)
    (mkCacheConfig 16 true None false) 48 8 _ _)
    (mkGroup ["a"] (FullAttentionSpec (attn16 64) (mkFull 64 None None)) false) _);
    [reflexivity|vm_compute; reflexivity|left].
Defined.
