(* ===== verification/KVConfig.v ===== *)
(** * The plan of the KV cache

    vllm/v1/core/kv_cache_utils.py from [_check_enough_kv_cache_memory] on: the layers of a
    model are put into groups that share block tables, the memory of every worker is turned
    into a number of blocks and tensors, and the longest sequence that fits is found by
    bisection.  A [dict] is a list of pairs in insertion order; the specifications of layers
    are values (each layer has an object of its own).  The functions of the source that set
    [max_model_len] for a while take it from the configuration they are given. *)

From stdpp Require Import sorting.
From S2P Require Import Prelude KVSpec.

#[local] Open Scope Z_scope.

(** ** Results *)

#[global] Instance result_ret : MRet result := λ A a, Ok a.
#[global] Instance result_bind : MBind result := λ A B k r, match r with Ok a => k a | Raise e => Raise e end.

Fixpoint traverse {A B} (f : A → result B) (l : list A) : result (list B) :=
  match l with
  | [] => Ok []
  | x :: l => y ← f x; ys ← traverse f l; mret (y :: ys)
  end.
Definition guard_ (b : bool) (e : exn) : result unit := if b then Ok tt else Raise e.
Definition need {A} (e : exn) (o : option A) : result A := match o with Some a => Ok a | None => Raise e end.

(** [a // b], [a % b], [cdiv(a, b)] and [round_up(a, b)] *)
Definition floordiv (a b : Z) : result Z := if b =? 0 then Raise ZeroDivisionError else Ok (a / b).
Definition pymod (a b : Z) : result Z := if b =? 0 then Raise ZeroDivisionError else Ok (a mod b).
Definition cdiv_ (a b : Z) : result Z := if b =? 0 then Raise ZeroDivisionError else Ok (cdiv a b).
Definition round_up_ (a b : Z) : result Z := if b =? 0 then Raise ZeroDivisionError else Ok (round_up a b).

(** [max(...)] and [min(...)] of a sequence *)
Definition max_of (l : list Z) : result Z := match l with [] => Raise ValueError | x :: l => Ok (foldl Z.max x l) end.
Definition min_of (l : list Z) : result Z := match l with [] => Raise ValueError | x :: l => Ok (foldl Z.min x l) end.

(** [layers[i::n]] *)
Definition stride {A} (i n : nat) (l : list A) : list A :=
  snd <$> filter (λ p : nat * A, (i ≤ p.1)%nat ∧ Nat.modulo (p.1 - i) n = 0%nat) (imap pair l).

(** [d[k].append(v)] on a [defaultdict(list)] *)
Fixpoint push_at {K} `{EqDecision K} {A} (k : K) (v : A) (d : list (K * list A)) : list (K * list A) :=
  match d with
  | [] => [(k, [v])]
  | (k', l) :: d => if decide (k' = k) then (k', l ++ [v]) :: d else (k', l) :: push_at k v d
  end.
(** [d.get(k)] *)
Fixpoint find_at {K} `{EqDecision K} {A} (k : K) (d : list (K * A)) : option A :=
  match d with
  | [] => None
  | (k', v) :: d => if decide (k' = k) then Some v else find_at k d
  end.

Abbreviation layer_specs := (list (string * KVCacheSpec)).

(** ** Groups *)

(** The specification of a group: of one layer for all, or of each layer. *)
Inductive GroupSpec := Layer (s : KVCacheSpec) | Uniform (u : UniformTypeKVCacheSpecs).
Record LayerGroup := mkLayerGroup {
  lg_layer_names : list string;
  lg_spec : GroupSpec;
  lg_is_eagle_group : bool
}.
Record WorkerConfig := mkWorkerConfig {
  wc_num_blocks : Z;
  wc_kv_cache_tensors : list KVCacheTensor;
  wc_kv_cache_groups : list LayerGroup
}.

Definition group_block_size (g : GroupSpec) : Z := match g with Layer s => block_size s | Uniform u => uniform_block_size u end.
Definition group_page_size_bytes (g : GroupSpec) : result Z :=
  match g with Layer s => page_size_bytes s | Uniform u => uniform_page_size_bytes u end.
Definition group_max_memory_usage_bytes (cfg : VllmConfig) (g : GroupSpec) : result Z :=
  match g with Layer s => max_memory_usage_bytes s cfg | Uniform u => uniform_max_memory_usage_bytes u cfg end.
Definition as_uniform (g : LayerGroup) : option UniformTypeKVCacheSpecs :=
  match lg_spec g with Uniform u => Some u | Layer _ => None end.
Definition is_uniform_group (g : LayerGroup) : bool := bool_decide (is_Some (as_uniform g)).

(** The settings the plan is made for. *)
Record PlanConfig := mkPlanConfig {
  pc_vllm : VllmConfig;
  num_gpu_blocks_override : option Z;
  disable_hybrid_kv_cache_manager : bool;
  spec_use_eagle : bool;
  original_max_model_len : Z
}.
Definition with_max_model_len (n : Z) (c : VllmConfig) : VllmConfig :=
  mkVllmConfig n (decode_context_parallel_size c) (prefill_context_parallel_size c) (cfg_max_num_batched_tokens c)
    (cfg_mamba_cache_mode c) (max_num_encoder_input_tokens c).

(** ** Utilities of [UniformTypeKVCacheSpecs] *)

(** [list(set(...))]; no caller depends on the order. *)
Definition page_sizes_of (l : list KVCacheSpec) : result (list Z) :=
  sizes ← traverse page_size_bytes l; mret (remove_dups sizes).
Definition get_page_sizes (u : UniformTypeKVCacheSpecs) : result (list Z) := page_sizes_of (kv_cache_specs u).*2.

(** [Counter(...).most_common(1)[0][1]] *)
Definition get_num_layer_tuples (u : UniformTypeKVCacheSpecs) : result Z :=
  sizes ← traverse page_size_bytes (kv_cache_specs u).*2;
  match sizes with
  | [] => Raise IndexError
  | _ => max_of ((λ p, len (filter (λ p', p' = p) sizes)) <$> sizes)
  end.

(** ** Is the memory enough? *)

Definition sum_max_memory_usage_bytes (cfg : VllmConfig) (specs : list KVCacheSpec) : result Z :=
  sum_results ((λ s, max_memory_usage_bytes s cfg) <$> specs).

(** The loop of the bisection: the largest length found so far, between [left] and [right]. *)
Fixpoint bisect (fits : Z → result bool) (fuel : nat) (left right best : Z) : result Z :=
  match fuel with
  | O => Raise OutOfFuel
  | S fuel =>
      if left <=? right then
        let mid := (left + right) / 2 in
        b ← fits mid;
        if b : bool then bisect fits fuel (mid + 1) right mid else bisect fits fuel left (mid - 1) best
      else mret best
  end.
Definition longest_that_fits (fits : Z → result bool) (original_max : Z) : result Z :=
  b ← fits 1;
  if negb b then mret 0 else bisect fits (S (Z.to_nat original_max)) 1 original_max 1.

Definition estimate_max_model_len (cfg : VllmConfig) (kv_cache_spec : layer_specs) (available_memory : Z) : result Z :=
  longest_that_fits (λ model_len,
    m ← sum_max_memory_usage_bytes (with_max_model_len model_len cfg) kv_cache_spec.*2;
    mret (m <=? available_memory)) (cfg_max_model_len cfg).

Definition _check_enough_kv_cache_memory (available_memory : Z) (get_needed_memory : result Z)
    (estimate : Z → result Z) : result unit :=
  if available_memory <=? 0 then Raise ValueError
  else
    needed_memory ← get_needed_memory;
    if available_memory <? needed_memory then
      _ ← estimate available_memory; Raise ValueError
    else mret tt.

Definition check_enough_kv_cache_memory (cfg : VllmConfig) (kv_cache_spec : layer_specs) (available_memory : Z) : result unit :=
  match kv_cache_spec with
  | [] => mret tt
  | _ =>
      _check_enough_kv_cache_memory available_memory (sum_max_memory_usage_bytes cfg kv_cache_spec.*2)
        (estimate_max_model_len cfg kv_cache_spec)
  end.

(** ** Layers into groups *)

Definition create_group (kv_cache_spec : layer_specs) (layer_names : list string) : result LayerGroup :=
  specs ← traverse (λ n, need KeyError (find_at n kv_cache_spec)) layer_names;
  merged ← merge specs;
  mret (mkLayerGroup layer_names (Layer merged) false).
Definition create_kv_cache_group_specs (kv_cache_spec : layer_specs) (grouped_layer_names : list (list string)) :
    result (list LayerGroup) := traverse (create_group kv_cache_spec) grouped_layer_names.

Definition may_override_num_blocks (c : PlanConfig) (num_blocks : Z) : Z := default num_blocks (num_gpu_blocks_override c).

Definition get_uniform_page_size (specs : list GroupSpec) : result Z :=
  sizes ← traverse group_page_size_bytes specs;
  need AssertionError (singleton_set sizes).

Definition layers_per_group (groups : list LayerGroup) : result Z := max_of ((λ g, len (lg_layer_names g)) <$> groups).

(** All groups hold a specification per layer (DeepseekV4): the bytes of a layer tuple and
    the number of tuples. *)
Definition tuple_layout (groups : list LayerGroup) : result (Z * Z) :=
  match groups with
  | [] => Raise IndexError
  | g :: _ =>
      u ← need AttributeError (as_uniform g);
      sizes ← get_page_sizes u;
      tuples ← traverse (λ g, u ← need AttributeError (as_uniform g); get_num_layer_tuples u) groups;
      n ← max_of tuples;
      mret (sumZ sizes, n)
  end.

Definition _pool_bytes_per_block (kv_cache_groups : list LayerGroup) : result Z :=
  match kv_cache_groups with
  | [mkLayerGroup _ (Uniform u) _] => uniform_page_size_bytes u
  | _ =>
      if forallb is_uniform_group kv_cache_groups then
        '(bytes, n) ← tuple_layout kv_cache_groups; mret (bytes * n)
      else
        group_size ← layers_per_group kv_cache_groups;
        page_size ← get_uniform_page_size (lg_spec <$> kv_cache_groups);
        mret (page_size * group_size)
  end.

Definition get_num_blocks (c : PlanConfig) (num_layers available_memory page_size : Z) : result Z :=
  n ← floordiv available_memory page_size;
  n ← floordiv n num_layers;
  mret (may_override_num_blocks c (Z.max n 0)).

Definition _get_kv_cache_groups_uniform_spec (kv_cache_specs : layer_specs) : result (list LayerGroup) :=
  create_kv_cache_group_specs kv_cache_specs [kv_cache_specs.*1].
Definition _get_kv_cache_groups_uniform_type (spec : UniformTypeKVCacheSpecs) : list LayerGroup :=
  [mkLayerGroup (kv_cache_specs spec).*1 (Uniform spec) false].

Definition is_kv_cache_page_size_uniform (kv_cache_spec : layer_specs) : result bool :=
  sizes ← page_sizes_of kv_cache_spec.*2; mret (len sizes =? 1).

Definition unify_page_size_of (max_page_size : Z) (p : string * KVCacheSpec) : result (string * KVCacheSpec) :=
  let '(layer_name, layer_spec) := p in
  layer_page_size ← page_size_bytes layer_spec;
  if layer_page_size =? max_page_size then mret (layer_name, layer_spec)
  else
    rest ← pymod max_page_size layer_page_size;
    if negb (rest =? 0) then Raise NotImplementedError
    else
      let ratio := max_page_size / layer_page_size in
      new_spec ← copy_with_new_block_size layer_spec (block_size layer_spec * ratio);
      new_page ← page_size_bytes new_spec;
      _ ← guard_ (new_page =? max_page_size) AssertionError;
      mret (layer_name, new_spec).
Definition unify_kv_cache_spec_page_size (kv_cache_spec : layer_specs) : result layer_specs :=
  page_sizes ← page_sizes_of kv_cache_spec.*2;
  if len page_sizes <=? 1 then mret kv_cache_spec
  else
    max_page_size ← max_of page_sizes;
    traverse (unify_page_size_of max_page_size) kv_cache_spec.

(** ** Groups of one page size *)

Definition same_type_layers (kv_cache_spec : layer_specs) : list (KVCacheSpec * list string) :=
  foldl (λ d p, push_at p.2 p.1 d) [] kv_cache_spec.

(** The larger count, if it is less than half as large again as the smaller one. *)
Definition layers_in_group (counts : list Z) : result Z :=
  min_num_layers ← min_of counts;
  max_num_layers ← max_of counts;
  mret (if 2 * max_num_layers <? 3 * min_num_layers then max_num_layers else min_num_layers).

Definition split_layers {A} (group_size : Z) (layers : list A) : result (list (list A)) :=
  num_groups ← cdiv_ (len layers) group_size;
  mret ((λ i, stride i (Z.to_nat num_groups) layers) <$> seq 0 (Z.to_nat num_groups)).

Definition _get_kv_cache_groups_uniform_page_size (kv_cache_spec : layer_specs) : result (list LayerGroup) :=
  let same_type := (same_type_layers kv_cache_spec).*2 in
  group_size ← layers_in_group (len <$> same_type);
  grouped_layers ← traverse (split_layers group_size) same_type;
  create_kv_cache_group_specs kv_cache_spec (concat grouped_layers).

(** ** The tensors of a worker *)

(** The layers of a group by the size of their pages. *)
Definition layer_page (u : UniformTypeKVCacheSpecs) (layer_name : string) : result (Z * string) :=
  spec ← need KeyError (find_at layer_name (kv_cache_specs u));
  page ← page_size_bytes spec;
  mret (page, layer_name).
Definition bucketed (g : LayerGroup) : result (list (Z * list string)) :=
  u ← need AssertionError (as_uniform g);
  pages ← traverse (layer_page u) (lg_layer_names g);
  mret (foldl (λ b p, push_at p.1 p.2 b) [] pages).

(** The tensor of the [i]-th layers of the buckets of one page size. *)
Definition bucket_tensor (buckets : list (list (Z * list string))) (num_blocks : Z) (i : nat) (page : Z) : KVCacheTensor :=
  mkTensor (page * num_blocks) (omap (λ b, bucket ← find_at page b; bucket !! i) buckets).

Definition _get_kv_cache_config_deepseek_v4 (c : PlanConfig) (kv_cache_groups : list LayerGroup) (available_memory : Z) :
    result (Z * list KVCacheTensor) :=
  match kv_cache_groups with
  | [] => Raise IndexError
  | g :: _ =>
      full_mla_spec ← need AssertionError (as_uniform g);
      sizes ← get_page_sizes full_mla_spec;
      let page_sizes := merge_sort Z.le sizes in
      buckets ← traverse bucketed kv_cache_groups;
      num_layer_tuples ← max_of (b ← buckets; (λ p, len p.2) <$> b);
      n ← floordiv available_memory (sumZ page_sizes * num_layer_tuples);
      let num_blocks := may_override_num_blocks c n in
      mret (num_blocks,
        i ← seq 0 (Z.to_nat num_layer_tuples); bucket_tensor buckets num_blocks i <$> page_sizes)
  end.

(** The tensor of the [i]-th layers of the groups. *)
Definition pool_tensor (groups : list LayerGroup) (size : Z) (i : nat) : KVCacheTensor :=
  mkTensor size (omap (λ g, lg_layer_names g !! i) groups).

Definition get_kv_cache_config_from_groups (c : PlanConfig) (kv_cache_groups : list LayerGroup) (available_memory : Z) :
    result WorkerConfig :=
  match kv_cache_groups with
  | [] => mret (mkWorkerConfig 1 [] [])
  | [mkLayerGroup layer_names (Uniform u) _] =>
      bytes ← uniform_page_size_bytes u;
      n ← floordiv available_memory bytes;
      let num_blocks := may_override_num_blocks c n in
      pages ← traverse (layer_page u) layer_names;
      mret (mkWorkerConfig num_blocks ((λ p, mkTensor (p.1 * num_blocks) [p.2]) <$> pages) kv_cache_groups)
  | _ =>
      if forallb is_uniform_group kv_cache_groups then
        '(num_blocks, kv_cache_tensors) ← _get_kv_cache_config_deepseek_v4 c kv_cache_groups available_memory;
        mret (mkWorkerConfig num_blocks kv_cache_tensors kv_cache_groups)
      else
        group_size ← layers_per_group kv_cache_groups;
        page_size ← get_uniform_page_size (lg_spec <$> kv_cache_groups);
        _ ← guard_ (0 <? group_size) AssertionError;
        num_blocks ← get_num_blocks c group_size available_memory page_size;
        mret (mkWorkerConfig num_blocks
          (pool_tensor kv_cache_groups (page_size * num_blocks) <$> seq 0 (Z.to_nat group_size)) kv_cache_groups)
  end.

(** ** One type for all layers *)

Definition is_uniform (kv_cache_spec : layer_specs) : result bool :=
  b ← is_kv_cache_spec_uniform kv_cache_spec;
  if b : bool then mret true else is_uniform_type kv_cache_spec.

(** The full-attention specification that stands for a windowed layer; what the code does
    not pass on takes its default. *)
Definition converted (a : AttentionSpec) (n : Z) : AttentionSpec :=
  mkAttention n (num_kv_heads a) (head_size a) (attn_dtype a) NONE (page_size_padded a).
Definition as_full_attention (uniform_block_size : option Z) (s : KVCacheSpec) : KVCacheSpec :=
  match s with
  | SlidingWindowMLASpec a _ m => make_mla (converted a (default (attn_block_size a) uniform_block_size)) None None None m
  | SlidingWindowSpec a w _ => make_full (converted a (attn_block_size a)) None (Some w) None
  | ChunkedLocalAttentionSpec a chunk => make_full (converted a (attn_block_size a)) None None (Some chunk)
  | _ => s
  end.

Definition unify_hybrid_kv_cache_specs (kv_cache_spec : layer_specs) : result layer_specs :=
  done ← is_uniform kv_cache_spec;
  if done : bool then mret kv_cache_spec
  else
    let specs := kv_cache_spec.*2 in
    let has_full_attention := existsb is_full_attention specs in
    let has_sliding_window := existsb is_sliding_window specs in
    let has_chunked_local_attention := existsb is_chunked_local specs in
    let has_swa_mla := existsb is_sliding_window_mla specs in
    _ ← guard_ (negb has_swa_mla || has_full_attention) AssertionError;
    let uniform_block_size := if has_swa_mla then block_size <$> head (filter (λ s, is_full_attention s) specs) else None in
    let kv_cache_spec :=
      if has_full_attention && (has_sliding_window || has_chunked_local_attention)
      then prod_map id (as_full_attention uniform_block_size) <$> kv_cache_spec else kv_cache_spec in
    ok ← is_uniform kv_cache_spec;
    if ok : bool then mret kv_cache_spec else Raise ValueError.

(** ** Groups with a specification for each layer *)

Definition uniform_of (specs : layer_specs) : result UniformTypeKVCacheSpecs :=
  u ← from_specs specs; need AssertionError u.

Definition swa_mla_key (s : KVCacheSpec) : option (Z * Z) :=
  match s with SlidingWindowMLASpec a w _ => Some (attn_block_size a, w) | _ => None end.
Definition grouped_swa_mla_specs (kv_cache_spec : layer_specs) : list (Z * Z * layer_specs) :=
  foldl (λ d p, match swa_mla_key p.2 with Some k => push_at k p d | None => d end) [] kv_cache_spec.

Definition group_and_unify_kv_cache_specs (kv_cache_spec : layer_specs) : result (option (list UniformTypeKVCacheSpecs)) :=
  if negb (existsb is_sliding_window_mla kv_cache_spec.*2) then mret None
  else
    let mla_specs := filter (λ p, is_mla p.2) kv_cache_spec in
    _ ← guard_ (negb (bool_decide (mla_specs = []))) AssertionError;
    mla_uniform_spec ← uniform_of mla_specs;
    swa_uniform_specs ← traverse uniform_of (grouped_swa_mla_specs kv_cache_spec).*2;
    mret (Some (mla_uniform_spec :: swa_uniform_specs)).

(** The loop of [_approximate_gcd], from the divisor [d] on for [n] divisors. *)
Definition padding_of (values : list Z) (d : Z) : Z := sumZ ((λ x, (d - x mod d) mod d) <$> values).
Fixpoint best_divisor (values : list Z) (n : nat) (d best_d : Z) (best_pad : option Z) : Z :=
  match n with
  | O => best_d
  | S n =>
      let pad := padding_of values d in
      if match best_pad with
         | None => true
         | Some best => (pad <? best) || ((pad =? best) && (best_d <? d))
         end
      then best_divisor values n (d + 1) d (Some pad)
      else best_divisor values n (d + 1) best_d best_pad
  end.
Definition _approximate_gcd (values : list Z) (lower_bound : option Z) : result Z :=
  match values with
  | [] => Raise ValueError
  | _ =>
      if existsb (λ x, x <=? 0) values then Raise ValueError
      else
        let min_d := Z.max 1 (default 1 lower_bound) in
        max_d ← max_of values;
        if max_d <? min_d then mret min_d
        else mret (best_divisor values (Z.to_nat (max_d + 1 - min_d)) min_d min_d None)
  end.

(** [zip] of any number of lists *)
Definition zip_star {A} (ls : list (list A)) : list (list A) :=
  match ls with
  | [] => []
  | l :: ls' => (λ i, omap (λ l, l !! i) ls) <$> seq 0 (foldr (λ l n, Nat.min (length l) n) (length l) ls')
  end.

(** [object.__setattr__(layer_spec, "page_size_padded", candidate)] *)
Definition pad_page (candidate : Z) (s : KVCacheSpec) : KVCacheSpec :=
  match s with SlidingWindowMLASpec a w m => SlidingWindowMLASpec (set_page_size_padded (Some candidate) a) w m | _ => s end.

(** The nearest page size that is no smaller, and the layer padded to it. *)
Definition pad_layer (all_page_sizes : list Z) (p : string * KVCacheSpec) : result (Z * (string * KVCacheSpec)) :=
  current_size ← page_size_bytes p.2;
  candidate ← min_of (filter (λ x, current_size <= x) all_page_sizes);
  mret (candidate, (p.1, if current_size <? candidate then pad_page candidate p.2 else p.2)).

Definition split_swa_group (all_page_sizes : list Z) (num_layer_tuples : Z) (sm_spec : UniformTypeKVCacheSpecs) :
    result (list LayerGroup) :=
  sm_page_sizes ← get_page_sizes sm_spec;
  sm_max ← max_of sm_page_sizes;
  all_max ← max_of all_page_sizes;
  _ ← guard_ (sm_max <=? all_max) AssertionError;
  layers ← traverse (pad_layer all_page_sizes) (kv_cache_specs sm_spec);
  let layers_per_size := (foldl (λ d p, push_at p.1 p.2 d) [] layers).*2 in
  num_layers_per_size ← need AssertionError (singleton_set (len <$> layers_per_size));
  num_tuple_groups ← cdiv_ num_layers_per_size num_layer_tuples;
  let layer_tuples := zip_star layers_per_size in
  traverse (λ i,
    let group_layer_specs := concat (stride i (Z.to_nat num_tuple_groups) layer_tuples) in
    sub_sm_spec ← uniform_of group_layer_specs;
    mret (mkLayerGroup group_layer_specs.*1 (Uniform sub_sm_spec) false)) (seq 0 (Z.to_nat num_tuple_groups)).

Definition _get_kv_cache_groups_uniform_groups (grouped_specs : list UniformTypeKVCacheSpecs) : result (list LayerGroup) :=
  match grouped_specs with
  | [] => Raise AssertionError
  | full_mla_spec :: swa_mla_specs =>
      _ ← guard_ (forallb is_mla (kv_cache_specs full_mla_spec).*2) AssertionError;
      num_layer_tuples_per_group ← traverse get_num_layer_tuples grouped_specs;
      num_layer_tuples ← _approximate_gcd num_layer_tuples_per_group (head num_layer_tuples_per_group);
      _ ← traverse (λ x, round_up_ x num_layer_tuples) num_layer_tuples_per_group;
      _ ← guard_ (forallb (λ u, forallb is_sliding_window_mla (kv_cache_specs u).*2) swa_mla_specs) AssertionError;
      all_page_sizes ← get_page_sizes full_mla_spec;
      swa_mla_groups ← traverse (split_swa_group all_page_sizes num_layer_tuples) swa_mla_specs;
      mret (mkLayerGroup (kv_cache_specs full_mla_spec).*1 (Uniform full_mla_spec) false :: concat swa_mla_groups)
  end.

(** The first group that holds the last layer is that of the draft model. *)
Fixpoint mark_eagle_group (last_layer : string) (groups : list LayerGroup) : list LayerGroup :=
  match groups with
  | [] => []
  | g :: groups =>
      if bool_decide (last_layer ∈ lg_layer_names g)
      then mkLayerGroup (lg_layer_names g) (lg_spec g) true :: groups
      else g :: mark_eagle_group last_layer groups
  end.
Definition is_deepseek_v4 (s : KVCacheSpec) : bool := bool_decide ((mla_fields s ≫= model_version) = Some "deepseek_v4"%string).
Definition _annotate_eagle_groups_deepseek_v4 (c : PlanConfig) (kv_cache_spec : layer_specs) (groups : list LayerGroup) :
    list LayerGroup :=
  if negb (spec_use_eagle c) then groups
  else if negb (existsb is_deepseek_v4 kv_cache_spec.*2) then groups
  else match last kv_cache_spec with Some (n, _) => mark_eagle_group n groups | None => groups end.

Definition is_kv_cache_type_attention_free (kv_cache_spec : layer_specs) : bool := bool_decide (kv_cache_spec = []).

Definition get_kv_cache_groups (c : PlanConfig) (kv_cache_spec : layer_specs) : result (list LayerGroup) :=
  kv_cache_spec ← (if disable_hybrid_kv_cache_manager c then unify_hybrid_kv_cache_specs kv_cache_spec else mret kv_cache_spec);
  if is_kv_cache_type_attention_free kv_cache_spec then mret []
  else
    same ← is_kv_cache_spec_uniform kv_cache_spec;
    if same : bool then _get_kv_cache_groups_uniform_spec kv_cache_spec
    else
      uniform_spec ← from_specs kv_cache_spec;
      match uniform_spec with
      | Some u => mret (_get_kv_cache_groups_uniform_type u)
      | None =>
          grouped_specs ← group_and_unify_kv_cache_specs kv_cache_spec;
          match grouped_specs with
          | Some us =>
              groups ← _get_kv_cache_groups_uniform_groups us;
              mret (_annotate_eagle_groups_deepseek_v4 c kv_cache_spec groups)
          | None =>
              kv_cache_spec ← unify_kv_cache_spec_page_size kv_cache_spec;
              _get_kv_cache_groups_uniform_page_size kv_cache_spec
          end
      end.

(** ** The plan of all workers *)

Definition get_max_concurrency_for_kv_cache_config (cfg : VllmConfig) (w : WorkerConfig) : result (Z * Z) :=
  num_layer_per_group ← layers_per_group (wc_kv_cache_groups w);
  usage ← sum_results (group_max_memory_usage_bytes cfg ∘ lg_spec <$> wc_kv_cache_groups w);
  g ← need IndexError (head (wc_kv_cache_groups w));
  page ← group_page_size_bytes (lg_spec g);
  num_block_per_request ← cdiv_ (num_layer_per_group * usage) (page * num_layer_per_group);
  if num_block_per_request =? 0 then Raise ZeroDivisionError else mret (wc_num_blocks w, num_block_per_request).

(** The number of tokens that is logged, [int(max_concurrency * max_model_len)], with the
    quotient of the concurrency kept exact. *)
Definition _report_kv_cache_config (cfg : VllmConfig) (w : WorkerConfig) : result Z :=
  '(blocks, per_request) ← get_max_concurrency_for_kv_cache_config cfg w;
  mret (Z.quot (blocks * cfg_max_model_len cfg) per_request).

Definition _max_memory_usage_bytes_from_groups (cfg : VllmConfig) (kv_cache_groups : list LayerGroup) : result Z :=
  match kv_cache_groups with
  | [] => mret 0
  | [mkLayerGroup _ (Uniform u) _] => sum_max_memory_usage_bytes cfg (kv_cache_specs u).*2
  | _ =>
      if forallb is_uniform_group kv_cache_groups then
        '(layer_tuple_bytes, num_layer_tuples) ← tuple_layout kv_cache_groups;
        pages ← traverse (λ g, u ← need AttributeError (as_uniform g); max_memory_usage_pages u cfg) kv_cache_groups;
        mret (sumZ ((λ n, num_layer_tuples * n * layer_tuple_bytes) <$> pages))
      else
        group_size ← layers_per_group kv_cache_groups;
        page_size ← get_uniform_page_size (lg_spec <$> kv_cache_groups);
        blocks_needed ← traverse (λ g, m ← group_max_memory_usage_bytes cfg (lg_spec g); cdiv_ m page_size) kv_cache_groups;
        mret (group_size * page_size * sumZ blocks_needed)
  end.

Definition _estimate_max_model_len_from_groups (cfg : VllmConfig) (kv_cache_groups : list LayerGroup) (available_memory : Z) :
    result Z :=
  longest_that_fits (λ model_len,
    m ← _max_memory_usage_bytes_from_groups (with_max_model_len model_len cfg) kv_cache_groups;
    mret (m <=? available_memory)) (cfg_max_model_len cfg).

(** The loop over the workers. *)
Fixpoint auto_fit_workers (cfg : VllmConfig) (workers : list (list LayerGroup * Z)) (auto_fit_max : Z) : result Z :=
  match workers with
  | [] => mret auto_fit_max
  | ([], _) :: workers => auto_fit_workers cfg workers auto_fit_max
  | (groups, avail_mem) :: workers =>
      worker_max ← _estimate_max_model_len_from_groups cfg groups avail_mem;
      auto_fit_workers cfg workers (if worker_max <? auto_fit_max then worker_max else auto_fit_max)
  end.
Definition _auto_fit_max_model_len (cfg : VllmConfig) (projected : list (list LayerGroup)) (available_memory : list Z) :
    result VllmConfig :=
  let original_max := cfg_max_model_len cfg in
  if forallb (λ groups, bool_decide (groups = [])) projected then mret cfg
  else
    _ ← need IndexError (head available_memory);
    auto_fit_max ← auto_fit_workers cfg (zip projected available_memory) original_max;
    if auto_fit_max <=? 0 then Raise ValueError
    else mret (if original_max <=? auto_fit_max then cfg else with_max_model_len auto_fit_max cfg).

Definition project_group (worker_spec : layer_specs) (g : LayerGroup) : result LayerGroup :=
  let worker_layer_names := filter (λ n, n ∈ worker_spec.*1) (lg_layer_names g) in
  let some := negb (bool_decide (worker_layer_names = [])) in
  spec ←
    (match lg_spec g with
     | Uniform u =>
         if some then
           specs ← traverse (λ n, s ← need KeyError (find_at n (kv_cache_specs u)); mret (n, s)) worker_layer_names;
           mret (Uniform (mkUniform (uniform_block_size u) specs))
         else mret (Uniform u)
     | Layer s => mret (Layer s)
     end);
  mret (mkLayerGroup worker_layer_names spec (lg_is_eagle_group g && some)).
Definition _project_kv_cache_groups_to_worker (global_kv_cache_groups : list LayerGroup) (worker_spec : layer_specs) :
    result (list LayerGroup) := traverse (project_group worker_spec) global_kv_cache_groups.

(** The specifications of all workers in one dictionary. *)
Fixpoint merge_layer_specs (todo merged : layer_specs) : result layer_specs :=
  match todo with
  | [] => mret merged
  | (layer_name, layer_spec) :: todo =>
      match find_at layer_name merged with
      | None => merge_layer_specs todo (merged ++ [(layer_name, layer_spec)])
      | Some s => _ ← guard_ (bool_decide (s = layer_spec)) AssertionError; merge_layer_specs todo merged
      end
  end.
Definition merge_worker_specs (kv_cache_specs : list layer_specs) : result layer_specs :=
  merge_layer_specs (concat kv_cache_specs) [].

(** [num_gpu_blocks_override] decides the memory, not the profile. *)
Definition overridden_memory (override : Z) (w : list LayerGroup * Z) : result Z :=
  let '(groups, avail_mem) := w in
  match groups with
  | [] => mret avail_mem
  | _ =>
      bytes_per_block ← _pool_bytes_per_block groups;
      _ ← floordiv avail_mem bytes_per_block;
      mret (override * bytes_per_block)
  end.
Definition effective_memory (c : PlanConfig) (projected : list (list LayerGroup)) (available_memory : list Z) : result (list Z) :=
  match num_gpu_blocks_override c with
  | None => mret available_memory
  | Some override => traverse (overridden_memory override) (zip projected available_memory)
  end.

Definition check_worker (cfg : VllmConfig) (w : list LayerGroup * Z) : result unit :=
  let '(groups, avail_mem) := w in
  match groups with
  | [] => mret tt
  | _ => _check_enough_kv_cache_memory avail_mem (_max_memory_usage_bytes_from_groups cfg groups)
           (_estimate_max_model_len_from_groups cfg groups)
  end.

Definition plan_worker (c : PlanConfig) (w : list LayerGroup * layer_specs * Z) : result WorkerConfig :=
  let '(groups, worker_spec, avail_mem) := w in
  _ ← guard_ (sumZ ((λ g, len (lg_layer_names g)) <$> groups) =? len worker_spec) AssertionError;
  get_kv_cache_config_from_groups c groups avail_mem.

Definition shrink_tensor (num_blocks_old min_num_blocks : Z) (t : KVCacheTensor) : result KVCacheTensor :=
  rest ← pymod (tensor_size t) num_blocks_old;
  _ ← guard_ (rest =? 0) AssertionError;
  mret (mkTensor (tensor_size t / num_blocks_old * min_num_blocks) (shared_by t)).
Definition shrink_worker (cfg : VllmConfig) (min_num_blocks : Z) (w : WorkerConfig) : result WorkerConfig :=
  tensors ← traverse (shrink_tensor (wc_num_blocks w) min_num_blocks) (wc_kv_cache_tensors w);
  let w := mkWorkerConfig min_num_blocks tensors (wc_kv_cache_groups w) in
  match wc_kv_cache_groups w with
  | [] => mret w
  | _ => _ ← _report_kv_cache_config cfg w; mret w
  end.

(** The configurations of the workers, and the settings with the length that was chosen. *)
Definition get_kv_cache_configs (c : PlanConfig) (kv_cache_specs : list layer_specs) (available_memory : list Z) :
    result (list WorkerConfig * VllmConfig) :=
  merged_kv_cache_specs ← merge_worker_specs kv_cache_specs;
  global_kv_cache_groups ← get_kv_cache_groups c merged_kv_cache_specs;
  projected ← traverse (_project_kv_cache_groups_to_worker global_kv_cache_groups) kv_cache_specs;
  available_memory ← effective_memory c projected available_memory;
  cfg ← (if original_max_model_len c =? -1 then _auto_fit_max_model_len (pc_vllm c) projected available_memory
         else mret (pc_vllm c));
  _ ← traverse (check_worker cfg) (zip projected available_memory);
  configs ← traverse (plan_worker c) (zip (zip projected kv_cache_specs) available_memory);
  min_num_blocks ← min_of (wc_num_blocks <$> configs);
  configs ← traverse (shrink_worker cfg min_num_blocks) configs;
  mret (configs, cfg).

(** The configuration the scheduler is given: that of the first worker, with one
    specification for each group. *)
Definition scheduler_group (g : LayerGroup) : result KVCacheGroupSpec :=
  s ← (match lg_spec g with
       | Layer s => mret s
       | Uniform u => need StopIteration (head (KVSpec.kv_cache_specs u).*2)
       end);
  mret (mkGroup (lg_layer_names g) s (lg_is_eagle_group g)).
Definition generate_scheduler_kv_cache_config (kv_cache_configs : list WorkerConfig) : result KVCacheConfig :=
  match kv_cache_configs with
  | [] => Raise IndexError
  | cfg :: _ =>
      _ ← guard_ (forallb (λ w, wc_num_blocks w =? wc_num_blocks cfg) kv_cache_configs) AssertionError;
      groups ← traverse scheduler_group (wc_kv_cache_groups cfg);
      mret (mkKVCacheConfig (wc_num_blocks cfg) (wc_kv_cache_tensors cfg) groups)
  end.

(** ** Lemmas on results and dictionaries *)

Lemma bind_Ok {A B} (m : result A) (k : A → result B) b : m ≫= k = Ok b ↔ ∃ a, m = Ok a ∧ k a = Ok b.
Proof. unfold mbind, result_bind. destruct m as [a|e]; naive_solver. Qed.
Lemma guard_Ok b e u : guard_ b e = Ok u ↔ b = true.
Proof. destruct b, u; naive_solver. Qed.
Lemma need_Ok {A} e (o : option A) a : need e o = Ok a ↔ o = Some a.
Proof. destruct o; naive_solver. Qed.
Lemma floordiv_Ok a b q : floordiv a b = Ok q ↔ b ≠ 0 ∧ q = a / b.
Proof. unfold floordiv. destruct (Z.eqb_spec b 0); naive_solver. Qed.
Lemma pymod_Ok a b q : pymod a b = Ok q ↔ b ≠ 0 ∧ q = a mod b.
Proof. unfold pymod. destruct (Z.eqb_spec b 0); naive_solver. Qed.
Lemma cdiv_Ok a b q : cdiv_ a b = Ok q ↔ b ≠ 0 ∧ q = cdiv a b.
Proof. unfold cdiv_. destruct (Z.eqb_spec b 0); naive_solver. Qed.

Lemma traverse_Ok {A B} (f : A → result B) l k : traverse f l = Ok k ↔ Forall2 (λ x y, f x = Ok y) l k.
Proof.
  revert k. induction l as [|x l IH]; intros k; simpl.
  - split; [intros [= <-]; constructor|by inversion 1].
  - rewrite bind_Ok. setoid_rewrite bind_Ok. setoid_rewrite IH. split.
    + intros (y & Hy & ys & Hys & [= <-]). by constructor.
    + inversion 1; subst. eauto 6.
Qed.

(** Takes a run without an exception apart. *)
Ltac result_inv H :=
  lazymatch type of H with
  | _ ≫= _ = Ok _ => apply bind_Ok in H; destruct H as (? & ? & H); result_inv H
  | mret _ = Ok _ => injection H; clear H; intros; subst
  | Ok _ = Ok _ => injection H; clear H; intros; subst
  | Raise _ = Ok _ => discriminate H
  | guard_ _ _ = Ok _ => apply guard_Ok in H
  | need _ _ = Ok _ => apply need_Ok in H
  | floordiv _ _ = Ok _ => apply floordiv_Ok in H; destruct H as [? ?]
  | pymod _ _ = Ok _ => apply pymod_Ok in H; destruct H as [? ?]
  | cdiv_ _ _ = Ok _ => apply cdiv_Ok in H; destruct H as [? ?]
  | traverse _ _ = Ok _ => apply traverse_Ok in H
  | _ => idtac
  end.
Ltac results := repeat match goal with
  | H : _ = Ok _ |- _ => progress result_inv H
  end.

Lemma foldl_max x l : x ≤ foldl Z.max x l ∧ (∀ y, y ∈ l → y ≤ foldl Z.max x l) ∧ (foldl Z.max x l = x ∨ foldl Z.max x l ∈ l).
Proof.
  revert x. induction l as [|z l IH]; intros x; simpl; [repeat split; [lia|by intros ? ?%elem_of_nil|by left]|].
  destruct (IH (Z.max x z)) as (H1 & H2 & H3). split; [lia|]. split.
  - intros y [->|Hy]%elem_of_cons; [lia|auto].
  - rewrite elem_of_cons. destruct H3 as [H3|H3]; [|auto]. destruct (Z.max_spec x z) as [[_ E]|[_ E]]; rewrite E in *; auto.
Qed.
Lemma max_of_Ok l m : max_of l = Ok m ↔ m ∈ l ∧ ∀ y, y ∈ l → y ≤ m.
Proof.
  destruct l as [|x l]; simpl; [split; [done|]; by intros [?%elem_of_nil _]|].
  destruct (foldl_max x l) as (H1 & H2 & H3). split.
  - intros [= <-]. split; [rewrite elem_of_cons; naive_solver|]. intros y [->|Hy]%elem_of_cons; auto.
  - intros [Hm Hle]. f_equal. apply Z.le_antisymm.
    + apply Hle. rewrite elem_of_cons. naive_solver.
    + apply elem_of_cons in Hm as [->|Hm]; auto.
Qed.
Lemma min_as_max x l : foldl Z.min x l = - foldl Z.max (- x) (Z.opp <$> l).
Proof. revert x. induction l as [|y l IH]; intros x; simpl; [lia|]. rewrite IH. by replace (- Z.min x y) with (Z.max (- x) (- y)) by lia. Qed.
Lemma min_of_Ok l m : min_of l = Ok m ↔ m ∈ l ∧ ∀ y, y ∈ l → m ≤ y.
Proof.
  assert (min_of l = Ok m ↔ max_of (Z.opp <$> l) = Ok (- m)) as ->.
  { destruct l as [|x l]; [done|]. rewrite fmap_cons. unfold min_of, max_of. rewrite min_as_max.
    split; intros [= E]; f_equal; lia. }
  rewrite max_of_Ok. split; intros [H1 H2].
  - apply list_elem_of_fmap in H1 as (z & Hz & H1). assert (m = z) as -> by lia. split; [done|].
    intros y Hy. assert (- y ≤ - z); [|lia]. apply H2, list_elem_of_fmap. eauto.
  - split; [apply list_elem_of_fmap; eauto|]. intros y (z & -> & Hz)%list_elem_of_fmap. specialize (H2 z Hz). lia.
Qed.
