(* ===== verification/KVGroups.v ===== *)
(** * The groups of layers

    [get_kv_cache_groups] of KVConfig.v: every layer is in at most one group, a group that
    keeps a specification for each layer has those of its layers, all of one type, and the
    pages of all groups have the sizes of the first. *)

From stdpp Require Import sorting.
From S2P Require Import Prelude KVSpec KVConfig.

#[local] Open Scope Z_scope.

(** ** Dictionaries and partitions *)

Section Dicts.
Context {K A : Type} `{EqDecision K}.
Implicit Types (k : K) (v : A) (d : list (K * list A)) (l : list (K * A)).

Lemma find_at_elem {V} k (x : V) (d : list (K * V)) : find_at k d = Some x → (k, x) ∈ d.
Proof. induction d as [|[k' y] d IH]; simpl; [done|]. rewrite elem_of_cons. case_decide; naive_solver. Qed.
Lemma find_at_unique {V} k (x : V) (d : list (K * V)) : NoDup d.*1 → (k, x) ∈ d → find_at k d = Some x.
Proof.
  induction d as [|[k' y] d IH]; simpl; [by intros _ ?%elem_of_nil|].
  intros [Hk Hd]%NoDup_cons [[= -> ->]|Hin]%elem_of_cons; [by rewrite decide_True|].
  rewrite decide_False; [auto|]. intros ->. apply Hk, list_elem_of_fmap. by exists (k, x).
Qed.
Lemma find_at_none {V} k (d : list (K * V)) : k ∉ d.*1 → find_at k d = None.
Proof. induction d as [|[k' y] d IH]; simpl; [done|]. rewrite not_elem_of_cons. intros [? ?]. rewrite decide_False; auto. Qed.

Lemma push_at_perm k v d : concat (push_at k v d).*2 ≡ₚ concat d.*2 ++ [v].
Proof.
  induction d as [|[k' x] d IH]; simpl; [done|]. case_decide; simpl.
  - rewrite <-!(assoc_L (++)). f_equiv. by rewrite (Permutation_app_comm [v]).
  - by rewrite IH, (assoc_L (++)).
Qed.
Lemma push_at_keys k v d k' : k' ∈ (push_at k v d).*1 ↔ k' = k ∨ k' ∈ d.*1.
Proof. induction d as [|[k0 x] d IH]; simpl; [set_solver|]. case_decide; set_solver. Qed.
Lemma push_at_nodup k v d : NoDup d.*1 → NoDup (push_at k v d).*1.
Proof.
  induction d as [|[k0 x] d IH]; simpl; [intros; apply NoDup_singleton|]. intros [Hk Hd]%NoDup_cons.
  case_decide; simpl; apply NoDup_cons; [done|]. rewrite push_at_keys. split; [naive_solver|auto].
Qed.
Lemma push_at_elem k v d k' b : (k', b) ∈ push_at k v d → ∀ x, x ∈ b → (k' = k ∧ x = v) ∨ ∃ b', (k', b') ∈ d ∧ x ∈ b'.
Proof.
  induction d as [|[k0 b0] d IH]; simpl.
  - intros H%list_elem_of_singleton x Hx. simplify_eq. apply list_elem_of_singleton in Hx. auto.
  - case_decide; subst.
    + intros [[= -> ->]|Hd]%elem_of_cons x Hx.
      * apply elem_of_app in Hx as [Hx|Hx%list_elem_of_singleton]; [|auto]. right. exists b0. split; [left|done].
      * right. exists b. split; [by right|done].
    + intros [[= -> ->]|Hd]%elem_of_cons x Hx.
      * right. exists b0. split; [left|done].
      * destruct (IH Hd x Hx) as [?|(b' & ? & ?)]; [auto|]. right. exists b'. split; [by right|done].
Qed.

(** All pairs of a list, by their keys. *)
Definition buckets_of l : list (K * list A) := foldl (λ b p, push_at p.1 p.2 b) [] l.

Lemma buckets_of_app l p : buckets_of (l ++ [p]) = push_at p.1 p.2 (buckets_of l).
Proof. unfold buckets_of. by rewrite foldl_app. Qed.
Lemma buckets_perm l : concat (buckets_of l).*2 ≡ₚ l.*2.
Proof. induction l as [|p l IH] using rev_ind; [done|]. by rewrite buckets_of_app, push_at_perm, IH, fmap_app. Qed.
Lemma buckets_nodup l : NoDup (buckets_of l).*1.
Proof. induction l as [|p l IH] using rev_ind; [constructor|]. rewrite buckets_of_app. by apply push_at_nodup. Qed.
Lemma buckets_elem l k b x : (k, b) ∈ buckets_of l → x ∈ b → (k, x) ∈ l.
Proof.
  revert b. induction l as [|[k0 v] l IH] using rev_ind; intros b; [by intros ?%elem_of_nil|].
  rewrite buckets_of_app. intros Hb Hx. rewrite elem_of_app, list_elem_of_singleton.
  destruct (push_at_elem _ _ _ _ _ Hb x Hx) as [[-> ->]|(b' & Hb' & Hx')]; [by right|left; eauto].
Qed.
Lemma buckets_keys l k : k ∈ (buckets_of l).*1 → k ∈ l.*1.
Proof.
  induction l as [|p l IH] using rev_ind; [done|]. rewrite buckets_of_app, push_at_keys, fmap_app, elem_of_app.
  intros [->|?]; [|auto]. right. by left.
Qed.
End Dicts.

Section Partition.
Context {A : Type}.
Implicit Types (l : list A) (rows : list (list A)).

(** Elements by a number below [n]. *)
Lemma class_filter (f : A → nat) l n : concat ((λ i, filter (λ x, f x = i) l) <$> seq 0 n) ≡ₚ filter (λ x, (f x < n)%nat) l.
Proof.
  induction n as [|n IH]; [simpl; by rewrite filter_drop by (intros; lia)|].
  rewrite seq_S, fmap_app, concat_app, IH. simpl. rewrite app_nil_r.
  rewrite <-(filter_app_complement (λ x, (f x < n)%nat) (filter (λ x, (f x < S n)%nat) l)).
  rewrite !list_filter_filter. f_equiv; apply reflexive_eq, list_filter_iff; intros x; lia.
Qed.
Lemma class_partition (f : A → nat) l n : (∀ x, x ∈ l → (f x < n)%nat) →
  concat ((λ i, filter (λ x, f x = i) l) <$> seq 0 n) ≡ₚ l.
Proof. intros Hf. rewrite class_filter. by rewrite filter_keep. Qed.

Lemma concat_fmap {B} (g : A → B) (ls : list (list A)) : concat ((λ l, g <$> l) <$> ls) = g <$> concat ls.
Proof. induction ls as [|l ls IH]; [done|]. rewrite fmap_cons. simpl. by rewrite IH, fmap_app. Qed.

Lemma concat_zip_app {I} (f g : I → list A) (ks : list I) :
  concat ((λ i, f i ++ g i) <$> ks) ≡ₚ concat (f <$> ks) ++ concat (g <$> ks).
Proof.
  induction ks as [|i ks IH]; [done|]. rewrite !fmap_cons. simpl. rewrite IH, <-!(assoc_L (++)). f_equiv.
  by rewrite (assoc_L (++)), (Permutation_app_comm (g i)), <-(assoc_L (++)).
Qed.
Lemma concat_nils {I} (ks : list I) : concat ((λ _, @nil A) <$> ks) = [].
Proof. by induction ks. Qed.
Lemma concat_swap {I J} (f : I → J → list A) (is_ : list I) (js : list J) :
  concat ((λ i, concat (f i <$> js)) <$> is_) ≡ₚ concat ((λ j, concat ((λ i, f i j) <$> is_)) <$> js).
Proof.
  induction js as [|j js IH]; [simpl; by rewrite concat_nils|]. rewrite !fmap_cons. simpl. by rewrite concat_zip_app, IH.
Qed.
End Partition.

Section Stride.
Context {A : Type}.
Implicit Types (l : list A) (rows : list (list A)).

Lemma stride_filter i n l : (i < n)%nat → stride i n l = snd <$> filter (λ p : nat * A, Nat.modulo p.1 n = i) (imap pair l).
Proof.
  intros Hi. unfold stride. f_equal. apply list_filter_iff. intros [j x]. simpl. split.
  - intros [Hle Hm]. replace j with (i + (j - i))%nat by lia. apply Nat.Div0.mod_divides in Hm as [q ->].
    rewrite Nat.mul_comm, Nat.Div0.mod_add. by apply Nat.mod_small.
  - intros <-. pose proof (Nat.Div0.div_mod j n). split; [lia|].
    replace (j - j mod n)%nat with (j / n * n)%nat by lia. apply Nat.Div0.mod_mul.
Qed.

Lemma snd_imap l : snd <$> imap pair l = l.
Proof. rewrite fmap_imap. apply list_eq. intros i. rewrite list_lookup_imap. by destruct (l !! i). Qed.

(** [layers[i::n]] for all [i] below [n] are all layers. *)
Lemma stride_partition n l : (0 < n)%nat → concat ((λ i, stride i n l) <$> seq 0 n) ≡ₚ l.
Proof.
  intros Hn. etrans; [|apply reflexive_eq, snd_imap].
  rewrite <-(class_partition (λ p : nat * A, Nat.modulo p.1 n) (imap pair l) n) by (intros; apply Nat.mod_upper_bound; lia).
  rewrite <-concat_fmap, <-list_fmap_compose. apply reflexive_eq. f_equal. apply list_fmap_ext.
  intros k i [-> Hi]%lookup_seq. by apply stride_filter.
Qed.

(** The columns of a table of rows are its rows. *)
Lemma concat_lookups l n : (length l ≤ n)%nat → concat ((λ i, option_list (l !! i)) <$> seq 0 n) = l.
Proof.
  revert n. induction l as [|x l IH]; intros n Hn; simpl in Hn.
  - clear. generalize 0%nat as k. induction n as [|n IH]; intros k; [done|]. simpl. apply IH.
  - destruct n as [|n]; [lia|]. simpl. f_equal. rewrite <-fmap_S_seq, <-list_fmap_compose. apply IH. lia.
Qed.
Lemma columns_perm rows n : (∀ l, l ∈ rows → (length l ≤ n)%nat) →
  concat ((λ i, omap (λ l, l !! i) rows) <$> seq 0 n) ≡ₚ concat rows.
Proof.
  induction rows as [|l rows IH]; intros Hn.
  { rewrite (list_fmap_ext _ (λ i, option_list (@nil A !! i))) by done. by rewrite concat_lookups by (simpl; lia). }
  rewrite (list_fmap_ext _ (λ i, option_list (l !! i) ++ omap (λ l, l !! i) rows)) by (intros; simpl; by destruct (l !! _)).
  rewrite concat_zip_app, concat_lookups, IH by set_solver. done.
Qed.
Lemma zip_star_perm rows n : rows ≠ [] → (∀ l, l ∈ rows → length l = n) → concat (zip_star rows) ≡ₚ concat rows.
Proof.
  intros Hne Hn. destruct rows as [|l rows]; [done|]. unfold zip_star.
  assert (foldr (λ l m, Nat.min (length l) m) (length l) rows = n) as ->.
  { rewrite (Hn l) by left. clear Hne. induction rows as [|l' rows IH]; [done|]. simpl. rewrite IH by set_solver. rewrite Hn by set_solver. lia. }
  apply columns_perm. intros. by rewrite Hn.
Qed.
End Stride.

(** ** Every layer in one group *)

Abbreviation names groups := (concat (lg_layer_names <$> groups)).

(** A group with a specification for each layer has those of its layers, of one type. *)
Definition group_ok (g : LayerGroup) : Prop :=
  match lg_spec g with
  | Layer _ => True
  | Uniform u => (kv_cache_specs u).*1 = lg_layer_names g ∧ is_uniform_type (kv_cache_specs u) = Ok true
  end.

(** The sizes of the pages of the first group are those of all groups. *)
Definition aligned (groups : list LayerGroup) : Prop :=
  ∀ g u sizes, head groups = Some g → as_uniform g = Some u → get_page_sizes u = Ok sizes →
  ∀ g' u' n s, g' ∈ groups → as_uniform g' = Some u' → (n, s) ∈ kv_cache_specs u' → ∃ page, page_size_bytes s = Ok page ∧ page ∈ sizes.

(** All groups have one specification, or all have one for each layer. *)
Definition of_one_form (groups : list LayerGroup) : Prop := ∃ b, Forall (λ g, is_uniform_group g = b) groups.

Definition groups_ok (groups : list LayerGroup) : Prop := Forall group_ok groups ∧ aligned groups ∧ of_one_form groups.

Lemma create_groups_names specs layers groups : create_kv_cache_group_specs specs layers = Ok groups →
  lg_layer_names <$> groups = layers ∧ Forall (λ g, ∃ s, lg_spec g = Layer s) groups.
Proof.
  unfold create_kv_cache_group_specs. intros H. results.
  induction H as [|l g layers groups Hg _ [IH1 IH2]]; [done|]. unfold create_group in Hg. results. rewrite fmap_cons. split; [by f_equal|].
  constructor; [by eexists|done].
Qed.
Lemma layer_groups_ok groups : Forall (λ g, ∃ s, lg_spec g = Layer s) groups → groups_ok groups.
Proof.
  intros H. split; [eapply Forall_impl; [exact H|]; intros g [s Hs]; unfold group_ok; by rewrite Hs|].
  split; [|exists false; eapply Forall_impl; [exact H|]; intros g [s Hs]; unfold is_uniform_group, as_uniform; by rewrite Hs].
  intros g u sizes Hg Hu. destruct H as [|g0 groups [s Hs]]; [done|]. injection Hg as ->. unfold as_uniform in Hu. by rewrite Hs in Hu.
Qed.

Lemma from_specs_ok specs u : from_specs specs = Ok (Some u) → kv_cache_specs u = specs ∧ is_uniform_type specs = Ok true.
Proof. unfold from_specs. destruct (is_uniform_type specs) as [[]|]; destruct specs as [|[]]; naive_solver. Qed.
Lemma uniform_of_ok specs u : uniform_of specs = Ok u → kv_cache_specs u = specs ∧ is_uniform_type specs = Ok true.
Proof. unfold uniform_of. intros H. results. subst. by apply from_specs_ok. Qed.

Lemma unify_hybrid_names specs specs' : unify_hybrid_kv_cache_specs specs = Ok specs' → specs'.*1 = specs.*1.
Proof.
  unfold unify_hybrid_kv_cache_specs. intros H. results. case_match; results; [done|]. case_match; results.
  case_match; [|done]. rewrite <-list_fmap_compose. by apply list_fmap_ext.
Qed.
Lemma unify_page_names specs specs' : unify_kv_cache_spec_page_size specs = Ok specs' → specs'.*1 = specs.*1.
Proof.
  unfold unify_kv_cache_spec_page_size. intros H. results. case_match; results; [done|]. result_inv H.
  clear -H. induction H as [|[n s] p specs specs' Hp _ IH]; [done|]. rewrite !fmap_cons, IH. f_equal.
  unfold unify_page_size_of in Hp. results. case_match; results; [done|]. case_match; results. done.
Qed.

Lemma stride_sub {A} n (l : list A) : concat ((λ i, stride i n l) <$> seq 0 n) ⊆+ l.
Proof. destruct n as [|n]; [apply submseteq_nil_l|]. by rewrite stride_partition by lia. Qed.
Lemma split_layers_sub {A} n (l : list A) ls : split_layers n l = Ok ls → concat ls ⊆+ l.
Proof. unfold split_layers. intros H. results. apply stride_sub. Qed.
Lemma concat_sub {A B} (P : B → list (list A) → Prop) (f : B → list A) (ls : list B) (lss : list (list (list A))) :
  (∀ l k, P l k → concat k ⊆+ f l) → Forall2 P ls lss → concat (concat lss) ⊆+ concat (f <$> ls).
Proof.
  intros HP. induction 1 as [|l k ls lss Hk _ IH]; [done|]. rewrite fmap_cons. simpl. rewrite concat_app.
  apply submseteq_app; auto.
Qed.

Lemma same_type_layers_buckets specs : same_type_layers specs = buckets_of ((λ p, (p.2, p.1)) <$> specs).
Proof. unfold same_type_layers, buckets_of. by rewrite foldl_fmap. Qed.

Lemma page_size_groups specs groups : _get_kv_cache_groups_uniform_page_size specs = Ok groups →
  names groups ⊆+ specs.*1 ∧ groups_ok groups.
Proof.
  unfold _get_kv_cache_groups_uniform_page_size. rewrite same_type_layers_buckets. intros H. results.
  apply create_groups_names in H as [-> Hl]. split; [|by apply layer_groups_ok].
  etrans; [refine (concat_sub _ id _ _ _ H1); intros l k; apply split_layers_sub|].
  rewrite list_fmap_id, buckets_perm, <-list_fmap_compose. done.
Qed.

(** *** Layers that each have a specification *)

Lemma grouped_swa_perm specs : concat (grouped_swa_mla_specs specs).*2 ≡ₚ filter (λ p, is_sliding_window_mla p.2) specs.
Proof.
  unfold grouped_swa_mla_specs. induction specs as [|[n s] specs IH] using rev_ind; [done|].
  rewrite foldl_app, filter_app, <-IH. simpl. destruct s; simpl; rewrite ?app_nil_r; try done. by rewrite push_at_perm.
Qed.

Lemma disjoint_filters {A} (P Q : A → Prop) `{!∀ x, Decision (P x), !∀ x, Decision (Q x)} l :
  (∀ x, P x → Q x → False) → filter P l ++ filter Q l ⊆+ l.
Proof.
  intros HPQ. rewrite <-(filter_app_complement P l) at 3. apply submseteq_app; [done|].
  rewrite <-(list_filter_filter_l Q (λ x, ¬ P x)) by (intros x Hq Hp; eauto). apply sublist_submseteq, sublist_filter.
Qed.

Lemma grouped_specs_ok specs us : group_and_unify_kv_cache_specs specs = Ok (Some us) →
  concat (kv_cache_specs <$> us) ⊆+ specs ∧ Forall (λ u, is_uniform_type (kv_cache_specs u) = Ok true) us.
Proof.
  unfold group_and_unify_kv_cache_specs. intros H. case_match; results; [done|].
  rename select (uniform_of _ = _) into Hm. rename select (Forall2 _ _ _) into Hs. apply uniform_of_ok in Hm as [Hm Hm'].
  assert (kv_cache_specs <$> x1 = (grouped_swa_mla_specs specs).*2 ∧ Forall (λ u, is_uniform_type (kv_cache_specs u) = Ok true) x1) as [E Hu].
  { clear -Hs. induction Hs as [|l u ls us Hu%uniform_of_ok _ [IH1 IH2]]; [done|]. destruct Hu as [Hu Ht]. rewrite fmap_cons, IH1, Hu.
    split; [done|]. constructor; [by rewrite Hu|done]. }
  rewrite fmap_cons. simpl. rewrite E, Hm, grouped_swa_perm. split; [|constructor; [by rewrite Hm|done]].
  apply disjoint_filters. intros [n s]. by destruct s.
Qed.


Lemma pad_layer_ok sizes p q : is_sliding_window_mla p.2 = true → pad_layer sizes p = Ok q →
  q.2.1 = p.1 ∧ is_sliding_window_mla q.2.2 = true ∧ page_size_bytes q.2.2 = Ok q.1 ∧ q.1 ∈ sizes.
Proof.
  destruct p as [n s]. unfold pad_layer. simpl. intros Hs H. results. simpl.
  rename select (page_size_bytes s = _) into Hp. rename select (min_of _ = _) into Hm.
  apply min_of_Ok in Hm as [[Hle Hin]%list_elem_of_filter _]. split; [done|]. case_match eqn:Hlt; [|apply Z.ltb_ge in Hlt; assert (x0 = x) as -> by lia; done].
  apply Z.ltb_lt in Hlt. destruct s as [| | | | | |a w m| | |]; try done. split; [done|]. split; [|done].
  unfold page_size_bytes in *. simpl in *. destruct (swa_mla_page a m) as [r|] eqn:Hr; [|done].
  replace (swa_mla_page (set_page_size_padded (Some x0) a) m) with (swa_mla_page a m) by done. rewrite Hr. simpl.
  unfold padded in *. rewrite (proj2 (Z.leb_le _ _)); [done|]. destruct (page_size_padded a); [|injection Hp; lia].
  case_match eqn:Hle'; [|done]. apply Z.leb_le in Hle'. injection Hp. lia.
Qed.

Lemma concat_concat {A} (l : list (list (list A))) : concat ((λ x, concat x) <$> l) = concat (concat l).
Proof. induction l as [|x l IH]; [done|]. rewrite fmap_cons. simpl. by rewrite concat_app, IH. Qed.
Lemma elem_of_concat {A} x (ls : list (list A)) : x ∈ concat ls ↔ ∃ l, x ∈ l ∧ l ∈ ls.
Proof. induction ls as [|l ls IH]; simpl; [set_solver|]. rewrite elem_of_app, IH. set_solver. Qed.
Lemma concat_submseteq {A} (l k : list (list A)) : l ⊆+ k → concat l ⊆+ concat k.
Proof.
  intros [l' ->]%submseteq_Permutation. rewrite concat_app. apply submseteq_inserts_r. done.
Qed.

Lemma singleton_set_elem `{EqDecision A} (l : list A) x : singleton_set l = Some x → x ∈ l ∧ ∀ y, y ∈ l → y = x.
Proof.
  unfold singleton_set. intros H. assert (remove_dups l = [x]) as E by (by destruct (remove_dups l) as [|? []]; simplify_eq).
  setoid_rewrite <-elem_of_remove_dups. rewrite E. set_solver.
Qed.
Lemma forallb_elem {A} (f : A → bool) l x : forallb f l = true → x ∈ l → f x = true.
Proof. rewrite forallb_forall. intros H Hx. by apply H, list_elem_of_In. Qed.

Lemma pad_layers_ok sizes specs layers :
  forallb is_sliding_window_mla specs.*2 = true → Forall2 (λ p q, pad_layer sizes p = Ok q) specs layers →
  layers.*2.*1 = specs.*1 ∧ ∀ p, p ∈ layers → page_size_bytes p.2.2 = Ok p.1 ∧ p.1 ∈ sizes.
Proof.
  intros Hswa. induction 1 as [|p q ps qs Hq _ IH]; [split; [done|by intros ? ?%elem_of_nil]|].
  simpl in Hswa. apply andb_prop in Hswa as [Hp Hswa]. destruct (pad_layer_ok _ _ _ Hp Hq) as (Hn & _ & ? & ?).
  destruct (IH Hswa) as [IH1 IH2]. rewrite !fmap_cons, IH1, Hn. split; [done|]. intros p' [->|?]%elem_of_cons; auto.
Qed.

(** The columns of the buckets, dealt out to [k] groups. *)
Definition dealt {A} (k i : nat) (buckets : list (list A)) : list A := concat (stride i k (zip_star buckets)).
Lemma dealt_sub {A} k (buckets : list (list A)) n : singleton_set (len <$> buckets) = Some n →
  concat ((λ i, dealt k i buckets) <$> seq 0 k) ⊆+ concat buckets.
Proof.
  intros [Hx Hlen]%singleton_set_elem. rewrite <-(zip_star_perm buckets (Z.to_nat n)).
  - change ((λ i, dealt k i buckets) <$> seq 0 k) with ((λ x, concat x) ∘ (λ i, stride i k (zip_star buckets)) <$> seq 0 k).
    rewrite list_fmap_compose, concat_concat. apply concat_submseteq, stride_sub.
  - intros ->. by apply elem_of_nil in Hx.
  - intros l Hl. rewrite <-(Hlen (len l)) by (apply list_elem_of_fmap; eauto). unfold len. lia.
Qed.

(** The layers of a group, padded, in buckets of one size, column by column. *)
Lemma split_swa_ok sizes n u groups :
  forallb is_sliding_window_mla (kv_cache_specs u).*2 = true → split_swa_group sizes n u = Ok groups →
  names groups ⊆+ (kv_cache_specs u).*1 ∧ Forall group_ok groups ∧
  Forall (λ g, ∃ u', as_uniform g = Some u' ∧ ∀ l s, (l, s) ∈ kv_cache_specs u' → ∃ page, page_size_bytes s = Ok page ∧ page ∈ sizes) groups.
Proof.
  intros Hswa H. unfold split_swa_group in H. results.
  rename select (Forall2 (λ x y, pad_layer _ _ = _) _ _) into Hpad. rename select (singleton_set _ = _) into Hlen.
  fold (buckets_of x3) in *. clear -Hswa Hpad Hlen H. rename x3 into layers. set (k := Z.to_nat x5) in *.
  destruct (pad_layers_ok _ _ _ Hswa Hpad) as [Hkeys Hpages].
  pose proof (dealt_sub k _ _ Hlen) as Hsub. rewrite buckets_perm in Hsub. set (specs i := dealt k i (buckets_of layers).*2) in *.
  assert (Forall2 (λ i g, ∃ u', uniform_of (specs i) = Ok u' ∧ g = mkLayerGroup (specs i).*1 (Uniform u') false) (seq 0 k) groups) as Hg.
  { eapply Forall2_impl; [exact H|]. intros i g Hi. cbv beta in Hi. results. eauto. }
  clear H. split; [|split].
  - rewrite <-Hkeys. etrans; [|apply (fmap_submseteq fst), Hsub]. rewrite <-concat_fmap, <-list_fmap_compose. apply reflexive_eq. clear -Hg. f_equal.
    induction Hg as [|i g ks gs (u' & Hu & ->) _ IH]; [done|]. by rewrite !fmap_cons, IH.
  - eapply Forall2_Forall_r; [exact Hg|]. apply Forall_true. intros i g (u' & [Hu Ht]%uniform_of_ok & ->).
    unfold group_ok. simpl. by rewrite Hu.
  - eapply Forall2_Forall_r; [exact Hg|]. apply Forall_forall. intros i Hi g (u' & [Hu Ht]%uniform_of_ok & ->).
    exists u'. split; [done|]. rewrite Hu. intros l s Hls.
    assert ((l, s) ∈ layers.*2) as Hin.
    { eapply elem_of_submseteq; [|exact Hsub]. rewrite elem_of_concat. exists (specs i). split; [done|]. apply list_elem_of_fmap. eauto. }
    apply list_elem_of_fmap in Hin as ([c p] & E & Hp). simpl in E. subst p. destruct (Hpages _ Hp) as [? ?]. simpl in *. eauto.
Qed.

Lemma page_sizes_ok l sizes : page_sizes_of l = Ok sizes →
  NoDup sizes ∧ ∀ s, s ∈ l → ∃ page, page_size_bytes s = Ok page ∧ page ∈ sizes.
Proof.
  unfold page_sizes_of. intros H. results. split; [apply NoDup_remove_dups|]. intros s Hs.
  rename select (Forall2 _ _ _) into Hf. eapply list_elem_of_lookup in Hs as [i Hi].
  destruct (Forall2_lookup_l _ _ _ _ _ Hf Hi) as (page & Hp & E). exists page. split; [done|].
  apply elem_of_remove_dups. by eapply list_elem_of_lookup_2.
Qed.

Lemma uniform_groups_ok us groups :
  Forall (λ u, is_uniform_type (kv_cache_specs u) = Ok true) us → _get_kv_cache_groups_uniform_groups us = Ok groups →
  names groups ⊆+ (concat (kv_cache_specs <$> us)).*1 ∧ groups_ok groups.
Proof.
  intros Hu H. destruct us as [|u us]; [done|]. simpl in H. results.
  rename select (forallb (λ u, _) us = true) into Hswa. rename select (get_page_sizes u = _) into Hsizes.
  rename select (Forall2 (λ x y, split_swa_group _ _ _ = _) _ _) into Hsplit. apply Forall_cons in Hu as [Hu _].
  assert (names (concat x5) ⊆+ (concat (kv_cache_specs <$> us)).*1 ∧ Forall group_ok (concat x5) ∧
    Forall (λ g, ∃ u', as_uniform g = Some u' ∧ ∀ l s, (l, s) ∈ kv_cache_specs u' → ∃ page, page_size_bytes s = Ok page ∧ page ∈ x4) (concat x5))
    as (Hn & Hg & Hp).
  { clear -Hsplit Hswa. induction Hsplit as [|u gs us gss Hgs _ IH]; [repeat split; [done|constructor..]|].
    simpl in Hswa. apply andb_prop in Hswa as [Hs Hswa]. destruct (IH Hswa) as (? & ? & ?).
    destruct (split_swa_ok _ _ _ _ Hs Hgs) as (? & ? & ?). simpl. rewrite !fmap_app, concat_app.
    split; [by apply submseteq_app|]. by rewrite !Forall_app. }
  rewrite !fmap_cons. simpl. rewrite fmap_app. split; [by apply submseteq_app|]. split; [by constructor|]. split; cycle 1.
  { exists true. constructor; [done|]. eapply Forall_impl; [exact Hp|]. intros g (u' & Hu' & _). unfold is_uniform_group. by rewrite Hu'. }
  intros g u0 sizes [= <-] [= <-] Hsz g' u' n s [->|Hg']%elem_of_cons Hu' Hin.
  - injection Hu' as <-. apply page_sizes_ok in Hsz as [_ Hsz]. apply Hsz, list_elem_of_fmap. by exists (n, s).
  - rewrite Forall_forall in Hp. destruct (Hp _ Hg') as (u1 & E & Hp'). rewrite Hsizes in Hsz. simplify_eq. eauto.
Qed.

Lemma mark_eagle_same n groups :
  lg_layer_names <$> mark_eagle_group n groups = lg_layer_names <$> groups ∧
  lg_spec <$> mark_eagle_group n groups = lg_spec <$> groups ∧
  (Forall group_ok groups → Forall group_ok (mark_eagle_group n groups)).
Proof.
  induction groups as [|g groups (IH1 & IH2 & IH3)]; simpl; [done|]. rewrite !Forall_cons.
  case_match; rewrite !fmap_cons, ?Forall_cons, ?IH1, ?IH2; naive_solver.
Qed.
Lemma aligned_same groups groups' : lg_spec <$> groups' = lg_spec <$> groups → aligned groups → aligned groups'.
Proof.
  intros E Ha g u sizes Hg Hu Hs g' u' n s Hg' Hu' Hin.
  destruct groups' as [|g0 groups']; [done|]. injection Hg as ->. destruct groups as [|g0 groups]; [done|].
  assert (∃ g1, g1 ∈ g0 :: groups ∧ lg_spec g1 = lg_spec g') as (g1 & Hg1 & E1).
  { assert (lg_spec g' ∈ lg_spec <$> g0 :: groups) as (g1 & ? & ?)%list_elem_of_fmap; [|by exists g1].
    rewrite <-E. apply list_elem_of_fmap. eauto. }
  rewrite !fmap_cons in E. injection E as E0 _. unfold as_uniform in Hu, Hu'.
  eapply (Ha g0 u sizes) with g1 u' n; unfold as_uniform; rewrite ?E1, <-?E0; done.
Qed.

Lemma one_form_same groups groups' b : lg_spec <$> groups' = lg_spec <$> groups →
  Forall (λ g, is_uniform_group g = b) groups → Forall (λ g, is_uniform_group g = b) groups'.
Proof.
  rewrite !Forall_forall. intros E Hb g' Hg'. assert (lg_spec g' ∈ lg_spec <$> groups) as (g & Eg & Hg)%list_elem_of_fmap.
  { rewrite <-E. apply list_elem_of_fmap. eauto. }
  rewrite <-(Hb _ Hg). unfold is_uniform_group, as_uniform. by rewrite Eg.
Qed.

Lemma get_kv_cache_groups_ok c specs groups : get_kv_cache_groups c specs = Ok groups →
  names groups ⊆+ specs.*1 ∧ groups_ok groups.
Proof.
  unfold get_kv_cache_groups, is_kv_cache_type_attention_free. intros H. apply bind_Ok in H as (specs' & Hs & H).
  assert (specs'.*1 = specs.*1) as <-.
  { destruct (disable_hybrid_kv_cache_manager c); [by eapply unify_hybrid_names|by results]. }
  clear Hs. case_bool_decide; results; [by split; [apply submseteq_nil_l|apply layer_groups_ok]|].
  case_match; [apply create_groups_names in H as [-> Hl]; simpl; rewrite app_nil_r; split; [done|by apply layer_groups_ok]|].
  results. case_match; results.
  - rename select (from_specs _ = _) into Hf. apply from_specs_ok in Hf as [Hf Ht]. simpl. rewrite app_nil_r, Hf. split; [done|].
    split; [constructor; [unfold group_ok; simpl; by rewrite Hf|constructor]|].
    split; [|by exists true; constructor].
    intros g u0 sizes [= <-] [= <-] Hsz g' u' n s ->%list_elem_of_singleton [= <-] Hin.
    apply page_sizes_ok in Hsz as [_ Hsz]. apply Hsz, list_elem_of_fmap. by exists (n, s).
  - case_match; results.
    + rename select (group_and_unify_kv_cache_specs _ = _) into Hg. apply grouped_specs_ok in Hg as [Hsub Hu].
      rename select (_get_kv_cache_groups_uniform_groups _ = _) into Hg. apply uniform_groups_ok in Hg as (Hn & Hg); [|done].
      unfold _annotate_eagle_groups_deepseek_v4. apply (fmap_submseteq fst) in Hsub. rewrite Hsub in Hn.
      repeat case_match; try done. destruct (mark_eagle_same s x2) as (En & Es & Hok).
      rewrite En. split; [done|]. destruct Hg as (Hg & Ha & b & Hb). split; [auto|]. split; [by eapply aligned_same|].
      exists b. by eapply one_form_same.
    + rename select (unify_kv_cache_spec_page_size _ = _) into Hp. apply unify_page_names in Hp as <-. by apply page_size_groups.
Qed.
