(* ===== verification/KVPlan.v ===== *)
(** * The memory of the layers

    The plan of the KV cache (KVConfig.v) gives every layer of a worker exactly one place in
    its tensors, of the size of its pages, apart from the other layers of its group; the
    tensors fit the memory and hold the blocks that a request of the greatest length needs. *)

From stdpp Require Import sorting.
From S2P Require Import Prelude KVSpec KVConfig KVGroups.

#[local] Open Scope Z_scope.

(** ** The tensors of a worker *)

(** The page that a group gives to one of its layers.  The layers of a group with one
    specification all have its page, that of the merged specification (the workers lay a
    layer out by the specification of its group), which is the page of the layer's own
    specification unless merging has lost a field of it; a uniform group has a page per
    layer. *)
Definition page_of (g : LayerGroup) (layer : string) : result Z :=
  match lg_spec g with
  | Layer s => page_size_bytes s
  | Uniform u => p ← layer_page u layer; mret p.1
  end.

(** Every layer is in one tensor, which holds [num_blocks] of its pages and no other layer of
    its group: layers of a group have the same block table. *)
Record tensors_ok (groups : list LayerGroup) (num_blocks : Z) (tensors : list KVCacheTensor) : Prop := {
  to_cover : aligned groups → concat (shared_by <$> tensors) ≡ₚ names groups;
  to_sized t g layer : t ∈ tensors → g ∈ groups → layer ∈ lg_layer_names g → layer ∈ shared_by t →
    ∃ page, page_of g layer = Ok page ∧ tensor_size t = page * num_blocks;
  to_apart t g l1 l2 : t ∈ tensors → g ∈ groups → l1 ∈ lg_layer_names g → l2 ∈ lg_layer_names g →
    l1 ∈ shared_by t → l2 ∈ shared_by t → l1 = l2
}.

(** What is kept of [group_ok] for the layers of one worker. *)
Definition same_blocks (specs : list KVCacheSpec) : Prop :=
  ∀ s1 s2 cfg, s1 ∈ specs → s2 ∈ specs → max_memory_usage_blocks s1 cfg = max_memory_usage_blocks s2 cfg.
Definition worker_group_ok (g : LayerGroup) : Prop :=
  match lg_spec g with
  | Layer _ => True
  | Uniform u =>
      (lg_layer_names g = [] ∨ (kv_cache_specs u).*1 = lg_layer_names g) ∧ kv_cache_specs u ≠ [] ∧ same_blocks (kv_cache_specs u).*2
  end.

Lemma omap_after_fmap {A B C} (f : A → B) (h : B → option C) (l : list A) : omap h (f <$> l) = omap (h ∘ f) l.
Proof. induction l as [|x l IH]; [done|]. simpl. unfold compose at 1. destruct (h (f x)); [f_equal|]; exact IH. Qed.

Section Slots.
Context {A G : Type} (nm : G → list A).
Implicit Types (groups : list G) (f : G → option A).

Lemma names_unique groups g1 g2 x : NoDup (concat (nm <$> groups)) → g1 ∈ groups → g2 ∈ groups → x ∈ nm g1 → x ∈ nm g2 → g1 = g2.
Proof.
  induction groups as [|g groups IH]; [by intros _ ?%elem_of_nil|]. rewrite fmap_cons. simpl.
  rewrite NoDup_app. intros (_ & Hd & Hn) [->|H1]%elem_of_cons [->|H2]%elem_of_cons Hx1 Hx2; [done|exfalso..|auto].
  - apply (Hd x Hx1). apply elem_of_concat. exists (nm g2). split; [done|]. apply list_elem_of_fmap. eauto.
  - apply (Hd x Hx2). apply elem_of_concat. exists (nm g1). split; [done|]. apply list_elem_of_fmap. eauto.
Qed.

(** A tensor takes at most one layer of each group. *)
Lemma slot_of groups f g x : NoDup (concat (nm <$> groups)) → (∀ g x, g ∈ groups → f g = Some x → x ∈ nm g) →
  g ∈ groups → x ∈ nm g → x ∈ omap f groups → f g = Some x.
Proof.
  intros Hn Hf Hg Hx (g' & Hg' & E)%list_elem_of_omap. rewrite (names_unique groups g g' x); eauto.
Qed.
End Slots.

Lemma slots_apart groups f g l1 l2 : NoDup (names groups) → (∀ g x, g ∈ groups → f g = Some x → x ∈ lg_layer_names g) →
  g ∈ groups → l1 ∈ lg_layer_names g → l2 ∈ lg_layer_names g → l1 ∈ omap f groups → l2 ∈ omap f groups → l1 = l2.
Proof.
  intros Hn Hf Hg H1 H2 Ho1 Ho2. pose proof (slot_of _ _ _ _ _ Hn Hf Hg H1 Ho1). pose proof (slot_of _ _ _ _ _ Hn Hf Hg H2 Ho2). congruence.
Qed.

Lemma layer_page_name u n p : layer_page u n = Ok p → p.2 = n ∧ ∃ s, (n, s) ∈ kv_cache_specs u ∧ page_size_bytes s = Ok p.1.
Proof. unfold layer_page. intros H. results. rename select (find_at _ _ = _) into Hf. apply find_at_elem in Hf. eauto. Qed.
Lemma layer_pages_names u layers pages : Forall2 (λ n p, layer_page u n = Ok p) layers pages → pages.*2 = layers.
Proof. induction 1 as [|n p ns ps Hp _ IH]; [done|]. apply layer_page_name in Hp as [E _]. by rewrite fmap_cons, E, IH. Qed.

(** One group with a specification for each layer. *)
Lemma single_tensors_ok layers u e pages num_blocks : Forall2 (λ n p, layer_page u n = Ok p) layers pages →
  tensors_ok [mkLayerGroup layers (Uniform u) e] num_blocks ((λ p, mkTensor (p.1 * num_blocks) [p.2]) <$> pages).
Proof.
  intros Hp. split.
  - intros _. rewrite <-list_fmap_compose. simpl. rewrite app_nil_r, <-(layer_pages_names _ _ _ Hp). apply reflexive_eq.
    clear. induction pages as [|p ps IH]; [done|]. rewrite !fmap_cons. simpl. by f_equal.
  - intros t g layer (p & -> & Hin)%list_elem_of_fmap ->%list_elem_of_singleton _ Hl. simpl in Hl. apply list_elem_of_singleton in Hl as ->.
    apply list_elem_of_lookup in Hin as [i Hi]. destruct (Forall2_lookup_r _ _ _ _ _ Hp Hi) as (n & _ & E).
    exists p.1. split; [|done]. unfold page_of. simpl. apply layer_page_name in E as E'. destruct E' as [-> _]. by rewrite E.
  - intros t g l1 l2 (p & -> & Hin)%list_elem_of_fmap _ _ _ H1%list_elem_of_singleton H2%list_elem_of_singleton. congruence.
Qed.

(** Groups with one specification each. *)
Lemma pool_tensors_ok groups size page num_blocks :
  NoDup (names groups) → layers_per_group groups = Ok size → Forall (λ g, ∃ s, lg_spec g = Layer s ∧ page_size_bytes s = Ok page) groups →
  tensors_ok groups num_blocks (pool_tensor groups (page * num_blocks) <$> seq 0 (Z.to_nat size)).
Proof.
  intros Hn Hs Hg. unfold layers_per_group in Hs. apply max_of_Ok in Hs as [_ Hs]. rewrite Forall_forall in Hg. split.
  - intros _. rewrite <-(columns_perm (lg_layer_names <$> groups) (Z.to_nat size)).
    + apply reflexive_eq. rewrite <-list_fmap_compose. f_equal. apply list_fmap_ext. intros k i _. simpl. by rewrite omap_after_fmap.
    + intros l (g & -> & Hin)%list_elem_of_fmap. assert (len (lg_layer_names g) ≤ size) by (apply Hs, list_elem_of_fmap; eauto). unfold len in *. lia.
  - intros t g layer (i & -> & _)%list_elem_of_fmap Hin _ _. destruct (Hg _ Hin) as (s & E & Hp). exists page. unfold page_of. by rewrite E.
  - intros t g l1 l2 (i & -> & _)%list_elem_of_fmap Hin H1 H2. simpl. eapply slots_apart; try done.
    intros g' x _. apply list_elem_of_lookup_2.
Qed.

(** *** Groups with a specification for each layer *)

Lemma bucketed_ok g b : bucketed g = Ok b →
  ∃ u pages, as_uniform g = Some u ∧ Forall2 (λ n p, layer_page u n = Ok p) (lg_layer_names g) pages ∧ b = buckets_of pages.
Proof. unfold bucketed. intros H. results. eauto. Qed.

Lemma bucket_elem g b page bucket layer : bucketed g = Ok b → find_at page b = Some bucket → layer ∈ bucket →
  layer ∈ lg_layer_names g ∧ page_of g layer = Ok page.
Proof.
  intros (u & pages & Hu & Hp & ->)%bucketed_ok Hf%find_at_elem Hl. pose proof (buckets_elem _ _ _ _ Hf Hl) as Hin. clear Hf.
  apply list_elem_of_lookup in Hin as [i Hi]. destruct (Forall2_lookup_r _ _ _ _ _ Hp Hi) as (n & Hn & E).
  apply layer_page_name in E as E'. destruct E' as [E' _]. simpl in E'. subst n.
  split; [by eapply list_elem_of_lookup_2|]. unfold page_of, as_uniform in *. destruct (lg_spec g); simplify_eq. by rewrite E.
Qed.

(** The buckets of the sizes of a list that has all of them are all buckets. *)
Lemma lookup_all_perm {A} (b : list (Z * list A)) sizes : NoDup b.*1 → NoDup sizes → (∀ k, k ∈ b.*1 → k ∈ sizes) →
  concat ((λ k, default [] (find_at k b)) <$> sizes) ≡ₚ concat b.*2.
Proof.
  induction b as [|[k x] b IH]; intros Hb Hs Hin; [simpl; by rewrite concat_nils|]. rewrite fmap_cons in Hb. apply NoDup_cons in Hb as [Hk Hb].
  rewrite (list_fmap_ext _ (λ k', (if decide (k = k') then x else []) ++ default [] (find_at k' b))).
  - rewrite concat_zip_app, IH by set_solver. simpl. f_equiv; [|done]. assert (k ∈ sizes) as Hks by set_solver. clear -Hks Hs.
    induction sizes as [|k' sizes IH]; [by apply elem_of_nil in Hks|]. apply NoDup_cons in Hs as [Hk' Hs]. rewrite fmap_cons. simpl.
    destruct (decide (k = k')) as [<-|Hne].
    + rewrite (list_fmap_ext _ (λ _, [])); [by rewrite concat_nils, app_nil_r|]. intros i k' Hi. rewrite decide_False; [done|].
      intros <-. by apply Hk', (list_elem_of_lookup_2 _ i).
    + simpl. apply IH; [done|set_solver].
  - intros i k' _. simpl. destruct (decide (k = k')) as [<-|]; [|done]. rewrite find_at_none by done. simpl. by rewrite app_nil_r.
Qed.

Lemma concat_fmap_perm {A I} (f g : I → list A) ks : (∀ i, i ∈ ks → f i ≡ₚ g i) → concat (f <$> ks) ≡ₚ concat (g <$> ks).
Proof. induction ks as [|k ks IH]; intros Hfg; [done|]. rewrite !fmap_cons. simpl. rewrite IH, Hfg; set_solver. Qed.
Lemma bind_concat {A I} (f : I → list A) (ks : list I) : ks ≫= f = concat (f <$> ks).
Proof. induction ks as [|k ks IH]; [done|]. rewrite bind_cons, fmap_cons. simpl. by rewrite IH. Qed.

(** All layers of all buckets, tensor by tensor. *)
Lemma bucket_columns (buckets : list (list (Z * list string))) sizes n :
  NoDup sizes → (∀ b, b ∈ buckets → NoDup b.*1 ∧ (∀ k, k ∈ b.*1 → k ∈ sizes) ∧ ∀ k l, (k, l) ∈ b → (length l ≤ n)%nat) →
  concat ((λ i, concat ((λ k, omap (λ b, bucket ← find_at k b; bucket !! i) buckets) <$> sizes)) <$> seq 0 n) ≡ₚ
  concat ((λ b, concat b.*2) <$> buckets).
Proof.
  intros Hs Hb. rewrite concat_swap.
  trans (concat ((λ k, concat ((λ b, default [] (find_at k b)) <$> buckets)) <$> sizes)).
  - apply concat_fmap_perm. intros k _. rewrite <-(columns_perm ((λ b, default [] (find_at k b)) <$> buckets) n).
    + apply reflexive_eq. f_equal. apply list_fmap_ext. intros j i _. rewrite omap_after_fmap. apply list_omap_ext.
      apply Forall_Forall2_diag, Forall_true. intros b. simpl. by destruct (find_at k b).
    + intros l (b & -> & Hin)%list_elem_of_fmap. destruct (find_at k b) as [bucket|] eqn:E; simpl; [|lia].
      eapply (Hb b Hin). by apply find_at_elem.
  - rewrite concat_swap. apply concat_fmap_perm. intros b Hin. destruct (Hb _ Hin) as (? & ? & _). by apply lookup_all_perm.
Qed.

Lemma buckets_names groups buckets : Forall2 (λ g b, bucketed g = Ok b) groups buckets →
  concat ((λ b, concat b.*2) <$> buckets) ≡ₚ names groups.
Proof.
  induction 1 as [|g b gs bs Hb _ IH]; [done|]. rewrite !fmap_cons. simpl. rewrite IH. f_equiv.
  apply bucketed_ok in Hb as (u & pages & _ & Hp & ->). rewrite buckets_perm. by rewrite (layer_pages_names _ _ _ Hp).
Qed.

Lemma bucket_keys_in groups buckets g u sizes : aligned groups → head groups = Some g → as_uniform g = Some u → get_page_sizes u = Ok sizes →
  Forall2 (λ g b, bucketed g = Ok b) groups buckets → ∀ b, b ∈ buckets → NoDup b.*1 ∧ ∀ k, k ∈ b.*1 → k ∈ sizes.
Proof.
  intros Ha Hg Hu Hs Hb b Hin. apply list_elem_of_lookup in Hin as [i Hi].
  destruct (Forall2_lookup_r _ _ _ _ _ Hb Hi) as (g' & Hg' & (u' & pages & Hu' & Hp & ->)%bucketed_ok).
  split; [apply buckets_nodup|]. intros k ([k' n] & E & Hk)%buckets_keys%list_elem_of_fmap. simpl in E. subst k'.
  apply list_elem_of_lookup in Hk as [j Hj]. destruct (Forall2_lookup_r _ _ _ _ _ Hp Hj) as (n' & _ & E).
  apply layer_page_name in E as (_ & s & Hin & Hpage). destruct (Ha _ _ _ Hg Hu Hs g' u' n' s) as (page & E & ?); [|done..|].
  - by eapply list_elem_of_lookup_2.
  - simpl in *. congruence.
Qed.

(** The layer of a group in the [i]-th tensor of pages of size [k]. *)
Definition bucket_slot (i : nat) (k : Z) (g : LayerGroup) : option string :=
  match bucketed g with Ok b => bucket ← find_at k b; bucket !! i | Raise _ => None end.
Lemma bucket_slot_ok i k g layer : bucket_slot i k g = Some layer → layer ∈ lg_layer_names g ∧ page_of g layer = Ok k.
Proof.
  unfold bucket_slot. intros Hx. destruct (bucketed g) as [b|] eqn:Eb; [|done]. apply bind_Some in Hx as (bucket & Ef & Hx).
  eapply bucket_elem; [done..|]. by eapply list_elem_of_lookup_2.
Qed.
Lemma bucket_tensor_slots groups buckets num_blocks i k : Forall2 (λ g b, bucketed g = Ok b) groups buckets →
  bucket_tensor buckets num_blocks i k = mkTensor (k * num_blocks) (omap (bucket_slot i k) groups).
Proof.
  intros Hb. unfold bucket_tensor. f_equal. induction Hb as [|g b gs bs Eb _ IH]; [done|]. simpl. unfold bucket_slot at 1. rewrite Eb.
  destruct (_ ≫= _); [f_equal|]; exact IH.
Qed.

Lemma tuple_tensors_ok c groups memory num_blocks tensors :
  NoDup (names groups) → _get_kv_cache_config_deepseek_v4 c groups memory = Ok (num_blocks, tensors) → tensors_ok groups num_blocks tensors.
Proof.
  intros Hn H. destruct groups as [|g0 groups]; [done|]. unfold _get_kv_cache_config_deepseek_v4 in H. results.
  rename select (as_uniform g0 = _) into Hu. rename select (get_page_sizes _ = _) into Hs. rename select (Forall2 _ _ _) into Hb.
  rename select (max_of _ = _) into Hmax. apply max_of_Ok in Hmax as [_ Hmax]. rename x2 into n. rename x1 into buckets. rename x0 into sizes.
  set (groups' := g0 :: groups) in *. set (nb := may_override_num_blocks _ _) in *.
  pose proof (merge_sort_Permutation Z.le sizes) as Hperm. rewrite bind_concat in *.
  assert (∀ t, t ∈ concat ((λ i, bucket_tensor buckets nb i <$> merge_sort Z.le sizes) <$> seq 0 (Z.to_nat n)) →
    ∃ i k, t = mkTensor (k * nb) (omap (bucket_slot i k) groups')) as Ht.
  { intros t (l & Ht & (i & -> & _)%list_elem_of_fmap)%elem_of_concat. apply list_elem_of_fmap in Ht as (k & -> & _). exists i, k.
    by apply bucket_tensor_slots. }
  assert (∀ i k g y, g ∈ groups' → bucket_slot i k g = Some y → y ∈ lg_layer_names g) as Hslot by (intros; by eapply bucket_slot_ok).
  split.
  - intros Ha. rewrite <-(buckets_names _ _ Hb), <-(bucket_columns buckets (merge_sort Z.le sizes) (Z.to_nat n)).
    + apply reflexive_eq. rewrite <-concat_fmap, <-list_fmap_compose, <-concat_concat, <-list_fmap_compose.
      f_equal. apply list_fmap_ext. intros j i _. simpl. by rewrite <-list_fmap_compose.
    + rewrite Hperm. apply (page_sizes_ok _ _ Hs).
    + intros b Hin. destruct (bucket_keys_in groups' buckets g0 x sizes Ha eq_refl Hu Hs Hb b Hin) as [? Hk].
      split; [done|]. split; [intros k ?; rewrite Hperm; auto|]. intros k l Hl.
      assert (len l ≤ n); [|unfold len in *; lia]. apply Hmax. rewrite bind_concat, elem_of_concat. exists ((λ p, len p.2) <$> b).
      split; apply list_elem_of_fmap; [by exists (k, l)|eauto].
  - intros t g layer (i & k & ->)%Ht Hg Hl Hin. exists k. split; [|done].
    apply (bucket_slot_ok i). eapply (slot_of lg_layer_names); [exact Hn|eauto..].
  - intros t g l1 l2 (i & k & ->)%Ht Hg H1 H2. by eapply slots_apart; [exact Hn|eauto..].
Qed.

(** ** Bytes and blocks *)

(** The pages of all layers take memory. *)
Definition positive_spec (s : KVCacheSpec) : Prop := ∃ page, page_size_bytes s = Ok page ∧ 0 < page.
Definition positive_group (g : LayerGroup) : Prop :=
  match lg_spec g with Layer s => positive_spec s | Uniform u => ∀ s, s ∈ (kv_cache_specs u).*2 → positive_spec s end.

(** The blocks of the longest request in one group. *)
Definition request_blocks (cfg : VllmConfig) (g : GroupSpec) : result Z :=
  match g with
  | Layer s => max_memory_usage_blocks s cfg
  | Uniform u => s ← need StopIteration (head (kv_cache_specs u).*2); max_memory_usage_blocks s cfg
  end.
Definition needed_blocks (cfg : VllmConfig) (groups : list GroupSpec) : result Z := sum_results (request_blocks cfg <$> groups).

Lemma usage_blocks s cfg m page : max_memory_usage_bytes s cfg = Ok m → page_size_bytes s = Ok page →
  ∃ n, max_memory_usage_blocks s cfg = Ok n ∧ m = n * page.
Proof.
  unfold max_memory_usage_bytes. intros Hm Hp. destruct (max_memory_usage_blocks s cfg) as [n|] eqn:E; [|done].
  exists n. split; [done|]. rewrite Hp in Hm. destruct s; simplify_eq; try done. simpl in E. by simplify_eq.
Qed.
Lemma spec_pages_blocks cfg s n : positive_spec s → spec_pages cfg s = Ok n → max_memory_usage_blocks s cfg = Ok n.
Proof.
  intros (page & Hp & Hpos). unfold spec_pages. rewrite Hp. destruct (max_memory_usage_bytes s cfg) as [m|] eqn:Hm; [|done].
  destruct (usage_blocks _ _ _ _ Hm Hp) as (k & -> & ->). by rewrite cdiv_mul.
Qed.

Lemma sum_results_Ok {A} (f : A → result Z) l z : sum_results (f <$> l) = Ok z ↔ ∃ ys, Forall2 (λ x y, f x = Ok y) l ys ∧ z = sumZ ys.
Proof.
  setoid_rewrite <-traverse_Ok. revert z. induction l as [|x l IH]; intros z; simpl; [split; [intros [= <-]; by exists []|by intros (ys & [= <-] & ->)]|].
  destruct (f x) as [y|]; [|split; [done|by intros (? & ? & _)]]. simpl. destruct (traverse f l) as [ys|e] eqn:E; simpl.
  - change (match sum_results (f <$> l) with Ok y0 => Ok (y + y0) | Raise e => Raise e end = Ok z ↔ ∃ zs, Ok (y :: ys) = Ok zs ∧ z = sumZ zs).
    rewrite (proj2 (IH (sumZ ys))) by eauto. split; [intros [= <-]; by exists (y :: ys)|by intros (? & [= <-] & ->)].
  - change (match sum_results (f <$> l) with Ok y0 => Ok (y + y0) | Raise e => Raise e end = Ok z ↔ ∃ zs, Raise e = Ok zs ∧ z = sumZ zs).
    destruct (sum_results (f <$> l)) as [w|]; [|split; [done|by intros (? & ? & _)]]. by destruct (proj1 (IH w) eq_refl) as (? & ? & _).
Qed.
Lemma max_results_Ok {A} (f : A → result Z) l z : max_results (f <$> l) = Ok z → ∃ x, x ∈ l ∧ f x = Ok z.
Proof.
  revert z. induction l as [|x [|x' l] IH]; intros z; [done|intros E; exists x; split; [left|]; simpl in E; by destruct (f x)|].
  change (match f x with Raise e => Raise e | Ok y => match max_results (f <$> x' :: l) with Ok w => Ok (Z.max y w) | Raise e => Raise e end end = Ok z →
    ∃ y, y ∈ x :: x' :: l ∧ f y = Ok z).
  destruct (f x) as [y|] eqn:Ey; [|done]. destruct (max_results _) as [w|]; [|done]. intros [= <-].
  destruct (Z.max_spec y w) as [[_ ->]|[_ ->]]; [|exists x; split; [left|done]].
  destruct (IH w eq_refl) as (u & Hu & Eu). exists u. split; [by right|done].
Qed.

Lemma positive_pages (l : list KVCacheSpec) : (∀ s, s ∈ l → positive_spec s) →
  ∃ pages, Forall2 (λ s p, page_size_bytes s = Ok p) l pages ∧ Forall (λ p, 0 < p) pages.
Proof.
  induction l as [|s l IH]; intros Hs; [by exists []|]. destruct IH as (ps & ? & ?); [set_solver|].
  destruct (Hs s) as (p & ? & ?); [left|]. exists (p :: ps). by split; constructor.
Qed.
Lemma sumZ_pos l : l ≠ [] → Forall (λ x, 0 < x) l → 0 < sumZ l.
Proof.
  destruct l as [|x l]; [done|]. intros _ [Hx Hl]%Forall_cons. rewrite sumZ_cons.
  assert (0 ≤ sumZ l); [|lia]. apply sumZ_nonneg. eapply Forall_impl; [exact Hl|]. intros; simpl in *. lia.
Qed.

(** The usage of layers that take the same number of blocks. *)
Lemma uniform_usage cfg (l : list KVCacheSpec) m : l ≠ [] → (∀ s, s ∈ l → positive_spec s) → same_blocks l →
  sum_max_memory_usage_bytes cfg l = Ok m →
  ∃ n bytes, (∀ s, s ∈ l → max_memory_usage_blocks s cfg = Ok n) ∧ sum_results (page_size_bytes <$> l) = Ok bytes ∧ m = bytes * n ∧ 0 < bytes.
Proof.
  intros Hne Hpos Hsame (ms & Hm & ->)%sum_results_Ok. destruct (positive_pages l Hpos) as (ps & Hp & Hps).
  assert (∃ n, ∀ s, s ∈ l → max_memory_usage_blocks s cfg = Ok n) as [n Hn].
  { destruct Hm as [|s m l ms Hs]; [done|]. destruct (Hpos s) as (p & Hp' & _); [left|]. destruct (usage_blocks _ _ _ _ Hs Hp') as (n & Hn & _).
    exists n. intros s' Hs'. rewrite <-Hn. apply Hsame; [done|left]. }
  exists n, (sumZ ps). split; [done|]. split; [apply sum_results_Ok; eauto|]. split.
  - clear -Hm Hp Hn. revert ps Hp. induction Hm as [|s m l ms Hs _ IH]; intros ps Hp; inversion Hp; subst; [done|].
    rewrite !sumZ_cons, (IH ltac:(intros; apply Hn; by right) _ ltac:(eassumption)).
    destruct (usage_blocks _ _ _ _ Hs ltac:(eassumption)) as (k & Hk & ->). rewrite Hn in Hk by left. simplify_eq. lia.
  - apply sumZ_pos; [|done]. intros ->. by inversion Hp; subst.
Qed.

Lemma uniform_request cfg u n : kv_cache_specs u ≠ [] → (∀ s, s ∈ (kv_cache_specs u).*2 → max_memory_usage_blocks s cfg = Ok n) →
  request_blocks cfg (Uniform u) = Ok n.
Proof. unfold request_blocks. destruct (kv_cache_specs u) as [|[l s] specs]; [done|]. intros _ H. simpl. apply H. left. Qed.

Lemma uniform_pages cfg u n : kv_cache_specs u ≠ [] → (∀ s, s ∈ (kv_cache_specs u).*2 → positive_spec s) → same_blocks (kv_cache_specs u).*2 →
  max_memory_usage_pages u cfg = Ok n → request_blocks cfg (Uniform u) = Ok n.
Proof.
  unfold max_memory_usage_pages. intros Hne Hpos Hsame ([l s] & Hin & Hs)%max_results_Ok. simpl in Hs.
  assert (s ∈ (kv_cache_specs u).*2) as Hin' by (apply list_elem_of_fmap; by exists (l, s)).
  apply spec_pages_blocks in Hs; [|auto]. apply uniform_request; [done|]. intros s' Hs'. rewrite <-Hs. by apply Hsame.
Qed.

(** *** The three layouts *)

Inductive shape : list LayerGroup → Prop :=
  | one_uniform layers u e : shape [mkLayerGroup layers (Uniform u) e]
  | all_uniform groups : (2 ≤ length groups)%nat → Forall (λ g, is_uniform_group g = true) groups → shape groups
  | all_layers groups : groups ≠ [] → Forall (λ g, is_uniform_group g = false) groups → shape groups.

Lemma shape_of groups : groups ≠ [] → of_one_form groups → shape groups.
Proof.
  intros Hne [[] Hb]; [|by apply all_layers]. destruct groups as [|[l [s|u] e] [|g groups]]; [done|..]; try (apply all_uniform; [simpl; lia|done]).
  - apply Forall_cons in Hb as [Hb _]. done.
  - constructor.
Qed.

Lemma uniform_groups_all groups : Forall (λ g, is_uniform_group g = true) groups → forallb is_uniform_group groups = true.
Proof. intros Hb. apply forallb_forall. intros g Hg. rewrite Forall_forall in Hb. by apply Hb, list_elem_of_In. Qed.
Lemma layer_groups_some groups : groups ≠ [] → Forall (λ g, is_uniform_group g = false) groups → forallb is_uniform_group groups = false.
Proof. destruct groups as [|g groups]; [done|]. intros _ [Hg _]%Forall_cons. simpl. by rewrite Hg. Qed.

(** The functions that tell the layouts apart, in each of the two general ones. *)
Section Layouts.
Context (groups : list LayerGroup) (c : PlanConfig) (cfg : VllmConfig) (memory : Z).

Lemma tuple_layout_eqs : (2 ≤ length groups)%nat → forallb is_uniform_group groups = true →
  _pool_bytes_per_block groups = ('(bytes, n) ← tuple_layout groups; mret (bytes * n)) ∧
  _max_memory_usage_bytes_from_groups cfg groups =
    ('(layer_tuple_bytes, num_layer_tuples) ← tuple_layout groups;
     pages ← traverse (λ g, u ← need AttributeError (as_uniform g); max_memory_usage_pages u cfg) groups;
     mret (sumZ ((λ n, num_layer_tuples * n * layer_tuple_bytes) <$> pages))) ∧
  get_kv_cache_config_from_groups c groups memory =
    ('(num_blocks, tensors) ← _get_kv_cache_config_deepseek_v4 c groups memory; mret (mkWorkerConfig num_blocks tensors groups)).
Proof.
  destruct groups as [|[l [s|u] e] [|g' gs]]; [simpl; lia..|intros _ H|simpl; lia|intros _ H]; [done|].
  unfold _pool_bytes_per_block, _max_memory_usage_bytes_from_groups, get_kv_cache_config_from_groups. by rewrite H.
Qed.
Lemma pool_layout_eqs : groups ≠ [] → forallb is_uniform_group groups = false →
  _pool_bytes_per_block groups =
    (group_size ← layers_per_group groups; page_size ← get_uniform_page_size (lg_spec <$> groups); mret (page_size * group_size)) ∧
  _max_memory_usage_bytes_from_groups cfg groups =
    (group_size ← layers_per_group groups; page_size ← get_uniform_page_size (lg_spec <$> groups);
     blocks_needed ← traverse (λ g, m ← group_max_memory_usage_bytes cfg (lg_spec g); cdiv_ m page_size) groups;
     mret (group_size * page_size * sumZ blocks_needed)) ∧
  get_kv_cache_config_from_groups c groups memory =
    (group_size ← layers_per_group groups; page_size ← get_uniform_page_size (lg_spec <$> groups);
     _ ← guard_ (0 <? group_size) AssertionError; num_blocks ← get_num_blocks c group_size memory page_size;
     mret (mkWorkerConfig num_blocks (pool_tensor groups (page_size * num_blocks) <$> seq 0 (Z.to_nat group_size)) groups)).
Proof.
  destruct groups as [|[l [s|u] e] [|g' gs]]; [done|intros _ H..]; [| |done|];
  unfold _pool_bytes_per_block, _max_memory_usage_bytes_from_groups, get_kv_cache_config_from_groups; by rewrite H.
Qed.
End Layouts.

(** *** What a request needs *)

Lemma layer_group_spec g : is_uniform_group g = false → ∃ s, lg_spec g = Layer s.
Proof. unfold is_uniform_group, as_uniform. destruct (lg_spec g) as [s|u]; [eauto|done]. Qed.
Lemma uniform_group_spec g u : as_uniform g = Some u → lg_spec g = Uniform u.
Proof. unfold as_uniform. by destruct (lg_spec g) as [s|u']; intros [= ->]. Qed.

Lemma uniform_page groups page : get_uniform_page_size (lg_spec <$> groups) = Ok page →
  ∀ g, g ∈ groups → group_page_size_bytes (lg_spec g) = Ok page.
Proof.
  unfold get_uniform_page_size. intros H. results. rename select (Forall2 _ _ _) into Hf.
  apply singleton_set_elem in H as [_ Hall]. intros g Hg. assert (lg_spec g ∈ lg_spec <$> groups) as Hs by (apply list_elem_of_fmap; eauto).
  apply list_elem_of_lookup in Hs as [i Hi]. destruct (Forall2_lookup_l _ _ _ _ _ Hf Hi) as (p & Hp & E).
  by rewrite E, (Hall p) by (by eapply list_elem_of_lookup_2).
Qed.

Lemma needed_blocks_Ok cfg groups bs : Forall2 (λ g n, request_blocks cfg (lg_spec g) = Ok n) groups bs →
  needed_blocks cfg (lg_spec <$> groups) = Ok (sumZ bs).
Proof. intros H. apply sum_results_Ok. exists bs. split; [|done]. by apply Forall2_fmap_l. Qed.

Lemma needed_memory_single cfg layers u e m :
  worker_group_ok (mkLayerGroup layers (Uniform u) e) → positive_group (mkLayerGroup layers (Uniform u) e) →
  _max_memory_usage_bytes_from_groups cfg [mkLayerGroup layers (Uniform u) e] = Ok m →
  ∃ bytes blocks, uniform_page_size_bytes u = Ok bytes ∧ needed_blocks cfg [Uniform u] = Ok blocks ∧ m = bytes * blocks ∧ 0 < bytes.
Proof.
  intros (_ & Hne & Hsame) Hpos H. simpl in H. apply uniform_usage in H as (n & bytes & Hn & Hb & -> & ?); [|by destruct (kv_cache_specs u)|done..].
  exists bytes, n. rewrite <-list_fmap_compose in Hb. split_and!; [done| |done..].
  unfold needed_blocks. cbn [fmap list_fmap sum_results]. rewrite (uniform_request _ _ n) by done. f_equal. lia.
Qed.

Lemma needed_memory_tuples cfg groups m : (2 ≤ length groups)%nat → Forall (λ g, is_uniform_group g = true) groups →
  Forall worker_group_ok groups → Forall positive_group groups → _max_memory_usage_bytes_from_groups cfg groups = Ok m →
  ∃ bytes n blocks, tuple_layout groups = Ok (bytes, n) ∧ needed_blocks cfg (lg_spec <$> groups) = Ok blocks ∧ m = bytes * n * blocks.
Proof.
  intros Hl Hu Hok Hpos H. rewrite (proj1 (proj2 (tuple_layout_eqs groups (mkPlanConfig cfg None false false 0) cfg 0 Hl (uniform_groups_all _ Hu)))) in H.
  results. destruct x as [bytes n]. results. rename select (Forall2 _ _ _) into Hp. exists bytes, n, (sumZ x). split; [done|]. split.
  - apply needed_blocks_Ok. clear -Hok Hpos Hp. induction Hp as [|g k gs ks Hg _ IH]; [done|].
    apply Forall_cons in Hok as [Hg1 Hok]. apply Forall_cons in Hpos as [Hg2 Hpos]. constructor; [|auto]. results.
    rename select (as_uniform g = _) into E. apply uniform_group_spec in E. unfold worker_group_ok, positive_group in *. rewrite E in *.
    destruct Hg1 as (_ & ? & ?). by apply uniform_pages.
  - clear. induction x as [|k x IH]; [simpl; lia|]. rewrite fmap_cons, !sumZ_cons, IH. lia.
Qed.

Lemma layer_group_pages groups page : Forall (λ g, is_uniform_group g = false) groups → Forall positive_group groups →
  get_uniform_page_size (lg_spec <$> groups) = Ok page → ∀ g, g ∈ groups → ∃ s, lg_spec g = Layer s ∧ page_size_bytes s = Ok page ∧ 0 < page.
Proof.
  rewrite !Forall_forall. intros Hu Hpos Hpage g Hin. destruct (layer_group_spec g (Hu _ Hin)) as [s Hs].
  pose proof (uniform_page _ _ Hpage g Hin) as Hp. pose proof (Hpos _ Hin) as Hpos'. unfold positive_group in Hpos'. rewrite Hs in *.
  destruct Hpos' as (p & Hp1 & ?). simpl in Hp. exists s. rewrite Hp in Hp1. by simplify_eq.
Qed.

Lemma needed_memory_pools cfg groups m : groups ≠ [] → Forall (λ g, is_uniform_group g = false) groups →
  Forall positive_group groups → _max_memory_usage_bytes_from_groups cfg groups = Ok m →
  ∃ page size blocks, layers_per_group groups = Ok size ∧ get_uniform_page_size (lg_spec <$> groups) = Ok page ∧ 0 < page ∧
    needed_blocks cfg (lg_spec <$> groups) = Ok blocks ∧ m = page * size * blocks.
Proof.
  intros Hne Hu Hpos H. rewrite (proj1 (proj2 (pool_layout_eqs groups (mkPlanConfig cfg None false false 0) cfg 0 Hne (layer_groups_some _ Hne Hu)))) in H.
  results. rename select (Forall2 _ _ _) into Hp. rename select (get_uniform_page_size _ = _) into Hpage. rename x0 into page.
  assert (∀ g, g ∈ groups → ∃ s, lg_spec g = Layer s ∧ page_size_bytes s = Ok page ∧ 0 < page) as Hg by by apply layer_group_pages.
  exists page, x, (sumZ x1). split_and!; [done..| | |lia].
  - destruct groups as [|g gs]; [done|]. destruct (Hg g) as (? & ? & ? & ?); [left|done].
  - apply needed_blocks_Ok. clear -Hg Hp. induction Hp as [|g k gs ks Hgk _ IH]; [done|]. constructor; [|apply IH; set_solver].
    destruct (Hg g) as (s & Hs & Hps & Hpos); [left|]. rewrite Hs in *. results. simpl in *.
    rename select (max_memory_usage_bytes s cfg = _) into Hm. destruct (usage_blocks _ _ _ _ Hm Hps) as (n & -> & ->). subst. by rewrite cdiv_mul.
Qed.

(** *** What a worker gets *)

Lemma find_at_push {K A} `{EqDecision K} (k k' : K) (v : A) d :
  find_at k' (push_at k v d) = if decide (k = k') then Some (default [] (find_at k d) ++ [v]) else find_at k' d.
Proof. induction d as [|[k0 x] d IH]; simpl; repeat (case_decide; subst; simpl); try done; by rewrite IH, ?decide_True, ?decide_False by done. Qed.
Lemma bucket_count {K A} `{EqDecision K} (l : list (K * A)) k : default [] (find_at k (buckets_of l)) = (filter (λ p, p.1 = k) l).*2.
Proof.
  induction l as [|[k' v] l IH] using rev_ind; [done|]. rewrite buckets_of_app, find_at_push, filter_app, fmap_app, <-IH. simpl.
  case_decide; subst; simpl.
  - by rewrite filter_cons_True by done.
  - rewrite filter_cons_False by done. simpl. by rewrite app_nil_r.
Qed.

Lemma layer_pages_sizes u layers pages : (kv_cache_specs u).*1 = layers → NoDup layers → Forall2 (λ n p, layer_page u n = Ok p) layers pages →
  Forall2 (λ s p, page_size_bytes s = Ok p) (kv_cache_specs u).*2 pages.*1.
Proof.
  intros <- Hn. assert (∀ l s, (l, s) ∈ kv_cache_specs u → find_at l (kv_cache_specs u) = Some s) as Hfind by (intros; by apply find_at_unique).
  assert (∀ specs, (∀ p, p ∈ specs → p ∈ kv_cache_specs u) → ∀ pages, Forall2 (λ n p, layer_page u n = Ok p) specs.*1 pages →
    Forall2 (λ s p, page_size_bytes s = Ok p) specs.*2 pages.*1) as Haux; [|by apply Haux].
  clear pages. induction specs as [|[l s] specs IH]; intros Hin pages Hp; inversion Hp as [|? p ? ps Hl]; subst; [constructor|].
  rewrite !fmap_cons. constructor; [|apply IH; [set_solver|done]].
  unfold layer_page in Hl. rewrite (Hfind l s) in Hl by (apply Hin; left). simpl in Hl. by results.
Qed.

Lemma bucket_bounded u layers pages n k b : (layers = [] ∨ (kv_cache_specs u).*1 = layers) → NoDup layers →
  Forall2 (λ n p, layer_page u n = Ok p) layers pages → get_num_layer_tuples u = Ok n → (k, b) ∈ buckets_of pages → len b ≤ n.
Proof.
  intros Hl Hn Hp Ht Hb. assert (NoDup (buckets_of pages).*1) as Hnd by apply buckets_nodup.
  pose proof (find_at_unique _ _ _ Hnd Hb) as Hf. pose proof (bucket_count pages k) as Hc. rewrite Hf in Hc. simpl in Hc. subst b.
  destruct Hl as [->|Hl]; [inversion Hp; subst; by apply elem_of_nil in Hb|].
  pose proof (layer_pages_sizes _ _ _ Hl Hn Hp) as Hs. unfold get_num_layer_tuples in Ht. rewrite (proj2 (traverse_Ok _ _ _) Hs) in Ht. simpl in Ht.
  assert (len (filter (λ p, p.1 = k) pages).*2 = len (filter (λ p', p' = k) pages.*1)) as ->.
  { unfold len. rewrite length_fmap. f_equal. clear. induction pages as [|p ps IH]; [done|]. rewrite fmap_cons, !filter_cons.
    repeat case_decide; simpl; congruence. }
  assert (k ∈ pages.*1) as Hk by (apply buckets_keys, list_elem_of_fmap; by exists (k, (filter (λ p, p.1 = k) pages).*2)).
  destruct (pages.*1) as [|p0 ps] eqn:E; [by apply elem_of_nil in Hk|]. apply max_of_Ok in Ht as [_ Ht]. apply Ht, list_elem_of_fmap. eauto.
Qed.

(** The tensors are [num_blocks] times the bytes of a block, which are as many as fit. *)
Definition fills (c : PlanConfig) (memory pool num_blocks : Z) (tensors : list KVCacheTensor) : Prop :=
  ∃ bytes units, 0 < bytes ≤ pool ∧ num_blocks = may_override_num_blocks c (memory / bytes) ∧
    tensor_size <$> tensors = (λ u, u * num_blocks) <$> units ∧ Forall (λ u, 0 ≤ u) units ∧ sumZ units ≤ bytes.

Lemma positive_uniform u sizes : (∀ s, s ∈ (kv_cache_specs u).*2 → positive_spec s) → get_page_sizes u = Ok sizes →
  Forall (λ p, 0 < p) sizes.
Proof.
  unfold get_page_sizes, page_sizes_of. intros Hpos H. results. rename select (Forall2 _ _ _) into Hx.
  destruct (positive_pages _ Hpos) as (ps & Hf & Hps). apply traverse_Ok in Hf, Hx. rewrite Hf in Hx. injection Hx as <-.
  rewrite Forall_forall in *. intros p. rewrite elem_of_remove_dups. auto.
Qed.
Lemma sumZ_repeat n (l : list Z) : sumZ (concat ((λ _, l) <$> seq 0 n)) = Z.of_nat n * sumZ l.
Proof.
  generalize 0%nat. induction n as [|n IH]; intros k; [done|]. simpl. rewrite sumZ_app. fold ((λ _ : nat, l) <$> seq (S k) n). rewrite IH. lia.
Qed.
Lemma floor_floor m a b : 0 < a → 0 < b → m / a / b = m / (a * b).
Proof. intros. apply Z.div_div; lia. Qed.

Lemma single_fills c layers u e m w : NoDup layers →
  worker_group_ok (mkLayerGroup layers (Uniform u) e) → positive_group (mkLayerGroup layers (Uniform u) e) →
  get_kv_cache_config_from_groups c [mkLayerGroup layers (Uniform u) e] m = Ok w →
  wc_kv_cache_groups w = [mkLayerGroup layers (Uniform u) e] ∧ tensors_ok (wc_kv_cache_groups w) (wc_num_blocks w) (wc_kv_cache_tensors w) ∧
  ∃ pool, _pool_bytes_per_block [mkLayerGroup layers (Uniform u) e] = Ok pool ∧ fills c m pool (wc_num_blocks w) (wc_kv_cache_tensors w).
Proof.
  intros Hn (Hl & Hne & _) Hpos H. simpl in H, Hl. unfold positive_group in Hpos. simpl in Hpos. results. simpl. rename select (Forall2 _ _ _) into Hp. rename select (uniform_page_size_bytes _ = _) into Hb. rename x1 into pages.
  split; [done|]. split; [by apply single_tensors_ok|]. exists x. split; [done|].
  destruct (positive_pages _ Hpos) as (ps & Hf & Hps). unfold uniform_page_size_bytes in Hb. rewrite list_fmap_compose in Hb.
  apply sum_results_Ok in Hb as (ps' & Hf' & ->). apply traverse_Ok in Hf, Hf'. rewrite Hf in Hf'. injection Hf' as <-. apply traverse_Ok in Hf.
  assert (0 < sumZ ps) as Hsum. { apply sumZ_pos; [|done]. intros ->. inversion Hf as [E|]. symmetry in E. by apply fmap_nil_inv in E. }
  exists (sumZ ps), pages.*1. split; [lia|]. split; [subst; done|]. split; [by rewrite <-!list_fmap_compose|].
  destruct Hl as [->|Hl]; [inversion Hp; subst; split; [constructor|simpl; lia]|].
  pose proof (layer_pages_sizes _ _ _ Hl Hn Hp) as Hs. apply traverse_Ok in Hs, Hf. rewrite Hf in Hs. injection Hs as <-.
  split; [|lia]. eapply Forall_impl; [exact Hps|]. intros; simpl in *; lia.
Qed.

Lemma pools_fills c groups m w : groups ≠ [] → Forall (λ g, is_uniform_group g = false) groups → NoDup (names groups) → 0 ≤ m →
  Forall positive_group groups → get_kv_cache_config_from_groups c groups m = Ok w →
  wc_kv_cache_groups w = groups ∧ tensors_ok groups (wc_num_blocks w) (wc_kv_cache_tensors w) ∧
  ∃ pool, _pool_bytes_per_block groups = Ok pool ∧ fills c m pool (wc_num_blocks w) (wc_kv_cache_tensors w).
Proof.
  intros Hne Hu Hn Hm Hpos H. destruct (pool_layout_eqs groups c (pc_vllm c) m Hne (layer_groups_some _ Hne Hu)) as (Ep & _ & Ec).
  rewrite Ec in H. unfold get_num_blocks in H. results. rename select (layers_per_group _ = _) into Hsize. rename x into size.
  rename select (get_uniform_page_size _ = _) into Hpage. rename x0 into page. rename select (_ = true) into Hpos'. apply Z.ltb_lt in Hpos'. subst. simpl.
  assert (∀ g, g ∈ groups → ∃ s, lg_spec g = Layer s ∧ page_size_bytes s = Ok page ∧ 0 < page) as Hg by by apply layer_group_pages.
  assert (0 < page). { destruct groups as [|g gs]; [done|]. destruct (Hg g) as (? & ? & ? & ?); [left|done]. }
  split; [done|]. split.
  - apply pool_tensors_ok; [done..|]. apply Forall_forall. intros g (s & ? & ? & _)%Hg. eauto.
  - exists (page * size). rewrite Ep, Hsize, Hpage. split; [done|]. exists (page * size), (concat ((λ _, [page]) <$> seq 0 (Z.to_nat size))).
    split; [nia|]. split; [rewrite floor_floor by lia; f_equal; rewrite Z.max_l; [done|]; apply Z.div_pos; nia|].
    split; [|split; [|rewrite sumZ_repeat; simpl; nia]].
    + rewrite <-list_fmap_compose. generalize 0%nat. induction (Z.to_nat size) as [|k IH]; intros j; [done|]. simpl. by f_equal.
    + apply Forall_forall. intros p (l & Hp & (? & -> & _)%list_elem_of_fmap)%elem_of_concat. apply list_elem_of_singleton in Hp. lia.
Qed.

(** The longest bucket is no longer than the tuples the memory was reserved for. *)
Lemma buckets_bounded groups buckets n : Forall worker_group_ok groups → NoDup (names groups) →
  Forall2 (λ g b, bucketed g = Ok b) groups buckets → Forall (λ g, ∀ u, as_uniform g = Some u → ∃ t, get_num_layer_tuples u = Ok t ∧ t ≤ n) groups →
  ∀ b k l, b ∈ buckets → (k, l) ∈ b → len l ≤ n.
Proof.
  intros Hok Hn Hb Ht b k l Hin Hl. apply list_elem_of_lookup in Hin as [i Hi]. destruct (Forall2_lookup_r _ _ _ _ _ Hb Hi) as (g & Hg & Eb).
  apply list_elem_of_lookup_2 in Hg. apply bucketed_ok in Eb as (u & pages & Hu & Hp & ->). rewrite Forall_forall in Hok, Ht.
  destruct (Ht _ Hg _ Hu) as (t & Et & Hle). pose proof (Hok _ Hg) as Hgo. unfold worker_group_ok in Hgo. rewrite (uniform_group_spec _ _ Hu) in Hgo.
  destruct Hgo as [Hl' _]. etrans; [|exact Hle]. eapply bucket_bounded; [exact Hl'| |done..].
  clear -Hn Hg. induction groups as [|g' gs IH]; [by apply elem_of_nil in Hg|]. rewrite fmap_cons in Hn. simpl in Hn. apply NoDup_app in Hn as (? & _ & ?).
  apply elem_of_cons in Hg as [->|]; auto.
Qed.
Lemma tuple_layout_ok groups bytes n : tuple_layout groups = Ok (bytes, n) →
  (∃ g u sizes, head groups = Some g ∧ as_uniform g = Some u ∧ get_page_sizes u = Ok sizes ∧ bytes = sumZ sizes) ∧
  Forall (λ g, ∀ u, as_uniform g = Some u → ∃ t, get_num_layer_tuples u = Ok t ∧ t ≤ n) groups.
Proof.
  destruct groups as [|g groups]; [done|]. unfold tuple_layout. intros H. results.
  rename select (max_of _ = _) into Hm. apply max_of_Ok in Hm as [_ Hm]. rename select (Forall2 _ _ _) into Hf. split; [eexists _, _, _; done|].
  apply Forall_forall. intros g' Hg' u' Hu'. apply list_elem_of_lookup in Hg' as [i Hi]. destruct (Forall2_lookup_l _ _ _ _ _ Hf Hi) as (t & Ht & E).
  rewrite Hu' in E. exists t. split; [done|]. apply Hm. by eapply list_elem_of_lookup_2.
Qed.

Lemma tuples_fills c groups m bytes n w : (2 ≤ length groups)%nat → Forall (λ g, is_uniform_group g = true) groups → NoDup (names groups) →
  Forall worker_group_ok groups → Forall positive_group groups → tuple_layout groups = Ok (bytes, n) →
  get_kv_cache_config_from_groups c groups m = Ok w →
  wc_kv_cache_groups w = groups ∧ tensors_ok groups (wc_num_blocks w) (wc_kv_cache_tensors w) ∧
  ∃ pool, _pool_bytes_per_block groups = Ok pool ∧ fills c m pool (wc_num_blocks w) (wc_kv_cache_tensors w).
Proof.
  intros Hl Hu Hn Hok Hpos Ht H. destruct (tuple_layout_eqs groups c (pc_vllm c) m Hl (uniform_groups_all _ Hu)) as (Ep & _ & Ec).
  rewrite Ec in H. apply bind_Ok in H as ([nb ts] & Hd & H). results. simpl. split; [done|]. split; [by eapply tuple_tensors_ok|].
  exists (bytes * n). rewrite Ep, Ht. split; [done|]. destruct (tuple_layout_ok _ _ _ Ht) as [(g & u & sizes & Hg & Hgu & Hs & ->) Htuples].
  destruct groups as [|g0 groups]; [done|]. injection Hg as ->. unfold _get_kv_cache_config_deepseek_v4 in Hd. results.
  rename select (as_uniform g = Some x) into E. rewrite Hgu in E. injection E as <-. rename select (get_page_sizes u = Ok x0) into E. rewrite Hs in E. injection E as <-.
  rename select (Forall2 _ _ _) into Hb. rename select (max_of _ = _) into Hm. apply max_of_Ok in Hm as [Hin Hm].
  rename x1 into buckets. rename x2 into k. subst.
  assert (0 ≤ k ≤ n) as Hk.
  { rewrite bind_concat in Hin. apply elem_of_concat in Hin as (l & Hk & (b & -> & Hb')%list_elem_of_fmap).
    apply list_elem_of_fmap in Hk as ([p l] & -> & Hpl). split; [unfold len; lia|]. eapply buckets_bounded; [exact Hok|exact Hn|exact Hb|exact Htuples|done..]. }
  pose proof (merge_sort_Permutation Z.le sizes) as Hperm. rewrite (sumZ_perm _ _ Hperm) in *.
  assert (Forall (λ p, 0 < p) sizes) as Hps.
  { eapply positive_uniform; [|exact Hs]. apply Forall_cons in Hpos as [Hpos _]. unfold positive_group in Hpos. by rewrite (uniform_group_spec _ _ Hgu) in Hpos. }
  assert (0 ≤ sumZ sizes) by (apply sumZ_nonneg; eapply Forall_impl; [exact Hps|]; intros; simpl in *; lia).
  exists (sumZ sizes * k), (concat ((λ _, merge_sort Z.le sizes) <$> seq 0 (Z.to_nat k))). split; [nia|]. split; [done|]. split; [|split].
  - rewrite bind_concat, <-!concat_fmap, <-!list_fmap_compose. f_equal. apply list_fmap_ext. intros j i _. simpl. by rewrite <-list_fmap_compose.
  - apply Forall_forall. intros p (l & Hp & (? & -> & _)%list_elem_of_fmap)%elem_of_concat. rewrite Hperm in Hp. rewrite Forall_forall in Hps. specialize (Hps _ Hp). lia.
  - rewrite sumZ_repeat, (sumZ_perm _ _ Hperm), Z2Nat.id by lia. lia.
Qed.

Lemma worker_config c cfg groups m need w : groups ≠ [] → of_one_form groups → Forall worker_group_ok groups → Forall positive_group groups →
  NoDup (names groups) → 0 ≤ m → _max_memory_usage_bytes_from_groups cfg groups = Ok need → get_kv_cache_config_from_groups c groups m = Ok w →
  wc_kv_cache_groups w = groups ∧ tensors_ok groups (wc_num_blocks w) (wc_kv_cache_tensors w) ∧
  ∃ pool blocks, _pool_bytes_per_block groups = Ok pool ∧ fills c m pool (wc_num_blocks w) (wc_kv_cache_tensors w) ∧
    needed_blocks cfg (lg_spec <$> groups) = Ok blocks ∧ need = pool * blocks.
Proof.
  intros Hne Hform Hok Hpos Hn Hm Hneed Hw. destruct (shape_of _ Hne Hform) as [layers u e|groups Hl Hu|groups _ Hu].
  - apply Forall_cons in Hok as [Hok _], Hpos as [Hpos _]. destruct (needed_memory_single _ _ _ _ _ Hok Hpos Hneed) as (bytes & blocks & Hb & Hr & -> & _).
    simpl in Hn. rewrite app_nil_r in Hn. destruct (single_fills _ _ _ _ _ _ Hn Hok Hpos Hw) as (Eg & Ht & pool & Hp & Hf). rewrite <-Eg.
    split; [done|]. split; [done|]. exists pool, blocks. rewrite Eg. simpl in Hp. rewrite Hb in Hp. by simplify_eq.
  - destruct (needed_memory_tuples _ _ _ Hl Hu Hok Hpos Hneed) as (bytes & n & blocks & Ht & Hr & ->).
    destruct (tuples_fills _ _ _ _ _ _ Hl Hu Hn Hok Hpos Ht Hw) as (Eg & Ht' & pool & Hp & Hf). split; [done|]. split; [done|]. exists pool, blocks.
    rewrite (proj1 (tuple_layout_eqs groups c cfg m Hl (uniform_groups_all _ Hu))), Ht in Hp. injection Hp as <-. split_and!; [|done..].
    by rewrite (proj1 (tuple_layout_eqs groups c cfg m Hl (uniform_groups_all _ Hu))), Ht.
  - destruct (needed_memory_pools _ _ _ Hne Hu Hpos Hneed) as (page & size & blocks & Hs & Hpg & _ & Hr & ->).
    destruct (pools_fills _ _ _ _ Hne Hu Hn Hm Hpos Hw) as (Eg & Ht' & pool & Hp & Hf). split; [done|]. split; [done|]. exists pool, blocks.
    rewrite (proj1 (pool_layout_eqs groups c cfg m Hne (layer_groups_some _ Hne Hu))), Hs, Hpg in Hp. injection Hp as <-.
    rewrite (proj1 (pool_layout_eqs groups c cfg m Hne (layer_groups_some _ Hne Hu))), Hs, Hpg. by split_and!.
Qed.

(** *** The smallest number of blocks *)

Lemma shrink_tensors_ok old new tensors tensors' : Forall2 (λ t t', shrink_tensor old new t = Ok t') tensors tensors' →
  (∀ groups, tensors_ok groups old tensors → tensors_ok groups new tensors') ∧
  (∀ units, tensor_size <$> tensors = (λ u, u * old) <$> units → tensor_size <$> tensors' = (λ u, u * new) <$> units).
Proof.
  intros H. assert (Forall2 (λ t t', shared_by t' = shared_by t ∧ ∀ u, tensor_size t = u * old → tensor_size t' = u * new) tensors tensors') as Hs.
  { eapply Forall2_impl; [exact H|]. intros t t' Ht. unfold shrink_tensor in Ht. results. split; [done|]. intros u Hu. simpl. rewrite Hu, Z.div_mul by done. done. }
  clear H. split.
  - intros groups [Hcov Hsz Hap]. split.
    + intros Ha. rewrite <-(Hcov Ha). apply reflexive_eq. f_equal. clear -Hs. induction Hs as [|t t' ts ts' [E _] _ IH]; [done|]. by rewrite !fmap_cons, E, IH.
    + intros t' g layer [i Hi]%list_elem_of_lookup Hg Hl Hin. destruct (Forall2_lookup_r _ _ _ _ _ Hs Hi) as (t & Ht & E & Hu).
      rewrite E in Hin. apply list_elem_of_lookup_2 in Ht. destruct (Hsz t g layer Ht Hg Hl Hin) as (page & Hp & Ez). exists page. eauto.
    + intros t' g l1 l2 [i Hi]%list_elem_of_lookup Hg H1 H2 Hin1 Hin2. destruct (Forall2_lookup_r _ _ _ _ _ Hs Hi) as (t & Ht & E & Hu).
      rewrite E in *. apply list_elem_of_lookup_2 in Ht. eauto.
  - clear -Hs. induction Hs as [|t t' ts ts' [_ E] _ IH]; intros [|u units] Eu; try done. rewrite !fmap_cons in *. injection Eu as Eu Eus.
    f_equal; auto.
Qed.

(** *** The layers of one worker *)

Lemma one_block_size (l : list KVCacheSpec) : len (remove_dups (block_size <$> l)) ≤ 1 → ∀ s1 s2, s1 ∈ l → s2 ∈ l → block_size s1 = block_size s2.
Proof.
  intros Hl s1 s2 H1 H2. assert (∀ s, s ∈ l → block_size s ∈ remove_dups (block_size <$> l)) as Hin.
  { intros s Hs. rewrite elem_of_remove_dups. apply list_elem_of_fmap. eauto. }
  apply Hin in H1, H2. destruct (remove_dups _) as [|x [|y l']]; [by apply elem_of_nil in H1| |unfold len in Hl; simpl in Hl; lia].
  set_solver.
Qed.
Lemma same_blocks_head s l : (∀ s' cfg, s' ∈ s :: l → max_memory_usage_blocks s' cfg = max_memory_usage_blocks s cfg) → same_blocks (s :: l).
Proof. intros H s1 s2 cfg H1 H2. by rewrite (H s1), (H s2). Qed.

Lemma Ok_inj {A} (x y : A) : Ok x = Ok y → x = y.
Proof. by intros [= ->]. Qed.
Lemma uniform_same_blocks specs : is_uniform_type specs = Ok true → specs ≠ [] ∧ same_blocks specs.*2.
Proof.
  unfold is_uniform_type. destruct (1 <? _) eqn:Hbs; [done|]. apply Z.ltb_ge in Hbs. pose proof (one_block_size _ Hbs) as Hb. clear Hbs.
  destruct specs as [|[n s] specs]; [done|]. intros H. split; [done|]. rewrite fmap_cons in *. apply same_blocks_head. intros s' cfg Hs'.
  specialize (Hb s' s Hs' ltac:(left)).
  assert (∀ f, forallb f (s :: specs.*2) = true → f s' = true) as Hall by (intros f Hf; by apply (forallb_elem f _ _ Hf)).
  destruct s; cbv beta iota zeta in H; try done; apply Ok_inj in H; apply Hall in H; destruct s'; try done; simpl in Hb, H |- *;
    rewrite ?Hb; try done; try (apply andb_prop in H as [_ H]); try (apply bool_decide_eq_true in H); try (apply Z.eqb_eq in H); simplify_eq; try done.
  by rewrite H.
Qed.

Lemma project_group_ok worker g g' : group_ok g → project_group worker g = Ok g' →
  lg_layer_names g' = filter (λ n, n ∈ worker.*1) (lg_layer_names g) ∧ worker_group_ok g' ∧ is_uniform_group g' = is_uniform_group g ∧
  ∀ cfg, request_blocks cfg (lg_spec g') = request_blocks cfg (lg_spec g).
Proof.
  intros Hok H. unfold project_group in H. apply bind_Ok in H as (spec & Hspec & H). results. split; [done|].
  unfold group_ok in Hok. unfold worker_group_ok, is_uniform_group, as_uniform. simpl. destruct (lg_spec g) as [s|u]; [by results|].
  destruct Hok as [Hkeys [Hne Hsame]%uniform_same_blocks]. destruct (bool_decide _) eqn:Hb; simpl in Hspec; results.
  { apply bool_decide_eq_true in Hb. rewrite Hb. by auto 6. }
  apply bool_decide_eq_false in Hb. rename select (Forall2 _ _ _) into Hf. simpl.
  assert (x.*1 = filter (λ n, n ∈ worker.*1) (lg_layer_names g) ∧ ∀ s, s ∈ x.*2 → s ∈ (kv_cache_specs u).*2) as [Hx Hsub].
  { clear -Hf. induction Hf as [|n p ns ps Hp _ [IH1 IH2]]; [split; [done|by intros ? ?%elem_of_nil]|]. results.
    rename select (find_at _ _ = _) into Hfind. apply find_at_elem in Hfind. split; [done|].
    intros s' [->|]%elem_of_cons; [|auto]. apply list_elem_of_fmap. by eexists (_, _). }
  assert (x ≠ []) as Hxne by (intros ->; by apply Hb). split; [split; [by right|]; split; [done|]; intros ? ? ? ? ?; apply Hsame; auto|].
  split; [done|]. intros cfg. unfold request_blocks. simpl. destruct x as [|[n s] x]; [done|]. destruct (kv_cache_specs u) as [|[n' s'] specs]; [done|].
  simpl. apply Hsame; [apply Hsub; left|left].
Qed.

Lemma concat_filter {A} (P : A → Prop) `{!∀ x, Decision (P x)} (ls : list (list A)) : concat ((λ l, filter P l) <$> ls) = filter P (concat ls).
Proof. induction ls as [|l ls IH]; [done|]. rewrite fmap_cons. simpl. by rewrite filter_app, IH. Qed.

Lemma projected_ok worker groups groups' : Forall group_ok groups → of_one_form groups →
  _project_kv_cache_groups_to_worker groups worker = Ok groups' →
  names groups' = filter (λ n, n ∈ worker.*1) (names groups) ∧ Forall worker_group_ok groups' ∧ of_one_form groups' ∧
  (∀ cfg, needed_blocks cfg (lg_spec <$> groups') = needed_blocks cfg (lg_spec <$> groups)) ∧ length groups' = length groups.
Proof.
  intros Hok [b Hb] H. unfold _project_kv_cache_groups_to_worker in H. results.
  assert (Forall2 (λ g g', lg_layer_names g' = filter (λ n, n ∈ worker.*1) (lg_layer_names g) ∧ worker_group_ok g' ∧ is_uniform_group g' = b ∧
    ∀ cfg, request_blocks cfg (lg_spec g') = request_blocks cfg (lg_spec g)) groups groups') as Hf.
  { clear -Hok Hb H. induction H as [|g g' gs gs' Hg _ IH]; [done|]. apply Forall_cons in Hok as [Hg0 Hok], Hb as [Hb0 Hb].
    destruct (project_group_ok _ _ _ Hg0 Hg) as (? & ? & E & ?). constructor; [|auto]. split_and!; try done. by rewrite E. }
  clear -Hf. split_and!.
  - rewrite <-concat_filter. f_equal. induction Hf as [|g g' gs gs' (E & _) _ IH]; [done|]. by rewrite !fmap_cons, E, IH.
  - induction Hf; naive_solver.
  - exists b. induction Hf; naive_solver.
  - intros cfg. unfold needed_blocks. f_equal. induction Hf as [|g g' gs gs' (_ & _ & _ & E) _ IH]; [done|]. by rewrite !fmap_cons, E, IH.
  - symmetry. by eapply Forall2_length.
Qed.

(** *** The whole plan *)

Lemma merge_layer_specs_ok todo merged all : merge_layer_specs todo merged = Ok all → NoDup merged.*1 →
  NoDup all.*1 ∧ ∀ n, n ∈ all.*1 → n ∈ todo.*1 ∨ n ∈ merged.*1.
Proof.
  revert merged. induction todo as [|[n s] todo IH]; intros merged H Hm; simpl in H; [results; set_solver|].
  destruct (find_at n merged) as [s'|] eqn:Hf; results.
  - destruct (IH _ H Hm) as [? Hall]. split; [done|]. intros k Hk. rewrite fmap_cons, elem_of_cons. simpl. destruct (Hall k Hk); auto.
  - apply IH in H as [? Hall].
    + split; [done|]. intros k Hk. rewrite fmap_cons, elem_of_cons. simpl. rewrite fmap_app in Hall. set_solver.
    + rewrite fmap_app. apply NoDup_app. split; [done|]. split; [|apply NoDup_singleton]. simpl. intros k Hk ->%list_elem_of_singleton.
      apply list_elem_of_fmap in Hk as ([k s'] & -> & Hin). by rewrite (find_at_unique _ _ _ Hm Hin) in Hf.
Qed.

(** The memory a worker plans with. *)
Definition effective (c : PlanConfig) (groups : list LayerGroup) (m m' : Z) : Prop :=
  match num_gpu_blocks_override c with
  | None => m' = m
  | Some o => groups ≠ [] → ∃ pool, _pool_bytes_per_block groups = Ok pool ∧ m' = o * pool
  end.

Lemma check_worker_ok cfg groups m : check_worker cfg (groups, m) = Ok tt → groups ≠ [] →
  0 < m ∧ ∃ need, _max_memory_usage_bytes_from_groups cfg groups = Ok need ∧ need ≤ m.
Proof.
  unfold check_worker, _check_enough_kv_cache_memory. destruct groups as [|g gs]; [done|]. intros H _. case_match eqn:Hm; [done|]. apply Z.leb_gt in Hm.
  split; [done|]. results. case_match eqn:Hx; [by results|]. apply Z.ltb_ge in Hx. eauto.
Qed.

Lemma fills_enough c groups m m' pool blocks num_blocks tensors : effective c groups m m' → groups ≠ [] → _pool_bytes_per_block groups = Ok pool →
  0 < m' → pool * blocks ≤ m' → fills c m' pool num_blocks tensors → blocks ≤ num_blocks.
Proof.
  unfold effective, may_override_num_blocks. intros He Hne Hp Hm Hb (bytes & units & Hbytes & -> & _). unfold may_override_num_blocks.
  destruct (num_gpu_blocks_override c) as [o|]; simpl.
  - destruct (He Hne) as (pool' & Hp' & ->). rewrite Hp in Hp'. simplify_eq. nia.
  - apply Z.div_le_lower_bound; [lia|]. destruct (decide (0 ≤ blocks)); nia.
Qed.
Lemma sumZ_scale (units : list Z) n : sumZ ((λ u, u * n) <$> units) = sumZ units * n.
Proof. induction units as [|u units IH]; [done|]. rewrite fmap_cons, !sumZ_cons, IH. lia. Qed.
Lemma shrunk_fits c m pool old new tensors tensors' : num_gpu_blocks_override c = None → fills c m pool old tensors → new ≤ old → 0 ≤ m →
  Forall2 (λ t t', shrink_tensor old new t = Ok t') tensors tensors' → sumZ (tensor_size <$> tensors') ≤ m.
Proof.
  intros Ho (bytes & units & Hb & Hold & Hsz & Hu & Hsum) Hn Hm Hs. destruct (shrink_tensors_ok _ _ _ _ Hs) as [_ Hsz'].
  rewrite (Hsz' _ Hsz), sumZ_scale. unfold may_override_num_blocks in Hold. rewrite Ho in Hold. simpl in Hold.
  pose proof (Z.mul_div_le m bytes). pose proof (sumZ_nonneg _ Hu). assert (0 ≤ old) by (subst; apply Z.div_pos; lia).
  destruct (decide (0 ≤ new)); nia.
Qed.

Lemma names_length groups : sumZ ((λ g, len (lg_layer_names g)) <$> groups) = len (names groups).
Proof. induction groups as [|g gs IH]; [done|]. rewrite !fmap_cons, sumZ_cons, IH. simpl. by rewrite len_app. Qed.

Lemma planned_worker c cfg global spec m m' groups w : Forall group_ok global → of_one_form global → NoDup (names global) → NoDup spec.*1 →
  _project_kv_cache_groups_to_worker global spec = Ok groups → Forall positive_group groups → effective c groups m m' →
  check_worker cfg (groups, m') = Ok tt → plan_worker c (groups, spec, m') = Ok w →
  wc_kv_cache_groups w = groups ∧ names groups ≡ₚ spec.*1 ∧ tensors_ok groups (wc_num_blocks w) (wc_kv_cache_tensors w) ∧
  (groups ≠ [] → ∃ pool blocks, fills c m' pool (wc_num_blocks w) (wc_kv_cache_tensors w) ∧ 0 < m' ∧
    needed_blocks cfg (lg_spec <$> global) = Ok blocks ∧ blocks ≤ wc_num_blocks w).
Proof.
  intros Hok Hform Hn Hns Hp Hpos He Hcheck Hw. destruct (projected_ok _ _ _ Hok Hform Hp) as (Hnames & Hok' & Hform' & Hneed & _).
  unfold plan_worker in Hw. apply bind_Ok in Hw as (? & Hlen & Hw). apply guard_Ok, Z.eqb_eq in Hlen.
  assert (names groups ≡ₚ spec.*1) as Hperm.
  { apply submseteq_length_Permutation.
    - rewrite Hnames. apply NoDup_submseteq; [by apply NoDup_filter|]. by intros n [? _]%list_elem_of_filter.
    - rewrite length_fmap. apply Nat2Z.inj_le. change (len spec ≤ len (names groups)). rewrite <-Hlen, names_length. done. }
  destruct (decide (groups = [])) as [->|Hne].
  { simpl in Hw. results. split_and!; [done..| |done]. split; [done|by intros ? ? ? ? ?%elem_of_nil..]. }
  destruct (check_worker_ok _ _ _ Hcheck Hne) as (Hm' & need & Hmem & Hle).
  assert (NoDup (names groups)) as Hnd by (rewrite Hperm; done).
  destruct (worker_config c cfg groups m' need w) as (Eg & Ht & pool & blocks & Hpool & Hf & Hb & ->); try done; [lia|].
  split_and!; [done..|]. intros _. exists pool, blocks. split; [done|]. split; [done|]. rewrite <-Hneed. split; [done|].
  by eapply fills_enough.
Qed.

Lemma config_groups c groups m w : get_kv_cache_config_from_groups c groups m = Ok w → wc_kv_cache_groups w = groups.
Proof.
  intros H. assert (groups = [] ∨ (∃ l u e, groups = [mkLayerGroup l (Uniform u) e]) ∨ (2 ≤ length groups)%nat ∧ forallb is_uniform_group groups = true ∨
    groups ≠ [] ∧ forallb is_uniform_group groups = false) as [->|[(l & u & e & ->)|[[Hl Hu]|[Hne Hu]]]].
  { destruct groups as [|[l [s|u] e] [|g gs]]; [by left|by right; right; right| |right; left; eauto|];
      right; right; (destruct (forallb _ _); [left; split; [simpl; lia|done]|by right]). }
  - simpl in H. by results.
  - simpl in H. by results.
  - rewrite (proj2 (proj2 (tuple_layout_eqs groups c (pc_vllm c) m Hl Hu))) in H. apply bind_Ok in H as ([nb ts] & _ & H). by results.
  - rewrite (proj2 (proj2 (pool_layout_eqs groups c (pc_vllm c) m Hne Hu))) in H. by results.
Qed.
Lemma shrink_worker_ok cfg new w w' : shrink_worker cfg new w = Ok w' →
  wc_num_blocks w' = new ∧ wc_kv_cache_groups w' = wc_kv_cache_groups w ∧
  Forall2 (λ t t', shrink_tensor (wc_num_blocks w) new t = Ok t') (wc_kv_cache_tensors w) (wc_kv_cache_tensors w').
Proof. unfold shrink_worker. intros H. results. simpl in H. destruct (wc_kv_cache_groups w) eqn:E; results; simpl; by rewrite ?E. Qed.

Lemma effective_ok c projected mem mem' : effective_memory c projected mem = Ok mem' → length mem = length projected →
  length mem' = length projected ∧ ∀ i groups m m', projected !! i = Some groups → mem !! i = Some m → mem' !! i = Some m' → effective c groups m m'.
Proof.
  unfold effective_memory, effective. intros H Hl. destruct (num_gpu_blocks_override c) as [o|]; results; [|split; [done|]; intros; congruence].
  split; [rewrite <-(Forall2_length _ _ _ H), length_zip_with; lia|]. intros i groups m m' Hg Hm Hm' Hne.
  assert (zip projected mem !! i = Some (groups, m)) as Hz by (rewrite lookup_zip_with, Hg; simpl; by rewrite Hm).
  pose proof (Forall2_lookup_lr _ _ _ _ _ _ H Hz Hm') as E. unfold overridden_memory in E. destruct groups as [|g gs]; [done|]. results. eauto.
Qed.

(** What the plan of one worker promises. *)
Record planned (c : PlanConfig) (global : list LayerGroup) (spec : layer_specs) (m n : Z) (w : WorkerConfig) : Prop := {
  pl_blocks : wc_num_blocks w = n;
  pl_projected : _project_kv_cache_groups_to_worker global spec = Ok (wc_kv_cache_groups w);
  pl_layers : names (wc_kv_cache_groups w) ≡ₚ spec.*1;
  pl_tensors : tensors_ok (wc_kv_cache_groups w) n (wc_kv_cache_tensors w);
  pl_memory : num_gpu_blocks_override c = None → wc_kv_cache_groups w ≠ [] → sumZ (tensor_size <$> wc_kv_cache_tensors w) ≤ m
}.

Lemma planned_shrunk c cfg global spec m m' n groups w0 w : groups_ok global → NoDup (names global) → NoDup spec.*1 →
  _project_kv_cache_groups_to_worker global spec = Ok groups → effective c groups m m' →
  check_worker cfg (groups, m') = Ok tt → plan_worker c (groups, spec, m') = Ok w0 → shrink_worker cfg n w0 = Ok w → n ≤ wc_num_blocks w0 →
  Forall positive_group (wc_kv_cache_groups w) →
  planned c global spec m n w ∧
  (global ≠ [] → ∃ blocks, needed_blocks cfg (lg_spec <$> global) = Ok blocks ∧ blocks ≤ wc_num_blocks w0).
Proof.
  intros (Hok & _ & Hform) Hn Hns Hp He Hc Hw0 (Eb & Eg & Hs)%shrink_worker_ok Hle Hpos. destruct (projected_ok _ _ _ Hok Hform Hp) as (_ & _ & _ & _ & Hl).
  assert (wc_kv_cache_groups w0 = groups) as E0. { unfold plan_worker in Hw0. results. by eapply config_groups. }
  rewrite Eg, E0 in Hpos. destruct (planned_worker c cfg global spec m m' groups w0) as (_ & Hperm & Ht & Hrest); [done..|].
  assert (groups ≠ [] → global ≠ []) by (destruct groups, global; done). split.
  - split; rewrite ?Eg, ?E0; [done..|by eapply shrink_tensors_ok|]. intros Ho Hne. destruct (Hrest Hne) as (pool & blocks & Hf & Hm' & _).
    unfold effective in He. rewrite Ho in He. subst m'. eapply shrunk_fits; [done..|lia|done].
  - intros Hne. destruct Hrest as (pool & blocks & _ & _ & ? & ?); [by destruct groups, global|]. eauto.
Qed.

(** *** A worker that has all layers *)

Lemma project_whole worker g g' : group_ok g → NoDup (lg_layer_names g) → (∀ n, n ∈ lg_layer_names g → n ∈ worker.*1) →
  project_group worker g = Ok g' → lg_spec g' = lg_spec g.
Proof.
  intros Hok Hn Hall H. unfold project_group in H. rewrite filter_keep in H by done. apply bind_Ok in H as (spec & Hspec & H). results. simpl.
  unfold group_ok in Hok. destruct (lg_spec g) as [s|u]; [by results|]. destruct Hok as [Hkeys _]. case_match; results; [|done].
  rename select (Forall2 _ _ _) into Hf. rewrite <-Hkeys in Hf, Hn. f_equal. destruct u as [bs specs]. simpl in *. f_equal.
  assert (∀ p, p ∈ specs → find_at p.1 specs = Some p.2) as Hfind by (intros [] ?; by apply find_at_unique).
  assert (∀ l x, (∀ p, p ∈ l → p ∈ specs) →
    Forall2 (λ n p, (s ← need KeyError (find_at n specs); mret (n, s)) = Ok p) l.*1 x → x = l) as Haux; [|by apply Haux].
  clear -Hfind. induction l as [|[n s] l IH]; intros x Hsub Hx; inversion Hx as [|? p ? ps Hp]; subst; [done|].
  pose proof (Hfind (n, s) ltac:(apply Hsub; left)) as E. simpl in E, Hp. rewrite E in Hp. simpl in Hp. results. f_equal. apply IH; [set_solver|done].
Qed.
Lemma projected_whole worker groups groups' : Forall group_ok groups → NoDup (names groups) → (∀ n, n ∈ names groups → n ∈ worker.*1) →
  _project_kv_cache_groups_to_worker groups worker = Ok groups' → lg_spec <$> groups' = lg_spec <$> groups.
Proof.
  intros Hok Hn Hall H. unfold _project_kv_cache_groups_to_worker in H. results.
  induction H as [|g g' gs gs' Hg _ IH]; [done|]. apply Forall_cons in Hok as [Hg0 Hok]. rewrite fmap_cons in Hn, Hall. simpl in Hn, Hall.
  apply NoDup_app in Hn as (Hn & _ & Hns). rewrite !fmap_cons, IH by set_solver. f_equal. eapply project_whole; [done..| |done]. set_solver.
Qed.
Lemma aligned_single g : aligned [g].
Proof.
  intros g0 u sizes [= <-] Hu Hs g' u' n s ->%list_elem_of_singleton Hu' Hin. simplify_eq.
  apply page_sizes_ok in Hs as [_ Hs]. apply Hs, list_elem_of_fmap. by exists (n, s).
Qed.
Lemma aligned_layers groups : Forall (λ g, is_uniform_group g = false) groups → aligned groups.
Proof.
  intros H g u sizes Hg Hu. destruct groups as [|g0 gs]; [done|]. injection Hg as ->. apply Forall_cons in H as [H _].
  unfold is_uniform_group in H. by rewrite Hu in H.
Qed.

(** The layers of the model are not divided in a way that parts tuples of pages: one group,
    groups with one specification each, or a worker that has all layers. *)
Definition undivided (specs : list layer_specs) (spec : layer_specs) (w : WorkerConfig) : Prop :=
  (length (wc_kv_cache_groups w) ≤ 1)%nat ∨ (∃ g, g ∈ wc_kv_cache_groups w ∧ is_uniform_group g = false) ∨
  ∀ spec' layer, spec' ∈ specs → layer ∈ spec'.*1 → layer ∈ spec.*1.

Lemma planned_cover c specs global spec m n w : groups_ok global → NoDup (names global) →
  (∀ layer, layer ∈ names global → ∃ spec, spec ∈ specs ∧ layer ∈ spec.*1) →
  planned c global spec m n w → undivided specs spec w → concat (shared_by <$> wc_kv_cache_tensors w) ≡ₚ spec.*1.
Proof.
  intros (Hok & Ha & Hform) Hn Hin [Hb Hp Hl Ht _] Hd. rewrite <-Hl. apply Ht. destruct Hd as [Hd|[(g & Hg & Hu)|Hd]].
  - destruct (wc_kv_cache_groups w) as [|g [|]]; [by intros ? ? ? [=]|apply aligned_single|simpl in Hd; lia].
  - destruct (projected_ok _ _ _ Hok Hform Hp) as (_ & _ & [b Hb'] & _). apply aligned_layers. rewrite Forall_forall in *.
    intros g' Hg'. rewrite (Hb' _ Hg'), <-(Hb' _ Hg). done.
  - eapply aligned_same; [|exact Ha]. eapply projected_whole; [done..| |done]. intros layer (spec' & ? & ?)%Hin. eauto.
Qed.

Lemma scheduler_groups_ok groups : Forall worker_group_ok groups → ∃ gs, traverse scheduler_group groups = Ok gs ∧
  ∀ cfg', sum_results ((λ g, max_memory_usage_blocks (kv_cache_spec g) cfg') <$> gs) = needed_blocks cfg' (lg_spec <$> groups) ∧ length gs = length groups.
Proof.
  induction 1 as [|g groups Hg _ (gs & Hgs & IH)]; [by exists []|].
  assert (∃ g', scheduler_group g = Ok g' ∧ ∀ cfg', max_memory_usage_blocks (kv_cache_spec g') cfg' = request_blocks cfg' (lg_spec g)) as (g' & Hg' & E).
  { unfold scheduler_group, worker_group_ok in *. destruct (lg_spec g) as [s|u]; [by eexists|]. destruct Hg as (_ & Hne & _).
    unfold request_blocks. destruct (kv_cache_specs u) as [|[l s] specs']; [done|]. by eexists. }
  exists (g' :: gs). split; [simpl; by rewrite Hg', Hgs|]. intros cfg'. destruct (IH cfg') as [IH1 IH2]. split; [|simpl; by rewrite IH2].
  unfold needed_blocks in *. rewrite !fmap_cons. cbn [sum_results]. by rewrite E, IH1.
Qed.

#[local] Set Default Proof Using "Type*".

Section Plan.
Context (c : PlanConfig) (specs : list layer_specs) (mem : list Z) (cfgs : list WorkerConfig) (cfg : VllmConfig).
Context (specs_dicts : Forall (λ spec, NoDup spec.*1) specs) (one_memory : length mem = length specs).
Context (planned_ok : get_kv_cache_configs c specs mem = Ok (cfgs, cfg)).
Context (pages_positive : Forall (λ w, Forall positive_group (wc_kv_cache_groups w)) cfgs).

Lemma plan_inv : ∃ global n, groups_ok global ∧ NoDup (names global) ∧ specs ≠ [] ∧ length cfgs = length specs ∧
  (∀ layer, layer ∈ names global → ∃ spec, spec ∈ specs ∧ layer ∈ spec.*1) ∧
  (∀ i spec m w, specs !! i = Some spec → mem !! i = Some m → cfgs !! i = Some w → planned c global spec m n w) ∧
  (global ≠ [] → ∃ blocks, needed_blocks cfg (lg_spec <$> global) = Ok blocks ∧ blocks ≤ n).
Proof.
  pose proof planned_ok as H. unfold get_kv_cache_configs in H. apply bind_Ok in H as (merged & Hmerge & H).
  apply bind_Ok in H as (global & Hglobal & H). apply bind_Ok in H as (projected & Hproj & H). apply bind_Ok in H as (mem' & Hmem & H).
  apply bind_Ok in H as (cfg' & _ & H). apply bind_Ok in H as (checks & Hcheck & H). apply bind_Ok in H as (configs & Hplan & H).
  apply bind_Ok in H as (n & Hmin & H). apply bind_Ok in H as (cfgs' & Hshrink & H). injection H as -> ->. result_inv Hproj. result_inv Hcheck.
  result_inv Hplan. result_inv Hshrink. apply min_of_Ok in Hmin as [Hmin Hle].
  pose proof (Forall2_length _ _ _ Hproj) as L1. destruct (effective_ok _ _ _ _ Hmem) as [L2 He]; [lia|].
  pose proof (Forall2_length _ _ _ Hplan) as L3. rewrite !length_zip_with in L3. pose proof (Forall2_length _ _ _ Hshrink) as L4.
  apply merge_layer_specs_ok in Hmerge as [Hnd Hin]; [|constructor]. apply get_kv_cache_groups_ok in Hglobal as [Hsub Hok].
  assert (NoDup (names global)) as Hng.
  { pose proof Hsub as [rest Hrest]%submseteq_Permutation. rewrite Hrest in Hnd. by apply NoDup_app in Hnd as [? _]. }
  assert (∀ i spec m, specs !! i = Some spec → mem !! i = Some m → ∃ w0 w, configs !! i = Some w0 ∧ cfgs !! i = Some w ∧ planned c global spec m n w ∧
    (global ≠ [] → ∃ blocks, needed_blocks cfg (lg_spec <$> global) = Ok blocks ∧ blocks ≤ wc_num_blocks w0)) as Hidx.
  { intros i spec m Hspec Hm. destruct (Forall2_lookup_l _ _ _ _ _ Hproj Hspec) as (groups & Hg & Hproj').
    assert (is_Some (mem' !! i)) as [m' Hm'] by (apply lookup_lt_is_Some_2; apply lookup_lt_Some in Hspec; lia).
    assert (zip projected mem' !! i = Some (groups, m')) as Hz by (rewrite lookup_zip_with, Hg; simpl; by rewrite Hm').
    assert (zip (zip projected specs) mem' !! i = Some (groups, spec, m')) as Hz' by (rewrite !lookup_zip_with, Hg; simpl; rewrite Hspec; simpl; by rewrite Hm').
    destruct (Forall2_lookup_l _ _ _ _ _ Hcheck Hz) as ([] & _ & Hc). destruct (Forall2_lookup_l _ _ _ _ _ Hplan Hz') as (w0 & Hw0 & Hp).
    destruct (Forall2_lookup_l _ _ _ _ _ Hshrink Hw0) as (w & Hw & Hs). exists w0, w. split; [done|]. split; [done|].
    rewrite Forall_lookup in specs_dicts. rewrite Forall_lookup in pages_positive. apply (planned_shrunk c cfg global spec m m' n groups w0 w); try done; [eauto..| |eauto].
    apply Hle, list_elem_of_fmap. exists w0. split; [done|]. by eapply list_elem_of_lookup_2. }
  exists global, n. split; [done|]. split; [done|]. split; [intros ->; destruct configs; [by apply elem_of_nil in Hmin|]; simpl in *; lia|].
  split; [lia|]. split; [|split].
  - intros layer Hl. eapply elem_of_submseteq in Hl; [|exact Hsub]. apply Hin in Hl as [Hl|Hl]; [|by apply elem_of_nil in Hl].
    apply list_elem_of_fmap in Hl as ([? s] & -> & (spec & Hs & Hspec)%elem_of_concat). exists spec. split; [done|]. apply list_elem_of_fmap. by eexists.
  - intros i spec m w Hspec Hm Hw. destruct (Hidx i spec m Hspec Hm) as (w0 & w' & _ & Hw' & Hp & _). rewrite Hw in Hw'. by simplify_eq.
  - intros Hne. apply list_elem_of_fmap in Hmin as (w0 & -> & [i Hi]%list_elem_of_lookup).
    assert (i < length specs)%nat by (apply lookup_lt_Some in Hi; lia).
    destruct (lookup_lt_is_Some_2 specs i) as [spec Hspec]; [done|]. destruct (lookup_lt_is_Some_2 mem i) as [m Hm]; [lia|].
    destruct (Hidx i spec m Hspec Hm) as (w0' & w' & Hi' & _ & _ & Hb). rewrite Hi in Hi'. simplify_eq. auto.
Qed.

(** C9: The plan of the KV cache is sound.  Let the pages of the planned groups be positive.
    When [get_kv_cache_configs] returns, all workers have the same number of blocks; every
    layer of a worker is in exactly one of its groups; a tensor that a layer shares holds
    exactly that number of the pages that the layer has in its group, and never two layers of
    one group, which have the same block table.  If the number of blocks is not overridden,
    the tensors fit the memory of the worker.  If the worker is [undivided] (at most one
    group, or a group with one specification, or all layers of the model), every layer is in
    exactly one tensor. *)
Theorem cache_plan_sound :
  ∃ n, length cfgs = length specs ∧ ∀ i spec m w, specs !! i = Some spec → mem !! i = Some m → cfgs !! i = Some w →
    wc_num_blocks w = n ∧ names (wc_kv_cache_groups w) ≡ₚ spec.*1 ∧ tensors_ok (wc_kv_cache_groups w) n (wc_kv_cache_tensors w) ∧
    (num_gpu_blocks_override c = None → wc_kv_cache_groups w ≠ [] → sumZ (tensor_size <$> wc_kv_cache_tensors w) ≤ m) ∧
    (undivided specs spec w → concat (shared_by <$> wc_kv_cache_tensors w) ≡ₚ spec.*1).
Proof.
  destruct plan_inv as (global & n & Hok & Hn & _ & Hl & Hin & Hp & _). exists n. split; [done|]. intros i spec m w Hspec Hm Hw.
  pose proof (Hp i spec m w Hspec Hm Hw) as Hpl. destruct Hpl as [? ? ? ? ?] eqn:E. split_and!; try done. intros Hd. by eapply planned_cover.
Qed.

(** C10: The scheduler gets a cache in which the longest request fits.  From the
    configurations of the workers [generate_scheduler_kv_cache_config] makes one, and its
    number of blocks is at least the sum over the groups of the blocks a request of the
    greatest length (the one that auto-fit has chosen) takes. *)
Theorem cache_plan_holds_longest_request :
  ∃ kv, generate_scheduler_kv_cache_config cfgs = Ok kv ∧
    (kv_cache_groups kv ≠ [] → ∃ blocks,
       sum_results ((λ g, max_memory_usage_blocks (kv_cache_spec g) cfg) <$> kv_cache_groups kv) = Ok blocks ∧ blocks ≤ num_blocks kv).
Proof.
  destruct plan_inv as (global & n & (Hok & _ & Hform) & Hn & Hne & Hl & _ & Hp & Henough).
  destruct specs as [|spec specs']; [done|]. destruct mem as [|m mem']; [done|]. destruct cfgs as [|w cfgs']; [done|].
  destruct (Hp 0%nat spec m w eq_refl eq_refl eq_refl) as [Hb Hproj _ _ _].
  destruct (projected_ok _ _ _ Hok Hform Hproj) as (_ & Hw & _ & Hneed & Hlen). destruct (scheduler_groups_ok _ Hw) as (gs & Hgs & Hsum).
  assert (forallb (λ w', wc_num_blocks w' =? wc_num_blocks w) (w :: cfgs') = true) as Hall.
  { apply forallb_forall. intros w' [i Hi]%list_elem_of_In%list_elem_of_lookup. apply Z.eqb_eq. rewrite Hb.
    destruct (lookup_lt_is_Some_2 (spec :: specs') i) as [spec' Hs]; [apply lookup_lt_Some in Hi; lia|].
    destruct (lookup_lt_is_Some_2 (m :: mem') i) as [m' Hm]; [apply lookup_lt_Some in Hi; lia|]. by destruct (Hp i spec' m' w' Hs Hm Hi). }
  eexists. unfold generate_scheduler_kv_cache_config. rewrite Hall. simpl. rewrite Hgs. split; [done|]. simpl. intros Hgne.
  destruct (Hsum cfg) as [-> Hlen']. rewrite Hneed. rewrite Hb. apply Henough. intros ->. destruct gs; [done|]. simpl in *. lia.
Qed.
End Plan.

Definition has_pages (s : KVCacheSpec) : bool := match page_size_bytes s with Ok page => 0 <? page | Raise _ => false end.
Definition has_group_pages (g : LayerGroup) : bool :=
  match lg_spec g with Layer s => has_pages s | Uniform u => forallb has_pages (kv_cache_specs u).*2 end.
Lemma has_pages_ok s : has_pages s = true → positive_spec s.
Proof. unfold has_pages, positive_spec. destruct (page_size_bytes s) as [p|]; [|done]. intros H%Z.ltb_lt. eauto. Qed.
Lemma positive_check ws : forallb (λ w, forallb has_group_pages (wc_kv_cache_groups w)) ws = true →
  Forall (λ w, Forall positive_group (wc_kv_cache_groups w)) ws.
Proof.
  rewrite !Forall_forall. intros H w Hw. apply Forall_forall. intros g Hg. pose proof (forallb_elem _ _ _ (forallb_elem _ _ _ H Hw) Hg) as Hp.
  unfold has_group_pages, positive_group in *. destruct (lg_spec g); [by apply has_pages_ok|]. intros s Hs. by eapply has_pages_ok, forallb_elem.
Qed.

(** ** A hybrid model on two pipeline stages *)

Definition small_attention : AttentionSpec := mkAttention 16 1 8 (mkDtype "float16" 2) NONE None.
Definition small_full : KVCacheSpec := make_full small_attention None None None.
Definition small_window : KVCacheSpec := make_sliding_window small_attention 17 None.
Definition stages : list layer_specs :=
  [[("f0", small_full); ("s0", small_window); ("s1", small_window)]; [("f1", small_full); ("s2", small_window)]].
Definition stage_config : PlanConfig := mkPlanConfig (mkVllmConfig 64 1 1 32 MambaNone 0) None false false 64.
Definition stage_plan : list WorkerConfig :=
  match get_kv_cache_configs stage_config stages [7000; 9000] with Ok (cfgs, _) => cfgs | Raise _ => [] end.

Lemma stage_plan_ok : get_kv_cache_configs stage_config stages [7000; 9000] = Ok (stage_plan, pc_vllm stage_config).
Proof. vm_compute. reflexivity. Qed.
Lemma stage_plan_positive : Forall (λ w, Forall positive_group (wc_kv_cache_groups w)) stage_plan.
Proof. apply positive_check. vm_compute. reflexivity. Qed.

Lemma cache_plan_sound_witness :
  ∃ n w1 w2, stage_plan = [w1; w2] ∧ wc_num_blocks w1 = n ∧ wc_num_blocks w2 = n ∧
    concat (shared_by <$> wc_kv_cache_tensors w1) ≡ₚ ["f0"; "s0"; "s1"] ∧ concat (shared_by <$> wc_kv_cache_tensors w2) ≡ₚ ["f1"; "s2"] ∧
    sumZ (tensor_size <$> wc_kv_cache_tensors w2) ≤ 9000.
Proof.
  destruct (cache_plan_sound stage_config stages [7000; 9000] stage_plan (pc_vllm stage_config)) as (n & _ & Hw).
  - repeat constructor; vm_compute; set_solver.
  - reflexivity.
  - exact stage_plan_ok.
  - exact stage_plan_positive.
  - destruct (Hw 0%nat (nth 0 stages []) 7000 (nth 0 stage_plan (mkWorkerConfig 0 [] [])) eq_refl eq_refl ltac:(vm_compute; reflexivity)) as (H1 & _ & _ & _ & C1).
    destruct (Hw 1%nat (nth 1 stages []) 9000 (nth 1 stage_plan (mkWorkerConfig 0 [] [])) eq_refl eq_refl ltac:(vm_compute; reflexivity)) as (H2 & _ & _ & M2 & C2).
    eexists n, _, _. split; [vm_compute; reflexivity|]. split; [exact H1|]. split; [exact H2|]. split; [apply C1|split; [apply C2|]].
    + right. left. eexists. split; [vm_compute; left|vm_compute; reflexivity].
    + right. left. eexists. split; [vm_compute; left|vm_compute; reflexivity].
    + apply M2; vm_compute; congruence.
Defined.

Definition stage_kv : KVCacheConfig :=
  match generate_scheduler_kv_cache_config stage_plan with Ok kv => kv | Raise _ => mkKVCacheConfig 0 [] [] end.

Lemma cache_plan_holds_longest_request_witness :
  ∃ kv, generate_scheduler_kv_cache_config stage_plan = Ok kv ∧
    sum_results ((λ g, max_memory_usage_blocks (kv_cache_spec g) (pc_vllm stage_config)) <$> kv_cache_groups kv) = Ok 12 ∧ 12 ≤ num_blocks kv.
Proof.
  destruct (cache_plan_holds_longest_request stage_config stages [7000; 9000] stage_plan (pc_vllm stage_config)) as (kv & Hkv & Hb).
  - repeat constructor; vm_compute; set_solver.
  - reflexivity.
  - exact stage_plan_ok.
  - exact stage_plan_positive.
  - exists kv. split; [exact Hkv|].
    assert (generate_scheduler_kv_cache_config stage_plan = Ok stage_kv) as E by (vm_compute; reflexivity). rewrite E in Hkv. apply Ok_inj in Hkv. subst kv.
    destruct Hb as (blocks & Hs & Hle); [vm_compute; discriminate|].
    assert (sum_results ((λ g, max_memory_usage_blocks (kv_cache_spec g) (pc_vllm stage_config)) <$> kv_cache_groups stage_kv) = Ok 12) as E12
      by (vm_compute; reflexivity).
    rewrite E12 in Hs. apply Ok_inj in Hs. subst blocks. split; [exact E12|exact Hle].
Defined.
