(* ===== verification/KVFit.v ===== *)
(** * The longest sequence, equal pages and padding

    Three searches of KVConfig.v: the bisection for the greatest sequence length that fits
    the memory, the block sizes that give all layers the same page, and the number of layer
    tuples that wastes least. *)

From S2P Require Import Prelude KVSpec KVConfig KVGroups KVPlan.

#[local] Open Scope Z_scope.

(** ** Bisection *)

Section Bisect.
Context (fits : Z → result bool) (f : Z → bool) (max : Z).
Context (fits_ok : ∀ n, 1 ≤ n ≤ max → fits n = Ok (f n)) (f_down : ∀ n n', 1 ≤ n ≤ n' → f n' = true → f n = true).
#[local] Set Default Proof Using "Type*".

Lemma bisect_ok fuel left right best : (Z.to_nat (right - left + 1) < fuel)%nat → 1 ≤ left → right ≤ max → 1 ≤ best ≤ max → f best = true →
  left - 1 ≤ best → (∀ n, right < n ≤ max → f n = false) →
  ∃ r, bisect fits fuel left right best = Ok r ∧ 1 ≤ r ≤ max ∧ f r = true ∧ ∀ n, r < n ≤ max → f n = false.
Proof.
  revert left right best. induction fuel as [|fuel IH]; intros left right best Hf Hl Hr Hb Hfb Hlb Hout; [lia|]. simpl.
  destruct (Z.leb_spec left right) as [Hle|Hgt].
  - assert (left ≤ (left + right) / 2 ≤ right) as Hmid by (split; [apply Z.div_le_lower_bound|apply Z.div_le_upper_bound]; lia).
    rewrite fits_ok by lia. simpl. destruct (f ((left + right) / 2)) eqn:E; apply IH; try done; try lia.
    intros n Hn. destruct (f n) eqn:En; [|done]. rewrite (f_down ((left + right) / 2) n) in E by (done || lia). done.
  - exists best. split; [done|]. split; [lia|]. split; [done|]. intros n Hn. apply Hout. lia.
Qed.

Lemma longest_ok : 1 ≤ max → ∃ r, longest_that_fits fits max = Ok r ∧ 0 ≤ r ≤ max ∧ ∀ n, 1 ≤ n ≤ max → (f n = true ↔ n ≤ r).
Proof.
  intros Hmax. unfold longest_that_fits. rewrite fits_ok by lia. simpl. destruct (f 1) eqn:E1; simpl.
  - destruct (bisect_ok (S (Z.to_nat max)) 1 max 1) as (r & Hr & Hrng & Hfr & Hout); try lia; [done|].
    exists r. split; [done|]. split; [lia|]. intros n Hn. split.
    + intros Hfn. destruct (decide (n ≤ r)); [done|]. by rewrite Hout in Hfn by lia.
    + intros Hle. by apply (f_down n r); [lia|].
  - exists 0. split; [done|]. split; [lia|]. intros n Hn. split; [|lia]. intros Hfn. by rewrite (f_down 1 n) in E1 by (done || lia).
Qed.
End Bisect.

(** ** Memory grows with the length *)

(** Both raise the same exception, or the second result is no smaller. *)
Definition rle (r r' : result Z) : Prop :=
  match r, r' with Ok a, Ok b => a ≤ b | Raise e, Raise e' => e = e' | _, _ => False end.

#[global] Instance rle_refl : Reflexive rle.
Proof. intros []; simpl; [lia|done]. Qed.

Lemma rle_sum {A} (f f' : A → result Z) l : (∀ x, x ∈ l → rle (f x) (f' x)) → rle (sum_results (f <$> l)) (sum_results (f' <$> l)).
Proof.
  induction l as [|x l IH]; intros H; [simpl; lia|]. rewrite !fmap_cons. cbn [sum_results]. specialize (IH ltac:(set_solver)). specialize (H x ltac:(left)).
  destruct (f x), (f' x); simpl in H; try done. destruct (sum_results (f <$> l)), (sum_results (f' <$> l)); simpl in *; try done. lia.
Qed.
Lemma max_results_cons r r' l : max_results (r :: r' :: l) =
  match r with Raise e => Raise e | Ok x => match max_results (r' :: l) with Ok y => Ok (Z.max x y) | Raise e => Raise e end end.
Proof. by destruct r. Qed.
Lemma rle_max {A} (f f' : A → result Z) l : (∀ x, x ∈ l → rle (f x) (f' x)) → rle (max_results (f <$> l)) (max_results (f' <$> l)).
Proof.
  induction l as [|x [|y l] IH]; intros H; [done|specialize (H x ltac:(left)); simpl; by destruct (f x), (f' x)|].
  specialize (IH ltac:(set_solver)). specialize (H x ltac:(left)). rewrite !fmap_cons in *. rewrite !max_results_cons.
  destruct (f x), (f' x); simpl in H; try done. destruct (max_results (f y :: _)), (max_results (f' y :: _)); simpl in *; try done. lia.
Qed.
Lemma rle_traverse {A} (f f' : A → result Z) (g : list Z → Z) l : (∀ x, x ∈ l → rle (f x) (f' x)) →
  (∀ ys ys', Forall2 Z.le ys ys' → g ys ≤ g ys') → rle (ys ← traverse f l; mret (g ys)) (ys ← traverse f' l; mret (g ys)).
Proof.
  intros H Hg. assert (match traverse f l, traverse f' l with Ok ys, Ok ys' => Forall2 Z.le ys ys' | Raise e, Raise e' => e = e' | _, _ => False end) as Ht.
  { induction l as [|x l IH]; simpl; [done|]. specialize (IH ltac:(set_solver)). specialize (H x ltac:(left)). destruct (f x), (f' x); simpl in *; try done.
    destruct (traverse f l), (traverse f' l); simpl; try done. by constructor. }
  destruct (traverse f l), (traverse f' l); simpl in *; try done. by apply Hg.
Qed.
Lemma sumZ_le ys ys' : Forall2 Z.le ys ys' → sumZ ys ≤ sumZ ys'.
Proof. induction 1 as [|y y' ys ys' ? _ IH]; [done|]. rewrite !sumZ_cons. lia. Qed.

Lemma tuple_layout_bounds groups bytes k : Forall positive_group groups → tuple_layout groups = Ok (bytes, k) → 0 ≤ bytes ∧ 0 ≤ k.
Proof.
  destruct groups as [|g groups]; [done|]. intros [Hg _]%Forall_cons H. unfold tuple_layout in H. results.
  rename select (as_uniform g = _) into Hu. rename select (get_page_sizes _ = _) into Hs. rename select (max_of _ = _) into Hm.
  rename select (Forall2 _ _ _) into Hf. unfold positive_group in Hg. rewrite (uniform_group_spec _ _ Hu) in Hg. split.
  - apply sumZ_nonneg. eapply Forall_impl; [exact (positive_uniform _ _ Hg Hs)|]. simpl. intros; lia.
  - apply max_of_Ok in Hm as [[i Hi]%list_elem_of_lookup _]. destruct (Forall2_lookup_r _ _ _ _ _ Hf Hi) as (g' & _ & Ht).
    results. unfold get_num_layer_tuples in Ht. results. case_match; [done|]. apply max_of_Ok in Ht as [(p & -> & _)%list_elem_of_fmap _]. apply len_nonneg.
Qed.

(** Layers with pages and blocks. *)
Definition sized_spec (s : KVCacheSpec) : Prop := 0 < block_size s ∧ positive_spec s.
Definition sized_group (g : LayerGroup) : Prop :=
  match lg_spec g with Layer s => sized_spec s | Uniform u => ∀ s, s ∈ (kv_cache_specs u).*2 → sized_spec s end.

Section Mono.
Context (cfg : VllmConfig) (n n' : Z) (n_le : n ≤ n').
#[local] Set Default Proof Using "Type*".
Abbreviation C := (with_max_model_len n cfg).
Abbreviation C' := (with_max_model_len n' cfg).

Lemma blocks_mono s : 0 < block_size s → rle (max_memory_usage_blocks s C) (max_memory_usage_blocks s C').
Proof.
  intros Hb. assert (∀ a b, 0 < b → a ≤ a → cdiv (Z.min a n) b ≤ cdiv (Z.min a n') b) as Hmin by (intros; apply cdiv_le; lia).
  destruct s as [a|a|a|a|a|a|a|m|a|a]; simpl in *; unfold chunked_admission_blocks, sliding_admission_blocks.
  all: try (case_match; [|by apply cdiv_le]; apply cdiv_le; [done|]; apply cdiv_le; [|done]; apply Z.ltb_lt in H; lia).
  all: try (case_match; simpl; try done; pose proof (Hmin (sliding_window - 1 + cfg_max_num_batched_tokens cfg) (attn_block_size a) Hb ltac:(done)); lia).
  - by apply Hmin.
  - case_match; simpl; [lia|by apply cdiv_le|lia].
  - lia.
  - lia.
Qed.
Lemma bytes_mono s : sized_spec s → rle (max_memory_usage_bytes s C) (max_memory_usage_bytes s C').
Proof.
  intros [Hb (page & Hp & Hpos)]. pose proof (blocks_mono s Hb) as H. unfold max_memory_usage_bytes. rewrite Hp.
  destruct (max_memory_usage_blocks s C), (max_memory_usage_blocks s C'); simpl in H; try done.
  destruct s; simpl; nia.
Qed.
Lemma pages_mono s : sized_spec s → rle (spec_pages C s) (spec_pages C' s).
Proof.
  intros Hs. pose proof (bytes_mono s Hs) as H. destruct Hs as [Hb (page & Hp & Hpos)]. unfold spec_pages. rewrite Hp.
  destruct (max_memory_usage_bytes s C), (max_memory_usage_bytes s C'); simpl in *; try done. by apply cdiv_le.
Qed.

Lemma sized_positive groups : Forall sized_group groups → Forall positive_group groups.
Proof using Type.
  intros H. eapply Forall_impl; [exact H|]. intros g. unfold sized_group, positive_group. destruct (lg_spec g); [by intros [_ ?]|].
  intros Hs s' Hs'. by destruct (Hs s' Hs').
Qed.

Lemma memory_mono groups : of_one_form groups → Forall sized_group groups →
  rle (_max_memory_usage_bytes_from_groups C groups) (_max_memory_usage_bytes_from_groups C' groups).
Proof.
  intros Hform Hs. destruct (decide (groups = [])) as [->|Hne]; [done|]. pose proof (sized_positive _ Hs) as Hpos. rewrite Forall_forall in Hs.
  destruct (shape_of _ Hne Hform) as [layers u e|groups Hl Hu|groups _ Hu].
  - simpl. apply rle_sum. intros s Hin. apply bytes_mono. by apply (Hs _ ltac:(left)).
  - set (c := mkPlanConfig cfg None false false 0). rewrite !(proj1 (proj2 (tuple_layout_eqs groups c _ 0 Hl (uniform_groups_all _ Hu)))).
    destruct (tuple_layout groups) as [[bytes k]|] eqn:Ht; [|done]. simpl. apply rle_traverse.
    + intros g Hg. destruct (as_uniform g) as [u|] eqn:Eu; [|done]. simpl. apply rle_max. intros [l s] Hin. apply pages_mono. specialize (Hs g Hg).
      unfold sized_group in Hs. rewrite (uniform_group_spec _ _ Eu) in Hs. apply Hs, list_elem_of_fmap. by exists (l, s).
    + destruct (tuple_layout_bounds _ _ _ Hpos Ht) as [Hb Hk]. intros ys ys' Hys.
      assert (∀ l, sumZ ((λ x, k * x * bytes) <$> l) = k * bytes * sumZ l) as Hsum.
      { clear. induction l as [|x l IH]; [simpl; lia|]. rewrite fmap_cons, !sumZ_cons, IH. lia. }
      rewrite !Hsum. apply Z.mul_le_mono_nonneg_l; [nia|by apply sumZ_le].
  - set (c := mkPlanConfig cfg None false false 0). rewrite !(proj1 (proj2 (pool_layout_eqs groups c _ 0 Hne (layer_groups_some _ Hne Hu)))).
    destruct (layers_per_group groups) as [size|] eqn:Hsize; [|done]. simpl. destruct (get_uniform_page_size _) as [page|] eqn:Hpage; [|done]. simpl.
    pose proof (layer_group_pages _ _ Hu Hpos Hpage) as Hg. apply max_of_Ok in Hsize as [(g0 & E0 & Hg0)%list_elem_of_fmap _].
    destruct (Hg g0 Hg0) as (_ & _ & _ & Hpp). apply rle_traverse.
    + intros g Hin. destruct (Hg g Hin) as (s & Es & _). specialize (Hs g Hin). unfold sized_group in Hs. rewrite Es in *. simpl.
      pose proof (bytes_mono s Hs) as Hb. destruct (max_memory_usage_bytes s C), (max_memory_usage_bytes s C'); simpl in *; try done.
      unfold cdiv_. rewrite (proj2 (Z.eqb_neq page 0)) by lia. by apply cdiv_le.
    + intros ys ys' Hys. pose proof (len_nonneg (lg_layer_names g0)). apply Z.mul_le_mono_nonneg_l; [nia|by apply sumZ_le].
Qed.
End Mono.

(** ** The length that is chosen *)

(** The memory is enough for a request of [n] tokens. *)
Definition fits_worker (cfg : VllmConfig) (n : Z) (w : list LayerGroup * Z) : Prop :=
  w.1 = [] ∨ ∃ need, _max_memory_usage_bytes_from_groups (with_max_model_len n cfg) w.1 = Ok need ∧ need ≤ w.2.

Lemma with_own_length cfg : with_max_model_len (cfg_max_model_len cfg) cfg = cfg.
Proof. by destruct cfg. Qed.

(** Groups whose memory can be computed. *)
Definition measurable (cfg : VllmConfig) (groups : list LayerGroup) : Prop :=
  of_one_form groups ∧ Forall sized_group groups ∧ ∃ need, _max_memory_usage_bytes_from_groups cfg groups = Ok need.

Lemma estimate_ok cfg groups m : groups ≠ [] → measurable cfg groups → 1 ≤ cfg_max_model_len cfg →
  ∃ r, _estimate_max_model_len_from_groups cfg groups m = Ok r ∧ 0 ≤ r ≤ cfg_max_model_len cfg ∧
    ∀ n, 1 ≤ n ≤ cfg_max_model_len cfg → (fits_worker cfg n (groups, m) ↔ n ≤ r).
Proof.
  intros Hne (Hform & Hs & need & Hneed) Hmax.
  set (f n := match _max_memory_usage_bytes_from_groups (with_max_model_len n cfg) groups with Ok need => need <=? m | Raise _ => false end).
  assert (∀ n, n ≤ cfg_max_model_len cfg → ∃ need, _max_memory_usage_bytes_from_groups (with_max_model_len n cfg) groups = Ok need) as Hdef.
  { intros n Hn. pose proof (memory_mono cfg n _ Hn groups Hform Hs) as H. rewrite with_own_length, Hneed in H.
    destruct (_max_memory_usage_bytes_from_groups (with_max_model_len n cfg) groups) as [x|]; [by exists x|done]. }
  destruct (longest_ok (λ n, x ← _max_memory_usage_bytes_from_groups (with_max_model_len n cfg) groups; mret (x <=? m)) f (cfg_max_model_len cfg))
    as (r & Hr & Hrng & Hiff); [|  |done|].
  - intros n Hn. destruct (Hdef n) as (x & Hx); [lia|]. unfold f. by rewrite Hx.
  - intros n n' Hn. unfold f. pose proof (memory_mono cfg n n' ltac:(lia) groups Hform Hs) as H.
    destruct (_max_memory_usage_bytes_from_groups (with_max_model_len n' cfg) groups); [|done].
    destruct (_max_memory_usage_bytes_from_groups (with_max_model_len n cfg) groups); [|done]. simpl in H. rewrite !Z.leb_le. lia.
  - exists r. split; [done|]. split; [done|]. intros n Hn. rewrite <-Hiff by done. unfold f, fits_worker. simpl. destruct (Hdef n) as (x & ->); [lia|].
    rewrite Z.leb_le. split; [|eauto]. intros [|(? & [= <-] & ?)]; done.
Qed.

Lemma auto_fit_workers_ok cfg workers init : 1 ≤ cfg_max_model_len cfg → 0 ≤ init ≤ cfg_max_model_len cfg → Forall (λ w, measurable cfg w.1) workers →
  ∃ r, auto_fit_workers cfg workers init = Ok r ∧ 0 ≤ r ≤ init ∧
    ∀ n, 1 ≤ n ≤ cfg_max_model_len cfg → (n ≤ r ↔ n ≤ init ∧ Forall (fits_worker cfg n) workers).
Proof.
  intros Hmax Hinit Hm. revert init Hinit. induction Hm as [|[groups m] workers Hg _ IH]; intros init Hinit; simpl.
  { exists init. split; [done|]. split; [lia|]. intros n Hn. rewrite Forall_nil. tauto. }
  destruct (decide (groups = [])) as [->|Hne].
  { destruct (IH init Hinit) as (r & Hr & Hrng & Hiff). exists r. split; [done|]. split; [done|]. intros n Hn. rewrite Hiff, Forall_cons by done.
    unfold fits_worker at 2. simpl. tauto. }
  destruct (estimate_ok cfg groups m Hne Hg Hmax) as (x & Hx & Hrx & Hfx).
  destruct (IH (if x <? init then x else init)) as (r & Hr & Hrng & Hiff); [case_match; lia|].
  exists r. split; [destruct groups; [done|]; by rewrite Hx|]. split; [case_match eqn:E; [apply Z.ltb_lt in E|]; lia|].
  intros n Hn. rewrite Hiff, Forall_cons, Hfx by done. destruct (Z.ltb_spec x init); intuition lia.
Qed.

(** C11: Auto-fit chooses the greatest length that fits.  [_auto_fit_max_model_len] either sets
    a length for which the memory of every worker is enough for one request, and every greater
    length up to the model's own is too long for some worker; or it raises [ValueError], and
    then not even one token fits.  The bisections end within their bounds. *)
Theorem auto_fit_is_greatest cfg projected mem : 1 ≤ cfg_max_model_len cfg → mem ≠ [] → Forall (measurable cfg) projected →
  match _auto_fit_max_model_len cfg projected mem with
  | Ok cfg' => ∃ len', cfg' = with_max_model_len len' cfg ∧ 1 ≤ len' ≤ cfg_max_model_len cfg ∧
      ∀ n, 1 ≤ n ≤ cfg_max_model_len cfg → (Forall (fits_worker cfg n) (zip projected mem) ↔ n ≤ len')
  | Raise e => e = ValueError ∧ ∀ n, 1 ≤ n ≤ cfg_max_model_len cfg → ¬ Forall (fits_worker cfg n) (zip projected mem)
  end.
Proof.
  intros Hmax Hmem Hm. unfold _auto_fit_max_model_len. destruct (forallb _ projected) eqn:Hempty.
  - simpl. exists (cfg_max_model_len cfg). rewrite with_own_length. split; [done|]. split; [lia|]. intros n Hn. split; [lia|]. intros _.
    apply Forall_forall. intros [groups m] Hin%elem_of_zip_l. left. simpl. by apply (forallb_elem _ _ _ Hempty), bool_decide_eq_true in Hin.
  - destruct mem as [|m0 mem']; [done|]. set (mem := m0 :: mem') in *. simpl.
    destruct (auto_fit_workers_ok cfg (zip projected mem) (cfg_max_model_len cfg)) as (r & Hr & Hrng & Hiff); [lia|lia| |].
    { apply Forall_forall. intros [groups m] Hin%elem_of_zip_l. rewrite Forall_forall in Hm. by apply Hm. }
    change (zip projected (m0 :: mem')) with (zip projected mem). rewrite Hr. simpl. destruct (Z.leb_spec r 0) as [H0|H0].
    + split; [done|]. intros n Hn Hall. assert (n ≤ r); [|lia]. apply Hiff; [done|]. split; [lia|done].
    + exists r. split; [destruct (Z.leb_spec (cfg_max_model_len cfg) r); [|done]; assert (r = cfg_max_model_len cfg) as -> by lia; by rewrite with_own_length|].
      split; [lia|]. intros n Hn. rewrite Hiff by done. intuition lia.
Qed.

(** ** Pages of one size *)

(** Layers whose pages grow with their blocks: attention layers without padding; an MLA
    layer stores one entry for each [compress_ratio] tokens, which must divide the block.
    The state of a Mamba layer does not grow. *)
Definition scalable (s : KVCacheSpec) : Prop :=
  match s with
  | MambaSpec _ => False
  | MLAAttentionSpec a _ m | SlidingWindowMLASpec a _ m =>
      page_size_padded a = None ∧ alignment m = None ∧ 0 < compress_ratio m ∧ (compress_ratio m | attn_block_size a)
  | FullAttentionSpec a _ | TQFullAttentionSpec a _ _ | SinkFullAttentionSpec a _ _ | SlidingWindowSpec a _ _
  | ChunkedLocalAttentionSpec a _ | EncoderOnlyAttentionSpec a | CrossAttentionSpec a => page_size_padded a = None
  end.
(** Only the block size is another. *)
Definition rescaled (k : Z) (s s' : KVCacheSpec) : Prop := copy_with_new_block_size s (block_size s * k) = Ok s'.

Lemma div_scale n c k : 0 < c → (c | n) → n * k / c = k * (n / c).
Proof. intros Hc [x ->]. rewrite Z.div_mul by lia. replace (x * c * k) with (k * x * c) by ring. by rewrite Z.div_mul by lia. Qed.

Lemma scalable_page s page k : scalable s → page_size_bytes s = Ok page → ∃ s', rescaled k s s' ∧ page_size_bytes s' = Ok (k * page).
Proof.
  unfold rescaled. destruct s as [a f|a f t|a f m|a f o|a ch|a w hv|a w m|m|a|a]; simpl; try done; [| |intros (Hpad & Hal & Hc & Hdiv)| | | |intros (Hpad & Hal & Hc & Hdiv)| |].
  3,7: unfold make_mla, make_sliding_window_mla, page_size_bytes; simpl; rewrite Hal; simpl; intros Hpage; eexists; (split; [reflexivity|]);
    revert Hpage; simpl; unfold mla_page, swa_mla_page; simpl; rewrite (div_scale _ _ k Hc Hdiv), Hpad; simpl;
    repeat case_match; simpl; intros; simplify_eq/=; f_equal; ring.
  all: intros Hpad; unfold page_size_bytes; simpl; rewrite ?Hpad; simpl; intros Hpage; eexists; (split; [reflexivity|]);
    revert Hpage; simpl; rewrite ?Hpad; unfold full_page, attention_page; simpl; repeat case_match; simpl; intros; simplify_eq/=; f_equal; ring.
Qed.

Lemma page_sizes_list l : (∀ s, s ∈ l → positive_spec s) → ∃ pages, Forall2 (λ s p, page_size_bytes s = Ok p) l pages ∧
  Forall (λ p, 0 < p) pages ∧ page_sizes_of l = Ok (remove_dups pages).
Proof.
  intros (pages & Hf & Hp)%positive_pages. exists pages. split; [done|]. split; [done|]. unfold page_sizes_of. by rewrite (proj2 (traverse_Ok _ _ _) Hf).
Qed.

Lemma rescaled_one s : scalable s → rescaled 1 s s.
Proof.
  unfold rescaled. rewrite Z.mul_1_r. intros Hs. destruct s as [[]|[]|[] []|[]|[]|[]|[]|[]|[]|[]]; try done; simpl in Hs |- *;
    destruct Hs as (_ & Hal & _); unfold make_mla, make_sliding_window_mla; simpl; by rewrite Hal.
Qed.

Lemma unify_layer_ok max n s page : scalable s → page_size_bytes s = Ok page → 0 < page →
  (¬ (page | max) ∧ unify_page_size_of max (n, s) = Raise NotImplementedError) ∨
  ((page | max) ∧ ∃ s', unify_page_size_of max (n, s) = Ok (n, s') ∧ page_size_bytes s' = Ok max ∧ rescaled (max / page) s s').
Proof.
  intros Hs Hp Hpos. unfold unify_page_size_of. rewrite Hp. simpl. destruct (Z.eqb_spec page max) as [->|Hne].
  - right. split; [done|]. exists s. rewrite Z.div_same by lia. auto using rescaled_one.
  - unfold pymod. rewrite (proj2 (Z.eqb_neq page 0)) by lia. simpl. destruct (Z.eqb_spec (max mod page) 0) as [Hd|Hd]; simpl.
    + right. split; [apply Z.mod_divide; [lia|done]|]. destruct (scalable_page s page (max / page) Hs Hp) as (s' & Hr & Hp'). exists s'.
      assert (max / page * page = max) as E by (rewrite Z.mul_comm; symmetry; apply Z.div_exact; [lia|done]). rewrite E in Hp'.
      unfold rescaled in Hr. rewrite Hr. simpl. rewrite Hp'. simpl. by rewrite Z.eqb_refl.
    + left. split; [|done]. intros Hdiv. apply Hd, Z.mod_divide; [lia|done].
Qed.

Lemma unify_layers_ok max specs pages : Forall scalable specs.*2 → Forall2 (λ s p, page_size_bytes s = Ok p) specs.*2 pages → Forall (λ p, 0 < p) pages →
  match traverse (unify_page_size_of max) specs with
  | Ok specs' => Forall (λ p, (p | max)) pages ∧
      Forall2 (λ q q', q'.1 = q.1 ∧ page_size_bytes q'.2 = Ok max ∧ ∃ k, rescaled k q.2 q'.2) specs specs'
  | Raise e => e = NotImplementedError ∧ ¬ Forall (λ p, (p | max)) pages
  end.
Proof.
  revert pages. induction specs as [|[n s] specs IH]; intros pages Hs Hp Hpos; inversion Hp as [|? p ? ps Hsp Hps]; subst; [by split|]. cbn [traverse].
  apply Forall_cons in Hs as [Hs Hss], Hpos as [Hpp Hpos]. simpl in Hs, Hsp. specialize (IH ps Hss Hps Hpos).
  destruct (unify_layer_ok max n s p Hs Hsp Hpp) as [[Hd ->]|[Hd (s' & -> & Hp' & Hr)]]; simpl; [rewrite Forall_cons; naive_solver|].
  destruct (traverse _ specs) as [specs'|e]; simpl in *; rewrite Forall_cons; [|naive_solver]. destruct IH as [IH1 IH2]. split; [done|].
  constructor; [|done]. eauto.
Qed.

(** C12: The pages of all layers are made equal, or the model is refused.  For attention
    layers of any kind without padding, whose compression ratio, if they have one, divides
    the block size, and with positive pages, [unify_kv_cache_spec_page_size] raises
    [NotImplementedError] exactly when the page of some layer does not divide the largest
    one; otherwise every layer keeps its name and all but its block size, and its page is the
    largest one. *)
Theorem pages_unified_or_refused specs : specs ≠ [] → Forall scalable specs.*2 → Forall positive_spec specs.*2 →
  ∃ pages max, Forall2 (λ s p, page_size_bytes s = Ok p) specs.*2 pages ∧ max_of pages = Ok max ∧
  match unify_kv_cache_spec_page_size specs with
  | Ok specs' => Forall (λ p, (p | max)) pages ∧
      Forall2 (λ q q', q'.1 = q.1 ∧ page_size_bytes q'.2 = Ok max ∧ ∃ k, rescaled k q.2 q'.2) specs specs'
  | Raise e => e = NotImplementedError ∧ ¬ Forall (λ p, (p | max)) pages
  end.
Proof.
  intros Hne Hs Hpos. rewrite Forall_forall in Hpos. destruct (page_sizes_list _ Hpos) as (pages & Hf & Hp & Hsizes).
  assert (pages ≠ []) as Hpne by (intros ->; destruct specs; [done|inversion Hf]).
  assert (∃ max, max_of pages = Ok max) as [max Hmax] by (destruct pages; [done|by eexists]). exists pages, max. split; [done|]. split; [done|].
  apply max_of_Ok in Hmax as [Hin Hle]. unfold unify_kv_cache_spec_page_size. rewrite Hsizes. simpl. destruct (Z.leb_spec (len (remove_dups pages)) 1) as [H1|H1].
  - simpl. assert (∀ p, p ∈ pages → p = max) as Hall.
    { intros p Hip. rewrite <-elem_of_remove_dups in Hip, Hin. destruct (remove_dups pages) as [|x [|y l]]; [by apply elem_of_nil in Hip|set_solver|unfold len in H1; simpl in H1; lia]. }
    split; [apply Forall_forall; by intros p ->%Hall|]. clear -Hf Hall Hs. revert pages Hf Hall.
    induction specs as [|[n s] specs IH]; intros pages Hf Hall; inversion Hf as [|? p ? ps Hsp Hps]; subst; [constructor|].
    apply Forall_cons in Hs as [Hs Hss]. constructor; [|eapply IH; [done..|]; intros; apply Hall; by right].
    rewrite <-(Hall p) by left. simpl in *. split; [done|]. split; [done|]. eauto using rescaled_one.
  - assert (max_of (remove_dups pages) = Ok max) as ->.
    { apply max_of_Ok. setoid_rewrite elem_of_remove_dups. done. }
    simpl. by apply unify_layers_ok.
Qed.

(** ** The least padding *)

(** The padding as it is documented: every value rounded up to a multiple of [d]. *)
Definition wasted (values : list Z) (d : Z) : Z := sumZ ((λ x, round_up x d - x) <$> values).

Lemma padding_rounds_up x d : 0 < d → (d - x mod d) mod d = round_up x d - x.
Proof.
  intros Hd. destruct (round_up_spec x d Hd) as [Hr Hm]. symmetry. apply Z.mod_unique with (q := (d - x mod d - (round_up x d - x)) / d); [lia|].
  assert ((d - x mod d - (round_up x d - x)) mod d = 0) as E.
  { replace (d - x mod d - (round_up x d - x)) with (x - x mod d + 1 * d - round_up x d) by lia.
    rewrite Zminus_mod, Hm, Z.mod_add by lia. rewrite (Z.div_mod x d) at 1 by lia.
    replace (d * (x / d) + x mod d - x mod d) with (x / d * d) by lia. by rewrite Z.mod_mul, Z.sub_0_r, Z.mod_0_l by lia. }
  apply Z.div_exact in E; [lia|lia].
Qed.
Lemma padding_wasted values d : 0 < d → padding_of values d = wasted values d.
Proof. intros Hd. unfold padding_of, wasted. f_equal. apply list_fmap_ext. intros _ x _. by apply padding_rounds_up. Qed.

(** [d] wastes less than [d'], or as much and is no smaller. *)
Definition no_worse (values : list Z) (d d' : Z) : Prop := padding_of values d < padding_of values d' ∨ padding_of values d = padding_of values d' ∧ d' ≤ d.

Lemma best_divisor_ok values lo n d best : lo ≤ best < d → (∀ d', lo ≤ d' < d → no_worse values best d') →
  let r := best_divisor values n d best (Some (padding_of values best)) in
  lo ≤ r < d + Z.of_nat n ∧ ∀ d', lo ≤ d' < d + Z.of_nat n → no_worse values r d'.
Proof.
  revert d best. induction n as [|n IH]; intros d best Hb Hall; simpl; [split; [lia|]; intros; apply Hall; lia|].
  replace (d + Z.of_nat (S n)) with (d + 1 + Z.of_nat n) by lia.
  destruct (_ || _) eqn:E.
  - apply IH; [lia|]. intros d' Hd'. destruct (decide (d' = d)) as [->|]; [right; lia|]. specialize (Hall d' ltac:(lia)).
    apply orb_true_iff in E as [E%Z.ltb_lt|[E%Z.eqb_eq _]%andb_prop]; unfold no_worse in *; lia.
  - apply IH; [lia|]. intros d' Hd'. destruct (decide (d' = d)) as [->|]; [|apply Hall; lia].
    apply orb_false_iff in E as [E1%Z.ltb_ge E2]. unfold no_worse. destruct (decide (padding_of values best = padding_of values d)) as [Eq|]; [|lia].
    rewrite (proj2 (Z.eqb_eq _ _)) in E2 by done. apply Z.ltb_ge in E2. lia.
Qed.

(** C36: The size of the groups of layer tuples wastes least.  For positive values
    [_approximate_gcd] returns the divisor, from the lower bound up to the largest value,
    that minimises the padding as it is documented, and the largest of these; it is the lower
    bound itself when that exceeds all values. *)
Theorem approximate_gcd_wastes_least values lower_bound : values ≠ [] → Forall (λ x, 0 < x) values →
  let min_d := Z.max 1 (default 1 lower_bound) in
  ∃ d max_d, _approximate_gcd values lower_bound = Ok d ∧ max_of values = Ok max_d ∧
    (max_d < min_d → d = min_d) ∧
    (min_d ≤ max_d → min_d ≤ d ≤ max_d ∧
      ∀ d', min_d ≤ d' ≤ max_d → wasted values d < wasted values d' ∨ wasted values d = wasted values d' ∧ d' ≤ d).
Proof.
  intros Hne Hpos min_d. assert (∃ m, max_of values = Ok m) as [m Hm] by (destruct values; [done|by eexists]).
  assert (existsb (λ x, x <=? 0) values = false) as Hex.
  { apply not_true_iff_false. rewrite existsb_exists. intros (x & Hx%list_elem_of_In & Hle%Z.leb_le). rewrite Forall_forall in Hpos. specialize (Hpos x Hx). lia. }
  unfold _approximate_gcd. destruct values as [|v vs]; [done|]. set (values := v :: vs) in *. rewrite Hex, Hm. simpl. fold min_d.
  destruct (Z.ltb_spec m min_d) as [Hlt|Hle]; [exists min_d, m; split; [done|]; split; [done|]; split; [done|lia]|].
  replace (Z.to_nat (m + 1 - min_d)) with (S (Z.to_nat (m - min_d))) by lia. simpl.
  destruct (best_divisor_ok values min_d (Z.to_nat (m - min_d)) (min_d + 1) min_d) as [Hr Hall]; [lia|intros d' Hd'; right; split; [f_equal; lia|lia]|].
  eexists _, m. split; [done|]. split; [done|]. split; [lia|]. intros _. split; [lia|]. intros d' Hd'. rewrite <-!padding_wasted by lia. apply Hall. lia.
Qed.

(** ** Examples *)

Definition is_sized (s : KVCacheSpec) : bool := (0 <? block_size s) && has_pages s.
Definition measured (cfg : VllmConfig) (groups : list LayerGroup) : bool :=
  forallb (λ g, match lg_spec g with Layer s => is_sized s | Uniform u => false end) groups &&
  match _max_memory_usage_bytes_from_groups cfg groups with Ok _ => true | Raise _ => false end.
Lemma measured_ok cfg gs : forallb (measured cfg) gs = true → Forall (measurable cfg) gs.
Proof.
  intros H. apply Forall_forall. intros groups Hg. apply (forallb_elem _ _ _ H) in Hg. apply andb_prop in Hg as [Hs Hm].
  assert (∀ g, g ∈ groups → ∃ s, lg_spec g = Layer s ∧ sized_spec s) as Hl.
  { intros g Hin. apply (forallb_elem _ _ _ Hs) in Hin. destruct (lg_spec g) as [s|]; [|done]. exists s. split; [done|].
    apply andb_prop in Hin as [H1%Z.ltb_lt H2%has_pages_ok]. by split. }
  split; [|split].
  - exists false. apply Forall_forall. intros g (s & E & _)%Hl. unfold is_uniform_group, as_uniform. by rewrite E.
  - apply Forall_forall. intros g (s & E & ?)%Hl. unfold sized_group. by rewrite E.
  - destruct (_max_memory_usage_bytes_from_groups cfg groups); [eauto|done].
Qed.

(** The two stages of KVPlan.v with less memory: 16 of 64 tokens fit the first. *)
Definition stage_groups : list (list LayerGroup) := wc_kv_cache_groups <$> stage_plan.
Lemma stage_measurable : Forall (measurable (pc_vllm stage_config)) stage_groups.
Proof. apply measured_ok. vm_compute. reflexivity. Qed.

Lemma auto_fit_is_greatest_witness :
  ∃ cfg', _auto_fit_max_model_len (pc_vllm stage_config) stage_groups [4000; 9000] = Ok cfg' ∧ cfg_max_model_len cfg' = 16 ∧
    ∀ n, 1 ≤ n ≤ 64 → (Forall (fits_worker (pc_vllm stage_config) n) (zip stage_groups [4000; 9000]) ↔ n ≤ 16).
Proof.
  assert (_auto_fit_max_model_len (pc_vllm stage_config) stage_groups [4000; 9000] = Ok (with_max_model_len 16 (pc_vllm stage_config))) as E
    by (vm_compute; reflexivity).
  pose proof (auto_fit_is_greatest (pc_vllm stage_config) stage_groups [4000; 9000] ltac:(vm_compute; discriminate) ltac:(discriminate) stage_measurable) as H.
  rewrite E in H. destruct H as (len' & El & _ & H). eexists. split; [exact E|]. split; [reflexivity|]. intros n Hn.
  assert (len' = 16) as -> by (apply (f_equal cfg_max_model_len) in El; symmetry; exact El). exact (H n Hn).
Defined.

Definition wide_window : KVCacheSpec := make_sliding_window (mkAttention 16 2 8 (mkDtype "float16" 2) NONE None) 17 None.
Lemma pages_unified_or_refused_witness :
  ∃ specs', unify_kv_cache_spec_page_size [("f", small_full); ("w", wide_window)] = Ok specs' ∧
    Forall2 (λ q q', q'.1 = q.1 ∧ page_size_bytes q'.2 = Ok 1024 ∧ ∃ k, rescaled k q.2 q'.2) [("f", small_full); ("w", wide_window)] specs'.
Proof.
  destruct (pages_unified_or_refused [("f", small_full); ("w", wide_window)]) as (pages & max & Hp & Hm & H).
  - discriminate.
  - repeat constructor.
  - repeat constructor; apply has_pages_ok; vm_compute; reflexivity.
  - apply traverse_Ok in Hp. vm_compute in Hp. apply Ok_inj in Hp. subst pages. vm_compute in Hm. apply Ok_inj in Hm. subst max.
    destruct (unify_kv_cache_spec_page_size [("f", small_full); ("w", wide_window)]) as [specs'|e] eqn:E.
    + exists specs'. split; [reflexivity|]. exact (proj2 H).
    + exfalso. vm_compute in E. discriminate E.
Defined.

Lemma approximate_gcd_wastes_least_witness : ∃ d, _approximate_gcd [10; 21] (Some 10) = Ok d ∧ d = 11 ∧
  ∀ d', 10 ≤ d' ≤ 21 → wasted [10; 21] d < wasted [10; 21] d' ∨ wasted [10; 21] d = wasted [10; 21] d' ∧ d' ≤ d.
Proof.
  destruct (approximate_gcd_wastes_least [10; 21] (Some 10)) as (d & max_d & Hd & Hm & _ & H); [discriminate|repeat constructor|].
  vm_compute in Hm. apply Ok_inj in Hm. subst max_d. exists d. split; [exact Hd|]. split; [|exact (proj2 (H ltac:(simpl; lia)))].
  vm_compute in Hd. apply Ok_inj in Hd. by symmetry.
Defined.
