(* ===== verification/CacheHit.v ===== *)
(** * Prefix-cache lookup

    The [find_longest_cache_hit] class methods of
    vllm/v1/core/single_type_kv_cache_manager.py: for each kind of attention, the
    longest prefix of a request that is in the cache, as one list of blocks per
    group, with null blocks where the attention needs no block. *)

From S2P Require Import Prelude FreeQueue Request BlockHash BlockPool KVSpec.

(** [computed[i] = b], for an index in range *)
Definition py_set {A} (l : list A) (i : Z) (x : A) : list A := <[Z.to_nat i := x]> l.

(** [l.pop()], the list it leaves; the callers never pop from an empty list *)
Definition pop_last {A} (l : list A) : list A := take (length l - 1) l.

(** [[x] * n] *)
Definition py_repeat {A} (x : A) (n : Z) : list A := replicate (Z.to_nat n) x.

Section Lookup.
Implicit Types (pool : BlockPool) (computed : list (list ref)).

(** [if cached_block := block_pool.get_cached_block(...)]: an empty list is falsy. *)
Definition cached pool (kv_cache_group_ids : list Z) (h : bytes) : option (list ref) :=
  match get_cached_block pool h kv_cache_group_ids with
  | Some (b :: bs) => Some (b :: bs)
  | _ => None
  end.

(** [for computed, cached in zip(...): computed.append(cached)] *)
Definition append_each computed (bs : list ref) : list (list ref) :=
  zip_with (λ c b, c ++ [b]) computed bs.

(** [len(computed_blocks[0])] *)
Definition first_len computed : Z := match computed with [] => 0 | c :: _ => len c end.

(** [for computed in computed_blocks: computed.pop()] *)
Definition pop_each computed : list (list ref) := pop_last <$> computed.

(** The loop that pops until the length is a multiple of [alignment_tokens]; the
    length of the first list is enough fuel, as the condition fails at length 0. *)
Fixpoint align_loop (fuel : nat) (bs alignment_tokens : Z) computed : list (list ref) :=
  match fuel with
  | O => computed
  | S fuel =>
      if negb (bs =? alignment_tokens) && negb (first_len computed * bs mod alignment_tokens =? 0)
      then align_loop fuel bs alignment_tokens (pop_each computed)
      else computed
  end.
Definition align (bs alignment_tokens : Z) computed : list (list ref) :=
  align_loop (Z.to_nat (first_len computed)) bs alignment_tokens computed.

(** ** Full attention *)

(** The loop over the hashes, until the first one that is not cached. *)
Fixpoint scan_prefix pool (kv_cache_group_ids : list Z) (hs : list bytes) computed : list (list ref) :=
  match hs with
  | [] => computed
  | h :: hs =>
      match cached pool kv_cache_group_ids h with
      | Some bs => scan_prefix pool kv_cache_group_ids hs (append_each computed bs)
      | None => computed
      end
  end.

(** The block size with the context-parallel ranks counted in. *)
Definition parallel_block_size (bs dcp pcp : Z) : Z :=
  if 1 <? dcp * pcp then bs * (dcp * pcp) else bs.

Definition full_find_longest_cache_hit (block_hashes : BlockHashList) (max_length : Z)
    (kv_cache_group_ids : list Z) pool (spec : KVCacheSpec) (use_eagle : bool)
    (alignment_tokens dcp_world_size pcp_world_size : Z) : result (list (list ref)) :=
  if negb (is_full_attention spec || is_chunked_local spec) then Raise AssertionError
  else
    let computed_blocks := (λ _, []) <$> kv_cache_group_ids in
    let bs := parallel_block_size (block_size spec) dcp_world_size pcp_world_size in
    let max_num_blocks := max_length / bs in
    if max_num_blocks <? 0 then Raise ValueError (* [islice] *)
    else
      let computed_blocks :=
        scan_prefix pool kv_cache_group_ids (take (Z.to_nat max_num_blocks) (bhl_iter block_hashes))
          computed_blocks in
      match computed_blocks with
      | [] => if use_eagle || negb (bs =? alignment_tokens) then Raise IndexError else Ok []
      | _ =>
          let computed_blocks :=
            if use_eagle && (0 <? first_len computed_blocks) then pop_each computed_blocks
            else computed_blocks in
          Ok (align bs alignment_tokens computed_blocks)
      end.

(** ** Sliding window *)

(** The loop from the last block to the first; returns the lists, the length of the
    current run of cached blocks, and whether the run is long enough. *)
Fixpoint sliding_loop pool (block_hashes : BlockHashList) (kv_cache_group_ids : list Z)
    (bs alignment_tokens contiguous : Z) (use_eagle : bool) (idxs : list Z)
    computed (num_contiguous_blocks : Z) : result (list (list ref) * Z * bool) :=
  match idxs with
  | [] => Ok (computed, num_contiguous_blocks, false)
  | i :: idxs =>
      let continue := sliding_loop pool block_hashes kv_cache_group_ids bs alignment_tokens
                        contiguous use_eagle idxs in
      match bhl_get block_hashes i with
      | None => Raise IndexError
      | Some h =>
          match cached pool kv_cache_group_ids h with
          | Some cached_block =>
              let post_pop_blocks := if use_eagle then i else i + 1 in
              if (num_contiguous_blocks =? 0) && negb (bs =? alignment_tokens) &&
                 negb (post_pop_blocks * bs mod alignment_tokens =? 0)
              then continue computed num_contiguous_blocks
              else
                let computed := zip_with (λ c b, py_set c i b) computed cached_block in
                let num_contiguous_blocks := num_contiguous_blocks + 1 in
                if contiguous <=? num_contiguous_blocks
                then Ok (take (Z.to_nat (i + num_contiguous_blocks)) <$> computed,
                         num_contiguous_blocks, true)
                else continue computed num_contiguous_blocks
          | None => continue computed 0
          end
      end
  end.

Definition sliding_find_longest_cache_hit (block_hashes : BlockHashList) (max_length : Z)
    (kv_cache_group_ids : list Z) pool (spec : KVCacheSpec) (use_eagle : bool)
    (alignment_tokens dcp_world_size pcp_world_size : Z) : result (list (list ref)) :=
  match window_of spec with
  | None => Raise AssertionError
  | Some sliding_window =>
      if negb (dcp_world_size =? 1) || negb (pcp_world_size =? 1) then Raise AssertionError
      else
        let bs := block_size spec in
        let contiguous := cdiv (sliding_window - 1) bs + (if use_eagle then 1 else 0) in
        let max_num_blocks := max_length / bs in
        let computed_blocks := (λ _, py_repeat (null_block pool) max_num_blocks) <$> kv_cache_group_ids in
        match sliding_loop pool block_hashes kv_cache_group_ids bs alignment_tokens contiguous
                use_eagle (py_range_down max_num_blocks) computed_blocks 0 with
        | Raise e => Raise e
        | Ok (computed_blocks, num_contiguous_blocks, match_found) =>
            match computed_blocks with
            | [] => if use_eagle || (negb match_found && negb (bs =? alignment_tokens))
                    then Raise IndexError else Ok []
            | _ =>
                let computed_blocks :=
                  if match_found then computed_blocks
                  else align bs alignment_tokens
                         (take (Z.to_nat num_contiguous_blocks) <$> computed_blocks) in
                Ok (if use_eagle && (0 <? first_len computed_blocks)
                    then align bs alignment_tokens (pop_each computed_blocks)
                    else computed_blocks)
            end
        end
  end.

(** ** Chunked local attention *)

Fixpoint chunked_loop pool (block_hashes : BlockHashList) (kv_cache_group_ids : list Z)
    (idxs : list Z) computed : result (list (list ref)) :=
  match idxs with
  | [] => Ok computed
  | i :: idxs =>
      match bhl_get block_hashes i with
      | None => Raise IndexError
      | Some h =>
          match cached pool kv_cache_group_ids h with
          | Some bs => chunked_loop pool block_hashes kv_cache_group_ids idxs (append_each computed bs)
          | None => Ok computed
          end
      end
  end.

Definition chunked_find_longest_cache_hit (block_hashes : BlockHashList) (max_length : Z)
    (kv_cache_group_ids : list Z) pool (spec : KVCacheSpec) (use_eagle : bool)
    (alignment_tokens dcp_world_size pcp_world_size : Z) : result (list (list ref)) :=
  match spec with
  | ChunkedLocalAttentionSpec _ attention_chunk_size =>
      if use_eagle || negb (dcp_world_size =? 1) || negb (pcp_world_size =? 1) ||
         negb (block_size spec =? alignment_tokens)
      then Raise AssertionError
      else
        let max_num_blocks := max_length / block_size spec in
        let local_attention_start_idx :=
          if 0 <? max_length then max_length / attention_chunk_size * attention_chunk_size else 0 in
        let local_attention_start_block_idx := local_attention_start_idx / block_size spec in
        let computed_blocks :=
          (λ _, py_repeat (null_block pool) local_attention_start_block_idx) <$> kv_cache_group_ids in
        chunked_loop pool block_hashes kv_cache_group_ids
          (py_range local_attention_start_block_idx max_num_blocks) computed_blocks
  | _ => Raise AssertionError
  end.

(** ** Mamba *)

Fixpoint mamba_loop pool (block_hashes : BlockHashList) (kv_cache_group_ids : list Z)
    (bs alignment_tokens : Z) (idxs : list Z) computed : result (list (list ref)) :=
  match idxs with
  | [] => Ok computed
  | i :: idxs =>
      let continue := mamba_loop pool block_hashes kv_cache_group_ids bs alignment_tokens idxs computed in
      match bhl_get block_hashes i with
      | None => Raise IndexError
      | Some h =>
          match cached pool kv_cache_group_ids h with
          | Some cached_block =>
              if negb (bs =? alignment_tokens) && negb ((i + 1) * bs mod alignment_tokens =? 0)
              then continue
              else Ok (zip_with (λ c b, c ++ py_repeat (null_block pool) i ++ [b]) computed cached_block)
          | None => continue
          end
      end
  end.

Definition mamba_find_longest_cache_hit (block_hashes : BlockHashList) (max_length : Z)
    (kv_cache_group_ids : list Z) pool (spec : KVCacheSpec) (use_eagle : bool)
    (alignment_tokens dcp_world_size pcp_world_size : Z) : result (list (list ref)) :=
  if negb (is_mamba spec) || negb (dcp_world_size =? 1) || negb (pcp_world_size =? 1)
  then Raise AssertionError
  else
    mamba_loop pool block_hashes kv_cache_group_ids (block_size spec) alignment_tokens
      (py_range_down (max_length / block_size spec)) ((λ _, []) <$> kv_cache_group_ids).

(** ** Dispatch on the class of the manager *)

Inductive ManagerClass :=
  | FullAttentionManager
  | SlidingWindowManager
  | ChunkedLocalAttentionManager
  | MambaManager
  | CrossAttentionManager
  | SinkFullAttentionManager.

(** [spec_manager_map] *)
Definition spec_manager_map (s : KVCacheSpec) : option ManagerClass :=
  match s with
  | FullAttentionSpec _ _ | TQFullAttentionSpec _ _ _ | MLAAttentionSpec _ _ _ =>
      Some FullAttentionManager
  | SlidingWindowSpec _ _ _ | SlidingWindowMLASpec _ _ _ => Some SlidingWindowManager
  | ChunkedLocalAttentionSpec _ _ => Some ChunkedLocalAttentionManager
  | MambaSpec _ => Some MambaManager
  | CrossAttentionSpec _ => Some CrossAttentionManager
  | SinkFullAttentionSpec _ _ _ => Some SinkFullAttentionManager
  | EncoderOnlyAttentionSpec _ => None
  end.

Definition find_longest_cache_hit (cls : ManagerClass) (block_hashes : BlockHashList)
    (max_length : Z) (kv_cache_group_ids : list Z) pool (spec : KVCacheSpec) (use_eagle : bool)
    (alignment_tokens dcp_world_size pcp_world_size : Z) : result (list (list ref)) :=
  match cls with
  | FullAttentionManager | SinkFullAttentionManager =>
      full_find_longest_cache_hit block_hashes max_length kv_cache_group_ids pool spec use_eagle
        alignment_tokens dcp_world_size pcp_world_size
  | SlidingWindowManager =>
      sliding_find_longest_cache_hit block_hashes max_length kv_cache_group_ids pool spec use_eagle
        alignment_tokens dcp_world_size pcp_world_size
  | ChunkedLocalAttentionManager =>
      chunked_find_longest_cache_hit block_hashes max_length kv_cache_group_ids pool spec use_eagle
        alignment_tokens dcp_world_size pcp_world_size
  | MambaManager =>
      mamba_find_longest_cache_hit block_hashes max_length kv_cache_group_ids pool spec use_eagle
        alignment_tokens dcp_world_size pcp_world_size
  | CrossAttentionManager => if is_cross spec then Raise NotImplementedError else Raise AssertionError
  end.
End Lookup.

(** ** What a lookup returns *)

Section HitProofs.
Implicit Types (p : BlockPool) (g : Z) (h : bytes) (r : ref) (c : list ref) (gids : list Z)
  (hs : list bytes) (computed : list (list ref)).

(** Block [r] holds the tokens hashed by [h], for group [g]. *)
Definition hit p g h r : Prop :=
  valid p r ∧ bhash p r = Some (group_key h g).

(** The hash [h] is not cached for some group. *)
Definition miss p gids h : Prop := ∃ g, g ∈ gids ∧ ∀ r, ¬ hit p g h r.

(** The blocks of a row are hits for the hashes at their positions. *)
Definition row_hits p g hs c : Prop :=
  ∀ i r, c !! i = Some r → ∃ h, hs !! i = Some h ∧ hit p g h r.

(** The same, with null blocks allowed. *)
Definition row_hits_or_null p g hs c : Prop :=
  ∀ i r, c !! i = Some r → r = null_block p ∨ ∃ h, hs !! i = Some h ∧ hit p g h r.

Lemma row_hits_weaken p g hs c : row_hits p g hs c → row_hits_or_null p g hs c.
Proof. intros Hc i r Hr. right. by apply Hc. Qed.

Lemma cached_Some p free gids h bs :
  pool_wf p free → cached p gids h = Some bs → Forall2 (λ g r, hit p g h r) gids bs.
Proof.
  intros Hwf. pose proof (get_cached_block_ok p free h gids Hwf) as Hok. unfold cached.
  destruct (get_cached_block p h gids) as [[|]|]; intros; by simplify_eq.
Qed.

Lemma cached_None p free gids h :
  pool_wf p free → gids ≠ [] → cached p gids h = None → miss p gids h.
Proof.
  intros Hwf Hne. pose proof (get_cached_block_ok p free h gids Hwf) as Hok. unfold cached.
  destruct (get_cached_block p h gids) as [[|]|]; intros Hc; simplify_eq.
  - by apply Forall2_nil_inv_r in Hok.
  - destruct Hok as (g & Hg & Hn). exists g. split; [done|]. intros r [Hv Hh]. by apply (Hn r).
Qed.

(** *** The aligned length *)

(** The largest length up to [n] that is a multiple of the alignment. *)
Fixpoint aligned (bs alignment_tokens : Z) (n : nat) : nat :=
  match n with
  | O => O
  | S k => if (bs =? alignment_tokens) || (Z.of_nat n * bs mod alignment_tokens =? 0) then n
           else aligned bs alignment_tokens k
  end.

Lemma aligned_le bs al n : (aligned bs al n ≤ n)%nat.
Proof. induction n as [|n IH]; cbn [aligned]; [lia|]. case_match; lia. Qed.

Lemma aligned_mod bs al n : bs = al ∨ Z.of_nat (aligned bs al n) * bs mod al = 0.
Proof.
  induction n as [|n IH]; cbn [aligned]; [right; apply Zmod_0_l|].
  destruct (Z.eqb_spec bs al); [by left|].
  destruct (Z.eqb_spec (Z.of_nat (S n) * bs mod al) 0); simpl; [by right|done].
Qed.

Lemma aligned_multiple bs al n : al ≠ 0 → (al | Z.of_nat (aligned bs al n) * bs)%Z.
Proof.
  intros Hal. destruct (aligned_mod bs al n) as [->|Hm].
  - apply Z.divide_factor_r.
  - by apply Z.mod_divide.
Qed.

Lemma aligned_max bs al n k :
  (aligned bs al n < k ≤ n)%nat → Z.of_nat k * bs mod al ≠ 0.
Proof.
  induction n as [|n IH]; cbn [aligned]; [lia|]. intros Hk.
  destruct ((bs =? al) || (Z.of_nat (S n) * bs mod al =? 0)) eqn:Hc; [lia|].
  apply orb_false_iff in Hc as [_ Hc%Z.eqb_neq].
  destruct (decide (k = S n)) as [->|]; [done|]. apply IH. lia.
Qed.

Lemma pop_last_take {A} (l : list A) n : length l = S n → pop_last l = take n l.
Proof. unfold pop_last. intros ->. f_equal. lia. Qed.

Lemma pop_each_take computed n :
  Forall (λ c, length c = S n) computed → pop_each computed = take n <$> computed.
Proof.
  unfold pop_each. induction 1 as [|c l Hc _ IH]; [done|].
  by rewrite !fmap_cons, IH, (pop_last_take _ n).
Qed.

Lemma take_each_take computed n m :
  take m <$> (take n <$> computed) = take (m `min` n) <$> computed.
Proof.
  rewrite <- list_fmap_compose. apply list_fmap_ext. intros i c _. simpl. by rewrite take_take.
Qed.

Lemma Forall_take computed n m :
  (m ≤ n)%nat → Forall (λ c, length c = n) computed →
  Forall (λ c, length c = m) (take m <$> computed).
Proof.
  intros Hm Hc. apply Forall_fmap. eapply Forall_impl; [exact Hc|]. intros c Hl. simpl in *.
  rewrite length_take. lia.
Qed.

Lemma align_take bs al computed n :
  computed ≠ [] → Forall (λ c, length c = n) computed →
  align bs al computed = take (aligned bs al n) <$> computed.
Proof.
  intros Hne Hlen. unfold align.
  assert (first_len computed = Z.of_nat n) as Hf.
  { destruct computed; [done|]. by apply Forall_cons in Hlen as [<- _]. }
  rewrite Hf, Nat2Z.id. clear Hf. revert computed Hne Hlen.
  induction n as [|n IH]; intros computed Hne Hlen; cbn [align_loop aligned].
  { rewrite <- (list_fmap_id computed) at 1. apply list_fmap_ext. intros i c Hc. simpl.
    rewrite Forall_lookup in Hlen. apply Hlen in Hc. by destruct c. }
  assert (first_len computed = Z.of_nat (S n)) as Hf.
  { destruct computed; [done|]. by apply Forall_cons in Hlen as [<- _]. }
  rewrite Hf. rewrite <- negb_orb. destruct (_ || _); cbn [negb].
  - rewrite <- (list_fmap_id computed) at 1. apply list_fmap_ext. intros i c Hc. unfold id.
    rewrite Forall_lookup in Hlen. apply Hlen in Hc. by rewrite take_ge by lia.
  - rewrite (pop_each_take _ n), IH; [|by destruct computed|by eapply Forall_take; [|done]; lia|done].
    rewrite take_each_take. f_equal. f_equal. pose proof (aligned_le bs al n). lia.
Qed.

(** *** Rows *)

(** One row of [n] blocks per group. *)
Definition rows (Q : Z → list ref → Prop) gids (n : nat) computed : Prop :=
  Forall2 (λ g c, length c = n ∧ Q g c) gids computed.

Lemma rows_lengths Q gids n computed : rows Q gids n computed → Forall (λ c, length c = n) computed.
Proof. intros Hr. eapply Forall2_Forall_r; [exact Hr|]. apply Forall_forall. tauto. Qed.

Lemma rows_nonempty Q gids n computed : rows Q gids n computed → gids ≠ [] → computed ≠ [].
Proof. intros Hr Hg ->. by apply Forall2_nil_inv_r in Hr. Qed.

Lemma rows_init (Q : Z → list ref → Prop) gids c :
  (∀ g, Q g c) → rows Q gids (length c) ((λ _, c) <$> gids).
Proof. intros HQ. apply Forall2_fmap_r, Forall_Forall2_diag, Forall_forall. by auto. Qed.

Lemma rows_impl (Q Q' : Z → list ref → Prop) gids n computed :
  (∀ g c, g ∈ gids → length c = n → Q g c → Q' g c) → rows Q gids n computed → rows Q' gids n computed.
Proof.
  intros HQ Hr. induction Hr as [|g c gids computed [Hl Hc] Hr IH]; constructor.
  - split; [done|]. apply HQ; [by left|done..].
  - apply IH. intros g' c' Hg'. apply HQ. by right.
Qed.

Lemma rows_take (Q : Z → list ref → Prop) gids n m computed :
  (m ≤ n)%nat → (∀ g c, Q g c → Q g (take m c)) →
  rows Q gids n computed → rows Q gids m (take m <$> computed).
Proof.
  intros Hm HQ Hr. apply Forall2_fmap_r. eapply Forall2_impl; [exact Hr|].
  intros g c [Hl Hc]. simpl. rewrite length_take. split; [lia|by apply HQ].
Qed.

(** Extending every row by the blocks found for a hash. *)
Lemma rows_zip (Q Q' : Z → list ref → Prop) gids n n' computed bs (H : Z → ref → Prop) f :
  rows Q gids n computed → Forall2 H gids bs →
  (∀ g c b, length c = n → Q g c → H g b → length (f c b) = n' ∧ Q' g (f c b)) →
  rows Q' gids n' (zip_with f computed bs).
Proof.
  intros Hr Hb Hf. revert bs Hb. induction Hr as [|g c gids computed [Hl Hc] Hr IH]; intros bs Hb.
  - apply Forall2_nil_inv_l in Hb as ->. constructor.
  - apply Forall2_cons_inv_l in Hb as (b & bs' & Hg & Hb & ->). simpl. constructor.
    + by apply Hf.
    + by apply IH.
Qed.

Lemma row_hits_take p g hs c m : row_hits p g hs c → row_hits p g hs (take m c).
Proof. intros Hc i r [Hr ?]%lookup_take_Some. by apply Hc. Qed.

Lemma row_hits_or_null_take p g hs c m :
  row_hits_or_null p g hs c → row_hits_or_null p g hs (take m c).
Proof. intros Hc i r [Hr ?]%lookup_take_Some. by apply Hc. Qed.

Lemma row_hits_snoc p g hs c h r :
  row_hits p g hs c → hs !! length c = Some h → hit p g h r → row_hits p g hs (c ++ [r]).
Proof.
  intros Hc Hh Hr i r' [[_ Hi]|[Hi ?]]%lookup_snoc_Some; [by apply Hc|].
  simplify_eq. by exists h.
Qed.

(** *** Full attention *)

(** The number of leading hashes that are cached for every group. *)
Fixpoint hit_count p gids hs : nat :=
  match hs with
  | [] => O
  | h :: hs => match cached p gids h with Some _ => S (hit_count p gids hs) | None => O end
  end.

Lemma hit_count_le p gids hs : (hit_count p gids hs ≤ length hs)%nat.
Proof. induction hs as [|h hs IH]; simpl; [lia|]. case_match; lia. Qed.

Lemma hit_count_miss p free gids hs h :
  pool_wf p free → gids ≠ [] → hs !! hit_count p gids hs = Some h → miss p gids h.
Proof.
  intros Hwf Hne. induction hs as [|h0 hs IH]; simpl; [done|].
  destruct (cached p gids h0) eqn:Hc; simpl; [done|]. intros [= <-]. by eapply cached_None.
Qed.

Lemma scan_prefix_ok p free gids hs : ∀ hs0 computed,
  pool_wf p free →
  rows (λ g, row_hits p g (hs0 ++ hs)) gids (length hs0) computed →
  rows (λ g, row_hits p g (hs0 ++ hs)) gids (length hs0 + hit_count p gids hs)
    (scan_prefix p gids hs computed).
Proof.
  induction hs as [|h hs IH]; intros hs0 computed Hwf Hr; simpl; [by rewrite Nat.add_0_r|].
  destruct (cached p gids h) as [bs|] eqn:Hc; [|by rewrite Nat.add_0_r].
  replace (length hs0 + S (hit_count p gids hs))%nat with (length (hs0 ++ [h]) + hit_count p gids hs)%nat
    by (rewrite length_app; simpl; lia).
  replace (hs0 ++ h :: hs) with ((hs0 ++ [h]) ++ hs) in * by by rewrite <- app_assoc.
  apply IH; [done|]. eapply rows_zip; [exact Hr|by eapply cached_Some|].
  intros g c b Hl Hrow Hb. split; [rewrite !length_app; simpl; lia|].
  eapply row_hits_snoc; [done| |exact Hb]. rewrite Hl, <- app_assoc. by apply list_lookup_middle.
Qed.

(** The number of blocks left when the last one is dropped for EAGLE. *)
Definition eagle_drop (use_eagle : bool) (n : nat) : nat := if use_eagle then (n - 1)%nat else n.

Lemma eagle_pop (use_eagle : bool) computed n :
  computed ≠ [] → Forall (λ c, length c = n) computed →
  (if use_eagle && (0 <? first_len computed) then pop_each computed else computed) =
  take (eagle_drop use_eagle n) <$> computed.
Proof.
  intros Hne Hl. assert (first_len computed = Z.of_nat n) as ->.
  { destruct computed; [done|]. by apply Forall_cons in Hl as [<- _]. }
  assert (computed = take n <$> computed) as Hid.
  { rewrite <- (list_fmap_id computed) at 1. apply list_fmap_ext. intros i c Hc. unfold id.
    rewrite Forall_lookup in Hl. apply Hl in Hc. by rewrite take_ge by lia. }
  destruct use_eagle; [|done]. destruct n as [|n]; simpl; [done|].
  rewrite (pop_each_take _ n) by done. by replace (n - 0)%nat with n by lia.
Qed.

Lemma full_hit_ok p free bhl max_length gids spec use_eagle al dcp pcp :
  let bs := parallel_block_size (block_size spec) dcp pcp in
  let hs := take (Z.to_nat (max_length / bs)) (bhl_iter bhl) in
  let n := aligned bs al (eagle_drop use_eagle (hit_count p gids hs)) in
  pool_wf p free → gids ≠ [] → is_full_attention spec || is_chunked_local spec = true →
  0 < bs → 0 ≤ max_length →
  ∃ computed,
    full_find_longest_cache_hit bhl max_length gids p spec use_eagle al dcp pcp = Ok computed ∧
    rows (λ g, row_hits p g (bhl_iter bhl)) gids n computed.
Proof.
  intros bs hs n Hwf Hne Hspec Hbs Hmax. unfold full_find_longest_cache_hit. rewrite Hspec. simpl.
  fold bs. rewrite (proj2 (Z.ltb_ge _ 0)) by (apply Z.div_pos; lia). fold hs.
  pose proof (scan_prefix_ok p free gids hs [] ((λ _, []) <$> gids) Hwf) as Hscan. simpl in Hscan.
  specialize (Hscan (rows_init (λ g, row_hits p g hs) gids [] ltac:(done))).
  set (computed := scan_prefix p gids hs _) in *.
  pose proof (rows_nonempty _ _ _ _ Hscan Hne) as Hc.
  pose proof (rows_lengths _ _ _ _ Hscan) as Hl.
  exists (take n <$> computed). split.
  - destruct computed as [|c0 computed]; [done|]. f_equal.
    rewrite (eagle_pop use_eagle _ _ Hc Hl).
    rewrite (align_take bs al _ (eagle_drop use_eagle (hit_count p gids hs))); [|done|].
    + rewrite take_each_take. f_equal. f_equal. fold n. pose proof (aligned_le bs al
        (eagle_drop use_eagle (hit_count p gids hs))). unfold n. lia.
    + eapply Forall_take; [|exact Hl]. unfold eagle_drop. case_match; lia.
  - eapply rows_take; [|intros; by apply row_hits_take|].
    + unfold n. etrans; [apply aligned_le|]. unfold eagle_drop. case_match; [apply Nat.le_sub_l|done].
    + eapply rows_impl; [|exact Hscan]. intros g c _ _ Hrow i r Hr.
      destruct (Hrow i r Hr) as (h & Hh & ?). exists h. split; [|done].
      unfold hs in Hh. by apply lookup_take_Some in Hh as [? _].
Qed.

(** *** Sliding window *)

(** The blocks at positions [lo] to [lo + n - 1] are hits. *)
Definition run_hits p g hs (lo n : nat) c : Prop :=
  ∀ j r, (lo ≤ j < lo + n)%nat → c !! j = Some r → ∃ h, hs !! j = Some h ∧ hit p g h r.

(** A row of the scan: hits and null blocks, and a run of hits. *)
Definition scan_row p hs (lo n : nat) (g : Z) c : Prop :=
  row_hits_or_null p g hs c ∧ run_hits p g hs lo n c.

(** The list of hashes can be indexed at [i] exactly when it is iterated that far. *)
Definition indexable (bhl : BlockHashList) (N : nat) : Prop :=
  (N ≤ length (bhl_iter bhl))%nat ∧
  ∀ i, (i < N)%nat → bhl_get bhl (Z.of_nat i) = bhl_iter bhl !! i.

Lemma scan_row_take p hs lo n g c m : scan_row p hs lo n g c → scan_row p hs lo n g (take m c).
Proof.
  intros [Hn Hr]. split; [by apply row_hits_or_null_take|].
  intros j r Hj [Hr' _]%lookup_take_Some. by apply (Hr j r).
Qed.

Lemma scan_row_set p hs i n g c h b :
  hs !! i = Some h → hit p g h b → scan_row p hs (S i) n g c →
  scan_row p hs i (S n) g (py_set c (Z.of_nat i) b).
Proof.
  intros Hh Hb [Hn Hr]. unfold py_set. rewrite Nat2Z.id. split.
  - intros j r [(-> & -> & _)|[Hij Hj]]%list_lookup_insert_Some; [right; by exists h|by apply Hn].
  - intros j r Hj [(-> & -> & _)|[Hij Hc]]%list_lookup_insert_Some; [by exists h|].
    apply (Hr j r); [lia|done].
Qed.

Lemma scan_row_reset p hs lo n lo' g c : scan_row p hs lo n g c → scan_row p hs lo' 0 g c.
Proof. intros [Hn _]. split; [done|]. intros j r ?. lia. Qed.

Lemma py_range_down_S k :
  py_range_down (Z.of_nat (S k)) = Z.of_nat k :: py_range_down (Z.of_nat k).
Proof.
  unfold py_range_down. rewrite Nat2Z.inj_succ, <- Z.add_1_r, seqZ_app by lia.
  rewrite reverse_app. simpl. done.
Qed.

(** The alignment condition on the end of a run. *)
Definition end_ok (bs al : Z) (use_eagle : bool) (e : nat) : Prop :=
  bs = al ∨ (if use_eagle then Z.of_nat e - 1 else Z.of_nat e) * bs mod al = 0.

Lemma sliding_loop_ok p free bhl gids bs al contiguous use_eagle N :
  let hs := bhl_iter bhl in
  pool_wf p free → indexable bhl N →
  ∀ k computed num,
    (k + num ≤ N)%nat → (num = 0%nat ∨ end_ok bs al use_eagle (k + num)) →
    rows (scan_row p hs k num) gids N computed →
    ∃ computed' (num' : nat) found,
      sliding_loop p bhl gids bs al contiguous use_eagle (py_range_down (Z.of_nat k)) computed
        (Z.of_nat num) = Ok (computed', Z.of_nat num', found) ∧
      if (found : bool)
      then ∃ lo, (0 < num')%nat ∧ (lo + num' ≤ N)%nat ∧ contiguous ≤ Z.of_nat num' ∧
             end_ok bs al use_eagle (lo + num') ∧
             rows (scan_row p hs lo num') gids (lo + num') computed'
      else (num' ≤ N)%nat ∧ rows (scan_row p hs 0 num') gids N computed'.
Proof.
  intros hs Hwf [HN Hidx]. induction k as [|k IH]; intros computed num Hk Hend Hr.
  { exists computed, num, false. simpl. split; [done|]. split; [lia|done]. }
  rewrite py_range_down_S. cbn [sliding_loop]. rewrite Hidx by lia. fold hs.
  destruct (lookup_lt_is_Some_2 hs k) as [h Hh]; [unfold hs; lia|]. rewrite Hh.
  destruct (cached p gids h) as [bs'|] eqn:Hc.
  2: { apply (IH computed 0%nat); [lia|by left|].
       eapply rows_impl; [|exact Hr]. intros. by eapply scan_row_reset. }
  destruct (_ && _ && _) eqn:Hskip.
  { apply andb_true_iff in Hskip as [Hskip _]. apply andb_true_iff in Hskip as [Hz%Z.eqb_eq _].
    apply IH; [lia|left; lia|].
    eapply rows_impl; [|exact Hr]. intros g c _ _ Hrow. assert (num = 0%nat) as -> by lia.
    by eapply scan_row_reset. }
  assert (end_ok bs al use_eagle (k + S num)) as Hend'.
  { destruct Hend as [->|Hend]; [|by replace (k + S num)%nat with (S k + num)%nat by lia].
    simpl in Hskip. destruct (Z.eqb_spec bs al); [by left|right]. simpl in Hskip.
    apply negb_false_iff, Z.eqb_eq in Hskip. rewrite Nat.add_1_r, Nat2Z.inj_succ.
    destruct use_eagle; [by replace (Z.succ (Z.of_nat k) - 1) with (Z.of_nat k) by lia|done]. }
  assert (rows (scan_row p hs k (S num)) gids N
    (zip_with (λ c b, py_set c (Z.of_nat k) b) computed bs')) as Hr'.
  { eapply rows_zip; [exact Hr|by eapply cached_Some|]. intros g c b Hl Hrow Hb.
    split; [by unfold py_set; rewrite length_insert|by eapply scan_row_set]. }
  replace (Z.of_nat num + 1) with (Z.of_nat (S num)) by lia.
  destruct (Z.leb_spec contiguous (Z.of_nat (S num))) as [Hle|Hgt].
  - eexists _, (S num), true. split; [done|]. exists k. split_and!; [lia..|done|].
    replace (Z.to_nat (Z.of_nat k + Z.of_nat (S num))) with (k + S num)%nat by lia.
    eapply rows_take; [|intros; by apply scan_row_take|exact Hr']. lia.
  - apply IH; [lia|by right|done].
Qed.

Lemma indexable_iter bhl N : (N ≤ length (bhl_iter bhl))%nat → indexable bhl N.
Proof.
  intros HN. split; [done|]. intros i Hi. destruct bhl as [l|b]; simpl in *.
  - by rewrite py_get_nonneg, Nat2Z.id by lia.
  - symmetry. apply scaled_iter_lookup. unfold scaled_iter, py_range in HN.
    rewrite length_fmap, length_seqZ in HN. lia.
Qed.

(** The blocks of the window before the end of a row are hits. *)
Definition window_row p hs (w n : nat) (g : Z) c : Prop :=
  row_hits_or_null p g hs c ∧ run_hits p g hs (n - w) w c.

Lemma scan_window_row p hs lo num w n g c :
  (lo ≤ n - w)%nat → (n ≤ lo + num)%nat → length c = n →
  scan_row p hs lo num g c → window_row p hs w n g c.
Proof.
  intros Hlo Hn Hl [Hnull Hrun]. split; [done|]. intros j r Hj Hr. apply (Hrun j r); [|done].
  apply lookup_lt_Some in Hr. lia.
Qed.

Lemma aligned_end bs al n : bs = al ∨ Z.of_nat n * bs mod al = 0 → aligned bs al n = n.
Proof.
  intros Hn. destruct n; cbn [aligned]; [done|]. destruct Hn as [->|Hn].
  - by rewrite Z.eqb_refl.
  - by rewrite (proj2 (Z.eqb_eq _ 0) Hn), orb_true_r.
Qed.

(** The number of blocks of the window before the next token. *)
Definition window_blocks (sliding_window bs : Z) : nat := Z.to_nat (cdiv (sliding_window - 1) bs).

(** The number of blocks left by the last step of the lookup. *)
Definition eagle_len (bs al : Z) (use_eagle : bool) (n : nat) : nat :=
  if use_eagle then aligned bs al (n - 1) else n.

Lemma eagle_len_le bs al use_eagle n : (eagle_len bs al use_eagle n ≤ n)%nat.
Proof.
  unfold eagle_len. destruct use_eagle; [|done]. pose proof (aligned_le bs al (n - 1)). lia.
Qed.

Lemma eagle_align_take bs al (use_eagle : bool) computed n :
  computed ≠ [] → Forall (λ c, length c = n) computed →
  (if use_eagle && (0 <? first_len computed) then align bs al (pop_each computed) else computed) =
  take (eagle_len bs al use_eagle n) <$> computed.
Proof.
  intros Hne Hl. pose proof (eagle_pop use_eagle _ _ Hne Hl) as Hpop. unfold eagle_len.
  destruct use_eagle; [|exact Hpop]. simpl in *.
  destruct (Z.ltb_spec 0 (first_len computed)) as [Hlt|Hge].
  - rewrite Hpop, (align_take bs al _ (n - 1)), take_each_take.
    + f_equal. f_equal. pose proof (aligned_le bs al (n - 1)). lia.
    + by destruct computed.
    + eapply Forall_take; [|exact Hl]. lia.
  - assert (n = 0%nat) as ->; [|exact Hpop].
    destruct computed as [|c]; [done|]. apply Forall_cons in Hl as [Hc _]. simpl in *.
    unfold len in Hge. lia.
Qed.

(** A run of hits that is long enough. *)
Lemma sliding_found p hs bs al (use_eagle : bool) (contiguous : Z) w gids lo num computed :
  contiguous = Z.of_nat w + (if use_eagle then 1 else 0) → contiguous ≤ Z.of_nat num →
  (0 < num)%nat → end_ok bs al use_eagle (lo + num) → 0 < al →
  rows (scan_row p hs lo num) gids (lo + num) computed →
  let n := eagle_len bs al use_eagle (lo + num) in
  rows (window_row p hs w n) gids n (take n <$> computed) ∧ (al | Z.of_nat n * bs)%Z.
Proof.
  intros Hcont Hle Hpos Hend Hal Hr n.
  assert (n = (lo + num - (if use_eagle then 1 else 0))%nat) as Hn.
  { unfold n, eagle_len. destruct use_eagle; [|lia]. apply aligned_end.
    destruct Hend as [?|Hend]; [by left|right].
    by replace (Z.of_nat (lo + num - 1)) with (Z.of_nat (lo + num) - 1) by lia. }
  split.
  - eapply rows_impl; [|eapply rows_take; [|intros; by eapply scan_row_take|exact Hr]; apply eagle_len_le].
    intros g c _ Hlc. apply scan_window_row; [..|done]; destruct use_eagle; lia.
  - destruct Hend as [->|Hend]; [apply Z.divide_factor_r|]. apply Z.mod_divide; [lia|].
    rewrite <- Hend. f_equal. f_equal. rewrite Hn. destruct use_eagle; lia.
Qed.

(** No run is long enough: the leading run counts. *)
Lemma sliding_partial p hs bs al (use_eagle : bool) w gids num N computed :
  (num ≤ N)%nat → 0 < al → gids ≠ [] →
  rows (scan_row p hs 0 num) gids N computed →
  let n := eagle_len bs al use_eagle (aligned bs al num) in
  (let c := align bs al (take num <$> computed) in
   if use_eagle && (0 <? first_len c) then align bs al (pop_each c) else c) = take n <$> computed ∧
  rows (window_row p hs w n) gids n (take n <$> computed) ∧ (al | Z.of_nat n * bs)%Z.
Proof.
  intros HN Hal Hne Hr n. set (n1 := aligned bs al num) in *.
  pose proof (aligned_le bs al num) as Hn1. pose proof (eagle_len_le bs al use_eagle n1) as Hn.
  pose proof (rows_take _ _ _ num _ HN (λ g c, scan_row_take p hs 0 num g c num) Hr) as Hr1.
  pose proof (rows_nonempty _ _ _ _ Hr1 Hne) as Hc1. pose proof (rows_lengths _ _ _ _ Hr1) as Hl1.
  split_and!.
  - rewrite (align_take bs al _ num Hc1 Hl1). fold n1. rewrite take_each_take, Nat.min_l by done.
    simpl. rewrite (eagle_align_take bs al use_eagle _ n1).
    + rewrite take_each_take. f_equal. f_equal. unfold n. lia.
    + by destruct computed.
    + eapply Forall_take; [|by eapply rows_lengths]. unfold n1. lia.
  - eapply rows_impl; [|eapply rows_take; [|intros; by eapply scan_row_take|exact Hr]; unfold n, n1 in *; lia].
    intros g c _ Hlc. apply scan_window_row; unfold n, n1 in *; lia.
  - unfold n, eagle_len. destruct use_eagle; apply aligned_multiple; lia.
Qed.

Lemma null_rows p hs gids N :
  rows (scan_row p hs N 0) gids N ((λ _, py_repeat (null_block p) (Z.of_nat N)) <$> gids).
Proof.
  pose proof (rows_init (scan_row p hs N 0) gids (py_repeat (null_block p) (Z.of_nat N))) as Hr.
  unfold py_repeat in *. rewrite length_replicate, Nat2Z.id in *. apply Hr.
  intros g. split; [|intros j r ?; lia]. intros i r Hi. left. by apply lookup_replicate in Hi as [-> _].
Qed.

Lemma sliding_hit_ok p free bhl max_length gids spec sliding_window use_eagle al :
  let bs := block_size spec in
  let hs := bhl_iter bhl in
  pool_wf p free → gids ≠ [] → window_of spec = Some sliding_window →
  0 < bs → 0 < al → 0 < sliding_window → max_length / bs ≤ len hs → 0 ≤ max_length →
  ∃ computed n,
    sliding_find_longest_cache_hit bhl max_length gids p spec use_eagle al 1 1 = Ok computed ∧
    rows (window_row p hs (window_blocks sliding_window bs) n) gids n computed ∧
    (al | Z.of_nat n * bs)%Z ∧ Z.of_nat n * bs ≤ max_length.
Proof.
  intros bs hs Hwf Hne Hw Hbs Hal Hsw Hlen Hmax. unfold sliding_find_longest_cache_hit.
  rewrite Hw. cbn [negb orb Z.eqb]. fold bs. unfold len in Hlen.
  set (N := Z.to_nat (max_length / bs)). pose proof (Z.mul_div_le max_length bs Hbs).
  assert (max_length / bs = Z.of_nat N) as HN
    by (unfold N; rewrite Z2Nat.id; [done|apply Z.div_pos; lia]).
  rewrite HN in *. set (w := window_blocks sliding_window bs).
  assert (0 ≤ cdiv (sliding_window - 1) bs) as Hcd by (apply cdiv_nonneg; lia).
  set (contiguous := cdiv _ _ + _).
  assert (contiguous = Z.of_nat w + (if use_eagle then 1 else 0)) as Hcont
    by (unfold contiguous, w, window_blocks; lia).
  destruct (sliding_loop_ok p free bhl gids bs al contiguous use_eagle N Hwf
    (indexable_iter bhl N ltac:(fold hs; lia)) N _ 0%nat ltac:(lia) (or_introl eq_refl)
    (null_rows p hs gids N)) as (computed & num & found & Hloop & Hres).
  change (Z.of_nat 0) with 0 in Hloop. rewrite Hloop. destruct found.
  - destruct Hres as (lo & Hpos & HloN & Hle & Hend & Hr).
    pose proof (rows_nonempty _ _ _ _ Hr Hne) as Hc. pose proof (rows_lengths _ _ _ _ Hr) as Hl.
    destruct (sliding_found p hs bs al use_eagle contiguous w gids lo num computed) as [Hrow Hdiv];
      [done..|].
    eexists _, (eagle_len bs al use_eagle (lo + num)). split_and!; [|exact Hrow|exact Hdiv|].
    + destruct computed as [|c0 computed0]; [done|]. f_equal. by apply eagle_align_take.
    + pose proof (eagle_len_le bs al use_eagle (lo + num)). nia.
  - destruct Hres as [HnumN Hr]. pose proof (rows_nonempty _ _ _ _ Hr Hne) as Hc.
    destruct (sliding_partial p hs bs al use_eagle w gids num N computed) as (Heq & Hrow & Hdiv);
      [done..|].
    eexists _, _. split_and!; [|exact Hrow|exact Hdiv|].
    + destruct computed as [|c0 computed0]; [done|]. f_equal. rewrite Nat2Z.id. exact Heq.
    + pose proof (eagle_len_le bs al use_eagle (aligned bs al num)).
      pose proof (aligned_le bs al num). nia.
Qed.

(** *** Chunked local attention *)

Lemma scan_row_snoc p hs lo g c h r :
  (lo ≤ length c)%nat → hs !! length c = Some h → hit p g h r →
  scan_row p hs lo (length c - lo) g c → scan_row p hs lo (S (length c) - lo) g (c ++ [r]).
Proof.
  intros Hlo Hh Hr [Hnull Hrun]. split.
  - intros i r' [[_ Hi]|[-> <-]]%lookup_snoc_Some; [by apply Hnull|right; by exists h].
  - intros i r' Hi [[_ Hi']|[-> <-]]%lookup_snoc_Some; [|by exists h].
    apply (Hrun i r'); [|done]. apply lookup_lt_Some in Hi'. lia.
Qed.

(** Null blocks before the chunk, hits in it. *)
Definition chunk_row p hs (lo n : nat) (g : Z) c : Prop :=
  scan_row p hs lo n g c ∧ ∀ i r, (i < lo)%nat → c !! i = Some r → r = null_block p.

Lemma chunk_row_snoc p hs lo g c h r :
  (lo ≤ length c)%nat → hs !! length c = Some h → hit p g h r →
  chunk_row p hs lo (length c - lo) g c → chunk_row p hs lo (S (length c) - lo) g (c ++ [r]).
Proof.
  intros Hlo Hh Hr [Hs Hn]. split; [by eapply scan_row_snoc|]. intros i r' Hi [[_ Hi']|[-> _]]%lookup_snoc_Some; [by apply (Hn i)|lia].
Qed.

Lemma py_range_S (i N : nat) :
  (i < N)%nat → py_range (Z.of_nat i) (Z.of_nat N) = Z.of_nat i :: py_range (Z.of_nat (S i)) (Z.of_nat N).
Proof.
  intros Hi. unfold py_range. rewrite seqZ_cons by lia. f_equal. f_equal; lia.
Qed.

Lemma null_chunk_rows p hs gids N :
  rows (chunk_row p hs N 0) gids N ((λ _, py_repeat (null_block p) (Z.of_nat N)) <$> gids).
Proof.
  pose proof (rows_init (chunk_row p hs N 0) gids (py_repeat (null_block p) (Z.of_nat N))) as Hr.
  unfold py_repeat in *. rewrite length_replicate, Nat2Z.id in *. apply Hr.
  intros g. split; [split; [|intros j r ?; lia]; intros i r Hi; left|intros i r _ Hi]; by apply lookup_replicate in Hi as [-> _].
Qed.

Lemma chunked_loop_ok p free bhl gids lo N :
  let hs := bhl_iter bhl in
  pool_wf p free → gids ≠ [] → indexable bhl N →
  ∀ k i computed,
    (N - i ≤ k)%nat → (lo ≤ i ≤ N)%nat → rows (chunk_row p hs lo (i - lo)) gids i computed →
    ∃ computed' n,
      chunked_loop p bhl gids (py_range (Z.of_nat i) (Z.of_nat N)) computed = Ok computed' ∧
      (i ≤ n ≤ N)%nat ∧ rows (chunk_row p hs lo (n - lo)) gids n computed' ∧
      (n = N ∨ ∃ h, hs !! n = Some h ∧ miss p gids h).
Proof.
  intros hs Hwf Hne [HN Hidx]. induction k as [|k IH]; intros i computed Hk Hi Hr.
  { exists computed, i. replace i with N in * by lia. unfold py_range. rewrite Z.sub_diag.
    split_and!; [done|lia..|done|by left]. }
  destruct (decide (i = N)) as [->|HiN].
  { exists computed, N. unfold py_range. rewrite Z.sub_diag. split_and!; [done|lia..|done|by left]. }
  rewrite py_range_S by lia. cbn [chunked_loop]. rewrite Hidx by lia. fold hs.
  destruct (lookup_lt_is_Some_2 hs i) as [h Hh]; [unfold hs; lia|]. rewrite Hh.
  destruct (cached p gids h) as [bs|] eqn:Hc.
  - destruct (IH (S i) (append_each computed bs)) as (computed' & n & Hrun & Hn & Hrow & Hstop); [lia..| |].
    + eapply rows_zip; [exact Hr|by eapply cached_Some|]. intros g c b Hl Hrow Hb.
      split; [rewrite length_app; simpl; lia|]. rewrite <- Hl in Hh, Hrow |- *.
      eapply chunk_row_snoc; [lia|done..].
    + exists computed', n. split_and!; [done|lia..|done|done].
  - exists computed, i. split_and!; [done|lia..|done|]. right. exists h. split; [done|].
    by eapply cached_None.
Qed.

Lemma chunked_hit_ok p free bhl max_length gids a chunk :
  let bs := attn_block_size a in
  let hs := bhl_iter bhl in
  let lo := Z.to_nat (max_length / chunk * chunk / bs) in
  let N := Z.to_nat (max_length / bs) in
  pool_wf p free → gids ≠ [] → 0 < bs → 0 < chunk → max_length / bs ≤ len hs → 0 ≤ max_length →
  ∃ computed n,
    chunked_find_longest_cache_hit bhl max_length gids p (ChunkedLocalAttentionSpec a chunk) false bs 1 1 =
      Ok computed ∧
    (lo ≤ n ≤ N)%nat ∧ rows (chunk_row p hs lo (n - lo)) gids n computed ∧
    (n = N ∨ ∃ h, hs !! n = Some h ∧ miss p gids h).
Proof.
  intros bs hs lo N Hwf Hne Hbs Hchunk Hlen Hmax. unfold chunked_find_longest_cache_hit.
  cbn [block_size orb negb Z.eqb Pos.eqb]. fold bs. rewrite Z.eqb_refl. cbn [negb].
  assert ((if 0 <? max_length then max_length / chunk * chunk else 0) = max_length / chunk * chunk) as ->.
  { destruct (Z.ltb_spec 0 max_length); [done|]. assert (max_length = 0) as -> by lia.
    by rewrite Z.div_0_l by lia. }
  assert (0 ≤ max_length / chunk * chunk ≤ max_length) as Hst.
  { pose proof (Z.mul_div_le max_length chunk Hchunk). pose proof (Z.div_pos max_length chunk). lia. }
  assert (max_length / chunk * chunk / bs = Z.of_nat lo) as ->
    by (unfold lo; rewrite Z2Nat.id; [done|apply Z.div_pos; lia]).
  assert (max_length / bs = Z.of_nat N) as HN
    by (unfold N; rewrite Z2Nat.id; [done|apply Z.div_pos; lia]).
  assert (lo ≤ N)%nat as HloN by (unfold lo, N; apply Z2Nat.inj_le, Z.div_le_mono; (apply Z.div_pos || idtac); lia).
  rewrite HN in *. unfold len in Hlen.
  eapply chunked_loop_ok; [done|done|apply indexable_iter; fold hs; lia|done|lia|].
  rewrite Nat.sub_diag. apply null_chunk_rows.
Qed.

(** *** Mamba *)

(** Only the last block of a row holds a state. *)
Definition state_row p hs (n : nat) (g : Z) c : Prop :=
  match n with
  | O => c = []
  | S i => ∃ h r, hs !! i = Some h ∧ hit p g h r ∧ c = replicate i (null_block p) ++ [r]
  end.

(** A prefix of [n] blocks cannot be returned: it is not aligned, or its last block is
    missing for some group. *)
Definition no_state p hs gids (bs al : Z) (n : nat) : Prop :=
  Z.of_nat n * bs mod al ≠ 0 ∨ ∃ h, hs !! (n - 1)%nat = Some h ∧ miss p gids h.

Lemma mamba_loop_ok p free bhl gids bs al N :
  let hs := bhl_iter bhl in
  pool_wf p free → gids ≠ [] → indexable bhl N →
  ∀ k, (k ≤ N)%nat →
    ∃ computed n,
      mamba_loop p bhl gids bs al (py_range_down (Z.of_nat k)) ((λ _, []) <$> gids) = Ok computed ∧
      (n ≤ k)%nat ∧ rows (state_row p hs n) gids n computed ∧
      (bs = al ∨ Z.of_nat n * bs mod al = 0) ∧ ∀ i, (n < i ≤ k)%nat → no_state p hs gids bs al i.
Proof.
  intros hs Hwf Hne [HN Hidx]. induction k as [|k IH]; intros Hk.
  { exists ((λ _, []) <$> gids), 0%nat. split_and!; [done|done| |right; apply Zmod_0_l|lia].
    by apply (rows_init _ gids []). }
  assert (no_state p hs gids bs al (S k) → ∃ computed n,
    mamba_loop p bhl gids bs al (py_range_down (Z.of_nat k)) ((λ _, []) <$> gids) = Ok computed ∧
    (n ≤ S k)%nat ∧ rows (state_row p hs n) gids n computed ∧
    (bs = al ∨ Z.of_nat n * bs mod al = 0) ∧ ∀ i, (n < i ≤ S k)%nat → no_state p hs gids bs al i) as Hcont.
  { intros Hno. destruct IH as (computed & n & ? & ? & ? & ? & Hi); [lia|]. exists computed, n. split_and!; auto with lia.
    intros i Hlt. destruct (decide (i = S k)) as [->|]; [done|]. apply Hi. lia. }
  rewrite py_range_down_S. cbn [mamba_loop]. rewrite Hidx by lia. fold hs.
  destruct (lookup_lt_is_Some_2 hs k) as [h Hh]; [unfold hs; lia|]. rewrite Hh.
  destruct (cached p gids h) as [bs'|] eqn:Hc.
  2: { apply Hcont. right. exists h. rewrite Nat.sub_succ, Nat.sub_0_r. split; [done|]. by eapply cached_None. }
  destruct (negb (bs =? al) && _) eqn:Hskip.
  { apply Hcont. left. apply andb_true_iff in Hskip as [_ Hs]. apply negb_true_iff, Z.eqb_neq in Hs. intros Hz. apply Hs. rewrite <- Hz. f_equal. lia. }
  eexists _, (S k). split_and!; [done|lia| | |lia].
  - eapply rows_zip; [by apply (rows_init (λ _ c, c = []) gids [])|by eapply cached_Some|].
    intros g c b _ -> Hb. unfold py_repeat. rewrite Nat2Z.id. simpl. split.
    + rewrite length_app, length_replicate. simpl. lia.
    + by exists h, b.
  - apply andb_false_iff in Hskip as [Hs|Hs]; apply negb_false_iff, Z.eqb_eq in Hs; [by left|right].
    rewrite <- Hs. f_equal. lia.
Qed.
End HitProofs.

(** ** Theorems *)

Section HitTheorems.
Implicit Types (p : BlockPool) (gids : list Z).

(** C31: The full-attention lookup returns the longest cached prefix.  With the block
    size of the group (counting context-parallel ranks) and the hashes of the first
    [max_length // block_size] blocks, let [k] be the number of leading hashes cached
    for every group.  The lookup returns one row per group; block [i] of group [g]'s
    row is a block of the pool that carries the [i]-th hash for [g]; the rows have
    [k] blocks, less one for EAGLE, cut down to the largest multiple of the alignment;
    and [k] cannot be larger, since the next hash is missing for some group. *)
Theorem full_hit_longest p free bhl max_length gids spec use_eagle al dcp pcp bs hs k :
  bs = parallel_block_size (block_size spec) dcp pcp →
  hs = take (Z.to_nat (max_length / bs)) (bhl_iter bhl) → k = hit_count p gids hs →
  pool_wf p free → gids ≠ [] → is_full_attention spec = true →
  0 < bs → 0 < al → 0 ≤ max_length →
  ∃ computed n,
    full_find_longest_cache_hit bhl max_length gids p spec use_eagle al dcp pcp = Ok computed ∧
    Forall2 (λ g c, length c = n ∧
      ∀ i r, c !! i = Some r → ∃ h, bhl_iter bhl !! i = Some h ∧ hit p g h r) gids computed ∧
    (al | Z.of_nat n * bs)%Z ∧ (n ≤ eagle_drop use_eagle k)%nat ∧
    (∀ m, (n < m ≤ eagle_drop use_eagle k)%nat → Z.of_nat m * bs mod al ≠ 0) ∧
    (∀ h, hs !! k = Some h → miss p gids h).
Proof.
  intros -> -> -> Hwf Hne Hspec Hbs Hal Hmax.
  destruct (full_hit_ok p free bhl max_length gids spec use_eagle al dcp pcp) as (computed & Hrun & Hr);
    [done|done|by rewrite Hspec|done..|].
  eexists computed, _. split_and!; [exact Hrun|exact Hr|..].
  - apply aligned_multiple. lia.
  - apply aligned_le.
  - intros m Hm. by eapply aligned_max.
  - intros h. by apply hit_count_miss with free.
Qed.

(** C32: The sliding-window lookup returns a prefix the next token can attend to: the rows
    have a common length [n], at most [max_length] tokens and a multiple of the
    alignment; each block is the null block or carries the hash of its position; and
    the last [ceil((window - 1) / block_size)] positions of every row hold real hits,
    so that no token inside the window is missing, with or without EAGLE. *)
Theorem sliding_hit_covers_window p free bhl max_length gids spec window use_eagle al :
  pool_wf p free → gids ≠ [] → window_of spec = Some window →
  0 < block_size spec → 0 < al → 0 < window →
  max_length / block_size spec ≤ len (bhl_iter bhl) → 0 ≤ max_length →
  ∃ computed n,
    sliding_find_longest_cache_hit bhl max_length gids p spec use_eagle al 1 1 = Ok computed ∧
    (al | Z.of_nat n * block_size spec)%Z ∧ Z.of_nat n * block_size spec ≤ max_length ∧
    Forall2 (λ g c, length c = n ∧ ∀ i r, c !! i = Some r →
      (∃ h, bhl_iter bhl !! i = Some h ∧ hit p g h r) ∨
      (r = null_block p ∧ (i + window_blocks window (block_size spec) < n)%nat)) gids computed.
Proof.
  intros Hwf Hne Hw Hbs Hal Hwin Hlen Hmax.
  destruct (sliding_hit_ok p free bhl max_length gids spec window use_eagle al)
    as (computed & n & Hrun & Hr & Hdiv & Hle); [done..|].
  exists computed, n. split_and!; [done..|].
  eapply Forall2_impl; [exact Hr|]. intros g c [Hl [Hnull Hrun']]. split; [done|].
  intros i r Hi. destruct (decide (i + window_blocks window (block_size spec) < n)%nat) as [Hlt|Hge].
  - destruct (Hnull i r Hi); [right|left]; done.
  - left. apply (Hrun' i r); [|done]. apply lookup_lt_Some in Hi. lia.
Qed.

(** C34: The lookup for chunked local attention: the rows start with one null block for
    every block before the current chunk, then hold the cached blocks of the chunk, each
    with the hash of its position for its group, up to the first one that is missing for
    some group or to [max_length]. *)
Theorem chunked_hit_longest p free bhl max_length gids a chunk lo :
  lo = Z.to_nat (max_length / chunk * chunk / attn_block_size a) →
  pool_wf p free → gids ≠ [] → 0 < attn_block_size a → 0 < chunk →
  max_length / attn_block_size a ≤ len (bhl_iter bhl) → 0 ≤ max_length →
  ∃ computed n,
    chunked_find_longest_cache_hit bhl max_length gids p (ChunkedLocalAttentionSpec a chunk) false
      (attn_block_size a) 1 1 = Ok computed ∧
    Forall2 (λ g c, length c = n ∧ ∀ i r, c !! i = Some r →
      if decide (i < lo)%nat then r = null_block p else ∃ h, bhl_iter bhl !! i = Some h ∧ hit p g h r) gids computed ∧
    (lo ≤ n ≤ Z.to_nat (max_length / attn_block_size a))%nat ∧
    (n = Z.to_nat (max_length / attn_block_size a) ∨
     ∃ h, bhl_iter bhl !! n = Some h ∧ miss p gids h).
Proof.
  intros -> Hwf Hne Hbs Hchunk Hlen Hmax.
  destruct (chunked_hit_ok p free bhl max_length gids a chunk) as (computed & n & Hrun & Hn & Hr & Hstop);
    [done..|].
  exists computed, n. split_and!; [done| |lia..|done].
  eapply Forall2_impl; [exact Hr|]. intros g c [Hl [[_ Hhits] Hnull]]. split; [done|].
  intros i r Hi. case_decide as Hlo; [by apply (Hnull i)|]. apply (Hhits i r); [|done]. apply lookup_lt_Some in Hi. lia.
Qed.

End HitTheorems.

(** ** Witnesses *)

#[local] Existing Instance test_env.

(** Blocks 1 and 2 hold the two blocks of [cached_request], cached for group 0. *)
Definition pool_cached : BlockPool :=
  (run_calls [GetNewBlocks 2; CacheFullBlocks cached_request [Blk 1; Blk 2] 0 2 2 0] pool4).2.

Lemma pool_cached_inv : ∃ free, pool_inv pool_cached free [].
Proof.
  unfold pool_cached.
  assert (legal_run [GetNewBlocks 2; CacheFullBlocks cached_request [Blk 1; Blk 2] 0 2 2 0] pool4) as Hl.
  { apply (bool_decide_unpack _). vm_compute. exact I. }
  pose proof (run_calls_inv _ pool4 _ pool4_inv Hl) as Hrun.
  apply wp_run in Hrun as ([] & p' & -> & _ & free & Hinv). by exists free.
Qed.

Definition full2 : KVCacheSpec := FullAttentionSpec (mkAttention 2 1 1 bf16 NONE None) (mkFull 1 None None).
Definition sliding2 : KVCacheSpec := SlidingWindowSpec (mkAttention 2 1 1 bf16 NONE None) 3 1.
Definition chunked2 : AttentionSpec := mkAttention 2 1 1 bf16 NONE None.
Definition mamba2 : MambaFields := mkMamba 2 [] [] None "mamba2" MambaAll 0.

Lemma full_hit_longest_witness :
  full_find_longest_cache_hit (Plain [[7]; [9]; [3]]) 6 [0] pool_cached full2 false 2 1 1 =
    Ok [[Blk 1; Blk 2]] ∧
  (∃ h, [[7]; [9]; [3]] !! 2%nat = Some h ∧ miss pool_cached [0] h).
Proof.
  split; [vm_compute; reflexivity|]. destruct pool_cached_inv as (free & Hwf & _).
  destruct (full_hit_longest pool_cached free (Plain [[7]; [9]; [3]]) 6 [0] full2 false 2 1 1 2
    [[7]; [9]; [3]] 2) as (computed & n & _ & _ & _ & _ & _ & Hmiss);
    [reflexivity|reflexivity|vm_compute; reflexivity|exact Hwf|discriminate|reflexivity|lia..|].
  exists [3]. split; [reflexivity|]. apply Hmiss. reflexivity.
Defined.

Lemma sliding_hit_covers_window_witness :
  ∃ computed n,
    sliding_find_longest_cache_hit (Plain [[5]; [9]; [3]]) 6 [0] pool_cached sliding2 false 2 1 1 =
      Ok computed ∧ (2 | Z.of_nat n * 2)%Z ∧ computed = [[Blk 0; Blk 2]].
Proof.
  destruct pool_cached_inv as (free & Hwf & _).
  destruct (sliding_hit_covers_window pool_cached free (Plain [[5]; [9]; [3]]) 6 [0] sliding2 3 false 2)
    as (computed & n & Hrun & Hdiv & _);
    [exact Hwf|discriminate|reflexivity|reflexivity|lia|lia|vm_compute; discriminate|lia|].
  exists computed, n. split; [exact Hrun|]. split; [exact Hdiv|].
  vm_compute in Hrun. injection Hrun as <-. reflexivity.
Defined.

(** Five tokens, chunks of three, blocks of two: the current chunk starts in the second
    block, which is cached. *)
Lemma chunked_hit_longest_witness :
  ∃ computed n,
    chunked_find_longest_cache_hit (Plain [[5]; [9]; [3]]) 5 [0] pool_cached
      (ChunkedLocalAttentionSpec chunked2 3) false 2 1 1 = Ok computed ∧ (1 ≤ n ≤ 2)%nat ∧ computed = [[null_block pool_cached; Blk 2]] ∧
    hit pool_cached 0 [9] (Blk 2).
Proof.
  destruct pool_cached_inv as (free & Hwf & _).
  destruct (chunked_hit_longest pool_cached free (Plain [[5]; [9]; [3]]) 5 [0] chunked2 3 1)
    as (computed & n & Hrun & Hrows & Hn & _);
    [reflexivity|exact Hwf|discriminate|reflexivity|lia|vm_compute; discriminate|lia|].
  exists computed, n. split; [exact Hrun|]. split; [exact Hn|].
  assert (computed = [[null_block pool_cached; Blk 2]]) as -> by (vm_compute in Hrun; injection Hrun as <-; reflexivity).
  split; [reflexivity|]. apply Forall2_cons in Hrows as [[_ Hc] _]. destruct (Hc 1%nat (Blk 2) eq_refl) as (h & Hh & Hhit).
  injection Hh as <-. exact Hhit.
Defined.

