(* ===== verification/SingleType.v ===== *)
(** * The managers of one KV-cache group

    vllm/v1/core/single_type_kv_cache_manager.py: the blocks each request holds in
    one group, for every kind of attention.  The state of an operation is the block
    pool, shared by all groups, and the manager's own fields.  A defaultdict is a
    map whose reads insert the missing key. *)

From S2P Require Import Prelude FreeQueue Request BlockHash BlockPool KVSpec CacheHit.

(** The fields of [SingleTypeKVCacheManager] and of its subclasses: the last four
    belong to [MambaManager] and [SinkFullAttentionManager]. *)
Record Manager := mkManager {
  m_kv_cache_spec : KVCacheSpec;
  m_block_size : Z;
  dcp_world_size : Z;
  pcp_world_size : Z;
  m_enable_caching : bool;
  _max_admission_blocks_per_request : option Z;
  new_block_ids : list Z;
  req_to_blocks : gmap string (list ref);
  num_cached_block : gmap string Z;
  kv_cache_group_id : Z;
  _null_block : ref;
  cached_blocks_this_step : gset bytes;
  last_state_block_idx : gmap string Z;
  _allocated_block_reqs : gset string;
  sink_blocks : list ref
}.

Definition set_new_block_ids (v : list Z) (m : Manager) : Manager :=
  mkManager
    (m_kv_cache_spec m) (m_block_size m) (dcp_world_size m) (pcp_world_size m)
    (m_enable_caching m) (_max_admission_blocks_per_request m) v (req_to_blocks m)
    (num_cached_block m) (kv_cache_group_id m) (_null_block m) (cached_blocks_this_step
    m) (last_state_block_idx m) (_allocated_block_reqs m) (sink_blocks m).
Definition set_req_to_blocks (v : gmap string (list ref)) (m : Manager) : Manager :=
  mkManager
    (m_kv_cache_spec m) (m_block_size m) (dcp_world_size m) (pcp_world_size m)
    (m_enable_caching m) (_max_admission_blocks_per_request m) (new_block_ids m) v
    (num_cached_block m) (kv_cache_group_id m) (_null_block m) (cached_blocks_this_step
    m) (last_state_block_idx m) (_allocated_block_reqs m) (sink_blocks m).
Definition set_num_cached_block (v : gmap string Z) (m : Manager) : Manager :=
  mkManager
    (m_kv_cache_spec m) (m_block_size m) (dcp_world_size m) (pcp_world_size m)
    (m_enable_caching m) (_max_admission_blocks_per_request m) (new_block_ids m)
    (req_to_blocks m) v (kv_cache_group_id m) (_null_block m) (cached_blocks_this_step
    m) (last_state_block_idx m) (_allocated_block_reqs m) (sink_blocks m).
Definition set_cached_blocks_this_step (v : gset bytes) (m : Manager) : Manager :=
  mkManager
    (m_kv_cache_spec m) (m_block_size m) (dcp_world_size m) (pcp_world_size m)
    (m_enable_caching m) (_max_admission_blocks_per_request m) (new_block_ids m)
    (req_to_blocks m) (num_cached_block m) (kv_cache_group_id m) (_null_block m) v
    (last_state_block_idx m) (_allocated_block_reqs m) (sink_blocks m).
Definition set_last_state_block_idx (v : gmap string Z) (m : Manager) : Manager :=
  mkManager
    (m_kv_cache_spec m) (m_block_size m) (dcp_world_size m) (pcp_world_size m)
    (m_enable_caching m) (_max_admission_blocks_per_request m) (new_block_ids m)
    (req_to_blocks m) (num_cached_block m) (kv_cache_group_id m) (_null_block m)
    (cached_blocks_this_step m) v (_allocated_block_reqs m) (sink_blocks m).
Definition set_allocated_block_reqs (v : gset string) (m : Manager) : Manager :=
  mkManager
    (m_kv_cache_spec m) (m_block_size m) (dcp_world_size m) (pcp_world_size m)
    (m_enable_caching m) (_max_admission_blocks_per_request m) (new_block_ids m)
    (req_to_blocks m) (num_cached_block m) (kv_cache_group_id m) (_null_block m)
    (cached_blocks_this_step m) (last_state_block_idx m) v (sink_blocks m).
Definition set_sink_blocks (v : list ref) (m : Manager) : Manager :=
  mkManager
    (m_kv_cache_spec m) (m_block_size m) (dcp_world_size m) (pcp_world_size m)
    (m_enable_caching m) (_max_admission_blocks_per_request m) (new_block_ids m)
    (req_to_blocks m) (num_cached_block m) (kv_cache_group_id m) (_null_block m)
    (cached_blocks_this_step m) (last_state_block_idx m) (_allocated_block_reqs m) v.

(** The pool together with one of the managers that share it. *)
Record KV := mkKV { kv_pool : BlockPool; kv_mgr : Manager }.

Section Operations.
Context {E : Env}.
Abbreviation MK := (M KV).

Definition on_pool {A} : M BlockPool A → MK A :=
  zoom kv_pool (λ p s, mkKV p (kv_mgr s)).
Definition getm {A} (f : Manager → A) : MK A := gets (λ s, f (kv_mgr s)).
Definition putm (f : Manager → Manager) : MK unit :=
  modify (λ s, mkKV (kv_pool s) (f (kv_mgr s))).

(** [self.req_to_blocks[request_id]]: a missing key is inserted. *)
Definition default_row (request_id : string) (m : Manager) : Manager :=
  match req_to_blocks m !! request_id with
  | Some _ => m
  | None => set_req_to_blocks (<[request_id := []]> (req_to_blocks m)) m
  end.
Definition blocks_of (m : Manager) (request_id : string) : list ref :=
  default [] (req_to_blocks m !! request_id).
Definition read_row (request_id : string) : MK (list ref) :=
  _ ← putm (default_row request_id);
  getm (λ m, blocks_of m request_id).
(** The mutation of the list that is in the dict. *)
Definition write_row (request_id : string) (l : list ref) : MK unit :=
  putm (λ m, set_req_to_blocks (<[request_id := l]> (req_to_blocks m)) m).

Definition num_cached (m : Manager) (request_id : string) : Z :=
  default 0 (num_cached_block m !! request_id).

Definition is_align (m : Manager) : bool :=
  match m_kv_cache_spec m with
  | MambaSpec f => bool_decide (mamba_cache_mode f = MambaAlign)
  | _ => false
  end.
Definition num_spec_blocks (m : Manager) : Z :=
  match m_kv_cache_spec m with MambaSpec f => num_speculative_blocks f | _ => 0 end.

(** [type(self.kv_cache_spec) in (FullAttentionSpec, TQFullAttentionSpec)] *)
Definition tracks_new_blocks (m : Manager) : bool :=
  match m_kv_cache_spec m with
  | FullAttentionSpec _ _ | TQFullAttentionSpec _ _ _ => true
  | _ => false
  end.

(** [self.new_block_ids.extend(b.block_id for b in blocks)], for those classes *)
Definition track_new_blocks (bs : list ref) : MK unit :=
  modify (λ s, if tracks_new_blocks (kv_mgr s)
               then mkKV (kv_pool s)
                      (set_new_block_ids (new_block_ids (kv_mgr s) ++ (id_of (kv_pool s) <$> bs)) (kv_mgr s))
               else s).

(** [get_num_skipped_tokens] of each class *)
Definition get_num_skipped_tokens (m : Manager) (num_computed_tokens : Z) : Z :=
  match m_kv_cache_spec m with
  | SlidingWindowSpec _ w _ | SlidingWindowMLASpec _ w _ => Z.max 0 (num_computed_tokens - w + 1)
  | ChunkedLocalAttentionSpec _ c => num_computed_tokens / c * c
  | MambaSpec _ => num_computed_tokens - 1
  | _ => 0
  end.

Definition _get_num_evictable_blocks (p : BlockPool) (bs : list ref) : Z :=
  len (filter (λ r, ref_cnt (hp p !!! r) = 0 ∧ is_null (hp p !!! r) = false) bs).

(** ** How many blocks a request needs *)

Definition base_get_num_blocks_to_allocate (request_id : string) (num_tokens : Z)
    (new_computed_blocks : list ref) (total_computed_tokens : Z) (apply_admission_cap : bool) : MK Z :=
  s ← gets id;
  let m := kv_mgr s in
  let num_required_blocks := cdiv num_tokens (m_block_size m) in
  let num_required_blocks :=
    match _max_admission_blocks_per_request m with
    | Some cap => if apply_admission_cap then Z.min num_required_blocks cap else num_required_blocks
    | None => num_required_blocks
    end in
  let num_req_blocks := len (blocks_of m request_id) in
  if bool_decide (is_Some (num_cached_block m !! request_id)) then
    _ ← assert (len new_computed_blocks =? 0);
    mret (Z.max (num_required_blocks - num_req_blocks) 0)
  else
    let num_skipped_tokens := get_num_skipped_tokens m total_computed_tokens in
    let num_local_computed_blocks := len new_computed_blocks + num_req_blocks in
    let num_skipped_blocks := num_skipped_tokens / m_block_size m in
    let num_new_blocks :=
      Z.max (num_required_blocks - Z.max num_skipped_blocks num_local_computed_blocks) 0 in
    let num_skipped_new_computed_blocks := Z.max 0 (num_skipped_blocks - num_req_blocks) in
    let num_evictable_blocks :=
      _get_num_evictable_blocks (kv_pool s)
        (py_slice_from new_computed_blocks num_skipped_new_computed_blocks) in
    mret (num_new_blocks + num_evictable_blocks).

Definition mamba_get_num_blocks_to_allocate (request_id : string) (num_tokens : Z)
    (new_computed_blocks : list ref) (total_computed_tokens num_tokens_main_model : Z)
    (apply_admission_cap : bool) : MK Z :=
  s ← gets id;
  let m := kv_mgr s in
  let last_hash_this_step :=
    match List.rev new_computed_blocks with
    | [] => false
    | b :: _ =>
        match _block_hash (hp (kv_pool s) !!! b) with
        | Some h => bool_decide (h ∈ cached_blocks_this_step m)
        | None => false
        end
    end in
  if last_hash_this_step then mret (num_gpu_blocks (kv_pool s) + 1)
  else if negb (is_align m) then
    let num_tokens :=
      if 0 <? num_spec_blocks m then num_tokens + block_size (m_kv_cache_spec m) * num_spec_blocks m
      else num_tokens in
    base_get_num_blocks_to_allocate request_id num_tokens new_computed_blocks total_computed_tokens
      apply_admission_cap
  else
    let num_required_blocks := cdiv num_tokens_main_model (m_block_size m) + num_spec_blocks m in
    row ← read_row request_id;
    let num_new_blocks := num_required_blocks - len new_computed_blocks - len row in
    let num_new_blocks :=
      if 0 <? num_new_blocks then
        if bool_decide (request_id ∈ _allocated_block_reqs m) then 1 else 1 + num_spec_blocks m
      else num_new_blocks in
    mret (num_new_blocks + _get_num_evictable_blocks (kv_pool s) new_computed_blocks).

Definition get_num_blocks_to_allocate (request_id : string) (num_tokens : Z)
    (new_computed_blocks : list ref) (total_computed_tokens num_tokens_main_model : Z)
    (apply_admission_cap : bool) : MK Z :=
  spec ← getm m_kv_cache_spec;
  if is_mamba spec then
    mamba_get_num_blocks_to_allocate request_id num_tokens new_computed_blocks total_computed_tokens
      num_tokens_main_model apply_admission_cap
  else
    base_get_num_blocks_to_allocate request_id num_tokens new_computed_blocks total_computed_tokens
      apply_admission_cap.

(** ** Adding the blocks of a prefix-cache hit *)

Definition base_allocate_new_computed_blocks (request_id : string) (new_computed_blocks : list ref)
    (num_local_computed_tokens num_external_computed_tokens : Z) : MK unit :=
  m ← getm id;
  if bool_decide (is_Some (num_cached_block m !! request_id)) then
    assert (len new_computed_blocks =? 0)
  else
    req_blocks ← read_row request_id;
    _ ← assert (len req_blocks =? 0);
    let num_total_computed_tokens := num_local_computed_tokens + num_external_computed_tokens in
    let num_skipped_tokens := get_num_skipped_tokens m num_total_computed_tokens in
    let num_skipped_blocks := num_skipped_tokens / m_block_size m in
    let '(new_computed_blocks, num_external_computed_tokens) :=
      if 0 <? num_skipped_blocks then
        (py_slice_from new_computed_blocks num_skipped_blocks,
         Z.min (num_total_computed_tokens - num_skipped_tokens) num_external_computed_tokens)
      else (new_computed_blocks, num_external_computed_tokens) in
    _ ← (if m_enable_caching m then on_pool (touch new_computed_blocks)
         else assert (len new_computed_blocks =? 0));
    let req_blocks := py_repeat (_null_block m) num_skipped_blocks ++ new_computed_blocks in
    _ ← write_row request_id req_blocks;
    _ ← putm (λ m, set_num_cached_block (<[request_id := len req_blocks]> (num_cached_block m)) m);
    if 0 <? num_external_computed_tokens then
      allocated_blocks ←
        on_pool (get_new_blocks (cdiv num_total_computed_tokens (m_block_size m) - len req_blocks));
      _ ← write_row request_id (req_blocks ++ allocated_blocks);
      track_new_blocks allocated_blocks
    else mret tt.

Definition allocate_new_computed_blocks (request_id : string) (new_computed_blocks : list ref)
    (num_local_computed_tokens num_external_computed_tokens : Z) : MK unit :=
  spec ← getm m_kv_cache_spec;
  if is_cross spec then assert (len new_computed_blocks =? 0)
  else base_allocate_new_computed_blocks request_id new_computed_blocks num_local_computed_tokens
         num_external_computed_tokens.

(** ** Adding new blocks *)

Definition base_allocate_new_blocks (request_id : string) (num_tokens : Z) : MK (list ref) :=
  req_blocks ← read_row request_id;
  m ← getm id;
  let num_required_blocks := cdiv num_tokens (m_block_size m) in
  let num_new_blocks := num_required_blocks - len req_blocks in
  if num_new_blocks <=? 0 then mret []
  else
    new_blocks ← on_pool (get_new_blocks num_new_blocks);
    _ ← write_row request_id (req_blocks ++ new_blocks);
    _ ← track_new_blocks new_blocks;
    mret new_blocks.

(** The loop that reuses the speculative blocks of the previous step. *)
Fixpoint reuse_spec_blocks (null_block : ref) (num_skipped_blocks : Z) (idxs : list Z)
    (req_blocks : list ref) : option (list ref) :=
  match idxs with
  | [] => Some req_blocks
  | block_idx :: idxs =>
      if block_idx <? num_skipped_blocks then
        match py_get req_blocks block_idx with
        | None => None
        | Some b =>
            let i := if block_idx <? 0 then len req_blocks + 1 + block_idx else block_idx in
            reuse_spec_blocks null_block num_skipped_blocks idxs (py_set (req_blocks ++ [b]) i null_block)
        end
      else Some req_blocks
  end.

Definition align_allocate_new_blocks (request_id : string) (num_tokens : Z) : MK (list ref) :=
  req_blocks ← read_row request_id;
  m ← getm id;
  let num_required_blocks := cdiv num_tokens (m_block_size m) + num_spec_blocks m in
  if num_required_blocks =? len req_blocks then mret []
  else
    _ ← assert (len req_blocks <? num_required_blocks);
    let prev_block_len := len req_blocks in
    let blocks_allocated := bool_decide (request_id ∈ _allocated_block_reqs m) in
    _ ← putm (λ m,
      if blocks_allocated then
        set_last_state_block_idx
          (<[request_id := prev_block_len - 1 - num_spec_blocks m]> (last_state_block_idx m)) m
      else if 0 <? prev_block_len then
        set_last_state_block_idx (<[request_id := prev_block_len - 1]> (last_state_block_idx m)) m
      else m);
    let num_skipped_blocks := num_required_blocks - num_spec_blocks m - 1 in
    let req_blocks :=
      if prev_block_len <? num_skipped_blocks
      then req_blocks ++ py_repeat (_null_block m) (num_skipped_blocks - prev_block_len)
      else req_blocks in
    _ ← write_row request_id req_blocks;
    req_blocks ← or_raise IndexError
      (if blocks_allocated
       then reuse_spec_blocks (_null_block m) num_skipped_blocks
              (py_range (prev_block_len - num_spec_blocks m) prev_block_len) req_blocks
       else Some req_blocks);
    _ ← write_row request_id req_blocks;
    let num_new_blocks := num_required_blocks - len req_blocks in
    _ ← (if blocks_allocated then assert (num_new_blocks <=? 1)
         else assert (num_new_blocks <=? num_spec_blocks m + 1));
    new_blocks ← on_pool (get_new_blocks num_new_blocks);
    let req_blocks := req_blocks ++ new_blocks in
    _ ← write_row request_id req_blocks;
    _ ← putm (λ m, set_allocated_block_reqs ({[request_id]} ∪ _allocated_block_reqs m) m);
    mret (py_slice_from req_blocks prev_block_len).

Definition allocate_new_blocks (request_id : string) (num_tokens num_tokens_main_model : Z) :
    MK (list ref) :=
  m ← getm id;
  if is_mamba (m_kv_cache_spec m) then
    if negb (is_align m) then
      let num_tokens :=
        if 0 <? num_spec_blocks m then num_tokens + m_block_size m * num_spec_blocks m
        else num_tokens in
      base_allocate_new_blocks request_id num_tokens
    else align_allocate_new_blocks request_id num_tokens_main_model
  else base_allocate_new_blocks request_id num_tokens.

Definition take_new_block_ids : MK (list Z) :=
  ids ← getm new_block_ids;
  _ ← putm (set_new_block_ids []);
  mret ids.

(** ** Caching, freeing, recycling *)

Definition base_cache_blocks (request : Request) (num_tokens : Z) : MK unit :=
  m ← getm id;
  let id := request_id request in
  let num_cached_blocks := num_cached m id in
  let num_full_blocks := num_tokens / m_block_size m in
  if num_full_blocks <=? num_cached_blocks then mret tt
  else
    row ← read_row id;
    _ ← on_pool (cache_full_blocks request row num_cached_blocks num_full_blocks (m_block_size m)
                   (kv_cache_group_id m));
    putm (λ m, set_num_cached_block (<[id := num_full_blocks]> (num_cached_block m)) m).

Definition mamba_cache_blocks (request : Request) (num_tokens : Z) : MK unit :=
  let id := request_id request in
  num_cached_blocks_before ← getm (λ m, num_cached m id);
  _ ← base_cache_blocks request num_tokens;
  num_cached_blocks_after ← getm (λ m, num_cached m id);
  if num_cached_blocks_before <? num_cached_blocks_after then
    row ← read_row id;
    for_ (py_slice row num_cached_blocks_before num_cached_blocks_after) (λ block,
      b ← on_pool (load_block block);
      if is_null b then mret tt
      else
        h ← or_raise AssertionError (_block_hash b);
        putm (λ m, set_cached_blocks_this_step ({[h]} ∪ cached_blocks_this_step m) m))
  else mret tt.

Definition cache_blocks (request : Request) (num_tokens : Z) : MK unit :=
  spec ← getm m_kv_cache_spec;
  if is_mamba spec then mamba_cache_blocks request num_tokens
  else if is_cross spec then raise ValueError
  else base_cache_blocks request num_tokens.

Definition base_free (request_id : string) : MK unit :=
  req_blocks ← getm (λ m, blocks_of m request_id);
  _ ← putm (λ m, set_req_to_blocks (delete request_id (req_to_blocks m)) m);
  _ ← on_pool (free_blocks (reverse req_blocks));
  putm (λ m, set_num_cached_block (delete request_id (num_cached_block m)) m).

Definition free (request_id : string) : MK unit :=
  align ← getm is_align;
  _ ← (if (align : bool) then
         putm (λ m, set_last_state_block_idx (delete request_id (last_state_block_idx m))
                      (set_allocated_block_reqs (_allocated_block_reqs m ∖ {[request_id]}) m))
       else mret tt);
  base_free request_id.

(** The loop of [remove_skipped_blocks] from index [n - 1] down; returns the row and
    the removed blocks.  Blocks are compared by identity: the dataclass equality
    compares the block ids first, which differ between blocks. *)
Fixpoint skip_loop (null_block : ref) (n : nat) (blocks removed : list ref) : list ref * list ref :=
  match n with
  | O => (blocks, removed)
  | S i =>
      match blocks !! i with
      | None => (blocks, removed)
      | Some b =>
          if decide (b = null_block) then (blocks, removed)
          else skip_loop null_block i (<[i := null_block]> blocks) (removed ++ [b])
      end
  end.

Definition base_remove_skipped_blocks (request_id : string) (total_computed_tokens : Z) : MK unit :=
  m ← getm id;
  let num_skipped_tokens := get_num_skipped_tokens m total_computed_tokens in
  if num_skipped_tokens <=? 0 then mret tt
  else
    blocks ← read_row request_id;
    let num_skipped_blocks := Z.min (num_skipped_tokens / m_block_size m) (len blocks) in
    let '(blocks, removed_blocks) :=
      skip_loop (_null_block m) (Z.to_nat num_skipped_blocks) blocks [] in
    _ ← write_row request_id blocks;
    on_pool (free_blocks removed_blocks).

Definition mamba_remove_skipped_blocks (request_id : string) (num_computed_tokens : Z) : MK unit :=
  m ← getm id;
  let num_computed_tokens := Z.max 0 (num_computed_tokens - num_spec_blocks m) in
  _ ← base_remove_skipped_blocks request_id num_computed_tokens;
  if is_align m then
    last_state ← getm (λ m, last_state_block_idx m !! request_id);
    match last_state with
    | Some last_state_block_idx =>
        if last_state_block_idx <? cdiv num_computed_tokens (m_block_size m) - 1 then
          blocks ← read_row request_id;
          b ← or_raise IndexError (py_get blocks last_state_block_idx);
          if decide (b = _null_block m) then mret tt
          else
            _ ← on_pool (free_blocks [b]);
            let i := if last_state_block_idx <? 0 then len blocks + last_state_block_idx
                     else last_state_block_idx in
            write_row request_id (py_set blocks i (_null_block m))
        else mret tt
    | None => mret tt
    end
  else mret tt.

Definition remove_skipped_blocks (request_id : string) (total_computed_tokens : Z) : MK unit :=
  spec ← getm m_kv_cache_spec;
  if is_mamba spec then mamba_remove_skipped_blocks request_id total_computed_tokens
  else base_remove_skipped_blocks request_id total_computed_tokens.

(** The leading blocks every request with an entry in the dict refers to. *)
Fixpoint common_prefix (p : BlockPool) (num_requests : Z) (bs : list ref) : Z :=
  match bs with
  | [] => 0
  | b :: bs => if ref_cnt (hp p !!! b) =? num_requests then 1 + common_prefix p num_requests bs else 0
  end.

Definition get_num_common_prefix_blocks (running_request_id : string) : MK Z :=
  spec ← getm m_kv_cache_spec;
  if is_full_attention spec then
    blocks ← read_row running_request_id;
    gets (λ s, common_prefix (kv_pool s) (Z.of_nat (size (req_to_blocks (kv_mgr s)))) blocks)
  else mret 0.

Definition new_step_starts : MK unit :=
  putm (λ m, if is_mamba (m_kv_cache_spec m) then set_cached_blocks_this_step ∅ m else m).

(** ** Construction *)

(** [SingleTypeKVCacheManager.__init__] *)
Definition manager_init (spec : KVCacheSpec) (p : BlockPool) (enable_caching : bool)
    (kv_cache_group_id dcp pcp : Z) (max_admission : option Z) : Manager :=
  mkManager spec (parallel_block_size (block_size spec) dcp pcp) dcp pcp enable_caching max_admission
    [] ∅ ∅ kv_cache_group_id (null_block p) ∅ ∅ ∅ [].

(** [get_manager_for_kv_cache_spec]; the constructor of the sink manager takes its
    sink blocks from the free queue. *)
Definition get_manager_for_kv_cache_spec (spec : KVCacheSpec)
    (max_num_batched_tokens max_model_len : Z) (enable_caching : bool)
    (kv_cache_group_id dcp pcp : Z) : M BlockPool Manager :=
  _ ← or_raise KeyError (spec_manager_map spec);
  p ← gets id;
  let m := manager_init spec p enable_caching kv_cache_group_id dcp pcp
             (max_admission_blocks_per_request spec max_num_batched_tokens max_model_len) in
  match spec with
  | SinkFullAttentionSpec _ _ sink_len =>
      n ← or_raise AssertionError sink_len;
      _ ← assert ((0 <? n) && (n mod m_block_size m =? 0));
      blocks ← on_queue (popleft_n (n / m_block_size m));
      mret (set_sink_blocks blocks m)
  | _ => mret m
  end.
End Operations.

(** ** References held by the requests of a group *)

Section Rows.
Implicit Types (rows : gmap string (list ref)) (r : ref) (row : list ref) (id : string).

(** How often the rows refer to [r]. *)
Definition row_refs r rows : Z := map_fold (λ _ row n, occ r row + n) 0 rows.

Lemma row_refs_fresh r rows id row :
  rows !! id = None → row_refs r (<[id := row]> rows) = occ r row + row_refs r rows.
Proof.
  intros Hid. unfold row_refs.
  rewrite (map_fold_insert_L (λ _ row n, occ r row + n)); [done|intros; lia|done].
Qed.

Lemma row_refs_delete r rows id :
  row_refs r (delete id rows) = row_refs r rows - occ r (default [] (rows !! id)).
Proof.
  destruct (rows !! id) as [row|] eqn:Hid.
  - rewrite <- (insert_delete_id rows id row Hid) at 2.
    rewrite row_refs_fresh by apply lookup_delete_eq. simpl. lia.
  - rewrite delete_id by done. simpl. rewrite occ_nil. lia.
Qed.

Lemma row_refs_insert r rows id row :
  row_refs r (<[id := row]> rows) = row_refs r rows - occ r (default [] (rows !! id)) + occ r row.
Proof.
  rewrite <- insert_delete_eq, row_refs_fresh by apply lookup_delete_eq.
  rewrite row_refs_delete. lia.
Qed.

Lemma row_refs_nonneg r rows : 0 ≤ row_refs r rows.
Proof.
  induction rows as [|id row rows Hid IH] using map_ind; [done|].
  rewrite row_refs_fresh by done. pose proof (occ_nonneg r row). lia.
Qed.

Lemma row_refs_le r rows id row : rows !! id = Some row → occ r row ≤ row_refs r rows.
Proof.
  intros Hid. pose proof (row_refs_delete r rows id) as Hd. rewrite Hid in Hd. simpl in Hd.
  pose proof (row_refs_nonneg r (delete id rows)). lia.
Qed.

Lemma row_refs_zero r rows : (∀ id row, rows !! id = Some row → r ∉ row) → row_refs r rows = 0.
Proof.
  induction rows as [|id row rows Hid IH] using map_ind; [done|].
  intros Hall. rewrite row_refs_fresh, IH; [|..|done].
  - rewrite (proj1 (occ_not_elem r row)); [done|]. apply (Hall id). apply lookup_insert_eq.
  - intros id' row' Hid'. apply (Hall id'). rewrite lookup_insert_ne; [done|]. intros ->. congruence.
Qed.
End Rows.

(** ** The invariant of a group *)

Section ManagerInvariant.
Implicit Types (p : BlockPool) (m : Manager) (s : KV) (r : ref) (row bs free : list ref) (id : string).

(** A row lists blocks of the pool, each at most once, and null blocks. *)
Definition row_ok p row : Prop := ∀ r, r ∈ row → r = Blk 0 ∨ (valid p r ∧ occ r row = 1).

Definition mconfig m :=
  (m_kv_cache_spec m, m_block_size m, m_enable_caching m, _max_admission_blocks_per_request m,
   kv_cache_group_id m, _null_block m, sink_blocks m).

Lemma mconfig_eq m m' :
  mconfig m' = mconfig m →
  m_kv_cache_spec m' = m_kv_cache_spec m ∧ m_block_size m' = m_block_size m ∧
  m_enable_caching m' = m_enable_caching m ∧ kv_cache_group_id m' = kv_cache_group_id m ∧
  _null_block m' = _null_block m ∧ sink_blocks m' = sink_blocks m.
Proof. unfold mconfig. intros [=]. by split_and!. Qed.

(** [ext r] is the number of references to [r] held by other groups. *)
Record mgr_inv (reserved : list ref) (ext : ref → Z) s free : Prop := {
  mi_pool : pool_inv (kv_pool s) free reserved;
  mi_null : _null_block (kv_mgr s) = Blk 0;
  mi_ext r : 0 ≤ ext r;
  mi_rc r : valid (kv_pool s) r →
    rc (kv_pool s) r = ext r + row_refs r (req_to_blocks (kv_mgr s));
  mi_rows id row : req_to_blocks (kv_mgr s) !! id = Some row → row_ok (kv_pool s) row
}.

Lemma row_ok_config p p' row : config p' = config p → row_ok p row → row_ok p' row.
Proof.
  intros Hc Hr r Hin. destruct (Hr r Hin) as [?|[? ?]]; [by left|right].
  split; [by rewrite config_valid|done].
Qed.

Lemma row_ok_nil p : row_ok p [].
Proof. by intros r ?%not_elem_of_nil. Qed.

Lemma row_ok_reverse p row : row_ok p row → row_ok p (reverse row).
Proof. intros Hr r Hin. rewrite elem_of_reverse in Hin. rewrite occ_reverse. exact (Hr r Hin). Qed.

Lemma row_ok_drop p row n : row_ok p row → row_ok p (drop n row).
Proof.
  intros Hr r Hin. pose proof (elem_of_drop_in _ _ _ Hin) as Hin'.
  destruct (Hr r Hin') as [?|[Hv Ho]]; [by left|right]. split; [done|].
  rewrite <- (take_drop n row), occ_app in Ho. apply occ_elem in Hin.
  pose proof (occ_nonneg r (take n row)). lia.
Qed.

Lemma row_ok_app p row bs :
  row_ok p row → row_ok p bs → (∀ r, valid p r → r ∈ row → r ∉ bs) → row_ok p (row ++ bs).
Proof.
  intros Hr Hb Hd r [Hin|Hin]%elem_of_app.
  - destruct (Hr r Hin) as [?|[Hv Ho]]; [by left|right]. split; [done|].
    by rewrite occ_app, Ho, (proj1 (occ_not_elem r bs) (Hd r Hv Hin)).
  - destruct (Hb r Hin) as [?|[Hv Ho]]; [by left|right]. split; [done|].
    rewrite occ_app, Ho, (proj1 (occ_not_elem r row)); [done|].
    intros Hrow. exact (Hd r Hv Hrow Hin).
Qed.

Lemma row_ok_nulls p n row : row_ok p row → row_ok p (py_repeat (Blk 0) n ++ row).
Proof.
  intros Hr. apply row_ok_app; [|done|].
  - intros r Hin. left. unfold py_repeat in Hin. by apply elem_of_replicate in Hin as [-> _].
  - intros r Hv Hin. unfold py_repeat in Hin. apply elem_of_replicate in Hin as [-> _].
    by apply valid_ne_null in Hv.
Qed.

Lemma row_ok_NoDup p bs : NoDup bs → (∀ r, r ∈ bs → valid p r) → row_ok p bs.
Proof. intros Hnd Hv r Hr. right. split; [by apply Hv|by apply occ_nodup]. Qed.

Section Fixed.
Context (reserved : list ref) (ext : ref → Z).
Abbreviation inv := (mgr_inv reserved ext).

(** A reference in a row is a counted reference. *)
Lemma row_ref_counted s free id r :
  inv s free → valid (kv_pool s) r → r ∈ blocks_of (kv_mgr s) id → 0 < rc (kv_pool s) r.
Proof.
  intros Hi Hv Hr. rewrite (mi_rc _ _ _ _ Hi) by done. pose proof (mi_ext _ _ _ _ Hi r).
  unfold blocks_of in Hr. destruct (req_to_blocks (kv_mgr s) !! id) as [row|] eqn:Hid;
    [|by apply not_elem_of_nil in Hr].
  pose proof (row_refs_le r _ _ _ Hid). apply occ_elem in Hr. simpl in Hr. lia.
Qed.

Lemma free_not_in_rows s free id r : inv s free → r ∈ free → r ∉ blocks_of (kv_mgr s) id.
Proof.
  intros Hi Hr Hin. destruct (mi_pool _ _ _ _ Hi) as [Hwf Href].
  pose proof (pw_free _ _ Hwf _ Hr) as Hv. pose proof (row_ref_counted _ _ _ _ Hi Hv Hin).
  assert (rc (kv_pool s) r = 0) by (apply (ro_zero _ _ _ Href); auto). lia.
Qed.

Lemma blocks_of_ok s free id : inv s free → row_ok (kv_pool s) (blocks_of (kv_mgr s) id).
Proof.
  intros Hi. unfold blocks_of. destruct (req_to_blocks (kv_mgr s) !! id) eqn:Hid; simpl.
  - by eapply mi_rows.
  - apply row_ok_nil.
Qed.

(** One request's row changes together with the counts of the pool. *)
Lemma mgr_inv_write s free p' m' free' id row' :
  inv s free → config p' = config (kv_pool s) → pool_inv p' free' reserved →
  req_to_blocks m' = <[id := row']> (req_to_blocks (kv_mgr s)) →
  _null_block m' = _null_block (kv_mgr s) →
  (∀ r, valid (kv_pool s) r →
     rc p' r = rc (kv_pool s) r - occ r (blocks_of (kv_mgr s) id) + occ r row') →
  row_ok p' row' →
  inv (mkKV p' m') free'.
Proof.
  intros Hi Hcfg Hp Hrows Hnull Hrc Hrow. split; simpl.
  - done.
  - rewrite Hnull. by eapply mi_null.
  - by eapply mi_ext.
  - intros r Hv. rewrite config_valid in Hv by done. rewrite Hrows, row_refs_insert.
    rewrite (Hrc r Hv), (mi_rc _ _ _ _ Hi r Hv). unfold blocks_of. lia.
  - intros id' row. rewrite Hrows, lookup_insert. case_decide; intros Hx; [by injection Hx as <-|].
    eapply row_ok_config; [done|]. by eapply mi_rows.
Qed.

(** The same when the request is forgotten. *)
Lemma mgr_inv_delete s free p' m' free' id :
  inv s free → config p' = config (kv_pool s) → pool_inv p' free' reserved →
  req_to_blocks m' = delete id (req_to_blocks (kv_mgr s)) →
  _null_block m' = _null_block (kv_mgr s) →
  (∀ r, valid (kv_pool s) r → rc p' r = rc (kv_pool s) r - occ r (blocks_of (kv_mgr s) id)) →
  inv (mkKV p' m') free'.
Proof.
  intros Hi Hcfg Hp Hrows Hnull Hrc. split; simpl.
  - done.
  - rewrite Hnull. by eapply mi_null.
  - by eapply mi_ext.
  - intros r Hv. rewrite config_valid in Hv by done. rewrite Hrows, row_refs_delete.
    rewrite (Hrc r Hv), (mi_rc _ _ _ _ Hi r Hv). unfold blocks_of. lia.
  - intros id' row. rewrite Hrows, lookup_delete. case_decide; intros Hx; [done|].
    eapply row_ok_config; [done|]. by eapply mi_rows.
Qed.

(** A change of other fields. *)
Lemma mgr_inv_same s free p' m' free' :
  inv s free → config p' = config (kv_pool s) → pool_inv p' free' reserved →
  (∀ i, rc p' (Blk i) = rc (kv_pool s) (Blk i)) →
  req_to_blocks m' = req_to_blocks (kv_mgr s) → _null_block m' = _null_block (kv_mgr s) →
  inv (mkKV p' m') free'.
Proof.
  intros Hi Hcfg Hp Hrc Hrows Hnull. split; simpl.
  - done.
  - rewrite Hnull. by eapply mi_null.
  - by eapply mi_ext.
  - intros r Hv. rewrite config_valid in Hv by done. rewrite Hrows.
    pose proof (mi_rc _ _ _ _ Hi r Hv) as Hold. destruct (valid_Blk _ _ Hv) as [i ->].
    by rewrite Hrc.
  - intros id row Hid. rewrite Hrows in Hid. eapply row_ok_config; [done|]. by eapply mi_rows.
Qed.
End Fixed.

Lemma blocks_of_default_row id m id' : blocks_of (default_row id m) id' = blocks_of m id'.
Proof.
  unfold default_row, blocks_of. destruct (req_to_blocks m !! id) eqn:Hid; [done|]. simpl.
  rewrite lookup_insert. case_decide; [|done]. subst. by rewrite Hid.
Qed.

Lemma default_row_rows id m :
  req_to_blocks (default_row id m) = <[id := blocks_of m id]> (req_to_blocks m).
Proof.
  unfold default_row, blocks_of. destruct (req_to_blocks m !! id) eqn:Hid; simpl; [|done].
  by rewrite insert_id.
Qed.

Lemma default_row_other id m :
  mconfig (default_row id m) = mconfig m ∧ num_cached_block (default_row id m) = num_cached_block m ∧
  new_block_ids (default_row id m) = new_block_ids m ∧ _null_block (default_row id m) = _null_block m ∧
  get_num_skipped_tokens (default_row id m) = get_num_skipped_tokens m.
Proof. unfold default_row. by destruct (req_to_blocks m !! id). Qed.

Lemma default_row_inv reserved ext s free id :
  mgr_inv reserved ext s free → mgr_inv reserved ext (mkKV (kv_pool s) (default_row id (kv_mgr s))) free.
Proof.
  intros Hi. eapply mgr_inv_write; [done|done|by eapply mi_pool|apply default_row_rows| | |].
  - by apply default_row_other.
  - intros r _. lia.
  - by eapply blocks_of_ok.
Qed.
End ManagerInvariant.

(** ** Steps of a manager *)

Section ManagerSteps.
Context {E : Env}.
Implicit Types (p : BlockPool) (m : Manager) (s : KV) (r : ref) (row bs free : list ref) (id : string).

Lemma wp_getm {A} (f : Manager → A) Q s : Q (f (kv_mgr s)) s → wp (getm f) Q s.
Proof. done. Qed.
Lemma wp_putm f Q s : Q tt (mkKV (kv_pool s) (f (kv_mgr s))) → wp (putm f) Q s.
Proof. done. Qed.
Lemma wp_on_pool {A} (o : M BlockPool A) Q s :
  wp o (λ a p', Q a (mkKV p' (kv_mgr s))) (kv_pool s) → wp (on_pool o) Q s.
Proof. intros Ho. by apply wp_zoom. Qed.
Lemma wp_read_row id Q s :
  Q (blocks_of (kv_mgr s) id) (mkKV (kv_pool s) (default_row id (kv_mgr s))) → wp (read_row id) Q s.
Proof.
  intros HQ. unfold read_row. apply wp_bind, wp_putm, wp_getm. simpl.
  by rewrite blocks_of_default_row.
Qed.
Lemma wp_write_row id row Q s :
  Q tt (mkKV (kv_pool s) (set_req_to_blocks (<[id := row]> (req_to_blocks (kv_mgr s))) (kv_mgr s))) →
  wp (write_row id row) Q s.
Proof. done. Qed.
Lemma wp_track bs Q s :
  (∀ ids, Q tt (mkKV (kv_pool s) (set_new_block_ids ids (kv_mgr s)))) →
  wp (track_new_blocks bs) Q s.
Proof.
  intros HQ. unfold track_new_blocks. apply wp_modify. destruct (tracks_new_blocks _); [apply HQ|].
  destruct s as [p []]. apply HQ.
Qed.

(** What an operation for request [id] may change in the manager: the request's own
    row, which becomes [row'], and its own entries. *)
Record mgr_step (s s' : KV) id row' : Prop := {
  ms_config : config (kv_pool s') = config (kv_pool s);
  ms_mconfig : mconfig (kv_mgr s') = mconfig (kv_mgr s);
  ms_row : blocks_of (kv_mgr s') id = row';
  ms_rows_other id' : id' ≠ id → req_to_blocks (kv_mgr s') !! id' = req_to_blocks (kv_mgr s) !! id';
  ms_cached_other id' : id' ≠ id → num_cached_block (kv_mgr s') !! id' = num_cached_block (kv_mgr s) !! id'
}.

Lemma mgr_step_trans s1 s2 s3 id row2 row3 :
  mgr_step s1 s2 id row2 → mgr_step s2 s3 id row3 → mgr_step s1 s3 id row3.
Proof.
  intros [? ? ? H1 H2] [? ? ? H3 H4]. split; try congruence.
  - intros id' Hn. by rewrite H3, H1.
  - intros id' Hn. by rewrite H4, H2.
Qed.

Lemma mgr_step_write s p' m' id row' :
  config p' = config (kv_pool s) → mconfig m' = mconfig (kv_mgr s) →
  req_to_blocks m' = <[id := row']> (req_to_blocks (kv_mgr s)) →
  (∀ id', id' ≠ id → num_cached_block m' !! id' = num_cached_block (kv_mgr s) !! id') →
  mgr_step s (mkKV p' m') id row'.
Proof.
  intros Hc Hm Hr Hn. split; simpl; try done.
  - unfold blocks_of. by rewrite Hr, lookup_insert_eq.
  - intros id' Hne. by rewrite Hr, lookup_insert_ne.
Qed.

Lemma set_rows_default_row id row m :
  set_req_to_blocks (<[id := row]> (req_to_blocks (default_row id m))) (default_row id m) =
  set_req_to_blocks (<[id := row]> (req_to_blocks m)) m.
Proof.
  unfold default_row. destruct (req_to_blocks m !! id); [done|]. destruct m. unfold set_req_to_blocks.
  simpl. by rewrite insert_insert_eq.
Qed.
End ManagerSteps.

Ltac wp_mgr :=
  repeat (wp_prim ||
    lazymatch goal with
    | |- wp (getm _) _ _ => apply wp_getm
    | |- wp (putm _) _ _ => apply wp_putm
    | |- wp (read_row _) _ _ => apply wp_read_row
    | |- wp (write_row _ _) _ _ => apply wp_write_row
    | |- wp (on_pool _) _ _ => apply wp_on_pool
    end); cbn [fst snd kv_pool kv_mgr id].

Section ManagerOperations.
Context {E : Env} (reserved : list ref) (ext : ref → Z).
Implicit Types (p : BlockPool) (m : Manager) (s : KV) (r : ref) (row bs free : list ref) (id : string).
Abbreviation inv := (mgr_inv reserved ext).

(** The blocks taken for a request: the front of the free queue, unshared and, when
    caching, unhashed; no other count or hash changes. *)
Definition taken (p p' : BlockPool) bs : Prop :=
  (∀ i, rc p' (Blk i) = rc p (Blk i) + occ (Blk i) bs) ∧
  (∀ i, bhash p' (Blk i) = (if enable_caching p then unhash (bhash p) bs else bhash p) (Blk i)).

Lemma taken_rc p p' bs r : taken p p' bs → valid p r → rc p' r = rc p r + occ r bs.
Proof. intros [Hrc _] Hv. destruct (valid_Blk _ _ Hv) as [i ->]. apply Hrc. Qed.

Lemma get_new_row s free id n row :
  inv s free → 0 ≤ n ≤ len free → row = blocks_of (kv_mgr s) id →
  wp (get_new_blocks n)
    (λ bs p', bs = take (Z.to_nat n) free ∧ config p' = config (kv_pool s) ∧ taken (kv_pool s) p' bs ∧
       pool_inv p' (drop (Z.to_nat n) free) reserved ∧ row_ok p' (row ++ bs)) (kv_pool s).
Proof.
  intros Hi Hn ->. pose proof (mi_pool _ _ _ _ Hi) as Hp. pose proof Hp as [Hwf _].
  eapply wp_mono; [by eapply get_new_blocks_ok|]. intros bs p' [-> Hs].
  pose proof (ps_config _ _ _ _ _ Hs) as Hcfg.
  split_and!; [done|done| | |].
  - split; [apply (ps_rc _ _ _ _ _ Hs)|apply (ps_hash _ _ _ _ _ Hs)].
  - eapply get_new_blocks_inv; [exact Hp|exact Hs|].
    intros r Hr. destruct (enable_caching (kv_pool s)); [|done]. unfold unhash. by case_decide.
  - eapply row_ok_config; [exact Hcfg|]. apply row_ok_app.
    + by eapply blocks_of_ok.
    + apply row_ok_NoDup.
      * eapply sublist_NoDup; [by eapply queue_rep_nodup, pw_queue|apply sublist_take].
      * intros r Hr. eapply pw_free; [done|]. by eapply elem_of_take_in.
    + intros r _ Hr Hbs. eapply free_not_in_rows; [exact Hi| |exact Hr]. by eapply elem_of_take_in.
Qed.

(** [allocate_new_blocks] of every class but Mamba's: the row grows to
    [ceil(num_tokens / block_size)] blocks. *)
Lemma base_allocate_new_blocks_ok s free id num_tokens :
  let m := kv_mgr s in
  let need := Z.max 0 (cdiv num_tokens (m_block_size m) - len (blocks_of m id)) in
  inv s free → need ≤ len free →
  wp (base_allocate_new_blocks id num_tokens)
    (λ bs s', bs = take (Z.to_nat need) free ∧ inv s' (drop (Z.to_nat need) free) ∧
       mgr_step s s' id (blocks_of m id ++ bs) ∧ taken (kv_pool s) (kv_pool s') bs ∧
       num_cached_block (kv_mgr s') = num_cached_block m) s.
Proof.
  intros m need Hi Hneed. unfold base_allocate_new_blocks. wp_mgr.
  destruct (default_row_other id m) as (Hcfg & Hcached & _ & Hnull & _).
  assert (m_block_size (default_row id (kv_mgr s)) = m_block_size m) as -> by by apply mconfig_eq.
  fold m. destruct (Z.leb_spec (cdiv num_tokens (m_block_size m) - len (blocks_of m id)) 0) as [Hle|Hgt].
  - wp_mgr. replace (Z.to_nat need) with 0%nat by lia. rewrite take_0, drop_0, app_nil_r.
    split_and!; [done|by apply default_row_inv| |split|done].
    + apply mgr_step_write; [done|done|apply default_row_rows|by rewrite Hcached].
    + intros i. rewrite occ_nil. lia.
    + intros i. destruct (enable_caching _); [|done]. unfold unhash.
      by rewrite decide_False by apply not_elem_of_nil.
  - assert (cdiv num_tokens (m_block_size m) - len (blocks_of m id) = need) as -> by (unfold need; lia).
    wp_mgr. eapply wp_mono; [eapply (get_new_row s free id); [done|lia|done]|].
    intros bs p' (-> & Hpc & Htaken & Hp & Hrow). wp_mgr.
    apply wp_track. intros ids. wp_mgr.
    rewrite set_rows_default_row. split_and!; [done| | |done|done].
    + eapply mgr_inv_write; [exact Hi|done|done|done|done| |done].
      intros r Hv. rewrite occ_app, (taken_rc _ _ _ _ Htaken Hv). fold m. lia.
    + by apply mgr_step_write.
Qed.

(** The blocks of a hit that lie inside the window, after [tokens] computed tokens. *)
Definition skipped_blocks m (tokens : Z) : Z := get_num_skipped_tokens m tokens / m_block_size m.
Definition kept_blocks m (tokens : Z) bs : list ref :=
  if 0 <? skipped_blocks m tokens then py_slice_from bs (skipped_blocks m tokens) else bs.
(** The row of a request after a hit: null blocks for what is skipped, then the rest. *)
Definition hit_row m (tokens : Z) bs : list ref :=
  py_repeat (Blk 0) (skipped_blocks m tokens) ++ kept_blocks m tokens bs.
(** The external tokens that still need a block. *)
Definition kept_external m (local external : Z) : Z :=
  if 0 <? skipped_blocks m (local + external)
  then Z.min (local + external - get_num_skipped_tokens m (local + external)) external else external.

Lemma kept_blocks_ok m p tokens bs : row_ok p bs → row_ok p (kept_blocks m tokens bs).
Proof.
  intros Hr. unfold kept_blocks. destruct (Z.ltb_spec 0 (skipped_blocks m tokens)); [|done].
  rewrite py_slice_from_nonneg by lia. by apply row_ok_drop.
Qed.

Lemma kept_blocks_in m tokens bs r : r ∈ kept_blocks m tokens bs → r ∈ bs.
Proof.
  unfold kept_blocks. destruct (Z.ltb_spec 0 (skipped_blocks m tokens)); [|done].
  rewrite py_slice_from_nonneg by lia. apply elem_of_drop_in.
Qed.

Lemma kept_blocks_nil m tokens : kept_blocks m tokens [] = [].
Proof.
  unfold kept_blocks. destruct (Z.ltb_spec 0 (skipped_blocks m tokens)); [|done].
  by rewrite py_slice_from_nonneg, drop_nil by lia.
Qed.

Lemma occ_nulls p r n : valid p r → occ r (py_repeat (Blk 0) n) = 0.
Proof.
  intros Hv. apply occ_not_elem. unfold py_repeat. intros [-> _]%elem_of_replicate.
  by apply valid_ne_null in Hv.
Qed.

(** The counts and hashes after the blocks [bs] of a hit have been touched. *)
Definition touched (p p' : BlockPool) bs : Prop :=
  (∀ i, rc p' (Blk i) = rc p (Blk i) + occ (Blk i) bs) ∧ (∀ i, bhash p' (Blk i) = bhash p (Blk i)).

(** A request that holds nothing yet receives the blocks of its hit. *)
Lemma adopt_hit_ok s free kept m' Q :
  let m := kv_mgr s in
  inv s free → row_ok (kv_pool s) kept → (∀ r, r ∈ kept → r ∉ reserved) →
  (m_enable_caching m = false → kept = []) →
  (∀ p', config p' = config (kv_pool s) → touched (kv_pool s) p' kept →
     pool_inv p' (without free kept) reserved → Q tt (mkKV p' m')) →
  wp (if m_enable_caching m then on_pool (touch kept) else assert (len kept =? 0)) Q
    (mkKV (kv_pool s) m').
Proof.
  intros m Hi Hnew Hres Hoff HQ. pose proof (mi_pool _ _ _ _ Hi) as Hp.
  destruct (m_enable_caching m).
  - wp_mgr. eapply wp_mono; [eapply touch_ok; [exact Hp|]|].
    + intros r Hr. destruct (Hnew r Hr) as [->|[Hv _]]; [by right|left].
      split; [done|by apply Hres].
    + intros [] p' [Hp' Hs]. apply HQ; [by eapply ps_config| |done].
      split; [apply (ps_rc _ _ _ _ _ Hs)|apply (ps_hash _ _ _ _ _ Hs)].
  - rewrite Hoff in HQ |- * by done. apply wp_assert; [done|].
    apply HQ; [done| |done]. split; [|done]. intros i. rewrite occ_nil. lia.
Qed.

(** The blocks for external tokens. *)
Lemma external_blocks_ok s free id (ext_tokens n : Z) row :
  inv s free → blocks_of (kv_mgr s) id = row → (0 <? ext_tokens = true → 0 ≤ n ≤ len free) →
  let need := if 0 <? ext_tokens then n else 0 in
  wp (if 0 <? ext_tokens then
        allocated_blocks ← on_pool (get_new_blocks n);
        _ ← write_row id (row ++ allocated_blocks);
        track_new_blocks allocated_blocks
      else mret tt)
    (λ _ s', inv s' (drop (Z.to_nat need) free) ∧
       mgr_step s s' id (row ++ take (Z.to_nat need) free) ∧
       num_cached_block (kv_mgr s') = num_cached_block (kv_mgr s) ∧
       taken (kv_pool s) (kv_pool s') (take (Z.to_nat need) free)) s.
Proof.
  intros Hi Hrow Hn need. unfold need. destruct (0 <? ext_tokens).
  - wp_mgr. eapply wp_mono; [eapply (get_new_row s free id n row); [done|by apply Hn|done]|].
    intros bs p' (-> & Hpc & Htaken & Hp & Hok). wp_mgr. apply wp_track. intros ids.
    cbn [kv_pool kv_mgr]. split_and!; [| |done|done].
    + eapply mgr_inv_write; [exact Hi|done|done|done|done| |done].
      intros r Hv. rewrite occ_app, (taken_rc _ _ _ _ Htaken Hv), Hrow. lia.
    + by apply mgr_step_write.
  - wp_mgr. rewrite take_0, drop_0, app_nil_r. split_and!; [done| |done|split].
    + by split.
    + intros i. rewrite occ_nil. lia.
    + intros i. destruct (enable_caching _); [|done]. unfold unhash.
      by rewrite decide_False by apply not_elem_of_nil.
Qed.

Lemma base_allocate_new_computed_blocks_ok s free id new local external :
  let m := kv_mgr s in
  let row1 := hit_row m (local + external) new in
  let kept := kept_blocks m (local + external) new in
  let need := if 0 <? kept_external m local external
              then cdiv (local + external) (m_block_size m) - len row1 else 0 in
  inv s free → num_cached_block m !! id = None → blocks_of m id = [] →
  row_ok (kv_pool s) new → (∀ r, r ∈ new → r ∉ reserved) →
  (m_enable_caching m = false → new = []) → 0 ≤ need ≤ len (without free kept) →
  wp (base_allocate_new_computed_blocks id new local external)
    (λ _ s', ∃ p1, inv s' (drop (Z.to_nat need) (without free kept)) ∧
       mgr_step s s' id (row1 ++ take (Z.to_nat need) (without free kept)) ∧
       num_cached_block (kv_mgr s') = <[id := len row1]> (num_cached_block m) ∧
       config p1 = config (kv_pool s) ∧ touched (kv_pool s) p1 kept ∧
       pool_inv p1 (without free kept) reserved ∧
       taken p1 (kv_pool s') (take (Z.to_nat need) (without free kept))) s.
Proof.
  intros m row1 kept need Hi Hnc Hrow Hnew Hres Hoff Hneed.
  unfold base_allocate_new_computed_blocks. wp_mgr. fold m.
  rewrite bool_decide_false by (rewrite Hnc; by intros [? ?]).
  wp_mgr. fold m. rewrite Hrow. apply wp_assert; [done|].
  fold (skipped_blocks m (local + external)).
  assert ((if 0 <? skipped_blocks m (local + external)
           then (py_slice_from new (skipped_blocks m (local + external)),
                 Z.min (local + external - get_num_skipped_tokens m (local + external)) external)
           else (new, external)) = (kept, kept_external m local external)) as ->.
  { unfold kept, kept_blocks, kept_external. by destruct (0 <? skipped_blocks m (local + external)). }
  wp_prim. apply (adopt_hit_ok s free kept).
  { done. } { by apply kept_blocks_ok. } { intros r Hr%kept_blocks_in. by apply Hres. }
  { intros Hc. unfold kept. rewrite (Hoff Hc). apply kept_blocks_nil. }
  intros p1 Hcfg Ht Hp1. wp_mgr.
  rewrite set_rows_default_row. pose proof (mi_null _ _ _ _ Hi) as Hnb. fold m in Hnb.
  rewrite Hnb. fold (hit_row m (local + external) new). fold row1.
  set (s1 := mkKV p1 _).
  assert (inv s1 (without free kept)) as Hi1.
  { eapply mgr_inv_write; [exact Hi|done|exact Hp1|done|done| |].
    - intros r Hv. fold m. rewrite Hrow, occ_nil. unfold row1, hit_row.
      rewrite occ_app, (occ_nulls _ _ _ Hv). destruct (valid_Blk _ _ Hv) as [i ->].
      destruct Ht as [-> _]. fold kept. lia.
    - eapply row_ok_config; [exact Hcfg|]. apply row_ok_nulls. by apply kept_blocks_ok. }
  assert (mgr_step s s1 id row1) as Hst1.
  { apply mgr_step_write; [done|done|done|]. intros id' Hne. simpl. by rewrite lookup_insert_ne. }
  eapply wp_mono; [eapply (external_blocks_ok s1 _ id (kept_external m local external) _ row1 Hi1)|].
  - by eapply ms_row.
  - intros Hpos. unfold need in Hneed. by rewrite Hpos in Hneed.
  - intros [] s' (Hi' & Hst & Hnc' & Htk). exists p1. split_and!; try done.
    by eapply mgr_step_trans.
Qed.

(** The pool after the references of [bs] have been given back. *)
Definition released (p p' : BlockPool) bs : Prop :=
  (∀ i, rc p' (Blk i) = rc p (Blk i) - occ (Blk i) bs) ∧ (∀ i, bhash p' (Blk i) = bhash p (Blk i)).

(** [free_blocks] on blocks of a request's row. *)
Lemma release_ok s free id bs :
  inv s free →
  (∀ r, r ∈ bs → r = Blk 0 ∨ (r ∈ blocks_of (kv_mgr s) id ∧ valid (kv_pool s) r ∧ occ r bs = 1)) →
  wp (free_blocks bs)
    (λ _ p', config p' = config (kv_pool s) ∧ released (kv_pool s) p' bs ∧
       pool_inv p' (free ++ last_refs (kv_pool s) bs) reserved) (kv_pool s).
Proof.
  intros Hi Hbs. eapply wp_mono; [eapply free_blocks_ok; [by eapply mi_pool|]|].
  - intros r Hr. destruct (Hbs r Hr) as [->|(Hin & Hv & Ho)]; [by right|left].
    split_and!; [done| |done]. by eapply row_ref_counted.
  - intros [] p' [Hp Hs]. split_and!; [by eapply ps_config| |done].
    split; [apply (ps_rc _ _ _ _ _ Hs)|apply (ps_hash _ _ _ _ _ Hs)].
Qed.

Lemma released_rc p p' bs r : released p p' bs → valid p r → rc p' r = rc p r - occ r bs.
Proof. intros [Hrc _] Hv. destruct (valid_Blk _ _ Hv) as [i ->]. apply Hrc. Qed.

(** [free] of every class: the request's references are given back, last block first. *)
Lemma free_ok s free0 id :
  inv s free0 →
  wp (free id)
    (λ _ s', inv s' (free0 ++ last_refs (kv_pool s) (reverse (blocks_of (kv_mgr s) id))) ∧
       mgr_step s s' id [] ∧ req_to_blocks (kv_mgr s') !! id = None ∧
       num_cached_block (kv_mgr s') !! id = None ∧
       released (kv_pool s) (kv_pool s') (reverse (blocks_of (kv_mgr s) id))) s.
Proof.
  intros Hi. unfold free. wp_mgr.
  set (m1 := if is_align (kv_mgr s) then set_last_state_block_idx
        (delete id (last_state_block_idx (kv_mgr s)))
        (set_allocated_block_reqs (_allocated_block_reqs (kv_mgr s) ∖ {[id]}) (kv_mgr s)) else kv_mgr s).
  apply wp_mono with (λ _ s', s' = mkKV (kv_pool s) m1).
  { unfold m1. destruct (is_align (kv_mgr s)); wp_mgr; [done|by destruct s]. }
  intros [] s1 ->. assert (req_to_blocks m1 = req_to_blocks (kv_mgr s) ∧ mconfig m1 = mconfig (kv_mgr s) ∧
    num_cached_block m1 = num_cached_block (kv_mgr s) ∧ _null_block m1 = _null_block (kv_mgr s))
    as (Hrows & Hcfg & Hnc & Hnull) by (unfold m1; by destruct (is_align (kv_mgr s))).
  unfold base_free. wp_mgr.
  assert (blocks_of m1 id = blocks_of (kv_mgr s) id) as -> by (unfold blocks_of; by rewrite Hrows).
  eapply wp_mono; [eapply release_ok; [exact Hi|]|].
  { intros r Hr. apply (row_ok_reverse _ _ (blocks_of_ok _ _ _ _ id Hi)) in Hr as Hok.
    rewrite elem_of_reverse in Hr. destruct Hok as [?|[? ?]]; [by left|by right]. }
  intros [] p' (Hpc & Hrel & Hp). wp_mgr. split_and!; [| |apply lookup_delete_eq..|done].
  - eapply mgr_inv_delete; [exact Hi|done|done|by rewrite Hrows|done|].
    intros r Hv. by rewrite (released_rc _ _ _ _ Hrel Hv), occ_reverse.
  - split; simpl; [done|done| |intros id' Hne..].
    + unfold blocks_of. simpl. by rewrite lookup_delete_eq.
    + by rewrite lookup_delete_ne, Hrows.
    + by rewrite lookup_delete_ne, Hnc.
Qed.

(** The loop of [remove_skipped_blocks] moves blocks from the row to the removed ones. *)
Lemma skip_loop_ok n : ∀ row removed,
  ∃ row' rem, skip_loop (Blk 0) n row removed = (row', removed ++ rem) ∧
    length row' = length row ∧ Blk 0 ∉ rem ∧
    (∀ r, r ≠ Blk 0 → occ r row' + occ r rem = occ r row) ∧
    (∀ i, (n ≤ i)%nat → row' !! i = row !! i) ∧
    (∀ i r, row' !! i = Some r → r = Blk 0 ∨ row !! i = Some r).
Proof.
  induction n as [|n IH]; intros row removed; simpl.
  { exists row, []. rewrite app_nil_r. split_and!; [done|done|apply not_elem_of_nil| |done|auto].
    intros r _. rewrite occ_nil. lia. }
  assert (∃ row' rem, (row, removed) = (row', removed ++ rem) ∧
    length row' = length row ∧ Blk 0 ∉ rem ∧
    (∀ r, r ≠ Blk 0 → occ r row' + occ r rem = occ r row) ∧
    (∀ i, (S n ≤ i)%nat → row' !! i = row !! i) ∧
    (∀ i r, row' !! i = Some r → r = Blk 0 ∨ row !! i = Some r)) as Hstop.
  { exists row, []. rewrite app_nil_r. split_and!; [done|done|apply not_elem_of_nil| |done|auto].
    intros r _. rewrite occ_nil. lia. }
  destruct (row !! n) as [b|] eqn:Hn; [|done]. case_decide as Hb; [done|].
  destruct (IH (<[n := Blk 0]> row) (removed ++ [b])) as (row' & rem & -> & Hl & Hnull & Hocc & Hi & Hpos).
  exists row', (b :: rem). rewrite <- app_assoc. split_and!; [done| | | | |].
  - by rewrite Hl, length_insert.
  - apply not_elem_of_cons. by split.
  - intros r Hr. rewrite occ_cons. specialize (Hocc r Hr).
    rewrite (insert_take_drop row n (Blk 0)) in Hocc by by eapply lookup_lt_Some.
    rewrite <- (take_drop_middle row n b Hn) at 1. autorewrite with occ in *.
    rewrite (decide_False (P := r = Blk 0)) in Hocc by done. lia.
  - intros i Hni. rewrite Hi by lia. by rewrite list_lookup_insert_ne by lia.
  - intros i r Hr. destruct (Hpos i r Hr) as [?|Hr']; [by left|].
    apply list_lookup_insert_Some in Hr' as [(_ & <- & _)|[_ ?]]; auto.
Qed.

(** [remove_skipped_blocks] of every class but Mamba's gives back blocks outside the
    window and puts the null block in their place. *)
Lemma base_remove_skipped_blocks_ok s free0 id tokens :
  inv s free0 →
  wp (base_remove_skipped_blocks id tokens)
    (λ _ s', ∃ row' rem, inv s' (free0 ++ last_refs (kv_pool s) rem) ∧ mgr_step s s' id row' ∧
       length row' = length (blocks_of (kv_mgr s) id) ∧
       num_cached_block (kv_mgr s') = num_cached_block (kv_mgr s) ∧
       released (kv_pool s) (kv_pool s') rem ∧
       (∀ r, r ≠ Blk 0 → occ r row' + occ r rem = occ r (blocks_of (kv_mgr s) id)) ∧
       (∀ i, skipped_blocks (kv_mgr s) tokens ≤ Z.of_nat i →
             row' !! i = blocks_of (kv_mgr s) id !! i) ∧
       (∀ i r, row' !! i = Some r → r = Blk 0 ∨ blocks_of (kv_mgr s) id !! i = Some r)) s.
Proof.
  intros Hi. set (m := kv_mgr s). set (row := blocks_of m id).
  unfold base_remove_skipped_blocks. wp_mgr. fold m.
  destruct (Z.leb_spec (get_num_skipped_tokens m tokens) 0) as [Hle|Hgt].
  { wp_mgr. exists row, []. rewrite app_nil_r. split_and!; try done.
    - split; [|done]. intros i. rewrite occ_nil. lia.
    - intros r _. rewrite occ_nil. lia.
    - auto. }
  wp_mgr. fold m row. pose proof (mi_null _ _ _ _ Hi) as Hnb. fold m in Hnb. rewrite Hnb.
  set (n := Z.min _ _). destruct (skip_loop_ok (Z.to_nat n) row [])
    as (row' & rem & -> & Hl & Hnull & Hocc & Hsame & Hat). cbn [app]. wp_mgr.
  rewrite set_rows_default_row. fold m.
  pose proof (blocks_of_ok _ _ _ _ id Hi) as Hok. fold m row in Hok.
  assert (Hrem : ∀ r, r ∈ rem → r ∈ row ∧ valid (kv_pool s) r ∧ occ r rem = 1).
  { intros r Hr. assert (r ≠ Blk 0) as Hne by (by intros ->). specialize (Hocc r Hne).
    apply occ_elem in Hr as Hpos. pose proof (occ_nonneg r row').
    assert (r ∈ row) as Hin by (apply occ_elem; lia).
    destruct (Hok r Hin) as [?|[Hv Ho]]; [done|]. split_and!; [done|done|lia]. }
  eapply wp_mono; [eapply (release_ok s free0 id); [done|]|].
  { intros r Hr. right. by apply Hrem. }
  intros [] p' (Hpc & Hrel & Hp). exists row', rem. split_and!; try done.
  - eapply mgr_inv_write; [exact Hi|done|done|done|done| |].
    + intros r Hv. rewrite (released_rc _ _ _ _ Hrel Hv). fold m row.
      pose proof (Hocc r (valid_ne_null _ _ Hv)). lia.
    + eapply row_ok_config; [exact Hpc|]. intros r Hr.
      destruct (decide (r = Blk 0)) as [|Hne]; [by left|right]. specialize (Hocc r Hne).
      apply occ_elem in Hr as Hpos. pose proof (occ_nonneg r rem).
      assert (r ∈ row) as Hin by (apply occ_elem; lia).
      destruct (Hok r Hin) as [?|[Hv Ho]]; [done|]. split; [done|lia].
  - by apply mgr_step_write.
  - intros i Hsk. apply Hsame. unfold n, skipped_blocks in *. fold m in Hsk. lia.
Qed.

(** [cache_blocks] of every class but Mamba's and cross attention. *)
Lemma base_cache_blocks_ok s free0 request num_tokens :
  let m := kv_mgr s in
  let id := request_id request in
  let nc := num_cached m id in
  let nf := num_tokens / m_block_size m in
  let hs := hash_view (hash_block_size (kv_pool s)) (m_block_size m) (block_hashes request) in
  inv s free0 → 0 ≤ nc → m_block_size m mod hash_block_size (kv_pool s) = 0 →
  (nc < nf → nf ≤ len (blocks_of m id) ∧ nf ≤ len (block_hashes request) ∧ nf ≤ len hs ∧
     ∀ r, r ∈ py_slice (blocks_of m id) nc nf →
       cachable (kv_pool s) (py_slice (blocks_of m id) nc nf) r) →
  wp (base_cache_blocks request num_tokens)
    (λ _ s', inv s' free0 ∧ mgr_step s s' id (blocks_of m id) ∧
       num_cached (kv_mgr s') id = Z.max nc nf ∧
       (∀ i, rc (kv_pool s') (Blk i) = rc (kv_pool s) (Blk i)) ∧
       (∀ i, bhash (kv_pool s') (Blk i) =
          (if nf <=? nc then bhash (kv_pool s)
           else assign (kv_cache_group_id m) (py_slice (blocks_of m id) nc nf) (drop (Z.to_nat nc) hs)
                  (bhash (kv_pool s))) (Blk i))) s.
Proof.
  intros m id nc nf hs Hi Hnc Hmod Hpre. unfold base_cache_blocks. wp_mgr. fold m. fold id nc nf.
  destruct (Z.leb_spec nf nc) as [Hle|Hgt].
  { wp_mgr. split_and!; [done|by split|fold m; unfold nc in *; lia|done|done]. }
  destruct (Hpre Hgt) as (Hlen & Hhs & Hview & Hcach). wp_mgr. fold m.
  pose proof (mi_pool _ _ _ _ Hi) as Hp.
  eapply wp_mono; [eapply cache_full_blocks_ok; [apply Hp|done..]|].
  intros [] p' Hs. rewrite (proj2 (Z.leb_gt nf nc)) in Hs by done. wp_mgr.
  pose proof (ps_config _ _ _ _ _ Hs) as Hpc.
  assert (pool_inv p' free0 reserved) as Hp'.
  { split; [by eapply ps_wf|]. destruct Hp as [Hwf Href]. eapply refs_ok_step; [done|exact Hs|..].
    - intros r Hv. split; [by eapply ro_nonneg|by eapply ro_zero].
    - intros r Hr. by eapply ro_disj.
    - intros r Hr. rewrite assign_out; [by eapply ro_reserved|]. intros Hin.
      destruct (ro_reserved _ _ _ Href r Hr) as [Hv _]. pose proof (valid_ne_null _ _ Hv).
      assert (r ∈ blocks_of m id) as Hrow.
      { unfold py_slice in Hin. by eapply elem_of_drop_in, elem_of_take_in. }
      pose proof (row_ref_counted _ _ _ _ _ _ Hi Hv Hrow).
      assert (rc (kv_pool s) r = 0) by (apply (ro_zero _ _ _ Href); auto). lia. }
  split_and!.
  - eapply mgr_inv_write; [exact Hi|done|done|apply default_row_rows| | |].
    + simpl. by apply default_row_other.
    + intros r Hv. destruct (valid_Blk _ _ Hv) as [i ->]. rewrite (ps_rc _ _ _ _ _ Hs). lia.
    + eapply row_ok_config; [done|]. by eapply blocks_of_ok.
  - apply mgr_step_write; [done| |apply default_row_rows|].
    + by apply default_row_other.
    + intros id' Hne. simpl. rewrite lookup_insert_ne by done. by rewrite (proj1 (proj2 (default_row_other id m))).
  - unfold num_cached. simpl. rewrite lookup_insert_eq. simpl. lia.
  - apply (ps_rc _ _ _ _ _ Hs).
  - apply (ps_hash _ _ _ _ _ Hs).
Qed.
End ManagerOperations.
