(* ===== verification/Accounting.v ===== *)
(** * Block accounting of a request in one group

    What the operations of vllm/v1/core/single_type_kv_cache_manager.py promise the
    coordinator, for every class but Mamba's and cross attention: how many blocks they
    take, that the blocks of a request that are not cached yet stay private and
    unhashed, and that they disturb no other request. *)

From S2P Require Import Prelude FreeQueue Request BlockHash BlockPool KVSpec CacheHit SingleType.

#[local] Set Default Proof Using "Type*".

(** ** Private blocks *)

Section Private.
Implicit Types (p : BlockPool) (r : ref) (row bs free : list ref).

(** The blocks from index [nc] on belong to this row alone and have no hash. *)
Definition row_tail_ok p row (nc : Z) : Prop :=
  ∀ i r, row !! i = Some r → nc ≤ Z.of_nat i → valid p r → rc p r = 1 ∧ bhash p r = None.

(** Private blocks of other rows than [row] stay private. *)
Definition pool_frame p p' row : Prop :=
  ∀ r, valid p r → rc p r = 1 → bhash p r = None → r ∉ row → rc p' r = 1 ∧ bhash p' r = None.

(** Without prefix caching no block has a hash. *)
Definition nohash p : Prop := enable_caching p = false → ∀ r, valid p r → bhash p r = None.

Lemma nohash_step p p' :
  config p' = config p → (∀ r, valid p r → bhash p r = None → bhash p' r = None) → nohash p → nohash p'.
Proof.
  intros Hcfg Hh Hn He r Hv. apply (config_valid _ _ _ Hcfg) in Hv. apply Hh; [done|].
  apply Hn; [|done]. unfold config in Hcfg. congruence.
Qed.

Lemma pool_frame_refl p row : pool_frame p p row.
Proof. by intros r. Qed.

Lemma pool_frame_trans p1 p2 p3 row1 row2 :
  config p2 = config p1 → pool_frame p1 p2 row1 → pool_frame p2 p3 row2 →
  (∀ r, valid p1 r → rc p1 r = 1 → bhash p1 r = None → r ∈ row2 → r ∈ row1) → pool_frame p1 p3 row1.
Proof.
  intros Hcfg H12 H23 Hsub r Hv Hrc Hh Hr. destruct (H12 r) as [Hrc2 Hh2]; try done.
  apply H23; [by rewrite config_valid|done|done|]. intros Hin. by apply Hr, Hsub.
Qed.

(** The effects of the operations of the pool on private blocks. *)
Section Taken.
Context p p' free reserved n
  (Hp : pool_inv p free reserved) (Hn : nohash p) (Hcfg : config p' = config p)
  (Ht : taken p p' (take n free)).

Lemma taken_not_private r : valid p r → rc p r = 1 → r ∉ take n free.
Proof using Hp.
  intros Hv Hrc Hr%elem_of_take_in. destruct Hp as [_ Href].
  assert (rc p r = 0) by (apply (ro_zero _ _ _ Href); auto). lia.
Qed.

Lemma taken_hash r : valid p r → bhash p r = None ∨ r ∈ take n free → bhash p' r = None.
Proof using Hn Hcfg Ht.
  intros Hv Hor. destruct (valid_Blk _ _ Hv) as [i ->]. destruct Ht as [_ ->].
  destruct (enable_caching p) eqn:He; [|by apply Hn].
  unfold unhash. case_decide; [done|]. by destruct Hor.
Qed.

Lemma taken_nohash : nohash p'.
Proof. eapply nohash_step; [done| |done]. intros r Hv Hh. apply taken_hash; auto. Qed.

Lemma taken_frame row : pool_frame p p' row.
Proof.
  intros r Hv Hrc Hh _. rewrite (taken_rc _ _ _ _ Ht Hv).
  rewrite (proj1 (occ_not_elem _ _) (taken_not_private r Hv Hrc)). split; [lia|].
  apply taken_hash; auto.
Qed.

Lemma taken_fresh r : r ∈ take n free → rc p' r = 1 ∧ bhash p' r = None.
Proof.
  intros Hr. destruct Hp as [Hwf Href]. pose proof (elem_of_take_in _ _ _ Hr) as Hf.
  pose proof (pw_free _ _ Hwf r Hf) as Hv. rewrite (taken_rc _ _ _ _ Ht Hv).
  assert (rc p r = 0) as -> by (apply (ro_zero _ _ _ Href); auto).
  rewrite occ_nodup; [split; [done|apply taken_hash; auto]| |done].
  eapply sublist_NoDup; [by eapply queue_rep_nodup, pw_queue|apply sublist_take].
Qed.

Lemma taken_tail row nc : row_tail_ok p row nc → row_tail_ok p' (row ++ take n free) nc.
Proof.
  intros Hrow i r Hi Hnc Hv. rewrite config_valid in Hv by done.
  apply lookup_app_Some in Hi as [Hi|[_ Hi]].
  - destruct (Hrow i r Hi Hnc Hv) as [Hrc Hh]. by apply (taken_frame []); [..|apply not_elem_of_nil].
  - apply taken_fresh. by eapply list_elem_of_lookup_2.
Qed.
End Taken.

Lemma touched_frame p p' kept row :
  touched p p' kept → (∀ r, r ∈ kept → valid p r → bhash p r ≠ None) → pool_frame p p' row.
Proof.
  intros [Hrc Hh] Hk r Hv Hr Hb _. destruct (valid_Blk _ _ Hv) as [i ->]. rewrite Hrc, Hh, Hb.
  rewrite (proj1 (occ_not_elem (Blk i) kept)); [split; [lia|done]|].
  intros Hin. by apply (Hk _ Hin Hv).
Qed.

Lemma touched_nohash p p' kept : config p' = config p → touched p p' kept → nohash p → nohash p'.
Proof.
  intros Hcfg [_ Hh]. apply nohash_step; [done|]. intros r Hv Hb.
  destruct (valid_Blk _ _ Hv) as [i ->]. by rewrite Hh.
Qed.

Lemma released_frame p p' rem row :
  released p p' rem → (∀ r, valid p r → r ∈ rem → r ∈ row) → pool_frame p p' row.
Proof.
  intros Hrel Hsub r Hv Hr Hb Hrow. rewrite (released_rc _ _ _ _ Hrel Hv).
  destruct (valid_Blk _ _ Hv) as [i ->]. destruct Hrel as [_ Hh]. rewrite Hh, Hb.
  rewrite (proj1 (occ_not_elem (Blk i) rem)); [split; [lia|done]|]. intros Hin. by apply Hrow, Hsub.
Qed.

Lemma released_nohash p p' rem : config p' = config p → released p p' rem → nohash p → nohash p'.
Proof.
  intros Hcfg [_ Hh]. apply nohash_step; [done|]. intros r Hv Hb.
  destruct (valid_Blk _ _ Hv) as [i ->]. by rewrite Hh.
Qed.
End Private.

(** ** The contract of an operation on one group *)

(** The classes covered: the cache of a token is one slot of a block, and the
    skipped tokens are a prefix of the computed ones. *)
Definition standard_spec (s : KVCacheSpec) : bool :=
  match s with
  | SlidingWindowSpec _ w _ | SlidingWindowMLASpec _ w _ => 0 <? w
  | ChunkedLocalAttentionSpec _ c => 0 <? c
  | MambaSpec _ | CrossAttentionSpec _ => false
  | _ => true
  end.

Section Group.
Context {E : Env}.
Implicit Types (p : BlockPool) (m : Manager) (s : KV) (r : ref) (row bs free : list ref) (id : string).

(** The configuration of the manager of group [g]. *)
Record mgr_static p (g : Z) m : Prop := {
  mt_spec : standard_spec (m_kv_cache_spec m) = true;
  mt_bs : 0 < m_block_size m;
  mt_caching : m_enable_caching m = enable_caching p;
  mt_hash : 0 < hash_block_size p ∧ m_block_size m mod hash_block_size p = 0;
  mt_group : kv_cache_group_id m = g
}.

Record group_pre (g : Z) s id : Prop := {
  gr_static : mgr_static (kv_pool s) g (kv_mgr s);
  gr_nohash : nohash (kv_pool s);
  gr_cached : 0 ≤ num_cached (kv_mgr s) id;
  gr_tail : row_tail_ok (kv_pool s) (blocks_of (kv_mgr s) id) (num_cached (kv_mgr s) id)
}.

Record group_post s s' id row' : Prop := {
  gp_step : mgr_step s s' id row';
  gp_nohash : nohash (kv_pool s');
  gp_frame : pool_frame (kv_pool s) (kv_pool s') (blocks_of (kv_mgr s) id);
  gp_cached : 0 ≤ num_cached (kv_mgr s') id;
  gp_tail : row_tail_ok (kv_pool s') row' (num_cached (kv_mgr s') id)
}.

(** Skipped tokens are computed tokens. *)
Lemma skipped_tokens_le m n :
  standard_spec (m_kv_cache_spec m) = true → 0 ≤ n → 0 ≤ get_num_skipped_tokens m n ≤ n.
Proof.
  unfold get_num_skipped_tokens. destruct (m_kv_cache_spec m); simpl; intros Hs Hn; try done; try lia;
    apply Z.ltb_lt in Hs; try lia.
  split; [apply Z.mul_nonneg_nonneg; [by apply Z.div_pos|lia]|].
  rewrite Z.mul_comm. by apply Z.mul_div_le.
Qed.

Lemma skipped_blocks_bound m n :
  standard_spec (m_kv_cache_spec m) = true → 0 < m_block_size m → 0 ≤ n →
  0 ≤ skipped_blocks m n ∧ skipped_blocks m n * m_block_size m ≤ n.
Proof.
  intros Hs Hb Hn. destruct (skipped_tokens_le m n Hs Hn) as [H0 Hle]. unfold skipped_blocks.
  split; [by apply Z.div_pos|]. pose proof (Z.mul_div_le (get_num_skipped_tokens m n) _ Hb). lia.
Qed.

Section Ops.
Context (reserved : list ref) (ext : ref → Z) (g : Z).
Abbreviation inv := (mgr_inv reserved ext).

Lemma group_allocate s free id num_tokens :
  let m := kv_mgr s in
  let need := Z.max 0 (cdiv num_tokens (m_block_size m) - len (blocks_of m id)) in
  inv s free → group_pre g s id → need ≤ len free →
  wp (base_allocate_new_blocks id num_tokens)
    (λ bs s', bs = take (Z.to_nat need) free ∧ inv s' (drop (Z.to_nat need) free) ∧
       group_post s s' id (blocks_of m id ++ bs) ∧
       num_cached_block (kv_mgr s') = num_cached_block m) s.
Proof.
  intros m need Hi Hpre Hneed. eapply wp_mono; [by eapply base_allocate_new_blocks_ok|].
  intros ? s' (-> & Hi' & Hst & Ht & Hnc).
  pose proof (ms_config _ _ _ _ Hst) as Hcfg. destruct Hpre as [_ Hno Hc0 Htail].
  pose proof (mi_pool _ _ _ _ Hi) as Hp.
  assert (num_cached (kv_mgr s') id = num_cached m id) as Hn by (unfold num_cached; by rewrite Hnc).
  split_and!; [done|done| |done]. split; rewrite ?Hn; try done.
  - by eapply taken_nohash.
  - by eapply taken_frame.
  - by eapply taken_tail.
Qed.

Lemma group_adopt s free id new local external :
  let m := kv_mgr s in
  let row1 := hit_row m (local + external) new in
  let kept := kept_blocks m (local + external) new in
  let need := if 0 <? kept_external m local external
              then cdiv (local + external) (m_block_size m) - len row1 else 0 in
  inv s free → group_pre g s id → num_cached_block m !! id = None → blocks_of m id = [] →
  row_ok (kv_pool s) new → (∀ r, r ∈ new → valid (kv_pool s) r → bhash (kv_pool s) r ≠ None) →
  (m_enable_caching m = false → new = []) → 0 ≤ need ≤ len (without free kept) →
  wp (base_allocate_new_computed_blocks id new local external)
    (λ _ s', ∃ p1, inv s' (drop (Z.to_nat need) (without free kept)) ∧
       group_post s s' id (row1 ++ take (Z.to_nat need) (without free kept)) ∧
       num_cached (kv_mgr s') id = len row1 ∧
       config p1 = config (kv_pool s) ∧ touched (kv_pool s) p1 kept ∧
       taken p1 (kv_pool s') (take (Z.to_nat need) (without free kept))) s.
Proof.
  intros m row1 kept need Hi Hpre Hnc Hrow Hnew Hhash Hoff Hneed.
  pose proof (mi_pool _ _ _ _ Hi) as [Hwf Href].
  eapply wp_mono; [eapply base_allocate_new_computed_blocks_ok; try done|].
  { intros r Hr Hres. destruct (ro_reserved _ _ _ Href r Hres) as [Hv Hb]. by apply (Hhash r). }
  intros [] s' (p1 & Hi' & Hst & Hnc' & Hc1 & Hto & Hp1 & Htk). exists p1. destruct Hpre as [_ Hno Hc0 Htail].
  assert (num_cached (kv_mgr s') id = len row1) as Hn.
  { unfold num_cached. by rewrite Hnc', lookup_insert_eq. }
  assert (Hk : ∀ r, r ∈ kept → valid (kv_pool s) r → bhash (kv_pool s) r ≠ None).
  { intros r Hr. by eapply Hhash, kept_blocks_in. }
  pose proof (ms_config _ _ _ _ Hst) as Hcfg. rewrite <- Hc1 in Hcfg.
  split_and!; try done. split; rewrite ?Hn; try done.
  - eapply (taken_nohash p1); [done|by eapply touched_nohash|done..].
  - eapply pool_frame_trans; [done|by eapply touched_frame|eapply (taken_frame p1); [done|by eapply touched_nohash|done..]|].
    instantiate (1 := []). by intros r _ _ _ ?%not_elem_of_nil.
  - apply len_nonneg.
  - eapply (taken_tail p1); [done|by eapply touched_nohash|done|done|].
    intros i r Hi1 Hle. apply lookup_lt_Some in Hi1. unfold len in Hle. lia.
Qed.
Lemma group_remove_skipped s free id tokens :
  inv s free → group_pre g s id →
  wp (base_remove_skipped_blocks id tokens)
    (λ _ s', ∃ row' rem, inv s' (free ++ rem) ∧ group_post s s' id row' ∧
       length row' = length (blocks_of (kv_mgr s) id) ∧
       num_cached_block (kv_mgr s') = num_cached_block (kv_mgr s) ∧
       (∀ i, bhash (kv_pool s') (Blk i) = bhash (kv_pool s) (Blk i)) ∧
       (∀ i, skipped_blocks (kv_mgr s) tokens ≤ Z.of_nat i →
             row' !! i = blocks_of (kv_mgr s) id !! i) ∧
       (∀ i r, row' !! i = Some r → r = Blk 0 ∨ blocks_of (kv_mgr s) id !! i = Some r)) s.
Proof.
  intros Hi [_ Hno Hc0 Htail]. eapply wp_mono; [by eapply base_remove_skipped_blocks_ok|].
  intros [] s' (row' & rem & Hi' & Hst & Hlen & Hnc & Hrel & Hocc & Hsame & Hat).
  exists row', (last_refs (kv_pool s) rem).
  assert (num_cached (kv_mgr s') id = num_cached (kv_mgr s) id) as Hn by (unfold num_cached; by rewrite Hnc).
  pose proof (ms_config _ _ _ _ Hst) as Hcfg.
  assert (Hrem : ∀ r, valid (kv_pool s) r → r ∈ rem → r ∈ blocks_of (kv_mgr s) id).
  { intros r Hv Hr. apply occ_elem. pose proof (Hocc r (valid_ne_null _ _ Hv)).
    apply occ_elem in Hr. pose proof (occ_nonneg r row'). lia. }
  split_and!; try done; [|by apply Hrel]. split; rewrite ?Hn; try done.
  - by eapply released_nohash.
  - by eapply released_frame.
  - intros i r Hr Hle Hv. rewrite config_valid in Hv by done.
    destruct (Hat i r Hr) as [->|Hold]; [by apply valid_ne_null in Hv|].
    destruct (Htail i r Hold Hle Hv) as [Hrc Hh]. rewrite (released_rc _ _ _ _ Hrel Hv).
    pose proof (Hocc r (valid_ne_null _ _ Hv)) as Hsum.
    destruct (blocks_of_ok _ _ _ _ id Hi r) as [->|[_ Ho]];
      [by eapply list_elem_of_lookup_2|by apply valid_ne_null in Hv|].
    assert (0 < occ r row') by (apply occ_elem; by eapply list_elem_of_lookup_2).
    pose proof (occ_nonneg r rem). destruct (valid_Blk _ _ Hv) as [j ->].
    destruct Hrel as [_ ->]. split; [lia|done].
Qed.

Lemma group_free s free0 id :
  inv s free0 → group_pre g s id →
  wp (free id)
    (λ _ s', inv s' (free0 ++ last_refs (kv_pool s) (reverse (blocks_of (kv_mgr s) id))) ∧
       group_post s s' id [] ∧ req_to_blocks (kv_mgr s') !! id = None ∧
       num_cached_block (kv_mgr s') !! id = None) s.
Proof.
  intros Hi [_ Hno _ _]. eapply wp_mono; [by eapply free_ok|].
  intros [] s' (Hi' & Hst & Hr & Hnc & Hrel). pose proof (ms_config _ _ _ _ Hst) as Hcfg.
  split_and!; try done. split; [done|by eapply released_nohash| | |done].
  - eapply released_frame; [done|]. intros r _. by rewrite elem_of_reverse.
  - unfold num_cached. by rewrite Hnc.
Qed.

(** The number of full blocks of the first [num_tokens] tokens has as many hashes. *)
Lemma full_blocks_hashed (hbs bs : Z) (hs : list bytes) n :
  0 < hbs → 0 < bs → bs mod hbs = 0 → 0 ≤ n → n / hbs ≤ len hs →
  n / bs ≤ len hs ∧ n / bs ≤ len (hash_view hbs bs hs).
Proof.
  intros Hh Hb Hmod Hn Hlen. apply Z.mod_divide in Hmod as [k Hk]; [|lia].
  assert (0 < k) by nia. assert (n / bs = n / hbs / k) as Hd.
  { rewrite Z.div_div by lia. f_equal. lia. }
  assert (0 ≤ n / hbs) by by apply Z.div_pos.
  assert (n / bs ≤ len hs / k) as Hle by (rewrite Hd; apply Z.div_le_mono; lia).
  split; [pose proof (Z.div_le_upper_bound (n / hbs) k (n / hbs)); nia|].
  unfold hash_view. destruct (Z.eqb_spec bs hbs) as [->|Hne].
  { replace k with 1 in Hle by nia. by rewrite Z.div_1_r in Hle. }
  unfold scaled_iter, scaled_len. cbn [scaled_block_hashes scale_factor]. unfold len at 1.
  rewrite length_fmap, length_py_range. replace (bs / hbs) with k; [lia|]. rewrite Hk. by rewrite Z.div_mul by lia.
Qed.

Lemma group_cache s free0 request num_tokens :
  let m := kv_mgr s in
  let id := request_id request in
  let nc := num_cached m id in
  let nf := num_tokens / m_block_size m in
  inv s free0 → group_pre g s id → enable_caching (kv_pool s) = true → 0 ≤ num_tokens →
  num_tokens / hash_block_size (kv_pool s) ≤ len (block_hashes request) →
  nf ≤ len (blocks_of m id) →
  wp (base_cache_blocks request num_tokens)
    (λ _ s', inv s' free0 ∧ group_post s s' id (blocks_of m id) ∧
       num_cached (kv_mgr s') id = Z.max nc nf) s.
Proof.
  intros m id nc nf Hi [[_ Hb _ [Hh Hmod] _] Hno Hc0 Htail] He Hn Hhs Hlen.
  destruct (full_blocks_hashed _ _ (block_hashes request) num_tokens Hh Hb Hmod Hn Hhs) as [Hf1 Hf2].
  pose proof (blocks_of_ok _ _ _ _ id Hi) as Hok. fold m in Hok, Htail, Hc0, Hf1, Hf2.
  fold nc in Htail, Hc0. fold nf in Hf1, Hf2.
  assert (0 ≤ nf) by by apply Z.div_pos.
  assert (Hsl : ∀ r, r ∈ py_slice (blocks_of m id) nc nf →
    ∃ i, blocks_of m id !! i = Some r ∧ nc ≤ Z.of_nat i < nf).
  { intros r Hr. rewrite py_slice_nonneg in Hr by lia. apply list_elem_of_lookup_1 in Hr as [j Hj].
    apply lookup_take_Some in Hj as [Hj ?]. rewrite lookup_drop in Hj.
    exists (Z.to_nat nc + j)%nat. split; [done|lia]. }
  eapply wp_mono; [eapply (base_cache_blocks_ok reserved ext s free0 request num_tokens); try done|].
  - intros _. fold m id nc nf. split_and!; [done|done|done|]. intros r Hr.
    destruct (Hsl r Hr) as (i & Hi1 & ?). destruct (Hok r) as [->|[Hv Ho]];
      [by eapply list_elem_of_lookup_2|by right|left].
    destruct (Htail i r Hi1) as [_ Hbh]; [lia|done|]. split_and!; [done|done|].
    assert (0 < occ r (py_slice (blocks_of m id) nc nf)) by by apply occ_elem.
    rewrite py_slice_nonneg in * by lia.
    pose proof (occ_take_drop_le r (Z.to_nat nf - Z.to_nat nc) (Z.to_nat nc) (blocks_of m id)). lia.
  - intros [] s' (Hi' & Hst & Hnc & Hrc & Hhash). fold m id nc nf in Hst, Hnc, Hhash.
    pose proof (ms_config _ _ _ _ Hst) as Hcfg. split_and!; [done| |done].
    assert (Hout : ∀ r, valid (kv_pool s) r → r ∉ py_slice (blocks_of m id) nc nf →
      rc (kv_pool s') r = rc (kv_pool s) r ∧ bhash (kv_pool s') r = bhash (kv_pool s) r).
    { intros r Hv Hr. destruct (valid_Blk _ _ Hv) as [i ->]. rewrite Hrc, Hhash. split; [done|].
      destruct (nf <=? nc); [done|]. by apply assign_out. }
    split; rewrite ?Hnc; try done; [|..|lia|].
    + intros He'. unfold config in Hcfg. congruence.
    + intros r Hv Hr1 Hbh Hrow. destruct (Hout r Hv) as [-> ->]; [|done]. intros Hin.
      destruct (Hsl r Hin) as (i & Hi1 & _). apply Hrow. by eapply list_elem_of_lookup_2.
    + intros i r Hi1 Hle Hv. rewrite config_valid in Hv by done.
      destruct (Htail i r Hi1) as [Hr1 Hbh]; [lia|done|]. destruct (Hout r Hv) as [-> ->]; [|done].
      intros Hin. destruct (Hsl r Hin) as (j & Hj & ?).
      destruct (Hok r) as [->|[_ Ho]]; [by eapply list_elem_of_lookup_2|by apply valid_ne_null in Hv|].
      assert (i = j) as -> by by eapply occ_unique. lia.
Qed.
End Ops.

(** ** The prediction *)

Lemma without_length bs : ∀ free,
  NoDup free → (∀ r, r ∈ free → occ r bs ≤ 1) →
  len (without free bs) = len free - len (filter (.∈ free) bs).
Proof.
  unfold without. induction bs as [|b bs IH]; intros free Hnd Ho; simpl;
    [change (len free = len free - 0); lia|].
  assert (Ho' : ∀ r, r ∈ Spec.remove b free → occ r bs ≤ 1).
  { intros r [Hne Hr]%list_elem_of_filter. specialize (Ho r Hr). rewrite occ_cons in Ho.
    case_decide; simpl in *; [done|lia]. }
  rewrite IH; [|by apply NoDup_filter|done]. destruct (decide (b ∈ free)) as [Hb|Hb].
  - specialize (Ho b Hb). rewrite occ_cons, decide_True in Ho by done.
    pose proof (occ_nonneg b bs). assert (b ∉ bs) as Hnb by (apply occ_not_elem; lia).
    rewrite filter_cons_True by done. apply list_elem_of_split in Hb as (l1 & l2 & ->).
    rewrite remove_middle by done.
    rewrite (filter_ext_in (.∈ l1 ++ b :: l2) (.∈ l1 ++ l2)); [autorewrite with len; lia|].
    intros r Hr. assert (r ≠ b) by (by intros ->). set_solver.
  - rewrite filter_cons_False by done. unfold Spec.remove. by rewrite filter_ne_id.
Qed.

(** Touching a hit takes as many blocks from the free queue as were counted. *)
Lemma evictable_without p free reserved kept :
  pool_inv p free reserved → row_ok p kept → (∀ r, r ∈ kept → r ∉ reserved) →
  len (without free kept) = len free - _get_num_evictable_blocks p kept.
Proof.
  intros [Hwf Href] Hok Hres. rewrite without_length; [|by eapply queue_rep_nodup, pw_queue|].
  - unfold _get_num_evictable_blocks. do 2 f_equal. apply filter_ext_in. intros r Hr.
    destruct (Hok r Hr) as [->|[Hv _]].
    + rewrite (null_is_null _ _ Hwf). split; [|by intros [_ ?]].
      intros Hf%(pw_free _ _ Hwf). by apply valid_ne_null in Hf.
    + rewrite (valid_is_null _ _ _ Hwf Hv). fold (rc p r).
      rewrite (ro_zero _ _ _ Href r Hv). specialize (Hres r Hr). tauto.
  - intros r Hf. pose proof (pw_free _ _ Hwf r Hf) as Hv. destruct (decide (r ∈ kept)) as [Hr|Hr].
    + destruct (Hok r Hr) as [->|[_ ->]]; [by apply valid_ne_null in Hv|done].
    + apply occ_not_elem in Hr. lia.
Qed.

Lemma evictable_nonneg p bs : 0 ≤ _get_num_evictable_blocks p bs.
Proof. apply len_nonneg. Qed.

Lemma hit_row_length m tokens new :
  0 ≤ skipped_blocks m tokens → len (hit_row m tokens new) = Z.max (skipped_blocks m tokens) (len new).
Proof.
  intros Hs. unfold hit_row, kept_blocks, py_repeat. rewrite len_app. unfold len at 1.
  rewrite length_replicate. destruct (Z.ltb_spec 0 (skipped_blocks m tokens)).
  - rewrite py_slice_from_nonneg by lia. unfold len. rewrite length_drop. lia.
  - pose proof (len_nonneg new). lia.
Qed.

(** What [get_num_blocks_to_allocate] answers for a request that holds nothing yet. *)
Lemma predict_fresh s id tokens new total :
  let m := kv_mgr s in
  num_cached_block m !! id = None → blocks_of m id = [] → 0 ≤ skipped_blocks m total →
  wp (base_get_num_blocks_to_allocate id tokens new total false)
    (λ n s', s' = s ∧
       n = Z.max 0 (cdiv tokens (m_block_size m) - len (hit_row m total new)) +
           _get_num_evictable_blocks (kv_pool s) (kept_blocks m total new)) s.
Proof.
  intros m Hnc Hrow Hsk. unfold base_get_num_blocks_to_allocate. wp_prim. wp_prim.
  unfold Datatypes.id. fold m. rewrite Hnc, Hrow, bool_decide_false by (by intros [? ?]).
  wp_prim. split; [done|]. fold (skipped_blocks m total). rewrite hit_row_length by done.
  rewrite len_nil, Z.add_0_r, Z.sub_0_r.
  assert (py_slice_from new (Z.max 0 (skipped_blocks m total)) = kept_blocks m total new) as ->.
  { unfold kept_blocks. destruct (Z.ltb_spec 0 (skipped_blocks m total)); [by rewrite Z.max_r by lia|].
    by rewrite py_slice_from_nonneg, Z.max_l by lia. }
  destruct (_max_admission_blocks_per_request m); lia.
Qed.

(** And for one whose blocks cover its computed tokens. *)
Lemma predict_running s id tokens total :
  let m := kv_mgr s in
  skipped_blocks m total ≤ len (blocks_of m id) →
  wp (base_get_num_blocks_to_allocate id tokens [] total false)
    (λ n s', s' = s ∧ n = Z.max 0 (cdiv tokens (m_block_size m) - len (blocks_of m id))) s.
Proof.
  intros m Hsk. unfold base_get_num_blocks_to_allocate. wp_prim. wp_prim.
  unfold Datatypes.id. fold m.
  assert (match _max_admission_blocks_per_request m with
          | Some cap => cdiv tokens (m_block_size m) | None => cdiv tokens (m_block_size m) end =
          cdiv tokens (m_block_size m)) as Hcap by by destruct (_max_admission_blocks_per_request m).
  rewrite Hcap. destruct (bool_decide _); repeat wp_prim.
  - apply wp_assert; [done|]. wp_prim. split; [done|]. lia.
  - split; [done|]. fold (skipped_blocks m total). rewrite len_nil.
    rewrite py_slice_from_nonneg, drop_nil by lia.
    assert (_get_num_evictable_blocks (kv_pool s) [] = 0) as -> by done. lia.
Qed.
End Group.
