(* ===== verification/Coordinator.v ===== *)
(** * The coordinator of the KV-cache groups

    vllm/v1/core/kv_cache_coordinator.py: one manager per KV-cache group over one
    block pool.  The three coordinator classes differ in how they look up the
    prefix cache; the kind of a coordinator carries their fields.  An operation runs
    its counterpart on every manager in order, threading the shared pool through. *)

From S2P Require Import Prelude FreeQueue Request BlockHash BlockPool KVSpec CacheHit SingleType.

(** An entry of [attention_groups]: the specification, its groups and their class. *)
Record AttentionGroup := mkAttentionGroup {
  ag_spec : KVCacheSpec;
  ag_group_ids : list Z;
  ag_cls : ManagerClass
}.

Inductive CoordinatorKind :=
  | KVCacheCoordinatorNoPrefixCache
  | UnitaryKVCacheCoordinator (spec : KVCacheSpec) (bs dcp pcp : Z)
  | HybridKVCacheCoordinator (hash_bs : Z) (attention_groups : list AttentionGroup)
      (lcm_block_size : Z) (eagle_attn_group_indices : gset Z).

Record Coordinator := mkCoordinator {
  c_kv_cache_config : KVCacheConfig;
  c_max_model_len : Z;
  c_enable_caching : bool;
  block_pool : BlockPool;
  eagle_group_ids : gset Z;
  single_type_managers : list Manager;
  c_kind : CoordinatorKind
}.

Definition set_block_pool (v : BlockPool) (c : Coordinator) : Coordinator :=
  mkCoordinator
    (c_kv_cache_config c) (c_max_model_len c) (c_enable_caching c) v (eagle_group_ids c)
    (single_type_managers c) (c_kind c).
Definition set_single_type_managers (v : list Manager) (c : Coordinator) : Coordinator :=
  mkCoordinator
    (c_kv_cache_config c) (c_max_model_len c) (c_enable_caching c) (block_pool c)
    (eagle_group_ids c) v (c_kind c).

Section Coordinator.
Context {E : Env}.
Abbreviation MC := (M Coordinator).

(** Run an operation of the [i]-th manager. *)
Definition on_manager {A} (i : nat) (op : M KV A) : MC A := λ c,
  match single_type_managers c !! i with
  | None => (Raise IndexError, c)
  | Some m =>
      let '(r, s) := op (mkKV (block_pool c) m) in
      (r, set_block_pool (kv_pool s)
            (set_single_type_managers (<[i := kv_mgr s]> (single_type_managers c)) c))
  end.

(** [for i, manager in enumerate(self.single_type_managers)] *)
Definition for_managers (body : nat → M KV unit) : MC unit :=
  n ← gets (λ c, length (single_type_managers c));
  for_ (seq 0 n) (λ i, on_manager i (body i)).
Definition collect_managers {A} (body : nat → M KV A) : MC (list A) :=
  n ← gets (λ c, length (single_type_managers c));
  collect (seq 0 n) (λ i, on_manager i (body i)).

(** [new_computed_blocks[i]] *)
Definition group_blocks (new_computed_blocks : list (list ref)) (i : nat) : M KV (list ref) :=
  or_raise IndexError (new_computed_blocks !! i).

Definition coord_get_num_blocks_to_allocate (request_id : string) (num_tokens : Z)
    (new_computed_blocks : list (list ref)) (num_encoder_tokens total_computed_tokens
    num_tokens_main_model : Z) (apply_admission_cap : bool) : MC Z :=
  ns ← collect_managers (λ i,
    spec ← getm m_kv_cache_spec;
    if is_cross spec then
      get_num_blocks_to_allocate request_id num_encoder_tokens [] 0 num_encoder_tokens apply_admission_cap
    else
      bs ← group_blocks new_computed_blocks i;
      get_num_blocks_to_allocate request_id num_tokens bs total_computed_tokens
        num_tokens_main_model apply_admission_cap);
  mret (sumZ ns).

Definition coord_allocate_new_computed_blocks (request_id : string)
    (new_computed_blocks : list (list ref))
    (num_local_computed_tokens num_external_computed_tokens : Z) : MC unit :=
  for_managers (λ i,
    bs ← group_blocks new_computed_blocks i;
    allocate_new_computed_blocks request_id bs num_local_computed_tokens num_external_computed_tokens).

Definition coord_allocate_new_blocks (request_id : string)
    (num_tokens num_tokens_main_model num_encoder_tokens : Z) : MC (list (list ref)) :=
  collect_managers (λ _,
    spec ← getm m_kv_cache_spec;
    allocate_new_blocks request_id (if is_cross spec then num_encoder_tokens else num_tokens)
      num_tokens_main_model).

Definition coord_cache_blocks (request : Request) (num_computed_tokens : Z) : MC unit :=
  for_managers (λ _, cache_blocks request num_computed_tokens).

Definition coord_free (request_id : string) : MC unit := for_managers (λ _, free request_id).

Definition coord_get_num_common_prefix_blocks (running_request_id : string) : MC (list Z) :=
  kind ← gets c_kind;
  match kind with
  | KVCacheCoordinatorNoPrefixCache => gets (λ c, (λ _, 0) <$> single_type_managers c)
  | _ => collect_managers (λ _, get_num_common_prefix_blocks running_request_id)
  end.

Definition coord_remove_skipped_blocks (request_id : string) (total_computed_tokens : Z) : MC unit :=
  for_managers (λ _, remove_skipped_blocks request_id total_computed_tokens).

Definition coord_get_blocks (c : Coordinator) (request_id : string) : list (list ref) :=
  (λ m, blocks_of m request_id) <$> single_type_managers c.

Definition coord_new_step_starts : MC unit := for_managers (λ _, new_step_starts).

(** ** Prefix-cache lookup *)

(** [_get_block_hashes] *)
Definition hashes_for (block_hashes : list bytes) (hash_bs : Z) (spec : KVCacheSpec) :
    result BlockHashList :=
  if block_size spec =? hash_bs then Ok (Plain block_hashes)
  else match scaled_init block_hashes hash_bs (block_size spec) with
       | Ok b => Ok (Scaled b)
       | Raise e => Raise e
       end.

(** The variables of the loop of the hybrid lookup. *)
Record HitState := mkHitState {
  curr_hit_length : Z;
  hit_blocks_by_group : list (option (list ref));
  eagle_verified : gset Z
}.

(** [for group_id, blocks in zip(group_ids, hit_blocks): ...] *)
Fixpoint store_hits (group_ids : list Z) (hit_blocks : list (list ref))
    (by_group : list (option (list ref))) : list (option (list ref)) :=
  match group_ids, hit_blocks with
  | g :: group_ids, bs :: hit_blocks => store_hits group_ids hit_blocks (py_set by_group g (Some bs))
  | _, _ => by_group
  end.

(** [self.hit_blocks_by_group[group_ids[0]]] *)
Definition first_cached (ag : AttentionGroup) (st : HitState) : option (list ref) :=
  match ag_group_ids ag with
  | [] => None
  | g :: _ => default None (py_get (hit_blocks_by_group st) g)
  end.

(** The body of the [for] loop for the attention group with index [idx]. *)
Definition hybrid_step (p : BlockPool) (block_hashes : list bytes) (max_cache_hit_length hash_bs
    lcm_block_size : Z) (eagle_attn_group_indices : gset Z) (idx : Z) (ag : AttentionGroup)
    (st : HitState) : result HitState :=
  let bs := block_size (ag_spec ag) in
  if is_full_attention (ag_spec ag) && bool_decide (is_Some (first_cached ag st)) then
    Ok (mkHitState (curr_hit_length st / bs * bs) (hit_blocks_by_group st) (eagle_verified st))
  else
    let use_eagle := bool_decide (idx ∈ eagle_attn_group_indices) &&
                     negb (bool_decide (idx ∈ eagle_verified st)) in
    let _max_length :=
      if use_eagle then Z.min (curr_hit_length st + bs) max_cache_hit_length
      else curr_hit_length st in
    match hashes_for block_hashes hash_bs (ag_spec ag) with
    | Raise e => Raise e
    | Ok hashes =>
        match find_longest_cache_hit (ag_cls ag) hashes _max_length (ag_group_ids ag) p (ag_spec ag)
                use_eagle lcm_block_size 1 1 with
        | Raise e => Raise e
        | Ok hit_blocks =>
            let _new_hit_length := first_len hit_blocks * bs in
            let verified :=
              if use_eagle then {[idx]} ∪ eagle_verified st
              else if _new_hit_length <? curr_hit_length st then ∅ else eagle_verified st in
            Ok (mkHitState _new_hit_length
                  (store_hits (ag_group_ids ag) hit_blocks (hit_blocks_by_group st)) verified)
        end
    end.

Fixpoint hybrid_for (p : BlockPool) (block_hashes : list bytes) (max_cache_hit_length hash_bs
    lcm_block_size : Z) (eagle_idxs : gset Z) (idx : Z) (ags : list AttentionGroup)
    (st : HitState) : result HitState :=
  match ags with
  | [] => Ok st
  | ag :: ags =>
      match hybrid_step p block_hashes max_cache_hit_length hash_bs lcm_block_size eagle_idxs idx ag st with
      | Raise e => Raise e
      | Ok st => hybrid_for p block_hashes max_cache_hit_length hash_bs lcm_block_size eagle_idxs
                   (idx + 1) ags st
      end
  end.

(** The [while True] loop; returns the hit length and the blocks by group. *)
Fixpoint hybrid_while (fuel : nat) (p : BlockPool) (block_hashes : list bytes) (max_cache_hit_length
    hash_bs lcm_block_size : Z) (eagle_idxs : gset Z) (ags : list AttentionGroup)
    (is_simple_hybrid : bool) (hit_length : Z) (by_group : list (option (list ref)))
    (verified : gset Z) : result (Z * list (option (list ref))) :=
  match fuel with
  | O => Raise OutOfFuel
  | S fuel =>
      match hybrid_for p block_hashes max_cache_hit_length hash_bs lcm_block_size eagle_idxs 0 ags
              (mkHitState hit_length by_group verified) with
      | Raise e => Raise e
      | Ok st =>
          if hit_length <=? curr_hit_length st then Ok (hit_length, hit_blocks_by_group st)
          else if is_simple_hybrid then Ok (curr_hit_length st, hit_blocks_by_group st)
          else hybrid_while fuel p block_hashes max_cache_hit_length hash_bs lcm_block_size eagle_idxs
                 ags is_simple_hybrid (curr_hit_length st) (hit_blocks_by_group st) (eagle_verified st)
      end
  end.

(** [del blks[num_blocks:]] for the groups of the first attention group *)
Definition truncate_groups (group_ids : list Z) (num_blocks : Z)
    (by_group : list (option (list ref))) : list (option (list ref)) :=
  foldl (λ by_group g,
    match py_get by_group g with
    | Some (Some blks) => py_set by_group g (Some (py_slice blks 0 num_blocks))
    | _ => by_group
    end) by_group group_ids.

Definition hybrid_find_longest_cache_hit (p : BlockPool) (num_groups : nat) (hash_bs : Z)
    (attention_groups : list AttentionGroup) (lcm_block_size : Z) (eagle_idxs : gset Z)
    (block_hashes : list bytes) (max_cache_hit_length : Z) : result (list (list ref) * Z) :=
  let is_simple_hybrid :=
    match attention_groups with
    | [ag; _] => is_full_attention (ag_spec ag)
    | _ => false
    end in
  match hybrid_while (S (Z.to_nat max_cache_hit_length)) p block_hashes max_cache_hit_length hash_bs
          lcm_block_size eagle_idxs attention_groups is_simple_hybrid max_cache_hit_length
          (replicate num_groups None) ∅ with
  | Raise e => Raise e
  | Ok (hit_length, by_group) =>
      match attention_groups with
      | [] => Raise IndexError
      | ag :: _ =>
          let by_group :=
            if is_full_attention (ag_spec ag)
            then truncate_groups (ag_group_ids ag) (hit_length / block_size (ag_spec ag)) by_group
            else by_group in
          Ok (default [] <$> by_group, hit_length)
      end
  end.

Definition coord_find_longest_cache_hit (c : Coordinator) (block_hashes : list bytes)
    (max_cache_hit_length : Z) : result (list (list ref) * Z) :=
  match c_kind c with
  | KVCacheCoordinatorNoPrefixCache => Ok ((λ _, []) <$> single_type_managers c, 0)
  | UnitaryKVCacheCoordinator spec bs dcp pcp =>
      match spec_manager_map spec with
      | None => Raise KeyError
      | Some cls =>
          match find_longest_cache_hit cls (Plain block_hashes) max_cache_hit_length [0] (block_pool c) spec
                  (bool_decide (0 ∈ eagle_group_ids c)) bs dcp pcp with
          | Raise e => Raise e
          | Ok hit_blocks => Ok (hit_blocks, first_len hit_blocks * bs)
          end
      end
  | HybridKVCacheCoordinator hash_bs ags lcm_bs eagle_idxs =>
      hybrid_find_longest_cache_hit (block_pool c) (length (kv_cache_groups (c_kv_cache_config c))) hash_bs
        ags lcm_bs eagle_idxs block_hashes max_cache_hit_length
  end.

(** ** Construction *)

(** The loop of [verify_and_split_kv_cache_groups] that adds group [i]. *)
Fixpoint add_group (spec : KVCacheSpec) (cls : ManagerClass) (i : Z) (ags : list AttentionGroup) :
    list AttentionGroup :=
  match ags with
  | [] => [mkAttentionGroup spec [i] cls]
  | ag :: ags =>
      if decide (ag_spec ag = spec)
      then mkAttentionGroup (ag_spec ag) (ag_group_ids ag ++ [i]) (ag_cls ag) :: ags
      else ag :: add_group spec cls i ags
  end.

(** The classes are those of the managers, a function of the specification, so the
    assertion that identical specifications have the same class holds. *)
Fixpoint split_groups (groups : list KVCacheGroupSpec) (i : Z) (ags : list AttentionGroup) :
    result (list AttentionGroup) :=
  match groups with
  | [] => Ok ags
  | g :: groups =>
      match spec_manager_map (kv_cache_spec g) with
      | None => Raise KeyError
      | Some cls => split_groups groups (i + 1) (add_group (kv_cache_spec g) cls i ags)
      end
  end.

(** [sorted] by whether the specification is full attention, stable *)
Definition full_first (ags : list AttentionGroup) : list AttentionGroup :=
  filter (λ ag, is_full_attention (ag_spec ag) = true) ags ++
  filter (λ ag, is_full_attention (ag_spec ag) = false) ags.

Definition eagle_indices (eagle_ids : gset Z) (ags : list AttentionGroup) : gset Z :=
  list_to_set (imap (λ i _, Z.of_nat i) ags ≫= λ i,
    match ags !! Z.to_nat i with
    | Some ag => if existsb (λ g, bool_decide (g ∈ eagle_ids)) (ag_group_ids ag) then [i] else []
    | None => []
    end).

Definition hybrid_kind (config : KVCacheConfig) (hash_bs dcp pcp : Z) (eagle_ids : gset Z) :
    result CoordinatorKind :=
  let groups := kv_cache_groups config in
  if negb (forallb (λ g, block_size (kv_cache_spec g) mod hash_bs =? 0) groups) ||
     negb (dcp =? 1) || negb (pcp =? 1)
  then Raise AssertionError
  else
    match split_groups groups 0 [] with
    | Raise e => Raise e
    | Ok ags =>
        if negb (1 <? len ags) then Raise AssertionError
        else
          let sorted := full_first ags in
          Ok (HybridKVCacheCoordinator hash_bs sorted (lcm_list ((λ ag, block_size (ag_spec ag)) <$> ags))
                (eagle_indices eagle_ids sorted))
    end.

Definition unitary_kind (config : KVCacheConfig) (enable_caching : bool) (hash_bs dcp pcp : Z) :
    result CoordinatorKind :=
  match kv_cache_groups config with
  | [] => Raise IndexError
  | g :: rest =>
      let spec := kv_cache_spec g in
      let bs := block_size spec in
      let bs := if 1 <? dcp then bs * dcp else bs in
      let bs := if 1 <? pcp then bs * pcp else bs in
      if enable_caching && negb (hash_bs =? bs) then Raise AssertionError
      else if negb (bool_decide (rest = [])) then Raise AssertionError
      else Ok (UnitaryKVCacheCoordinator spec bs dcp pcp)
  end.

(** The managers of the groups, built in order over the pool. *)
Fixpoint build_managers (groups : list KVCacheGroupSpec) (i max_num_batched_tokens max_model_len : Z)
    (enable_caching : bool) (dcp pcp : Z) : M BlockPool (list Manager) :=
  match groups with
  | [] => mret []
  | g :: groups =>
      m ← get_manager_for_kv_cache_spec (kv_cache_spec g) max_num_batched_tokens max_model_len
            enable_caching i dcp pcp;
      ms ← build_managers groups (i + 1) max_num_batched_tokens max_model_len enable_caching dcp pcp;
      mret (m :: ms)
  end.

Definition eagle_ids_of (config : KVCacheConfig) (use_eagle : bool) : gset Z :=
  let flagged : gset Z := list_to_set (concat (imap (λ i g, if is_eagle_group g then [Z.of_nat i] else [])
                                        (kv_cache_groups config))) in
  if use_eagle && bool_decide (flagged = ∅)
  then list_to_set (py_range 0 (len (kv_cache_groups config))) else flagged.

(** [get_kv_cache_coordinator] with the constructors it calls *)
Definition get_kv_cache_coordinator (config : KVCacheConfig) (max_model_len max_num_batched_tokens : Z)
    (use_eagle enable_caching enable_kv_cache_events : bool) (dcp pcp hash_bs : Z)
    (metrics : option KVCacheMetricsCollector) : result Coordinator :=
  let base_caching :=
    if negb enable_caching then false else enable_caching in
  match pool_init (num_blocks config) base_caching hash_bs enable_kv_cache_events metrics with
  | Raise e => Raise e
  | Ok p =>
      let eagle := eagle_ids_of config use_eagle in
      match build_managers (kv_cache_groups config) 0 max_num_batched_tokens max_model_len base_caching
              dcp pcp p with
      | (Raise e, _) => Raise e
      | (Ok ms, p) =>
          let kind :=
            if negb enable_caching then Ok KVCacheCoordinatorNoPrefixCache
            else if len (kv_cache_groups config) =? 1
            then unitary_kind config enable_caching hash_bs dcp pcp
            else hybrid_kind config hash_bs dcp pcp eagle in
          match kind with
          | Raise e => Raise e
          | Ok kind => Ok (mkCoordinator config max_model_len base_caching p eagle ms kind)
          end
      end
  end.
End Coordinator.
