(* ===== verification/CoordInv.v ===== *)
(** * The invariant of the coordinator

    The block pool and all the managers of vllm/v1/core/kv_cache_coordinator.py
    together: every reference count is the number of times the requests' rows, over
    all groups, refer to the block.  The loops over the managers keep it when every
    operation on one group does. *)

From S2P Require Import Prelude FreeQueue Request BlockHash BlockPool KVSpec CacheHit SingleType Accounting Coordinator.

#[local] Set Default Proof Using "Type*".

Section Counting.
Implicit Types (r : ref) (m : Manager) (ms : list Manager) (id : string).

Definition mgr_refs r m : Z := row_refs r (req_to_blocks m).

(** How often the rows of all groups refer to [r]. *)
Definition coord_refs r ms : Z := sumZ (mgr_refs r <$> ms).

Lemma coord_refs_insert r ms i m m' :
  ms !! i = Some m → coord_refs r (<[i := m']> ms) = coord_refs r ms - mgr_refs r m + mgr_refs r m'.
Proof.
  intros Hi. unfold coord_refs. rewrite insert_take_drop by by eapply lookup_lt_Some.
  rewrite <- (take_drop_middle ms i m Hi) at 3. rewrite !fmap_app, !sumZ_app, !fmap_cons.
  unfold sumZ. simpl. lia.
Qed.

Lemma mgr_refs_nonneg r m : 0 ≤ mgr_refs r m.
Proof. apply row_refs_nonneg. Qed.

Lemma coord_refs_nonneg r ms : 0 ≤ coord_refs r ms.
Proof. apply sumZ_nonneg, Forall_fmap, Forall_true. intros m. apply mgr_refs_nonneg. Qed.

Lemma coord_refs_le r ms i m : ms !! i = Some m → mgr_refs r m ≤ coord_refs r ms.
Proof.
  intros Hi. pose proof (coord_refs_insert r ms i m (set_req_to_blocks ∅ m) Hi) as He.
  pose proof (coord_refs_nonneg r (<[i := set_req_to_blocks ∅ m]> ms)).
  unfold mgr_refs in He at 2. simpl in He. unfold row_refs in He at 1. rewrite map_fold_empty in He. lia.
Qed.

Lemma blocks_of_refs m id r : occ r (blocks_of m id) ≤ mgr_refs r m.
Proof.
  unfold blocks_of, mgr_refs. destruct (req_to_blocks m !! id) eqn:Hid; simpl.
  - by eapply row_refs_le.
  - rewrite occ_nil. apply row_refs_nonneg.
Qed.

(** A block in the rows of two requests or of two groups has two references. *)
Lemma coord_refs_two r ms i j mi mj id id' :
  ms !! i = Some mi → ms !! j = Some mj → i ≠ j ∨ id ≠ id' →
  r ∈ blocks_of mi id → r ∈ blocks_of mj id' → 2 ≤ coord_refs r ms.
Proof.
  intros Hi Hj Hne Hri Hrj. apply occ_elem in Hri, Hrj.
  destruct (decide (i = j)) as [<-|Hij].
  - assert (mj = mi) as -> by congruence. assert (id ≠ id') as Hid by naive_solver.
    pose proof (coord_refs_le r ms i mi Hi). unfold mgr_refs in *.
    pose proof (row_refs_delete r (req_to_blocks mi) id) as Hd. fold (blocks_of mi id) in Hd.
    pose proof (blocks_of_refs (set_req_to_blocks (delete id (req_to_blocks mi)) mi) id' r) as Hd'.
    unfold mgr_refs, blocks_of in Hd'. simpl in Hd'. rewrite lookup_delete_ne in Hd' by done.
    fold (blocks_of mi id') in Hd'. lia.
  - pose proof (coord_refs_insert r ms i mi (set_req_to_blocks ∅ mi) Hi) as He.
    unfold mgr_refs in He at 2. simpl in He. unfold row_refs in He at 1. rewrite map_fold_empty in He.
    assert (<[i := set_req_to_blocks ∅ mi]> ms !! j = Some mj) as Hj' by by rewrite list_lookup_insert_ne.
    pose proof (coord_refs_le r _ j mj Hj'). pose proof (blocks_of_refs mi id r).
    pose proof (blocks_of_refs mj id' r). lia.
Qed.
End Counting.

Section CoordInvariant.
Context {E : Env} (reserved : list ref).
Implicit Types (c : Coordinator) (p : BlockPool) (m : Manager) (s : KV) (free : list ref) (id : string).

Record coord_inv c free : Prop := {
  ci_pool : pool_inv (block_pool c) free reserved;
  ci_nohash : nohash (block_pool c);
  ci_static i m : single_type_managers c !! i = Some m → mgr_static (block_pool c) (Z.of_nat i) m;
  ci_null i m : single_type_managers c !! i = Some m → _null_block m = Blk 0;
  ci_rc r : valid (block_pool c) r → rc (block_pool c) r = coord_refs r (single_type_managers c);
  ci_rows i m id row : single_type_managers c !! i = Some m → req_to_blocks m !! id = Some row →
    row_ok (block_pool c) row;
  ci_cached i m id : single_type_managers c !! i = Some m → 0 ≤ num_cached m id;
  ci_tail i m id : single_type_managers c !! i = Some m →
    row_tail_ok (block_pool c) (blocks_of m id) (num_cached m id)
}.

(** The references of the other groups. *)
Definition other_refs c m r : Z := coord_refs r (single_type_managers c) - mgr_refs r m.

Definition put_manager i s c : Coordinator :=
  set_block_pool (kv_pool s) (set_single_type_managers (<[i := kv_mgr s]> (single_type_managers c)) c).

Lemma coord_manager c free i m :
  coord_inv c free → single_type_managers c !! i = Some m →
  mgr_inv reserved (other_refs c m) (mkKV (block_pool c) m) free ∧
  ∀ id, group_pre (Z.of_nat i) (mkKV (block_pool c) m) id.
Proof.
  intros Hi Hm. destruct Hi as [Hp Hno Hst Hnull Hrc Hrows Hc Ht]. split.
  - split; simpl; [done|by eapply Hnull| | |intros id row; by apply (Hrows i m id row)].
    + intros r. pose proof (coord_refs_le r _ _ _ Hm). unfold other_refs. lia.
    + intros r Hv. rewrite (Hrc r Hv). unfold other_refs, mgr_refs. lia.
  - intros id. split; simpl; [by apply Hst|done|by eapply Hc|by eapply Ht].
Qed.

Lemma mgr_static_step p p' g m m' :
  config p' = config p → mconfig m' = mconfig m → mgr_static p g m → mgr_static p' g m'.
Proof.
  intros Hc (Hs & Hb & He & Hg & _ & _)%mconfig_eq [H1 H2 H3 H4 H5].
  unfold config in Hc. injection Hc as _ Hc1 Hc2 _ _ _. split; congruence.
Qed.

(** An operation on the row of request [id] in group [i]. *)
Lemma coord_put c free i m s' free' id row' :
  coord_inv c free → single_type_managers c !! i = Some m →
  mgr_inv reserved (other_refs c m) s' free' → group_post (mkKV (block_pool c) m) s' id row' →
  coord_inv (put_manager i s' c) free'.
Proof.
  intros Hi Hm Hi' [Hst Hno Hfr Hc Ht]. pose proof (ms_config _ _ _ _ Hst) as Hcfg. simpl in *.
  pose proof (ms_mconfig _ _ _ _ Hst) as Hmc. simpl in Hmc.
  assert (Hlen : (i < length (single_type_managers c))%nat) by by eapply lookup_lt_Some.
  assert (Hlk : ∀ j mj, single_type_managers (put_manager i s' c) !! j = Some mj →
    (j = i ∧ mj = kv_mgr s') ∨ (j ≠ i ∧ single_type_managers c !! j = Some mj)).
  { intros j mj Hj. simpl in Hj. apply list_lookup_insert_Some in Hj. naive_solver. }
  split; simpl.
  - by eapply mi_pool.
  - done.
  - intros j mj [[-> ->]|[Hne Hj]]%Hlk; (eapply mgr_static_step; [done| |by eapply ci_static]);
      [done|done].
  - intros j mj [[-> ->]|[Hne Hj]]%Hlk; [by eapply mi_null|by eapply ci_null].
  - intros r Hv. rewrite (coord_refs_insert r _ i m _ Hm), (mi_rc _ _ _ _ Hi' r Hv).
    unfold other_refs, mgr_refs. lia.
  - intros j mj id' row [[-> ->]|[Hne Hj]]%Hlk Hrow; [by eapply mi_rows|].
    eapply row_ok_config; [done|]. by eapply ci_rows.
  - intros j mj id' [[-> ->]|[Hne Hj]]%Hlk; [|by eapply ci_cached].
    destruct (decide (id' = id)) as [->|Hid]; [done|]. unfold num_cached.
    rewrite (ms_cached_other _ _ _ _ Hst) by done. by eapply (ci_cached _ _ Hi i m id').
  - assert (Hother : ∀ j mj id', single_type_managers c !! j = Some mj → j ≠ i ∨ id' ≠ id →
      row_tail_ok (kv_pool s') (blocks_of mj id') (num_cached mj id')).
    { intros j mj id' Hj Hne k r Hk Hle Hv. rewrite config_valid in Hv by done.
      destruct (ci_tail _ _ Hi j mj id' Hj k r Hk Hle Hv) as [Hrc Hh].
      apply Hfr; [done..|]. intros Hin. rewrite (ci_rc _ _ Hi r Hv) in Hrc.
      assert (2 ≤ coord_refs r (single_type_managers c)); [|lia].
      eapply (coord_refs_two r _ j i mj m id' id); [done|done|done| |done].
      by eapply list_elem_of_lookup_2. }
    intros j mj id' [[-> ->]|[Hne Hj]]%Hlk; [|by eapply Hother; eauto].
    destruct (decide (id' = id)) as [->|Hid]; [by rewrite (ms_row _ _ _ _ Hst)|].
    unfold blocks_of, num_cached. rewrite (ms_cached_other _ _ _ _ Hst), (ms_rows_other _ _ _ _ Hst) by done.
    eapply (Hother i m id'); auto.
Qed.
(** ** Loops over the managers *)

(** The fields of the coordinator that no operation assigns. *)
Definition coord_same c c' : Prop :=
  c_kv_cache_config c' = c_kv_cache_config c ∧ c_max_model_len c' = c_max_model_len c ∧
  c_enable_caching c' = c_enable_caching c ∧ eagle_group_ids c' = eagle_group_ids c ∧
  c_kind c' = c_kind c ∧ config (block_pool c') = config (block_pool c) ∧
  length (single_type_managers c') = length (single_type_managers c).

#[export] Instance coord_same_preorder : PreOrder coord_same.
Proof.
  split; [intros c; unfold coord_same; by split_and!|]. unfold coord_same. intros c1 c2 c3 (? & ? & ? & ? & ? & ? & ?) (? & ? & ? & ? & ? & ? & ?).
  split_and!; congruence.
Qed.

Lemma wp_on_manager {A} i m (op : M KV A) Q c :
  single_type_managers c !! i = Some m →
  wp op (λ a s', Q a (put_manager i s' c)) (mkKV (block_pool c) m) → wp (on_manager i op) Q c.
Proof.
  intros Hm. unfold wp, on_manager. rewrite Hm. by destruct (op (mkKV (block_pool c) m)) as [[] ?].
Qed.

(** What an operation for request [id] leaves alone in a manager. *)
Record mgr_frame id m m' : Prop := {
  mf_config : mconfig m' = mconfig m;
  mf_rows id' : id' ≠ id → req_to_blocks m' !! id' = req_to_blocks m !! id';
  mf_cached id' : id' ≠ id → num_cached_block m' !! id' = num_cached_block m !! id'
}.

Section Loop.
Context {A : Type} (body : nat → M KV A) (id : string) (c0 : Coordinator).
(** [R i m m' a]: what the operation on group [i] did to its manager, and its result.
    [I i p free]: the state of the pool before group [i]. *)
Context (R : nat → Manager → Manager → A → Prop) (I : nat → BlockPool → list ref → Prop).
Abbreviation ms0 := (single_type_managers c0).

Definition group_op_ok : Prop :=
  ∀ i m ext p free, ms0 !! i = Some m → config p = config (block_pool c0) → I i p free →
    mgr_inv reserved ext (mkKV p m) free → group_pre (Z.of_nat i) (mkKV p m) id →
    wp (body i) (λ a s', ∃ row' free', mgr_inv reserved ext s' free' ∧
       group_post (mkKV p m) s' id row' ∧ R i m (kv_mgr s') a ∧ I (S i) (kv_pool s') free') (mkKV p m).

Lemma collect_managers_from (Hbody : group_op_ok) n : ∀ k c free,
  (k + n = length ms0)%nat → coord_inv c free → coord_same c0 c →
  (∀ i, (k ≤ i)%nat → single_type_managers c !! i = ms0 !! i) → I k (block_pool c) free →
  wp (collect (seq k n) (λ i, on_manager i (body i)))
    (λ as_ c', ∃ free', coord_inv c' free' ∧ coord_same c0 c' ∧ I (length ms0) (block_pool c') free' ∧
       length as_ = n ∧ (∀ i, (i < k)%nat → single_type_managers c' !! i = single_type_managers c !! i) ∧
       ∀ j m, (j < n)%nat → ms0 !! (k + j)%nat = Some m →
         ∃ m' a, single_type_managers c' !! (k + j)%nat = Some m' ∧ as_ !! j = Some a ∧
           mgr_frame id m m' ∧ R (k + j) m m' a) c.
Proof.
  induction n as [|n IH]; intros k c free Hkn Hi Hsame Hms HI; cbn [seq collect].
  { apply wp_ret. exists free. replace (length ms0) with k by lia. split_and!; try done. intros; lia. }
  destruct (lookup_lt_is_Some_2 ms0 k) as [m Hm]; [lia|].
  assert (single_type_managers c !! k = Some m) as Hck by by rewrite Hms.
  destruct (coord_manager _ _ _ _ Hi Hck) as [Hmi Hpre].
  wp_prim. eapply wp_on_manager; [done|].
  eapply wp_mono; [eapply Hbody; [done|by apply Hsame|done..]|].
  intros a s' (row' & free' & Hi' & Hpost & HR & HI').
  pose proof (coord_put _ _ _ _ _ _ _ _ Hi Hck Hi' Hpost) as Hi1.
  wp_prim. eapply wp_mono.
  - apply (IH (S k) (put_manager k s' c) free'); try done; [lia| |].
    + etrans; [done|]. pose proof (ms_config _ _ _ _ (gp_step _ _ _ _ Hpost)).
      split_and!; try done. simpl. by rewrite length_insert.
    + intros i Hle. simpl. rewrite list_lookup_insert_ne by lia. apply Hms. lia.
  - intros as_ c' (free2 & Hi2 & Hs2 & HI2 & Hlen & Hlow & Hhigh). wp_prim. exists free2.
    split_and!; try done; [simpl; lia|..].
    + intros i Hlt. rewrite Hlow by lia. simpl. by rewrite list_lookup_insert_ne by lia.
    + intros [|j] mj Hj Hmj.
      * rewrite Nat.add_0_r in *. exists (kv_mgr s'), a. assert (mj = m) as -> by congruence.
        destruct Hpost as [[_ Hmc _ Hro Hco] _ _ _ _].
        split_and!; [|done|by split|done].
        rewrite Hlow by lia. simpl. rewrite list_lookup_insert_eq; [done|].
        by eapply lookup_lt_Some.
      * replace (k + S j)%nat with (S k + j)%nat in * by lia. apply Hhigh; [lia|done].
Qed.

Lemma collect_managers_ok free :
  coord_inv c0 free → I 0 (block_pool c0) free → group_op_ok →
  wp (collect_managers body)
    (λ as_ c', ∃ free', coord_inv c' free' ∧ coord_same c0 c' ∧ I (length ms0) (block_pool c') free' ∧
       length as_ = length ms0 ∧
       ∀ i m, ms0 !! i = Some m →
         ∃ m' a, single_type_managers c' !! i = Some m' ∧ as_ !! i = Some a ∧ mgr_frame id m m' ∧ R i m m' a) c0.
Proof.
  intros Hi HI Hbody. unfold collect_managers. wp_prim. wp_prim.
  eapply wp_mono; [by eapply (collect_managers_from Hbody _ 0 c0)|].
  intros as_ c' (free' & ? & ? & ? & ? & _ & Hall). exists free'. split_and!; try done.
  intros i m Hm. apply Hall; [by eapply lookup_lt_Some|done].
Qed.
End Loop.

Lemma for_managers_ok body id c0 R I free :
  coord_inv c0 free → I 0%nat (block_pool c0) free → group_op_ok body id c0 (λ i m m' _, R i m m') I →
  wp (for_managers body)
    (λ _ c', ∃ free', coord_inv c' free' ∧ coord_same c0 c' ∧
       I (length (single_type_managers c0)) (block_pool c') free' ∧
       ∀ i m, single_type_managers c0 !! i = Some m →
         ∃ m', single_type_managers c' !! i = Some m' ∧ mgr_frame id m m' ∧ R i m m') c0.
Proof.
  intros Hi HI Hbody. unfold for_managers. wp_prim. wp_prim. apply wp_for_collect.
  pose proof (collect_managers_ok _ _ _ _ _ _ Hi HI Hbody) as Hc. unfold collect_managers in Hc.
  unfold wp, mbind, M_bind, gets in Hc. unfold wp.
  destruct (collect _ _ c0) as [[as_|e] c']; [|done].
  destruct Hc as (free' & ? & ? & ? & _ & Hall). exists free'. split_and!; try done.
  intros i m Hm. destruct (Hall i m Hm) as (m' & [] & ? & _ & ? & ?). by exists m'.
Qed.
End CoordInvariant.
