(* ===== verification/CoordOps.v ===== *)
(** * The operations of the coordinator keep its invariant

    For groups of the classes [standard_spec] covers: the operations of
    vllm/v1/core/kv_cache_coordinator.py run without an exception when the free queue
    holds the blocks they need, and they take exactly as many blocks as
    [get_num_blocks_to_allocate] predicts. *)

From S2P Require Import Prelude FreeQueue Request BlockHash BlockPool KVSpec CacheHit SingleType Accounting Coordinator CoordInv.

#[local] Set Default Proof Using "Type*".

Lemma standard_not_mamba s : standard_spec s = true → is_mamba s = false ∧ is_cross s = false.
Proof. by destruct s. Qed.

Section CoordOps.
Context {E : Env} (reserved : list ref).
Implicit Types (c : Coordinator) (p : BlockPool) (m : Manager) (s : KV) (free : list ref) (id : string).
Abbreviation cinv := (coord_inv reserved).
Abbreviation ms_of c := (single_type_managers c).

(** ** Giving blocks back *)

Lemma coord_remove_skipped_ok c free id tokens :
  cinv c free →
  wp (coord_remove_skipped_blocks id tokens)
    (λ _ c', ∃ more, cinv c' (free ++ more) ∧ coord_same c c' ∧
       (∀ i, bhash (block_pool c') (Blk i) = bhash (block_pool c) (Blk i)) ∧
       ∀ i m, ms_of c !! i = Some m → ∃ m', ms_of c' !! i = Some m' ∧ mgr_frame id m m' ∧
         length (blocks_of m' id) = length (blocks_of m id) ∧ num_cached_block m' = num_cached_block m ∧
         (∀ j, skipped_blocks m tokens ≤ Z.of_nat j → blocks_of m' id !! j = blocks_of m id !! j) ∧
         (∀ j r, blocks_of m' id !! j = Some r → r = Blk 0 ∨ blocks_of m id !! j = Some r)) c.
Proof.
  intros Hi. eapply wp_mono.
  - apply (for_managers_ok reserved _ id c
      (λ _ m m', length (blocks_of m' id) = length (blocks_of m id) ∧
         num_cached_block m' = num_cached_block m ∧
         (∀ j, skipped_blocks m tokens ≤ Z.of_nat j → blocks_of m' id !! j = blocks_of m id !! j) ∧
         (∀ j r, blocks_of m' id !! j = Some r → r = Blk 0 ∨ blocks_of m id !! j = Some r))
      (λ _ p free', (∃ more, free' = free ++ more) ∧
         ∀ i, bhash p (Blk i) = bhash (block_pool c) (Blk i)) free Hi);
      [by split; [exists []; rewrite app_nil_r|]|].
    intros i m ext p free1 Hm Hcfg [(more & ->) Hbh] Hmi Hpre.
    destruct (standard_not_mamba _ (mt_spec _ _ _ (gr_static _ _ _ Hpre))) as [Hnm _]. simpl in Hnm.
    unfold remove_skipped_blocks. wp_mgr. rewrite Hnm.
    eapply wp_mono; [by eapply group_remove_skipped|].
    intros [] s' (row' & rem & Hi' & Hpost & Hlen & Hnc & Hh & Hsame & Hat).
    exists row', ((free ++ more) ++ rem). rewrite (ms_row _ _ _ _ (gp_step _ _ _ _ Hpost)).
    split_and!; try done; [exists (more ++ rem); by rewrite app_assoc|].
    intros j. rewrite Hh. apply Hbh.
  - intros [] c' (free' & Hi' & Hs & [(more & ->) Hbh] & Hall). by exists more.
Qed.

Lemma coord_free_ok c free0 id :
  cinv c free0 →
  wp (coord_free id)
    (λ _ c', ∃ more, cinv c' (free0 ++ more) ∧ coord_same c c' ∧
       ∀ i m, ms_of c !! i = Some m → ∃ m', ms_of c' !! i = Some m' ∧ mgr_frame id m m' ∧
         req_to_blocks m' !! id = None ∧ num_cached_block m' !! id = None) c.
Proof.
  intros Hi. eapply wp_mono.
  - apply (for_managers_ok reserved _ id c
      (λ _ m m', req_to_blocks m' !! id = None ∧ num_cached_block m' !! id = None)
      (λ _ _ free', ∃ more, free' = free0 ++ more) free0 Hi); [by exists []; rewrite app_nil_r|].
    intros i m ext p free1 Hm Hcfg (more & ->) Hmi Hpre.
    eapply wp_mono; [by eapply group_free|].
    intros [] s' (Hi' & Hpost & Hr & Hnc). eexists _, _. split_and!; try done.
    eexists. by rewrite <- app_assoc.
  - intros [] c' (free' & Hi' & Hs & (more & ->) & Hall). by exists more.
Qed.

(** ** Reading *)

Lemma collect_managers_read {A} (body : nat → M KV A) (f : nat → Manager → A) c :
  (∀ i m, ms_of c !! i = Some m →
     wp (body i) (λ a s', s' = mkKV (block_pool c) m ∧ a = f i m) (mkKV (block_pool c) m)) →
  wp (collect_managers body) (λ as_ c', c' = c ∧ as_ = imap f (ms_of c)) c.
Proof.
  intros Hbody. unfold collect_managers. wp_prim. wp_prim.
  assert (∀ n k, (k + n = length (ms_of c))%nat →
    wp (collect (seq k n) (λ i, on_manager i (body i)))
      (λ as_ c', c' = c ∧ as_ = imap (λ i, f (k + i)%nat) (drop k (ms_of c))) c) as Hall.
  { induction n as [|n IH]; intros k Hk; cbn [seq collect].
    - apply wp_ret. by rewrite drop_ge by lia.
    - destruct (lookup_lt_is_Some_2 (ms_of c) k) as [m Hm]; [lia|].
      wp_prim. eapply wp_on_manager; [done|]. eapply wp_mono; [by apply Hbody|].
      intros a s' [-> ->]. assert (put_manager k (mkKV (block_pool c) m) c = c) as ->.
      { destruct c. unfold put_manager. simpl in *. by rewrite list_insert_id. }
      wp_prim. eapply wp_mono; [apply (IH (S k)); lia|]. intros as_ c' [-> ->]. wp_prim. split; [done|].
      rewrite (drop_S _ m k Hm). simpl. rewrite Nat.add_0_r. f_equal. apply imap_ext.
      intros i x _. simpl. f_equal. lia. }
  eapply wp_mono; [by apply (Hall _ 0%nat)|]. intros as_ c' [-> ->]. by rewrite drop_0.
Qed.
(** ** A request that holds nothing yet *)

Definition fresh c id : Prop :=
  ∀ i m, ms_of c !! i = Some m → num_cached_block m !! id = None ∧ blocks_of m id = [].

(** The blocks of a prefix-cache hit: for every group a row of blocks that carry
    hashes of this group, and null blocks. *)
Record legal_hits c (l : list (list ref)) : Prop := {
  lh_len : length l = length (ms_of c);
  lh_row i bs : l !! i = Some bs → row_ok (block_pool c) bs;
  lh_hit i bs r : l !! i = Some bs → r ∈ bs → valid (block_pool c) r →
    ∃ h, bhash (block_pool c) r = Some (group_key h (Z.of_nat i));
  lh_off i bs : enable_caching (block_pool c) = false → l !! i = Some bs → bs = [];
  lh_groups : Z.of_nat (length l) ≤ 2 ^ 32
}.

Section Fresh.
Context (l : list (list ref)) (local external : Z).
Abbreviation total := (local + external).

Definition hits_of (i : nat) : list ref := default [] (l !! i).
Definition ext_need (i : nat) m : Z :=
  if 0 <? kept_external m local external
  then cdiv total (m_block_size m) - len (hit_row m total (hits_of i)) else 0.
(** The blocks group [i] takes for the hit and for the external tokens. *)
Definition adopt_cost p (i : nat) m : Z :=
  _get_num_evictable_blocks p (kept_blocks m total (hits_of i)) + ext_need i m.

Definition hits_fit c : Prop :=
  0 ≤ local ∧ 0 ≤ external ∧
  ∀ i m, ms_of c !! i = Some m → len (hits_of i) * m_block_size m ≤ local.

Lemma ext_need_bounds c free i m :
  cinv c free → hits_fit c → ms_of c !! i = Some m →
  0 ≤ ext_need i m ∧ len (hit_row m total (hits_of i)) ≤ cdiv total (m_block_size m) ∧
  0 ≤ skipped_blocks m total.
Proof.
  intros Hi (Hl & He & Hfit) Hm. destruct (ci_static _ _ _ Hi i m Hm) as [Hsp Hb _ _ _].
  destruct (skipped_blocks_bound m total Hsp Hb) as [Hs0 Hs]; [lia|].
  pose proof (cdiv_spec total _ Hb). specialize (Hfit i m Hm).
  assert (len (hit_row m total (hits_of i)) ≤ cdiv total (m_block_size m)).
  { rewrite hit_row_length by done. nia. }
  split_and!; [|done|done]. unfold ext_need. destruct (0 <? _); lia.
Qed.

(** Counting evictable blocks depends on the reference counts of the hit only. *)
Lemma evictable_ext p p' free free' bs :
  pool_wf p free → pool_wf p' free' → config p' = config p → row_ok p bs →
  (∀ r, r ∈ bs → valid p r → rc p' r = rc p r) →
  _get_num_evictable_blocks p' bs = _get_num_evictable_blocks p bs.
Proof.
  intros Hwf Hwf' Hcfg Hok Hrc. unfold _get_num_evictable_blocks. f_equal. apply filter_ext_in.
  intros r Hr. destruct (Hok r Hr) as [->|[Hv _]].
  - rewrite (null_is_null _ _ Hwf), (null_is_null _ _ Hwf'). by split; intros [_ ?].
  - rewrite (valid_is_null _ _ _ Hwf Hv), (valid_is_null _ _ _ Hwf') by by rewrite config_valid.
    specialize (Hrc r Hr Hv). unfold rc in Hrc. by rewrite Hrc.
Qed.

(** The hits of the groups from [k] on are as they were. *)
Definition hits_kept c (k : nat) p : Prop :=
  ∀ j bs r, (k ≤ j)%nat → l !! j = Some bs → r ∈ bs → valid (block_pool c) r →
    rc p r = rc (block_pool c) r ∧ bhash p r = bhash (block_pool c) r.

(** Adopting the hit of group [i] leaves the hits of the later groups alone. *)
Lemma hits_kept_step c i p p1 p' kept :
  legal_hits c l → external = 0 ∨ length (ms_of c) = 1%nat → config p = config (block_pool c) →
  (∀ r, r ∈ kept → r ∈ hits_of i) → hits_kept c i p → touched p p1 kept →
  (external = 0 → taken p1 p' []) → hits_kept c (S i) p'.
Proof.
  intros Hl Hone Hcfg Hsub Hk Hto Htk j bs r Hj Hbs Hr Hv.
  destruct Hone as [H0|H1].
  2: { apply lookup_lt_Some in Hbs. rewrite (lh_len _ _ Hl) in Hbs. lia. }
  destruct (Hk j bs r) as [Hrc Hh]; [lia|done..|].
  assert (r ∉ kept) as Hnk.
  { intros Hin%Hsub. unfold hits_of in Hin. destruct (l !! i) as [bsi|] eqn:Hbi;
      [|by apply not_elem_of_nil in Hin]. simpl in Hin.
    destruct (lh_hit _ _ Hl i bsi r Hbi Hin Hv) as [h1 Hh1].
    destruct (lh_hit _ _ Hl j bs r Hbs Hr Hv) as [h2 Hh2].
    pose proof (lh_groups _ _ Hl). apply lookup_lt_Some in Hbi, Hbs.
    rewrite Hh1 in Hh2. injection Hh2 as Hkey. apply make_block_hash_inj in Hkey; lia. }
  destruct (Htk H0) as [Htr Hth]. destruct Hto as [Hor Hoh].
  destruct (valid_Blk _ _ Hv) as [n ->]. rewrite Htr, Hor, Hrc, occ_nil.
  rewrite (proj1 (occ_not_elem _ _) Hnk). split; [lia|]. rewrite Hth.
  destruct (enable_caching p1); [|by rewrite Hoh]. unfold unhash.
  by rewrite decide_False, Hoh by apply not_elem_of_nil.
Qed.

Lemma coord_adopt_ok c free id :
  let cost := imap (adopt_cost (block_pool c)) (ms_of c) in
  cinv c free → fresh c id → legal_hits c l → hits_fit c →
  external = 0 ∨ length (ms_of c) = 1%nat → sumZ cost ≤ len free →
  wp (coord_allocate_new_computed_blocks id l local external)
    (λ _ c', ∃ free', cinv c' free' ∧ coord_same c c' ∧ len free' = len free - sumZ cost ∧
       ∀ i m, ms_of c !! i = Some m → ∃ m', ms_of c' !! i = Some m' ∧ mgr_frame id m m' ∧
         len (blocks_of m' id) = len (hit_row m total (hits_of i)) + ext_need i m ∧
         num_cached m' id = len (hit_row m total (hits_of i))) c.
Proof.
  intros cost Hi Hfresh Hl Hfit Hone Hsum.
  assert (Hcost : Forall (λ x, 0 ≤ x) cost).
  { apply Forall_lookup. intros i x Hx. unfold cost in Hx. rewrite list_lookup_imap in Hx.
    apply fmap_Some in Hx as (m & Hm & ->). destruct (ext_need_bounds c free i m Hi Hfit Hm).
    unfold adopt_cost. pose proof (evictable_nonneg (block_pool c) (kept_blocks m total (hits_of i))). lia. }
  eapply wp_mono.
  - apply (for_managers_ok reserved _ id c
      (λ i m m', len (blocks_of m' id) = len (hit_row m total (hits_of i)) + ext_need i m ∧
         num_cached m' id = len (hit_row m total (hits_of i)))
      (λ i p free', len free' = len free - sumZ (take i cost) ∧ hits_kept c i p) free Hi).
    { rewrite take_0. split; [unfold sumZ; simpl; lia|]. by intros j bs r. }
    intros i m ext p free1 Hm Hcfg [Hlen Hk] Hmi Hpre.
    destruct (standard_not_mamba _ (mt_spec _ _ _ (gr_static _ _ _ Hpre))) as [_ Hnc]. simpl in Hnc.
    destruct (ext_need_bounds c free i m Hi Hfit Hm) as (He0 & Hle & Hs0).
    destruct (Hfresh i m Hm) as [Hfc Hfr].
    assert (l !! i = Some (hits_of i)) as Hli.
    { unfold hits_of. destruct (l !! i) eqn:Hx; [done|]. apply lookup_ge_None in Hx.
      rewrite (lh_len _ _ Hl) in Hx. apply lookup_lt_Some in Hm. lia. }
    set (kept := kept_blocks m total (hits_of i)).
    assert (Hok : row_ok (block_pool c) (hits_of i)) by by eapply lh_row.
    assert (_get_num_evictable_blocks p kept = _get_num_evictable_blocks (block_pool c) kept) as Hev.
    { eapply evictable_ext; [apply Hi|apply Hmi|done|by apply kept_blocks_ok|].
      intros r Hr Hv. apply (Hk i (hits_of i) r); [lia|done|by eapply kept_blocks_in|done]. }
    assert (Hhash : ∀ r, r ∈ hits_of i → valid p r → bhash p r ≠ None).
    { intros r Hr Hv. rewrite config_valid in Hv by done. destruct (Hk i (hits_of i) r) as [_ ->]; [lia|done..|].
      destruct (lh_hit _ _ Hl i _ r Hli Hr Hv) as [h ->]. done. }
    assert (row_ok p (hits_of i)) as Hokp by (eapply row_ok_config; [|done]; done).
    assert (len (without free1 kept) = len free1 - _get_num_evictable_blocks (block_pool c) kept) as Hwl.
    { rewrite <- Hev. eapply evictable_without; [apply Hmi|by apply kept_blocks_ok|].
      intros r Hr Hres. destruct (mi_pool _ _ _ _ Hmi) as [_ Href].
      destruct (ro_reserved _ _ _ Href r Hres) as [Hv Hb]. eapply Hhash; [by eapply kept_blocks_in|done|done]. }
    assert (sumZ (take (S i) cost) = sumZ (take i cost) + adopt_cost (block_pool c) i m) as HS.
    { apply sumZ_take_S. unfold cost. by rewrite list_lookup_imap, Hm. }
    pose proof (sumZ_take_le cost (S i) Hcost) as Hbound. unfold adopt_cost in HS. fold kept in HS.
    wp_prim. eapply wp_or_raise; [exact Hli|].
    unfold allocate_new_computed_blocks. wp_mgr. rewrite Hnc.
    eapply wp_mono; [eapply (group_adopt reserved ext (Z.of_nat i) (mkKV p m)); try done|].
    + simpl. intros Hoff. eapply lh_off; [done| |exact Hli].
      destruct (ci_static _ _ _ Hi i m Hm) as [_ _ Hcc _ _]. congruence.
    + simpl. fold (ext_need i m) kept. rewrite Hwl. lia.
    + cbn [kv_mgr kv_pool]. fold (ext_need i m) kept. intros [] s' (p1 & Hi' & Hpost & Hnc' & Hc1 & Hto & Htk).
      eexists _, _. split; [exact Hi'|]. split; [exact Hpost|]. split_and!.
      * rewrite (ms_row _ _ _ _ (gp_step _ _ _ _ Hpost)), len_app. unfold len at 2.
        rewrite length_take. unfold len in *. lia.
      * done.
      * unfold len at 1. rewrite length_drop. unfold len in *. lia.
      * eapply hits_kept_step; [done..|by apply kept_blocks_in|done|exact Hto|].
        intros H0. assert (ext_need i m = 0) as Hz; [|by rewrite Hz in Htk].
        unfold ext_need. destruct (Z.ltb_spec 0 (kept_external m local external)) as [Hlt|]; [|done].
        unfold kept_external in Hlt. destruct (0 <? skipped_blocks m total); lia.
  - intros [] c' (free' & Hi' & Hs & [Hlen _] & Hall). exists free'. split_and!; try done.
    rewrite Hlen, take_ge; [done|]. unfold cost. by rewrite length_imap.
Qed.
(** The prediction for a request that holds nothing yet: what adopting the hit costs,
    and the rest. *)
Definition rest_need (tokens : Z) (i : nat) m : Z :=
  Z.max 0 (cdiv tokens (m_block_size m) - len (hit_row m total (hits_of i)) - ext_need i m).

Lemma coord_predict_fresh c free id tokens enc main :
  cinv c free → fresh c id → legal_hits c l → hits_fit c → total ≤ tokens →
  wp (coord_get_num_blocks_to_allocate id tokens l enc total main false)
    (λ n c', c' = c ∧
       n = sumZ (imap (adopt_cost (block_pool c)) (ms_of c)) + sumZ (imap (rest_need tokens) (ms_of c))) c.
Proof.
  intros Hi Hfresh Hl Hfit Htok. unfold coord_get_num_blocks_to_allocate. wp_prim.
  eapply wp_mono; [apply (collect_managers_read _
    (λ i m, adopt_cost (block_pool c) i m + rest_need tokens i m))|].
  - intros i m Hm. destruct (ci_static _ _ _ Hi i m Hm) as [Hsp Hb _ _ _].
    destruct (standard_not_mamba _ Hsp) as [Hnm Hnc].
    destruct (ext_need_bounds c free i m Hi Hfit Hm) as (He0 & Hle & Hs0).
    destruct (Hfresh i m Hm) as [Hfc Hfr].
    wp_mgr. rewrite Hnc. wp_prim. apply (wp_or_raise _ _ (hits_of i)).
    { unfold hits_of. destruct (l !! i) eqn:Hx; [done|]. apply lookup_ge_None in Hx.
      rewrite (lh_len _ _ Hl) in Hx. apply lookup_lt_Some in Hm. lia. }
    unfold get_num_blocks_to_allocate. wp_mgr. rewrite Hnm.
    eapply wp_mono; [by apply (predict_fresh (mkKV (block_pool c) m))|].
    intros n s' [-> ->]. split; [done|]. cbn [kv_mgr kv_pool].
    unfold adopt_cost, rest_need. pose proof (cdiv_le _ _ _ Hb Htok).
    assert (ext_need i m ≤ cdiv total (m_block_size m) - len (hit_row m total (hits_of i))).
    { unfold ext_need. destruct (0 <? _); lia. }
    lia.
  - intros ns c' [-> ->]. wp_prim. split; [done|]. apply sumZ_imap_add.
Qed.
End Fresh.

(** ** A request that is running *)

(** The request's blocks cover its computed tokens. *)
Definition covered c id (computed : Z) : Prop :=
  0 ≤ computed ∧ ∀ i m, ms_of c !! i = Some m → computed ≤ len (blocks_of m id) * m_block_size m.

Definition grow_need id (tokens : Z) m : Z :=
  Z.max 0 (cdiv tokens (m_block_size m) - len (blocks_of m id)).

Lemma coord_predict_running c free id computed tokens enc main n :
  cinv c free → covered c id computed → n = length (ms_of c) →
  wp (coord_get_num_blocks_to_allocate id tokens (replicate n []) enc computed main false)
    (λ n c', c' = c ∧ n = sumZ (grow_need id tokens <$> ms_of c)) c.
Proof.
  intros Hi [Hc0 Hcov] ->. unfold coord_get_num_blocks_to_allocate. wp_prim.
  eapply wp_mono; [apply (collect_managers_read _ (λ _ m, grow_need id tokens m))|].
  - intros i m Hm. destruct (ci_static _ _ _ Hi i m Hm) as [Hsp Hb _ _ _].
    destruct (standard_not_mamba _ Hsp) as [Hnm Hnc].
    destruct (skipped_blocks_bound m computed Hsp Hb Hc0) as [Hs0 Hs]. specialize (Hcov i m Hm).
    wp_mgr. rewrite Hnc. wp_prim. apply (wp_or_raise _ _ []).
    { apply lookup_replicate. split; [done|]. by eapply lookup_lt_Some. }
    unfold get_num_blocks_to_allocate. wp_mgr. rewrite Hnm.
    eapply wp_mono; [apply (predict_running (mkKV (block_pool c) m)); simpl; nia|].
    intros n s' [-> ->]. done.
  - intros ns c' [-> ->]. wp_prim. split; [done|]. f_equal. clear. generalize (ms_of c).
    intros ms. apply (imap_const (grow_need id tokens)).
Qed.

(** ** New blocks *)

Lemma coord_allocate_ok c free id tokens main enc :
  let need := grow_need id tokens <$> ms_of c in
  cinv c free → sumZ need ≤ len free →
  wp (coord_allocate_new_blocks id tokens main enc)
    (λ new c', ∃ free', cinv c' free' ∧ coord_same c c' ∧ len free' = len free - sumZ need ∧
       length new = length (ms_of c) ∧
       ∀ i m, ms_of c !! i = Some m → ∃ m' bs, ms_of c' !! i = Some m' ∧ new !! i = Some bs ∧
         mgr_frame id m m' ∧ blocks_of m' id = blocks_of m id ++ bs ∧ len bs = grow_need id tokens m ∧
         num_cached_block m' = num_cached_block m) c.
Proof.
  intros need Hi Hsum.
  assert (Hneed : Forall (λ x, 0 ≤ x) need).
  { apply Forall_fmap, Forall_true. intros m. unfold grow_need. simpl. lia. }
  eapply wp_mono.
  - apply (collect_managers_ok reserved _ id c
      (λ i m m' bs, blocks_of m' id = blocks_of m id ++ bs ∧ len bs = grow_need id tokens m ∧
         num_cached_block m' = num_cached_block m)
      (λ i _ free', len free' = len free - sumZ (take i need)) free Hi);
      [rewrite take_0; unfold sumZ; simpl; lia|].
    intros i m ext p free1 Hm Hcfg Hlen Hmi Hpre.
    destruct (standard_not_mamba _ (mt_spec _ _ _ (gr_static _ _ _ Hpre))) as [Hnm Hnc]. simpl in Hnm, Hnc.
    assert (sumZ (take (S i) need) = sumZ (take i need) + grow_need id tokens m) as HS.
    { apply sumZ_take_S. unfold need. by rewrite list_lookup_fmap, Hm. }
    pose proof (sumZ_take_le need (S i) Hneed) as Hbound.
    assert (0 ≤ grow_need id tokens m) by (unfold grow_need; lia).
    wp_mgr. rewrite Hnc. unfold allocate_new_blocks. wp_mgr. rewrite Hnm.
    eapply wp_mono; [eapply (group_allocate reserved ext (Z.of_nat i) (mkKV p m)); try done|].
    + simpl. fold (grow_need id tokens m). lia.
    + cbn [kv_mgr kv_pool]. fold (grow_need id tokens m). intros bs s' (-> & Hi' & Hpost & Hnc').
      eexists _, _. split; [exact Hi'|]. split; [exact Hpost|].
      split_and!; [apply (ms_row _ _ _ _ (gp_step _ _ _ _ Hpost))| |done|].
      * unfold len in *. rewrite length_take. lia.
      * unfold len in *. rewrite length_drop. lia.
  - intros new c' (free' & Hi' & Hs & Hlen & Hln & Hall). exists free'. split_and!; try done.
    rewrite Hlen, take_ge; [done|]. unfold need. by rewrite length_fmap.
Qed.

(** ** Caching full blocks *)

Lemma coord_cache_ok c free request num_tokens :
  let id := request_id request in
  cinv c free → enable_caching (block_pool c) = true → 0 ≤ num_tokens →
  num_tokens / hash_block_size (block_pool c) ≤ len (block_hashes request) →
  (∀ i m, ms_of c !! i = Some m → num_tokens / m_block_size m ≤ len (blocks_of m id)) →
  wp (coord_cache_blocks request num_tokens)
    (λ _ c', cinv c' free ∧ coord_same c c' ∧
       ∀ i m, ms_of c !! i = Some m → ∃ m', ms_of c' !! i = Some m' ∧ mgr_frame id m m' ∧
         blocks_of m' id = blocks_of m id ∧
         num_cached m' id = Z.max (num_cached m id) (num_tokens / m_block_size m)) c.
Proof.
  intros id Hi He Hn Hhs Hlen. eapply wp_mono.
  - apply (for_managers_ok reserved _ id c
      (λ i m m', blocks_of m' id = blocks_of m id ∧
         num_cached m' id = Z.max (num_cached m id) (num_tokens / m_block_size m))
      (λ i _ free', free' = free) free Hi); [done|].
    intros i m ext p free1 Hm Hcfg -> Hmi Hpre.
    destruct (standard_not_mamba _ (mt_spec _ _ _ (gr_static _ _ _ Hpre))) as [Hnm Hnc]. simpl in Hnm, Hnc.
    assert (enable_caching p = enable_caching (block_pool c) ∧ hash_block_size p = hash_block_size (block_pool c))
      as [Hpe Hph] by (unfold config in Hcfg; split; congruence).
    unfold cache_blocks. wp_mgr. rewrite Hnm, Hnc.
    eapply wp_mono; [eapply (group_cache reserved ext (Z.of_nat i) (mkKV p m)); try done|].
    + simpl. congruence.
    + simpl. by rewrite Hph.
    + by apply (Hlen i).
    + intros [] s' (Hi' & Hpost & Hnc'). eexists _, _. split; [exact Hi'|]. split; [exact Hpost|].
      split_and!; [apply (ms_row _ _ _ _ (gp_step _ _ _ _ Hpost))|done|done].
  - intros [] c' (free' & Hi' & Hs & -> & Hall). done.
Qed.
End CoordOps.
