(* ===== verification/KVManager.v ===== *)
(** * The KV-cache manager

    vllm/v1/core/kv_cache_manager.py, the interface between the scheduler and the
    coordinator, with the prefix-cache statistics of vllm/v1/metrics/stats.py it
    keeps. *)

From Stdlib Require Import QArith.
From S2P Require Import Prelude FreeQueue Request BlockHash BlockPool KVSpec CacheHit SingleType Coordinator.

#[local] Open Scope Z_scope.

(** ** [PrefixCacheStats] and its base class *)

Record PrefixCacheStats := mkPrefixCacheStats {
  stats_reset : bool;
  requests : Z;
  queries : Z;
  hits : Z;
  preempted_requests : Z;
  preempted_queries : Z;
  preempted_hits : Z
}.

Definition new_stats : PrefixCacheStats := mkPrefixCacheStats false 0 0 0 0 0 0.

Definition record (num_tokens num_hits : Z) (preempted : bool) (s : PrefixCacheStats) : PrefixCacheStats :=
  if preempted then
    mkPrefixCacheStats (stats_reset s) (requests s) (queries s) (hits s)
      (preempted_requests s + 1) (preempted_queries s + num_tokens) (preempted_hits s + num_hits)
  else
    mkPrefixCacheStats (stats_reset s) (requests s + 1) (queries s + num_tokens) (hits s + num_hits)
      (preempted_requests s) (preempted_queries s) (preempted_hits s).

Definition mark_reset (s : PrefixCacheStats) : PrefixCacheStats :=
  mkPrefixCacheStats true (requests s) (queries s) (hits s)
    (preempted_requests s) (preempted_queries s) (preempted_hits s).

(** ** [KVCacheBlocks]

    The manager hands out one shared object without blocks, [empty_kv_cache_blocks],
    and [allocate_slots] tests for that object by identity: [EmptyBlocks] is it, and
    [Blocks l] any other object. *)
Inductive KVCacheBlocks :=
  | EmptyBlocks
  | Blocks (blocks : list (list ref)).

Section BlocksOps.
(** The number of groups, the length of [empty_kv_cache_blocks.blocks]. *)
Context (num_kv_cache_groups : nat).

Definition blocks_list (b : KVCacheBlocks) : list (list ref) :=
  match b with
  | EmptyBlocks => replicate num_kv_cache_groups []
  | Blocks l => l
  end.

(** [__add__]: [zip] stops at the shorter operand. *)
Definition blocks_add (a b : KVCacheBlocks) : KVCacheBlocks :=
  Blocks (zip_with app (blocks_list a) (blocks_list b)).

Definition get_block_ids (p : BlockPool) (allow_none : bool) (b : KVCacheBlocks) : option (list (list Z)) :=
  if allow_none && forallb (λ group, len group =? 0) (blocks_list b) then None
  else Some ((λ group : list ref, id_of p <$> group) <$> blocks_list b).

Definition get_unhashed_block_ids (p : BlockPool) (b : KVCacheBlocks) : result (list Z) :=
  match blocks_list b with
  | [group] => Ok (id_of p <$> filter (λ r, _block_hash (hp p !!! r) = None) group)
  | _ => Raise AssertionError
  end.

Definition get_unhashed_block_ids_all_groups (p : BlockPool) (b : KVCacheBlocks) : list (list Z) :=
  (λ group : list ref, id_of p <$>
     filter (λ r, _block_hash (hp p !!! r) = None ∧ is_null (hp p !!! r) = false) group) <$> blocks_list b.

Definition new_empty (b : KVCacheBlocks) : KVCacheBlocks := Blocks ((λ _, []) <$> blocks_list b).

(** [create_kv_cache_blocks] *)
Definition create_kv_cache_blocks (blocks : list (list ref)) : KVCacheBlocks :=
  if existsb (λ group, negb (len group =? 0)) blocks then Blocks blocks else EmptyBlocks.
End BlocksOps.

(** ** [KVCacheManager]

    Its [block_pool] and [kv_cache_config] are the coordinator's. *)
Record KVCacheManager := mkKVCacheManager {
  k_max_model_len : Z;
  k_enable_caching : bool;
  k_use_eagle : bool;
  log_stats : bool;
  prefix_cache_stats : option PrefixCacheStats;
  coordinator : Coordinator;
  num_kv_cache_groups : nat
}.

Definition set_prefix_cache_stats (v : option PrefixCacheStats) (k : KVCacheManager) : KVCacheManager :=
  mkKVCacheManager (k_max_model_len k) (k_enable_caching k) (k_use_eagle k) (log_stats k) v
    (coordinator k) (num_kv_cache_groups k).
Definition set_coordinator (v : Coordinator) (k : KVCacheManager) : KVCacheManager :=
  mkKVCacheManager (k_max_model_len k) (k_enable_caching k) (k_use_eagle k) (log_stats k)
    (prefix_cache_stats k) v (num_kv_cache_groups k).

Section Manager.
Context {E : Env}.
Abbreviation MKV := (M KVCacheManager).

Definition on_coord {A} : M Coordinator A → MKV A := zoom coordinator set_coordinator.
Definition on_block_pool {A} (o : M BlockPool A) : MKV A :=
  on_coord (zoom block_pool set_block_pool o).
Definition k_pool (k : KVCacheManager) : BlockPool := block_pool (coordinator k).

Definition kv_cache_manager_init (config : KVCacheConfig) (max_model_len hash_bs : Z)
    (max_num_batched_tokens : option Z) (enable_caching use_eagle log_stats enable_kv_cache_events : bool)
    (dcp pcp : Z) (metrics : option KVCacheMetricsCollector) : result KVCacheManager :=
  let max_num_batched_tokens := default max_model_len max_num_batched_tokens in
  match get_kv_cache_coordinator config max_model_len max_num_batched_tokens use_eagle enable_caching
          enable_kv_cache_events dcp pcp hash_bs metrics with
  | Raise e => Raise e
  | Ok c => Ok (mkKVCacheManager max_model_len enable_caching use_eagle log_stats
                  (if log_stats then Some new_stats else None) c (length (kv_cache_groups config)))
  end.

Definition usage (k : KVCacheManager) : Q := get_usage (k_pool k).

Definition make_prefix_cache_stats : MKV (option PrefixCacheStats) :=
  k ← gets id;
  if negb (log_stats k) then mret None
  else
    _ ← modify (set_prefix_cache_stats (Some new_stats));
    mret (prefix_cache_stats k).

Definition get_computed_blocks (request : Request) : MKV (KVCacheBlocks * Z) :=
  k ← gets id;
  if negb (k_enable_caching k) || skip_reading_prefix_cache request then mret (EmptyBlocks, 0)
  else
    let max_cache_hit_length := num_tokens request - 1 in
    match coord_find_longest_cache_hit (coordinator k) (block_hashes request) max_cache_hit_length with
    | Raise e => raise e
    | Ok (computed_blocks, num_new_computed_tokens) =>
        _ ← (if log_stats k then
               stats ← or_raise AssertionError (prefix_cache_stats k);
               modify (set_prefix_cache_stats
                 (Some (record (num_tokens request) num_new_computed_tokens
                          (0 <? num_preemptions request) stats)))
             else mret tt);
        mret (create_kv_cache_blocks computed_blocks, num_new_computed_tokens)
    end.

(** [new_computed_blocks.blocks], [None] standing for the shared empty object *)
Definition computed_list (k : KVCacheManager) (new_computed_blocks : option KVCacheBlocks) : list (list ref) :=
  blocks_list (num_kv_cache_groups k) (default EmptyBlocks new_computed_blocks).

(** [new_computed_block_list is not self.empty_kv_cache_blocks.blocks] *)
Definition is_shared_empty (new_computed_blocks : option KVCacheBlocks) : bool :=
  match new_computed_blocks with
  | None | Some EmptyBlocks => true
  | Some (Blocks _) => false
  end.

Definition can_fit_full_sequence (request : Request) (num_new_computed_tokens : Z)
    (new_computed_blocks : option KVCacheBlocks) (num_external_computed_tokens num_encoder_tokens : Z) :
    MKV bool :=
  k ← gets id;
  let new_computed_block_list := computed_list k new_computed_blocks in
  let num_local_computed_tokens := num_computed_tokens request + num_new_computed_tokens in
  let total_computed_tokens :=
    Z.min (num_local_computed_tokens + num_external_computed_tokens) (k_max_model_len k) in
  let full_num_tokens := Z.min (num_tokens request) (k_max_model_len k) in
  num_blocks_to_allocate ←
    on_coord (coord_get_num_blocks_to_allocate (request_id request) full_num_tokens new_computed_block_list
                num_encoder_tokens total_computed_tokens full_num_tokens true);
  gets (λ k, num_blocks_to_allocate <=? get_num_free_blocks (k_pool k)).

Definition allocate_slots (request : Request) (num_new_tokens num_new_computed_tokens : Z)
    (new_computed_blocks : option KVCacheBlocks) (num_lookahead_tokens num_external_computed_tokens : Z)
    (delay_cache_blocks : bool) (num_encoder_tokens : Z) : MKV (option KVCacheBlocks) :=
  if (num_new_tokens =? 0) && (num_external_computed_tokens =? 0) then raise ValueError
  else
    k ← gets id;
    let new_computed_block_list := computed_list k new_computed_blocks in
    let num_local_computed_tokens := num_computed_tokens request + num_new_computed_tokens in
    let total_computed_tokens :=
      Z.min (num_local_computed_tokens + num_external_computed_tokens) (k_max_model_len k) in
    let num_tokens_main_model := total_computed_tokens + num_new_tokens in
    let num_tokens_need_slot := Z.min (num_tokens_main_model + num_lookahead_tokens) (k_max_model_len k) in
    _ ← on_coord (coord_remove_skipped_blocks (request_id request) total_computed_tokens);
    num_blocks_to_allocate ←
      on_coord (coord_get_num_blocks_to_allocate (request_id request) num_tokens_need_slot
                  new_computed_block_list num_encoder_tokens
                  (num_local_computed_tokens + num_external_computed_tokens) num_tokens_main_model false);
    num_free ← gets (λ k, get_num_free_blocks (k_pool k));
    if num_free <? num_blocks_to_allocate then mret None
    else
      _ ← (if negb (is_shared_empty new_computed_blocks) || (0 <? num_external_computed_tokens) then
             on_coord (coord_allocate_new_computed_blocks (request_id request) new_computed_block_list
                         num_local_computed_tokens num_external_computed_tokens)
           else mret tt);
      new_blocks ← on_coord (coord_allocate_new_blocks (request_id request) num_tokens_need_slot
                               num_tokens_main_model num_encoder_tokens);
      _ ← (if negb (k_enable_caching k) || delay_cache_blocks then mret tt
           else
             let num_tokens_to_cache := Z.min (total_computed_tokens + num_new_tokens) (num_tokens request) in
             on_coord (coord_cache_blocks request num_tokens_to_cache));
      mret (Some (create_kv_cache_blocks new_blocks)).

Definition kv_free (request : Request) : MKV unit := on_coord (coord_free (request_id request)).

Definition kv_remove_skipped_blocks (request_id : string) (total_computed_tokens : Z) : MKV unit :=
  on_coord (coord_remove_skipped_blocks request_id total_computed_tokens).

Definition kv_evict_blocks (block_ids : list Z) : MKV unit := on_block_pool (evict_blocks block_ids).

Definition kv_reset_prefix_cache : MKV bool :=
  ok ← on_block_pool reset_prefix_cache;
  if negb ok then mret false
  else
    k ← gets id;
    _ ← (if log_stats k then
           stats ← or_raise AssertionError (prefix_cache_stats k);
           modify (set_prefix_cache_stats (Some (mark_reset stats)))
         else mret tt);
    mret true.

Definition kv_get_num_common_prefix_blocks (running_request_id : string) : MKV (list Z) :=
  on_coord (coord_get_num_common_prefix_blocks running_request_id).

Definition kv_take_events : MKV (list KVCacheEvent) := on_block_pool BlockPool.take_events.

Definition get_blocks (k : KVCacheManager) (request_id : string) : KVCacheBlocks :=
  create_kv_cache_blocks (coord_get_blocks (coordinator k) request_id).

Definition kv_get_block_ids (k : KVCacheManager) (request_id : string) : option (list (list Z)) :=
  get_block_ids (num_kv_cache_groups k) (k_pool k) false (get_blocks k request_id).

Definition kv_cache_blocks (request : Request) (num_computed_tokens : Z) : MKV unit :=
  k ← gets id;
  if k_enable_caching k then on_coord (coord_cache_blocks request num_computed_tokens) else mret tt.

Definition kv_take_new_block_ids : MKV (list Z) :=
  ids ← on_coord (collect_managers (λ _, take_new_block_ids));
  mret (concat ids).

Definition kv_new_step_starts : MKV unit := on_coord coord_new_step_starts.
End Manager.
