(* ===== verification/KVSafety.v ===== *)
(** * Safety of the KV-cache manager

    The calls of vllm/v1/core/kv_cache_manager.py that change the cache, under the
    contract the scheduler keeps: no call raises, the reference counts stay exact,
    [allocate_slots] gives a request the blocks it needs or leaves it as it was, and
    no call disturbs another request. *)

From Stdlib Require Import QArith.
From S2P Require Import Prelude FreeQueue Request BlockHash BlockPool KVSpec CacheHit SingleType Accounting Coordinator CoordInv CoordOps KVManager.

#[local] Open Scope Z_scope.
#[local] Set Default Proof Using "Type*".

Section KVSafety.
Context {E : Env} (reserved : list ref).
Implicit Types (k : KVCacheManager) (c : Coordinator) (m : Manager) (free : list ref) (id : string).
Abbreviation cinv := (coord_inv reserved).
Abbreviation ms_of c := (single_type_managers c).
Abbreviation groups k := (single_type_managers (coordinator k)).

Record kv_inv k free : Prop := {
  ki_coord : cinv (coordinator k) free;
  ki_caching : k_enable_caching k = enable_caching (k_pool k);
  ki_groups : num_kv_cache_groups k = length (groups k);
  ki_hash : 0 < hash_block_size (k_pool k);
  ki_stats : log_stats k = true → is_Some (prefix_cache_stats k)
}.

Lemma wp_on_coord {A} (o : M Coordinator A) Q k :
  wp o (λ a c', Q a (set_coordinator c' k)) (coordinator k) → wp (on_coord o) Q k.
Proof. apply wp_zoom. Qed.

Lemma kv_inv_coord k c' free free' :
  kv_inv k free → cinv c' free' → coord_same (coordinator k) c' → kv_inv (set_coordinator c' k) free'.
Proof.
  intros [Hi Hc Hg Hh Hst] Hi' (_ & _ & _ & _ & _ & Hcfg & Hlen). unfold k_pool in *.
  unfold config in Hcfg. injection Hcfg as _ He Hb _ _ _.
  split; unfold k_pool; simpl; try done; congruence.
Qed.

Lemma mgr_frame_refl id m : mgr_frame id m m.
Proof. by split. Qed.

Lemma mgr_frame_trans id m1 m2 m3 : mgr_frame id m1 m2 → mgr_frame id m2 m3 → mgr_frame id m1 m3.
Proof.
  intros [H1 H2 H3] [H4 H5 H6]. split; [congruence|..]; intros id' Hne.
  - by rewrite H5, H2.
  - by rewrite H6, H3.
Qed.

Lemma mgr_frame_block_size id m m' : mgr_frame id m m' → m_block_size m' = m_block_size m.
Proof. intros [Hc _ _]. by apply mconfig_eq in Hc as (_ & ? & _). Qed.

(** ** Taking slots *)

(** Every group's row of [id] now covers [tokens] tokens and ends with the group's
    new blocks. *)
Definition grown id (tokens : Z) c c' (new : list (list ref)) : Prop :=
  length new = length (ms_of c) ∧
  ∀ i m, ms_of c !! i = Some m → ∃ m' bs, ms_of c' !! i = Some m' ∧ new !! i = Some bs ∧
    mgr_frame id m m' ∧ (∃ old, blocks_of m' id = old ++ bs) ∧
    cdiv tokens (m_block_size m) ≤ len (blocks_of m' id).

Lemma grow_ok k c free id tokens main enc :
  kv_inv k free → coordinator k = c → sumZ (grow_need id tokens <$> ms_of c) ≤ len free →
  wp (on_coord (coord_allocate_new_blocks id tokens main enc))
    (λ new k', ∃ free', kv_inv k' free' ∧ k' = set_coordinator (coordinator k') k ∧
       coord_same c (coordinator k') ∧
       len free' = len free - sumZ (grow_need id tokens <$> ms_of c) ∧
       grown id tokens c (coordinator k') new) k.
Proof.
  intros Hk <- Hsum. apply wp_on_coord.
  eapply wp_mono; [eapply coord_allocate_ok; [by eapply ki_coord|done]|].
  intros new c' (free' & Hi' & Hs & Hlen & Hnew & Hall). exists free'. split_and!; try done.
  - by eapply kv_inv_coord.
  - split; [done|]. intros i m Hm. destruct (Hall i m Hm) as (m' & bs & ? & ? & ? & Hrow & Hbs & _).
    exists m', bs. split_and!; try done; [by eexists|]. rewrite Hrow, len_app, Hbs. unfold grow_need. lia.
Qed.

(** A request that holds nothing yet adopts its hit, then grows. *)
Lemma adopt_then_grow_ok k c free id l local external tokens main enc :
  kv_inv k free → coordinator k = c → fresh c id → legal_hits c l → hits_fit l local external c →
  external = 0 ∨ length (ms_of c) = 1%nat → local + external ≤ tokens →
  sumZ (imap (adopt_cost l local external (block_pool c)) (ms_of c)) +
    sumZ (imap (rest_need l local external tokens) (ms_of c)) ≤ len free →
  wp (_ ← on_coord (coord_allocate_new_computed_blocks id l local external);
      on_coord (coord_allocate_new_blocks id tokens main enc))
    (λ new k', ∃ free', kv_inv k' free' ∧ k' = set_coordinator (coordinator k') k ∧
       coord_same c (coordinator k') ∧ grown id tokens c (coordinator k') new) k.
Proof.
  intros Hk <- Hfresh Hl Hfit Hone Htok Hsum. wp_prim. apply wp_on_coord.
  assert (0 ≤ sumZ (imap (rest_need l local external tokens) (groups k))) as Hrest0.
  { apply sumZ_nonneg, Forall_lookup. intros i x Hx. rewrite list_lookup_imap in Hx.
    apply fmap_Some in Hx as (m & _ & ->). unfold rest_need. simpl. lia. }
  eapply wp_mono; [eapply coord_adopt_ok; [by eapply ki_coord|done..|lia]|].
  intros [] c1 (free1 & Hi1 & Hs1 & Hlen1 & Hall1).
  assert (grow_need id tokens <$> ms_of c1 = imap (rest_need l local external tokens) (groups k)) as Hneed.
  { apply list_eq. intros i. rewrite list_lookup_fmap, list_lookup_imap.
    destruct (groups k !! i) as [m|] eqn:Hm.
    - destruct (Hall1 i m Hm) as (m1 & -> & Hf & Hrow & _). simpl. f_equal.
      unfold grow_need, rest_need. rewrite Hrow, (mgr_frame_block_size _ _ _ Hf). lia.
    - destruct Hs1 as (_ & _ & _ & _ & _ & _ & Hsl). apply lookup_ge_None in Hm.
      by rewrite (lookup_ge_None_2 (ms_of c1)) by lia. }
  eapply wp_mono; [eapply (grow_ok _ c1); [by eapply kv_inv_coord|done|rewrite Hneed; lia]|].
  intros new k' (free' & Hk' & Heq & Hs & _ & Hnew & Hgr). exists free'. split_and!; try done.
  - by etrans.
  - split; [rewrite Hnew; by apply Hs1|]. intros i m Hm. destruct (Hall1 i m Hm) as (m1 & Hm1 & Hf1 & _).
    destruct (Hgr i m1 Hm1) as (m' & bs & ? & ? & Hf & ? & Hc). exists m', bs.
    rewrite (mgr_frame_block_size _ _ _ Hf1) in Hc. split_and!; try done. by eapply mgr_frame_trans.
Qed.
(** ** The contract of [allocate_slots] *)

(** A request that is being computed: no new hit, and its blocks cover its tokens. *)
Definition running_call k request (new_computed : Z) (ncb : option KVCacheBlocks) (external : Z) : Prop :=
  is_shared_empty ncb = true ∧ new_computed = 0 ∧ external = 0 ∧
  covered (coordinator k) (request_id request) (num_computed_tokens request).

(** A request that holds nothing yet, with a hit of the prefix cache or tokens the
    connector holds; several groups only without the latter. *)
Definition fresh_call k request (new_computed : Z) (ncb : option KVCacheBlocks) (external : Z) : Prop :=
  let l := computed_list k ncb in
  negb (is_shared_empty ncb) || (0 <? external) = true ∧ num_computed_tokens request = 0 ∧
  fresh (coordinator k) (request_id request) ∧ legal_hits (coordinator k) l ∧
  hits_fit l new_computed external (coordinator k) ∧
  (external = 0 ∨ length (groups k) = 1%nat).

Record slots_call k request (new_tokens new_computed : Z) (ncb : option KVCacheBlocks)
    (lookahead external : Z) : Prop := {
  sc_new : 0 ≤ new_tokens;
  sc_lookahead : 0 ≤ lookahead;
  sc_work : new_tokens ≠ 0 ∨ external ≠ 0;
  sc_total : num_computed_tokens request + new_computed + external ≤ k_max_model_len k;
  sc_tokens : num_tokens request ≤ k_max_model_len k;
  sc_hashes : num_tokens request / hash_block_size (k_pool k) ≤ len (block_hashes request);
  sc_state : running_call k request new_computed ncb external ∨
             fresh_call k request new_computed ncb external
}.

(** What [remove_skipped_blocks] keeps of the contract. *)
Definition trimmed id c c' : Prop :=
  coord_same c c' ∧ (∀ i, bhash (block_pool c') (Blk i) = bhash (block_pool c) (Blk i)) ∧
  ∀ i m', ms_of c' !! i = Some m' → ∃ m, ms_of c !! i = Some m ∧ mgr_frame id m m' ∧
    len (blocks_of m' id) = len (blocks_of m id) ∧ num_cached_block m' = num_cached_block m.

Lemma trimmed_covered id c c' n : trimmed id c c' → covered c id n → covered c' id n.
Proof.
  intros (_ & _ & Ht) [H0 Hc]. split; [done|]. intros i m' Hm'.
  destruct (Ht i m' Hm') as (m & Hm & Hf & -> & _). rewrite (mgr_frame_block_size _ _ _ Hf).
  by apply (Hc i).
Qed.

Lemma trimmed_fresh id c c' : trimmed id c c' → fresh c id → fresh c' id.
Proof.
  intros (_ & _ & Ht) Hfr i m' Hm'. destruct (Ht i m' Hm') as (m & Hm & _ & Hlen & ->).
  destruct (Hfr i m Hm) as [? Hrow]. split; [done|]. rewrite Hrow in Hlen.
  apply nil_length_inv. unfold len in Hlen. simpl in Hlen. lia.
Qed.

Lemma trimmed_hits id c c' l : trimmed id c c' → legal_hits c l → legal_hits c' l.
Proof.
  intros ((_ & _ & _ & _ & _ & Hcfg & Hlen) & Hbh & _) [H1 H2 H3 H4 H5].
  assert (enable_caching (block_pool c') = enable_caching (block_pool c)) as He
    by (unfold config in Hcfg; congruence).
  split; [congruence|..|done].
  - intros i bs Hi. eapply row_ok_config; [done|by eapply H2].
  - intros i bs r Hi Hr Hv. rewrite config_valid in Hv by done. destruct (valid_Blk _ _ Hv) as [j ->].
    rewrite Hbh. by eapply H3.
  - rewrite He. exact H4.
Qed.

Lemma trimmed_fit id c c' l local external :
  trimmed id c c' → hits_fit l local external c → hits_fit l local external c'.
Proof.
  intros (_ & _ & Ht) (? & ? & Hfit). split_and!; [done..|]. intros i m' Hm'.
  destruct (Ht i m' Hm') as (m & Hm & Hf & _). rewrite (mgr_frame_block_size _ _ _ Hf). by apply Hfit.
Qed.

Lemma trim_ok k free id tokens :
  kv_inv k free →
  wp (on_coord (coord_remove_skipped_blocks id tokens))
    (λ _ k', ∃ free', kv_inv k' free' ∧ k' = set_coordinator (coordinator k') k ∧
       trimmed id (coordinator k) (coordinator k')) k.
Proof.
  intros Hk. apply wp_on_coord. eapply wp_mono; [eapply coord_remove_skipped_ok; by eapply ki_coord|].
  intros [] c' (more & Hi' & Hs & Hbh & Hall). exists (free ++ more). split_and!; try done.
  - by eapply kv_inv_coord.
  - split_and!; [done|done|]. intros i m' Hm'. simpl in Hm'.
    destruct (lookup_lt_is_Some_2 (groups k) i) as [m Hm].
    { apply lookup_lt_Some in Hm'. destruct Hs as (_ & _ & _ & _ & _ & _ & Hsl). lia. }
    destruct (Hall i m Hm) as (m2 & Hm2 & Hf & Hl & Hnc & _). assert (m2 = m') as -> by congruence.
    exists m. split_and!; try done. unfold len. lia.
Qed.
Lemma set_coordinator_id k : set_coordinator (coordinator k) k = k.
Proof. by destruct k. Qed.

(** The state of the contract after the skipped blocks are gone. *)
Lemma call_trimmed k k1 request new_computed ncb external :
  k1 = set_coordinator (coordinator k1) k → trimmed (request_id request) (coordinator k) (coordinator k1) →
  running_call k request new_computed ncb external ∨ fresh_call k request new_computed ncb external →
  running_call k1 request new_computed ncb external ∨ fresh_call k1 request new_computed ncb external.
Proof.
  intros Heq Ht [(? & ? & ? & Hc)|(? & ? & Hf & Hl & Hfit & Hone)]; [left|right].
  - split_and!; try done. by eapply trimmed_covered.
  - assert (computed_list k1 ncb = computed_list k ncb) as Hcl.
    { unfold computed_list. by rewrite Heq. }
    unfold fresh_call. rewrite Hcl. split_and!; try done.
    + by eapply trimmed_fresh.
    + by eapply trimmed_hits.
    + by eapply trimmed_fit.
    + destruct Ht as ((_ & _ & _ & _ & _ & _ & ->) & _). done.
Qed.

(** The prediction, and what can be done when it fits. *)
Lemma predict_then_take k free request new_computed ncb external tokens main enc :
  let id := request_id request in
  let local := num_computed_tokens request + new_computed in
  kv_inv k free → local + external ≤ tokens →
  running_call k request new_computed ncb external ∨ fresh_call k request new_computed ncb external →
  ∃ n, wp (on_coord (coord_get_num_blocks_to_allocate id tokens (computed_list k ncb) enc
                       (local + external) main false)) (λ n' k', n' = n ∧ k' = k) k ∧
    (n ≤ len free →
     wp (_ ← (if negb (is_shared_empty ncb) || (0 <? external) then
                on_coord (coord_allocate_new_computed_blocks id (computed_list k ncb) local external)
              else mret tt);
         on_coord (coord_allocate_new_blocks id tokens main enc))
       (λ new k', ∃ free', kv_inv k' free' ∧ k' = set_coordinator (coordinator k') k ∧
          coord_same (coordinator k) (coordinator k') ∧
          grown id tokens (coordinator k) (coordinator k') new) k).
Proof.
  intros id local Hk Htok [(Hse & -> & -> & Hcov)|(Hb & Hnc & Hf & Hl & Hfit & Hone)].
  - exists (sumZ (grow_need id tokens <$> groups k)).
    assert (computed_list k ncb = replicate (num_kv_cache_groups k) []) as Hcl.
    { by destruct ncb as [[]|]. }
    assert (local + 0 = num_computed_tokens request) as Hloc by (unfold local; lia). rewrite Hloc, Hcl.
    split.
    + apply wp_on_coord. eapply wp_mono; [eapply coord_predict_running; [by eapply ki_coord|done|by apply ki_groups with free]|].
      intros n c' [-> ->]. split; [done|apply set_coordinator_id].
    + intros Hn. rewrite Hse. simpl. wp_prim. wp_prim.
      eapply wp_mono; [by eapply grow_ok|]. intros new k' (free' & ? & ? & ? & _ & ?). by exists free'.
  - assert (local = new_computed) as -> by (unfold local; lia).
    eexists. split.
    + apply wp_on_coord. eapply wp_mono; [eapply coord_predict_fresh; by eauto using ki_coord|].
      intros n c' [-> ->]. split; [done|apply set_coordinator_id].
    + intros Hn. rewrite Hb. by eapply adopt_then_grow_ok.
Qed.

Lemma blocks_list_create n new : length new = n → blocks_list n (create_kv_cache_blocks new) = new.
Proof.
  intros <-. unfold create_kv_cache_blocks. destruct (existsb _ new) eqn:Hex; [done|]. simpl.
  induction new as [|g new IH]; [done|]. simpl in *. apply orb_false_iff in Hex as [Hg Hnew].
  apply negb_false_iff, Z.eqb_eq in Hg. rewrite IH by done. f_equal.
  symmetry. apply nil_length_inv. unfold len in Hg. lia.
Qed.

(** The full blocks of a grown request can be cached. *)
Lemma cache_grown_ok k free request n :
  kv_inv k free → k_enable_caching k = true → 0 ≤ n ≤ num_tokens request →
  num_tokens request / hash_block_size (k_pool k) ≤ len (block_hashes request) →
  (∀ i m, groups k !! i = Some m → cdiv n (m_block_size m) ≤ len (blocks_of m (request_id request))) →
  wp (on_coord (coord_cache_blocks request n))
    (λ _ k', kv_inv k' free ∧ k' = set_coordinator (coordinator k') k ∧
       coord_same (coordinator k) (coordinator k') ∧
       ∀ i m, groups k !! i = Some m → ∃ m', groups k' !! i = Some m' ∧ mgr_frame (request_id request) m m' ∧
         blocks_of m' (request_id request) = blocks_of m (request_id request)) k.
Proof.
  intros Hk Hc [H0 Hn] Hh Hrow. pose proof (ki_hash _ _ Hk) as Hhb. apply wp_on_coord.
  pose proof (ki_coord _ _ Hk) as Hi. eapply wp_mono; [eapply coord_cache_ok; try done|].
  - pose proof (ki_caching _ _ Hk) as Hcc. unfold k_pool in Hcc. congruence.
  - etrans; [|exact Hh]. by apply Z.div_le_mono.
  - intros i m Hm. etrans; [|by eapply Hrow]. apply cdiv_div. by eapply ci_static.
  - intros [] c' (Hi' & Hs & Hall). split_and!; try done; [by eapply kv_inv_coord|].
    intros i m Hm. destruct (Hall i m Hm) as (m' & ? & ? & ? & _). by exists m'.
Qed.
Lemma num_free_len k free : kv_inv k free → get_num_free_blocks (k_pool k) = len free.
Proof. intros Hk. destruct (ci_pool _ _ _ (ki_coord _ _ Hk)) as [Hwf _]. apply (qr_num _ _ (pw_queue _ _ Hwf)). Qed.

(** The number of blocks [get_num_blocks_to_allocate] asks for. *)
Definition predicted k request (tokens : Z) ncb (total main enc : Z) : result Z :=
  fst (coord_get_num_blocks_to_allocate (request_id request) tokens (computed_list k ncb) enc total main
         false (coordinator k)).

Lemma predicted_ok k request tokens ncb total main enc n :
  wp (on_coord (coord_get_num_blocks_to_allocate (request_id request) tokens (computed_list k ncb) enc
                  total main false)) (λ n' k', n' = n ∧ k' = k) k →
  predicted k request tokens ncb total main enc = Ok n.
Proof.
  unfold predicted, wp, on_coord, zoom.
  destruct (coord_get_num_blocks_to_allocate _ _ _ _ _ _ _ _) as [[n'|e] c']; [|done]. by intros [-> _].
Qed.

(** Caching what has been allocated, or not. *)
Lemma finish_ok k c0 free request tokens n new (skip : bool) :
  kv_inv k free → (skip = false → k_enable_caching k = true) → 0 ≤ n ≤ num_tokens request → n ≤ tokens →
  num_tokens request / hash_block_size (k_pool k) ≤ len (block_hashes request) →
  grown (request_id request) tokens c0 (coordinator k) new → coord_same c0 (coordinator k) →
  wp (if skip then mret tt else on_coord (coord_cache_blocks request n))
    (λ _ k', kv_inv k' free ∧ k' = set_coordinator (coordinator k') k ∧
       coord_same (coordinator k) (coordinator k') ∧
       grown (request_id request) tokens c0 (coordinator k') new) k.
Proof.
  intros Hk Hskip Hn Htok Hh [Hnew Hgr] Hs. destruct skip.
  { apply wp_ret. split_and!; [done|by rewrite set_coordinator_id|done..]. }
  eapply wp_mono; [eapply cache_grown_ok; [done|by apply Hskip|done|done|]|].
  - intros i m1 Hm1. destruct (lookup_lt_is_Some_2 (ms_of c0) i) as [m Hm].
    { apply lookup_lt_Some in Hm1. destruct Hs as (_ & _ & _ & _ & _ & _ & Hsl). lia. }
    destruct (Hgr i m Hm) as (m2 & bs & Hm2 & _ & Hf & _ & Hc). assert (m2 = m1) as -> by congruence.
    rewrite (mgr_frame_block_size _ _ _ Hf). etrans; [|exact Hc]. apply cdiv_le; [|done].
    rewrite <- (mgr_frame_block_size _ _ _ Hf). eapply ci_static; [by eapply ki_coord|exact Hm2].
  - intros [] k' (Hk' & Heq & Hs' & Hall). split_and!; [done|done|apply Hs'..|split; [done|]].
    intros i m Hm. destruct (Hgr i m Hm) as (m1 & bs & Hm1 & Hbs & Hf & Hold & Hc).
    destruct (Hall i m1 Hm1) as (m' & Hm' & Hf' & Hrow). exists m', bs. rewrite Hrow.
    split_and!; try done. by eapply mgr_frame_trans.
Qed.

Lemma allocate_slots_ok k free request new_tokens new_computed ncb lookahead external delay enc :
  let id := request_id request in
  let total := num_computed_tokens request + new_computed + external in
  let tokens := Z.min (total + new_tokens + lookahead) (k_max_model_len k) in
  kv_inv k free → slots_call k request new_tokens new_computed ncb lookahead external →
  wp (allocate_slots request new_tokens new_computed ncb lookahead external delay enc)
    (λ o k', ∃ free', kv_inv k' free' ∧
       (k' = set_coordinator (coordinator k') k ∧ coord_same (coordinator k) (coordinator k') ∧
        (o = None → trimmed id (coordinator k) (coordinator k'))) ∧
       (o = None → ∃ n, predicted k' request tokens ncb total (total + new_tokens) enc = Ok n ∧ len free' < n) ∧
       ∀ i m, groups k !! i = Some m → ∃ m', groups k' !! i = Some m' ∧ mgr_frame id m m' ∧
         match o with
         | None => len (blocks_of m' id) = len (blocks_of m id)
         | Some b => cdiv tokens (m_block_size m) ≤ len (blocks_of m' id) ∧
             ∃ old bs, blocks_list (num_kv_cache_groups k) b !! i = Some bs ∧ blocks_of m' id = old ++ bs
         end) k.
Proof.
  intros id total tokens Hk [Hnew Hlook Hwork Htot Hnt Hh Hst]. unfold allocate_slots.
  rewrite (proj2 (andb_false_iff _ _)) by (rewrite !Z.eqb_neq; done).
  assert (0 ≤ total) as Htot0.
  { unfold total. destruct Hst as [(_ & -> & -> & [? _])|(_ & -> & _ & _ & (? & ? & _) & _)]; lia. }
  wp_prim. wp_prim. unfold Datatypes.id. rewrite (Z.min_l _ (k_max_model_len k)) by done.
  fold total. fold tokens. wp_prim. eapply wp_mono; [by eapply trim_ok|].
  intros [] k1 (free1 & Hk1 & Heq1 & Ht1). fold id in Ht1.
  pose proof (call_trimmed _ _ _ _ _ _ Heq1 Ht1 Hst) as Hst1.
  assert (computed_list k ncb = computed_list k1 ncb) as -> by (unfold computed_list; by rewrite Heq1).
  destruct (predict_then_take k1 free1 request new_computed ncb external tokens (total + new_tokens) enc Hk1)
    as (n & Hpred & Htake); [unfold tokens, total in *; lia|done|].
  assert (Hback : ∀ i m, groups k !! i = Some m → ∃ m1, groups k1 !! i = Some m1 ∧ mgr_frame id m m1 ∧
    len (blocks_of m1 id) = len (blocks_of m id)).
  { intros i m Hm. destruct Ht1 as ((_ & _ & _ & _ & _ & _ & Hsl) & _ & Hall).
    destruct (lookup_lt_is_Some_2 (groups k1) i) as [m1 Hm1]; [apply lookup_lt_Some in Hm; lia|].
    destruct (Hall i m1 Hm1) as (m' & Hm' & ? & ? & _). assert (m' = m) as -> by congruence. by exists m1. }
  wp_prim. eapply wp_mono; [exact Hpred|]. intros n' k1' [-> ->]. wp_prim. wp_prim.
  rewrite (num_free_len _ _ Hk1). destruct (Z.ltb_spec (len free1) n) as [Hlt|Hge].
  { wp_prim. exists free1. split_and!; [done|done|apply Ht1..|done| |done].
    intros _. exists n. split; [by apply predicted_ok|done]. }
  apply wp_assoc. wp_prim. eapply wp_mono; [by apply Htake|].
  intros new k2 (free2 & Hk2 & Heq2 & Hs2 & Hgr2). wp_prim.
  eapply wp_mono; [eapply (finish_ok k2 (coordinator k1) free2 request tokens); try done|].
  - intros [Hc _]%orb_false_iff. rewrite Heq2, Heq1. simpl. by apply negb_false_iff in Hc.
  - pose proof (len_nonneg (_all_token_ids request)). unfold num_tokens in *. lia.
  - unfold tokens. lia.
  - destruct Hs2 as (_ & _ & _ & _ & _ & Hc2 & _). destruct Ht1 as ((_ & _ & _ & _ & _ & Hc1 & _) & _).
    assert (hash_block_size (k_pool k2) = hash_block_size (k_pool k)) as ->; [|done].
    unfold config in *. unfold k_pool. congruence.
  - intros [] k3 (Hk3 & Heq3 & Hs3 & Hln & Hgr3). wp_prim. exists free2. split; [done|]. split.
    { split; [by rewrite Heq3, Heq2, Heq1|]. split; [|done].
      etrans; [apply Ht1|]. etrans; [apply Hs2|]. apply Hs3. }
    split; [done|].
    intros i m Hm. destruct (Hback i m Hm) as (m1 & Hm1 & Hf1 & _).
    destruct (Hgr3 i m1 Hm1) as (m' & bs & Hm' & Hbs & Hf' & [old Hrow] & Hc).
    rewrite (mgr_frame_block_size _ _ _ Hf1) in Hc. exists m'.
    split_and!; [done|by eapply mgr_frame_trans|done|]. exists old, bs.
    rewrite blocks_list_create; [done|]. rewrite (ki_groups _ _ Hk), Hln. by apply Ht1.
Qed.
End KVSafety.
