(* ===== verification/KVCalls.v ===== *)
(** * Every run of the KV-cache manager is safe

    The manager of vllm/v1/core/kv_cache_manager.py as a transition system: from what
    the constructor builds, by calls that keep their contract.  Rule induction gives
    the invariant of every reachable state, and that a legal call never raises. *)

From Stdlib Require Import QArith.
From S2P Require Import Prelude FreeQueue Request BlockHash BlockPool KVSpec CacheHit SingleType Accounting Coordinator CoordInv CoordOps KVManager KVSafety.

#[local] Open Scope Z_scope.
#[local] Set Default Proof Using "Type*".

Section KVCalls.
Context {E : Env}.
Implicit Types (k : KVCacheManager) (c : Coordinator) (p : BlockPool) (m : Manager) (free reserved : list ref).
Abbreviation ms_of c := (single_type_managers c).
Abbreviation groups k := (single_type_managers (coordinator k)).

(** ** Calls that only concern the pool *)

Lemma coord_pool_step reserved c p' free hf :
  coord_inv reserved c free → pool_step (block_pool c) p' free (rc (block_pool c)) hf →
  (∀ r, hf r = bhash (block_pool c) r ∨ hf r = None) →
  coord_inv reserved (set_block_pool p' c) free.
Proof.
  intros [Hp Hno Hst Hnull Hrc Hrows Hc Ht] Hs Hhf. pose proof (ps_config _ _ _ _ _ Hs) as Hcfg.
  assert (Hh : ∀ r, valid (block_pool c) r → bhash p' r = bhash (block_pool c) r ∨ bhash p' r = None).
  { intros r Hv. destruct (valid_Blk _ _ Hv) as [i ->]. rewrite (ps_hash _ _ _ _ _ Hs). apply Hhf. }
  assert (Hr : ∀ r, valid (block_pool c) r → rc p' r = rc (block_pool c) r).
  { intros r Hv. destruct (valid_Blk _ _ Hv) as [i ->]. apply (ps_rc _ _ _ _ _ Hs). }
  split; simpl; try done.
  - destruct Hp as [Hwf Href]. split; [by eapply ps_wf|]. eapply refs_ok_step; [done|exact Hs|..].
    + intros r Hv. split; [by eapply ro_nonneg|by eapply ro_zero].
    + intros r Hf. by eapply ro_disj.
    + intros r Hres. destruct (ro_reserved _ _ _ Href r Hres) as [_ Hb]. destruct (Hhf r); congruence.
  - eapply nohash_step; [done| |done]. intros r Hv Hb. destruct (Hh r Hv); congruence.
  - intros i m Hm. eapply mgr_static_step; [done|done|by apply Hst].
  - intros r Hv. rewrite config_valid in Hv by done. by rewrite Hr, Hrc.
  - intros i m id row Hm Hid. eapply row_ok_config; [done|by eapply Hrows].
  - intros i m id Hm j r Hj Hle Hv. rewrite config_valid in Hv by done.
    destruct (Ht i m id Hm j r Hj Hle Hv) as [? ?]. rewrite Hr by done. split; [done|].
    destruct (Hh r Hv); congruence.
Qed.

Lemma kv_pool_step reserved k p' free hf :
  kv_inv reserved k free → pool_step (k_pool k) p' free (rc (k_pool k)) hf →
  (∀ r, hf r = bhash (k_pool k) r ∨ hf r = None) →
  kv_inv reserved (set_coordinator (set_block_pool p' (coordinator k)) k) free.
Proof.
  intros Hk Hs Hhf. eapply kv_inv_coord; [exact Hk|by eapply coord_pool_step; [apply Hk|..]|].
  pose proof (ps_config _ _ _ _ _ Hs). by split_and!.
Qed.

Lemma wp_on_block_pool {A} (o : M BlockPool A) Q k :
  wp o (λ a p', Q a (set_coordinator (set_block_pool p' (coordinator k)) k)) (k_pool k) →
  wp (on_block_pool o) Q k.
Proof. intros Ho. apply wp_zoom. by apply wp_zoom. Qed.

(** ** The calls *)

Inductive kv_call :=
  | AllocateSlots (request : Request) (new_tokens new_computed : Z) (ncb : option KVCacheBlocks)
      (lookahead external : Z) (delay_cache_blocks : bool) (encoder_tokens : Z)
  | Free (request : Request)
  | RemoveSkipped (request_id : string) (total_computed_tokens : Z)
  | CacheBlocks (request : Request) (num_computed_tokens : Z)
  | Evict (block_ids : list Z)
  | ResetCache
  | TakeCacheEvents
  | MakeStats.

Definition run_kv_call (call : kv_call) : M KVCacheManager unit :=
  match call with
  | AllocateSlots request nt nc ncb look ext delay enc =>
      _ ← allocate_slots request nt nc ncb look ext delay enc; mret tt
  | Free request => kv_free request
  | RemoveSkipped id n => kv_remove_skipped_blocks id n
  | CacheBlocks request n => kv_cache_blocks request n
  | Evict ids => kv_evict_blocks ids
  | ResetCache => _ ← kv_reset_prefix_cache; mret tt
  | TakeCacheEvents => _ ← kv_take_events; mret tt
  | MakeStats => _ ← make_prefix_cache_stats; mret tt
  end.

(** The contract of each call. *)
Definition kv_legal k (call : kv_call) : Prop :=
  match call with
  | AllocateSlots request nt nc ncb look ext _ _ => slots_call k request nt nc ncb look ext
  | CacheBlocks request n =>
      0 ≤ n ≤ num_tokens request ∧
      num_tokens request / hash_block_size (k_pool k) ≤ len (block_hashes request) ∧
      ∀ i m, groups k !! i = Some m → cdiv n (m_block_size m) ≤ len (blocks_of m (request_id request))
  | Evict ids => Forall (λ i, 0 ≤ i < num_gpu_blocks (k_pool k)) ids
  | _ => True
  end.

Lemma run_kv_call_ok reserved k free call :
  kv_inv reserved k free → kv_legal k call →
  wp (run_kv_call call) (λ _ k', ∃ free', kv_inv reserved k' free') k.
Proof.
  intros Hk Hl. destruct call as [request nt nc ncb look ext delay enc|request|id n|request n|ids| | |]; simpl in *.
  - wp_prim. eapply wp_mono; [by eapply allocate_slots_ok|]. intros o k' (free' & Hk' & _).
    wp_prim. by exists free'.
  - apply wp_on_coord. eapply wp_mono; [eapply coord_free_ok; apply Hk|].
    intros [] c' (more & Hi' & Hs & _). eexists. by eapply kv_inv_coord.
  - eapply wp_mono; [by eapply trim_ok|]. intros [] k' (free' & Hk' & _). by exists free'.
  - destruct Hl as (Hn & Hh & Hrow). unfold kv_cache_blocks. wp_prim. wp_prim. unfold Datatypes.id.
    destruct (k_enable_caching k) eqn:Hc; [|wp_prim; by exists free].
    eapply wp_mono; [by eapply cache_grown_ok|]. intros [] k' (Hk' & _). by exists free.
  - apply wp_on_block_pool. pose proof (ci_pool _ _ _ (ki_coord _ _ _ Hk)) as [Hwf _].
    eapply wp_mono; [by eapply evict_blocks_ok|]. intros [] p' Hs. exists free.
    eapply kv_pool_step; [done|exact Hs|]. intros r. unfold unhash. case_decide; auto.
  - wp_prim. unfold kv_reset_prefix_cache. wp_prim. apply wp_on_block_pool.
    pose proof (ci_pool _ _ _ (ki_coord _ _ _ Hk)) as Hp.
    eapply wp_mono; [by eapply reset_prefix_cache_ok|]. intros b p' Hs. case_decide; destruct Hs as [-> Hs].
    + assert (kv_inv reserved (set_coordinator (set_block_pool p' (coordinator k)) k) free) as Hk'.
      { eapply kv_pool_step; [done|exact Hs|]. intros r. unfold unhash. case_decide; auto. }
      set (k1 := set_coordinator _ k) in *. simpl. wp_prim. wp_prim. unfold Datatypes.id. wp_prim.
      destruct (log_stats k1) eqn:Hlog; [|repeat wp_prim; by exists free].
      destruct (ki_stats _ _ _ Hk' Hlog) as [st Hst]. wp_prim. eapply wp_or_raise; [exact Hst|].
      wp_prim. repeat wp_prim. exists free. destruct Hk'. by split.
    + simpl. repeat wp_prim. exists free. subst p'. by destruct k as [? ? ? ? ? [] ?].
  - wp_prim. unfold kv_take_events. apply wp_on_block_pool. unfold BlockPool.take_events. wp_prim. wp_prim.
    pose proof (ci_pool _ _ _ (ki_coord _ _ _ Hk)) as [Hwf _].
    destruct (enable_kv_cache_events (k_pool k)); simpl; repeat wp_prim; exists free;
      (eapply kv_pool_step; [done| |by left]); [apply pool_step_then_events|]; by apply pool_step_refl.
  - wp_prim. unfold make_prefix_cache_stats. wp_prim. wp_prim. unfold Datatypes.id.
    destruct (log_stats k) eqn:Hlog; simpl; repeat wp_prim; exists free; [|done].
    destruct Hk. by split.
Qed.
(** ** Construction *)

(** A group the theorems cover: one of the classes of [standard_spec], without sink
    blocks, whose block size is a multiple of the hash block size. *)
Definition plain_group (hash_bs dcp pcp : Z) (g : KVCacheGroupSpec) : Prop :=
  let s := kv_cache_spec g in
  standard_spec s = true ∧ is_Some (spec_manager_map s) ∧
  (match s with SinkFullAttentionSpec _ _ _ => False | _ => True end) ∧
  0 < parallel_block_size (block_size s) dcp pcp ∧
  parallel_block_size (block_size s) dcp pcp mod hash_bs = 0.

Lemma build_managers_plain gs : ∀ i batched max_len caching dcp pcp hash_bs p,
  Forall (plain_group hash_bs dcp pcp) gs →
  ∃ ms, build_managers gs i batched max_len caching dcp pcp p = (Ok ms, p) ∧
    length ms = length gs ∧
    ∀ j m, ms !! j = Some m → ∃ g cap, gs !! j = Some g ∧
      m = manager_init (kv_cache_spec g) p caching (i + Z.of_nat j) dcp pcp cap.
Proof.
  induction gs as [|g gs IH]; intros i batched max_len caching dcp pcp hash_bs p Hgs.
  { by exists []. }
  apply Forall_cons in Hgs as [(Hs & [cls Hcls] & Hsink & _) Hgs].
  destruct (IH (i + 1) batched max_len caching dcp pcp hash_bs p Hgs) as (ms & Hms & Hlen & Hall).
  assert (get_manager_for_kv_cache_spec (kv_cache_spec g) batched max_len caching i dcp pcp p =
    (Ok (manager_init (kv_cache_spec g) p caching i dcp pcp
           (max_admission_blocks_per_request (kv_cache_spec g) batched max_len)), p)) as Hg.
  { unfold get_manager_for_kv_cache_spec. rewrite Hcls. by destruct (kv_cache_spec g). }
  eexists (_ :: ms). split_and!.
  - simpl. unfold mbind, M_bind in *. by rewrite Hg, Hms.
  - simpl. by rewrite Hlen.
  - intros [|j] m Hm; simpl in *.
    + injection Hm as <-. exists g. eexists. split; [done|]. by rewrite Z.add_0_r.
    + destruct (Hall j m Hm) as (g' & cap & Hg' & ->). exists g', cap. split; [done|]. f_equal. lia.
Qed.

Lemma coord_refs_empty r ms : (∀ i m, ms !! i = Some m → req_to_blocks m = ∅) → coord_refs r ms = 0.
Proof.
  unfold coord_refs. induction ms as [|m ms IH]; intros Hms; [done|]. rewrite fmap_cons.
  change (mgr_refs r m + sumZ (mgr_refs r <$> ms) = 0).
  rewrite IH by (intros i; apply (Hms (S i))). unfold mgr_refs. by rewrite (Hms 0%nat m).
Qed.

Lemma kv_init_ok config max_len hash_bs batched caching eagle log events dcp pcp metrics k :
  0 < num_blocks config → 0 < hash_bs → Forall (plain_group hash_bs dcp pcp) (kv_cache_groups config) →
  kv_cache_manager_init config max_len hash_bs batched caching eagle log events dcp pcp metrics = Ok k →
  kv_inv [] k (Blk <$> seq 1 (Z.to_nat (num_blocks config) - 1)) ∧ k_max_model_len k = max_len.
Proof.
  intros Hn Hh Hgs. unfold kv_cache_manager_init, get_kv_cache_coordinator.
  assert ((if negb caching then false else caching) = caching) as -> by by destruct caching.
  destruct (pool_init_ok (num_blocks config) caching hash_bs events metrics Hn)
    as (p & -> & Hp & Hcfg & Hbh & _ & _). set (free := Blk <$> _) in *.
  destruct (build_managers_plain (kv_cache_groups config) 0 (default max_len batched) max_len caching dcp pcp
    hash_bs p Hgs) as (ms & -> & Hlen & Hms).
  destruct (if negb caching then _ else _) as [kind|]; [|done]. intros [= <-]. split; [|done].
  unfold BlockPool.config in Hcfg. injection Hcfg as Hc1 Hc2 Hc3 Hc4 Hc5 Hc6.
  assert (Hempty : ∀ i m, ms !! i = Some m → req_to_blocks m = ∅).
  { intros i m Hm. by destruct (Hms i m Hm) as (g & cap & _ & ->). }
  assert (Hnone : ∀ r, valid p r → bhash p r = None).
  { intros r Hv. destruct (valid_Blk _ _ Hv) as [i ->]. apply Hbh. }
  split; unfold k_pool; simpl; [|by rewrite Hc2|done|by rewrite Hc3|].
  2: { intros ->. by eexists. }
  split; simpl; [done|by intros _|..].
  - intros i m Hm. destruct (Hms i m Hm) as (g & cap & Hg & ->).
    destruct (Forall_lookup_1 _ _ _ _ Hgs Hg) as (Hs & _ & _ & Hb & Hmod).
    split; simpl; [done|done|done|by rewrite Hc3|lia].
  - intros i m Hm. destruct (Hms i m Hm) as (g & cap & Hg & ->). simpl. by rewrite Hc5.
  - intros r Hv. rewrite coord_refs_empty by done. destruct Hp as [_ Href].
    apply (ro_zero _ _ _ Href r Hv). left. destruct Hv as (i & -> & Hi).
    apply list_elem_of_fmap. exists i. split; [done|]. apply elem_of_seq. unfold nblocks in Hi. rewrite Hc1 in Hi. lia.
  - intros i m id row Hm. by rewrite (Hempty i m Hm), lookup_empty.
  - intros i m id Hm. destruct (Hms i m Hm) as (g & cap & _ & ->). unfold num_cached. simpl. by rewrite lookup_empty.
  - intros i m id Hm j r Hj. unfold blocks_of in Hj. by rewrite (Hempty i m Hm), lookup_empty in Hj.
Qed.

(** ** Reachable states *)

Inductive kv_reach k0 : KVCacheManager → Prop :=
  | reach_init : kv_reach k0 k0
  | reach_call k call : kv_reach k0 k → kv_legal k call → kv_reach k0 (snd (run_kv_call call k)).

Lemma kv_reach_inv reserved k0 free0 k :
  kv_inv reserved k0 free0 → kv_reach k0 k → ∃ free, kv_inv reserved k free.
Proof.
  intros H0. induction 1 as [|k call _ [free Hk] Hl]; [by exists free0|].
  pose proof (run_kv_call_ok _ _ _ _ Hk Hl) as Hrun. apply wp_run in Hrun as ([] & k' & -> & ?). done.
Qed.

Lemma coord_refs_zero r ms :
  coord_refs r ms = 0 ↔ ∀ i m id, ms !! i = Some m → r ∉ blocks_of m id.
Proof.
  split.
  - intros H0 i m id Hm Hin. apply occ_elem in Hin. pose proof (blocks_of_refs m id r).
    pose proof (coord_refs_le r ms i m Hm). lia.
  - induction ms as [|m ms IH]; intros Hno; [done|]. unfold coord_refs. rewrite fmap_cons.
    change (mgr_refs r m + coord_refs r ms = 0). rewrite IH by (intros i; apply (Hno (S i))).
    unfold mgr_refs. rewrite row_refs_zero; [done|]. intros id row Hid. specialize (Hno 0%nat m id eq_refl).
    unfold blocks_of in Hno. by rewrite Hid in Hno.
Qed.
(** The blocks that are free are those no row refers to. *)
Lemma free_iff_unused k free r :
  kv_inv [] k free → valid (k_pool k) r →
  r ∈ free ↔ ∀ i m id, groups k !! i = Some m → r ∉ blocks_of m id.
Proof.
  intros Hk Hv. pose proof (ki_coord _ _ _ Hk) as Hi. destruct (ci_pool _ _ _ Hi) as [_ Href].
  rewrite <- coord_refs_zero, <- (ci_rc _ _ _ Hi r Hv), (ro_zero _ _ _ Href r Hv). set_solver.
Qed.

Lemma all_free_length k free :
  kv_inv [] k free → (∀ i m id, groups k !! i = Some m → blocks_of m id = []) →
  len free = num_gpu_blocks (k_pool k) - 1.
Proof.
  intros Hk Hnone. pose proof (ki_coord _ _ _ Hk) as Hi. destruct (ci_pool _ _ _ Hi) as [Hwf _].
  pose proof (num_free_bound _ _ Hwf). pose proof (pw_pos _ _ Hwf).
  assert (Blk <$> seq 1 (nblocks (k_pool k) - 1) ⊆+ free) as Hsub.
  { apply NoDup_submseteq; [apply NoDup_fmap_2; [by intros ?? [=]|apply NoDup_seq]|].
    intros r (i & -> & Hin)%list_elem_of_fmap. apply elem_of_seq in Hin.
    apply (free_iff_unused k free); [done|exists i; split; [done|lia]|].
    intros j m id Hm. rewrite (Hnone j m id Hm). apply not_elem_of_nil. }
  apply submseteq_length in Hsub. rewrite length_fmap, length_seq in Hsub.
  unfold len, nblocks, k_pool in *. lia.
Qed.
End KVCalls.

(** ** Theorems *)

Section KVTheorems.
Context {E : Env}.
Implicit Types (k : KVCacheManager) (m : Manager) (free : list ref).
Abbreviation groups k := (single_type_managers (coordinator k)).

(** C5: Safety of the KV-cache manager.  Take any configuration of full, sliding-window
    and chunked-local groups, and any sequence of calls of [allocate_slots], [free],
    [remove_skipped_blocks], [cache_blocks], [evict_blocks], [reset_prefix_cache],
    [take_events] and [make_prefix_cache_stats] that keep their contracts, from the
    manager the constructor builds.  Then no further legal call raises; the reference
    count of every block is the number of times the requests' rows refer to it, over
    all groups; and walking the links of the free queue lists exactly the blocks no
    row refers to. *)
Theorem kv_manager_safe config max_len hash_bs batched caching eagle log events dcp pcp metrics k0 k :
  0 < num_blocks config → 0 < hash_bs → Forall (plain_group hash_bs dcp pcp) (kv_cache_groups config) →
  kv_cache_manager_init config max_len hash_bs batched caching eagle log events dcp pcp metrics = Ok k0 →
  kv_reach k0 k →
  (∀ call, kv_legal k call → ∃ k', run_kv_call call k = (Ok tt, k')) ∧
  (∀ r, valid (k_pool k) r → rc (k_pool k) r = coord_refs r (groups k)) ∧
  ∃ free, get_all_free_blocks (S (length free)) (free_block_queue (k_pool k)) = Ok (Some free) ∧
    NoDup free ∧
    ∀ r, valid (k_pool k) r →
      (r ∈ free ↔ ∀ i m id, groups k !! i = Some m → r ∉ blocks_of m id).
Proof.
  intros Hn Hh Hgs Hinit Hreach.
  destruct (kv_init_ok _ _ _ _ _ _ _ _ _ _ _ _ Hn Hh Hgs Hinit) as [Hk0 _].
  destruct (kv_reach_inv _ _ _ _ Hk0 Hreach) as [free Hk].
  pose proof (ki_coord _ _ _ Hk) as Hi. destruct (ci_pool _ _ _ Hi) as [Hwf _].
  split_and!; [|apply (ci_rc _ _ _ Hi)|].
  - intros call Hl. pose proof (run_kv_call_ok _ _ _ _ Hk Hl) as Hrun.
    apply wp_run in Hrun as ([] & k' & ? & _). by exists k'.
  - exists free. split_and!; [|by eapply queue_rep_nodup, pw_queue|by intros r; apply free_iff_unused].
    apply get_all_free_blocks_rep; [by apply pw_queue|lia].
Qed.

(** C6: [allocate_slots] never raises when called as the scheduler calls it.  It
    returns [None] only if the number of blocks it asks for is larger than the number
    of free blocks, and then every group's row of the request keeps its length;
    otherwise the row of every group covers the computed, new and lookahead tokens (up
    to the model length) and ends with the blocks returned for that group.  The rows
    of all other requests and their numbers of cached blocks are as before. *)
Theorem allocate_slots_spec reserved k free request new_tokens new_computed ncb lookahead external delay enc :
  let id := request_id request in
  let total := num_computed_tokens request + new_computed + external in
  let tokens := Z.min (total + new_tokens + lookahead) (k_max_model_len k) in
  kv_inv reserved k free → slots_call k request new_tokens new_computed ncb lookahead external →
  ∃ o k' free',
    allocate_slots request new_tokens new_computed ncb lookahead external delay enc k = (Ok o, k') ∧
    kv_inv reserved k' free' ∧
    (o = None → ∃ n, predicted k' request tokens ncb total (total + new_tokens) enc = Ok n ∧
                     get_num_free_blocks (k_pool k') < n) ∧
    ∀ i m, groups k !! i = Some m → ∃ m', groups k' !! i = Some m' ∧
      (∀ id', id' ≠ id → req_to_blocks m' !! id' = req_to_blocks m !! id' ∧
                         num_cached_block m' !! id' = num_cached_block m !! id') ∧
      match o with
      | None => len (blocks_of m' id) = len (blocks_of m id)
      | Some b => tokens ≤ len (blocks_of m' id) * m_block_size m ∧
          ∃ old bs, blocks_list (num_kv_cache_groups k) b !! i = Some bs ∧ blocks_of m' id = old ++ bs
      end.
Proof.
  intros id total tokens Hk Hc. pose proof (allocate_slots_ok _ _ _ _ _ _ _ _ _ delay enc Hk Hc) as Hrun.
  apply wp_run in Hrun as (o & k' & Hrun & free' & Hk' & _ & Hnone & Hall). exists o, k', free'.
  split_and!; [done|done|by rewrite (num_free_len _ _ _ Hk')|].
  intros i m Hm. destruct (Hall i m Hm) as (m' & Hm' & [_ Hr Hn] & Ho). exists m'.
  split_and!; [done|by split; auto|]. destruct o as [b|]; [|done]. destruct Ho as [Hle Ho]. split; [|done].
  fold id total tokens in Hle. assert (0 < m_block_size m) as Hb by (eapply ci_static; [apply Hk|done]).
  pose proof (cdiv_spec tokens _ Hb). nia.
Qed.

(** C20: No block is leaked: in a reachable state in which no request holds blocks, all
    blocks but the null block are free again. *)
Theorem no_block_leaks config max_len hash_bs batched caching eagle log events dcp pcp metrics k0 k :
  0 < num_blocks config → 0 < hash_bs → Forall (plain_group hash_bs dcp pcp) (kv_cache_groups config) →
  kv_cache_manager_init config max_len hash_bs batched caching eagle log events dcp pcp metrics = Ok k0 →
  kv_reach k0 k → (∀ i m id, groups k !! i = Some m → blocks_of m id = []) →
  get_num_free_blocks (k_pool k) = num_gpu_blocks (k_pool k) - 1.
Proof.
  intros Hn Hh Hgs Hinit Hreach Hnone.
  destruct (kv_init_ok _ _ _ _ _ _ _ _ _ _ _ _ Hn Hh Hgs Hinit) as [Hk0 _].
  destruct (kv_reach_inv _ _ _ _ Hk0 Hreach) as [free Hk].
  rewrite (num_free_len _ _ _ Hk). by apply all_free_length.
Qed.
End KVTheorems.

(** ** Witnesses *)

#[local] Existing Instance test_env.

(** A full-attention and a sliding-window group over eight blocks of two tokens. *)
Definition kv_config : KVCacheConfig :=
  mkKVCacheConfig 8 [] [mkGroup ["a"] full2 false; mkGroup ["b"] sliding2 false].

Definition dummy_manager : KVCacheManager :=
  mkKVCacheManager 0 false false false None
    (mkCoordinator kv_config 0 false pool4 ∅ [] KVCacheCoordinatorNoPrefixCache) 0.

Definition kv_start : KVCacheManager :=
  match kv_cache_manager_init kv_config 16 2 None true false true false 1 1 None with
  | Ok k => k
  | Raise _ => dummy_manager
  end.

Lemma kv_config_plain : Forall (plain_group 2 1 1) (kv_cache_groups kv_config).
Proof. repeat constructor; vm_compute; (done || by eexists). Qed.

Lemma kv_start_init :
  kv_cache_manager_init kv_config 16 2 None true false true false 1 1 None = Ok kv_start.
Proof. vm_compute. reflexivity. Qed.

Lemma kv_start_inv : kv_inv [] kv_start (Blk <$> seq 1 7).
Proof. apply (kv_init_ok kv_config 16 2 None true false true false 1 1 None kv_start);
  [done|done|exact kv_config_plain|exact kv_start_init]. Qed.

(** The request of four tokens is given blocks for them, then it is freed. *)
Lemma kv_start_call : slots_call kv_start cached_request 4 0 None 0 0.
Proof.
  split; try (vm_compute; done).
  - by left.
  - left. split_and!; [done..|]. split; [done|]. intros i m Hm.
    destruct i as [|[|i]]; [..|by vm_compute in Hm]; vm_compute in Hm; injection Hm as <-; by vm_compute.
Qed.

Definition kv_allocated : KVCacheManager :=
  snd (run_kv_call (AllocateSlots cached_request 4 0 None 0 0 false 0) kv_start).
Definition kv_freed : KVCacheManager := snd (run_kv_call (Free cached_request) kv_allocated).

Lemma kv_allocated_reach : kv_reach kv_start kv_allocated.
Proof. apply reach_call; [apply reach_init|exact kv_start_call]. Qed.

Lemma kv_freed_reach : kv_reach kv_start kv_freed.
Proof. apply reach_call; [exact kv_allocated_reach|done]. Qed.

Lemma kv_manager_safe_witness :
  (∃ k', run_kv_call (Free cached_request) kv_allocated = (Ok tt, k')) ∧
  rc (k_pool kv_allocated) (Blk 1) = 1 ∧ rc (k_pool kv_allocated) (Blk 5) = 0.
Proof.
  destruct (kv_manager_safe kv_config 16 2 None true false true false 1 1 None kv_start kv_allocated)
    as (Hcall & Hrc & _);
    [done|done|exact kv_config_plain|exact kv_start_init|exact kv_allocated_reach|].
  split; [by apply Hcall|]. split; vm_compute; reflexivity.
Defined.

Lemma allocate_slots_spec_witness :
  ∃ o k' free', allocate_slots cached_request 4 0 None 0 0 false 0 kv_start = (Ok o, k') ∧
    kv_inv [] k' free' ∧ o = Some (Blocks [[Blk 1; Blk 2]; [Blk 3; Blk 4]]).
Proof.
  destruct (allocate_slots_spec [] kv_start (Blk <$> seq 1 7) cached_request 4 0 None 0 0 false 0
    kv_start_inv kv_start_call) as (o & k' & free' & Hrun & Hk & _).
  exists o, k', free'. split; [exact Hrun|]. split; [exact Hk|].
  assert (fst (allocate_slots cached_request 4 0 None 0 0 false 0 kv_start) =
    Ok (Some (Blocks [[Blk 1; Blk 2]; [Blk 3; Blk 4]]))) as Hv by (vm_compute; reflexivity).
  rewrite Hrun in Hv. simpl in Hv. by injection Hv as ->.
Defined.

Lemma no_block_leaks_witness :
  get_num_free_blocks (k_pool kv_allocated) = 3 ∧ get_num_free_blocks (k_pool kv_freed) = 7.
Proof.
  split; [vm_compute; reflexivity|].
  rewrite (no_block_leaks kv_config 16 2 None true false true false 1 1 None kv_start kv_freed);
    [vm_compute; reflexivity|done|done|exact kv_config_plain|exact kv_start_init|exact kv_freed_reach|].
  intros i m id Hm. unfold blocks_of.
  assert (req_to_blocks m = ∅) as ->; [|by rewrite lookup_empty].
  destruct i as [|[|i]]; [..|by vm_compute in Hm]; vm_compute in Hm; injection Hm as <-; by vm_compute.
Defined.

(** ** Tokens the connector holds, and several groups *)

(** Two full-attention groups over six usable blocks. *)
Definition two_full_config : KVCacheConfig :=
  mkKVCacheConfig 7 [] [mkGroup ["a"] full2 false;
    mkGroup ["b"] (FullAttentionSpec (mkAttention 2 1 2 bf16 NONE None) (mkFull 2 None None)) false].
Definition two_full_start : KVCacheManager :=
  match kv_cache_manager_init two_full_config 16 2 None true false false false 1 1 None with
  | Ok k => k
  | Raise _ => dummy_manager
  end.

Definition other_request : Request := set_block_hashes [[5]] (text_request "o" [8; 9] None None []).
(** The tokens of [cached_request] and two more, which the connector holds. *)
Definition longer_request : Request :=
  set_block_hashes [[7]; [9]; [3]] (text_request "l" [1; 2; 3; 4; 5; 6] None None []).

(** Two requests are computed and freed, the one that is hit again first. *)
Definition two_full_used : KVCacheManager :=
  foldl (λ k call, snd (run_kv_call call k)) two_full_start
    [AllocateSlots cached_request 4 0 None 0 0 false 0; AllocateSlots other_request 2 0 None 0 0 false 0;
     Free cached_request; Free other_request].

Definition two_full_hit : result (KVCacheBlocks * Z) := fst (get_computed_blocks longer_request two_full_used).
Definition two_full_after : KVCacheManager :=
  snd (allocate_slots longer_request 0 4 (Some (Blocks [[Blk 1; Blk 2]; [Blk 3; Blk 4]])) 0 2 true 0
         two_full_used).

(** The coordinator adopts the hit of one group, and takes new blocks for the tokens
    the connector holds, before it touches the hit of the next group.  The new block
    of the first group is then a block of the second group's hit: block 4 ends up in
    the rows of both groups, and its hash is gone although it was reported as a hit. *)
Theorem external_blocks_take_a_hit :
  two_full_hit = Ok (Blocks [[Blk 1; Blk 2]; [Blk 3; Blk 4]], 4) ∧
  coord_get_blocks (coordinator two_full_after) "l" = [[Blk 1; Blk 2; Blk 4]; [Blk 3; Blk 4; Blk 5]] ∧
  rc (k_pool two_full_after) (Blk 4) = 2 ∧ bhash (k_pool two_full_after) (Blk 4) = None.
Proof. repeat split; vm_compute; reflexivity. Qed.
