(* ===== verification/HybridHit.v ===== *)
(** * The prefix-cache lookup of hybrid models

    The fixed-point loop of [HybridKVCacheCoordinator.find_longest_cache_hit]
    (vllm/v1/core/kv_cache_coordinator.py): it terminates for every pool and every
    request; three concrete runs show where its result is not what the callers rely
    on. *)

From S2P Require Import Prelude FreeQueue Request BlockHash BlockPool KVSpec CacheHit SingleType Coordinator.

#[local] Set Default Proof Using "Type*".

Section Termination.
Implicit Types (p : BlockPool) (hs : list bytes) (ag : AttentionGroup) (st : HitState).

Lemma find_not_out_of_fuel cls bhl max_length gids p spec eagle al dcp pcp :
  find_longest_cache_hit cls bhl max_length gids p spec eagle al dcp pcp ≠ Raise OutOfFuel.
Proof.
  assert (∀ idxs computed, chunked_loop p bhl gids idxs computed ≠ Raise OutOfFuel) as Hchunk.
  { induction idxs as [|i idxs IH]; intros computed; simpl; [done|].
    destruct (bhl_get bhl i); [|done]. destruct (cached p gids _); [apply IH|done]. }
  assert (∀ bs idxs computed, mamba_loop p bhl gids bs al idxs computed ≠ Raise OutOfFuel) as Hmamba.
  { induction idxs as [|i idxs IH]; intros computed; simpl; [done|].
    destruct (bhl_get bhl i); [|done]. destruct (cached p gids _); [|apply IH].
    destruct (_ && _); [apply IH|done]. }
  assert (∀ bs n idxs computed k,
    sliding_loop p bhl gids bs al n eagle idxs computed k ≠ Raise OutOfFuel) as Hslide.
  { induction idxs as [|i idxs IH]; intros computed k; simpl; [done|].
    destruct (bhl_get bhl i); [|done]. destruct (cached p gids _); [|apply IH].
    destruct (_ && _ && _); [apply IH|]. destruct (_ <=? _); [done|apply IH]. }
  destruct cls; simpl.
  - unfold full_find_longest_cache_hit. repeat case_match; done.
  - unfold sliding_find_longest_cache_hit. repeat case_match; try done; intros [= ->];
      by eapply Hslide.
  - unfold chunked_find_longest_cache_hit. destruct spec; try done.
    destruct (_ || _ || _ || _); [done|apply Hchunk].
  - unfold mamba_find_longest_cache_hit. destruct (_ || _ || _); [done|apply Hmamba].
  - by destruct (is_cross spec).
  - unfold full_find_longest_cache_hit. repeat case_match; done.
Qed.

Context p hs (max_length hash_bs lcm : Z) (eagle : gset Z).

Lemma hybrid_step_ok idx ag st :
  0 < block_size (ag_spec ag) → 0 ≤ curr_hit_length st →
  match hybrid_step p hs max_length hash_bs lcm eagle idx ag st with
  | Ok st' => 0 ≤ curr_hit_length st'
  | Raise e => e ≠ OutOfFuel
  end.
Proof.
  intros Hb Hc. unfold hybrid_step. destruct (_ && _).
  { simpl. apply Z.mul_nonneg_nonneg; [by apply Z.div_pos|lia]. }
  unfold hashes_for, scaled_init. destruct (_ =? _); [|destruct (_ =? _); [|done]];
    (destruct (find_longest_cache_hit _ _ _ _ _ _ _ _ _ _) as [hits|e] eqn:Hf;
      [simpl; unfold first_len; destruct hits as [|c hits]; [lia|pose proof (len_nonneg c); nia]|];
     intros ->; by eapply find_not_out_of_fuel).
Qed.

Lemma hybrid_for_ok ags : ∀ idx st,
  Forall (λ ag, 0 < block_size (ag_spec ag)) ags → 0 ≤ curr_hit_length st →
  match hybrid_for p hs max_length hash_bs lcm eagle idx ags st with
  | Ok st' => 0 ≤ curr_hit_length st'
  | Raise e => e ≠ OutOfFuel
  end.
Proof.
  induction ags as [|ag ags IH]; intros idx st Hags Hc; simpl; [done|].
  apply Forall_cons in Hags as [Hb Hags]. pose proof (hybrid_step_ok idx ag st Hb Hc) as Hs.
  destruct (hybrid_step _ _ _ _ _ _ _ _ _) as [st'|e]; [by apply IH|done].
Qed.

(** The [while] loop without a bound: [k] passes lead to [res]. *)
Inductive while_passes ags (simple : bool) : Z → list (option (list ref)) → gset Z → nat → result (Z * list (option (list ref))) → Prop :=
  | pass_raises h by_group verified e :
      hybrid_for p hs max_length hash_bs lcm eagle 0 ags (mkHitState h by_group verified) = Raise e →
      while_passes ags simple h by_group verified 1 (Raise e)
  | pass_settles h by_group verified st :
      hybrid_for p hs max_length hash_bs lcm eagle 0 ags (mkHitState h by_group verified) = Ok st →
      h ≤ curr_hit_length st →
      while_passes ags simple h by_group verified 1 (Ok (h, hit_blocks_by_group st))
  | pass_simple h by_group verified st :
      hybrid_for p hs max_length hash_bs lcm eagle 0 ags (mkHitState h by_group verified) = Ok st →
      curr_hit_length st < h → simple = true →
      while_passes ags simple h by_group verified 1 (Ok (curr_hit_length st, hit_blocks_by_group st))
  | pass_lowers h by_group verified st k res :
      hybrid_for p hs max_length hash_bs lcm eagle 0 ags (mkHitState h by_group verified) = Ok st →
      curr_hit_length st < h → simple = false →
      while_passes ags simple (curr_hit_length st) (hit_blocks_by_group st) (eagle_verified st) k res →
      while_passes ags simple h by_group verified (S k) res.

(** The candidate length is a variant: a pass that does not end the loop lowers it. *)
Lemma while_terminates ags simple : Forall (λ ag, 0 < block_size (ag_spec ag)) ags → ∀ n h by_group verified,
  0 ≤ h → (Z.to_nat h ≤ n)%nat →
  ∃ k res, while_passes ags simple h by_group verified k res ∧ (k ≤ S n)%nat ∧ res ≠ Raise OutOfFuel.
Proof.
  intros Hags. induction n as [|n IH]; intros h bg v Hh Hn;
    pose proof (hybrid_for_ok ags 0 (mkHitState h bg v) Hags Hh) as Hs;
    destruct (hybrid_for p hs max_length hash_bs lcm eagle 0 ags (mkHitState h bg v)) as [st|e] eqn:Hf;
    try (exists 1%nat, (Raise e); split; [by apply pass_raises|]; split; [lia|by intros [=]]);
    (destruct (Z.leb_spec h (curr_hit_length st)); [exists 1%nat; eexists; split; [by eapply pass_settles|]; split; [lia|done]|]).
  - lia.
  - destruct simple eqn:Hsi; [exists 1%nat; eexists; split; [by eapply pass_simple|]; split; [lia|done]|].
    destruct (IH (curr_hit_length st) (hit_blocks_by_group st) (eagle_verified st)) as (k & res & Hk & Hle & Hres); [done|lia|].
    exists (S k), res. split; [by eapply pass_lowers|]. split; [lia|done].
Qed.

(** A bound that is large enough does not show. *)
Lemma while_bounded ags simple h by_group verified k res : while_passes ags simple h by_group verified k res →
  ∀ fuel, (k ≤ fuel)%nat → hybrid_while fuel p hs max_length hash_bs lcm eagle ags simple h by_group verified = res.
Proof.
  induction 1 as [h bg v e Hf|h bg v st Hf Hle|h bg v st Hf Hlt Hsi|h bg v st k res Hf Hlt Hsi _ IH]; intros [|fuel] Hk; try lia; simpl; rewrite Hf;
    [done|by rewrite (proj2 (Z.leb_le _ _))|by rewrite (proj2 (Z.leb_gt _ _)), Hsi|].
  rewrite (proj2 (Z.leb_gt _ _)) by done. rewrite Hsi in *. apply IH. lia.
Qed.
End Termination.

(** The switch of the loop for one full-attention group and another one. *)
Definition simple_hybrid (ags : list AttentionGroup) : bool :=
  match ags with [ag; _] => is_full_attention (ag_spec ag) | _ => false end.

(** C21: The fixed-point loop of the hybrid lookup terminates.  For every pool, every list
    of hashes and every list of attention groups with positive block sizes, the loop ends
    after at most [max_cache_hit_length + 1] passes, with a result or one of the code's own
    errors; every bound on the loop from that number of passes on gives this result, so the
    lookup, whose bound is [max_cache_hit_length + 1], never reaches it. *)
Theorem hybrid_lookup_terminates p n hash_bs ags lcm eagle hs max_length :
  0 ≤ max_length → Forall (λ ag, 0 < block_size (ag_spec ag)) ags →
  hybrid_find_longest_cache_hit p n hash_bs ags lcm eagle hs max_length ≠ Raise OutOfFuel ∧
  ∃ k res, while_passes p hs max_length hash_bs lcm eagle ags (simple_hybrid ags) max_length (replicate n None) ∅ k res ∧
    Z.of_nat k ≤ max_length + 1 ∧ res ≠ Raise OutOfFuel ∧
    ∀ fuel, (k ≤ fuel)%nat →
      hybrid_while fuel p hs max_length hash_bs lcm eagle ags (simple_hybrid ags) max_length (replicate n None) ∅ = res.
Proof.
  intros Hm Hags.
  destruct (while_terminates p hs max_length hash_bs lcm eagle ags (simple_hybrid ags) Hags (Z.to_nat max_length) max_length (replicate n None) ∅)
    as (k & res & Hk & Hle & Hres); [done|lia|]. pose proof (while_bounded _ _ _ _ _ _ _ _ _ _ _ _ _ Hk) as Hb. split.
  - unfold hybrid_find_longest_cache_hit. fold (simple_hybrid ags). rewrite Hb by lia. destruct res as [[h bg]|e]; [by destruct ags|]. intros [= ->]. by apply Hres.
  - exists k, res. split_and!; [done|lia|done|done].
Qed.

(** ** Concrete lookups *)

#[local] Existing Instance test_env.

Definition hybrid_pool : BlockPool :=
  (run_calls [GetNewBlocks 3; CacheFullBlocks cached_request [Blk 1; Blk 2] 0 2 2 0;
              CacheFullBlocks cached_request [Blk 0; Blk 3] 0 2 2 1] pool4).2.

Definition full_and_mamba : list AttentionGroup :=
  [mkAttentionGroup full2 [0] FullAttentionManager; mkAttentionGroup (MambaSpec mamba2) [1] MambaManager].

Lemma hybrid_lookup_terminates_witness :
  hybrid_find_longest_cache_hit hybrid_pool 2 2 full_and_mamba 2 ∅ [[7]; [9]; [3]] 5 =
    Ok ([[Blk 1; Blk 2]; [Blk 0; Blk 3]], 4) ∧
  ∃ k res, while_passes hybrid_pool [[7]; [9]; [3]] 5 2 2 ∅ full_and_mamba (simple_hybrid full_and_mamba) 5 (replicate 2 None) ∅ k res ∧
    Z.of_nat k ≤ 6.
Proof.
  split; [vm_compute; reflexivity|].
  destruct (hybrid_lookup_terminates hybrid_pool 2 2 full_and_mamba 2 ∅ [[7]; [9]; [3]] 5) as [_ (k & res & Hk & Hle & _)];
    [lia|repeat constructor|]. exists k, res. split; [exact Hk|exact Hle].
Defined.

(** With EAGLE the lookup extends the candidate by one block for every group and
    expects the group to drop its last block again; the Mamba lookup does not drop it.
    For a full-attention and a Mamba group in which the first two blocks are cached,
    the full-attention group drops to one block (two tokens), the Mamba group raises
    the candidate again, and the lookup reports four computed tokens of which the
    full-attention group has only two. *)
Theorem mamba_eagle_hit_too_long :
  hybrid_find_longest_cache_hit hybrid_pool 2 2 full_and_mamba 2 {[0; 1]} [[7]; [9]; [3]] 5 =
    Ok ([[Blk 1]; [Blk 0; Blk 3]], 4) ∧
  len [Blk 1] * block_size full2 < 4.
Proof. split; vm_compute; reflexivity. Qed.

(** Two full-attention groups with different specifications and a sliding window. *)
Definition full2b : KVCacheSpec := FullAttentionSpec (mkAttention 2 1 2 bf16 NONE None) (mkFull 2 None None).
Definition two_full_groups : list AttentionGroup :=
  [mkAttentionGroup full2 [0] FullAttentionManager; mkAttentionGroup full2b [1] FullAttentionManager;
   mkAttentionGroup sliding2 [2] SlidingWindowManager].

Definition pool8 : BlockPool :=
  match pool_init 8 true 2 false None with
  | Ok p => p
  | Raise _ => pool4
  end.
Definition two_full_pool : BlockPool :=
  (run_calls [GetNewBlocks 5; CacheFullBlocks cached_request [Blk 1; Blk 2] 0 2 2 0;
              CacheFullBlocks cached_request [Blk 3; Blk 4] 0 2 2 1;
              CacheFullBlocks cached_request [Blk 5; Blk 0] 0 1 2 2] pool8).2.

(** Only the first attention group is cut down to the final hit length.  With two
    full-attention groups of different specifications and a sliding-window group that
    lowers the candidate, the second full-attention group keeps the blocks of the
    longer candidate: two blocks, four tokens, for a hit of two tokens. *)
Theorem second_full_group_not_truncated :
  hybrid_find_longest_cache_hit two_full_pool 3 2 two_full_groups 2 ∅ [[7]; [9]; [3]] 5 =
    Ok ([[Blk 1]; [Blk 3; Blk 4]; [Blk 5]], 2) ∧
  2 < len [Blk 3; Blk 4] * block_size full2b.
Proof. split; vm_compute; reflexivity. Qed.
