(* ===== verification/HitToSlots.v ===== *)
(** * From a prefix-cache hit to its slots

    The two calls the scheduler makes for a new request, [get_computed_blocks] and
    [allocate_slots] of vllm/v1/core/kv_cache_manager.py, for a model with one KV-cache
    group: what the lookup returns meets the contract of the allocation. *)

From Stdlib Require Import QArith.
From S2P Require Import Prelude FreeQueue Request BlockHash BlockPool KVSpec CacheHit SingleType Accounting Coordinator CoordInv CoordOps KVManager KVSafety KVCalls.

#[local] Open Scope Z_scope.
#[local] Set Default Proof Using "Type*".

Section HitToSlots.
Context {E : Env}.
Implicit Types (k : KVCacheManager) (p : BlockPool) (m : Manager) (row : list ref) (hs : list bytes).
Abbreviation groups k := (single_type_managers (coordinator k)).

(** What each class asks of the configuration. *)
Definition lookup_ready (spec : KVCacheSpec) (eagle : bool) (dcp pcp : Z) : Prop :=
  match spec with
  | FullAttentionSpec _ _ | TQFullAttentionSpec _ _ _ | MLAAttentionSpec _ _ _ => True
  | SlidingWindowSpec _ w _ | SlidingWindowMLASpec _ w _ => dcp = 1 ∧ pcp = 1 ∧ 0 < w
  | ChunkedLocalAttentionSpec _ c => dcp = 1 ∧ pcp = 1 ∧ 0 < c ∧ eagle = false
  | _ => False
  end.

Lemma single_group_lookup p free hs max_length spec eagle dcp pcp :
  let bs := parallel_block_size (block_size spec) dcp pcp in
  pool_wf p free → lookup_ready spec eagle dcp pcp → 0 < bs → 0 ≤ max_length → max_length / bs ≤ len hs →
  ∃ cls row, spec_manager_map spec = Some cls ∧
    find_longest_cache_hit cls (Plain hs) max_length [0] p spec eagle bs dcp pcp = Ok [row] ∧
    row_hits_or_null p 0 hs row ∧ len row * bs ≤ max_length.
Proof.
  intros bs Hwf Hready Hbs Hmax Hlen.
  assert (Hone : ∀ Q n computed, rows Q [0] n computed → ∃ row, computed = [row] ∧ length row = n ∧ Q 0 row).
  { intros Q n computed Hr. inversion Hr as [|? row ? rest [Hl HQ] Hrest]; subst.
    inversion Hrest; subst. by exists row. }
  assert (Hfull : is_full_attention spec = true → ∃ row,
    full_find_longest_cache_hit (Plain hs) max_length [0] p spec eagle bs dcp pcp = Ok [row] ∧
    row_hits_or_null p 0 hs row ∧ len row * bs ≤ max_length).
  { intros Hf. destruct (full_hit_ok p free (Plain hs) max_length [0] spec eagle bs dcp pcp)
      as (computed & Hrun & Hr); [done|done|by rewrite Hf|done..|].
    destruct (Hone _ _ _ Hr) as (row & -> & Hl & Hh). exists row. split_and!; [done|by apply row_hits_weaken|].
    fold bs in Hl. set (hs' := take _ _) in Hl.
    assert (length hs' ≤ Z.to_nat (max_length / bs))%nat as Hhs by (unfold hs'; rewrite length_take; lia).
    pose proof (aligned_le bs bs (eagle_drop eagle (hit_count p [0] hs'))).
    pose proof (hit_count_le p [0] hs'). assert (0 ≤ max_length / bs) by (by apply Z.div_pos; lia).
    assert (eagle_drop eagle (hit_count p [0%Z] hs') ≤ hit_count p [0%Z] hs')%nat by (unfold eagle_drop; case_match; lia).
    pose proof (Z.mul_div_le max_length bs Hbs). unfold len. nia. }
  assert (Hslide : ∀ w, window_of spec = Some w → dcp = 1 → pcp = 1 → 0 < w → ∃ row,
    sliding_find_longest_cache_hit (Plain hs) max_length [0] p spec eagle bs dcp pcp = Ok [row] ∧
    row_hits_or_null p 0 hs row ∧ len row * bs ≤ max_length).
  { intros w Hw -> -> Hw0. unfold parallel_block_size in bs. simpl in bs. subst bs.
    destruct (sliding_hit_ok p free (Plain hs) max_length [0] spec w eagle (block_size spec))
      as (computed & n & Hrun & Hr & _ & Hle); [done..|].
    destruct (Hone _ _ _ Hr) as (row & -> & Hl & [Hh _]). exists row. split_and!; [done|done|].
    unfold len. by rewrite Hl. }
  destruct spec; simpl in Hready; try done;
    [destruct (Hfull eq_refl) as (row & ?); by exists FullAttentionManager, row..| | |].
  - destruct Hready as (-> & -> & Hc & ->). unfold parallel_block_size in bs. simpl in bs. subst bs.
    destruct (chunked_hit_ok p free (Plain hs) max_length [0] a attention_chunk_size)
      as (computed & n & Hrun & [_ Hn] & Hr & _); [done..|].
    destruct (Hone _ _ _ Hr) as (row & -> & Hl & [[Hh _] _]). exists ChunkedLocalAttentionManager, row.
    split_and!; [done|done|done|]. pose proof (Z.mul_div_le max_length _ Hbs).
    assert (0 ≤ max_length / attn_block_size a) by (by apply Z.div_pos; lia). unfold len. rewrite Hl. nia.
  - destruct Hready as (? & ? & ?). destruct (Hslide sliding_window) as (row & ?); [done..|].
    by exists SlidingWindowManager, row.
  - destruct Hready as (? & ? & ?). destruct (Hslide sliding_window) as (row & ?); [done..|].
    by exists SlidingWindowManager, row.
Qed.
(** A hit does not name a block twice when the hashes of the request differ. *)
Lemma hits_row_ok p free g hs row :
  pool_wf p free → NoDup hs → 0 ≤ g < 2 ^ 32 → row_hits_or_null p g hs row → row_ok p row.
Proof.
  intros Hwf Hnd Hg Hh r Hr. apply list_elem_of_lookup_1 in Hr as Hat. destruct Hat as [i Hi].
  rewrite <- (pw_null _ _ Hwf). destruct (Hh i r Hi) as [?|(h & Hhi & Hv & Hb)]; [by left|right].
  split; [done|]. apply occ_one; [|done].
  assert (∀ j, row !! j = Some r → hs !! j = Some h) as Hall.
  { intros j Hj. destruct (Hh j r Hj) as [->|(h' & Hhj & _ & Hb')].
    - rewrite (pw_null _ _ Hwf) in Hv. by apply valid_ne_null in Hv.
    - rewrite Hb in Hb'. injection Hb' as Hk. apply make_block_hash_inj in Hk as [-> _]; done. }
  intros j j' Hj Hj'. eapply NoDup_lookup; [exact Hnd|by apply Hall..].
Qed.

(** The manager of a model with one group. *)
Record single_group k (spec : KVCacheSpec) (dcp pcp : Z) m : Prop := {
  sg_kind : c_kind (coordinator k) =
    UnitaryKVCacheCoordinator spec (parallel_block_size (block_size spec) dcp pcp) dcp pcp;
  sg_groups : groups k = [m];
  sg_bs : m_block_size m = parallel_block_size (block_size spec) dcp pcp;
  sg_hash : hash_block_size (k_pool k) = m_block_size m;
  sg_ready : lookup_ready spec (bool_decide (0 ∈ eagle_group_ids (coordinator k))) dcp pcp
}.

(** The request is new: it holds no blocks, and its hashes are those of its full
    blocks, all different. *)
Record new_request k request : Prop := {
  nr_fresh : fresh (coordinator k) (request_id request);
  nr_computed : num_computed_tokens request = 0;
  nr_tokens : 0 < num_tokens request ≤ k_max_model_len k;
  nr_hashes : len (block_hashes request) = num_tokens request / hash_block_size (k_pool k);
  nr_nodup : NoDup (block_hashes request)
}.

Lemma create_one row : create_kv_cache_blocks [row] = if decide (row = []) then EmptyBlocks else Blocks [row].
Proof. unfold create_kv_cache_blocks. by destruct row. Qed.

Lemma kv_inv_stats reserved k free v :
  kv_inv reserved k free → kv_inv reserved (set_prefix_cache_stats (Some v) k) free.
Proof. intros []. by split. Qed.

(** The lookup returns a hit shorter than the request that [allocate_slots] accepts. *)
Lemma get_computed_blocks_ok k free request spec dcp pcp m :
  kv_inv [] k free → single_group k spec dcp pcp m → new_request k request →
  wp (get_computed_blocks request)
    (λ bn k', kv_inv [] k' free ∧ coordinator k' = coordinator k ∧ k_max_model_len k' = k_max_model_len k ∧
       log_stats k' = log_stats k ∧ 0 ≤ bn.2 < num_tokens request ∧
       (running_call k' request bn.2 (Some bn.1) 0 ∨ fresh_call k' request bn.2 (Some bn.1) 0)) k.
Proof.
  intros Hk [Hkind Hms Hbs Hhash Hready] [Hfr Hc0 Htok Hlen Hnd].
  pose proof (ki_coord _ _ _ Hk) as Hi. destruct (ci_pool _ _ _ Hi) as [Hwf _].
  assert (groups k !! 0%nat = Some m) as Hm by by rewrite Hms.
  pose proof (mt_bs _ _ _ (ci_static _ _ _ Hi 0%nat m Hm)) as Hb.
  assert (Hempty : ∀ k', coordinator k' = coordinator k → running_call k' request 0 (Some EmptyBlocks) 0).
  { intros k' Hk'. split_and!; [done..|]. rewrite Hc0, Hk'. split; [done|]. intros i m' Hm'.
    destruct (Hfr i m' Hm') as [_ ->]. by rewrite (@len_nil ref). }
  unfold get_computed_blocks. wp_prim. wp_prim. unfold Datatypes.id.
  destruct (negb (k_enable_caching k) || skip_reading_prefix_cache request) eqn:Hskip.
  { wp_prim. simpl. split_and!; [done..|lia|lia|]. left. by apply Hempty. }
  apply orb_false_iff in Hskip as [Hcaching%negb_false_iff _].
  destruct (single_group_lookup (k_pool k) free (block_hashes request) (num_tokens request - 1) spec
    (bool_decide (0 ∈ eagle_group_ids (coordinator k))) dcp pcp)
    as (cls & row & Hcls & Hfind & Hhits & Hle); [done|done|by rewrite <- Hbs|lia| |].
  { rewrite Hlen, Hhash, <- Hbs. apply Z.div_le_mono; lia. }
  unfold coord_find_longest_cache_hit. rewrite Hkind, Hcls. unfold k_pool in Hfind. rewrite Hfind.
  rewrite <- Hbs in *. cbn [first_len].
  eapply (wp_bind _ _ _ k), wp_mono with
    (λ _ k', kv_inv [] k' free ∧ coordinator k' = coordinator k ∧ k_max_model_len k' = k_max_model_len k ∧
       log_stats k' = log_stats k ∧ num_kv_cache_groups k' = num_kv_cache_groups k).
  { destruct (log_stats k) eqn:Hlog; [|wp_prim; by rewrite Hlog].
    destruct (ki_stats _ _ _ Hk Hlog) as [st Hst]. wp_prim. eapply wp_or_raise; [exact Hst|]. wp_prim.
    split_and!; try done. by apply kv_inv_stats. }
  intros [] k' (Hk' & Hco & Hml & Hlg & Hng). wp_prim. simpl. rewrite create_one. pose proof (len_nonneg row).
  split_and!; [done..|nia|lia|].
  destruct (decide (row = [])) as [->|Hrow]; [left; by apply Hempty|right].
  assert (computed_list k' (Some (Blocks [row])) = [row]) as Hcl by done.
  unfold fresh_call. rewrite Hcl, Hco. split_and!; try done; [..|split_and!; [nia|done|]|by left].
  - split.
    + by rewrite Hms.
    + intros [|i] bs Hbs'; [|done]. simpl in Hbs'. injection Hbs' as <-.
      by apply (hits_row_ok _ free 0 (block_hashes request)).
    + intros [|i] bs r Hbs' Hr Hv; [|done]. simpl in Hbs'. injection Hbs' as <-.
      apply list_elem_of_lookup_1 in Hr as [j Hj]. destruct (Hhits j r Hj) as [->|(h & _ & _ & Hb')].
      * unfold k_pool in Hv. rewrite (pw_null _ _ Hwf) in Hv. by apply valid_ne_null in Hv.
      * by exists h.
    + intros i bs Hoff _. pose proof (ki_caching _ _ _ Hk) as Hcc. unfold k_pool in Hcc. congruence.
    + done.
  - intros [|i] m' Hm'; [|by rewrite Hms in Hm'].
    rewrite Hm in Hm'. injection Hm' as <-. unfold hits_of. simpl. lia.
Qed.
End HitToSlots.

(** C19: The two steps the scheduler takes for a new request of a model with one KV-cache
    group, of any class the lookup supports, fit together: [get_computed_blocks] raises
    nothing and reports fewer tokens than the request has, so at least one is left to
    compute; and [allocate_slots], called with the blocks and the number of tokens it
    returned, raises nothing and keeps the invariant of the manager. *)
Theorem hit_then_allocate {E : Env} k free request spec dcp pcp m new_tokens lookahead delay enc :
  kv_inv [] k free → single_group k spec dcp pcp m → new_request k request →
  0 < new_tokens → 0 ≤ lookahead →
  ∃ b n k1, get_computed_blocks request k = (Ok (b, n), k1) ∧ 0 ≤ n < num_tokens request ∧
  ∃ o k2, allocate_slots request new_tokens n (Some b) lookahead 0 delay enc k1 = (Ok o, k2) ∧
  ∃ free', kv_inv [] k2 free'.
Proof.
  intros Hk Hsg Hnr Hnew Hlook. pose proof (get_computed_blocks_ok _ _ _ _ _ _ _ Hk Hsg Hnr) as Hget.
  apply wp_run in Hget as ([b n] & k1 & Hget & Hk1 & Hco & Hml & _ & Hn & Hcall). simpl in *.
  exists b, n, k1. split_and!; [done|lia|lia|]. destruct Hnr as [_ Hc0 Htok Hlen _].
  assert (slots_call k1 request new_tokens n (Some b) lookahead 0) as Hslots.
  { split; rewrite ?Hml, ?Hc0; try lia; [|done]. unfold k_pool in *. rewrite Hco. lia. }
  pose proof (allocate_slots_ok _ _ _ _ _ _ _ _ _ delay enc Hk1 Hslots) as Hrun.
  apply wp_run in Hrun as (o & k2 & Hrun & free' & Hk2 & _). exists o, k2. split; [done|by exists free'].
Qed.

(** ** Witness *)

#[local] Existing Instance test_env.

Definition one_group_config : KVCacheConfig := mkKVCacheConfig 8 [] [mkGroup ["a"] full2 false].
Definition one_group_start : KVCacheManager :=
  match kv_cache_manager_init one_group_config 16 2 None true false true false 1 1 None with
  | Ok k => k
  | Raise _ => dummy_manager
  end.

Lemma one_group_plain : Forall (plain_group 2 1 1) (kv_cache_groups one_group_config).
Proof. repeat constructor; vm_compute; (done || by eexists). Qed.

Lemma one_group_init :
  kv_cache_manager_init one_group_config 16 2 None true false true false 1 1 None = Ok one_group_start.
Proof. vm_compute. reflexivity. Qed.

(** A request of four tokens has been computed and freed. *)
Definition one_group_allocated : KVCacheManager :=
  snd (run_kv_call (AllocateSlots cached_request 4 0 None 0 0 false 0) one_group_start).
Definition one_group_used : KVCacheManager := snd (run_kv_call (Free cached_request) one_group_allocated).

Lemma one_group_reach : kv_reach one_group_start one_group_used.
Proof.
  unfold one_group_used. apply reach_call; [|exact I].
  unfold one_group_allocated. apply reach_call; [apply reach_init|].
  split; try (vm_compute; done).
  - by left.
  - left. split_and!; [done..|]. split; [done|]. intros i m Hm.
    destruct i as [|i]; [|by vm_compute in Hm]. vm_compute in Hm. injection Hm as <-. by vm_compute.
Qed.

Lemma one_group_used_inv : ∃ free, kv_inv [] one_group_used free.
Proof.
  destruct (kv_init_ok one_group_config 16 2 None true false true false 1 1 None one_group_start)
    as [Hk _]; [done|done|exact one_group_plain|exact one_group_init|].
  eapply kv_reach_inv; [exact Hk|exact one_group_reach].
Qed.

Definition first_manager (k : KVCacheManager) : Manager :=
  match single_type_managers (coordinator k) with
  | m :: _ => m
  | [] => manager_init full2 pool4 false 0 1 1 None
  end.

Lemma hit_then_allocate_witness :
  ∃ b n k1, get_computed_blocks longer_request one_group_used = (Ok (b, n), k1) ∧
    b = Blocks [[Blk 1; Blk 2]] ∧ n = 4 ∧
    ∃ o k2, allocate_slots longer_request 2 n (Some b) 0 0 false 0 k1 = (Ok o, k2) ∧
      ∃ free', kv_inv [] k2 free'.
Proof.
  destruct one_group_used_inv as [free Hk].
  destruct (hit_then_allocate one_group_used free longer_request full2 1 1 (first_manager one_group_used)
    2 0 false 0) as (b & n & k1 & Hget & _ & Halloc).
  - exact Hk.
  - split; vm_compute; reflexivity || exact I.
  - split; [|vm_compute; reflexivity|vm_compute; done|vm_compute; reflexivity|].
    + intros i m Hm. destruct i as [|i]; [|by vm_compute in Hm]. vm_compute in Hm. injection Hm as <-.
      split; vm_compute; reflexivity.
    + apply (bool_decide_unpack _). vm_compute. exact I.
  - lia.
  - lia.
  - exists b, n, k1. split; [exact Hget|].
    assert (fst (get_computed_blocks longer_request one_group_used) = Ok (Blocks [[Blk 1; Blk 2]], 4)) as Hv
      by (vm_compute; reflexivity).
    rewrite Hget in Hv. simpl in Hv. injection Hv as Hb Hn. split; [exact Hb|]. split; [exact Hn|exact Halloc].
Defined.
