(* ===== verification/KVService.v ===== *)
(** * What the scheduler relies on of the KV-cache manager

    The interface between vllm/v1/core/sched/scheduler.py and
    vllm/v1/core/kv_cache_manager.py.  For the scheduler, the manager holds for some
    requests the slots of a number of tokens; the laws of [KVService] say what the calls
    of a step do to these numbers, and that they raise nothing.  The manager of a model
    with one KV-cache group is shown to keep the laws. *)

From Stdlib Require Import QArith.
From S2P Require Import Prelude FreeQueue Request BlockHash BlockPool KVSpec CacheHit SingleType Accounting Coordinator CoordInv CoordOps KVManager KVSafety KVCalls HitToSlots.

#[local] Open Scope Z_scope.
#[local] Set Default Proof Using "Type*".

(** The request has the hashes of its full blocks, all different, and is shorter than the
    longest sequence of the model. *)
Record hashed (max_len hash_bs : Z) (q : Request) : Prop := {
  hd_tokens : 0 < num_tokens q < max_len;
  hd_hashes : len (block_hashes q) = num_tokens q / hash_bs;
  hd_nodup : NoDup (block_hashes q)
}.

(** A request other than [q] has slots. *)
Definition others_hold (cov : gmap string Z) (q : Request) : Prop := ∃ id n, id ≠ request_id q ∧ cov !! id = Some n.

(** [serves k cov]: the manager holds the slots of [n] tokens of request [id] when
    [cov !! id = Some n], and nothing of it when [cov !! id = None].  [hit_of k q b n]:
    the blocks [b] hold the first [n] tokens of [q]. *)
Class KVService {E : Env} (max_len hash_bs : Z) := {
  serves : KVCacheManager → gmap string Z → Prop;
  hit_of : KVCacheManager → Request → KVCacheBlocks → Z → Prop;
  (* whether there are blocks for a request of the greatest length *)
  srv_ample : bool;
  srv_pos k cov id n : serves k cov → cov !! id = Some n → 0 < n;
  srv_max k cov : serves k cov → k_max_model_len k = max_len;
  srv_groups k cov : serves k cov → (0 < num_kv_cache_groups k)%nat;
  srv_allocate k cov q n ncb c lookahead enc :
    serves k cov → hashed max_len hash_bs q → cov !! request_id q = Some c →
    0 ≤ num_computed_tokens q ≤ c → is_shared_empty ncb = true →
    0 < n → 0 ≤ lookahead → num_computed_tokens q + n ≤ max_len →
    wp (allocate_slots q n 0 ncb lookahead 0 false enc)
      (λ o k', match o with
               | None => serves k' cov ∧ (srv_ample = true → others_hold cov q)
               | Some _ => serves k' (<[request_id q := num_computed_tokens q + n]> cov)
               end) k;
  srv_lookup k cov q :
    serves k cov → hashed max_len hash_bs q → cov !! request_id q = None → num_computed_tokens q = 0 →
    wp (get_computed_blocks q)
      (λ bn k', serves k' cov ∧ 0 ≤ bn.2 < num_tokens q ∧ hit_of k' q bn.1 bn.2) k;
  srv_hit_ext k q q' b h :
    request_id q' = request_id q → num_computed_tokens q' = num_computed_tokens q → hit_of k q b h → hit_of k q' b h;
  srv_allocate_hit k cov q n b h lookahead enc :
    serves k cov → hashed max_len hash_bs q → cov !! request_id q = None → num_computed_tokens q = 0 →
    hit_of k q b h → 0 < n → 0 ≤ lookahead → h + n ≤ max_len →
    wp (allocate_slots q n h (Some b) lookahead 0 false enc)
      (λ o k', match o with
               | None => serves k' cov ∧ (srv_ample = true → others_hold cov q)
               | Some _ => serves k' (<[request_id q := h + n]> cov)
               end) k;
  srv_can_fit k cov q ncb c enc :
    serves k cov → cov !! request_id q = Some c → is_shared_empty ncb = true →
    wp (can_fit_full_sequence q 0 ncb 0 enc) (λ _ k', k' = k) k;
  srv_can_fit_hit k cov q b h enc :
    serves k cov → cov !! request_id q = None → hit_of k q b h → h ≤ max_len →
    wp (can_fit_full_sequence q h (Some b) 0 enc)
      (λ fits k', k' = k ∧ (fits = false → srv_ample = true → others_hold cov q)) k;
  srv_free k cov q :
    serves k cov → wp (kv_free q) (λ _ k', serves k' (delete (request_id q) cov)) k;
  srv_cache k cov q n c :
    serves k cov → hashed max_len hash_bs q → cov !! request_id q = Some c → 0 ≤ n ≤ c → n ≤ num_tokens q →
    wp (kv_cache_blocks q n) (λ _ k', serves k' cov) k;
  srv_common_prefix k cov id n :
    serves k cov → cov !! id = Some n → wp (kv_get_num_common_prefix_blocks id) (λ _ k', k' = k) k;
  srv_new_step k cov : serves k cov → wp kv_new_step_starts (λ _ k', k' = k) k;
  (* whether the manager keeps statistics *)
  srv_log : bool;
  srv_stats k cov : serves k cov →
    wp make_prefix_cache_stats (λ o k', serves k' cov ∧ (srv_log = true → is_Some o)) k;
  srv_events k cov : serves k cov → wp kv_take_events (λ _ k', serves k' cov) k;
  srv_metrics k cov m :
    serves k cov → serves (set_coordinator (set_block_pool (set_metrics_collector m (k_pool k)) (coordinator k)) k) cov
}.

(** ** The manager of a model with one group *)

Section Unitary.
Context {E : Env}.
Implicit Types (k : KVCacheManager) (c : Coordinator) (m : Manager) (free : list ref) (id : string).
Abbreviation ms_of c := (single_type_managers c).
Abbreviation groups k := (single_type_managers (coordinator k)).

(** The numbers of tokens are those the rows of the request cover. *)
Definition tracked c (cov : gmap string Z) : Prop :=
  ∀ id, match cov !! id with Some n => 0 < n ∧ covered c id n | None => fresh c id end.

(** The groups of [c'] are those of [c] but for request [id]. *)
Definition framed id c c' : Prop :=
  ∀ i m', ms_of c' !! i = Some m' → ∃ m, ms_of c !! i = Some m ∧ mgr_frame id m m'.

Lemma framed_forward id c c' :
  length (ms_of c') = length (ms_of c) →
  (∀ i m, ms_of c !! i = Some m → ∃ m', ms_of c' !! i = Some m' ∧ mgr_frame id m m') → framed id c c'.
Proof.
  intros Hlen Hall i m' Hm'. destruct (lookup_lt_is_Some_2 (ms_of c) i) as [m Hm].
  { apply lookup_lt_Some in Hm'. lia. }
  destruct (Hall i m Hm) as (m2 & Hm2 & Hf). assert (m2 = m') as -> by congruence. by exists m.
Qed.

Lemma frame_blocks id id' m m' : mgr_frame id m m' → id' ≠ id → blocks_of m' id' = blocks_of m id'.
Proof. intros Hf Hne. unfold blocks_of. by rewrite (mf_rows _ _ _ Hf). Qed.

Lemma tracked_framed id c c' cov (o : option Z) :
  tracked c cov → framed id c c' →
  match o with Some n => 0 < n ∧ covered c' id n | None => fresh c' id end →
  tracked c' (partial_alter (λ _, o) id cov).
Proof.
  intros Ht Hf Hid id'. destruct (decide (id = id')) as [<-|Hne].
  { by rewrite lookup_partial_alter_eq. }
  rewrite lookup_partial_alter_ne by done. specialize (Ht id'). destruct (cov !! id') as [n|].
  - destruct Ht as [Hn [H0 Hc]]. split; [done|]. split; [done|]. intros i m' Hm'.
    destruct (Hf i m' Hm') as (m & Hm & Hfr). rewrite (frame_blocks id id' m m' Hfr) by done.
    rewrite (mgr_frame_block_size _ _ _ Hfr). by apply (Hc i).
  - intros i m' Hm'. destruct (Hf i m' Hm') as (m & Hm & Hfr). destruct (Ht i m Hm) as [Hn Hb].
    rewrite (frame_blocks id id' m m' Hfr) by done. rewrite (mf_cached _ _ _ Hfr) by done. done.
Qed.

Lemma partial_alter_same (cov : gmap string Z) id o : cov !! id = o → partial_alter (λ _, o) id cov = cov.
Proof. intros <-. apply partial_alter_self. Qed.

Lemma trimmed_framed id c c' : trimmed id c c' → framed id c c'.
Proof. intros (_ & _ & Ht) i m' Hm'. destruct (Ht i m' Hm') as (m & ? & ? & _). by exists m. Qed.

Lemma trimmed_tracked id c c' cov : trimmed id c c' → tracked c cov → tracked c' cov.
Proof.
  intros Ht Hc. rewrite <- (partial_alter_same cov id (cov !! id)) by done.
  eapply tracked_framed; [done|by apply trimmed_framed|]. specialize (Hc id). destruct (cov !! id).
  - destruct Hc. split; [done|]. by eapply trimmed_covered.
  - by eapply trimmed_fresh.
Qed.

(** A comprehension over the groups whose body only reads. *)
Lemma collect_managers_pure {A} (body : nat → M KV A) c :
  (∀ i m, ms_of c !! i = Some m →
     wp (body i) (λ _ s', s' = mkKV (block_pool c) m) (mkKV (block_pool c) m)) →
  wp (collect_managers body) (λ _ c', c' = c) c.
Proof.
  intros Hbody. unfold collect_managers. wp_prim. wp_prim.
  assert (∀ n j, (j + n = length (ms_of c))%nat →
    wp (collect (seq j n) (λ i, on_manager i (body i))) (λ _ c', c' = c) c) as Hall; [|by apply Hall].
  induction n as [|n IH]; intros j Hj; cbn [seq collect]; [by apply wp_ret|].
  destruct (lookup_lt_is_Some_2 (ms_of c) j) as [m Hm]; [lia|].
  wp_prim. eapply wp_on_manager; [done|]. eapply wp_mono; [by apply Hbody|]. intros a s' ->.
  assert (put_manager j (mkKV (block_pool c) m) c = c) as ->.
  { destruct c. unfold put_manager. simpl in *. by rewrite list_insert_id. }
  wp_prim. eapply wp_mono; [apply (IH (S j)); lia|]. intros as_ c' ->. by wp_prim.
Qed.

Context (spec : KVCacheSpec) (dcp pcp max_len hash_bs : Z) (log ample : bool).

Record unitary_serves k (cov : gmap string Z) : Prop := {
  us_inv : ∃ free, kv_inv [] k free;
  us_group : ∃ m, single_group k spec dcp pcp m;
  us_max : k_max_model_len k = max_len;
  us_log : log_stats k = log;
  us_hash : hash_block_size (k_pool k) = hash_bs;
  us_ample : ample = true → cdiv max_len hash_bs < num_gpu_blocks (k_pool k);
  us_tracked : tracked (coordinator k) cov
}.

Definition unitary_hit k (q : Request) (b : KVCacheBlocks) (n : Z) : Prop :=
  0 ≤ n ∧ (running_call k q n (Some b) 0 ∨ fresh_call k q n (Some b) 0).

Lemma single_group_same k k' m :
  single_group k spec dcp pcp m → coord_same (coordinator k) (coordinator k') →
  (∃ id, framed id (coordinator k) (coordinator k')) → ∃ m', single_group k' spec dcp pcp m'.
Proof.
  intros [Hk Hg Hb Hh Hr] (_ & _ & _ & He & Hki & Hcfg & Hlen) [id Hf].
  destruct (ms_of (coordinator k')) as [|m' l] eqn:Hms; [by rewrite Hg in Hlen|].
  assert (l = []) as -> by (apply nil_length_inv; rewrite Hg in Hlen; simpl in Hlen; lia).
  exists m'. assert (m_block_size m' = m_block_size m) as Hbs.
  { destruct (Hf 0%nat m') as (m0 & Hm0 & Hfr); [by rewrite Hms|]. rewrite Hg in Hm0. simplify_eq/=.
    by eapply mgr_frame_block_size. }
  split; [by rewrite Hki|done|congruence| |by rewrite He].
  unfold k_pool, config in *. congruence.
Qed.

(** A step of the manager that keeps its settings. *)
Lemma serves_step k k' cov cov' free' :
  unitary_serves k cov → kv_inv [] k' free' → k_max_model_len k' = k_max_model_len k → log_stats k' = log_stats k →
  coord_same (coordinator k) (coordinator k') → (∃ id, framed id (coordinator k) (coordinator k')) →
  tracked (coordinator k') cov' → unitary_serves k' cov'.
Proof.
  intros [_ [m Hg] Hm Hlog Hh Ha _] Hk' Hml Hlg Hs Hf Ht. split; [by eexists| |congruence|congruence| | |done].
  - by eapply single_group_same.
  - destruct Hs as (_ & _ & _ & _ & _ & Hcfg & _). unfold k_pool, config in *. congruence.
  - destruct Hs as (_ & _ & _ & _ & _ & Hcfg & _). unfold k_pool, config in *. injection Hcfg as Hc. intros. rewrite Hc. auto.
Qed.

(** ** How many blocks a request asks for *)

Lemma evictable_le p bs : _get_num_evictable_blocks p bs ≤ len bs.
Proof. unfold _get_num_evictable_blocks, len. pose proof (length_filter (λ r, ref_cnt (hp p !!! r) = 0 ∧ is_null (hp p !!! r) = false) bs). lia. Qed.

(** No more than it takes to cover its tokens, or the blocks it brings along. *)
Lemma base_need m p id tokens new total cap :
  num_cached_block m !! id = None ∨ new = [] →
  wp (base_get_num_blocks_to_allocate id tokens new total cap)
    (λ n s', s' = mkKV p m ∧
       n ≤ Z.max (cdiv tokens (m_block_size m)) (len new + len (blocks_of m id)) - len (blocks_of m id)) (mkKV p m).
Proof.
  intros Hor. unfold base_get_num_blocks_to_allocate. wp_prim. wp_prim. unfold Datatypes.id. cbn [kv_mgr kv_pool].
  set (req := match _max_admission_blocks_per_request m with Some _ => _ | None => _ end).
  assert (req ≤ cdiv tokens (m_block_size m)) as Hreq.
  { unfold req. destruct (_max_admission_blocks_per_request m); [destruct cap|]; lia. }
  clearbody req. pose proof (len_nonneg new). destruct (bool_decide_reflect (is_Some (num_cached_block m !! id))) as [Hs|Hs].
  - destruct Hor as [Hn| ->]; [rewrite Hn in Hs; by destruct Hs|]. wp_prim. apply wp_assert; [done|]. wp_prim.
    split; [done|]. unfold len. simpl. lia.
  - wp_prim. split; [done|]. set (sk := get_num_skipped_tokens m total / m_block_size m).
    pose proof (evictable_le p (py_slice_from new (Z.max 0 (sk - len (blocks_of m id))))) as He.
    revert He. rewrite py_slice_from_nonneg by lia. unfold len. rewrite length_drop. unfold len in *. lia.
Qed.

Lemma single_need k m free id tokens new enc total main cap :
  kv_inv [] k free → groups k = [m] → num_cached_block m !! id = None ∨ new = [] →
  wp (coord_get_num_blocks_to_allocate id tokens [new] enc total main cap)
    (λ n c', c' = coordinator k ∧
       n ≤ Z.max (cdiv tokens (m_block_size m)) (len new + len (blocks_of m id)) - len (blocks_of m id)) (coordinator k).
Proof.
  intros Hk Hg Hor. assert (groups k !! 0%nat = Some m) as Hm by by rewrite Hg.
  destruct (ci_static _ _ _ (ki_coord _ _ _ Hk) 0 m Hm) as [Hsp _ _ _ _]. destruct (standard_not_mamba _ Hsp) as [Hnm Hnc].
  unfold coord_get_num_blocks_to_allocate, collect_managers. wp_prim. wp_prim. wp_prim. rewrite Hg. cbn [length seq collect].
  wp_prim. eapply wp_on_manager; [exact Hm|].
  eapply wp_mono with (λ n s', s' = mkKV (block_pool (coordinator k)) m ∧
    n ≤ Z.max (cdiv tokens (m_block_size m)) (len new + len (blocks_of m id)) - len (blocks_of m id)).
  { wp_mgr. rewrite Hnc. wp_prim. eapply wp_or_raise; [done|]. unfold get_num_blocks_to_allocate. wp_mgr. rewrite Hnm. by apply base_need. }
  intros n s' [-> Hn]. assert (put_manager 0 (mkKV (block_pool (coordinator k)) m) (coordinator k) = coordinator k) as ->.
  { destruct (coordinator k). unfold put_manager. simpl in *. by rewrite list_insert_id. }
  wp_prim. wp_prim. wp_prim. split; [done|]. unfold sumZ. simpl. lia.
Qed.

(** What one request does not hold is free. *)
Lemma free_beside k m free id :
  kv_inv [] k free → groups k = [m] → (∀ id', id' ≠ id → blocks_of m id' = []) →
  num_gpu_blocks (k_pool k) - 1 - len (blocks_of m id) ≤ len free.
Proof.
  intros Hk Hg Hoth. pose proof (ki_coord _ _ _ Hk) as Hi. destruct (ci_pool _ _ _ Hi) as [Hwf _].
  assert (Blk <$> seq 1 (nblocks (k_pool k) - 1) ⊆+ free ++ blocks_of m id) as Hsub.
  { apply NoDup_submseteq; [apply NoDup_fmap_2; [by intros ?? [=]|apply NoDup_seq]|].
    intros r (i & -> & Hin)%list_elem_of_fmap. apply elem_of_seq in Hin. apply elem_of_app.
    destruct (decide (Blk i ∈ blocks_of m id)) as [Hb|Hb]; [by right|left].
    apply (free_iff_unused k free); [done|exists i; split; [done|lia]|].
    intros j m' id' Hm'. rewrite Hg in Hm'. destruct j; [|done]. injection Hm' as <-.
    destruct (decide (id' = id)) as [->|Hne]; [done|]. rewrite Hoth by done. apply not_elem_of_nil. }
  apply submseteq_length in Hsub. rewrite length_fmap, length_seq, length_app in Hsub.
  unfold len, nblocks, k_pool in *. lia.
Qed.

(** A request that is alone gets what it asks for. *)
Lemma alone_fits k m cov free q tokens new enc total main cap :
  unitary_serves k cov → kv_inv [] k free → groups k = [m] → num_cached_block m !! request_id q = None ∨ new = [] →
  new = [] ∨ blocks_of m (request_id q) = [] → len new * m_block_size m ≤ max_len → tokens ≤ max_len →
  wp (coord_get_num_blocks_to_allocate (request_id q) tokens [new] enc total main cap)
    (λ n c', c' = coordinator k ∧ (ample = true → len free < n → others_hold cov q)) (coordinator k).
Proof.
  intros Hsv Hk Hg Hor Hor2 Hnew Htok. eapply wp_mono; [by eapply single_need|]. intros n c' [-> Hn]. split; [done|]. intros Ha Hlt.
  destruct (decide (map_Forall (λ id (_ : Z), id = request_id q) cov)) as [Hall|Hex].
  2: { rewrite map_not_Forall in Hex by solve_decision. destruct Hex as (id & x & Hid & Hne). exists id, x. split; [exact Hne|exact Hid]. }
  exfalso. assert (groups k !! 0%nat = Some m) as Hm by by rewrite Hg.
  pose proof (free_beside k m free (request_id q) Hk Hg) as Hfree. destruct (us_group _ _ Hsv) as (m' & [_ Hg' _ Hh _]).
  assert (m' = m) as -> by congruence. pose proof (us_hash _ _ Hsv) as Hhb. pose proof (us_ample _ _ Hsv Ha) as Hamp.
  assert (0 < m_block_size m) as Hb by (eapply ci_static; [apply Hk|done]).
  assert (m_block_size m = hash_bs) as Hbs by congruence. rewrite Hbs in *.
  pose proof (cdiv_le _ _ _ Hb Htok). pose proof (cdiv_spec max_len _ Hb). pose proof (len_nonneg new). pose proof (len_nonneg free).
  assert (len new ≤ cdiv max_len hash_bs) by nia.
  assert (num_gpu_blocks (k_pool k) - 1 - len (blocks_of m (request_id q)) ≤ len free).
  { apply Hfree. intros id' Hne. pose proof (us_tracked _ _ Hsv id') as Ht.
    destruct (cov !! id') as [x|] eqn:Hc; [by apply Hall in Hc|]. by apply (Ht 0%nat m). }
  destruct Hor2 as [-> | Hr]; [rewrite len_nil in *|rewrite Hr, len_nil in *]; lia.
Qed.

(** The blocks of a call on a manager with one group. *)
Lemma call_list k m free q nc ncb :
  kv_inv [] k free → groups k = [m] → running_call k q nc ncb 0 ∨ fresh_call k q nc ncb 0 →
  ∃ new, computed_list k ncb = [new] ∧ (num_cached_block m !! request_id q = None ∨ new = []) ∧
    (new = [] ∨ blocks_of m (request_id q) = []) ∧ len new * m_block_size m ≤ Z.max 0 nc.
Proof.
  intros Hk Hg [(He & _)|(_ & _ & Hf & [Hl _ _ _ _] & (H0 & _ & Hfit) & _)]; assert (groups k !! 0%nat = Some m) as Hm by by rewrite Hg.
  - exists []. split_and!; [|by right|by left|unfold len; simpl; lia].
    assert (num_kv_cache_groups k = 1%nat) as Hn by by rewrite (ki_groups _ _ _ Hk), Hg. by destruct ncb as [[]|]; unfold computed_list; simpl; rewrite ?Hn.
  - rewrite Hg in Hl. destruct (computed_list k ncb) as [|new [|]] eqn:Hc; [done| |done]. exists new.
    specialize (Hfit 0%nat m Hm). destruct (Hf 0%nat m Hm) as [Hn Hb]. split_and!; [done|by left|by right|]. unfold hits_of in Hfit. simpl in Hfit. lia.
Qed.

Lemma call_fits k m cov free q nc ncb tokens total main enc need :
  unitary_serves k cov → kv_inv [] k free → groups k = [m] → running_call k q nc ncb 0 ∨ fresh_call k q nc ncb 0 →
  Z.max 0 nc ≤ max_len → tokens ≤ max_len → predicted k q tokens ncb total main enc = Ok need → len free < need →
  ample = true → others_hold cov q.
Proof.
  intros Hsv Hk Hg Hcall Hnc Htok Hpred Hlt Ha. destruct (call_list _ _ _ _ _ _ Hk Hg Hcall) as (new & Hc & Hor & Hor2 & Hlen).
  pose proof (alone_fits k m cov free q tokens new enc total main false Hsv Hk Hg Hor Hor2 ltac:(lia) Htok) as Hw.
  apply wp_run in Hw as (n & c' & Hrun & _ & Hn). unfold predicted in Hpred. rewrite Hc, Hrun in Hpred. injection Hpred as ->. auto.
Qed.

Lemma serves_call k cov q n nc ncb lookahead enc :
  unitary_serves k cov → hashed max_len hash_bs q → 0 < n → 0 ≤ lookahead → 0 ≤ nc →
  num_computed_tokens q + nc + n ≤ max_len → 0 ≤ num_computed_tokens q →
  running_call k q nc ncb 0 ∨ fresh_call k q nc ncb 0 →
  wp (allocate_slots q n nc ncb lookahead 0 false enc)
    (λ o k', match o with
             | None => unitary_serves k' cov ∧ (ample = true → others_hold cov q)
             | Some _ => unitary_serves k' (<[request_id q := num_computed_tokens q + nc + n]> cov)
             end) k.
Proof.
  intros Hsv [Htok Hlen _] Hn Hlook Hnc Hle H0 Hcall. destruct Hsv as [[free Hk] Hgr Hmax Hlog Hhash Hamp Htr] eqn:Hsv'.
  clear Hsv'. eapply wp_mono.
  { eapply allocate_slots_ok; [exact Hk|]. split; try lia; [|done]. rewrite Hhash. lia. }
  intros o k' (free' & Hk' & (Heq & Hs & Htrim) & Hno & Hall).
  assert (k_max_model_len k' = k_max_model_len k) as Hml by by rewrite Heq.
  assert (framed (request_id q) (coordinator k) (coordinator k')) as Hfr.
  { apply framed_forward; [apply Hs|]. intros i m Hm. destruct (Hall i m Hm) as (m' & ? & ? & _). by exists m'. }
  destruct o as [b|].
  - eapply serves_step; [exact Hsv|exact Hk'|done|by rewrite Heq|done|by eexists|].
    apply (tracked_framed (request_id q) _ _ cov (Some _) Htr Hfr). split; [lia|].
    split; [lia|]. intros i m' Hm'. destruct (Hfr i m' Hm') as (m & Hm & Hf).
    destruct (Hall i m Hm) as (m2 & Hm2 & _ & Hc & _). assert (m2 = m') as -> by congruence.
    rewrite (mgr_frame_block_size _ _ _ Hf).
    assert (0 < m_block_size m) as Hb by (eapply ci_static; [apply Hk|done]).
    rewrite Hmax, Z.add_0_r in Hc. pose proof (cdiv_spec (Z.min (num_computed_tokens q + nc + n + lookahead) max_len) _ Hb).
    nia.
  - specialize (Htrim eq_refl). destruct (Hno eq_refl) as (need & Hpred & Hlt).
    assert (unitary_serves k' cov) as Hsv'.
    { eapply serves_step; [exact Hsv|exact Hk'|done|by rewrite Heq|done|by eexists|]. by eapply trimmed_tracked. }
    split; [done|]. destruct (us_group _ _ Hsv') as [m' Hg']. pose proof (sg_groups _ _ _ _ _ Hg') as Hgs.
    eapply (call_fits k' m' cov free' q nc ncb); [done..|by eapply call_trimmed|lia| |exact Hpred|done]. rewrite Hmax. lia.
Qed.

(** A hit is for a request that holds nothing. *)
Lemma serves_lookup k cov q :
  unitary_serves k cov → hashed max_len hash_bs q → cov !! request_id q = None → num_computed_tokens q = 0 →
  wp (get_computed_blocks q)
    (λ bn k', unitary_serves k' cov ∧ 0 ≤ bn.2 < num_tokens q ∧ unitary_hit k' q bn.1 bn.2) k.
Proof.
  intros Hsv [Htok Hlen Hnd] Hnone H0. destruct Hsv as [[free Hk] [m Hg] Hmax Hlog Hhash Hamp Htr].
  pose proof (Htr (request_id q)) as Hfr. rewrite Hnone in Hfr.
  eapply wp_mono; [eapply get_computed_blocks_ok; [done|done|split; try done; [lia|by rewrite Hhash]]|].
  intros [b n] k' (Hk' & Hco & Hml & Hlg & Hn & Hc). simpl in *. split_and!; [|lia..|split; [lia|done]].
  split; [by eexists| |congruence|congruence| | |].
  - exists m. destruct Hg. split; unfold k_pool in *; by rewrite ?Hco.
  - unfold k_pool in *. by rewrite Hco.
  - unfold k_pool in *. by rewrite Hco.
  - by rewrite Hco.
Qed.

(** The question whether a whole request fits changes nothing. *)
Lemma can_fit_reads k free q nc ncb enc :
  kv_inv [] k free → length (computed_list k ncb) = length (groups k) →
  (∀ i m, groups k !! i = Some m →
     num_cached_block m !! request_id q = None ∨ computed_list k ncb !! i = Some []) →
  wp (can_fit_full_sequence q nc ncb 0 enc) (λ _ k', k' = k) k.
Proof.
  intros Hk Hlen Hok. unfold can_fit_full_sequence. wp_prim. wp_prim. unfold Datatypes.id. wp_prim.
  apply wp_on_coord. unfold coord_get_num_blocks_to_allocate. wp_prim.
  eapply wp_mono with (λ _ c', c' = coordinator k).
  - apply collect_managers_pure. intros i m Hm. destruct (Hok i m Hm) as [Hnone|Hnil].
    all: destruct (ci_static _ _ _ (ki_coord _ _ _ Hk) i m Hm) as [Hsp _ _ _ _];
      destruct (standard_not_mamba _ Hsp) as [Hnm Hnc]; wp_mgr; rewrite Hnc.
    + destruct (lookup_lt_is_Some_2 (computed_list k ncb) i) as [bs Hbs].
      { rewrite Hlen. by eapply lookup_lt_Some. }
      wp_prim. eapply wp_or_raise; [exact Hbs|]. unfold get_num_blocks_to_allocate. wp_mgr. rewrite Hnm.
      unfold base_get_num_blocks_to_allocate. wp_mgr. rewrite Hnone, bool_decide_false by (by intros [? ?]). by wp_prim.
    + wp_prim. eapply wp_or_raise; [exact Hnil|]. unfold get_num_blocks_to_allocate. wp_mgr. rewrite Hnm.
      unfold base_get_num_blocks_to_allocate. wp_mgr.
      destruct (bool_decide _); [|by wp_prim]. wp_prim. apply wp_assert; [done|]. by wp_prim.
  - intros ns c' ->. wp_prim. wp_prim. apply set_coordinator_id.
Qed.

Lemma serves_can_fit k cov q ncb (c : Z) enc :
  unitary_serves k cov → cov !! request_id q = Some c → is_shared_empty ncb = true →
  wp (can_fit_full_sequence q 0 ncb 0 enc) (λ _ k', k' = k) k.
Proof.
  intros [[free Hk] _ _ _ _ _ _] _ He.
  assert (computed_list k ncb = replicate (length (groups k)) []) as Hcl.
  { rewrite <- (ki_groups _ _ _ Hk). by destruct ncb as [[]|]. }
  eapply can_fit_reads; [exact Hk|by rewrite Hcl, length_replicate|]. intros i m Hm. right. rewrite Hcl.
  apply lookup_replicate. split; [done|]. by eapply lookup_lt_Some.
Qed.

Lemma serves_can_fit_hit k cov q b h enc :
  unitary_serves k cov → cov !! request_id q = None → unitary_hit k q b h → h ≤ max_len →
  wp (can_fit_full_sequence q h (Some b) 0 enc) (λ fits k', k' = k ∧ (fits = false → ample = true → others_hold cov q)) k.
Proof.
  intros Hsv Hnone [H0 Hc] Hh. destruct (us_inv _ _ Hsv) as [free Hk]. destruct (us_group _ _ Hsv) as [m Hg].
  pose proof (sg_groups _ _ _ _ _ Hg) as Hgs. destruct (call_list _ _ _ _ _ _ Hk Hgs Hc) as (new & Hl & Hor & Hor2 & Hlen).
  unfold can_fit_full_sequence. wp_prim. wp_prim. unfold Datatypes.id. rewrite Hl. wp_prim. apply wp_on_coord.
  eapply wp_mono; [eapply (alone_fits k m cov free q _ new enc _ _ true Hsv Hk Hgs Hor Hor2); [lia|]|].
  { rewrite (us_max _ _ Hsv). lia. }
  intros n c' [-> Hn]. rewrite set_coordinator_id. wp_prim. split; [done|]. rewrite (num_free_len _ _ _ Hk).
  intros Hf%Z.leb_gt Ha. by apply Hn.
Qed.

Lemma serves_free k cov q :
  unitary_serves k cov → wp (kv_free q) (λ _ k', unitary_serves k' (delete (request_id q) cov)) k.
Proof.
  intros Hsv. destruct (us_inv _ _ Hsv) as [free Hk]. apply wp_on_coord.
  eapply wp_mono; [eapply coord_free_ok; apply Hk|]. intros [] c' (more & Hi & Hs & Hall).
  assert (framed (request_id q) (coordinator k) c') as Hfr.
  { apply framed_forward; [apply Hs|]. intros i m Hm. destruct (Hall i m Hm) as (m' & ? & ? & _). by exists m'. }
  eapply serves_step; [exact Hsv|by eapply kv_inv_coord|done|done|done|by eexists|].
  apply (tracked_framed (request_id q) (coordinator k) c' cov None (us_tracked _ _ Hsv) Hfr).
  intros i m' Hm'. destruct (Hfr i m' Hm') as (m & Hm & _). destruct (Hall i m Hm) as (m2 & Hm2 & _ & Hb & Hn).
  assert (m2 = m') as -> by congruence. split; [done|]. unfold blocks_of. by rewrite Hb.
Qed.

Lemma covered_cdiv k free id n i m :
  kv_inv [] k free → covered (coordinator k) id n → groups k !! i = Some m →
  cdiv n (m_block_size m) ≤ len (blocks_of m id).
Proof.
  intros Hk [_ Hc] Hm. specialize (Hc i m Hm).
  assert (0 < m_block_size m) as Hb by (eapply ci_static; [apply Hk|done]).
  pose proof (cdiv_spec n _ Hb). nia.
Qed.

Lemma serves_cache k cov q n (c : Z) :
  unitary_serves k cov → hashed max_len hash_bs q → cov !! request_id q = Some c → 0 ≤ n ≤ c → n ≤ num_tokens q →
  wp (kv_cache_blocks q n) (λ _ k', unitary_serves k' cov) k.
Proof.
  intros Hsv [Htok Hlen _] Hcov Hn Hnt. destruct (us_inv _ _ Hsv) as [free Hk].
  unfold kv_cache_blocks. wp_prim. wp_prim. unfold Datatypes.id.
  destruct (k_enable_caching k) eqn:Hcaching; [|by wp_prim].
  pose proof (us_tracked _ _ Hsv (request_id q)) as Hc. rewrite Hcov in Hc. destruct Hc as [Hpos Hc].
  eapply wp_mono.
  { eapply cache_grown_ok; [exact Hk|done|lia|rewrite (us_hash _ _ Hsv); lia|]. intros i m Hm.
    eapply covered_cdiv; [done| |done]. destruct Hc as [_ Hc]. split; [lia|]. intros j mj Hj. specialize (Hc j mj Hj). lia. }
  intros [] k' (Hk' & Heq & Hs & Hall).
  assert (framed (request_id q) (coordinator k) (coordinator k')) as Hfr.
  { apply framed_forward; [apply Hs|]. intros i m Hm. destruct (Hall i m Hm) as (m' & ? & ? & _). by exists m'. }
  eapply serves_step; [exact Hsv|exact Hk'|by rewrite Heq|by rewrite Heq|done|by eexists|].
  rewrite <- (partial_alter_same cov (request_id q) (Some c)) by done.
  apply (tracked_framed (request_id q) (coordinator k)); [apply Hsv|done|]. split; [done|].
  destruct Hc as [H0 Hc]. split; [done|]. intros i m' Hm'. destruct (Hfr i m' Hm') as (m & Hm & Hf).
  destruct (Hall i m Hm) as (m2 & Hm2 & _ & Hb). assert (m2 = m') as -> by congruence.
  rewrite Hb, (mgr_frame_block_size _ _ _ Hf). by apply (Hc i).
Qed.

Lemma serves_common_prefix k cov id n :
  unitary_serves k cov → cov !! id = Some n → wp (kv_get_num_common_prefix_blocks id) (λ _ k', k' = k) k.
Proof.
  intros [[free Hk] _ _ _ _ _ Ht] Hcov. specialize (Ht id). rewrite Hcov in Ht. destruct Ht as [Hn [_ Hc]].
  unfold kv_get_num_common_prefix_blocks. apply wp_on_coord.
  eapply wp_mono with (λ _ c', c' = coordinator k); [|intros _ c' ->; apply set_coordinator_id].
  unfold coord_get_num_common_prefix_blocks. wp_prim. wp_prim.
  assert (wp (collect_managers (λ _, get_num_common_prefix_blocks id)) (λ _ c', c' = coordinator k)
    (coordinator k)) as Hgo; [|destruct (c_kind (coordinator k)); [by wp_prim|exact Hgo..]].
  apply collect_managers_pure. intros i m Hm. unfold get_num_common_prefix_blocks. wp_mgr.
  destruct (is_full_attention (m_kv_cache_spec m)); [|by wp_prim]. unfold read_row. wp_mgr.
  specialize (Hc i m Hm). unfold default_row, blocks_of in *. destruct (req_to_blocks m !! id); [done|].
  simpl in Hc. unfold len in Hc. simpl in Hc. lia.
Qed.

Lemma serves_new_step k cov : unitary_serves k cov → wp kv_new_step_starts (λ _ k', k' = k) k.
Proof.
  intros [[free Hk] _ _ _ _ _ _]. unfold kv_new_step_starts, coord_new_step_starts. apply wp_on_coord.
  eapply wp_mono with (λ _ c', c' = coordinator k); [|intros _ c' ->; apply set_coordinator_id].
  unfold for_managers. wp_prim. wp_prim. apply wp_for_collect.
  assert (wp (collect_managers (λ _, new_step_starts)) (λ _ c', c' = coordinator k) (coordinator k)) as Hgo.
  { apply collect_managers_pure. intros i m Hm. unfold new_step_starts. wp_mgr.
    destruct (ci_static _ _ _ (ki_coord _ _ _ Hk) i m Hm) as [Hsp _ _ _ _].
    destruct (standard_not_mamba _ Hsp) as [-> _]. done. }
  exact Hgo.
Qed.

(** A step of the pool that leaves the groups and the counts alone. *)
Lemma serves_pool k p' free cov :
  unitary_serves k cov → kv_inv [] k free →
  pool_step (k_pool k) p' free (rc (k_pool k)) (bhash (k_pool k)) →
  unitary_serves (set_coordinator (set_block_pool p' (coordinator k)) k) cov.
Proof.
  intros Hsv Hk Hs. eapply serves_step; [exact Hsv|eapply kv_pool_step; [exact Hk|exact Hs|by left]|done|done| | |].
  - pose proof (ps_config _ _ _ _ _ Hs). by split_and!.
  - exists EmptyString. intros i m Hm. exists m. split; [exact Hm|]. by split.
  - intros id. pose proof (us_tracked _ _ Hsv id) as Ht. by destruct (cov !! id).
Qed.

Lemma serves_events k cov : unitary_serves k cov → wp kv_take_events (λ _ k', unitary_serves k' cov) k.
Proof.
  intros Hsv. destruct (us_inv _ _ Hsv) as [free Hk]. destruct (ci_pool _ _ _ (ki_coord _ _ _ Hk)) as [Hwf _].
  apply wp_on_block_pool. unfold BlockPool.take_events. wp_prim. wp_prim.
  destruct (enable_kv_cache_events (k_pool k)); simpl; repeat wp_prim; (eapply serves_pool; [done|exact Hk|]);
    [apply pool_step_then_events|]; by apply pool_step_refl.
Qed.

Lemma serves_metrics k cov v :
  unitary_serves k cov →
  unitary_serves (set_coordinator (set_block_pool (set_metrics_collector v (k_pool k)) (coordinator k)) k) cov.
Proof.
  intros Hsv. destruct (us_inv _ _ Hsv) as [free Hk]. destruct (ci_pool _ _ _ (ki_coord _ _ _ Hk)) as [Hwf _].
  eapply serves_pool; [done|exact Hk|]. by apply pool_step_metrics.
Qed.

Lemma serves_stats k cov :
  unitary_serves k cov →
  wp make_prefix_cache_stats (λ o k', unitary_serves k' cov ∧ (log = true → is_Some o)) k.
Proof.
  intros Hsv. destruct (us_inv _ _ Hsv) as [free Hk]. pose proof (us_log _ _ Hsv) as Hl.
  unfold make_prefix_cache_stats. wp_prim. wp_prim. unfold Datatypes.id.
  destruct (log_stats k) eqn:Hlog; simpl; repeat wp_prim; [|split; [done|congruence]].
  split; [|intros _; by apply (ki_stats _ _ _ Hk)].
  assert (kv_inv [] (set_prefix_cache_stats (Some new_stats) k) free) as Hk' by (destruct Hk; by split).
  destruct Hsv as [_ [m []] ? ? ? ? ?]. split; [by eexists|exists m; by split|done|simpl; congruence|done|done|done].
Qed.

(** The manager that the constructor builds holds nothing. *)
Lemma unitary_init config g batched eagle events metrics k :
  kv_cache_manager_init config max_len hash_bs batched true eagle log events dcp pcp metrics = Ok k →
  kv_cache_groups config = [g] → kv_cache_spec g = spec → 0 < num_blocks config → 0 < hash_bs → 0 < dcp → 0 < pcp →
  plain_group hash_bs dcp pcp g → lookup_ready spec (bool_decide (0 ∈ eagle_ids_of config eagle)) dcp pcp →
  (ample = true → cdiv max_len hash_bs < num_blocks config) →
  unitary_serves k ∅.
Proof.
  intros Hinit Hg Hspec Hn Hh Hd Hp0 Hpl Hr Ham.
  assert (Forall (plain_group hash_bs dcp pcp) (kv_cache_groups config)) as Hgs by (rewrite Hg; by constructor).
  destruct (kv_init_ok _ _ _ _ _ _ _ _ _ _ _ _ Hn Hh Hgs Hinit) as [Hk Hm].
  revert Hinit. unfold kv_cache_manager_init, get_kv_cache_coordinator.
  destruct (pool_init_ok (num_blocks config) true hash_bs events metrics Hn) as (p & Hp & _ & Hcfg & _).
  cbn [negb]. rewrite Hp.
  destruct (build_managers_plain (kv_cache_groups config) 0 (default max_len batched) max_len true dcp pcp
    hash_bs p Hgs) as (ms & -> & Hlen & Hms).
  rewrite Hg in Hlen, Hms |- *. destruct ms as [|m [|]]; [done| |done]. change (len [g] =? 1) with true.
  unfold unitary_kind. rewrite Hg, Hspec. cbn [andb].
  set (bs := if 1 <? pcp then _ else _). assert (bs = parallel_block_size (block_size spec) dcp pcp) as Hbs.
  { unfold bs, parallel_block_size.
    destruct (Z.ltb_spec 1 dcp), (Z.ltb_spec 1 pcp), (Z.ltb_spec 1 (dcp * pcp));
      try (assert (pcp = 1) as -> by lia); try (assert (dcp = 1) as -> by lia); nia. }
  destruct (hash_bs =? bs) eqn:He; [|done]. apply Z.eqb_eq in He. cbn [negb]. rewrite bool_decide_true by done. cbn [negb].
  intros [= <-]. destruct (Hms 0%nat m) as (g' & cap & [= <-] & Hmi); [done|].
  unfold BlockPool.config in Hcfg. injection Hcfg as Hc1 Hc2 Hc3 Hc4 Hc5 Hc6.
  split; unfold k_pool; simpl in *; [by eexists| |done|done|done|by rewrite Hc1|].
  - exists m. rewrite Hspec in Hmi. split; unfold k_pool; simpl; [by rewrite Hbs|done|by rewrite Hmi|rewrite Hmi; simpl; congruence|done].
  - intros id. rewrite lookup_empty. intros [|i] m' Hm'; [|done]. injection Hm' as <-. by rewrite Hmi.
Qed.
End Unitary.

#[export] Program Instance unitary_service {E : Env} (spec : KVCacheSpec) (dcp pcp max_len hash_bs : Z) (log ample : bool) :
    KVService max_len hash_bs := {|
  serves := unitary_serves spec dcp pcp max_len hash_bs log ample;
  hit_of := unitary_hit;
  srv_log := log;
  srv_ample := ample
|}.
Next Obligation.
  intros E spec dcp pcp max_len hash_bs log ample k cov id n Hs Hc. pose proof (us_tracked _ _ _ _ _ _ _ _ _ Hs id) as Ht.
  rewrite Hc in Ht. by destruct Ht.
Qed.
Next Obligation. intros E spec dcp pcp max_len hash_bs log ample k cov Hs. by eapply us_max. Qed.
Next Obligation.
  intros E spec dcp pcp max_len hash_bs log ample k cov [[free Hk] [m Hg] _ _ _ _ _].
  rewrite (ki_groups _ _ _ Hk), (sg_groups _ _ _ _ _ Hg). simpl. lia.
Qed.
Next Obligation.
  intros E spec dcp pcp max_len hash_bs log ample k cov q n ncb c lookahead enc Hs Hh Hc Hle He Hn Hl Hm. simpl in *.
  rewrite <- (Z.add_0_r (num_computed_tokens q)). eapply serves_call; try done; try lia. left.
  pose proof (us_tracked _ _ _ _ _ _ _ _ _ Hs (request_id q)) as Ht. rewrite Hc in Ht. destruct Ht as [_ [_ Ht]].
  split_and!; try done. split; [lia|]. intros i m Hi. specialize (Ht i m Hi). lia.
Qed.
Next Obligation. intros; by eapply serves_lookup. Qed.
Next Obligation.
  intros E spec dcp pcp max_len hash_bs log ample k q q' b h Hid Hc. simpl.
  unfold unitary_hit, running_call, fresh_call. by rewrite Hid, Hc.
Qed.
Next Obligation.
  intros E spec dcp pcp max_len hash_bs log ample k cov q n b h lookahead enc Hs Hh Hc H0 [Hb Hcall] Hn Hl Hm. simpl in *.
  eapply wp_mono; [by eapply (serves_call spec dcp pcp max_len hash_bs log ample k cov q n h (Some b)); rewrite ?H0|].
  intros o k'. by rewrite H0, Z.add_0_l.
Qed.
Next Obligation. intros; by eapply serves_can_fit. Qed.
Next Obligation. intros; by eapply serves_can_fit_hit. Qed.
Next Obligation. intros; by eapply serves_free. Qed.
Next Obligation. intros; by eapply serves_cache. Qed.
Next Obligation. intros; by eapply serves_common_prefix. Qed.
Next Obligation. intros; by eapply serves_new_step. Qed.
Next Obligation. intros; by eapply serves_stats. Qed.
Next Obligation. intros; by eapply serves_events. Qed.
Next Obligation. intros; by eapply serves_metrics. Qed.
