(* ===== verification/Heap.v ===== *)
(** * Binary heaps

    Python's [heapq], which vllm/v1/core/sched/request_queue.py uses: the functions
    [heappush], [heappop] and [heapify] with their helpers, which keep the moving item
    out of the list until its place is known.  Indices are in range throughout. *)

From stdpp Require Import sorting.
From S2P Require Import Prelude.

#[local] Open Scope nat_scope.
#[local] Set Default Proof Using "Type*".

(** Items are compared with [<] only: [__lt__] of their class. *)
Class Order (A : Type) := lt : A → A → bool.

(** The laws of a strict order whose incomparability is transitive. *)
Class OrderLaws (A : Type) `{Order A} := {
  lt_irrefl (x : A) : lt x x = false;
  lt_asym (x y : A) : lt x y = true → lt y x = false;
  le_trans_ (x y z : A) : lt y x = false → lt z y = false → lt z x = false
}.

Definition par (i : nat) : nat := (i - 1) / 2.

Section Heapq.
Context `{Inhabited A} `{Order A}.
Implicit Types (h : list A) (x y : A).

(** The loop of [_siftdown]; [pos] is the hole [newitem] will be put into. *)
Fixpoint siftdown_loop (fuel : nat) h (startpos pos : nat) (newitem : A) : list A :=
  match fuel with
  | O => <[pos := newitem]> h
  | S fuel =>
      if startpos <? pos then
        let parentpos := par pos in
        let parent := h !!! parentpos in
        if lt newitem parent then siftdown_loop fuel (<[pos := parent]> h) startpos parentpos newitem
        else <[pos := newitem]> h
      else <[pos := newitem]> h
  end.
(** The position decreases, so [pos] rounds are enough. *)
Definition siftdown h (startpos pos : nat) : list A := siftdown_loop pos h startpos pos (h !!! pos).

(** The loop of [_siftup]: the smaller child moves up until a leaf is reached;
    returns the list and the hole. *)
Fixpoint siftup_loop (fuel : nat) h (pos : nat) : list A * nat :=
  match fuel with
  | O => (h, pos)
  | S fuel =>
      let childpos := 2 * pos + 1 in
      if childpos <? length h then
        let rightpos := childpos + 1 in
        let childpos := if (rightpos <? length h) && negb (lt (h !!! childpos) (h !!! rightpos))
                        then rightpos else childpos in
        siftup_loop fuel (<[pos := h !!! childpos]> h) childpos
      else (h, pos)
  end.
Definition siftup h (pos : nat) : list A :=
  let newitem := h !!! pos in
  let '(h, p) := siftup_loop (length h) h pos in
  siftdown (<[p := newitem]> h) pos p.

Definition heappush h (item : A) : list A := siftdown (h ++ [item]) 0 (length h).

(** [None] for the [IndexError] of [heap.pop()] on an empty list. *)
Definition heappop h : option (A * list A) :=
  match List.rev h with
  | [] => None
  | lastelt :: _ =>
      let h := take (length h - 1) h in
      match h with
      | [] => Some (lastelt, [])
      | returnitem :: _ => Some (returnitem, siftup (<[0 := lastelt]> h) 0)
      end
  end.

(** [while heap: yield heappop(heap)], on a copy: at most [fuel] items. *)
Fixpoint drain (fuel : nat) h : list A :=
  match fuel with
  | O => []
  | S fuel => match heappop h with None => [] | Some (x, h) => x :: drain fuel h end
  end.

(** [for i in reversed(range(n//2)): _siftup(x, i)] *)
Definition heapify h : list A := foldl siftup h (reverse (seq 0 (length h / 2))).
End Heapq.

(** ** The heap order *)

Section HeapProofs.
Context `{Inhabited A} `{OrderLaws A} `{EqDecision A}.
Implicit Types (h : list A) (x y : A).

Definition le x y : Prop := lt y x = false.

Lemma le_refl x : le x x.
Proof. apply lt_irrefl. Qed.
Lemma le_trans x y z : le x y → le y z → le x z.
Proof. apply le_trans_. Qed.
Lemma lt_le x y : lt x y = true → le x y.
Proof. apply lt_asym. Qed.

(** The order holds at every index whose parent is at least [s]. *)
Definition heap_from (s : nat) h : Prop :=
  ∀ i, s ≤ par i → 0 < i < length h → le (h !!! par i) (h !!! i).

Lemma par_child p c : c = 2 * p + 1 ∨ c = 2 * p + 2 → par c = p.
Proof.
  intros Hc. unfold par. pose proof (Nat.div_mod (c - 1) 2). pose proof (Nat.mod_upper_bound (c - 1) 2). lia.
Qed.

Lemma par_spec i : 0 < i → i = 2 * par i + 1 ∨ i = 2 * par i + 2.
Proof.
  intros Hi. unfold par. pose proof (Nat.div_mod (i - 1) 2). pose proof (Nat.mod_upper_bound (i - 1) 2). lia.
Qed.

Lemma par_lt i : 0 < i → par i < i.
Proof. intros Hi. destruct (par_spec i Hi); lia. Qed.

(** The indices below [s] in the tree. *)
Inductive subtree (s : nat) : nat → Prop :=
  | sub_root : subtree s s
  | sub_child c : 0 < c → subtree s (par c) → subtree s c.

Lemma subtree_ge s i : subtree s i → s ≤ i.
Proof. induction 1 as [|c Hc _ IH]; [lia|]. pose proof (par_lt c Hc). lia. Qed.

Lemma subtree_par s i : subtree s i → s < i → subtree s (par i).
Proof. intros [|c Hc Hs] Hlt; [lia|done]. Qed.

Lemma subtree_0 i : subtree 0 i.
Proof.
  induction i as [i IH] using (well_founded_induction lt_wf). destruct (decide (i = 0)) as [->|Hi]; [constructor|].
  constructor; [lia|]. apply IH, par_lt. lia.
Qed.

Lemma lookup_total_insert_list h i j x :
  i < length h → <[i := x]> h !!! j = if decide (i = j) then x else h !!! j.
Proof.
  intros Hi. case_decide as Hij; [subst; by apply list_lookup_total_insert_eq|].
  by apply list_lookup_total_insert_ne.
Qed.

(** ** [_siftdown] *)

(** The heap order but for the hole [pos], into which [x] will go. *)
Record sd_inv s h pos x : Prop := {
  sd_range : pos < length h;
  sd_sub : subtree s pos;
  sd_order i : s ≤ par i → 0 < i < length h → i ≠ pos → par i ≠ pos → le (h !!! par i) (h !!! i);
  sd_skip c : s < pos → 0 < c < length h → par c = pos → le (h !!! par pos) (h !!! c);
  sd_below c : 0 < c < length h → par c = pos → le x (h !!! c)
}.

Lemma sd_stop s h pos x :
  sd_inv s h pos x → (s < pos → le (h !!! par pos) x) → heap_from s (<[pos := x]> h).
Proof.
  intros [Hr Hs Ho Hk Hb] Hup i Hsi Hi. rewrite length_insert in Hi.
  rewrite !lookup_total_insert_list by done. pose proof (par_lt i ltac:(lia)).
  repeat case_decide; subst; [lia|by apply Hb| |by apply Ho].
  apply Hup. lia.
Qed.

Lemma sd_step s h pos x :
  sd_inv s h pos x → s < pos → lt x (h !!! par pos) = true →
  sd_inv s (<[pos := h !!! par pos]> h) (par pos) x.
Proof.
  intros [Hr Hs Ho Hk Hb] Hlt Hx. pose proof (subtree_par _ _ Hs Hlt) as Hsp.
  pose proof (subtree_ge _ _ Hsp) as Hge. assert (0 < pos) as Hpos by lia. pose proof (par_lt pos Hpos) as Hpl.
  assert (Hsib : ∀ c, 0 < c < length h → par c = par pos → le (h !!! par pos) (<[pos := h !!! par pos]> h !!! c)).
  { intros c Hc Hpc. rewrite lookup_total_insert_list by done. case_decide; [apply le_refl|].
    rewrite <- Hpc. apply Ho; [lia|done|done|]. lia. }
  split; rewrite ?length_insert; [lia|done|..].
  - intros i Hsi Hi Hip Hpp. rewrite !lookup_total_insert_list by done.
    destruct (decide (pos = i)) as [->|Hpi]; [done|].
    destruct (decide (pos = par i)) as [He|He]; [apply Hk; auto|apply Ho; auto].
  - intros c Hsp' Hc Hpc. apply le_trans with (h !!! par pos); [|by apply Hsib].
    rewrite lookup_total_insert_list by done. pose proof (par_lt (par pos) ltac:(lia)).
    rewrite decide_False by lia. apply Ho; [|lia..].
    eapply subtree_ge, subtree_par; [exact Hsp|lia].
  - intros c Hc Hpc. apply le_trans with (h !!! par pos); [by apply lt_le|by apply Hsib].
Qed.

Lemma siftdown_loop_ok fuel : ∀ s h pos x,
  sd_inv s h pos x → pos ≤ fuel → heap_from s (siftdown_loop fuel h s pos x).
Proof.
  induction fuel as [|fuel IH]; intros s h pos x Hi Hf; simpl.
  - apply sd_stop; [done|lia].
  - destruct (Nat.ltb_spec s pos) as [Hlt|Hge]; [|apply sd_stop; [done|lia]].
    destruct (lt x (h !!! par pos)) eqn:Hx; [|by apply sd_stop].
    apply IH; [by apply sd_step|]. pose proof (par_lt pos ltac:(lia)). lia.
Qed.

(** The stale value in the hole does not matter. *)
Lemma sd_insert s h pos x y : sd_inv s h pos x → sd_inv s (<[pos := y]> h) pos x.
Proof.
  intros [Hr Hs Ho Hk Hb]. split; rewrite ?length_insert; [done|done|..].
  - intros i ????. rewrite !list_lookup_total_insert_ne by done. by apply Ho.
  - intros c ???. pose proof (par_lt c ltac:(lia)). pose proof (par_lt pos ltac:(lia)).
    rewrite !list_lookup_total_insert_ne by lia. by apply Hk.
  - intros c ??. pose proof (par_lt c ltac:(lia)). rewrite list_lookup_total_insert_ne by lia. by apply Hb.
Qed.

Lemma siftdown_ok s h pos : sd_inv s h pos (h !!! pos) → heap_from s (siftdown h s pos).
Proof. intros Hi. by apply siftdown_loop_ok. Qed.

(** ** [_siftup] *)

(** The heap order but for the hole, before the leaf is reached. *)
Record su_inv s h pos : Prop := {
  su_range : pos < length h;
  su_sub : subtree s pos;
  su_order i : s ≤ par i → 0 < i < length h → i ≠ pos → par i ≠ pos → le (h !!! par i) (h !!! i);
  su_skip c : s < pos → 0 < c < length h → par c = pos → le (h !!! par pos) (h !!! c)
}.

Lemma su_leaf s h pos x : su_inv s h pos → length h ≤ 2 * pos + 1 → sd_inv s h pos x.
Proof.
  intros [Hr Hs Ho Hk] Hl. split; [done..|].
  intros c Hc Hp. destruct (par_spec c); lia.
Qed.

(** The child that moves up is no larger than its sibling. *)
Lemma su_step s h pos c :
  su_inv s h pos → 0 < c < length h → par c = pos →
  (∀ d, 0 < d < length h → par d = pos → le (h !!! c) (h !!! d)) →
  su_inv s (<[pos := h !!! c]> h) c.
Proof.
  intros [Hr Hs Ho Hk] Hc Hpc Hmin. pose proof (par_lt c ltac:(lia)) as Hlt.
  pose proof (subtree_ge _ _ Hs) as Hge.
  split; rewrite ?length_insert; [lia|by apply sub_child; [lia|rewrite Hpc]|..].
  - intros i Hsi Hi Hic Hpi. rewrite !lookup_total_insert_list by done.
    pose proof (par_lt i ltac:(lia)).
    repeat case_decide; subst; [lia|by apply Hmin|apply Hk; auto; lia|by apply Ho].
  - intros d Hsc Hd Hpd. rewrite Hpc, !lookup_total_insert_list by done.
    pose proof (par_lt d ltac:(lia)). rewrite decide_True by done. rewrite decide_False by lia.
    rewrite <- Hpd. apply Ho; lia.
Qed.

(** The position [_siftup] picks. *)
Definition small_child h (pos : nat) : nat :=
  if (2 * pos + 1 + 1 <? length h) && negb (lt (h !!! (2 * pos + 1)) (h !!! (2 * pos + 1 + 1)))
  then 2 * pos + 1 + 1 else 2 * pos + 1.

Lemma small_child_spec h pos :
  2 * pos + 1 < length h →
  0 < small_child h pos < length h ∧ par (small_child h pos) = pos ∧
  (∀ d, 0 < d < length h → par d = pos → le (h !!! small_child h pos) (h !!! d)).
Proof.
  intros Hl. unfold small_child. set (l := 2 * pos + 1) in *.
  assert (Hd : ∀ d, 0 < d → par d = pos → d = l ∨ d = l + 1).
  { intros d Hd <-. destruct (par_spec d Hd); subst l; lia. }
  assert (Hpar : par l = pos ∧ par (l + 1) = pos) by (split; apply par_child; subst l; lia).
  destruct Hpar as [Hp1 Hp2]. destruct (Nat.ltb_spec (l + 1) (length h)) as [Hr|Hr]; cbn [andb negb].
  2:{ split_and!; [lia..|done|]. intros d Hdl Hp. destruct (Hd d) as [-> | ->]; [lia|done|apply le_refl|lia]. }
  destruct (lt (h !!! l) (h !!! (l + 1))) eqn:Hc; cbn [negb]; split_and!; try lia; try done;
    intros d Hdl Hp; destruct (Hd d) as [-> | ->]; try lia; try done; try apply le_refl. by apply lt_le.
Qed.

Lemma siftup_loop_ok fuel : ∀ s h pos,
  su_inv s h pos → length h ≤ pos + fuel →
  ∀ x, sd_inv s (siftup_loop fuel h pos).1 (siftup_loop fuel h pos).2 x.
Proof.
  induction fuel as [|fuel IH]; intros s h pos Hi Hf x; cbn [siftup_loop].
  - pose proof (su_range _ _ _ Hi). lia.
  - destruct (Nat.ltb_spec (2 * pos + 1) (length h)) as [Hl|Hl]; [|by apply su_leaf].
    pose proof (small_child_spec h pos ltac:(lia)) as (Hc & Hp & Hm).
    change (if _ && _ then _ else _) with (small_child h pos).
    apply IH; [by apply su_step|]. rewrite length_insert. pose proof (par_lt (small_child h pos) ltac:(lia)). lia.
Qed.

Lemma siftup_ok s h : s < length h → heap_from (S s) h → heap_from s (siftup h s).
Proof.
  intros Hs Hh. unfold siftup.
  assert (Hi : su_inv s h s).
  { split; [done|constructor|..]; [|lia]. intros i ????. apply Hh; [lia|done]. }
  pose proof (siftup_loop_ok (length h) s h s Hi ltac:(lia) (h !!! s)) as Hd.
  destruct (siftup_loop (length h) h s) as [g p]. simpl in Hd.
  apply siftdown_ok. rewrite list_lookup_total_insert_eq; [by apply sd_insert|]. by destruct Hd.
Qed.

(** ** The elements are kept *)

Lemma insert_cons_perm h i x : i < length h → h !!! i :: <[i := x]> h ≡ₚ x :: h.
Proof.
  intros Hi. destruct (lookup_lt_is_Some_2 h i Hi) as [y Hy].
  rewrite (list_lookup_total_correct _ _ _ Hy), insert_take_drop by done.
  rewrite <- (take_drop_middle h i y Hy) at 3. solve_Permutation.
Qed.

(** Filling the hole [i] from [j] and putting [x] in [j]. *)
Lemma move_hole h i j x :
  i < length h → j < length h → i ≠ j → <[j := x]> (<[i := h !!! j]> h) ≡ₚ <[i := x]> h.
Proof.
  intros Hi Hj Hij.
  pose proof (insert_cons_perm h i (h !!! j) Hi) as Hm1.
  pose proof (insert_cons_perm h i x Hi) as Hm2.
  pose proof (insert_cons_perm (<[i := h !!! j]> h) j x) as Hm3.
  rewrite length_insert, list_lookup_total_insert_ne in Hm3 by done. specialize (Hm3 Hj).
  apply (Permutation_app_inv_l [h !!! i; h !!! j]). simpl.
  rewrite Hm3. etrans; [apply perm_swap|]. rewrite Hm1. etrans; [apply perm_swap|]. rewrite <- Hm2. apply perm_swap.
Qed.

Lemma siftdown_loop_perm fuel : ∀ h s pos x,
  pos < length h → siftdown_loop fuel h s pos x ≡ₚ <[pos := x]> h.
Proof.
  induction fuel as [|fuel IH]; intros h s pos x Hp; simpl; [done|].
  destruct (Nat.ltb_spec s pos); [|done]. destruct (lt x (h !!! par pos)); [|done].
  pose proof (par_lt pos ltac:(lia)). rewrite IH by (rewrite length_insert; lia). apply move_hole; lia.
Qed.

Lemma siftdown_perm h s pos : pos < length h → siftdown h s pos ≡ₚ h.
Proof.
  intros Hp. unfold siftdown. rewrite siftdown_loop_perm by done.
  apply reflexive_eq, list_insert_id. by apply list_lookup_lookup_total_lt.
Qed.

Lemma siftup_loop_perm fuel : ∀ h pos x,
  pos < length h →
  (siftup_loop fuel h pos).2 < length (siftup_loop fuel h pos).1 ∧
  <[(siftup_loop fuel h pos).2 := x]> (siftup_loop fuel h pos).1 ≡ₚ <[pos := x]> h.
Proof.
  induction fuel as [|fuel IH]; intros h pos x Hp; cbn [siftup_loop]; [done|].
  destruct (Nat.ltb_spec (2 * pos + 1) (length h)) as [Hl|Hl]; [|done].
  pose proof (small_child_spec h pos ltac:(lia)) as (Hc & Hpc & _).
  change (if _ && _ then _ else _) with (small_child h pos).
  pose proof (par_lt (small_child h pos) ltac:(lia)).
  destruct (IH (<[pos := h !!! small_child h pos]> h) (small_child h pos) x) as [IH1 IH2];
    [rewrite length_insert; lia|]. split; [done|]. rewrite IH2. apply move_hole; lia.
Qed.

Lemma siftup_perm h s : s < length h → siftup h s ≡ₚ h.
Proof.
  intros Hs. unfold siftup. destruct (siftup_loop_perm (length h) h s (h !!! s) Hs) as [Hl Hp].
  destruct (siftup_loop (length h) h s) as [g p]. simpl in *.
  rewrite siftdown_perm by (by rewrite length_insert). rewrite Hp.
  apply reflexive_eq, list_insert_id. by apply list_lookup_lookup_total_lt.
Qed.

(** ** The operations *)

Definition heap h : Prop := heap_from 0 h.

Lemma heap_nil : heap [].
Proof. intros i _ Hi. simpl in Hi. lia. Qed.

Lemma heap_min h i : heap h → i < length h → le (h !!! 0) (h !!! i).
Proof.
  intros Hh. induction i as [i IH] using (well_founded_induction lt_wf). intros Hi.
  destruct (decide (i = 0)) as [->|Hne]; [apply le_refl|]. pose proof (par_lt i ltac:(lia)).
  apply le_trans with (h !!! par i); [apply IH; lia|apply Hh; lia].
Qed.

Lemma heap_min_in h x y : heap (x :: h) → y ∈ h → le x y.
Proof.
  intros Hh [i Hi]%list_elem_of_lookup. pose proof (lookup_lt_Some _ _ _ Hi) as Hl.
  pose proof (heap_min _ (S i) Hh ltac:(simpl; lia)) as Hm. simpl in Hm.
  by rewrite (list_lookup_total_correct _ _ _ Hi) in Hm.
Qed.

Lemma heappush_ok h x : heap h → heap (heappush h x).
Proof.
  intros Hh. apply siftdown_ok. split; rewrite ?length_app; simpl; [lia|apply subtree_0|..].
  - intros i _ Hi Hne _. pose proof (par_lt i ltac:(lia)). rewrite !lookup_total_app_l by lia. apply Hh; lia.
  - intros c _ Hc Hp. pose proof (par_lt c ltac:(lia)). lia.
  - intros c Hc Hp. pose proof (par_lt c ltac:(lia)). lia.
Qed.

Lemma heappush_perm h x : heappush h x ≡ₚ x :: h.
Proof.
  unfold heappush. rewrite siftdown_perm by (rewrite length_app; simpl; lia). solve_Permutation.
Qed.

Lemma heapify_loop n : ∀ h,
  n ≤ length h → heap_from n h →
  heap (foldl siftup h (reverse (seq 0 n))) ∧ foldl siftup h (reverse (seq 0 n)) ≡ₚ h.
Proof.
  induction n as [|n IH]; intros h Hn Hh; [done|].
  rewrite seq_S, reverse_snoc. simpl. pose proof (siftup_perm h n Hn) as Hp.
  destruct (IH (siftup h n)) as [IH1 IH2]; [rewrite Hp; lia|by apply siftup_ok|].
  split; [done|]. by rewrite IH2.
Qed.

Lemma heapify_ok h : heap (heapify h) ∧ heapify h ≡ₚ h.
Proof.
  pose proof (Nat.div_mod (length h) 2 ltac:(lia)). pose proof (Nat.mod_upper_bound (length h) 2 ltac:(lia)).
  apply heapify_loop; [lia|]. intros i Hs Hi. destruct (par_spec i); lia.
Qed.

Lemma heappop_ok h :
  heap h →
  match heappop h with
  | None => h = []
  | Some (x, h') => heap h' ∧ h ≡ₚ x :: h' ∧ head h = Some x ∧ ∀ y, y ∈ h' → le x y
  end.
Proof.
  intros Hh. unfold heappop. destruct h as [|r h _] using rev_ind; [done|].
  rewrite List.rev_app_distr. simpl. rewrite length_app. simpl. replace (length h + 1 - 1) with (length h) by lia.
  rewrite take_app_length. destruct h as [|x h]; [split_and!; [apply heap_nil|done..|set_solver]|].
  change (<[0 := r]> (x :: h)) with (r :: h).
  assert (Hp : siftup (r :: h) 0 ≡ₚ r :: h) by (apply siftup_perm; simpl; lia).
  split_and!; [| |done|].
  - apply siftup_ok; [simpl; lia|]. intros i Hs Hi. pose proof (par_lt i ltac:(lia)). simpl in Hi.
    assert (Hi' : le ((x :: h ++ [r]) !!! par i) ((x :: h ++ [r]) !!! i)).
    { apply Hh; [lia|]. simpl. rewrite length_app. simpl. lia. }
    destruct i as [|i]; [lia|]. destruct (par (S i)) as [|p]; [lia|].
    change (le ((h ++ [r]) !!! p) ((h ++ [r]) !!! i)) in Hi'. change (le (h !!! p) (h !!! i)).
    by rewrite !lookup_total_app_l in Hi' by lia.
  - rewrite Hp. solve_Permutation.
  - intros y Hy. rewrite Hp in Hy. apply (heap_min_in (h ++ [r])); [exact Hh|]. set_solver.
Qed.

(** Popping until the heap is empty yields all items in order. *)
Lemma drain_ok fuel : ∀ h,
  heap h → length h ≤ fuel → StronglySorted le (drain fuel h) ∧ drain fuel h ≡ₚ h.
Proof.
  induction fuel as [|fuel IH]; intros h Hh Hf; simpl.
  - destruct h; [|simpl in Hf; lia]. split; [constructor|done].
  - pose proof (heappop_ok h Hh) as Hp. destruct (heappop h) as [[x h']|]; [|subst; split; [constructor|done]].
    destruct Hp as (Hh' & Hp & _ & Hmin). rewrite Hp in Hf. simpl in Hf.
    destruct (IH h' Hh' ltac:(lia)) as [Hs Hd]. split; [|by rewrite Hp, Hd].
    constructor; [done|]. apply Forall_forall. intros y Hy. apply Hmin. by rewrite <- Hd.
Qed.
End HeapProofs.
