(* ===== verification/RequestQueue.v ===== *)
(** * Request queues

    vllm/v1/core/sched/request_queue.py: the interface [RequestQueue], the
    first-come-first-served queue, which is a deque, and the priority queue, which is a
    binary heap ordered by [Request.__lt__].  A queue holds references to request
    objects; [obj] is the table of the objects at the time of the call.  References are
    equal when the objects are the same. *)

From stdpp Require Import sorting.
From S2P Require Import Prelude FreeQueue Request Heap.

#[local] Set Default Proof Using "Type*".

Inductive SchedulingPolicy := FCFS | PRIORITY.

#[global] Instance SchedulingPolicy_eq_dec : EqDecision SchedulingPolicy.
Proof. solve_decision. Defined.

(** The identity of a request object. *)
Definition req_ref : Type := Z.

(** The abstract base class [RequestQueue]. *)
Class QueueOps (Q : Type) := {
  add_request : req_ref → M Q unit;
  pop_request : M Q req_ref;
  peek_request : M Q req_ref;
  prepend_request : req_ref → M Q unit;
  prepend_requests : list req_ref → M Q unit;
  remove_request : req_ref → M Q unit;
  remove_requests : list req_ref → M Q unit;
  queue_bool : Q → bool;
  queue_len : Q → Z;
  queue_iter : Q → list req_ref
}.

(** [l.remove(x)]: the first occurrence. *)
Fixpoint remove_first (x : req_ref) (l : list req_ref) : list req_ref :=
  match l with
  | [] => []
  | y :: l => if bool_decide (y = x) then l else y :: remove_first x l
  end.

(** ** [FCFSRequestQueue] *)
Module Fcfs.
Record queue := mkFcfs { deque : list req_ref }.

Definition add_request (r : req_ref) : M queue unit := modify (λ q, mkFcfs (deque q ++ [r])).
Definition pop_request : M queue req_ref :=
  l ← gets deque;
  match l with
  | [] => raise IndexError
  | x :: l => _ ← modify (λ _, mkFcfs l); mret x
  end.
Definition peek_request : M queue req_ref :=
  l ← gets deque;
  match l with [] => raise IndexError | x :: _ => mret x end.
Definition prepend_request (r : req_ref) : M queue unit := modify (λ q, mkFcfs (r :: deque q)).
(** [extendleft] *)
Definition prepend_requests (rs : list req_ref) : M queue unit :=
  modify (λ q, mkFcfs (foldl (λ l r, r :: l) (deque q) rs)).
Definition remove_request (r : req_ref) : M queue unit :=
  l ← gets deque;
  if bool_decide (r ∈ l) then modify (λ _, mkFcfs (remove_first r l)) else raise ValueError.
Definition remove_requests (rs : list req_ref) : M queue unit :=
  filtered ← gets (λ q, filter (λ r, r ∉ rs) (deque q));
  _ ← modify (λ _, mkFcfs []);
  modify (λ q, mkFcfs (deque q ++ filtered)).
Definition queue_len (q : queue) : Z := len (deque q).
Definition queue_bool (q : queue) : bool := 0 <? queue_len q.
End Fcfs.

#[global] Instance fcfs_ops : QueueOps Fcfs.queue := {
  add_request := Fcfs.add_request;
  pop_request := Fcfs.pop_request;
  peek_request := Fcfs.peek_request;
  prepend_request := Fcfs.prepend_request;
  prepend_requests := Fcfs.prepend_requests;
  remove_request := Fcfs.remove_request;
  remove_requests := Fcfs.remove_requests;
  queue_bool := Fcfs.queue_bool;
  queue_len := Fcfs.queue_len;
  queue_iter := Fcfs.deque
}.

(** ** [PriorityRequestQueue] *)
Module Priority.
Record queue := mkPriority { _heap : list req_ref }.

Section Ops.
Context (obj : req_ref → Request).

#[local] Instance ref_order : Order req_ref := λ a b, request_lt (obj a) (obj b).

Definition add_request (r : req_ref) : M queue unit :=
  modify (λ q, mkPriority (heappush (_heap q) r)).
Definition pop_request : M queue req_ref :=
  h ← gets _heap;
  match h with
  | [] => raise IndexError
  | _ => '(x, h) ← or_raise IndexError (heappop h);
         _ ← modify (λ _, mkPriority h); mret x
  end.
Definition peek_request : M queue req_ref :=
  h ← gets _heap;
  match h with [] => raise IndexError | x :: _ => mret x end.
Definition prepend_request (r : req_ref) : M queue unit := add_request r.
Definition prepend_requests (rs : list req_ref) : M queue unit := for_ rs add_request.
Definition remove_request (r : req_ref) : M queue unit :=
  h ← gets _heap;
  if bool_decide (r ∈ h) then
    _ ← modify (λ _, mkPriority (remove_first r h));
    modify (λ q, mkPriority (heapify (_heap q)))
  else raise ValueError.
Definition remove_requests (rs : list req_ref) : M queue unit :=
  _ ← modify (λ q, mkPriority (filter (λ r, r ∉ rs) (_heap q)));
  modify (λ q, mkPriority (heapify (_heap q))).
Definition queue_bool (q : queue) : bool := bool_decide (_heap q ≠ []).
Definition queue_len (q : queue) : Z := len (_heap q).
Definition queue_iter (q : queue) : list req_ref := drain (length (_heap q)) (_heap q).
End Ops.
End Priority.

#[global] Instance priority_ops (obj : req_ref → Request) : QueueOps Priority.queue := {
  add_request := Priority.add_request obj;
  pop_request := Priority.pop_request obj;
  peek_request := Priority.peek_request;
  prepend_request := Priority.prepend_request obj;
  prepend_requests := Priority.prepend_requests obj;
  remove_request := Priority.remove_request obj;
  remove_requests := Priority.remove_requests obj;
  queue_bool := Priority.queue_bool;
  queue_len := Priority.queue_len;
  queue_iter := Priority.queue_iter obj
}.

(** ** A queue of either policy *)

Inductive request_queue :=
  | FCFSRequestQueue (q : Fcfs.queue)
  | PriorityRequestQueue (q : Priority.queue).

Definition create_request_queue (policy : SchedulingPolicy) : request_queue :=
  match policy with
  | PRIORITY => PriorityRequestQueue (Priority.mkPriority [])
  | FCFS => FCFSRequestQueue (Fcfs.mkFcfs [])
  end.

(** Dynamic dispatch: the method of the object's class. *)
Definition dispatch {A} (f : M Fcfs.queue A) (p : M Priority.queue A) : M request_queue A := λ q,
  match q with
  | FCFSRequestQueue q => let '(r, q) := f q in (r, FCFSRequestQueue q)
  | PriorityRequestQueue q => let '(r, q) := p q in (r, PriorityRequestQueue q)
  end.
Definition observe {A} (f : Fcfs.queue → A) (p : Priority.queue → A) (q : request_queue) : A :=
  match q with FCFSRequestQueue q => f q | PriorityRequestQueue q => p q end.

#[global] Instance request_queue_ops (obj : req_ref → Request) : QueueOps request_queue :=
  let p := priority_ops obj in {|
  add_request r := dispatch (@add_request _ fcfs_ops r) (@add_request _ p r);
  pop_request := dispatch (@pop_request _ fcfs_ops) (@pop_request _ p);
  peek_request := dispatch (@peek_request _ fcfs_ops) (@peek_request _ p);
  prepend_request r := dispatch (@prepend_request _ fcfs_ops r) (@prepend_request _ p r);
  prepend_requests rs := dispatch (@prepend_requests _ fcfs_ops rs) (@prepend_requests _ p rs);
  remove_request r := dispatch (@remove_request _ fcfs_ops r) (@remove_request _ p r);
  remove_requests rs := dispatch (@remove_requests _ fcfs_ops rs) (@remove_requests _ p rs);
  queue_bool := observe (@queue_bool _ fcfs_ops) (@queue_bool _ p);
  queue_len := observe (@queue_len _ fcfs_ops) (@queue_len _ p);
  queue_iter := observe (@queue_iter _ fcfs_ops) (@queue_iter _ p)
|}.

(** ** What a queue promises

    A queue stands for the list it iterates over.  [place] says where a new request
    goes, [front] where a prepended one goes. *)

Inductive queue_call :=
  | Add (r : req_ref)
  | Pop
  | Peek
  | Prepend (r : req_ref)
  | PrependAll (rs : list req_ref)
  | Remove (r : req_ref)
  | RemoveAll (rs : list req_ref)
  | Bool
  | Len
  | Iter.

Inductive queue_out :=
  | OUnit
  | OReq (r : req_ref)
  | OBool (b : bool)
  | OLen (n : Z)
  | OIter (l : list req_ref).

Definition run_queue_call `{QueueOps Q} (c : queue_call) : M Q queue_out :=
  match c with
  | Add r => _ ← add_request r; mret OUnit
  | Pop => r ← pop_request; mret (OReq r)
  | Peek => r ← peek_request; mret (OReq r)
  | Prepend r => _ ← prepend_request r; mret OUnit
  | PrependAll rs => _ ← prepend_requests rs; mret OUnit
  | Remove r => _ ← remove_request r; mret OUnit
  | RemoveAll rs => _ ← remove_requests rs; mret OUnit
  | Bool => b ← gets queue_bool; mret (OBool b)
  | Len => n ← gets queue_len; mret (OLen n)
  | Iter => l ← gets queue_iter; mret (OIter l)
  end.

Definition list_call (place front : req_ref → list req_ref → list req_ref) (c : queue_call)
    (l : list req_ref) : result queue_out * list req_ref :=
  match c with
  | Add r => (Ok OUnit, place r l)
  | Pop => match l with [] => (Raise IndexError, l) | x :: l' => (Ok (OReq x), l') end
  | Peek => match l with [] => (Raise IndexError, l) | x :: _ => (Ok (OReq x), l) end
  | Prepend r => (Ok OUnit, front r l)
  | PrependAll rs => (Ok OUnit, foldl (λ l r, front r l) l rs)
  | Remove r => if bool_decide (r ∈ l) then (Ok OUnit, remove_first r l) else (Raise ValueError, l)
  | RemoveAll rs => (Ok OUnit, filter (λ r, r ∉ rs) l)
  | Bool => (Ok (OBool (bool_decide (l ≠ []))), l)
  | Len => (Ok (OLen (len l)), l)
  | Iter => (Ok (OIter l), l)
  end.

(** Every call returns what it returns on the list, or raises the same exception, and
    leaves a queue that stands for the same list. *)
Class QueueLaws (Q : Type) `{QueueOps Q} (place front : req_ref → list req_ref → list req_ref) := {
  queue_wf : Q → Prop;
  queue_step c q : queue_wf q →
    let '(o, q') := run_queue_call c q in
    queue_wf q' ∧ (o, queue_iter q') = list_call place front c (queue_iter q)
}.

(** A sequence of calls; an exception is a result like any other. *)
Fixpoint run_queue `{QueueOps Q} (cs : list queue_call) (q : Q) : list (result queue_out) * Q :=
  match cs with
  | [] => ([], q)
  | c :: cs =>
      let '(o, q) := run_queue_call c q in
      let '(os, q) := run_queue cs q in (o :: os, q)
  end.
Fixpoint run_list place front (cs : list queue_call) (l : list req_ref) :
    list (result queue_out) * list req_ref :=
  match cs with
  | [] => ([], l)
  | c :: cs =>
      let '(o, l) := list_call place front c l in
      let '(os, l) := run_list place front cs l in (o :: os, l)
  end.

Section Interface.
Context `{QueueLaws Q place front}.

Lemma run_queue_refines cs : ∀ q,
  queue_wf q →
  queue_wf (run_queue cs q).2 ∧
  ((run_queue cs q).1, queue_iter (run_queue cs q).2) = run_list place front cs (queue_iter q).
Proof.
  induction cs as [|c cs IH]; intros q Hq; simpl; [done|].
  pose proof (queue_step c q Hq) as Hs. destruct (run_queue_call c q) as [o q']. destruct Hs as [Hq' <-].
  destruct (IH q' Hq') as [Hw Hr]. destruct (run_queue cs q') as [os q'']. simpl in *.
  rewrite <- Hr. done.
Qed.
End Interface.

(** ** The first-come-first-served queue *)

#[global] Instance fcfs_laws : QueueLaws Fcfs.queue (λ r l, l ++ [r]) (λ r l, r :: l).
Proof.
  refine {| queue_wf q := True |}. intros [| | | |rs|r|rs| | |] [l] _; simpl; try done.
  - destruct l; done.
  - destruct l; done.
  - unfold Fcfs.remove_request, mbind, M_bind, gets. simpl. destruct (bool_decide (r ∈ l)); done.
  - split; [done|]. unfold Fcfs.queue_bool, Fcfs.queue_len. simpl. do 3 f_equal.
    destruct l; [done|]. by rewrite bool_decide_eq_true_2.
Defined.

(** ** The order of requests *)

Lemma ascii_compare_lt_trans a b c :
  Ascii.compare a b = Lt → Ascii.compare b c = Lt → Ascii.compare a c = Lt.
Proof. unfold Ascii.compare. rewrite !N.compare_lt_iff. lia. Qed.

Lemma string_compare_lt_trans : ∀ a b c : string,
  String.compare a b = Lt → String.compare b c = Lt → String.compare a c = Lt.
Proof.
  induction a as [|x a IH]; intros [|y b] [|z c]; simpl; try done.
  destruct (Ascii.compare x y) eqn:Hxy, (Ascii.compare y z) eqn:Hyz; try done; intros Ha Hb.
  - apply Ascii.compare_eq_iff in Hxy as ->. rewrite Hyz. eauto.
  - apply Ascii.compare_eq_iff in Hxy as ->. by rewrite Hyz.
  - apply Ascii.compare_eq_iff in Hyz as <-. by rewrite Hxy.
  - by rewrite (ascii_compare_lt_trans _ _ _ Hxy Hyz).
Qed.

Lemma string_compare_refl a : String.compare a a = Eq.
Proof. induction a as [|x a IH]; simpl; [done|]. unfold Ascii.compare. by rewrite N.compare_refl. Qed.

Lemma string_ltb_lt a b : String.ltb a b = true ↔ String.compare a b = Lt.
Proof. unfold String.ltb. by destruct (String.compare a b). Qed.

(** [b] does not come before [a]. *)
Lemma request_le_lex a b :
  request_lt b a = false ↔
  priority a < priority b ∨ priority a = priority b ∧
  (arrival_time a < arrival_time b ∨ arrival_time a = arrival_time b ∧
  (String.compare (request_id a) (request_id b) = Lt ∨ request_id a = request_id b ∧
   object_id a ≤ object_id b)).
Proof.
  unfold request_lt. destruct (Z.eqb_spec (priority b) (priority a)); simpl; [|lia].
  destruct (Z.eqb_spec (arrival_time b) (arrival_time a)); simpl; [|lia].
  destruct (String.eqb_spec (request_id b) (request_id a)) as [Hi|Hi]; simpl.
  - assert (String.compare (request_id a) (request_id b) = Eq) as -> by (rewrite Hi; apply string_compare_refl).
    rewrite Z.ltb_ge. naive_solver lia.
  - unfold String.ltb. rewrite String.compare_antisym.
    destruct (String.compare (request_id a) (request_id b)) eqn:Hc; simpl.
    + apply String.compare_eq_iff in Hc. congruence.
    + split; [|done]. intros _. right. split; [lia|]. right. split; [lia|]. by left.
    + split; [done|]. intros [?|[? [?|[? [?|[? ?]]]]]]; [lia|lia|done|congruence].
Qed.

Lemma request_le_total a b : request_lt b a = false ∨ request_lt a b = false.
Proof.
  rewrite !request_le_lex, (String.compare_antisym (request_id b) (request_id a)).
  destruct (Z.lt_trichotomy (priority a) (priority b)) as [?|[Hp|?]]; [left; left; lia| |right; left; lia].
  destruct (Z.lt_trichotomy (arrival_time a) (arrival_time b)) as [?|[Ht|?]];
    [left; right; split; [lia|left; lia]| |right; right; split; [lia|left; lia]].
  destruct (String.compare (request_id a) (request_id b)) eqn:Hc; simpl.
  - apply String.compare_eq_iff in Hc.
    destruct (Z.le_ge_cases (object_id a) (object_id b)); [left|right]; do 2 (right; split; [done|]); by right.
  - left. do 2 (right; split; [done|]). by left.
  - right. do 2 (right; split; [done|]). by left.
Qed.

Lemma remove_first_perm x l : x ∈ l → l ≡ₚ x :: remove_first x l.
Proof.
  induction l as [|y l IH]; intros Hx; [by apply elem_of_nil in Hx|]. simpl. case_bool_decide as Hy; [by subst|].
  rewrite IH at 1 by set_solver. apply perm_swap.
Qed.

Lemma remove_first_subseteq x l : remove_first x l ⊆ l.
Proof. induction l as [|y l IH]; simpl; [done|]. case_bool_decide; set_solver. Qed.

Section RequestOrder.
(** [obj] maps a reference to the object with that identity. *)
Context (obj : req_ref → Request) (obj_id : ∀ r, object_id (obj r) = r).

#[local] Hint Extern 0 (Order req_ref) => exact (Priority.ref_order obj) : typeclass_instances.

#[local] Instance ref_order_laws : OrderLaws req_ref.
Proof.
  assert (Hirr : ∀ x, request_lt (obj x) (obj x) = false).
  { intros x. apply request_le_lex. do 2 (right; split; [done|]). by right. }
  assert (Htr : ∀ x y z, request_lt (obj y) (obj x) = false → request_lt (obj z) (obj y) = false →
                request_lt (obj z) (obj x) = false).
  { intros x y z. rewrite !request_le_lex.
    intros [?|[? [?|[? [Hs|[Hs ?]]]]]] [?|[? [?|[? [Hs'|[Hs' ?]]]]]]; try (left; lia); right; (split; [lia|]);
      try (left; lia); right; (split; [lia|]).
    - left. by eapply string_compare_lt_trans.
    - left. by rewrite <- Hs'.
    - left. by rewrite Hs.
    - right. split; [by rewrite Hs|lia]. }
  split; [exact Hirr| |exact Htr].
  intros x y Hxy. change (request_lt (obj y) (obj x) = false). change (request_lt (obj x) (obj y) = true) in Hxy.
  destruct (request_lt (obj y) (obj x)) eqn:Hyx; [|done].
  destruct (request_le_total (obj x) (obj y)); congruence.
Qed.

(** Two requests neither of which comes before the other are the same object. *)
#[local] Instance ref_le_antisymm : AntiSymm (=) (@le req_ref (Priority.ref_order obj)).
Proof.
  intros x y Hxy Hyx. change (request_lt (obj y) (obj x) = false) in Hxy.
  change (request_lt (obj x) (obj y) = false) in Hyx. rewrite request_le_lex in Hxy, Hyx.
  rewrite (String.compare_antisym (request_id (obj y))) in Hyx.
  rewrite <- (obj_id x), <- (obj_id y).
  destruct Hxy as [?|[? [?|[? [Hs|[Hs ?]]]]]], Hyx as [?|[? [?|[? [Hs'|[Hs' ?]]]]]]; try lia.
  - by rewrite Hs in Hs'.
  - rewrite Hs', string_compare_refl in Hs. done.
  - rewrite Hs, string_compare_refl in Hs'. done.
Qed.

(** The place of a request among requests in order: before the first that it precedes. *)
Fixpoint place_sorted (r : req_ref) (l : list req_ref) : list req_ref :=
  match l with
  | [] => [r]
  | x :: l => if request_lt (obj r) (obj x) then r :: x :: l else x :: place_sorted r l
  end.

Lemma place_sorted_perm r l : place_sorted r l ≡ₚ r :: l.
Proof.
  induction l as [|x l IH]; simpl; [done|]. destruct (request_lt _ _); [done|]. rewrite IH. apply perm_swap.
Qed.

Lemma place_sorted_sorted r (l : list req_ref) : StronglySorted le l → StronglySorted le (place_sorted r l).
Proof.
  induction 1 as [|x l Hs IH Hx]; simpl; [repeat constructor|].
  destruct (request_lt (obj r) (obj x)) eqn:Hc.
  - assert (le r x) by (by apply lt_le). constructor; [by constructor|]. constructor; [done|].
    eapply Forall_impl; [exact Hx|]. intros y Hy. by eapply le_trans.
  - constructor; [done|]. rewrite place_sorted_perm. by constructor.
Qed.

(** The order determines the list. *)
Lemma sorted_perm_eq (l1 l2 : list req_ref) : StronglySorted le l1 → StronglySorted le l2 → l1 ≡ₚ l2 → l1 = l2.
Proof. apply StronglySorted_unique. apply _. Qed.

Lemma sorted_filter (P : req_ref → Prop) `{!∀ x, Decision (P x)} (l : list req_ref) :
  StronglySorted le l → StronglySorted le (filter P l).
Proof.
  induction 1 as [|x l Hs IH Hx]; [constructor|]. rewrite filter_cons. case_decide; [|done].
  constructor; [done|]. rewrite Forall_forall in *. intros y [_ Hy]%list_elem_of_filter. by apply Hx.
Qed.

Lemma sorted_remove_first x (l : list req_ref) : StronglySorted le l → StronglySorted le (remove_first x l).
Proof.
  induction 1 as [|y l Hs IH Hy]; simpl; [constructor|]. case_bool_decide; [done|].
  constructor; [done|]. rewrite Forall_forall in *. intros z Hz. by apply Hy, (remove_first_subseteq x l).
Qed.

(** ** The priority queue *)

#[local] Arguments Priority.queue_iter : simpl never.
#[local] Arguments heappush : simpl never.

Lemma heap_iter_ok (h : list req_ref) :
  heap h → StronglySorted le (Priority.queue_iter obj (Priority.mkPriority h)) ∧
           Priority.queue_iter obj (Priority.mkPriority h) ≡ₚ h.
Proof. intros Hh. by apply drain_ok. Qed.

(** A heap stands for the list in order. *)
Lemma heap_iter_eq (h l : list req_ref) :
  heap h → h ≡ₚ l → StronglySorted le l → Priority.queue_iter obj (Priority.mkPriority h) = l.
Proof.
  intros Hh Hl Hs. destruct (heap_iter_ok h Hh) as [Hd Hp].
  apply sorted_perm_eq; [done|done|]. by rewrite Hp.
Qed.

Lemma priority_add (h : list req_ref) r :
  heap h → heap (heappush h r) ∧
  Priority.queue_iter obj (Priority.mkPriority (heappush h r)) =
    place_sorted r (Priority.queue_iter obj (Priority.mkPriority h)).
Proof.
  intros Hh. pose proof (heappush_ok h r Hh) as Hh'. split; [done|]. destruct (heap_iter_ok h Hh) as [Hd Hp].
  apply heap_iter_eq; [done| |by apply place_sorted_sorted]. by rewrite heappush_perm, place_sorted_perm, Hp.
Qed.

Lemma priority_add_all rs : ∀ q,
  heap (Priority._heap q) →
  ∃ q', Priority.prepend_requests obj rs q = (Ok tt, q') ∧ heap (Priority._heap q') ∧
    Priority.queue_iter obj q' = foldl (λ l r, place_sorted r l) (Priority.queue_iter obj q) rs.
Proof.
  induction rs as [|r rs IH]; intros [h] Hh; simpl; [by eexists|].
  destruct (priority_add h r Hh) as [Hh' Hi].
  destruct (IH (Priority.mkPriority (heappush h r)) Hh') as (q' & Hq & Hw & He).
  exists q'. split; [exact Hq|]. split; [done|]. by rewrite He, Hi.
Qed.

Lemma priority_pop (h : list req_ref) :
  heap h →
  let '(o, q') := Priority.pop_request obj (Priority.mkPriority h) in
  heap (Priority._heap q') ∧
  match Priority.queue_iter obj (Priority.mkPriority h) with
  | [] => o = Raise IndexError ∧ Priority._heap q' = h
  | x :: l => o = Ok x ∧ Priority.queue_iter obj q' = l
  end.
Proof.
  intros Hh. destruct h as [|r h]; [done|].
  unfold Priority.pop_request, mbind, M_bind, gets. cbn -[heappop Priority.queue_iter].
  unfold Priority.queue_iter. cbn -[heappop].
  pose proof (heappop_ok (r :: h) Hh) as Hp. destruct (heappop (r :: h)) as [[x h']|]; [|done].
  destruct Hp as (Hh' & Hp & _). cbn. assert (length h = length h') as ->.
  { apply Permutation_length in Hp. simpl in Hp. lia. }
  done.
Qed.

Lemma priority_head (h : list req_ref) :
  heap h → head h = head (Priority.queue_iter obj (Priority.mkPriority h)).
Proof.
  intros Hh. unfold Priority.queue_iter. cbn. destruct h as [|r h]; [done|].
  cbn -[heappop]. pose proof (heappop_ok (r :: h) Hh) as Hp. destruct (heappop (r :: h)) as [[x h']|]; [|done].
  destruct Hp as (_ & _ & Hd & _). exact Hd.
Qed.

#[global] Instance priority_laws : @QueueLaws Priority.queue (priority_ops obj) place_sorted place_sorted.
Proof.
  refine (@Build_QueueLaws _ _ _ _ (λ q, heap (Priority._heap q)) _).
  intros c [h] Hh. pose proof (heap_iter_ok h Hh) as [Hs Hp].
  destruct c as [r| | |r|rs|r|rs| | |]; cbn [run_queue_call list_call].
  - simpl. destruct (priority_add h r Hh) as [Hh' ->]. done.
  - pose proof (priority_pop h Hh) as Hpop. unfold mbind, M_bind. simpl.
    destruct (Priority.pop_request obj (Priority.mkPriority h)) as [o [h']]. destruct Hpop as [Hh' Hpop].
    destruct (Priority.queue_iter obj (Priority.mkPriority h)) as [|x l] eqn:Hi.
    + destruct Hpop as [-> Hq]. simpl in *. subst h'. by rewrite Hi.
    + destruct Hpop as [-> Hq]. simpl. by rewrite Hq.
  - pose proof (priority_head h Hh) as Hhd. simpl. unfold Priority.peek_request, mbind, M_bind, gets. simpl.
    destruct h as [|x h]; simpl; [done|]. simpl in Hhd.
    destruct (Priority.queue_iter obj (Priority.mkPriority (x :: h))) as [|y l] eqn:Hi; [done|].
    simpl in Hhd. by simplify_eq.
  - simpl. destruct (priority_add h r Hh) as [Hh' ->]. done.
  - destruct (priority_add_all rs (Priority.mkPriority h) Hh) as (q' & Hq & Hw & He).
    unfold mbind, M_bind. simpl. rewrite Hq. simpl. by rewrite He.
  - unfold mbind, M_bind. simpl. unfold Priority.remove_request, mbind, M_bind, gets. simpl.
    destruct (decide (r ∈ h)) as [Hr|Hr].
    + rewrite !bool_decide_eq_true_2; [|by rewrite Hp|done]. simpl.
      destruct (heapify_ok (remove_first r h)) as [Hh' Hp']. split; [done|]. do 2 f_equal.
      apply heap_iter_eq; [done| |by apply sorted_remove_first]. rewrite Hp'.
      apply (Permutation_cons_inv (a := r)). rewrite <- !remove_first_perm; [by rewrite Hp|by rewrite Hp|done].
    + rewrite !bool_decide_eq_false_2; [done|by rewrite Hp|done].
  - unfold mbind, M_bind. simpl. destruct (heapify_ok (filter (λ r, r ∉ rs) h)) as [Hh' Hp']. split; [done|].
    do 2 f_equal. apply heap_iter_eq; [done| |by apply sorted_filter]. by rewrite Hp', Hp.
  - simpl. split; [done|]. do 3 f_equal. unfold Priority.queue_bool. simpl. apply bool_decide_ext.
    split; intros Hn He; apply Hn; [|by rewrite He].
    apply Permutation_nil_r. by rewrite <- He, Hp.
  - simpl. split; [done|]. do 3 f_equal. unfold Priority.queue_len, len. simpl. by rewrite Hp.
  - done.
Defined.

Lemma priority_wf_nil : queue_wf (QueueLaws := priority_laws) (Priority.mkPriority []).
Proof. exact heap_nil. Qed.

(** Every call keeps a list in order. *)
Lemma run_list_sorted cs : ∀ l : list req_ref,
  StronglySorted le l → StronglySorted le (run_list place_sorted place_sorted cs l).2.
Proof.
  assert (Hall : ∀ rs l, StronglySorted le l → StronglySorted le (foldl (λ l r, place_sorted r l) l rs)).
  { induction rs as [|r rs IH]; intros l Hl; simpl; [done|]. by apply IH, place_sorted_sorted. }
  induction cs as [|c cs IH]; intros l Hl; simpl; [done|].
  assert (Hc : StronglySorted le (list_call place_sorted place_sorted c l).2).
  { destruct c; simpl; try done; auto using place_sorted_sorted.
    - destruct l; [done|]. by inversion Hl.
    - by destruct l.
    - case_bool_decide; [by apply sorted_remove_first|done].
    - by apply sorted_filter. }
  destruct (list_call place_sorted place_sorted c l) as [o l']. specialize (IH l' Hc). simpl in *.
  by destruct (run_list place_sorted place_sorted cs l').
Qed.
End RequestOrder.

(** Where a queue of each policy puts a request. *)
Definition policy_place (obj : req_ref → Request) (p : SchedulingPolicy) : req_ref → list req_ref → list req_ref :=
  match p with FCFS => λ r l, l ++ [r] | PRIORITY => place_sorted obj end.
Definition policy_front (obj : req_ref → Request) (p : SchedulingPolicy) : req_ref → list req_ref → list req_ref :=
  match p with FCFS => λ r l, r :: l | PRIORITY => place_sorted obj end.

Lemma dispatch_bind {A B} (f : M Fcfs.queue A) (p : M Priority.queue A) (k : A → B) :
  (∀ q, (dispatch f p ≫= λ a, mret (k a)) (FCFSRequestQueue q) =
        let '(o, q') := (f ≫= λ a, mret (k a)) q in (o, FCFSRequestQueue q')) ∧
  (∀ q, (dispatch f p ≫= λ a, mret (k a)) (PriorityRequestQueue q) =
        let '(o, q') := (p ≫= λ a, mret (k a)) q in (o, PriorityRequestQueue q')).
Proof.
  unfold mbind, M_bind, dispatch. split; intros q; [by destruct (f q) as [[] ?]|by destruct (p q) as [[] ?]].
Qed.

Lemma run_queue_dispatch obj cs :
  (∀ q, run_queue (H := request_queue_ops obj) cs (FCFSRequestQueue q) =
        let '(os, q') := run_queue cs q in (os, FCFSRequestQueue q')) ∧
  (∀ q, run_queue (H := request_queue_ops obj) cs (PriorityRequestQueue q) =
        let '(os, q') := run_queue (H := priority_ops obj) cs q in (os, PriorityRequestQueue q')).
Proof.
  induction cs as [|c cs [IHf IHp]]; [done|]. split; intros q; cbn [run_queue].
  - assert (run_queue_call (H := request_queue_ops obj) c (FCFSRequestQueue q) =
            let '(o, q') := run_queue_call c q in (o, FCFSRequestQueue q')) as ->.
    { destruct c; first [apply dispatch_bind|done]. }
    destruct (run_queue_call c q) as [o q']. rewrite IHf. by destruct (run_queue cs q').
  - assert (run_queue_call (H := request_queue_ops obj) c (PriorityRequestQueue q) =
            let '(o, q') := run_queue_call (H := priority_ops obj) c q in (o, PriorityRequestQueue q')) as ->.
    { destruct c; first [apply dispatch_bind|done]. }
    destruct (run_queue_call c q) as [o q']. rewrite IHp. by destruct (run_queue cs q').
Qed.

(** C24: A request queue of either policy implements the same list machine.  For every
    sequence of calls on a fresh queue, the results and the exceptions are those of the
    calls on a list, iteration yields that list, and the policy only decides where a
    request is put: at the end, or with the priority policy before the first request it
    precedes, so that the list stays in the order of [Request.__lt__]. *)
Theorem request_queue_refines_list obj (obj_id : ∀ r, object_id (obj r) = r) p cs :
  let '(os, q) := run_queue (H := request_queue_ops obj) cs (create_request_queue p) in
  let '(os', l) := run_list (policy_place obj p) (policy_front obj p) cs [] in
  os = os' ∧ queue_iter (QueueOps := request_queue_ops obj) q = l ∧
  (p = PRIORITY → StronglySorted (λ a b, request_lt (obj b) (obj a) = false) l).
Proof.
  destruct (run_queue_dispatch obj cs) as [Hf Hp]. destruct p; simpl.
  - rewrite Hf. destruct (run_queue_refines (H0 := fcfs_laws) cs (Fcfs.mkFcfs []) I) as [_ He].
    simpl in He. destruct (run_queue cs (Fcfs.mkFcfs [])) as [os q]. simpl in He. rewrite <- He. done.
  - rewrite Hp.
    destruct (run_queue_refines (H0 := priority_laws obj obj_id) cs (Priority.mkPriority [])) as [_ He];
      [apply priority_wf_nil|].
    pose proof (run_list_sorted obj obj_id cs [] ltac:(constructor)) as Hs. simpl in He.
    change (queue_iter (Priority.mkPriority [])) with (@nil req_ref) in He.
    destruct (run_queue (H := priority_ops obj) cs (Priority.mkPriority [])) as [os q]. simpl in He.
    unfold Priority.queue_iter in He at 2. simpl in He. rewrite <- He in *. done.
Qed.

(** Requests of two priorities, in the order of their identities. *)
Definition queue_request (r : req_ref) : Request :=
  mkRequest "r" 0 (r `mod` 2) None None None None 0 WAITING [] None 1 (Some [1]) None ∅ 1 [] [1] 0 false []
    0 None [] false 0 None [] false false None None 0 r.

Lemma request_queue_refines_list_witness :
  let cs := [Add 3; Add 2; Add 5; Add 4; RemoveAll [2]; Pop; Remove 9; PrependAll [8; 1]; Iter] in
  (run_queue (H := request_queue_ops queue_request) cs (create_request_queue PRIORITY)).1 =
    [Ok OUnit; Ok OUnit; Ok OUnit; Ok OUnit; Ok OUnit; Ok (OReq 4); Raise ValueError; Ok OUnit;
     Ok (OIter [8; 1; 3; 5])] ∧
  (run_queue (H := request_queue_ops queue_request) cs (create_request_queue FCFS)).1 =
    [Ok OUnit; Ok OUnit; Ok OUnit; Ok OUnit; Ok OUnit; Ok (OReq 3); Raise ValueError; Ok OUnit;
     Ok (OIter [1; 8; 5; 4])].
Proof.
  split.
  - pose proof (request_queue_refines_list queue_request ltac:(done) PRIORITY
      [Add 3; Add 2; Add 5; Add 4; RemoveAll [2]; Pop; Remove 9; PrependAll [8; 1]; Iter]) as H.
    vm_compute in H. vm_compute. exact (proj1 H).
  - pose proof (request_queue_refines_list queue_request ltac:(done) FCFS
      [Add 3; Add 2; Add 5; Add 4; RemoveAll [2]; Pop; Remove 9; PrependAll [8; 1]; Iter]) as H.
    vm_compute in H. vm_compute. exact (proj1 H).
Defined.
