(* ===== verification/SchedUtils.v ===== *)
(** * Stop conditions

    vllm/v1/core/sched/utils.py: the repetition detector, [remove_all] and
    [check_stop]. *)

From S2P Require Import Prelude FreeQueue Request BlockHash RequestQueue.

#[local] Set Default Proof Using "Type*".
#[local] Arguments py_get : simpl never.

(** A loop whose body may [return False]; it returns [True] at its end. *)
Fixpoint all_or_return {A} (l : list A) (body : A → result bool) : result bool :=
  match l with
  | [] => Ok true
  | x :: l =>
      match body x with
      | Ok true => all_or_return l body
      | r => r
      end
  end.

(** [token_ids[i]] *)
Definition token_at (token_ids : list Z) (i : Z) : result Z :=
  match py_get token_ids i with Some t => Ok t | None => Raise IndexError end.

Definition _has_repeating_pattern (token_ids : list Z) (pattern_len repetition_min_count : Z) : result bool :=
  all_or_return (py_range 1 (pattern_len + 1)) (λ n,
    match token_at token_ids (- n) with
    | Raise e => Raise e
    | Ok target_token =>
        all_or_return (py_range 1 repetition_min_count) (λ m,
          match token_at token_ids (- (pattern_len * m + n)) with
          | Raise e => Raise e
          | Ok t => Ok (t =? target_token)
          end)
    end).

(** [for pattern_len in range(...)] of [check_sequence_repetition] *)
Fixpoint repetition_loop (token_ids : list Z) (min_count : Z) (lens : list Z) : result bool :=
  match lens with
  | [] => Ok false
  | pattern_len :: lens =>
      if len token_ids <? pattern_len * min_count then Ok false
      else match _has_repeating_pattern token_ids pattern_len min_count with
           | Ok true => Ok true
           | Ok false => repetition_loop token_ids min_count lens
           | Raise e => Raise e
           end
  end.

Definition check_sequence_repetition (token_ids : list Z) (params : RepetitionDetectionParams) : result bool :=
  let min_size := if min_pattern_size params <=? 0 then 1 else min_pattern_size params in
  if (max_pattern_size params <=? 0) || (min_count params <? 2) || (max_pattern_size params <? min_size)
  then Ok false
  else repetition_loop token_ids (min_count params) (py_range min_size (max_pattern_size params + 1)).

(** [remove_all(lst, items_to_remove)]: a set of one item removes its first occurrence
    only. *)
Definition remove_all (lst : list req_ref) (items_to_remove : gset req_ref) : list req_ref :=
  if decide (items_to_remove = ∅) then lst
  else match elements items_to_remove with
       | [item] => remove_first item lst
       | _ => filter (λ item, item ∉ items_to_remove) lst
       end.

Definition check_stop (max_model_len : Z) : M Request bool :=
  _ ← (pp ← gets pooling_params; assert (bool_decide (pp = None)));
  sp ← (sp ← gets sampling_params; or_raise AssertionError sp);
  r ← gets id;
  if num_output_tokens r <? sp_min_tokens sp then mret false
  else
    last_token_id ← or_raise IndexError (py_get (_output_token_ids r) (-1));
    if bool_decide (Some last_token_id = sp_eos_token_id sp) then
      _ ← modify (set_status FINISHED_STOPPED); mret true
    else if bool_decide (last_token_id ∈ default [] (sp_stop_token_ids sp)) then
      _ ← modify (set_status FINISHED_STOPPED);
      _ ← modify (set_stop_reason (Some (StopToken last_token_id))); mret true
    else if (max_model_len <=? num_tokens r) || (max_tokens r <=? num_output_tokens r) then
      _ ← modify (set_status FINISHED_LENGTH_CAPPED); mret true
    else
      match sp_repetition_detection sp with
      | None => mret false
      | Some params =>
          match check_sequence_repetition (_output_token_ids r) params with
          | Raise e => raise e
          | Ok false => mret false
          | Ok true =>
              _ ← modify (set_status FINISHED_REPETITION);
              _ ← modify (set_stop_reason (Some (StopString "repetition_detected"))); mret true
          end
      end.

(** ** The repetition detector *)

Lemma all_or_return_ok {A} (l : list A) (body : A → result bool) (f : A → bool) :
  (∀ x, x ∈ l → body x = Ok (f x)) → all_or_return l body = Ok (forallb f l).
Proof.
  induction l as [|x l IH]; intros Hb; simpl; [done|].
  rewrite Hb by set_solver. destruct (f x); simpl; [|done]. apply IH. set_solver.
Qed.

Lemma elem_of_py_range x a b : x ∈ py_range a b ↔ a ≤ x < b.
Proof. unfold py_range. rewrite elem_of_seqZ. lia. Qed.

Lemma forallb_py_range f a b : forallb f (py_range a b) = true ↔ ∀ x, a ≤ x < b → f x = true.
Proof.
  rewrite forallb_forall. split; intros Hf x Hx.
  - apply Hf, list_elem_of_In. by apply elem_of_py_range.
  - apply Hf. by apply elem_of_py_range, list_elem_of_In.
Qed.

(** [l[-i]] counts from the end. *)
Lemma py_get_back {A} (l : list A) i :
  0 < i ≤ len l → py_get l (- i) = l !! (length l - Z.to_nat i)%nat.
Proof.
  unfold len. intros Hi. unfold py_get. rewrite (proj2 (Z.ltb_lt (- i) 0)) by lia.
  rewrite (proj2 (Z.ltb_ge _ 0)) by lia. f_equal. lia.
Qed.

(** The tail of [l] is [k] copies of [pat]. *)
Definition ends_with_copies (l pat : list Z) (k : nat) : Prop :=
  ∃ pre, l = pre ++ concat (replicate k pat).

Lemma length_copies (pat : list Z) k : length (concat (replicate k pat)) = (k * length pat)%nat.
Proof. induction k as [|k IH]; simpl; [done|]. rewrite length_app, IH. lia. Qed.

Lemma lookup_copies (pat : list Z) k i j :
  (i < k)%nat → (j < length pat)%nat → concat (replicate k pat) !! (i * length pat + j)%nat = pat !! j.
Proof.
  revert i. induction k as [|k IH]; intros i Hi Hj; [lia|]. simpl. destruct i as [|i].
  - by rewrite lookup_app_l by lia.
  - rewrite lookup_app_r by (simpl; lia). rewrite <- (IH i) by lia. f_equal. simpl. lia.
Qed.

(** The test the detector makes: the token [n] from the end agrees with the one [m]
    patterns before it. *)
Definition agrees (l : list Z) (p m n : nat) : Prop := l !! (length l - (p * m + n))%nat = l !! (length l - n)%nat.

#[global] Instance agrees_dec l p m n : Decision (agrees l p m n).
Proof. unfold agrees. apply _. Defined.

Lemma agrees_copies (l : list Z) (p c : nat) :
  (p * c ≤ length l)%nat → (1 ≤ p)%nat →
  (∀ n m, (1 ≤ n ≤ p)%nat → (1 ≤ m < c)%nat → agrees l p m n) →
  (1 ≤ c)%nat → ends_with_copies l (drop (length l - p) l) c.
Proof.
  intros Hl Hp Ha Hc. set (pat := drop (length l - p) l).
  assert (Hpat : length pat = p) by (unfold pat; rewrite length_drop; nia).
  cut (∀ k, (k ≤ c)%nat → drop (length l - p * k) l = concat (replicate k pat)).
  { intros Hk. exists (take (length l - p * c) l). rewrite <- (Hk c) by lia. symmetry. apply take_drop. }
  induction k as [|k IH]; intros Hk; [by rewrite drop_ge by lia|]. simpl. rewrite <- IH by lia.
  destruct (decide (k = 0)%nat) as [->|Hk0].
  { rewrite Nat.mul_0_r, Nat.sub_0_r, drop_all, app_nil_r, Nat.mul_1_r. done. }
  assert (p * S k ≤ length l)%nat by nia.
  rewrite <- (take_drop p (drop (length l - p * S k) l)), drop_drop. f_equal; [|f_equal; lia].
  apply list_eq_same_length with p; [done|rewrite length_take, length_drop; lia|].
  intros j x y Hj Hx Hy. rewrite lookup_take_lt in Hx by done. rewrite lookup_drop in Hx.
  unfold pat in Hy. rewrite lookup_drop in Hy.
  specialize (Ha (p - j)%nat k ltac:(lia) ltac:(lia)). unfold agrees in Ha.
  replace (length l - (p * k + (p - j)))%nat with (length l - p * S k + j)%nat in Ha by lia.
  replace (length l - (p - j))%nat with (length l - p + j)%nat in Ha by nia. congruence.
Qed.

Lemma copies_agree (l pat : list Z) (c n m : nat) :
  ends_with_copies l pat c → (1 ≤ n ≤ length pat)%nat → (m < c)%nat → agrees l (length pat) m n.
Proof.
  intros [pre ->] Hn Hm. unfold agrees. rewrite length_app, length_copies.
  assert (n ≤ c * length pat)%nat by nia. assert (length pat * m + n ≤ c * length pat)%nat by nia.
  rewrite !lookup_app_r by lia.
  replace (_ - (length pat * m + n) - length pre)%nat with ((c - 1 - m) * length pat + (length pat - n))%nat by nia.
  replace (_ - n - length pre)%nat with ((c - 1) * length pat + (length pat - n))%nat by nia.
  by rewrite !lookup_copies by lia.
Qed.

Lemma has_repeating_pattern_spec l p c :
  1 ≤ p → 2 ≤ c → p * c ≤ len l →
  ∃ b, _has_repeating_pattern l p c = Ok b ∧
    (b = true ↔ ∃ pat, len pat = p ∧ ends_with_copies l pat (Z.to_nat c)).
Proof.
  unfold len. intros Hp Hc Hl.
  set (test n m := bool_decide (agrees l (Z.to_nat p) (Z.to_nat m) (Z.to_nat n))).
  eexists. split.
  - apply (all_or_return_ok _ _ (λ n, forallb (test n) (py_range 1 c))).
    intros n Hn%elem_of_py_range. unfold token_at. rewrite py_get_back by (unfold len; nia).
    destruct (lookup_lt_is_Some_2 l (length l - Z.to_nat n)) as [t Ht]; [lia|]. rewrite Ht.
    apply all_or_return_ok. intros m Hm%elem_of_py_range. rewrite py_get_back by (unfold len; nia).
    destruct (lookup_lt_is_Some_2 l (length l - Z.to_nat (p * m + n))) as [u Hu]; [nia|]. rewrite Hu. f_equal.
    assert (Hag : agrees l (Z.to_nat p) (Z.to_nat m) (Z.to_nat n) ↔ u = t).
    { unfold agrees. replace (Z.to_nat p * Z.to_nat m + Z.to_nat n)%nat with (Z.to_nat (p * m + n)) by nia.
      rewrite Ht, Hu. naive_solver. }
    unfold test. destruct (Z.eqb_spec u t); symmetry; [apply bool_decide_eq_true_2|apply bool_decide_eq_false_2]; tauto.
  - rewrite forallb_py_range. split.
    + intros Ha. exists (drop (length l - Z.to_nat p) l). split; [rewrite length_drop; nia|].
      apply agrees_copies; [nia|lia| |lia]. intros n m Hn Hm.
      specialize (Ha (Z.of_nat n) ltac:(lia)). rewrite forallb_py_range in Ha.
      specialize (Ha (Z.of_nat m) ltac:(lia)). unfold test in Ha. rewrite !Nat2Z.id in Ha.
      by apply bool_decide_eq_true in Ha.
    + intros (pat & <- & Hpat) n Hn. apply forallb_py_range. intros m Hm. apply bool_decide_eq_true.
      rewrite Nat2Z.id. apply (copies_agree _ _ (Z.to_nat c)); [done|lia..].
Qed.

(** The loop tries every length until one fits or the copies no longer do. *)
Lemma repetition_loop_spec l c mx (Hc : 2 ≤ c) : ∀ n a,
  1 ≤ a → Z.to_nat (mx + 1 - a) = n →
  ∃ b, repetition_loop l c (py_range a (mx + 1)) = Ok b ∧
    (b = true ↔ ∃ pat, a ≤ len pat ≤ mx ∧ ends_with_copies l pat (Z.to_nat c)).
Proof.
  induction n as [|n IH]; intros a Ha Hn.
  - unfold py_range. rewrite seqZ_nil by lia. exists false. split; [done|].
    split; [done|]. intros (pat & ? & _). lia.
  - unfold py_range. rewrite seqZ_cons by lia. simpl. destruct (Z.ltb_spec (len l) (a * c)) as [Hlt|Hle].
    + exists false. split; [done|]. split; [done|]. intros (pat & Hp & pre & ->).
      rewrite len_app in Hlt. unfold len in *. rewrite length_copies in Hlt. nia.
    + destruct (has_repeating_pattern_spec l a c) as (b & -> & Hb); [lia..|].
      destruct b.
      * exists true. split; [done|]. split; [|done]. intros _. destruct Hb as [Hb _].
        destruct (Hb eq_refl) as (pat & ? & ?). exists pat. split; [lia|done].
      * destruct (IH (Z.succ a)) as (b' & Hb1 & Hb2); [lia..|].
        unfold py_range in Hb1. replace (Z.pred (mx + 1 - a)) with (mx + 1 - Z.succ a) by lia.
        rewrite Hb1. exists b'. split; [done|]. rewrite Hb2. split.
        -- intros (pat & ? & ?). exists pat. split; [lia|done].
        -- intros (pat & ? & ?). exists pat. split; [|done].
           assert (len pat ≠ a); [|lia]. intros He. assert (false = true); [|done]. apply Hb. by exists pat.
Qed.

Lemma check_sequence_repetition_spec l params :
  ∃ b, check_sequence_repetition l params = Ok b ∧
    (b = true ↔
     2 ≤ min_count params ∧
     ∃ pat, Z.max 1 (min_pattern_size params) ≤ len pat ≤ max_pattern_size params ∧
       ends_with_copies l pat (Z.to_nat (min_count params))).
Proof.
  unfold check_sequence_repetition. destruct params as [mx mn c]. cbn [max_pattern_size min_pattern_size min_count].
  assert ((if mn <=? 0 then 1 else mn) = Z.max 1 mn) as -> by (destruct (Z.leb_spec mn 0); lia).
  destruct (Z.leb_spec mx 0); cbn [orb]; [exists false; split; [done|]; split; [done|]; intros (_ & pat & ? & _); lia|].
  destruct (Z.ltb_spec c 2); cbn [orb]; [exists false; split; [done|]; split; [done|]; lia|].
  destruct (Z.ltb_spec mx (Z.max 1 mn)); cbn [orb];
    [exists false; split; [done|]; split; [done|]; intros (_ & pat & ? & _); lia|].
  destruct (repetition_loop_spec l c mx ltac:(lia) _ (Z.max 1 mn) ltac:(lia) eq_refl) as (b & Hb1 & Hb2). exists b. split; [done|].
  rewrite Hb2. split; [by intros ?|by intros [? ?]].
Qed.

(** C27: The repetition detector equals its specification: it raises nothing, and answers
    [True] exactly when the output ends in [min_count] copies of a pattern whose length is
    between the two bounds, the lower one raised to 1; it never does with a maximal
    length of 0 or a count below 2. *)
Theorem repetition_detector_correct l params :
  ∃ b, check_sequence_repetition l params = Ok b ∧
    (b = true ↔
     2 ≤ min_count params ∧
     ∃ pat, Z.max 1 (min_pattern_size params) ≤ len pat ≤ max_pattern_size params ∧
       ends_with_copies l pat (Z.to_nat (min_count params))).
Proof. apply check_sequence_repetition_spec. Qed.

(** ** Stopping *)

(** [_update_request_with_output] of the scheduler: append the tokens one by one until
    the request stops; returns the tokens that were appended. *)
Section Output.
Context (block_hasher : option (M Request (list bytes))) (max_model_len : Z).

Fixpoint append_loop (done todo : list Z) : M Request (list Z * bool) :=
  match todo with
  | [] => mret (done, false)
  | output_token_id :: todo =>
      _ ← append_output_token_ids block_hasher [output_token_id];
      stopped ← check_stop max_model_len;
      if stopped : bool then mret (done ++ [output_token_id], true)
      else append_loop (done ++ [output_token_id]) todo
  end.
Definition _update_request_with_output (new_token_ids : list Z) : M Request (list Z * bool) :=
  append_loop [] new_token_ids.
End Output.

(** A request that generates tokens, with parameters that pass validation. *)
Record generating (sp : SamplingParams) (r : Request) : Prop := {
  gen_pooling : pooling_params r = None;
  gen_sampling : sampling_params r = Some sp;
  gen_min : sp_min_tokens sp ≤ max_tokens r
}.

Lemma set_status_only st r : set_status st r = set_stop_reason (stop_reason r) (set_status st r).
Proof. by destruct r. Qed.

Lemma py_get_last {A} (l : list A) x : py_get (l ++ [x]) (-1) = Some x.
Proof.
  change (-1) with (Z.opp 1). rewrite py_get_back by (unfold len; rewrite length_app; simpl; lia).
  rewrite length_app. replace (length l + length [x] - Z.to_nat 1)%nat with (length l) by (simpl; lia).
  by rewrite list_lookup_middle.
Qed.

(** When an output must stop, in terms of the tokens alone: there are enough of them, and
    the last one is the end-of-sequence token or a stop token, or a limit is reached, or the
    output ends in a repetition. *)
Definition repeats (outs : list Z) (params : RepetitionDetectionParams) : Prop :=
  2 ≤ min_count params ∧
  ∃ pat, Z.max 1 (min_pattern_size params) ≤ len pat ≤ max_pattern_size params ∧
    ends_with_copies outs pat (Z.to_nat (min_count params)).

Definition stop_due (sp : SamplingParams) (max_model_len max_tokens num_tokens : Z) (outs : list Z) : Prop :=
  sp_min_tokens sp ≤ len outs ∧
  ∃ t, last outs = Some t ∧
    (sp_eos_token_id sp = Some t ∨ t ∈ default [] (sp_stop_token_ids sp) ∨ max_model_len ≤ num_tokens ∨
     max_tokens ≤ len outs ∨ ∃ params, sp_repetition_detection sp = Some params ∧ repeats outs params).

(** Request [q] must stop once the tokens [l] are appended to its output. *)
Definition due (max_model_len : Z) (q : Request) (l : list Z) : Prop :=
  ∃ sp, sampling_params q = Some sp ∧
    stop_due sp max_model_len (max_tokens q) (num_tokens q + len l) (_output_token_ids q ++ l).

(** Of the sampled tokens [toks] the request keeps [kept]: all of them if it must not stop
    after any of them, and else those up to the first after which it must. *)
Definition cut_at_stop (max_model_len : Z) (q : Request) (toks kept : list Z) (stopped : bool) : Prop :=
  ∃ rest, toks = kept ++ rest ∧ (stopped = false → rest = []) ∧ (stopped = true → kept ≠ []) ∧
    ∀ l l', kept = l ++ l' → l ≠ [] → due max_model_len q l ↔ l' = [] ∧ stopped = true.

Lemma cut_none mml q : cut_at_stop mml q [] [] false.
Proof. exists []. split_and!; try done. intros l l' Hl. symmetry in Hl. by apply app_nil in Hl as [-> _]. Qed.
Lemma cut_nil mml q kept b : cut_at_stop mml q [] kept b → kept = [] ∧ b = false.
Proof.
  intros (rest & Hk & _ & Hne & _). symmetry in Hk. apply app_nil in Hk as [-> _]. split; [done|]. destruct b; [|done]. by destruct Hne.
Qed.
Lemma cut_kept mml q toks kept : cut_at_stop mml q toks kept false → kept = toks.
Proof. intros (rest & -> & Hr & _). by rewrite (Hr eq_refl), app_nil_r. Qed.
Lemma cut_same mml q q' toks kept b :
  sampling_params q' = sampling_params q → max_tokens q' = max_tokens q → num_tokens q' = num_tokens q →
  _output_token_ids q' = _output_token_ids q → cut_at_stop mml q toks kept b → cut_at_stop mml q' toks kept b.
Proof. intros Hs Hm Hn Ho. unfold cut_at_stop, due. by rewrite Hs, Hm, Hn, Ho. Qed.

(** [check_stop] raises nothing after a token was appended; it answers [True] exactly
    when the request must stop, and then finishes it, and changes nothing when it answers
    [False]. *)
Lemma check_stop_spec sp mml r t :
  generating sp r → last (_output_token_ids r) = Some t →
  ∃ (b : bool) st sr, check_stop mml r = (Ok b, if b then set_stop_reason sr (set_status st r) else r) ∧
    (b = true ↔ stop_due sp mml (max_tokens r) (num_tokens r) (_output_token_ids r)) ∧
    (b = true → status_is_finished st = true ∧ sp_min_tokens sp ≤ num_output_tokens r) ∧
    (b = false → num_output_tokens r < max_tokens r ∧
       (sp_min_tokens sp ≤ num_output_tokens r → num_tokens r < mml)).
Proof.
  intros [Hpp Hsp Hmin] Hlast. pose proof Hlast as [l Hl]%last_Some.
  assert (Hg : py_get (_output_token_ids r) (-1) = Some t) by (rewrite Hl; apply py_get_last).
  assert (Hdue : stop_due sp mml (max_tokens r) (num_tokens r) (_output_token_ids r) ↔ sp_min_tokens sp ≤ num_output_tokens r ∧
    (sp_eos_token_id sp = Some t ∨ t ∈ default [] (sp_stop_token_ids sp) ∨ mml ≤ num_tokens r ∨ max_tokens r ≤ num_output_tokens r ∨
     ∃ params, sp_repetition_detection sp = Some params ∧ repeats (_output_token_ids r) params)).
  { unfold stop_due. rewrite Hlast. naive_solver. }
  unfold check_stop, mbind, M_bind, gets, or_raise.
  rewrite Hpp. simpl. rewrite Hsp. unfold id. simpl.
  destruct (Z.ltb_spec (num_output_tokens r) (sp_min_tokens sp)) as [Hlt|Hge].
  { exists false, WAITING, None. split; [done|]. split; [rewrite Hdue; split; [done|lia]|]. split; [done|]. lia. }
  rewrite Hg. simpl. case_bool_decide as Heos.
  { exists true, FINISHED_STOPPED, (stop_reason r). rewrite <- set_status_only. rewrite Hdue. by split_and!; try (split; auto). }
  case_bool_decide as Hstop.
  { exists true, FINISHED_STOPPED, (Some (StopToken t)). rewrite Hdue. by split_and!; try (split; auto). }
  destruct (Z.leb_spec mml (num_tokens r)) as [Hm|Hm]; simpl.
  { exists true, FINISHED_LENGTH_CAPPED, (stop_reason r). rewrite <- set_status_only. rewrite Hdue. by split_and!; try (split; auto). }
  destruct (Z.leb_spec (max_tokens r) (num_output_tokens r)) as [Ho|Ho]; simpl.
  { exists true, FINISHED_LENGTH_CAPPED, (stop_reason r). rewrite <- set_status_only. rewrite Hdue. by split_and!; try (split; auto 6). }
  assert (Hrep : stop_due sp mml (max_tokens r) (num_tokens r) (_output_token_ids r) ↔
    ∃ params, sp_repetition_detection sp = Some params ∧ repeats (_output_token_ids r) params).
  { rewrite Hdue. split; [|auto 8]. intros [_ [?|[?|[?|[?|?]]]]]; try lia; done. }
  destruct (sp_repetition_detection sp) as [params|].
  2: { exists false, WAITING, None. rewrite Hrep. split_and!; try done. split; [done|]. by intros (? & ? & _). }
  destruct (check_sequence_repetition_spec (_output_token_ids r) params) as (b & -> & Hb).
  assert (Hrep' : stop_due sp mml (max_tokens r) (num_tokens r) (_output_token_ids r) ↔ b = true) by (rewrite Hrep, Hb; unfold repeats; naive_solver).
  destruct b; [|by exists false, WAITING, None; rewrite Hrep'].
  by exists true, FINISHED_REPETITION, (Some (StopString "repetition_detected")); rewrite Hrep'.
Qed.

(** ** The block hasher never raises *)

#[local] Abbreviation set_memo := set_prompt_embeds_per_block_hashes.
#[local] Abbreviation memo := _prompt_embeds_per_block_hashes.

Lemma mm_keys_loop_idx fs s e : ∀ i ks, i ≤ (mm_keys_loop fs s e i ks).2.
Proof.
  induction fs as [|f fs IH]; intros i ks; simpl; [lia|].
  repeat case_match; simpl; try lia; (etrans; [|apply IH]; lia).
Qed.

Section HasherTotal.
Context (sha256 : list bytes → bytes) (hash_function : bytes * list Z * option (list ExtraKey) → bytes).
Context (NONE_HASH : bytes).

Lemma gen_mm_total r s e i : -1 ≤ i → ∃ p, _gen_mm_extra_hash_keys r s e i = Ok p ∧ -1 ≤ p.2.
Proof.
  intros Hi. unfold _gen_mm_extra_hash_keys. destruct (List.rev (mm_features r)) as [|f fs] eqn:Hf; [by eexists|].
  destruct (_ <=? s); [by eexists|].
  assert (1 ≤ len (mm_features r)).
  { unfold len. rewrite <- (rev_involutive (mm_features r)), Hf, length_rev. simpl. lia. }
  rewrite (proj2 (Z.ltb_ge (len (mm_features r)) (- i))) by lia. rewrite andb_false_r.
  eexists. split; [done|]. etrans; [|apply mm_keys_loop_idx]. destruct (Z.ltb_spec i 0); lia.
Qed.

Lemma hasher_keys_total s e i r :
  -1 ≤ i → wp (generate_block_hash_extra_keys sha256 s e i) (λ p r', -1 ≤ p.2 ∧ ∃ m, r' = set_memo m r) r.
Proof.
  intros Hi. unfold generate_block_hash_extra_keys. apply wp_bind, wp_gets. unfold id.
  destruct (gen_mm_total r s e i Hi) as ([ks j] & -> & Hj). simpl in Hj. apply wp_bind.
  apply wp_mono with (λ _ r', ∃ m, r' = set_memo m r).
  - unfold _gen_prompt_embeds_extra_hash_keys. apply wp_bind, wp_gets.
    assert (Hr : ∃ m, r = set_memo m r) by (exists (memo r); by destruct r).
    destruct (prompt_embeds r) as [rows|]; [|by apply wp_ret].
    apply wp_bind, wp_gets. destruct (_ !! _); [by apply wp_ret|]. apply wp_bind, wp_modify, wp_ret. by eexists.
  - intros ps r' [m ->]. destruct (_ ++ _ ++ _ ++ _); apply wp_ret; (split; [done|by eexists]).
Qed.

Lemma block_hasher_loop_total bs n (Hbs : 0 < bs) : ∀ fuel start i prev acc r,
  -1 ≤ i → Z.max 0 (n - start) < Z.of_nat fuel →
  wp (block_hasher_loop sha256 hash_function NONE_HASH fuel bs n start i prev acc)
    (λ _ r', ∃ m, r' = set_memo m r) r.
Proof.
  induction fuel as [|fuel IH]; intros start i prev acc r Hi Hf; [lia|]. cbn [block_hasher_loop].
  destruct (Z.ltb_spec n (start + bs)) as [Hn|Hn].
  - apply wp_ret. exists (memo r). by destruct r.
  - apply wp_bind. eapply wp_mono; [by apply hasher_keys_total|].
    intros [ks j] r' [Hj [m ->]]. apply wp_bind, wp_gets. eapply wp_mono; [apply IH; simpl in *; lia|].
    intros hs r' [m' ->]. by exists m'.
Qed.

(** It only extends its cache on the request. *)
Lemma request_block_hasher_total bs r :
  0 < bs → wp (request_block_hasher sha256 hash_function NONE_HASH bs) (λ _ r', ∃ m, r' = set_memo m r) r.
Proof.
  intros Hbs. unfold request_block_hasher. apply wp_bind, wp_gets. unfold id.
  case_match; [apply wp_ret; exists (memo r); by destruct r|].
  apply block_hasher_loop_total; [done|case_match; lia|].
  unfold num_tokens. pose proof (len_nonneg (_all_token_ids r)). pose proof (len_nonneg (block_hashes r)). nia.
Qed.
End HasherTotal.

(** What appending tokens relies on: no hasher, or one that raises nothing and changes
    nothing but its cache. *)
Definition quiet_hasher (h : option (M Request (list bytes))) : Prop :=
  ∀ f, h = Some f → ∀ r, wp f (λ _ r', ∃ m, r' = set_memo m r) r.

Lemma append_output_quiet h toks r :
  quiet_hasher h →
  wp (append_output_token_ids h toks) (λ _ r', ∃ hs m,
    r' = set_block_hashes hs (set_memo m (set_all_token_ids (_all_token_ids r ++ toks)
           (set_output_token_ids (_output_token_ids r ++ toks) r)))) r.
Proof.
  intros Hq. unfold append_output_token_ids. apply wp_bind, wp_modify, wp_bind, wp_modify. simpl.
  unfold update_block_hashes. destruct h as [f|].
  - apply wp_bind. eapply wp_mono; [by apply (Hq f)|]. intros hs r' [m ->]. apply wp_modify. by eexists _, m.
  - apply wp_ret. eexists (block_hashes r), (memo r). by destruct r.
Qed.

(** What one sampled token changes, and what it leaves. *)
Definition grown (sp : SamplingParams) (kept : list Z) (r r' : Request) : Prop :=
  _output_token_ids r' = _output_token_ids r ++ kept ∧ _all_token_ids r' = _all_token_ids r ++ kept ∧
  max_tokens r' = max_tokens r ∧ pooling_params r' = None ∧ sampling_params r' = Some sp.

(** [stopped] and the state of the request agree. *)
Definition stop_outcome (sp : SamplingParams) (mml : Z) (st0 : RequestStatus) (stopped : bool) (r : Request) : Prop :=
  num_output_tokens r ≤ max_tokens r ∧
  (if stopped then is_finished r = true ∧ sp_min_tokens sp ≤ num_output_tokens r
   else status r = st0 ∧ num_output_tokens r < max_tokens r ∧
        (sp_min_tokens sp ≤ num_output_tokens r → num_tokens r < mml)).

Lemma append_loop_spec h sp mml : quiet_hasher h → ∀ todo r0 done r,
  sp_min_tokens sp ≤ max_tokens r0 → grown sp done r0 r → status r = status r0 →
  num_output_tokens r < max_tokens r0 → (sp_min_tokens sp ≤ num_output_tokens r → num_tokens r < mml) →
  sampling_params r0 = Some sp → (∀ l l', done = l ++ l' → l ≠ [] → ¬ due mml r0 l) →
  wp (append_loop h mml done todo) (λ '(kept, stopped) r',
    grown sp kept r0 r' ∧ stop_outcome sp mml (status r0) stopped r' ∧ cut_at_stop mml r0 (done ++ todo) kept stopped) r.
Proof.
  intros Hq. induction todo as [|t todo IH]; intros r0 done r Hmin Hg Hst Hno Hnt Hsp0 Hnd; cbn [append_loop].
  - apply wp_ret. destruct Hg as (Ho & Ha & Hm & Hpp & Hsp). split_and!; try done.
    + unfold stop_outcome. rewrite Hm. split; [lia|done].
    + exists []. rewrite app_nil_r. split_and!; try done. intros l l' Hl Hne. split; [intros Hd; by destruct (Hnd l l')|by intros [_ ?]].
  - apply wp_bind. eapply wp_mono; [by apply append_output_quiet|]. intros _ r1 (hs & m & Hr1).
    destruct Hg as (Ho & Ha & Hm & Hpp & Hsp).
    assert (Hg1 : grown sp (done ++ [t]) r0 r1).
    { subst r1. unfold grown. simpl. rewrite Ho, Ha, <- !app_assoc. done. }
    assert (Hgen : generating sp r1) by (subst r1; split; simpl; [done..|lia]).
    assert (Hl : last (_output_token_ids r1) = Some t) by (subst r1; simpl; by rewrite last_snoc).
    assert (Hn1 : num_output_tokens r1 = num_output_tokens r + 1).
    { subst r1. unfold num_output_tokens. simpl. rewrite len_app. done. }
    assert (Hm1 : max_tokens r1 = max_tokens r0) by (by subst r1).
    assert (Hs1 : status r1 = status r0) by (by subst r1). clear Hr1.
    destruct (check_stop_spec sp mml r1 t Hgen Hl) as (b & st & sr & Hc & Hd & Ht & Hf).
    assert (Hd0 : due mml r0 (done ++ [t]) ↔ b = true).
    { rewrite Hd. destruct Hg1 as (-> & Ha1 & _). unfold due. rewrite Hsp0, Hm1. unfold num_tokens. rewrite Ha1, (len_app (_all_token_ids r0)).
      split; [intros (sp' & [= <-] & ?); done|]. intros ?. by exists sp. }
    assert (Hnd' : ∀ l l', done ++ [t] = l ++ l' → l ≠ [] → l' = [] ∧ l = done ++ [t] ∨ ¬ due mml r0 l).
    { intros l l' Hll Hne. destruct l' as [|x l' _] using rev_ind; [left; by rewrite app_nil_r in Hll|right].
      rewrite app_assoc in Hll. apply app_inj_tail in Hll as [Hll _]. by apply (Hnd l l'). }
    apply wp_bind. unfold wp at 1. rewrite Hc. destruct b.
    + apply wp_ret. destruct (Ht eq_refl) as [Hfin Hge]. split_and!; [done| |].
      * unfold stop_outcome, is_finished, num_output_tokens in *. simpl. split; [lia|done].
      * exists todo. split_and!; [by rewrite <- app_assoc|done|by destruct done|]. intros l l' Hll Hne.
        destruct (Hnd' l l' Hll Hne) as [[-> ->]|Hno']; [by rewrite Hd0|]. split; [done|]. intros [-> _]. rewrite app_nil_r in Hll. subst l.
        by rewrite Hd0 in Hno'.
    + destruct (Hf eq_refl) as [Hlt Hb]. eapply wp_mono; [apply (IH r0 (done ++ [t]) r1); try done; [lia|]|].
      { intros l l' Hll Hne. destruct (Hnd' l l' Hll Hne) as [[_ ->]|]; [by rewrite Hd0|done]. }
      intros [kept stopped] r'. by rewrite <- app_assoc.
Qed.

(** C26: Output tokens are appended until the request stops.  From an unfinished request
    below its limits, [_update_request_with_output] raises nothing, appends a prefix of
    the sampled tokens to both token lists and returns it: those up to the first after which
    the request is due to stop (end of sequence, a stop token, a length, a repetition), or
    all if there is none; it reports a stop exactly when the request is then finished, never
    before [min_tokens]; the output never exceeds
    [max_tokens], and when no stop is reported all tokens were appended and the request
    is still below its limits. *)
Theorem output_stops_in_bounds sha256 hash_fn none_hash bs h sp mml toks r :
  0 < bs → h = None ∨ h = Some (request_block_hasher sha256 hash_fn none_hash bs) →
  generating sp r → is_finished r = false →
  num_output_tokens r < max_tokens r → num_tokens r < mml →
  wp (_update_request_with_output h mml toks) (λ '(kept, stopped) r',
    _output_token_ids r' = _output_token_ids r ++ kept ∧ _all_token_ids r' = _all_token_ids r ++ kept ∧
    num_output_tokens r' ≤ max_tokens r' ∧ stopped = is_finished r' ∧
    cut_at_stop mml r toks kept stopped ∧
    (if stopped then sp_min_tokens sp ≤ num_output_tokens r'
     else num_output_tokens r' < max_tokens r' ∧ (sp_min_tokens sp ≤ num_output_tokens r' → num_tokens r' < mml))) r.
Proof.
  intros Hbs Hh [Hpp Hsp Hmin] Hfin Hno Hnt.
  assert (Hq : quiet_hasher h).
  { intros f Hf r'. destruct Hh as [-> | ->]; simplify_eq. by apply request_block_hasher_total. }
  eapply wp_mono.
  { apply (append_loop_spec h sp mml Hq toks r [] r); try done; [unfold grown; by rewrite !app_nil_r|].
    intros l l' Hl. symmetry in Hl. by apply app_nil in Hl as [-> _]. }
  intros [kept stopped] r' ((Ho & Ha & Hm & _) & [Hle Hout] & Hrest). split_and!; try done.
  - destruct stopped; [by destruct Hout|]. destruct Hout as (Hs & _). unfold is_finished in *. by rewrite Hs, Hfin.
  - destruct stopped; [by destruct Hout|]. by destruct Hout.
Qed.

(** A request with a prompt of three tokens that may generate at most two. *)
Definition short_request : Request :=
  mkRequest "r" 0 0 (Some (mkSamplingParams (Some 2) 1 (Some 0) None None None None None)) None None None 0
    RUNNING [] None 2 (Some [1; 2; 3]) None ∅ 3 [] [1; 2; 3] 0 false [] 3 None [] false 0 None [] false false
    None None 0 1.

Lemma output_stops_in_bounds_witness :
  let hasher := Some (request_block_hasher (λ _, []) (λ _, [9]) [0] 2) in
  (_update_request_with_output hasher 100 [5; 6; 7] short_request).1 = Ok ([5; 6], true) ∧
  wp (_update_request_with_output hasher 100 [5; 6; 7]) (λ '(kept, stopped) r',
    num_output_tokens r' ≤ max_tokens r' ∧ stopped = is_finished r') short_request.
Proof.
  split; [vm_compute; reflexivity|]. eapply wp_mono.
  - apply (output_stops_in_bounds (λ _, []) (λ _, [9]) [0] 2 _
      (mkSamplingParams (Some 2) 1 (Some 0) None None None None None));
      [lia|by right|split; simpl; [done|done|lia]|done|vm_compute; done|vm_compute; done].
  - intros [kept stopped] r' (_ & _ & H1 & H2 & _). split; [exact H1|exact H2].
Defined.
