(* ===== verification/EncoderCache.v ===== *)
(** * The encoder cache

    vllm/v1/core/encoder_cache_manager.py: the bookkeeping of the encoder outputs of
    multi-modal inputs.  An entry is known by the hash of its input; [cached] holds the
    requests that refer to it, [freeable] the entries without a reference, oldest first,
    which [can_allocate] evicts.  The order in which Python iterates over a set of
    indices is the parameter [set_iter]. *)

From S2P Require Import Prelude FreeQueue Request.

#[local] Set Default Proof Using "Type*".

Lemma od_del_sum k v (d : list (string * Z)) :
  od_get k d = Some v → sumZ (od_del k d).*2 = sumZ d.*2 - v.
Proof.
  induction d as [|[k0 v0] d IH]; cbn [od_get od_del]; [done|]. rewrite fmap_cons, sumZ_cons. simpl.
  case_decide; [intros [= ->]; lia|]. intros Hk. rewrite fmap_cons, sumZ_cons, IH by done. simpl. lia.
Qed.

(** [request.mm_features[input_id]] *)
Definition feature_at {S} (request : Request) (input_id : Z) : M S MultiModalFeatureSpec :=
  or_raise IndexError (py_get (mm_features request) input_id).

Definition num_encoder_embeds_of {S} (request : Request) (input_id : Z) : M S Z :=
  match get_num_encoder_embeds request input_id with Ok n => mret n | Raise e => raise e end.

(** ** [EncoderCacheManager] *)
Module EncoderCacheManager.
Record manager := mkManager {
  cache_size : Z;
  num_free_slots : Z;
  num_freeable_slots : Z;
  cached : gmap string (gset string);
  freeable : list (string * Z);
  freed : list string
}.

Definition set_num_free_slots v m :=
  mkManager (cache_size m) v (num_freeable_slots m) (cached m) (freeable m) (freed m).
Definition set_num_freeable_slots v m :=
  mkManager (cache_size m) (num_free_slots m) v (cached m) (freeable m) (freed m).
Definition set_cached v m :=
  mkManager (cache_size m) (num_free_slots m) (num_freeable_slots m) v (freeable m) (freed m).
Definition set_freeable v m :=
  mkManager (cache_size m) (num_free_slots m) (num_freeable_slots m) (cached m) v (freed m).
Definition set_freed v m :=
  mkManager (cache_size m) (num_free_slots m) (num_freeable_slots m) (cached m) (freeable m) v.

Definition init (cache_size : Z) : manager := mkManager cache_size cache_size cache_size ∅ [] [].

Definition reset : M manager unit :=
  _ ← modify (set_cached ∅);
  _ ← modify (set_freeable []);
  _ ← modify (set_freed []);
  _ ← modify (λ m, set_num_free_slots (cache_size m) m);
  modify (λ m, set_num_freeable_slots (cache_size m) m).

Definition check_and_update_cache (request : Request) (input_id : Z) : M manager bool :=
  f ← feature_at request input_id;
  let mm_hash := identifier f in
  c ← gets cached;
  match c !! mm_hash with
  | None => mret false
  | Some refs =>
      _ ← (if decide (refs = ∅) then
             d ← gets freeable;
             n ← or_raise KeyError (od_get mm_hash d);
             _ ← modify (set_freeable (od_del mm_hash d));
             modify (λ m, set_num_freeable_slots (num_freeable_slots m - n) m)
           else mret tt);
      _ ← modify (λ m, set_cached (<[mm_hash := refs ∪ {[request_id request]}]> (cached m)) m);
      mret true
  end.

(** [while num_embeds > self.num_free_slots]: every round takes an entry off
    [freeable]. *)
Fixpoint evict_loop (fuel : nat) (num_embeds : Z) : M manager unit :=
  match fuel with
  | O => raise OutOfFuel
  | S fuel =>
      free ← gets num_free_slots;
      if free <? num_embeds then
        d ← gets freeable;
        match d with
        | [] => raise KeyError
        | (mm_hash, num_free_embeds) :: d =>
            _ ← modify (set_freeable d);
            c ← gets cached;
            _ ← (match c !! mm_hash with
                 | None => raise KeyError
                 | Some _ => modify (set_cached (delete mm_hash c))
                 end);
            _ ← modify (λ m, set_freed (freed m ++ [mm_hash]) m);
            _ ← modify (λ m, set_num_free_slots (num_free_slots m + num_free_embeds) m);
            evict_loop fuel num_embeds
        end
      else mret tt
  end.

Definition can_allocate (request : Request) (input_id encoder_compute_budget num_embeds_to_schedule : Z) :
    M manager bool :=
  num_embeds ← num_encoder_embeds_of request input_id;
  if encoder_compute_budget <? num_embeds then mret false
  else
    let num_embeds := num_embeds + num_embeds_to_schedule in
    m ← gets id;
    if num_embeds <=? num_free_slots m then mret true
    else if num_freeable_slots m <? num_embeds then mret false
    else
      _ ← evict_loop (S (length (freeable m))) num_embeds;
      mret true.

Definition allocate (request : Request) (input_id : Z) : M manager unit :=
  f ← feature_at request input_id;
  let mm_hash := identifier f in
  _ ← modify (λ m, match cached m !! mm_hash with
                   | None => set_cached (<[mm_hash := ∅]> (cached m)) m
                   | Some _ => m
                   end);
  n ← num_encoder_embeds_of request input_id;
  m ← gets id;
  _ ← assert (n <=? num_free_slots m);
  _ ← assert (n <=? num_freeable_slots m);
  _ ← modify (λ m, set_cached (<[mm_hash := default ∅ (cached m !! mm_hash) ∪ {[request_id request]}]> (cached m)) m);
  _ ← modify (λ m, set_num_free_slots (num_free_slots m - n) m);
  modify (λ m, set_num_freeable_slots (num_freeable_slots m - n) m).

Definition is_cached (request : Request) (m : manager) (input_id : Z) : bool :=
  match py_get (mm_features request) input_id with
  | Some f => bool_decide (is_Some (cached m !! identifier f))
  | None => false
  end.
Definition get_cached_input_ids (request : Request) (m : manager) : list Z :=
  filter (λ i, is_cached request m i = true) (py_range 0 (len (mm_features request))).

Definition free_encoder_input (request : Request) (input_id : Z) : M manager unit :=
  f ← feature_at request input_id;
  let mm_hash := identifier f in
  c ← gets cached;
  match c !! mm_hash with
  | None => mret tt
  | Some refs =>
      if decide (refs = ∅) then mret tt
      else
        let refs := refs ∖ {[request_id request]} in
        _ ← modify (λ m, set_cached (<[mm_hash := refs]> (cached m)) m);
        if decide (refs = ∅) then
          n ← num_encoder_embeds_of request input_id;
          _ ← modify (λ m, set_freeable (od_set mm_hash n (freeable m)) m);
          modify (λ m, set_num_freeable_slots (num_freeable_slots m + n) m)
        else mret tt
  end.

Section Free.
Context (set_iter : list Z → list Z).

Definition free (request : Request) : M manager unit :=
  input_ids ← gets (get_cached_input_ids request);
  for_ (set_iter input_ids) (free_encoder_input request).
End Free.

Definition get_freed_mm_hashes : M manager (list string) :=
  l ← gets freed;
  _ ← modify (set_freed []);
  mret l.
End EncoderCacheManager.

(** ** [EncoderDecoderCacheManager] *)
Module EncoderDecoderCacheManager.
Record manager := mkManager {
  cache_size : Z;
  num_free_slots : Z;
  allocated : list string;
  to_free : list string
}.

Definition set_num_free_slots v m := mkManager (cache_size m) v (allocated m) (to_free m).

Definition init (cache_size : Z) : manager := mkManager cache_size cache_size [] [].

Definition reset : M manager unit := modify (λ m, mkManager (cache_size m) (cache_size m) [] []).

Definition check_and_update_cache (request : Request) (input_id : Z) : M manager bool := mret false.

Definition can_allocate (request : Request) (input_id encoder_compute_budget num_embeds_to_schedule : Z) :
    M manager bool :=
  num_encoder_embeds ← num_encoder_embeds_of request input_id;
  if encoder_compute_budget <? num_encoder_embeds then mret false
  else
    free ← gets num_free_slots;
    mret (num_encoder_embeds + num_embeds_to_schedule <=? free).

Definition allocate (request : Request) (input_id : Z) : M manager unit :=
  n ← num_encoder_embeds_of request input_id;
  _ ← modify (λ m, set_num_free_slots (num_free_slots m - n) m);
  f ← feature_at request input_id;
  modify (λ m, mkManager (cache_size m) (num_free_slots m) (allocated m ++ [identifier f]) (to_free m)).

Definition free_encoder_input (request : Request) (input_id : Z) : M manager unit :=
  n ← num_encoder_embeds_of request input_id;
  modify (λ m, set_num_free_slots (num_free_slots m + n) m).

Definition free (request : Request) : M manager unit :=
  for_ (py_range 0 (len (mm_features request))) (free_encoder_input request).

Definition get_cached_input_ids (request : Request) (m : manager) : list Z :=
  py_range 0 (len (mm_features request)).

Definition get_freed_mm_hashes : M manager (list string) :=
  l ← gets to_free;
  _ ← modify (λ m, mkManager (cache_size m) (num_free_slots m) [] (allocated m));
  mret l.
End EncoderDecoderCacheManager.

(** [compute_mm_encoder_budget]; the scheduler's settings are its arguments. *)
Definition compute_mm_encoder_budget (disable_chunked_mm_input : bool)
    (max_num_batched_tokens max_num_encoder_input_tokens encoder_cache_size : Z)
    (mm_max_toks_per_item : gmap string Z) : result (Z * Z) :=
  match (map_to_list mm_max_toks_per_item).*2 with
  | [] => Ok (0, 0)
  | x :: l =>
      let max_tokens_per_mm_item := foldl Z.max x l in
      if disable_chunked_mm_input && (max_num_batched_tokens <? max_tokens_per_mm_item) then Raise ValueError
      else Ok (Z.max max_num_encoder_input_tokens max_tokens_per_mm_item,
               Z.max encoder_cache_size max_tokens_per_mm_item)
  end.

(** ** The invariant *)

Module EncoderCacheFacts.
Import EncoderCacheManager.

Lemma with_ref_ne (refs : gset string) x : refs ∪ {[x]} ≠ ∅.
Proof. set_solver. Qed.

Lemma alter_match (g : gset string → gset string) h (c c' : gmap string (gset string)) :
  match c !! h with Some refs => c' = <[h := g refs]> c | None => c' = c end → alter g h c = c'.
Proof.
  intros Hm. apply map_eq. intros h'. rewrite lookup_alter. destruct (c !! h) as [refs|] eqn:Hc; subst c'.
  - rewrite lookup_insert. by case_decide.
  - case_decide as Hd; [|done]. by rewrite <- Hd, Hc.
Qed.

Section Facts.
(** The number of embeddings of the input with a hash. *)
Context (sz : string → Z) (size : Z).

Definition entries_size (c : gmap string (gset string)) : Z :=
  sumZ ((λ e : string * gset string, sz e.1) <$> map_to_list c).

Lemma entries_size_insert_new h refs c :
  c !! h = None → entries_size (<[h := refs]> c) = sz h + entries_size c.
Proof.
  intros Hh. unfold entries_size.
  rewrite (sumZ_perm _ ((λ e : string * gset string, sz e.1) <$> (h, refs) :: map_to_list c)); [done|].
  apply fmap_Permutation. by apply map_to_list_insert.
Qed.

Lemma entries_size_delete h refs c :
  c !! h = Some refs → entries_size (delete h c) = entries_size c - sz h.
Proof.
  intros Hh. rewrite <- (insert_delete_id c h refs Hh) at 2.
  rewrite entries_size_insert_new by apply lookup_delete_eq. lia.
Qed.

Lemma entries_size_insert_old h refs refs' c :
  c !! h = Some refs → entries_size (<[h := refs']> c) = entries_size c.
Proof.
  intros Hh. rewrite <- insert_delete_eq, entries_size_insert_new by apply lookup_delete_eq.
  rewrite (entries_size_delete h refs) by done. lia.
Qed.

(** The inputs of the request have the sizes their hashes stand for. *)
Definition sized (r : Request) : Prop :=
  Forall (λ f, get_num_embeds (mm_position f) = sz (identifier f)) (mm_features r).

Record enc_inv (m : manager) : Prop := {
  inv_pos h : 0 ≤ sz h;
  inv_free : 0 ≤ num_free_slots m;
  inv_total : num_free_slots m + entries_size (cached m) = size ∧ cache_size m = size;
  inv_freeable : num_freeable_slots m = num_free_slots m + sumZ ((freeable m).*2);
  inv_nodup : NoDup (freeable m).*1;
  inv_unref h n : (h, n) ∈ freeable m ↔ cached m !! h = Some ∅ ∧ n = sz h
}.

Lemma init_inv : (∀ h, 0 ≤ sz h) → 0 ≤ size → enc_inv (init size).
Proof.
  intros Hsz Hs. split; simpl; [done|done| |unfold sumZ; simpl; lia|constructor|].
  - unfold entries_size. rewrite map_to_list_empty. simpl. lia.
  - intros h n. rewrite lookup_empty. set_solver.
Qed.

Lemma entries_size_nonneg m : enc_inv m → 0 ≤ entries_size (cached m).
Proof.
  intros Hi. apply sumZ_nonneg, Forall_fmap, Forall_forall. intros e _. apply (inv_pos _ Hi).
Qed.

Lemma feature_embeds {S} r i f (Q : Z → S → Prop) s :
  sized r → 0 ≤ i → py_get (mm_features r) i = Some f → Q (sz (identifier f)) s →
  wp (num_encoder_embeds_of r i) Q s.
Proof.
  intros Hr Hi Hf HQ. unfold num_encoder_embeds_of, get_num_encoder_embeds.
  rewrite Hf. rewrite py_get_nonneg in Hf by done. pose proof (lookup_lt_Some _ _ _ Hf) as Hl.
  rewrite (proj2 (Z.ltb_lt i (len (mm_features r)))) by (unfold len; lia). apply wp_ret.
  unfold sized in Hr. rewrite Forall_lookup in Hr. by rewrite (Hr _ _ Hf).
Qed.

Lemma feature_ok {S} r i f (Q : MultiModalFeatureSpec → S → Prop) s :
  py_get (mm_features r) i = Some f → Q f s → wp (feature_at r i) Q s.
Proof. intros Hf HQ. by apply wp_or_raise with f. Qed.

(** A hit takes a reference to the entry, which then can not be evicted. *)
Lemma check_and_update_cache_ok m r i f :
  enc_inv m → py_get (mm_features r) i = Some f →
  wp (check_and_update_cache r i) (λ b m', enc_inv m' ∧ num_free_slots m' = num_free_slots m ∧
    (if b then ∃ refs, cached m !! identifier f = Some refs ∧
                cached m' = <[identifier f := refs ∪ {[request_id r]}]> (cached m)
     else cached m !! identifier f = None ∧ m' = m)) m.
Proof.
  intros Hi Hf. unfold check_and_update_cache. apply wp_bind, (feature_ok _ _ f); [done|].
  apply wp_bind, wp_gets. set (h := identifier f).
  destruct (cached m !! h) as [refs|] eqn:Hc; [|by apply wp_ret].
  apply wp_bind. case_decide as Hr.
  - subst refs. assert (Hin : (h, sz h) ∈ freeable m) by (by apply (inv_unref _ Hi)).
    apply wp_bind, wp_gets, wp_bind. eapply wp_or_raise; [by apply od_get_elem; [apply (inv_nodup _ Hi)|]|].
    apply wp_bind, wp_modify, wp_modify, wp_bind, wp_modify, wp_ret. split; [|split; [done|by exists ∅]].
    destruct Hi as [Hp Hfree Ht Hfr Hn Hu]. split; simpl; [done|done| | | |].
    + by rewrite (entries_size_insert_old h ∅).
    + rewrite (od_del_sum h (sz h)); [lia|]. by apply od_get_elem.
    + eapply sublist_NoDup; [done|apply od_del_keys].
    + intros h' n. rewrite od_del_elem by done. rewrite Hu. destruct (decide (h' = h)) as [->|Hne].
      * rewrite lookup_insert_eq. split; [naive_solver|]. intros [He%(inj Some)%with_ref_ne _]. done.
      * rewrite lookup_insert_ne by done. naive_solver.
  - apply wp_ret, wp_bind, wp_modify, wp_ret. split; [|split; [done|by exists refs]].
    destruct Hi as [Hp Hfree Ht Hfr Hn Hu]. split; simpl; [done|done| |done|done|].
    + by rewrite (entries_size_insert_old h refs).
    + intros h' n. rewrite Hu. destruct (decide (h' = h)) as [->|Hne].
      * rewrite lookup_insert_eq, Hc. split; [naive_solver|]. intros [He%(inj Some)%with_ref_ne _]. done.
      * by rewrite lookup_insert_ne.
Qed.

(** Entries leave the cache from the front of [freeable] and become free space. *)
Record evicted (k : nat) (m m' : manager) : Prop := {
  ev_freeable : freeable m' = drop k (freeable m);
  ev_freed : freed m' = freed m ++ (take k (freeable m)).*1;
  ev_slots : num_free_slots m' = num_free_slots m + sumZ (take k (freeable m)).*2;
  ev_freeable_slots : num_freeable_slots m' = num_freeable_slots m;
  ev_size : cache_size m' = cache_size m;
  ev_cached h : cached m' !! h = if decide (h ∈ (take k (freeable m)).*1) then None else cached m !! h
}.

Lemma evicted_0 m : evicted 0 m m.
Proof. split; simpl; rewrite ?drop_0, ?take_0, ?app_nil_r; simpl; [done..|lia|done|done|done]. Qed.
Lemma evict_first_inv m h n d :
  enc_inv m → freeable m = (h, n) :: d →
  enc_inv (mkManager (cache_size m) (num_free_slots m + n) (num_freeable_slots m) (delete h (cached m)) d
             (freed m ++ [h])) ∧ cached m !! h = Some ∅ ∧ 0 ≤ n.
Proof.
  intros [Hp Hf Ht Hfr Hn Hu] Hd. assert (cached m !! h = Some ∅ ∧ n = sz h) as [Hh ->].
  { apply Hu. rewrite Hd. by left. }
  rewrite Hd in Hfr, Hn. rewrite fmap_cons, sumZ_cons in Hfr. simpl in Hfr.
  apply NoDup_cons in Hn as [Hn1 Hn2].
  pose proof (Hp h). split; [|done]. split; simpl; [done|lia| |lia|done|].
  - rewrite (entries_size_delete h ∅) by done. lia.
  - intros h' n'. specialize (Hu h' n'). rewrite Hd, elem_of_cons in Hu. destruct (decide (h' = h)) as [->|Hne].
    + rewrite lookup_delete_eq. split; [|naive_solver]. intros Hin.
      destruct Hn1. apply (list_elem_of_fmap_2 fst) in Hin. done.
    + rewrite lookup_delete_ne by done. naive_solver.
Qed.

Lemma evicted_S k m m' h n d :
  freeable m = (h, n) :: d → cached m !! h = Some ∅ →
  evicted k (mkManager (cache_size m) (num_free_slots m + n) (num_freeable_slots m) (delete h (cached m)) d
               (freed m ++ [h])) m' →
  evicted (S k) m m'.
Proof.
  clear sz. intros Hd Hh [H1 H2 H3 H4 H5 H6]. simpl in *. split; rewrite ?Hd, ?firstn_cons, ?fmap_cons; [done| | |done|done|].
  - by rewrite H2, <- app_assoc.
  - rewrite sumZ_cons. simpl. lia.
  - intros h'. rewrite H6. destruct (decide (h' = h)) as [->|Hne].
    + rewrite lookup_delete_eq. rewrite (decide_True (P := h ∈ h :: _)) by (by left). by case_decide.
    + rewrite lookup_delete_ne by done. repeat case_decide; set_solver.
Qed.

(** The loop stops as soon as there is room, and finds enough to evict. *)
Lemma evict_loop_ok num fuel : ∀ m,
  enc_inv m → num ≤ num_freeable_slots m → (length (freeable m) < fuel)%nat →
  wp (evict_loop fuel num) (λ _ m', enc_inv m' ∧ num ≤ num_free_slots m' ∧
    ∃ k, evicted k m m' ∧ (k ≤ length (freeable m))%nat ∧
      (∀ j, (j < k)%nat → num_free_slots m + sumZ (take j (freeable m)).*2 < num)) m.
Proof.
  induction fuel as [|fuel IH]; intros m Hi Hn Hf; [lia|]. cbn [evict_loop]. apply wp_bind, wp_gets.
  destruct (Z.ltb_spec (num_free_slots m) num) as [Hlt|Hge].
  2:{ apply wp_ret. split; [done|]. split; [done|]. exists 0%nat. split; [apply evicted_0|]. split; lia. }
  apply wp_bind, wp_gets. destruct (freeable m) as [|[h n] d] eqn:Hd.
  { pose proof (inv_freeable _ Hi) as Hs. rewrite Hd in Hs. unfold sumZ in Hs. simpl in Hs. lia. }
  destruct (evict_first_inv m h n d Hi Hd) as (Hi' & Hh & Hn0).
  apply wp_bind, wp_modify, wp_bind, wp_gets, wp_bind. simpl. rewrite Hh.
  apply wp_modify, wp_bind, wp_modify, wp_bind, wp_modify. eapply wp_mono.
  { apply IH; [exact Hi'|done|simpl in *; lia]. }
  intros _ m' (Hm' & Hok & k & Hev & Hk & Hj). split; [done|]. split; [done|]. exists (S k). split_and!.
  - by eapply evicted_S.
  - simpl in *. lia.
  - intros [|j] Hlt'; [rewrite take_0; unfold sumZ; simpl; lia|]. rewrite firstn_cons, fmap_cons, sumZ_cons. specialize (Hj j ltac:(lia)).
    simpl in *. lia.
Qed.

Lemma free_le_freeable m : enc_inv m → num_free_slots m ≤ num_freeable_slots m.
Proof.
  intros Hi. rewrite (inv_freeable _ Hi). assert (0 ≤ sumZ (freeable m).*2); [|lia]. apply sumZ_nonneg.
  apply Forall_fmap, Forall_forall. intros [h n] Hin. apply (inv_unref _ Hi) in Hin as [_ ->].
  simpl. apply (inv_pos _ Hi).
Qed.

(** The unreferenced entries are some of the entries. *)
Lemma freeable_le_size m : enc_inv m → num_freeable_slots m ≤ size.
Proof.
  intros Hi. rewrite (inv_freeable _ Hi). destruct (inv_total _ Hi) as [<- _].
  cut (∀ d c, NoDup d.*1 → (∀ h n, (h, n) ∈ d → ∃ refs, c !! h = Some refs ∧ n = sz h) →
         sumZ d.*2 ≤ sumZ ((λ e : string * gset string, sz e.1) <$> map_to_list c)).
  { intros Hd. specialize (Hd (freeable m) (cached m) (inv_nodup _ Hi)). unfold entries_size.
    assert (∀ h n, (h, n) ∈ freeable m → ∃ refs, cached m !! h = Some refs ∧ n = sz h) as Hx; [|specialize (Hd Hx); lia].
    intros h n [Hc Hn]%(inv_unref _ Hi). by exists ∅. }
  induction d as [|[h n] d IH]; intros c Hn Hd.
  - apply sumZ_nonneg, Forall_fmap, Forall_forall. intros e _. apply (inv_pos _ Hi).
  - destruct (Hd h n) as (refs & Hc & ->); [by left|]. rewrite fmap_cons, sumZ_cons. simpl in Hn |- *.
    apply NoDup_cons in Hn as [Hh Hn]. specialize (IH (delete h c) Hn).
    fold (entries_size c). fold (entries_size (delete h c)) in IH. rewrite (entries_size_delete h refs) in IH by done.
    assert (∀ h' n', (h', n') ∈ d → ∃ refs, delete h c !! h' = Some refs ∧ n' = sz h') as Hx; [|specialize (IH Hx); lia].
    intros h' n' Hin. destruct (Hd h' n') as (refs' & Hc' & ->); [by right|].
    exists refs'. rewrite lookup_delete_ne; [done|]. intros <-. apply Hh. apply (list_elem_of_fmap_2 fst) in Hin. done.
Qed.

(** [can_allocate] answers [True] exactly when the budget and the reclaimable space are
    enough, and then the space is free; it evicts no entry a request refers to, the oldest
    first and no more than needed. *)
Lemma can_allocate_ok m r i f budget to_schedule :
  enc_inv m → sized r → 0 ≤ i → py_get (mm_features r) i = Some f →
  wp (can_allocate r i budget to_schedule) (λ b m', enc_inv m' ∧
    (b = true ↔ sz (identifier f) ≤ budget ∧ sz (identifier f) + to_schedule ≤ num_freeable_slots m) ∧
    (b = true → sz (identifier f) + to_schedule ≤ num_free_slots m') ∧
    ∃ k, evicted k m m' ∧ (k ≤ length (freeable m))%nat ∧ (b = false → k = 0%nat) ∧
      (∀ j, (j < k)%nat → num_free_slots m + sumZ (take j (freeable m)).*2 < sz (identifier f) + to_schedule)) m.
Proof.
  intros Hi Hr Hpos Hf. unfold can_allocate. apply wp_bind, (feature_embeds _ _ f); [done..|].
  pose proof (free_le_freeable m Hi) as Hle.
  destruct (Z.ltb_spec budget (sz (identifier f))).
  { apply wp_ret. split; [done|]. split; [split; [done|lia]|]. split; [done|].
    exists 0%nat. split_and!; [apply evicted_0|lia|done|lia]. }
  apply wp_bind, wp_gets. unfold id.
  destruct (Z.leb_spec (sz (identifier f) + to_schedule) (num_free_slots m)).
  { apply wp_ret. split; [done|]. split; [split; [lia|done]|]. split; [done|].
    exists 0%nat. split_and!; [apply evicted_0|lia|done|lia]. }
  destruct (Z.ltb_spec (num_freeable_slots m) (sz (identifier f) + to_schedule)).
  { apply wp_ret. split; [done|]. split; [split; [done|lia]|]. split; [done|].
    exists 0%nat. split_and!; [apply evicted_0|lia|done|lia]. }
  apply wp_bind. eapply wp_mono; [apply evict_loop_ok; [done|done|lia]|].
  intros _ m' (Hi' & Hok & k & Hev & Hk & Hj). apply wp_ret. split; [done|]. split; [split; [lia|done]|].
  split; [done|]. exists k. done.
Qed.

(** A fresh entry with enough free space. *)
Lemma allocate_ok m r i f :
  enc_inv m → sized r → 0 ≤ i → py_get (mm_features r) i = Some f →
  cached m !! identifier f = None → sz (identifier f) ≤ num_free_slots m →
  wp (allocate r i) (λ _ m', enc_inv m' ∧ num_free_slots m' = num_free_slots m - sz (identifier f) ∧
    cached m' = <[identifier f := {[request_id r]}]> (cached m)) m.
Proof.
  intros Hi Hr Hpos Hf Hnew Hroom. unfold allocate. apply wp_bind, (feature_ok _ _ f); [done|].
  apply wp_bind, wp_modify. rewrite Hnew. apply wp_bind, (feature_embeds _ _ f); [done..|].
  apply wp_bind, wp_gets. unfold id. simpl.
  pose proof (free_le_freeable m Hi) as Hle.
  apply wp_bind, wp_assert; [lia|]. apply wp_bind, wp_assert; [lia|].
  apply wp_bind, wp_modify, wp_bind, wp_modify, wp_modify. simpl.
  rewrite lookup_insert_eq, insert_insert_eq. simpl. rewrite (left_id_L ∅ (∪)).
  split; [|done]. destruct Hi as [Hp Hfree Ht Hfr Hn Hu]. split; simpl; [done|lia| |lia|done|].
  - rewrite entries_size_insert_new by done. lia.
  - intros h' n. rewrite Hu. destruct (decide (h' = identifier f)) as [->|Hne].
    + rewrite lookup_insert_eq, Hnew. split; [naive_solver|]. intros [He%(inj Some) _]. set_solver.
    + by rewrite lookup_insert_ne.
Qed.

(** The last reference makes the entry reclaimable; nothing is evicted. *)
Lemma free_encoder_input_ok m r i f :
  enc_inv m → sized r → 0 ≤ i → py_get (mm_features r) i = Some f →
  wp (free_encoder_input r i) (λ _ m', enc_inv m' ∧ num_free_slots m' = num_free_slots m ∧
    cached m' = alter (.∖ {[request_id r]}) (identifier f) (cached m)) m.
Proof.
  intros Hi Hr Hpos Hf. unfold free_encoder_input. apply wp_bind, (feature_ok _ _ f); [done|].
  apply wp_bind, wp_gets. set (h := identifier f). set (a := request_id r).
  destruct (cached m !! h) as [refs|] eqn:Hc.
  2:{ apply wp_ret. split; [done|]. split; [done|]. symmetry. apply alter_match. by rewrite Hc. }
  assert (Hal : alter (.∖ {[a]}) h (cached m) = <[h := refs ∖ {[a]}]> (cached m)) by (apply alter_match; by rewrite Hc).
  rewrite Hal. case_decide as He.
  { apply wp_ret. split; [done|]. split; [done|]. subst refs. rewrite insert_id; [done|].
    rewrite Hc. f_equal. set_solver. }
  apply wp_bind, wp_modify. destruct Hi as [Hp Hfree Ht Hfr Hn Hu].
  assert (Hnot : h ∉ (freeable m).*1).
  { intros ([h' n] & ? & Hin)%list_elem_of_fmap. simpl in *. subst h'. apply Hu in Hin as [Hin _].
    rewrite Hc in Hin. by apply (inj Some) in Hin. }
  case_decide as He'.
  - apply wp_bind, (feature_embeds _ _ f); [done..|]. apply wp_bind, wp_modify, wp_modify.
    split; [|done]. split; simpl; [done|done| | | |].
    + by rewrite (entries_size_insert_old h refs).
    + rewrite od_set_new by done. rewrite fmap_app, sumZ_app. unfold sumZ at 2. simpl. fold h. lia.
    + rewrite od_set_new by done. rewrite fmap_app. apply NoDup_app. split; [done|]. split; [|apply NoDup_singleton].
      intros x Hx [= ->]%list_elem_of_singleton. done.
    + intros h' n. rewrite od_set_new, elem_of_app, Hu, list_elem_of_singleton by done.
      destruct (decide (h' = h)) as [->|Hne].
      * rewrite lookup_insert_eq, Hc, He'. naive_solver.
      * rewrite lookup_insert_ne by done. naive_solver.
  - apply wp_ret. split; [|done]. split; simpl; [done|done| |done|done|].
    + by rewrite (entries_size_insert_old h refs).
    + intros h' n. rewrite Hu. destruct (decide (h' = h)) as [->|Hne].
      * rewrite lookup_insert_eq, Hc. split; intros [Hx%(inj Some) _]; done.
      * by rewrite lookup_insert_ne.
Qed.

(** The hashes of the inputs with the given indices. *)
Definition hashes_at (r : Request) (ids : list Z) : list string :=
  omap (λ i, identifier <$> py_get (mm_features r) i) ids.

Lemma hashes_at_snoc r ids i f :
  py_get (mm_features r) i = Some f → hashes_at r (ids ++ [i]) = hashes_at r ids ++ [identifier f].
Proof. intros Hf. unfold hashes_at. rewrite omap_app. simpl. by rewrite Hf. Qed.

Lemma get_cached_input_ids_spec r m i :
  i ∈ get_cached_input_ids r m ↔
  0 ≤ i ∧ ∃ f, py_get (mm_features r) i = Some f ∧ is_Some (cached m !! identifier f).
Proof.
  unfold get_cached_input_ids, is_cached. rewrite list_elem_of_filter. unfold py_range. rewrite elem_of_seqZ. split.
  - intros [Hc Hi]. split; [lia|]. destruct (py_get _ i) as [f|]; [|done]. exists f. split; [done|].
    by apply bool_decide_eq_true in Hc.
  - intros [Hi (f & Hf & Hc)]. rewrite Hf. split; [by apply bool_decide_eq_true|].
    rewrite py_get_nonneg in Hf by done. apply lookup_lt_Some in Hf. unfold len. lia.
Qed.

Section Free.
Context (set_iter : list Z → list Z) (set_iter_perm : ∀ l, set_iter l ≡ₚ l).

(** [free] drops the references of the request and no other. *)
Lemma enc_free_ok m r :
  enc_inv m → sized r →
  wp (free set_iter r) (λ _ m', enc_inv m' ∧ num_free_slots m' = num_free_slots m ∧
    ∀ h, cached m' !! h = (λ refs : gset string,
      if decide (h ∈ identifier <$> mm_features r) then refs ∖ {[request_id r]} else refs) <$> cached m !! h) m.
Proof.
  intros Hi Hr. unfold free. apply wp_bind, wp_gets. set (ids := set_iter _).
  assert (Hids : ∀ i, i ∈ ids ↔ 0 ≤ i ∧ ∃ f, py_get (mm_features r) i = Some f ∧ is_Some (cached m !! identifier f)).
  { intros i. unfold ids. rewrite set_iter_perm. apply get_cached_input_ids_spec. }
  apply (wp_for (λ seen m', enc_inv m' ∧ num_free_slots m' = num_free_slots m ∧ ∀ h, cached m' !! h = (λ refs : gset string,
    if decide (h ∈ hashes_at r seen) then refs ∖ {[request_id r]} else refs) <$> cached m !! h)).
  - split; [done|]. split; [done|]. intros h. destruct (cached m !! h) as [refs|]; [|done].
    destruct (decide (h ∈ hashes_at r [])) as [Hin|]; [by apply elem_of_nil in Hin|done].
  - intros seen i todo m' Heq (Hi' & Hs & Hc). assert (i ∈ ids) as [Hpos (f & Hf & _)]%Hids by (rewrite Heq; set_solver).
    eapply wp_mono; [by apply (free_encoder_input_ok m' r i f)|]. intros _ m'' (Hi'' & Hs' & Hc').
    split; [done|]. split; [congruence|]. intros h. rewrite Hc', (hashes_at_snoc r seen i f Hf).
    destruct (decide (h = identifier f)) as [->|Hne].
    + rewrite lookup_alter_eq, Hc. destruct (cached m !! identifier f) as [refs|]; [|done]. simpl. f_equal.
      rewrite (decide_True (P := identifier f ∈ hashes_at r seen ++ [identifier f])) by set_solver.
      case_decide; set_solver.
    + rewrite lookup_alter_ne, Hc by done. destruct (cached m !! h) as [refs|]; [|done]. simpl. f_equal.
      repeat case_decide; set_solver.
  - intros m' (Hi' & Hs & Hc). split; [done|]. split; [done|]. intros h. rewrite Hc.
    destruct (cached m !! h) as [refs|] eqn:Hh; [|done]. simpl. f_equal.
    assert (Hiff : h ∈ hashes_at r ids ↔ h ∈ identifier <$> mm_features r).
    { unfold hashes_at. rewrite list_elem_of_omap, list_elem_of_fmap. split.
      - intros (i & Hin & Hx). apply Hids in Hin as [Hpos (f & Hf & _)]. rewrite Hf in Hx. simpl in Hx.
        simplify_eq. exists f. split; [done|]. rewrite py_get_nonneg in Hf by done. by eapply list_elem_of_lookup_2.
      - intros (f & -> & [k Hk]%list_elem_of_lookup). exists (Z.of_nat k).
        assert (Hf : py_get (mm_features r) (Z.of_nat k) = Some f) by (rewrite py_get_nonneg, Nat2Z.id by lia; done).
        rewrite Hf. split; [|done]. apply Hids. split; [lia|]. exists f. split; [done|by eexists]. }
    destruct (decide (h ∈ hashes_at r ids)), (decide (h ∈ identifier <$> mm_features r)); tauto.
Qed.
End Free.
End Facts.

(** ** Sequences of calls *)

Inductive enc_call :=
  | CheckAndUpdate (r : Request) (i : Z)
  | CanAllocate (r : Request) (i budget to_schedule : Z)
  | Allocate (r : Request) (i : Z)
  | FreeInput (r : Request) (i : Z)
  | FreeAll (r : Request)
  | TakeFreed
  | Reset.

Section Calls.
Context (set_iter : list Z → list Z) (sz : string → Z) (size : Z).

Definition run_enc_call (c : enc_call) : M manager unit :=
  match c with
  | CheckAndUpdate r i => _ ← check_and_update_cache r i; mret tt
  | CanAllocate r i b n => _ ← can_allocate r i b n; mret tt
  | Allocate r i => allocate r i
  | FreeInput r i => free_encoder_input r i
  | FreeAll r => free set_iter r
  | TakeFreed => _ ← get_freed_mm_hashes; mret tt
  | Reset => reset
  end.

Definition has_input (r : Request) (i : Z) : Prop := sized sz r ∧ 0 ≤ i < len (mm_features r).

(** What the callers keep: an index is one of the request's inputs, and [allocate] is
    called for an input that is not cached when there is room for it. *)
Definition enc_legal (c : enc_call) (m : manager) : Prop :=
  match c with
  | CheckAndUpdate r i | CanAllocate r i _ _ | FreeInput r i => has_input r i
  | Allocate r i => has_input r i ∧ ∀ f, py_get (mm_features r) i = Some f →
      cached m !! identifier f = None ∧ sz (identifier f) ≤ num_free_slots m
  | FreeAll r => sized sz r
  | TakeFreed | Reset => True
  end.

Inductive enc_reach : manager → Prop :=
  | enc_start : enc_reach (init size)
  | enc_step m c m' :
      enc_reach m → enc_legal c m → run_enc_call c m = (Ok tt, m') → enc_reach m'.

Lemma has_input_feature r i : has_input r i → 0 ≤ i ∧ ∃ f, py_get (mm_features r) i = Some f.
Proof.
  intros [_ Hi]. split; [lia|]. rewrite py_get_nonneg by lia. apply lookup_lt_is_Some. unfold len in Hi. lia.
Qed.

Lemma run_enc_call_ok c m :
  (∀ l, set_iter l ≡ₚ l) → enc_inv sz size m → enc_legal c m →
  wp (run_enc_call c) (λ _, enc_inv sz size) m.
Proof.
  intros Hit Hi Hl. destruct c as [r i|r i b n|r i|r i|r| |]; cbn [run_enc_call].
  - destruct (has_input_feature r i Hl) as (Hpos & f & Hf). apply wp_bind.
    eapply wp_mono; [by eapply check_and_update_cache_ok|]. intros b m' [Hm' _]. by apply wp_ret.
  - destruct (has_input_feature r i Hl) as (Hpos & f & Hf). apply wp_bind.
    eapply wp_mono; [eapply can_allocate_ok; [done|by destruct Hl|done|done]|].
    intros b' m' [Hm' _]. by apply wp_ret.
  - destruct Hl as [Hl Hroom]. destruct (has_input_feature r i Hl) as (Hpos & f & Hf).
    destruct (Hroom f Hf). eapply wp_mono; [eapply allocate_ok; [done|by destruct Hl|done..]|]. by intros _ m' [Hm' _].
  - destruct (has_input_feature r i Hl) as (Hpos & f & Hf).
    eapply wp_mono; [eapply free_encoder_input_ok; [done|by destruct Hl|done..]|]. by intros _ m' [Hm' _].
  - eapply wp_mono; [by eapply enc_free_ok|]. by intros _ m' [Hm' _].
  - apply wp_bind, wp_bind, wp_gets, wp_bind, wp_modify, wp_ret, wp_ret. by destruct Hi.
  - do 4 apply wp_bind, wp_modify. apply wp_modify. pose proof (entries_size_nonneg sz size m Hi).
    destruct Hi as [Hp Hfree [Ht Hsz] _ _ _]. 
    unfold set_num_freeable_slots, set_num_free_slots, set_freed, set_freeable, set_cached. simpl. rewrite Hsz.
    apply init_inv; [done|lia].
Qed.

Lemma reach_inv m :
  (∀ l, set_iter l ≡ₚ l) → (∀ h, 0 ≤ sz h) → 0 ≤ size → enc_reach m → enc_inv sz size m.
Proof.
  intros Hit Hsz Hs. induction 1 as [|m c m' _ IH Hl Hrun]; [by apply init_inv|].
  pose proof (run_enc_call_ok c m Hit IH Hl) as Hw. unfold wp in Hw. by rewrite Hrun in Hw.
Qed.

(** C25: The encoder cache accounts for its space exactly.  From the constructor, after
    every sequence of calls that keeps the callers' contract, in whatever order Python
    iterates over sets: the free slots and the sizes of all entries add up to the size of
    the cache; the reclaimable slots are the free ones and those of the entries without a
    reference, which are exactly the entries of [freeable]; and the next such call raises
    nothing, neither the assertions of [allocate] nor a [KeyError] of the eviction loop. *)
Theorem encoder_cache_exact m :
  (∀ l, set_iter l ≡ₚ l) → (∀ h, 0 ≤ sz h) → 0 ≤ size → enc_reach m →
  num_free_slots m + sumZ ((λ e, sz e.1) <$> map_to_list (cached m)) = size ∧
  num_freeable_slots m = num_free_slots m + sumZ (freeable m).*2 ∧
  0 ≤ num_free_slots m ≤ num_freeable_slots m ∧ num_freeable_slots m ≤ size ∧
  (∀ h n, (h, n) ∈ freeable m ↔ cached m !! h = Some ∅ ∧ n = sz h) ∧
  (∀ c, enc_legal c m → ∃ m', run_enc_call c m = (Ok tt, m')).
Proof.
  intros Hit Hsz Hs Hr. pose proof (reach_inv m Hit Hsz Hs Hr) as Hi.
  pose proof (free_le_freeable sz size m Hi) as Hle. pose proof (freeable_le_size sz size m Hi).
  split_and!; [apply Hi|apply Hi|apply Hi|done|done|apply Hi|].
  intros c Hl. pose proof (run_enc_call_ok c m Hit Hi Hl) as Hw. unfold wp in Hw.
  destruct (run_enc_call c m) as [[[]|] m']; [by exists m'|done].
Qed.
End Calls.

(** A request with one image of three embeddings, and a cache of five. *)
Definition image_request : Request :=
  mkRequest "r" 0 0 None None None None 0 WAITING [] None 1 (Some [1; 1; 1; 2]) None ∅ 4 [] [1; 1; 1; 2] 0 false []
    0 None [mkFeature "image" "h1" (mkPlaceholderRange 0 3 None)] false 0 None [] false false None None 0 1.
Definition image_cache : manager := mkManager 5 2 5 {[ "h1" := ∅ ]} [("h1"%string, 3)] [].

Lemma image_cache_reached : enc_reach id (λ _, 3) 5 image_cache.
Proof.
  assert (Hin : has_input (λ _, 3) image_request 0) by (split; [by repeat constructor|by vm_compute]).
  apply enc_step with (mkManager 5 2 2 {[ "h1" := {["r"]} ]} [] []) (FreeAll image_request); [|apply Hin|by vm_compute].
  apply enc_step with (init 5) (Allocate image_request 0); [constructor| |by vm_compute].
  split; [done|]. intros f Hf. by vm_compute.
Qed.

Lemma encoder_cache_exact_witness :
  num_freeable_slots image_cache = num_free_slots image_cache + sumZ (freeable image_cache).*2 ∧
  num_free_slots image_cache = 2.
Proof.
  split; [|vm_compute; reflexivity].
  destruct (encoder_cache_exact id (λ _, 3) 5 image_cache) as (_ & H & _);
    [done|done|done|exact image_cache_reached|exact H].
Defined.
End EncoderCacheFacts.
