(* ===== verification/SpecControl.v ===== *)
(** * The controller of the number of draft tokens

    [AcceptanceRateSpecTokenController] of vllm/v1/core/sched/scheduler.py, which adapts
    how many draft tokens the target model verifies to the rate at which it accepts them.
    The rates are exact fractions: the code compares the double nearest to the quotient of
    two counters with a threshold, which gives the same answer as long as a window counts
    fewer than 2^50 draft tokens. *)

From Stdlib Require Import QArith.
From S2P Require Import Prelude.

#[local] Open Scope Z_scope.

Definition Qlt_bool (x y : Q) : bool := negb (Qle_bool y x).

Record SpecTokenController := mkController {
  max_k : Z;
  min_k : Z;
  low_rate : Q;
  high_rate : Q;
  interval_steps : Z;
  min_draft_tokens : Z;
  enable_control : bool;
  active_k : Z;
  _num_steps : Z;
  _num_draft_tokens : Z;
  _num_accepted_tokens : Z
}.

(** [__init__] *)
Definition controller_init (max_k : Z) (initial_k : option Z) (min_k : Z) (low_rate high_rate : Q)
    (interval_steps min_draft_tokens : Z) (enable_control : bool) : result SpecTokenController :=
  if negb (Qle_bool 0 low_rate && Qlt_bool low_rate high_rate && Qle_bool high_rate 1) then Raise ValueError
  else if negb ((1 <=? min_k) && (min_k <=? max_k)) then Raise ValueError
  else
    let initial_k := default max_k initial_k in
    if negb ((min_k <=? initial_k) && (initial_k <=? max_k)) then Raise ValueError
    else Ok (mkController max_k min_k low_rate high_rate interval_steps min_draft_tokens enable_control
               initial_k 0 0 0).

Definition set_window (steps draft accepted : Z) (c : SpecTokenController) : SpecTokenController :=
  mkController (max_k c) (min_k c) (low_rate c) (high_rate c) (interval_steps c) (min_draft_tokens c)
    (enable_control c) (active_k c) steps draft accepted.
Definition set_active_k (k : Z) (c : SpecTokenController) : SpecTokenController :=
  mkController (max_k c) (min_k c) (low_rate c) (high_rate c) (interval_steps c) (min_draft_tokens c)
    (enable_control c) k (_num_steps c) (_num_draft_tokens c) (_num_accepted_tokens c).

(** [observe]: the decision is [old_k, new_k, acceptance_rate, sample_count]. *)
Definition observe (accepted_tokens draft_tokens : Z) :
    M SpecTokenController (option (Z * Z * Q * Z)) :=
  c ← gets id;
  if (draft_tokens <=? 0) || negb (enable_control c) then mret None
  else
    let accepted_tokens := Z.min (Z.max accepted_tokens 0) draft_tokens in
    _ ← modify (λ c, set_window (_num_steps c + 1) (_num_draft_tokens c + draft_tokens)
                       (_num_accepted_tokens c + accepted_tokens) c);
    c ← gets id;
    if (_num_steps c <? interval_steps c) || (_num_draft_tokens c <? min_draft_tokens c) then mret None
    else
      let acceptance_rate := (inject_Z (_num_accepted_tokens c) / inject_Z (_num_draft_tokens c))%Q in
      let sample_count := _num_draft_tokens c in
      let old_k := active_k c in
      _ ← (if Qlt_bool acceptance_rate (low_rate c) then
             modify (λ c, set_active_k (Z.max (min_k c) (active_k c - 2)) c)
           else if Qlt_bool (high_rate c) acceptance_rate then
             modify (λ c, set_active_k (Z.min (max_k c) (active_k c + 2)) c)
           else mret tt);
      new_k ← gets active_k;
      _ ← modify (set_window 0 0 0);
      mret (Some (old_k, new_k, acceptance_rate, sample_count)).

(** ** The bounds hold and the window is a fair sample *)

Record controller_inv (c : SpecTokenController) : Prop := {
  ctl_k : 1 ≤ min_k c ∧ min_k c ≤ active_k c ≤ max_k c;
  ctl_rates : (0 <= low_rate c)%Q ∧ (low_rate c < high_rate c)%Q ∧ (high_rate c <= 1)%Q;
  ctl_window : 0 ≤ _num_steps c ∧ 0 ≤ _num_accepted_tokens c ≤ _num_draft_tokens c;
  ctl_open : _num_steps c = 0 ∨ _num_steps c < interval_steps c ∨ _num_draft_tokens c < min_draft_tokens c
}.

(** The observations of a sequence of steps, with the decisions they led to. *)
Fixpoint observe_all (obs : list (Z * Z)) : M SpecTokenController (list (option (Z * Z * Q * Z))) :=
  match obs with
  | [] => mret []
  | (a, d) :: obs => r ← observe a d; rs ← observe_all obs; mret (r :: rs)
  end.

Lemma Qlt_bool_iff x y : Qlt_bool x y = true ↔ (x < y)%Q.
Proof.
  unfold Qlt_bool. rewrite negb_true_iff. split.
  - intros H. apply Qnot_le_lt. intros Hle. apply Qle_bool_iff in Hle. congruence.
  - intros H. apply not_true_iff_false. rewrite Qle_bool_iff. by apply Qlt_not_le.
Qed.

(** The rule, in terms of the observations alone.  A window is the list of observations
    with draft tokens since the last decision. *)
Definition clamped (o : Z * Z) : Z := Z.min (Z.max o.1 0) o.2.
Definition drafted (w : list (Z * Z)) : Z := sumZ w.*2.
Definition accepted (w : list (Z * Z)) : Z := sumZ (clamped <$> w).
Definition acceptance (w : list (Z * Z)) : Q := (inject_Z (accepted w) / inject_Z (drafted w))%Q.

(** Enough steps and enough draft tokens. *)
Definition full_window c (w : list (Z * Z)) : Prop := interval_steps c ≤ len w ∧ min_draft_tokens c ≤ drafted w.

(** Down by two, up by two, or as it is. *)
Definition adjusted c (k : Z) (rate : Q) (k' : Z) : Prop :=
  ((rate < low_rate c)%Q → k' = Z.max (min_k c) (k - 2)) ∧
  ((high_rate c < rate)%Q → k' = Z.min (max_k c) (k + 2)) ∧
  ((low_rate c <= rate <= high_rate c)%Q → k' = k).

(** From [k] and a window, the decisions on a sequence of observations, and what they lead
    to. *)
Inductive decisions c : Z → list (Z * Z) → list (Z * Z) → list (option (Z * Z * Q * Z)) → Z → list (Z * Z) → Prop :=
  | dec_end k w : decisions c k w [] [] k w
  | dec_skip k w o obs os k' w' :
      o.2 ≤ 0 ∨ enable_control c = false → decisions c k w obs os k' w' → decisions c k w (o :: obs) (None :: os) k' w'
  | dec_wait k w o obs os k' w' :
      0 < o.2 → enable_control c = true → ¬ full_window c (w ++ [o]) →
      decisions c k (w ++ [o]) obs os k' w' → decisions c k w (o :: obs) (None :: os) k' w'
  | dec_decide k w o obs os k1 k' w' :
      0 < o.2 → enable_control c = true → full_window c (w ++ [o]) → adjusted c k (acceptance (w ++ [o])) k1 →
      decisions c k1 [] obs os k' w' →
      decisions c k w (o :: obs) (Some (k, k1, acceptance (w ++ [o]), drafted (w ++ [o])) :: os) k' w'.

(** The counters are those of the window. *)
Definition counts (w : list (Z * Z)) (c : SpecTokenController) : Prop :=
  _num_steps c = len w ∧ _num_draft_tokens c = drafted w ∧ _num_accepted_tokens c = accepted w.

Lemma counts_snoc w o : len (w ++ [o]) = len w + 1 ∧ drafted (w ++ [o]) = drafted w + o.2 ∧ accepted (w ++ [o]) = accepted w + clamped o.
Proof. unfold drafted, accepted. rewrite len_app, !fmap_app, !sumZ_app. simpl. unfold sumZ. simpl. unfold len. simpl. lia. Qed.

Lemma controller_init_inv mx ik mn lo hi st dr en c :
  controller_init mx ik mn lo hi st dr en = Ok c →
  controller_inv c ∧ max_k c = mx ∧ min_k c = mn ∧ active_k c = default mx ik ∧ counts [] c.
Proof.
  unfold controller_init. destruct (Qle_bool 0 lo && Qlt_bool lo hi && Qle_bool hi 1) eqn:H1; cbn [negb]; [|done].
  destruct ((1 <=? mn) && (mn <=? mx)) eqn:H2; cbn [negb]; [|done].
  destruct ((mn <=? default mx ik) && (default mx ik <=? mx)) eqn:H3; cbn [negb]; [|done]. intros [= <-].
  apply andb_true_iff in H1 as [[H1 H4]%andb_true_iff H5]. apply Qlt_bool_iff in H4.
  apply Qle_bool_iff in H1, H5. split; [|done]. split; simpl; [lia|done|lia|lia].
Qed.

Definition same_settings (c c' : SpecTokenController) : Prop :=
  max_k c' = max_k c ∧ min_k c' = min_k c ∧ low_rate c' = low_rate c ∧ high_rate c' = high_rate c ∧
  interval_steps c' = interval_steps c ∧ min_draft_tokens c' = min_draft_tokens c ∧
  enable_control c' = enable_control c.

Lemma rate_bounds a d : 0 ≤ a ≤ d → 0 < d → (0 <= inject_Z a / inject_Z d <= 1)%Q.
Proof.
  intros Ha Hd. assert (0 < inject_Z d)%Q by (unfold Qlt; simpl; lia). split.
  - apply Qle_shift_div_l; [done|]. rewrite Qmult_0_l. unfold Qle. simpl. lia.
  - apply Qle_shift_div_r; [done|]. rewrite Qmult_1_l. unfold Qle. simpl. lia.
Qed.

Lemma same_settings_trans c1 c2 c3 : same_settings c1 c2 → same_settings c2 c3 → same_settings c1 c3.
Proof. unfold same_settings. intuition congruence. Qed.

Lemma observe_ok a d w c :
  controller_inv c → counts w c →
  wp (observe a d) (λ o c', controller_inv c' ∧ same_settings c c' ∧
    match o with
    | None => active_k c' = active_k c ∧
        if (d <=? 0) || negb (enable_control c) then counts w c' else counts (w ++ [(a, d)]) c' ∧ ¬ full_window c (w ++ [(a, d)])
    | Some x => 0 < d ∧ enable_control c = true ∧ full_window c (w ++ [(a, d)]) ∧ counts [] c' ∧
        x = (active_k c, active_k c', acceptance (w ++ [(a, d)]), drafted (w ++ [(a, d)])) ∧
        adjusted c (active_k c) (acceptance (w ++ [(a, d)])) (active_k c')
    end) c.
Proof.
  intros [Hk Hr Hw Ho] (Hc1 & Hc2 & Hc3). unfold observe. wp_prim. wp_prim. unfold id.
  destruct (Z.leb_spec d 0); simpl; [by apply wp_ret|].
  destruct (enable_control c) eqn:Hen; simpl; [|by apply wp_ret].
  wp_prim. wp_prim. wp_prim. wp_prim. unfold id. simpl. destruct (counts_snoc w (a, d)) as (E1 & E2 & E3). simpl in E2. unfold clamped in E3. simpl in E3.
  rewrite Hc1, Hc2, Hc3, <- E1, <- E2, <- E3. set (w' := w ++ [(a, d)]) in *.
  destruct (Z.ltb_spec (len w') (interval_steps c)); simpl.
  { apply wp_ret. split; [split; simpl; [done|done|lia|lia]|]. split; [done|]. split; [done|]. split; [done|]. unfold full_window. lia. }
  destruct (Z.ltb_spec (drafted w') (min_draft_tokens c)); simpl.
  { apply wp_ret. split; [split; simpl; [done|done|lia|lia]|]. split; [done|]. split; [done|]. split; [done|]. unfold full_window. lia. }
  pose proof (rate_bounds (accepted w') (drafted w') ltac:(lia) ltac:(lia)) as Hrate. fold (acceptance w') in *.
  set (rate := acceptance w') in *. destruct Hr as (Hr1 & Hr2 & Hr3).
  wp_prim. destruct (Qlt_bool rate (low_rate c)) eqn:Hlo; [|destruct (Qlt_bool (high_rate c) rate) eqn:Hhi].
  - apply Qlt_bool_iff in Hlo. do 6 wp_prim. simpl. split; [split; simpl; [lia|done|lia|lia]|]. split; [done|].
    do 5 (split; [done|]). split; [done|]. split.
    + intros Hc. destruct (Qlt_not_le _ _ Hc). apply Qlt_le_weak. by apply Qlt_trans with (low_rate c).
    + intros [Hc _]. by destruct (Qlt_not_le _ _ Hlo).
  - apply Qlt_bool_iff in Hhi. do 6 wp_prim. simpl. split; [split; simpl; [lia|done|lia|lia]|]. split; [done|].
    do 5 (split; [done|]). split; [|split; [done|]].
    + intros Hc. apply Qlt_bool_iff in Hc. congruence.
    + intros [_ Hc]. by destruct (Qlt_not_le _ _ Hhi).
  - do 6 wp_prim. simpl. split; [split; simpl; [lia|done|lia|lia]|]. split; [done|].
    do 5 (split; [done|]). split; [|split; [|done]]; intros Hc; apply Qlt_bool_iff in Hc; congruence.
Qed.

(** Only the settings of the controller matter for the rule. *)
Lemma decisions_settings c1 c2 k w obs os k' w' : same_settings c1 c2 → decisions c2 k w obs os k' w' → decisions c1 k w obs os k' w'.
Proof.
  intros (H1 & H2 & H3 & H4 & H5 & H6 & H7). induction 1; unfold full_window, adjusted in *; rewrite ?H1, ?H2, ?H3, ?H4, ?H5, ?H6, ?H7 in *;
    [by constructor|by constructor|by constructor|by constructor].
Qed.

Lemma observe_all_ok obs : ∀ c w,
  controller_inv c → counts w c →
  wp (observe_all obs) (λ os c', controller_inv c' ∧ same_settings c c' ∧
    ∃ w', counts w' c' ∧ decisions c (active_k c) w obs os (active_k c') w') c.
Proof.
  induction obs as [|[a d] obs IH]; intros c w Hc Hw; cbn [observe_all].
  { wp_prim. split; [done|]. split; [done|]. exists w. split; [done|]. constructor. }
  wp_prim. eapply wp_mono; [by apply (observe_ok a d w)|]. intros o c1 (Hc1 & Hs1 & Ho). wp_prim.
  assert (∃ w1, counts w1 c1 ∧ (∀ os k' w', decisions c (active_k c1) w1 obs os k' w' → decisions c (active_k c) w ((a, d) :: obs) (o :: os) k' w'))
    as (w1 & Hw1 & Hd1).
  { destruct o as [x|].
    - destruct Ho as (H1 & H2 & H3 & H4 & -> & H5). exists []. split; [done|]. intros. by eapply dec_decide.
    - destruct Ho as [Hk Ho]. rewrite Hk. destruct (Z.leb_spec d 0); [|destruct (enable_control c) eqn:Hen]; simpl in Ho.
      + exists w. split; [done|]. intros. apply dec_skip; [by left|done].
      + exists (w ++ [(a, d)]). destruct Ho. split; [done|]. intros. by apply dec_wait.
      + exists w. split; [done|]. intros. apply dec_skip; [by right|done]. }
  eapply wp_mono; [by apply (IH c1 w1)|]. intros os c2 (Hc2 & Hs2 & w2 & Hw2 & Hd). wp_prim. split; [done|].
  split; [by eapply same_settings_trans|]. exists w2. split; [done|]. apply Hd1. by eapply decisions_settings.
Qed.


(** A decision without its rate. *)
Definition without_rate (o : option (Z * Z * Q * Z)) : option (Z * Z * Z) := (λ x, (x.1.1, x.2)) <$> o.


(** The documentation of the class says that a decision changes [active_k] by one; from
    15 a low rate leads to 13. *)
Lemma controller_steps_by_two :
  ∃ c d, controller_init 15 None 1 (1 # 4) (9 # 20) 1 1 true = Ok c ∧
    (observe 0 5 c).1 = Ok (Some d) ∧ d.1.1.1 = 15 ∧ d.1.1.2 = 13.
Proof. eexists _, _. split; [reflexivity|]. by split; [vm_compute; reflexivity|]. Qed.
