(* ===== verification/SchedOutput.v ===== *)
(** * What a step returns

    The data classes of vllm/v1/core/sched/output.py that the scheduler sends to the
    workers, those of vllm/v1/outputs.py and vllm/v1/engine/__init__.py that come back and
    go on to the clients, and the statistics of vllm/v1/spec_decode/metrics.py and
    vllm/v1/metrics/stats.py.  Tensors (pooling output, routed experts) and the objects of
    the connectors are opaque; log-probabilities and trace headers are left out. *)

From Stdlib Require Import QArith.
From S2P Require Import Prelude FreeQueue Request BlockHash BlockPool KVSpec CacheHit SingleType Coordinator KVManager.

#[local] Open Scope Z_scope.

(** A list of draft tokens: an object of its own, or the list of placeholders that the
    asynchronous scheduler shares between all requests. *)
Inductive spec_list := SpecOwn (l : list Z) | SpecShared.

(** ** From the scheduler to the workers *)

Record NewRequestData := mkNewRequestData {
  nr_req_id : string;
  nr_prompt_token_ids : option (list Z);
  nr_mm_features : list MultiModalFeatureSpec;
  nr_sampling_params : option SamplingParams;
  nr_pooling_params : option PoolingParams;
  nr_block_ids : list (list Z);
  nr_num_computed_tokens : Z;
  nr_lora_request : option LoRARequest;
  nr_prompt_embeds : option (list bytes);
  nr_prefill_token_ids : option (list Z)
}.

Definition new_request_data (request : Request) (block_ids : list (list Z)) (prefill : option (list Z)) : NewRequestData :=
  mkNewRequestData (request_id request) (prompt_token_ids request) (mm_features request) (sampling_params request)
    (pooling_params request) block_ids (num_computed_tokens request) (lora_request request) (prompt_embeds request)
    prefill.

Record CachedRequestData := mkCachedRequestData {
  cr_req_ids : list string;
  cr_resumed_req_ids : gset string;
  cr_new_token_ids : list (list Z);
  cr_all_token_ids : list (string * list Z);
  cr_new_block_ids : list (option (list (list Z)));
  cr_num_computed_tokens : list Z;
  cr_num_output_tokens : list Z
}.

(** [meta] is the type of the metadata the connectors add. *)
Record SchedulerOutput {meta : Type} := mkSchedulerOutput {
  out_active_num_spec_tokens : Z;
  out_scheduled_new_reqs : list NewRequestData;
  out_scheduled_cached_reqs : CachedRequestData;
  out_num_scheduled_tokens : list (string * Z);
  out_total_num_scheduled_tokens : Z;
  out_scheduled_spec_decode_tokens : list (string * spec_list);
  out_scheduled_encoder_inputs : list (string * list Z);
  out_num_common_prefix_blocks : list Z;
  out_finished_req_ids : gset string;
  out_free_encoder_mm_hashes : list string;
  out_preempted_req_ids : gset string;
  out_has_structured_output_requests : bool;
  out_pending_structured_output_tokens : bool;
  out_num_invalid_spec_tokens : option (list (string * Z));
  out_kv_connector_metadata : option meta;
  out_ec_connector_metadata : option meta;
  out_new_block_ids_to_zero : option (list Z)
}.
Arguments SchedulerOutput : clear implicits.

Section Output.
Context {meta : Type}.

Definition set_out_flags (has pending : bool) (o : SchedulerOutput meta) : SchedulerOutput meta :=
  mkSchedulerOutput meta
    (out_active_num_spec_tokens o) (out_scheduled_new_reqs o) (out_scheduled_cached_reqs o)
    (out_num_scheduled_tokens o) (out_total_num_scheduled_tokens o)
    (out_scheduled_spec_decode_tokens o) (out_scheduled_encoder_inputs o)
    (out_num_common_prefix_blocks o) (out_finished_req_ids o) (out_free_encoder_mm_hashes o)
    (out_preempted_req_ids o) has pending (out_num_invalid_spec_tokens o) (out_kv_connector_metadata
    o) (out_ec_connector_metadata o) (out_new_block_ids_to_zero o).
Definition set_out_spec (spec : list (string * spec_list)) (invalid : option (list (string * Z))) (o : SchedulerOutput meta) : SchedulerOutput meta :=
  mkSchedulerOutput meta
    (out_active_num_spec_tokens o) (out_scheduled_new_reqs o) (out_scheduled_cached_reqs o)
    (out_num_scheduled_tokens o) (out_total_num_scheduled_tokens o) spec
    (out_scheduled_encoder_inputs o) (out_num_common_prefix_blocks o) (out_finished_req_ids o)
    (out_free_encoder_mm_hashes o) (out_preempted_req_ids o) (out_has_structured_output_requests o)
    (out_pending_structured_output_tokens o) invalid (out_kv_connector_metadata o)
    (out_ec_connector_metadata o) (out_new_block_ids_to_zero o).
Definition set_out_kv_meta (m : option meta) (o : SchedulerOutput meta) : SchedulerOutput meta :=
  mkSchedulerOutput meta
    (out_active_num_spec_tokens o) (out_scheduled_new_reqs o) (out_scheduled_cached_reqs o)
    (out_num_scheduled_tokens o) (out_total_num_scheduled_tokens o)
    (out_scheduled_spec_decode_tokens o) (out_scheduled_encoder_inputs o)
    (out_num_common_prefix_blocks o) (out_finished_req_ids o) (out_free_encoder_mm_hashes o)
    (out_preempted_req_ids o) (out_has_structured_output_requests o)
    (out_pending_structured_output_tokens o) (out_num_invalid_spec_tokens o) m
    (out_ec_connector_metadata o) (out_new_block_ids_to_zero o).
Definition set_out_ec_meta (m : option meta) (o : SchedulerOutput meta) : SchedulerOutput meta :=
  mkSchedulerOutput meta
    (out_active_num_spec_tokens o) (out_scheduled_new_reqs o) (out_scheduled_cached_reqs o)
    (out_num_scheduled_tokens o) (out_total_num_scheduled_tokens o)
    (out_scheduled_spec_decode_tokens o) (out_scheduled_encoder_inputs o)
    (out_num_common_prefix_blocks o) (out_finished_req_ids o) (out_free_encoder_mm_hashes o)
    (out_preempted_req_ids o) (out_has_structured_output_requests o)
    (out_pending_structured_output_tokens o) (out_num_invalid_spec_tokens o)
    (out_kv_connector_metadata o) m (out_new_block_ids_to_zero o).

(** [make_empty] *)
Definition empty_cached_request_data : CachedRequestData := mkCachedRequestData [] ∅ [] [] [] [] [].
Definition empty_scheduler_output : SchedulerOutput meta :=
  mkSchedulerOutput meta 0 [] empty_cached_request_data [] 0 [] [] [] ∅ [] ∅ false false None None None None.
End Output.

(** [dict(zip(req_ids, num_output_tokens))]: the last pair of a key counts. *)
Definition is_context_phase (d : CachedRequestData) (req_id : string) : bool :=
  match last (filter (λ p, p.1 = req_id) (zip (cr_req_ids d) (cr_num_output_tokens d))) with
  | Some (_, n) => n =? 0
  | None => false
  end.

(** ** From the workers to the scheduler *)

(** Sets are given in the order they are iterated in. *)
Record KVConnectorOutput := mkKVConnectorOutput {
  finished_sending : list string;
  finished_recving : list string;
  kco_stats : option string;
  invalid_block_ids : list Z
}.

(** [mro_prompt_logprobs]: the requests that come with log-probabilities of their prompt. *)
Record ModelRunnerOutput := mkModelRunnerOutput {
  mro_req_id_to_index : list (string * Z);
  mro_sampled_token_ids : list (list Z);
  mro_prompt_logprobs : list string;
  mro_pooler_output : list (option string);
  mro_kv_connector_output : option KVConnectorOutput;
  mro_num_nans_in_logits : list (string * Z)
}.

Record DraftTokenIds := mkDraftTokenIds {
  dt_req_ids : list string;
  dt_draft_token_ids : list (list Z)
}.

(** ** Statistics *)

Record SpecDecodingStats := mkSpecDecodingStats {
  sd_num_spec_tokens : Z;
  sd_num_drafts : Z;
  sd_num_draft_tokens : Z;
  sd_num_accepted_tokens : Z;
  sd_num_accepted_tokens_per_pos : list Z
}.

Definition spec_stats_new (num_spec_tokens : Z) : SpecDecodingStats :=
  mkSpecDecodingStats num_spec_tokens 0 0 0 (replicate (Z.to_nat num_spec_tokens) 0).

(** The counters change before the assertion is tested. *)
Definition observe_draft (num_draft_tokens num_accepted_tokens : Z) : M SpecDecodingStats unit :=
  _ ← modify (λ s, mkSpecDecodingStats (sd_num_spec_tokens s) (sd_num_drafts s + 1)
        (sd_num_draft_tokens s + num_draft_tokens) (sd_num_accepted_tokens s + num_accepted_tokens)
        (sd_num_accepted_tokens_per_pos s));
  s ← gets (λ s, s);
  _ ← assert (num_accepted_tokens <=? sd_num_spec_tokens s);
  for_ (seqZ 0 num_accepted_tokens) (λ i,
    s ← gets (λ s, s);
    n ← or_raise IndexError (sd_num_accepted_tokens_per_pos s !! Z.to_nat i);
    modify (λ s, mkSpecDecodingStats (sd_num_spec_tokens s) (sd_num_drafts s) (sd_num_draft_tokens s)
      (sd_num_accepted_tokens s) (<[Z.to_nat i := n + 1]> (sd_num_accepted_tokens_per_pos s)))).

Record SchedulerStats := mkSchedulerStats {
  num_running_reqs : Z;
  num_waiting_reqs : Z;
  num_skipped_waiting_reqs : Z;
  kv_cache_usage : Q;
  st_prefix_cache_stats : PrefixCacheStats;
  st_connector_prefix_cache_stats : option PrefixCacheStats;
  st_spec_decoding_stats : option SpecDecodingStats;
  st_kv_connector_stats : option string
}.

(** ** From the scheduler to the clients *)

Record EngineCoreOutput := mkEngineCoreOutput {
  eco_request_id : string;
  eco_new_token_ids : list Z;
  eco_prompt_logprobs : bool;
  eco_pooling_output : option string;
  eco_finish_reason : option FinishReason;
  eco_stop_reason : option StopReason;
  eco_events : option (list EngineCoreEvent);
  eco_kv_transfer_params : option string;
  eco_prefill_stats : option PrefillStats;
  eco_routed_experts : option string;
  eco_num_nans_in_logits : Z
}.

(** [outputs], [scheduler_stats] and [finished_requests] of [EngineCoreOutputs]: the fields
    the scheduler sets *)
Record EngineCoreOutputs := mkEngineCoreOutputs {
  ecos_outputs : list EngineCoreOutput;
  ecos_scheduler_stats : option SchedulerStats;
  ecos_finished_requests : option (gset string)
}.
