(* ===== verification/SchedState.v ===== *)
(** * The state of the scheduler

    The object [Scheduler] of vllm/v1/core/sched/scheduler.py: its settings, its state and
    the primitive accesses to them, the queues, the running list, the request objects and
    the components it owns.  Requests are objects in the table [objs]; [running] and the
    queues hold their identities.

    [request.spec_token_ids] may be the list [_spec_token_placeholders] that the
    asynchronous scheduler shares between all requests: [spec_alias] holds the requests
    for which it is, and a list of draft tokens in a scheduler output may be it as well
    ([SpecShared]), so that a change of the shared list shows in all of them.

    Grammars, reasoning parsers and the two connectors are parameters. *)

From Stdlib Require Import QArith.
From S2P Require Import Prelude FreeQueue Request BlockHash BlockPool KVSpec CacheHit SingleType Coordinator KVManager RequestQueue SchedUtils EncoderCache SpecControl SchedOutput.

#[local] Open Scope Z_scope.

(** ** What is not modelled *)

(** Grammars and reasoning parsers, the KV connector ([KVConnectorBase_V1]), the
    encoder-cache connector ([ECConnectorBase]) and the reader of routed experts: the calls
    the scheduler makes, on states of theirs. *)
Class SchedEnv := {
  (* [structured_output_request.grammar] is there: its compilation has ended *)
  grammar_ready : Request → bool;
  grammar_accept_tokens : Request → list Z → bool;
  grammar_validate_tokens : Request → list Z → list Z;
  grammar_bitmask : list string → list (string * spec_list) → string;
  (* [_get_reasoner(request) is not None], [enable_in_reasoning] *)
  has_reasoner : Request → bool;
  enable_in_reasoning : bool;
  is_reasoning_end_streaming : Request → list Z → list Z → bool;
  ConnMeta : Type;
  KVConn : Type;
  get_num_new_matched_tokens : Request → Z → KVConn → (option Z * bool) * KVConn;
  conn_update_state_after_alloc : Request → KVCacheBlocks → Z → KVConn → KVConn;
  conn_build_meta : SchedulerOutput ConnMeta → KVConn → ConnMeta * KVConn;
  (* [request_finished] with one group of block ids, [request_finished_all_groups] with all *)
  supports_hma : bool;
  conn_request_finished : Request → list (list Z) → KVConn → (bool * option string) * KVConn;
  conn_reset_cache : KVConn → option bool * KVConn;
  (* the statistics of the workers together with those of the connector *)
  conn_aggregate_stats : string → KVConn → string * KVConn;
  conn_update_output : KVConnectorOutput → KVConn → KVConn;
  conn_take_events : KVConn → list KVCacheEvent * KVConn;
  (* the order in which Python iterates over a set *)
  set_iter : list Z → list Z;
  str_set_iter : list string → list string;
  ECConn : Type;
  ec_has_cache_item : string → ECConn → bool;
  ec_update_state_after_alloc : Request → Z → ECConn → ECConn;
  ec_build_meta : SchedulerOutput ConnMeta → ECConn → ConnMeta * ECConn;
  get_routed_experts : list Z → string
}.

Inductive PauseState := UNPAUSED | PAUSED_NEW | PAUSED_ALL.

#[global] Instance PauseState_eq_dec : EqDecision PauseState.
Proof. solve_decision. Defined.

(** ** Settings, fixed by the constructor *)

Record SchedulerSettings := mkSettings {
  policy : SchedulingPolicy;
  max_num_running_reqs : Z;
  max_num_scheduled_tokens : Z;
  max_model_len : Z;
  long_prefill_token_threshold : Z;
  enable_chunked_prefill : bool;
  disable_chunked_mm_input : bool;
  max_num_encoder_input_tokens : Z;
  is_encoder_decoder : bool;
  use_eagle_ : bool;
  num_spec_tokens : Z;
  num_lookahead_tokens : Z;
  s_log_stats : bool;
  max_loras : option Z;
  scheduler_reserve_full_isl : bool;
  need_mamba_block_aligned_split : bool;
  cache_block_size : Z;
  s_block_size : Z;
  use_pp : bool;
  async_scheduling : bool;
  use_v2_model_runner : bool;
  needs_zeroing : bool;
  recompute_kv_load_failures : bool;
  is_async_scheduler : bool;
  (* the group whose slots index the routed experts, and its block size *)
  routed_experts_attn : option (nat * Z)
}.


(** [self.encoder_cache_manager], of the class the kind of model asks for. *)
Inductive encoder_manager :=
  | DecoderOnly (m : EncoderCacheManager.manager)
  | EncoderDecoder (m : EncoderDecoderCacheManager.manager).

Section State.
Context {E : Env} {SE : SchedEnv}.


Record Scheduler := mkScheduler {
  config_ : SchedulerSettings;
  objs : gmap req_ref Request;
  s_requests : list (string * req_ref);
  waiting : request_queue;
  skipped_waiting : request_queue;
  running : list req_ref;
  finished_req_ids : gset string;
  finished_req_ids_dict : option (list (Z * gset string));
  num_waiting_for_streaming_input : Z;
  finished_recving_kv_req_ids : gset string;
  failed_recving_kv_req_ids : gset string;
  prev_step_scheduled_req_ids : gset string;
  kv : KVCacheManager;
  enc : encoder_manager;
  connector : option KVConn;
  ec_connector : option ECConn;
  connector_prefix_cache_stats : option PrefixCacheStats;
  spec_token_controller : option SpecTokenController;
  active_num_spec_tokens : Z;
  _spec_token_placeholders : list Z;
  spec_alias : gset req_ref;
  _pause_state : PauseState
}.

Definition set_objs (v : gmap req_ref Request) (s : Scheduler) : Scheduler :=
  mkScheduler
    (config_ s) v (s_requests s) (waiting s) (skipped_waiting s) (running s)
    (finished_req_ids s) (finished_req_ids_dict s) (num_waiting_for_streaming_input s)
    (finished_recving_kv_req_ids s) (failed_recving_kv_req_ids s)
    (prev_step_scheduled_req_ids s) (kv s) (enc s) (connector s) (ec_connector s)
    (connector_prefix_cache_stats s) (spec_token_controller s) (active_num_spec_tokens
    s) (_spec_token_placeholders s) (spec_alias s) (_pause_state s).
Definition set_s_requests (v : list (string * req_ref)) (s : Scheduler) : Scheduler :=
  mkScheduler
    (config_ s) (objs s) v (waiting s) (skipped_waiting s) (running s) (finished_req_ids
    s) (finished_req_ids_dict s) (num_waiting_for_streaming_input s)
    (finished_recving_kv_req_ids s) (failed_recving_kv_req_ids s)
    (prev_step_scheduled_req_ids s) (kv s) (enc s) (connector s) (ec_connector s)
    (connector_prefix_cache_stats s) (spec_token_controller s) (active_num_spec_tokens
    s) (_spec_token_placeholders s) (spec_alias s) (_pause_state s).
Definition set_waiting (v : request_queue) (s : Scheduler) : Scheduler :=
  mkScheduler
    (config_ s) (objs s) (s_requests s) v (skipped_waiting s) (running s)
    (finished_req_ids s) (finished_req_ids_dict s) (num_waiting_for_streaming_input s)
    (finished_recving_kv_req_ids s) (failed_recving_kv_req_ids s)
    (prev_step_scheduled_req_ids s) (kv s) (enc s) (connector s) (ec_connector s)
    (connector_prefix_cache_stats s) (spec_token_controller s) (active_num_spec_tokens
    s) (_spec_token_placeholders s) (spec_alias s) (_pause_state s).
Definition set_skipped_waiting (v : request_queue) (s : Scheduler) : Scheduler :=
  mkScheduler
    (config_ s) (objs s) (s_requests s) (waiting s) v (running s) (finished_req_ids s)
    (finished_req_ids_dict s) (num_waiting_for_streaming_input s)
    (finished_recving_kv_req_ids s) (failed_recving_kv_req_ids s)
    (prev_step_scheduled_req_ids s) (kv s) (enc s) (connector s) (ec_connector s)
    (connector_prefix_cache_stats s) (spec_token_controller s) (active_num_spec_tokens
    s) (_spec_token_placeholders s) (spec_alias s) (_pause_state s).
Definition set_running (v : list req_ref) (s : Scheduler) : Scheduler :=
  mkScheduler
    (config_ s) (objs s) (s_requests s) (waiting s) (skipped_waiting s) v
    (finished_req_ids s) (finished_req_ids_dict s) (num_waiting_for_streaming_input s)
    (finished_recving_kv_req_ids s) (failed_recving_kv_req_ids s)
    (prev_step_scheduled_req_ids s) (kv s) (enc s) (connector s) (ec_connector s)
    (connector_prefix_cache_stats s) (spec_token_controller s) (active_num_spec_tokens
    s) (_spec_token_placeholders s) (spec_alias s) (_pause_state s).
Definition set_finished_req_ids (v : gset string) (s : Scheduler) : Scheduler :=
  mkScheduler
    (config_ s) (objs s) (s_requests s) (waiting s) (skipped_waiting s) (running s) v
    (finished_req_ids_dict s) (num_waiting_for_streaming_input s)
    (finished_recving_kv_req_ids s) (failed_recving_kv_req_ids s)
    (prev_step_scheduled_req_ids s) (kv s) (enc s) (connector s) (ec_connector s)
    (connector_prefix_cache_stats s) (spec_token_controller s) (active_num_spec_tokens
    s) (_spec_token_placeholders s) (spec_alias s) (_pause_state s).
Definition set_finished_req_ids_dict (v : option (list (Z * gset string))) (s : Scheduler) : Scheduler :=
  mkScheduler
    (config_ s) (objs s) (s_requests s) (waiting s) (skipped_waiting s) (running s)
    (finished_req_ids s) v (num_waiting_for_streaming_input s)
    (finished_recving_kv_req_ids s) (failed_recving_kv_req_ids s)
    (prev_step_scheduled_req_ids s) (kv s) (enc s) (connector s) (ec_connector s)
    (connector_prefix_cache_stats s) (spec_token_controller s) (active_num_spec_tokens
    s) (_spec_token_placeholders s) (spec_alias s) (_pause_state s).
Definition set_num_waiting_for_streaming_input (v : Z) (s : Scheduler) : Scheduler :=
  mkScheduler
    (config_ s) (objs s) (s_requests s) (waiting s) (skipped_waiting s) (running s)
    (finished_req_ids s) (finished_req_ids_dict s) v (finished_recving_kv_req_ids s)
    (failed_recving_kv_req_ids s) (prev_step_scheduled_req_ids s) (kv s) (enc s)
    (connector s) (ec_connector s) (connector_prefix_cache_stats s)
    (spec_token_controller s) (active_num_spec_tokens s) (_spec_token_placeholders s)
    (spec_alias s) (_pause_state s).
Definition set_finished_recving_kv_req_ids (v : gset string) (s : Scheduler) : Scheduler :=
  mkScheduler
    (config_ s) (objs s) (s_requests s) (waiting s) (skipped_waiting s) (running s)
    (finished_req_ids s) (finished_req_ids_dict s) (num_waiting_for_streaming_input s) v
    (failed_recving_kv_req_ids s) (prev_step_scheduled_req_ids s) (kv s) (enc s)
    (connector s) (ec_connector s) (connector_prefix_cache_stats s)
    (spec_token_controller s) (active_num_spec_tokens s) (_spec_token_placeholders s)
    (spec_alias s) (_pause_state s).
Definition set_failed_recving_kv_req_ids (v : gset string) (s : Scheduler) : Scheduler :=
  mkScheduler
    (config_ s) (objs s) (s_requests s) (waiting s) (skipped_waiting s) (running s)
    (finished_req_ids s) (finished_req_ids_dict s) (num_waiting_for_streaming_input s)
    (finished_recving_kv_req_ids s) v (prev_step_scheduled_req_ids s) (kv s) (enc s)
    (connector s) (ec_connector s) (connector_prefix_cache_stats s)
    (spec_token_controller s) (active_num_spec_tokens s) (_spec_token_placeholders s)
    (spec_alias s) (_pause_state s).
Definition set_prev_step_scheduled_req_ids (v : gset string) (s : Scheduler) : Scheduler :=
  mkScheduler
    (config_ s) (objs s) (s_requests s) (waiting s) (skipped_waiting s) (running s)
    (finished_req_ids s) (finished_req_ids_dict s) (num_waiting_for_streaming_input s)
    (finished_recving_kv_req_ids s) (failed_recving_kv_req_ids s) v (kv s) (enc s)
    (connector s) (ec_connector s) (connector_prefix_cache_stats s)
    (spec_token_controller s) (active_num_spec_tokens s) (_spec_token_placeholders s)
    (spec_alias s) (_pause_state s).
Definition set_kv (v : KVCacheManager) (s : Scheduler) : Scheduler :=
  mkScheduler
    (config_ s) (objs s) (s_requests s) (waiting s) (skipped_waiting s) (running s)
    (finished_req_ids s) (finished_req_ids_dict s) (num_waiting_for_streaming_input s)
    (finished_recving_kv_req_ids s) (failed_recving_kv_req_ids s)
    (prev_step_scheduled_req_ids s) v (enc s) (connector s) (ec_connector s)
    (connector_prefix_cache_stats s) (spec_token_controller s) (active_num_spec_tokens
    s) (_spec_token_placeholders s) (spec_alias s) (_pause_state s).
Definition set_enc (v : encoder_manager) (s : Scheduler) : Scheduler :=
  mkScheduler
    (config_ s) (objs s) (s_requests s) (waiting s) (skipped_waiting s) (running s)
    (finished_req_ids s) (finished_req_ids_dict s) (num_waiting_for_streaming_input s)
    (finished_recving_kv_req_ids s) (failed_recving_kv_req_ids s)
    (prev_step_scheduled_req_ids s) (kv s) v (connector s) (ec_connector s)
    (connector_prefix_cache_stats s) (spec_token_controller s) (active_num_spec_tokens
    s) (_spec_token_placeholders s) (spec_alias s) (_pause_state s).
Definition set_connector (v : option KVConn) (s : Scheduler) : Scheduler :=
  mkScheduler
    (config_ s) (objs s) (s_requests s) (waiting s) (skipped_waiting s) (running s)
    (finished_req_ids s) (finished_req_ids_dict s) (num_waiting_for_streaming_input s)
    (finished_recving_kv_req_ids s) (failed_recving_kv_req_ids s)
    (prev_step_scheduled_req_ids s) (kv s) (enc s) v (ec_connector s)
    (connector_prefix_cache_stats s) (spec_token_controller s) (active_num_spec_tokens
    s) (_spec_token_placeholders s) (spec_alias s) (_pause_state s).
Definition set_ec_connector (v : option ECConn) (s : Scheduler) : Scheduler :=
  mkScheduler
    (config_ s) (objs s) (s_requests s) (waiting s) (skipped_waiting s) (running s)
    (finished_req_ids s) (finished_req_ids_dict s) (num_waiting_for_streaming_input s)
    (finished_recving_kv_req_ids s) (failed_recving_kv_req_ids s)
    (prev_step_scheduled_req_ids s) (kv s) (enc s) (connector s) v
    (connector_prefix_cache_stats s) (spec_token_controller s) (active_num_spec_tokens
    s) (_spec_token_placeholders s) (spec_alias s) (_pause_state s).
Definition set_connector_prefix_cache_stats (v : option PrefixCacheStats) (s : Scheduler) : Scheduler :=
  mkScheduler
    (config_ s) (objs s) (s_requests s) (waiting s) (skipped_waiting s) (running s)
    (finished_req_ids s) (finished_req_ids_dict s) (num_waiting_for_streaming_input s)
    (finished_recving_kv_req_ids s) (failed_recving_kv_req_ids s)
    (prev_step_scheduled_req_ids s) (kv s) (enc s) (connector s) (ec_connector s) v
    (spec_token_controller s) (active_num_spec_tokens s) (_spec_token_placeholders s)
    (spec_alias s) (_pause_state s).
Definition set_spec_token_controller (v : option SpecTokenController) (s : Scheduler) : Scheduler :=
  mkScheduler
    (config_ s) (objs s) (s_requests s) (waiting s) (skipped_waiting s) (running s)
    (finished_req_ids s) (finished_req_ids_dict s) (num_waiting_for_streaming_input s)
    (finished_recving_kv_req_ids s) (failed_recving_kv_req_ids s)
    (prev_step_scheduled_req_ids s) (kv s) (enc s) (connector s) (ec_connector s)
    (connector_prefix_cache_stats s) v (active_num_spec_tokens s)
    (_spec_token_placeholders s) (spec_alias s) (_pause_state s).
Definition set_active_num_spec_tokens (v : Z) (s : Scheduler) : Scheduler :=
  mkScheduler
    (config_ s) (objs s) (s_requests s) (waiting s) (skipped_waiting s) (running s)
    (finished_req_ids s) (finished_req_ids_dict s) (num_waiting_for_streaming_input s)
    (finished_recving_kv_req_ids s) (failed_recving_kv_req_ids s)
    (prev_step_scheduled_req_ids s) (kv s) (enc s) (connector s) (ec_connector s)
    (connector_prefix_cache_stats s) (spec_token_controller s) v
    (_spec_token_placeholders s) (spec_alias s) (_pause_state s).
Definition set_spec_token_placeholders (v : list Z) (s : Scheduler) : Scheduler :=
  mkScheduler
    (config_ s) (objs s) (s_requests s) (waiting s) (skipped_waiting s) (running s)
    (finished_req_ids s) (finished_req_ids_dict s) (num_waiting_for_streaming_input s)
    (finished_recving_kv_req_ids s) (failed_recving_kv_req_ids s)
    (prev_step_scheduled_req_ids s) (kv s) (enc s) (connector s) (ec_connector s)
    (connector_prefix_cache_stats s) (spec_token_controller s) (active_num_spec_tokens
    s) v (spec_alias s) (_pause_state s).
Definition set_spec_alias (v : gset req_ref) (s : Scheduler) : Scheduler :=
  mkScheduler
    (config_ s) (objs s) (s_requests s) (waiting s) (skipped_waiting s) (running s)
    (finished_req_ids s) (finished_req_ids_dict s) (num_waiting_for_streaming_input s)
    (finished_recving_kv_req_ids s) (failed_recving_kv_req_ids s)
    (prev_step_scheduled_req_ids s) (kv s) (enc s) (connector s) (ec_connector s)
    (connector_prefix_cache_stats s) (spec_token_controller s) (active_num_spec_tokens
    s) (_spec_token_placeholders s) v (_pause_state s).
Definition set_pause_state (v : PauseState) (s : Scheduler) : Scheduler :=
  mkScheduler
    (config_ s) (objs s) (s_requests s) (waiting s) (skipped_waiting s) (running s)
    (finished_req_ids s) (finished_req_ids_dict s) (num_waiting_for_streaming_input s)
    (finished_recving_kv_req_ids s) (failed_recving_kv_req_ids s)
    (prev_step_scheduled_req_ids s) (kv s) (enc s) (connector s) (ec_connector s)
    (connector_prefix_cache_stats s) (spec_token_controller s) (active_num_spec_tokens
    s) (_spec_token_placeholders s) (spec_alias s) v.

Abbreviation MS := (M Scheduler).

(** ** Request objects *)

Definition blank_request (r : req_ref) : Request :=
  mkRequest "" 0 0 None None None None 0 WAITING [] None 0 None None ∅ 0 [] [] 0 false [] 0 None [] false 0 None
    [] false false None None 0 r.

(** The object with an identity. *)
Definition obj (s : Scheduler) (r : req_ref) : Request := default (blank_request r) (objs s !! r).

Definition get_req (r : req_ref) : MS Request := gets (λ s, obj s r).
Definition put_obj (r : req_ref) (q : Request) (s : Scheduler) : Scheduler := set_objs (<[r := q]> (objs s)) s.
(** An assignment to an attribute of a request. *)
Definition upd_req (r : req_ref) (f : Request → Request) : MS unit := modify (λ s, put_obj r (f (obj s r)) s).
(** A method call on a request. *)
Definition on_req {A} (r : req_ref) (m : M Request A) : MS A := zoom (λ s, obj s r) (put_obj r) m.

Definition set_resumable (v : bool) (r : Request) : Request :=
  mkRequest
    (request_id r) (client_index r) (priority r) (sampling_params r) (pooling_params r)
    (lora_request r) (structured_output_request r) (arrival_time r) (status r) (events r) (stop_reason r)
    (max_tokens r) (prompt_token_ids r) (prompt_embeds r)
    (_prompt_embeds_per_block_hashes r) (num_prompt_tokens r) (_output_token_ids r)
    (_all_token_ids r) (num_output_placeholders r) (discard_latest_async_tokens r)
    (spec_token_ids r) (num_computed_tokens r) (cache_salt r) (mm_features r)
    (is_prefill_chunk r) (num_preemptions r) (prefill_stats r) (block_hashes r)
    (skip_reading_prefix_cache r) v (streaming_queue r) (kv_transfer_params r) (num_nans_in_logits r) (object_id r).
Definition set_structured_output_request (v : option StructuredOutputRequest) (r : Request) : Request :=
  mkRequest
    (request_id r) (client_index r) (priority r) (sampling_params r) (pooling_params r)
    (lora_request r) v (arrival_time r) (status r) (events r) (stop_reason r)
    (max_tokens r) (prompt_token_ids r) (prompt_embeds r)
    (_prompt_embeds_per_block_hashes r) (num_prompt_tokens r) (_output_token_ids r)
    (_all_token_ids r) (num_output_placeholders r) (discard_latest_async_tokens r)
    (spec_token_ids r) (num_computed_tokens r) (cache_salt r) (mm_features r)
    (is_prefill_chunk r) (num_preemptions r) (prefill_stats r) (block_hashes r)
    (skip_reading_prefix_cache r) (resumable r) (streaming_queue r) (kv_transfer_params r) (num_nans_in_logits r)
    (object_id r).

(** [self.requests.get(req_id)] and [self.requests[req_id]] *)
Definition requests_get (s : Scheduler) (req_id : string) : option req_ref := od_get req_id (s_requests s).
Definition requests_at (req_id : string) : MS req_ref := o ← gets (λ s, requests_get s req_id); or_raise KeyError o.

(** ** Lists of draft tokens *)

Definition spec_tokens (s : Scheduler) (l : spec_list) : list Z :=
  match l with SpecOwn l => l | SpecShared => _spec_token_placeholders s end.
(** [request.spec_token_ids], the object and its items *)
Definition request_spec (s : Scheduler) (r : req_ref) : spec_list :=
  if decide (r ∈ spec_alias s) then SpecShared else SpecOwn (spec_token_ids (obj s r)).
Definition request_spec_tokens (s : Scheduler) (r : req_ref) : list Z := spec_tokens s (request_spec s r).
(** [request.spec_token_ids = l], a list of its own *)
Definition assign_spec (r : req_ref) (l : list Z) : MS unit :=
  _ ← upd_req r (set_spec_token_ids l);
  modify (λ s, set_spec_alias (spec_alias s ∖ {[r]}) s).
(** [request.spec_token_ids = self._spec_token_placeholders] *)
Definition share_spec (r : req_ref) : MS unit := modify (λ s, set_spec_alias (spec_alias s ∪ {[r]}) s).
(** [del request.spec_token_ids[k:]] changes the list object itself. *)
Definition truncate_spec (r : req_ref) (k : Z) : MS unit :=
  s ← gets (λ s, s);
  match request_spec s r with
  | SpecShared => modify (set_spec_token_placeholders (py_slice (_spec_token_placeholders s) 0 k))
  | SpecOwn l => upd_req r (set_spec_token_ids (py_slice l 0 k))
  end.
(** [request.num_tokens_with_spec] *)
Definition tokens_with_spec (s : Scheduler) (r : req_ref) : Z :=
  len (_all_token_ids (obj s r)) + len (request_spec_tokens s r).

(** ** The components *)

Definition on_kv {A} : M KVCacheManager A → MS A := zoom kv set_kv.

(** A method of the encoder-cache manager, of its class. *)
Definition on_enc {A} (d : M EncoderCacheManager.manager A) (ed : M EncoderDecoderCacheManager.manager A) : MS A := λ s,
  match enc s with
  | DecoderOnly m => let '(a, m) := d m in (a, set_enc (DecoderOnly m) s)
  | EncoderDecoder m => let '(a, m) := ed m in (a, set_enc (EncoderDecoder m) s)
  end.
Definition enc_check_and_update_cache (q : Request) (i : Z) : MS bool :=
  on_enc (EncoderCacheManager.check_and_update_cache q i) (EncoderDecoderCacheManager.check_and_update_cache q i).
Definition enc_can_allocate (q : Request) (i budget to_schedule : Z) : MS bool :=
  on_enc (EncoderCacheManager.can_allocate q i budget to_schedule)
    (EncoderDecoderCacheManager.can_allocate q i budget to_schedule).
Definition enc_allocate (q : Request) (i : Z) : MS unit :=
  on_enc (EncoderCacheManager.allocate q i) (EncoderDecoderCacheManager.allocate q i).
Definition enc_free_encoder_input (q : Request) (i : Z) : MS unit :=
  on_enc (EncoderCacheManager.free_encoder_input q i) (EncoderDecoderCacheManager.free_encoder_input q i).
Definition enc_free (q : Request) : MS unit :=
  on_enc (EncoderCacheManager.free set_iter q) (EncoderDecoderCacheManager.free q).
Definition enc_get_cached_input_ids (q : Request) : MS (list Z) :=
  on_enc (gets (EncoderCacheManager.get_cached_input_ids q)) (gets (EncoderDecoderCacheManager.get_cached_input_ids q)).
Definition enc_get_freed_mm_hashes : MS (list string) :=
  on_enc EncoderCacheManager.get_freed_mm_hashes EncoderDecoderCacheManager.get_freed_mm_hashes.
Definition enc_reset : MS unit := on_enc EncoderCacheManager.reset EncoderDecoderCacheManager.reset.

(** A method of a queue; comparisons of requests read the objects. *)
Definition on_waiting {A} (op : QueueOps request_queue → M request_queue A) : MS A := λ s,
  let '(a, q) := op (request_queue_ops (obj s)) (waiting s) in (a, set_waiting q s).
Definition on_skipped {A} (op : QueueOps request_queue → M request_queue A) : MS A := λ s,
  let '(a, q) := op (request_queue_ops (obj s)) (skipped_waiting s) in (a, set_skipped_waiting q s).
Definition queue_nonempty (s : Scheduler) (q : request_queue) : bool :=
  @queue_bool _ (request_queue_ops (obj s)) q.
Definition queue_size (s : Scheduler) (q : request_queue) : Z := @queue_len _ (request_queue_ops (obj s)) q.
Definition queue_list (s : Scheduler) (q : request_queue) : list req_ref :=
  @queue_iter _ (request_queue_ops (obj s)) q.

(** ** The constructor

    The parts of [VllmConfig] it reads.  The multi-modal budget (the compute budget and
    the cache size, when the model takes multi-modal inputs) is computed by
    [MultiModalBudget], and the connectors are built by factories: arguments. *)
Record VllmConfig := mkVllmConfig {
  c_policy : string;
  c_max_num_seqs : Z;
  c_max_num_scheduled_tokens : option Z;
  c_max_num_batched_tokens : Z;
  c_long_prefill_token_threshold : Z;
  c_enable_chunked_prefill : bool;
  c_disable_chunked_mm_input : bool;
  c_async_scheduling : bool;
  c_reserve_full_isl : bool;
  c_max_model_len : Z;
  c_is_encoder_decoder : bool;
  c_num_gpu_blocks : option Z;
  c_block_size : Z;
  c_enable_prefix_caching : bool;
  c_mamba_cache_align : bool;
  c_dcp : Z;
  c_pcp : Z;
  c_pp : Z;
  (* [num_speculative_tokens], [use_eagle()], [uses_draft_model()] *)
  c_speculative : option (Z * bool * bool);
  c_max_loras : option Z;
  c_enable_kv_cache_events : bool;
  c_metrics : option KVCacheMetricsCollector;
  c_recompute_kv_load_failures : bool;
  c_use_v2_model_runner : bool;
  c_enable_return_routed_experts : bool
}.

Definition policy_of (name : string) : option SchedulingPolicy :=
  if String.eqb name "fcfs" then Some FCFS else if String.eqb name "priority" then Some PRIORITY else None.

(** [x if x else y] on an optional integer *)
Definition truthy_or (x : option Z) (y : Z) : Z :=
  match x with Some n => if n =? 0 then y else n | None => y end.

(** [MultiModalBudget]: what the scheduler reads of it. *)
Record MultiModalBudget := mkMultiModalBudget {
  mb_encoder_compute_budget : Z;
  mb_encoder_cache_size : Z;
  mm_max_toks_per_item : list (string * Z)
}.

(** The first group with attention, or group 0, and its block size. *)
Definition routed_experts_group (kv_cache_config : KVCacheConfig) : option (nat * Z) :=
  let i := match list_find (λ g, is_Some (attention (kv_cache_spec g))) (kv_cache_groups kv_cache_config) with
           | Some (i, _) => i
           | None => 0%nat
           end in
  (λ g, (i, KVSpec.block_size (kv_cache_spec g))) <$> kv_cache_groups kv_cache_config !! i.

Definition scheduler_init (is_async : bool) (vc : VllmConfig) (kv_cache_config : KVCacheConfig) (block_size : Z)
    (hash_block_size : option Z) (mm_budget : option MultiModalBudget) (conn : option KVConn) (ec : option ECConn)
    (include_finished_set log_stats : bool) : result Scheduler :=
  if bool_decide (is_Some conn) && c_is_encoder_decoder vc then Raise AssertionError
  else if negb (match c_num_gpu_blocks vc with Some n => 0 <? n | None => false end) then Raise AssertionError
  else match policy_of (c_policy vc) with
  | None => Raise ValueError
  | Some pol =>
    if c_is_encoder_decoder vc && negb (match mm_budget with Some b => len (mm_max_toks_per_item b) <=? 1 | None => false end)
    then Raise AssertionError
    else
      let max_num_encoder_input_tokens := match mm_budget with Some b => mb_encoder_compute_budget b | None => 0 end in
      let encoder_cache_size := match mm_budget with Some b => mb_encoder_cache_size b | None => 0 end in
      let encm := if c_is_encoder_decoder vc then EncoderDecoder (EncoderDecoderCacheManager.init encoder_cache_size)
                  else DecoderOnly (EncoderCacheManager.init encoder_cache_size) in
      let spec : result (Z * option SpecTokenController * bool * Z) :=
        match c_speculative vc with
        | None => Ok (0, None, false, 0)
        | Some (n, eagle, draft) =>
            match controller_init n (Some n) 1 (1 # 4) (9 # 20) 8 128 true with
            | Raise e => Raise e
            | Ok ctl => Ok (n, Some ctl, eagle, if eagle || draft then n else 0)
            end
        end in
      match spec with
      | Raise e => Raise e
      | Ok (num_spec, ctl, eagle, lookahead) =>
        match kv_cache_manager_init kv_cache_config (c_max_model_len vc) (default block_size hash_block_size)
                (Some (c_max_num_batched_tokens vc)) (c_enable_prefix_caching vc) eagle log_stats
                (c_enable_kv_cache_events vc) (c_dcp vc) (c_pcp vc) (c_metrics vc) with
        | Raise e => Raise e
        | Ok k =>
          if c_enable_return_routed_experts vc &&
             negb ((c_dcp vc =? 1) && (c_pcp vc =? 1) && (0 <? len (kv_cache_groups kv_cache_config)))
          then Raise AssertionError
          else
          let settings := mkSettings pol (c_max_num_seqs vc)
            (truthy_or (c_max_num_scheduled_tokens vc) (c_max_num_batched_tokens vc)) (c_max_model_len vc)
            (c_long_prefill_token_threshold vc) (c_enable_chunked_prefill vc) (c_disable_chunked_mm_input vc)
            max_num_encoder_input_tokens (c_is_encoder_decoder vc) eagle num_spec lookahead log_stats (c_max_loras vc)
            (c_reserve_full_isl vc) (has_mamba_layers kv_cache_config && c_mamba_cache_align vc) (c_block_size vc)
            block_size (1 <? c_pp vc) (c_async_scheduling vc) (c_use_v2_model_runner vc)
            (needs_kv_cache_zeroing kv_cache_config) (c_recompute_kv_load_failures vc) is_async
            (if c_enable_return_routed_experts vc then routed_experts_group kv_cache_config else None) in
          Ok (mkScheduler settings ∅ [] (create_request_queue pol) (create_request_queue pol) [] ∅
                (if include_finished_set then Some [] else None) 0 ∅ ∅ ∅ k encm conn ec
                (if bool_decide (is_Some conn) && log_stats then Some new_stats else None) ctl
                (match ctl with Some c => active_k c | None => 0 end)
                (if is_async then replicate (Z.to_nat num_spec) (-1) else []) ∅ UNPAUSED)
        end
      end
  end.
End State.

(** ** A small instance, for examples *)

Definition small_budget : MultiModalBudget := mkMultiModalBudget 6 6 [].

(** The value of a computation that is known to succeed. *)
Definition get_ok {A} (r : result A) : match r with Ok _ => True | Raise _ => False end → A :=
  match r with Ok a => λ _, a | Raise _ => λ H, match H with end end.

(** Grammars are ready and accept everything; there are no connectors. *)
Definition test_sched_env : SchedEnv := {|
  grammar_ready _ := true;
  grammar_accept_tokens _ _ := true;
  grammar_validate_tokens _ l := l;
  grammar_bitmask _ _ := "";
  has_reasoner _ := false;
  enable_in_reasoning := false;
  is_reasoning_end_streaming _ _ _ := false;
  ConnMeta := unit;
  KVConn := unit;
  get_num_new_matched_tokens _ _ c := ((Some 0, false), c);
  conn_update_state_after_alloc _ _ _ c := c;
  conn_build_meta _ c := (tt, c);
  supports_hma := true;
  conn_request_finished _ _ c := ((false, None), c);
  conn_reset_cache c := (Some true, c);
  conn_aggregate_stats s c := (s, c);
  conn_update_output _ c := c;
  conn_take_events c := ([], c);
  set_iter := id;
  str_set_iter := id;
  ECConn := unit;
  ec_has_cache_item _ _ := false;
  ec_update_state_after_alloc _ _ c := c;
  ec_build_meta _ c := (tt, c);
  get_routed_experts _ := ""
|}.

#[local] Existing Instances test_env test_sched_env.

(** Eight blocks of two tokens, at most four requests and sixteen tokens per step. *)
Definition small_vllm (policy : string) (speculative : option (Z * bool * bool)) (max_loras : option Z) : VllmConfig :=
  mkVllmConfig policy 4 None 16 0 true false false false 64 false (Some 8) 2 true false 1 1 1 speculative max_loras
    false None true false false.
Definition small_kv : KVCacheConfig := mkKVCacheConfig 8 [] [mkGroup ["a"] full2 false].
Definition small_init (is_async : bool) policy speculative max_loras : result Scheduler :=
  scheduler_init is_async (small_vllm policy speculative max_loras) small_kv 2 (Some 2) (Some small_budget) None None false true.
