(* ===== verification/EncoderSched.v ===== *)
(** * Scheduling of encoder inputs

    [_try_schedule_encoder_inputs] and [_free_encoder_inputs] of
    vllm/v1/core/sched/scheduler.py: which multi-modal inputs of a request must be encoded
    in a step, how many tokens that allows, and when an encoder output is released. *)

From Stdlib Require Import QArith.
From S2P Require Import Prelude FreeQueue Request BlockHash BlockPool KVSpec CacheHit SingleType Coordinator KVManager RequestQueue SchedUtils EncoderCache SpecControl SchedState.

#[local] Open Scope Z_scope.
#[local] Set Default Proof Using "Type*".

Section Defs.
Context {E : Env} {SE : SchedEnv}.
Abbreviation MS := (M Scheduler).

(** The variables of the loop. *)
Record enc_vars := mkEncVars {
  encoder_inputs_to_schedule : list Z;
  v_num_new_tokens : Z;
  encoder_compute_budget : Z;
  external_load_encoder_input : list Z;
  mm_hashes_to_schedule : gset string;
  num_embeds_to_schedule : Z
}.

Definition with_num_new_tokens (n : Z) (v : enc_vars) : enc_vars :=
  mkEncVars (encoder_inputs_to_schedule v) n (encoder_compute_budget v) (external_load_encoder_input v)
    (mm_hashes_to_schedule v) (num_embeds_to_schedule v).
Definition with_external (i : Z) (id : string) (n : Z) (v : enc_vars) : enc_vars :=
  mkEncVars (encoder_inputs_to_schedule v) (v_num_new_tokens v) (encoder_compute_budget v)
    (external_load_encoder_input v ++ [i]) (mm_hashes_to_schedule v ∪ {[id]}) (num_embeds_to_schedule v + n).
Definition with_input (i : Z) (id : string) (n : Z) (v : enc_vars) : enc_vars :=
  mkEncVars (encoder_inputs_to_schedule v ++ [i]) (v_num_new_tokens v) (encoder_compute_budget v - n)
    (external_load_encoder_input v) (mm_hashes_to_schedule v ∪ {[id]}) (num_embeds_to_schedule v + n).

(** [for i, mm_feature in enumerate(mm_features)], from index [i] on. *)
Fixpoint encoder_loop (request : Request) (computed shift : Z) (features : list MultiModalFeatureSpec) (i : Z)
    (v : enc_vars) : MS enc_vars :=
  match features with
  | [] => mret v
  | f :: features =>
      let continue := encoder_loop request computed shift features (i + 1) in
      let start_pos := offset (mm_position f) in
      let num_encoder_tokens := length_ (mm_position f) in
      let num_encoder_embeds := get_num_embeds (mm_position f) in
      let item_identifier := identifier f in
      c ← gets config_;
      if computed + v_num_new_tokens v + shift <=? start_pos then mret v
      else
        skip ← (if is_encoder_decoder c && (0 <? computed) then _ ← assert (start_pos =? 0); mret true
                else mret (start_pos + num_encoder_tokens <=? computed));
        if skip : bool then continue v
        else
          available ← (if is_encoder_decoder c then mret false
                       else if bool_decide (item_identifier ∈ mm_hashes_to_schedule v) then mret true
                       else enc_check_and_update_cache request i);
          if available : bool then continue v
          else if disable_chunked_mm_input c && (computed <? start_pos) &&
                  (computed + v_num_new_tokens v <? start_pos + num_encoder_tokens) then
            mret (with_num_new_tokens (Z.max 0 (start_pos - (computed + shift))) v)
          else
            can ← enc_can_allocate request i (encoder_compute_budget v) (num_embeds_to_schedule v);
            if negb can then
              mret (with_num_new_tokens
                (if computed + shift <? start_pos then start_pos - (computed + shift) else 0) v)
            else
              let start_idx_rel := Z.max 0 (computed - start_pos) in
              let end_idx_rel := Z.min num_encoder_tokens (computed + v_num_new_tokens v - start_pos) in
              p ← or_raise IndexError (get_embeds_indices_in_range (mm_position f) start_idx_rel end_idx_rel);
              if p.2 - p.1 =? 0 then continue v
              else
                external ← gets (λ s, match ec_connector s with
                                      | Some e => ec_has_cache_item item_identifier e
                                      | None => false
                                      end);
                if external : bool then continue (with_external i item_identifier num_encoder_embeds v)
                else continue (with_input i item_identifier num_encoder_embeds v)
  end.

(** Returns the inputs to encode, the number of tokens, what is left of the budget and
    the inputs the connector loads. *)
Definition _try_schedule_encoder_inputs (request : Request) (num_computed_tokens num_new_tokens budget shift : Z) :
    MS (list Z * Z * Z * list Z) :=
  if (num_new_tokens =? 0) || negb (has_encoder_inputs request) then
    mret ([], num_new_tokens, budget, [])
  else
    _ ← assert (0 <? len (mm_features request));
    v ← encoder_loop request num_computed_tokens shift (mm_features request) 0
          (mkEncVars [] num_new_tokens budget [] ∅ 0);
    mret (encoder_inputs_to_schedule v, v_num_new_tokens v, encoder_compute_budget v,
          external_load_encoder_input v).

(** The cache entries of the scheduled inputs; the connector is told. *)
Definition allocate_encoder_inputs (r : req_ref) (ids : list Z) : MS unit :=
  for_ ids (λ i,
    q ← get_req r;
    _ ← enc_allocate q i;
    modify (λ s, match ec_connector s with
                 | Some e => set_ec_connector (Some (ec_update_state_after_alloc q i e)) s
                 | None => s
                 end)).

Definition _free_encoder_inputs (r : req_ref) : MS unit :=
  q ← get_req r;
  ids ← enc_get_cached_input_ids q;
  match ids with
  | [] => mret tt
  | _ =>
      for_ (set_iter ids) (λ i,
        f ← feature_at q i;
        c ← gets config_;
        if is_encoder_decoder c && (0 <? num_computed_tokens q) then enc_free_encoder_input q i
        else if offset (mm_position f) + length_ (mm_position f) <=? num_computed_tokens q then
          enc_free_encoder_input q i
        else mret tt)
  end.
End Defs.

(** ** Masks *)

Lemma cumsum_ge l : ∀ a i x, cumsum_from a l !! i = Some x → a ≤ x.
Proof.
  induction l as [|b l IH]; intros a i x Hx; [done|]. destruct i as [|i]; simpl in Hx.
  - destruct b; simplify_eq; lia.
  - apply IH in Hx. destruct b; lia.
Qed.

Lemma cumsum_mono l : ∀ a i j x y,
  (i ≤ j)%nat → cumsum_from a l !! i = Some x → cumsum_from a l !! j = Some y → x ≤ y.
Proof.
  induction l as [|b l IH]; intros a i j x y Hij Hx Hy; [done|].
  destruct i as [|i], j as [|j]; simpl in *; [by simplify_eq| |lia|by eapply (IH _ i j); [lia|..]].
  apply cumsum_ge in Hy. simplify_eq. lia.
Qed.

Lemma cumsum_step l : ∀ a i (b : bool) x,
  l !! i = Some b → cumsum_from a l !! i = Some x →
  match i with O => Some a | S i => cumsum_from a l !! i end = Some (x - if b then 1 else 0).
Proof.
  induction l as [|b0 l IH]; intros a i b x Hb Hx; [done|]. destruct i as [|i]; simpl in *.
  - simplify_eq. f_equal. lia.
  - specialize (IH _ i b x Hb Hx). by destruct i.
Qed.

Lemma length_cumsum l a : length (cumsum_from a l) = length l.
Proof. revert a. induction l as [|b l IH]; intros a; simpl; [done|]. by rewrite IH. Qed.

(** The mask has an entry per position. *)
Definition mask_ok (p : PlaceholderRange) : Prop :=
  0 ≤ length_ p ∧ ∀ mask, is_embed p = Some mask → len mask = length_ p.

(** The position [i] of the range takes an embedding. *)
Definition embeds_at (p : PlaceholderRange) (i : Z) : Prop :=
  match is_embed p with None => True | Some mask => mask !! Z.to_nat i = Some true end.

(** A range without embeddings has none at any position. *)
Lemma no_embeds_in_range p s e :
  mask_ok p → 0 ≤ s ≤ e → e ≤ length_ p →
  ∃ a b, get_embeds_indices_in_range p s e = Some (a, b) ∧ (b - a = 0 → ∀ i, s ≤ i < e → ¬ embeds_at p i).
Proof.
  intros [Hl Hm] Hs He. unfold get_embeds_indices_in_range, embeds_cumsum, embeds_at.
  destruct (is_embed p) as [mask|]; simpl; [|exists s, e; split; [done|]; intros; lia].
  specialize (Hm mask eq_refl). unfold len in Hm. set (cs := cumsum_from 0 mask).
  assert (Hlook : ∀ k, 0 < k ≤ length_ p → ∃ x, py_get cs (k - 1) = Some x ∧ cs !! Z.to_nat (k - 1) = Some x).
  { intros k Hk. rewrite py_get_nonneg by lia.
    destruct (lookup_lt_is_Some_2 cs (Z.to_nat (k - 1))) as [x Hx]; [unfold cs; rewrite length_cumsum; lia|].
    by exists x. }
  assert (Hend : ∀ k, 0 ≤ k ≤ length_ p → ∃ x, (if 0 <? k then py_get cs (k - 1) else Some 0) = Some x ∧
            (k = 0 → x = 0) ∧ (0 < k → cs !! Z.to_nat (k - 1) = Some x)).
  { intros k Hk. destruct (Z.ltb_spec 0 k); [|exists 0; split_and!; [done|done|lia]].
    destruct (Hlook k) as (x & Hx & Hc); [lia|]. exists x. split_and!; [done|lia|done]. }
  destruct (Hend s) as (a & -> & Ha0 & Ha); [lia|]. destruct (Hend e) as (b & -> & Hb0 & Hb); [lia|]. simpl.
  exists a, b. split; [done|]. intros Hab i Hi Htrue.
  destruct (Hlook (i + 1)) as (x & _ & Hx); [lia|]. replace (i + 1 - 1) with i in Hx by lia.
  pose proof (cumsum_step mask 0 (Z.to_nat i) true x Htrue Hx) as Hstep. fold cs in Hstep.
  specialize (Hb ltac:(lia)).
  assert (x ≤ b) by (eapply (cumsum_mono mask 0 (Z.to_nat i) (Z.to_nat (e - 1))); [lia|done|done]).
  assert (a ≤ x - 1); [|lia]. destruct (Z.to_nat i) as [|i'] eqn:Hi'.
  - simplify_eq. assert (s = 0) as -> by lia. specialize (Ha0 eq_refl). lia.
  - destruct (decide (s = 0)) as [->|Hs0].
    + rewrite (Ha0 eq_refl). destruct cs as [|c0 cs'] eqn:Hcs; [done|].
      rewrite <- Hcs in Hstep. apply cumsum_ge in Hstep. lia.
    + eapply (cumsum_mono mask 0 (Z.to_nat (s - 1)) i'); [lia|by apply Ha; lia|done].
Qed.

(** ** The inputs a step needs *)

Section Loop.
Context {E : Env} {SE : SchedEnv} (sz : string → Z) (size : Z).
Import EncoderCacheFacts.
Implicit Types (m : EncoderCacheManager.manager) (q : Request) (v : enc_vars) (f : MultiModalFeatureSpec).

(** The input [f] has an embedding at a position the step computes. *)
Definition needed (computed new : Z) f : Prop :=
  ∃ p, computed ≤ p < computed + new ∧
    offset (mm_position f) ≤ p < offset (mm_position f) + length_ (mm_position f) ∧
    embeds_at (mm_position f) (p - offset (mm_position f)).

Lemma needed_mono computed new new' f : new ≤ new' → needed computed new f → needed computed new' f.
Proof. intros Hn (p & Hp & Hr). exists p. split; [lia|done]. Qed.

(** The entry is in the cache, and the request holds a reference to it. *)
Definition referenced m q (h : string) : Prop :=
  ∃ refs, EncoderCacheManager.cached m !! h = Some refs ∧ request_id q ∈ refs.

(** What the encoder code assumes of a request: known sizes, masks of the right length,
    inputs in the order of their positions. *)
Record encodable q : Prop := {
  eb_sized : sized sz q;
  eb_mask : Forall (λ f, mask_ok (mm_position f)) (mm_features q);
  eb_sorted j k f g : (j ≤ k)%nat → mm_features q !! j = Some f → mm_features q !! k = Some g →
    offset (mm_position f) ≤ offset (mm_position g)
}.

Definition picked v : list Z := encoder_inputs_to_schedule v ++ external_load_encoder_input v.

Record loop_inv q (computed new0 budget0 : Z) (i : nat) v m : Prop := {
  li_inv : enc_inv sz size m;
  li_ids j : j ∈ picked v → 0 ≤ j ∧ is_Some (py_get (mm_features q) j);
  li_hashes h : h ∈ mm_hashes_to_schedule v ↔ h ∈ hashes_at q (picked v);
  li_nodup : NoDup (hashes_at q (picked v));
  li_uncached h : h ∈ hashes_at q (picked v) → EncoderCacheManager.cached m !! h = None;
  li_embeds : num_embeds_to_schedule v = sumZ (sz <$> hashes_at q (picked v));
  li_room : num_embeds_to_schedule v ≤ EncoderCacheManager.num_free_slots m;
  li_budget : encoder_compute_budget v = budget0 - sumZ (sz <$> hashes_at q (encoder_inputs_to_schedule v));
  li_budget_pos : 0 ≤ encoder_compute_budget v;
  li_new : 0 ≤ v_num_new_tokens v ≤ new0;
  li_cover j f : (j < i)%nat → mm_features q !! j = Some f → needed computed (v_num_new_tokens v) f →
    identifier f ∈ hashes_at q (picked v) ∨ referenced m q (identifier f)
}.

Lemma wp_on_enc {A} (d : M EncoderCacheManager.manager A) (ed : M EncoderDecoderCacheManager.manager A) Q s m :
  enc s = DecoderOnly m → wp d (λ a m', Q a (set_enc (DecoderOnly m') s)) m → wp (on_enc d ed) Q s.
Proof. clear. intros He. unfold wp, on_enc. rewrite He. by destruct (d m) as [[] ?]. Qed.

(** The next feature needs nothing more. *)
Lemma li_next q computed new0 budget0 i v m f :
  loop_inv q computed new0 budget0 i v m → mm_features q !! i = Some f →
  (needed computed (v_num_new_tokens v) f → identifier f ∈ hashes_at q (picked v) ∨ referenced m q (identifier f)) →
  loop_inv q computed new0 budget0 (S i) v m.
Proof.
  intros [] Hf Hn. split; try done. intros j g Hj Hg Hneed. destruct (decide (j = i)) as [->|Hne].
  - simplify_eq. auto.
  - eapply li_cover0; [|done|done]. lia.
Qed.

(** The loop stops before [f] with [new] tokens, which do not reach it. *)
Lemma li_stop q computed new0 budget0 i v m f new :
  loop_inv q computed new0 budget0 i v m → encodable q → mm_features q !! i = Some f →
  0 ≤ new ≤ v_num_new_tokens v → new = 0 ∨ computed + new ≤ offset (mm_position f) →
  loop_inv q computed new0 budget0 (length (mm_features q)) (with_num_new_tokens new v) m.
Proof.
  intros [] Hq Hf Hnew Hbefore. split; try done; [simpl; lia|]. simpl.
  intros j g Hj Hg Hneed. destruct (decide (j < i)%nat).
  - eapply li_cover0; [done|done|]. eapply needed_mono; [|done]. lia.
  - exfalso. destruct Hneed as (p & Hp & Hr & _). pose proof (eb_sorted q Hq i j f g ltac:(lia) Hf Hg). lia.
Qed.

Lemma li_cached q computed new0 budget0 i v m m' :
  loop_inv q computed new0 budget0 i v m → enc_inv sz size m' →
  EncoderCacheManager.num_free_slots m ≤ EncoderCacheManager.num_free_slots m' →
  (∀ h, EncoderCacheManager.cached m !! h = None → EncoderCacheManager.cached m' !! h = None) →
  (∀ h, referenced m q h → referenced m' q h) →
  loop_inv q computed new0 budget0 i v m'.
Proof.
  intros [] Hi Hfree Hnone Href. split; try done; auto with lia. intros j f Hj Hf Hn.
  destruct (li_cover0 j f Hj Hf Hn) as [?|?]; [by left|right; auto].
Qed.

(** A new input is picked. *)
Lemma li_pick q computed new0 budget0 i v v' m f :
  loop_inv q computed new0 budget0 i v m → mm_features q !! i = Some f →
  identifier f ∉ mm_hashes_to_schedule v → EncoderCacheManager.cached m !! identifier f = None →
  sz (identifier f) + num_embeds_to_schedule v ≤ EncoderCacheManager.num_free_slots m →
  sz (identifier f) ≤ encoder_compute_budget v →
  v' = with_input (Z.of_nat i) (identifier f) (sz (identifier f)) v ∨
  v' = with_external (Z.of_nat i) (identifier f) (sz (identifier f)) v →
  loop_inv q computed new0 budget0 (S i) v' m.
Proof.
  intros [] Hf Hnew Hunc Hroom Hb Hv'.
  assert (Hg : py_get (mm_features q) (Z.of_nat i) = Some f) by (rewrite py_get_nonneg, Nat2Z.id by lia; done).
  assert (Hperm : picked v' ≡ₚ Z.of_nat i :: picked v).
  { destruct Hv' as [-> | ->]; unfold picked; simpl; solve_Permutation. }
  assert (Hh : hashes_at q (picked v') ≡ₚ identifier f :: hashes_at q (picked v)).
  { unfold hashes_at. rewrite Hperm. simpl. by rewrite Hg. }
  assert (Hset : ∀ h, h ∈ mm_hashes_to_schedule v' ↔ h = identifier f ∨ h ∈ mm_hashes_to_schedule v).
  { intros h. destruct Hv' as [-> | ->]; simpl; set_solver. }
  assert (Hemb : num_embeds_to_schedule v' = num_embeds_to_schedule v + sz (identifier f)) by (by destruct Hv' as [-> | ->]).
  assert (Hn : v_num_new_tokens v' = v_num_new_tokens v) by (by destruct Hv' as [-> | ->]).
  rewrite li_hashes0 in Hnew. split.
  - done.
  - intros j. rewrite Hperm, elem_of_cons. intros [->|Hj]; [split; [lia|by eexists]|auto].
  - intros h. rewrite Hset, Hh, elem_of_cons, li_hashes0. done.
  - rewrite Hh. by constructor.
  - intros h. rewrite Hh, elem_of_cons. intros [->|Hin]; auto.
  - rewrite Hemb, (sumZ_perm _ (sz (identifier f) :: (sz <$> hashes_at q (picked v)))).
    + rewrite sumZ_cons. lia.
    + by rewrite Hh.
  - lia.
  - destruct Hv' as [-> | ->]; simpl; [|done]. rewrite (hashes_at_snoc q _ _ f Hg), fmap_app, sumZ_app.
    unfold sumZ at 2. simpl. lia.
  - pose proof (inv_pos _ _ _ li_inv0 (identifier f)). destruct Hv' as [-> | ->]; simpl; lia.
  - by rewrite Hn.
  - intros j g Hj Hg' Hneed. rewrite Hn in Hneed. rewrite Hh, elem_of_cons. destruct (decide (j = i)) as [->|Hne].
    + simplify_eq. by left; left.
    + destruct (li_cover0 j g ltac:(lia) Hg' Hneed); [left; by right|by right].
Qed.

Lemma li_after_check q computed new0 budget0 i v m m' f refs :
  loop_inv q computed new0 budget0 i v m → enc_inv sz size m' →
  EncoderCacheManager.num_free_slots m' = EncoderCacheManager.num_free_slots m →
  EncoderCacheManager.cached m !! identifier f = Some refs →
  EncoderCacheManager.cached m' = <[identifier f := refs ∪ {[request_id q]}]> (EncoderCacheManager.cached m) →
  loop_inv q computed new0 budget0 i v m' ∧ referenced m' q (identifier f).
Proof.
  intros Hl Hi Hfree Hc Hc'. split.
  - eapply li_cached; [done|done|lia|..].
    + intros h Hh. rewrite Hc', lookup_insert_ne; [done|]. intros <-. congruence.
    + intros h (refs' & Hr & Hin). unfold referenced. rewrite Hc'. destruct (decide (identifier f = h)) as [<-|Hne].
      * rewrite lookup_insert_eq. eexists. split; [done|]. set_solver.
      * rewrite lookup_insert_ne by done. by exists refs'.
  - unfold referenced. rewrite Hc', lookup_insert_eq. eexists. split; [done|]. set_solver.
Qed.

Lemma li_after_evict q computed new0 budget0 i v m m' k :
  loop_inv q computed new0 budget0 i v m → enc_inv sz size m' → evicted k m m' → loop_inv q computed new0 budget0 i v m'.
Proof.
  intros Hl Hi [H1 H2 H3 H4 H5 H6]. pose proof (li_inv _ _ _ _ _ _ _ Hl) as Hi0. eapply li_cached; [done|done|..].
  - rewrite H3. assert (0 ≤ sumZ (take k (EncoderCacheManager.freeable m)).*2); [|lia].
    apply sumZ_nonneg, Forall_fmap, Forall_forall. intros [h n] Hin%elem_of_take_in.
    apply (inv_unref _ _ _ Hi0) in Hin as [_ ->]. simpl. apply (inv_pos _ _ _ Hi0).
  - intros h Hh. rewrite H6. by case_decide.
  - intros h (refs & Hr & Hin). exists refs. rewrite H6, decide_False; [done|].
    intros ([h' n] & -> & Hx%elem_of_take_in)%list_elem_of_fmap.
    apply (inv_unref _ _ _ Hi0) in Hx as [Hx _]. simpl in Hr. rewrite Hr in Hx. apply (inj Some) in Hx. set_solver.
Qed.

(** A feature whose tokens are computed, or that has no embedding in the range. *)
Lemma not_needed_done computed new f :
  offset (mm_position f) + length_ (mm_position f) ≤ computed → ¬ needed computed new f.
Proof. intros Hd (p & Hp & Hr & _). lia. Qed.

Lemma not_needed_empty computed new f a b :
  mask_ok (mm_position f) → offset (mm_position f) < computed + new + 1 →
  computed < offset (mm_position f) + length_ (mm_position f) → 0 ≤ computed → 0 ≤ new →
  get_embeds_indices_in_range (mm_position f) (Z.max 0 (computed - offset (mm_position f)))
    (Z.min (length_ (mm_position f)) (computed + new - offset (mm_position f))) = Some (a, b) →
  b - a = 0 → ¬ needed computed new f.
Proof.
  intros Hm H1 H2 H3 H4 Hg Hab (p & Hp & Hr & He).
  destruct (no_embeds_in_range (mm_position f) (Z.max 0 (computed - offset (mm_position f)))
    (Z.min (length_ (mm_position f)) (computed + new - offset (mm_position f))) Hm) as (a' & b' & Hg' & Hno); [lia|lia|].
  rewrite Hg in Hg'. simplify_eq. apply (Hno Hab (p - offset (mm_position f))); [lia|done].
Qed.

Lemma encoder_loop_ok q computed new0 budget0 shift : ∀ fs i v m s,
  encodable q → 0 ≤ computed → 0 ≤ shift ≤ 1 → is_encoder_decoder (config_ s) = false →
  enc s = DecoderOnly m → drop i (mm_features q) = fs → (i ≤ length (mm_features q))%nat →
  loop_inv q computed new0 budget0 i v m →
  wp (encoder_loop q computed shift fs (Z.of_nat i) v) (λ v' s', ∃ m', s' = set_enc (DecoderOnly m') s ∧
    loop_inv q computed new0 budget0 (length (mm_features q)) v' m') s.
Proof.
  induction fs as [|f fs IH]; intros i v m s Hq Hcomp Hshift Hed Hs Hd Hil Hl; cbn [encoder_loop].
  { apply wp_ret. exists m. split; [destruct s; simpl in *; by subst|].
    assert (i = length (mm_features q)) as <-; [|done].
    assert (length (drop i (mm_features q)) = 0%nat) as Hz by (by rewrite Hd). rewrite length_drop in Hz. lia. }
  assert (Hf : mm_features q !! i = Some f).
  { rewrite <- (Nat.add_0_r i), <- lookup_drop, Hd. done. }
  pose proof (lookup_lt_Some _ _ _ Hf) as Hlt.
  assert (Hd' : drop (S i) (mm_features q) = fs) by (by rewrite (drop_S _ f i Hf) in Hd; simplify_eq).
  assert (Hget : py_get (mm_features q) (Z.of_nat i) = Some f) by (rewrite py_get_nonneg, Nat2Z.id by lia; done).
  assert (Hsz : get_num_embeds (mm_position f) = sz (identifier f)).
  { pose proof (eb_sized q Hq) as Hsd. unfold sized in Hsd. rewrite Forall_lookup in Hsd. by eapply Hsd. }
  assert (Hmask : mask_ok (mm_position f)).
  { pose proof (eb_mask q Hq) as Hmk. rewrite Forall_lookup in Hmk. by eapply Hmk. }
  pose proof (li_new _ _ _ _ _ _ _ Hl) as Hnew.
  assert (Hnext : ∀ v1 m1 s1, s1 = set_enc (DecoderOnly m1) s → loop_inv q computed new0 budget0 (S i) v1 m1 →
    wp (encoder_loop q computed shift fs (Z.of_nat i + 1) v1) (λ v' s', ∃ m', s' = set_enc (DecoderOnly m') s ∧
      loop_inv q computed new0 budget0 (length (mm_features q)) v' m') s1).
  { intros v1 m1 s1 -> Hl1. replace (Z.of_nat i + 1) with (Z.of_nat (S i)) by lia.
    eapply wp_mono; [eapply (IH (S i) v1 m1); try done; lia|]. intros v' s' (m' & -> & Hm'). by exists m'. }
  assert (Hsame : s = set_enc (DecoderOnly m) s) by (destruct s; simpl in *; by subst).
  apply wp_bind, wp_gets. destruct (Z.leb_spec (computed + v_num_new_tokens v + shift) (offset (mm_position f))).
  { apply wp_ret. exists m. split; [done|].
    assert (v = with_num_new_tokens (v_num_new_tokens v) v) as -> by (by destruct v).
    eapply li_stop; [done|done|done|lia|right; lia]. }
  rewrite Hed. cbn [andb]. apply wp_bind, wp_ret.
  destruct (Z.leb_spec (offset (mm_position f) + length_ (mm_position f)) computed) as [Hdone|Hopen].
  { eapply Hnext; [exact Hsame|]. eapply li_next; [done|done|]. intros Hn. by apply not_needed_done in Hn. }
  apply wp_bind. case_bool_decide as Hin.
  { apply wp_ret. eapply Hnext; [exact Hsame|]. eapply li_next; [done|done|]. intros _. left. by apply Hl. }
  eapply wp_on_enc; [done|]. eapply wp_mono; [by eapply check_and_update_cache_ok; [apply Hl|]|].
  intros b m1 (Hi1 & Hfree1 & Hb). destruct b.
  { destruct Hb as (refs & Hc & Hc'). destruct (li_after_check _ _ _ _ _ _ _ _ _ _ Hl Hi1 Hfree1 Hc Hc') as [Hl1 Href].
    eapply Hnext; [done|]. eapply li_next; [done|done|by right]. }
  destruct Hb as [Hunc ->]. rewrite <- Hsame.
  destruct (disable_chunked_mm_input (config_ s) && (computed <? offset (mm_position f)) &&
    (computed + v_num_new_tokens v <? offset (mm_position f) + length_ (mm_position f))).
  { apply wp_ret. exists m. split; [done|]. eapply li_stop; [done|done|done|lia|lia]. }
  apply wp_bind. eapply wp_on_enc; [done|].
  eapply wp_mono; [eapply can_allocate_ok; [apply Hl|apply Hq|lia|done]|].
  intros b m2 (Hi2 & Hiff & Hroom & k & Hev & _). pose proof (li_after_evict _ _ _ _ _ _ _ _ _ Hl Hi2 Hev) as Hl2.
  destruct b; cbn [negb].
  2:{ apply wp_ret. exists m2. split; [done|]. eapply li_stop; [done|done|done|..]; destruct (Z.ltb_spec (computed + shift) (offset (mm_position f))); lia. }
  destruct (proj1 Hiff eq_refl) as [Hbud _]. specialize (Hroom eq_refl). pose proof (proj1 Hmask) as Hlen0.
  destruct (no_embeds_in_range (mm_position f) (Z.max 0 (computed - offset (mm_position f)))
    (Z.min (length_ (mm_position f)) (computed + v_num_new_tokens v - offset (mm_position f))) Hmask)
    as (a & b & Hg & _); [lia|lia|].
  apply wp_bind. eapply wp_or_raise; [done|]. cbn [fst snd]. destruct (Z.eqb_spec (b - a) 0) as [Hab|Hab].
  { eapply Hnext; [done|]. eapply li_next; [done|done|]. intros Hn.
    exfalso. eapply not_needed_empty in Hn; [done|done|lia|lia|lia|lia|done|done]. }
  assert (Hunc2 : EncoderCacheManager.cached m2 !! identifier f = None) by (rewrite (ev_cached _ _ _ Hev); by case_decide).
  apply wp_bind, wp_gets. rewrite Hsz. case_match; (eapply Hnext; [done|]); (eapply li_pick; [done|done|done|done|lia|lia|]); tauto.
Qed.

(** Allocating fresh inputs for which there is room. *)
Lemma allocate_encoder_inputs_ok r q ids : ∀ m s,
  enc s = DecoderOnly m → obj s r = q → encodable q → enc_inv sz size m →
  (∀ j, j ∈ ids → 0 ≤ j ∧ is_Some (py_get (mm_features q) j)) → NoDup (hashes_at q ids) →
  (∀ h, h ∈ hashes_at q ids → EncoderCacheManager.cached m !! h = None) →
  sumZ (sz <$> hashes_at q ids) ≤ EncoderCacheManager.num_free_slots m →
  wp (allocate_encoder_inputs r ids) (λ _ s', ∃ m' ec, s' = set_ec_connector ec (set_enc (DecoderOnly m') s) ∧
    enc_inv sz size m' ∧
    EncoderCacheManager.num_free_slots m' = EncoderCacheManager.num_free_slots m - sumZ (sz <$> hashes_at q ids) ∧
    ∀ h, EncoderCacheManager.cached m' !! h =
      if decide (h ∈ hashes_at q ids) then Some {[request_id q]} else EncoderCacheManager.cached m !! h) s.
Proof.
  induction ids as [|i ids IH]; intros m s Hs Hr Hq Hi Hids Hnd Hun Hroom; unfold allocate_encoder_inputs; cbn [for_].
  { apply wp_ret. exists m, (ec_connector s). split; [destruct s; simpl in *; by subst|]. split; [done|].
    split; [simpl; lia|]. intros h. rewrite decide_False by (apply not_elem_of_nil). done. }
  destruct (Hids i) as [Hpos [f Hf]]; [by left|].
  assert (Hh : hashes_at q (i :: ids) = identifier f :: hashes_at q ids) by (unfold hashes_at; simpl; by rewrite Hf).
  rewrite Hh in Hnd, Hun, Hroom. rewrite fmap_cons, sumZ_cons in Hroom. apply NoDup_cons in Hnd as [Hni Hnd].
  assert (Hrest : 0 ≤ sumZ (sz <$> hashes_at q ids)).
  { apply sumZ_nonneg, Forall_fmap, Forall_forall. intros h _. apply (inv_pos _ _ _ Hi). }
  apply wp_bind, wp_bind, wp_gets. rewrite Hr. apply wp_bind. eapply wp_on_enc; [done|].
  eapply wp_mono; [eapply allocate_ok; [done|apply Hq|done|done|apply Hun; by left|lia]|].
  intros _ m1 (Hi1 & Hfree & Hc). apply wp_modify.
  set (s1 := match ec_connector _ with Some e => _ | None => _ end).
  assert (∃ ec, s1 = set_ec_connector ec (set_enc (DecoderOnly m1) s)) as (ec1 & Hs1).
  { unfold s1. simpl. destruct (ec_connector s) as [e|] eqn:He; [by eexists|].
    exists None. destruct s; simpl in *. by subst. }
  clearbody s1. subst s1. eapply wp_mono.
  { eapply (IH m1); [done|exact Hr|done|done|intros j Hj; apply Hids; by right|done| |].
    - intros h Hin. rewrite Hc, lookup_insert_ne; [apply Hun; by right|]. by intros <-.
    - lia. }
  intros _ s' (m' & ec & -> & Hi' & Hfree' & Hc'). exists m', ec. split; [done|]. split; [done|].
  rewrite Hh, fmap_cons, sumZ_cons. split; [lia|]. intros h. rewrite Hc', Hc.
  destruct (decide (h = identifier f)) as [->|Hne].
  - rewrite (decide_True (P := _ ∈ _ :: _)) by (by left). rewrite decide_False by done. apply lookup_insert_eq.
  - rewrite lookup_insert_ne by done. repeat case_decide; set_solver.
Qed.

(** C29: The encoder inputs of a step fit and are there.  For a decoder-only model whose
    encoder cache accounts for its space, [_try_schedule_encoder_inputs] and the
    allocation of the inputs it returns, those to encode and those the connector loads,
    raise nothing, in particular not the assertions of [allocate]; the number of tokens
    only shrinks, the compute budget is charged for the inputs to encode and not exceeded,
    and afterwards the cache holds, with a reference of the request, every input that has
    an embedding at a position the step computes. *)
Theorem encoder_inputs_available r s m computed new budget shift :
  enc s = DecoderOnly m → is_encoder_decoder (config_ s) = false → enc_inv sz size m → encodable (obj s r) →
  0 ≤ computed → 0 ≤ new → 0 ≤ budget → 0 ≤ shift ≤ 1 →
  wp ('(inputs, new', budget', external) ← _try_schedule_encoder_inputs (obj s r) computed new budget shift;
      _ ← allocate_encoder_inputs r inputs;
      _ ← allocate_encoder_inputs r external;
      mret (inputs, new', budget'))
    (λ '(inputs, new', budget') s', ∃ m', enc s' = DecoderOnly m' ∧ enc_inv sz size m' ∧
      0 ≤ new' ≤ new ∧ 0 ≤ budget' ∧ budget' = budget - sumZ (sz <$> hashes_at (obj s r) inputs) ∧
      ∀ f, f ∈ mm_features (obj s r) → needed computed new' f → referenced m' (obj s r) (identifier f)) s.
Proof.
  intros Hs Hed Hi Hq Hc Hn Hb Hsh. set (q := obj s r) in *. apply wp_bind. unfold _try_schedule_encoder_inputs.
  destruct ((new =? 0) || negb (has_encoder_inputs q)) eqn:Hz.
  { apply wp_ret, wp_bind, wp_ret, wp_bind, wp_ret, wp_ret. exists m. split_and!; try done; try lia; [simpl; lia|].
    intros f Hf (p & Hp & _). apply orb_true_iff in Hz as [Hz|Hz]; [lia|]. apply negb_true_iff in Hz.
    unfold has_encoder_inputs, num_encoder_inputs, len in Hz. destruct (mm_features q); [by apply elem_of_nil in Hf|done]. }
  apply orb_false_iff in Hz as [_ Hz%negb_false_iff]. apply wp_bind, wp_assert; [done|]. apply wp_bind.
  eapply wp_mono.
  { apply (encoder_loop_ok q computed new budget shift (mm_features q) 0 _ m); try done; [lia|].
    assert (0 ≤ EncoderCacheManager.num_free_slots m) by (apply Hi).
    split; simpl; try done; try lia.
    - by intros j ?%elem_of_nil.
    - set_solver.
    - constructor.
    - by intros h ?%elem_of_nil. }
  intros v s1 (m1 & -> & Hl). apply wp_ret. destruct Hl as [Hi1 Hids Hhs Hnd Hun Hem Hroom Hbud Hbp Hnew Hcov].
  assert (Hsplit : hashes_at q (picked v) =
    hashes_at q (encoder_inputs_to_schedule v) ++ hashes_at q (external_load_encoder_input v)) by apply omap_app.
  rewrite Hsplit in *. rewrite fmap_app, sumZ_app in Hem. apply NoDup_app in Hnd as (Hnd1 & Hdis & Hnd2).
  assert (Hpos : ∀ l, 0 ≤ sumZ (sz <$> hashes_at q l)).
  { intros l. apply sumZ_nonneg, Forall_fmap, Forall_forall. intros h _. apply (inv_pos _ _ _ Hi). }
  pose proof (Hpos (external_load_encoder_input v)).
  apply wp_bind. eapply wp_mono.
  { apply (allocate_encoder_inputs_ok r q _ m1); try done; [|set_solver|lia].
    intros j Hj. apply Hids. unfold picked. set_solver. }
  intros _ s2 (m2 & ec2 & -> & Hi2 & Hf2 & Hc2). apply wp_bind. eapply wp_mono.
  { apply (allocate_encoder_inputs_ok r q _ m2); try done; [| |lia].
    - intros j Hj. apply Hids. unfold picked. set_solver.
    - intros h Hin. rewrite Hc2, decide_False by set_solver. apply Hun. set_solver. }
  intros _ s3 (m3 & ec3 & -> & Hi3 & Hf3 & Hc3). apply wp_ret. exists m3. split_and!; try done; try lia.
  intros f [j Hj]%list_elem_of_lookup Hneed.
  destruct (Hcov j f (lookup_lt_Some _ _ _ Hj) Hj Hneed) as [Hin|(refs & Hr & Hm)].
  - exists {[request_id q]}. split; [|set_solver]. rewrite Hc3, Hc2. repeat case_decide; set_solver.
  - exists refs. split; [|done]. rewrite Hc3, Hc2. rewrite !decide_False; [done|..]; intros Hin;
      (rewrite Hun in Hr; [done|set_solver]).
Qed.
End Loop.

#[local] Existing Instances test_env test_sched_env.

(** A scheduler that knows the request with an image. *)
Definition image_scheduler : Scheduler :=
  put_obj 1 EncoderCacheFacts.image_request (get_ok (small_init false "fcfs" None None) I).

Lemma encoder_inputs_available_witness :
  wp ('(inputs, new', budget', external) ← _try_schedule_encoder_inputs (obj image_scheduler 1) 0 4 6 0;
      _ ← allocate_encoder_inputs 1 inputs;
      _ ← allocate_encoder_inputs 1 external;
      mret (inputs, new', budget'))
    (λ '(inputs, new', budget') s', ∃ m', enc s' = DecoderOnly m' ∧ 0 ≤ budget' ∧
      ∀ f, f ∈ mm_features (obj image_scheduler 1) → needed 0 new' f → referenced m' (obj image_scheduler 1) (identifier f))
    image_scheduler.
Proof.
  eapply wp_mono.
  - apply (encoder_inputs_available (λ _, 3) 6 1 image_scheduler (EncoderCacheManager.init 6) 0 4 6 0);
      [vm_compute; reflexivity|vm_compute; reflexivity|apply EncoderCacheFacts.init_inv; lia| |lia|lia|lia|lia].
    split; [by repeat constructor|repeat constructor; done|].
    intros [|j] [|k] f g Hjk; vm_compute; intros Hf Hg; [by simplify_eq|done|done|done].
  - intros [[inputs new'] budget'] s' (m' & H1 & _ & _ & H2 & _ & H3). exists m'. split_and!; done.
Defined.
