(* ===== verification/Schedule.v ===== *)
(** * Scheduling a step

    [Scheduler.schedule] of vllm/v1/core/sched/scheduler.py with the methods it calls: the
    requests that run are given tokens first, preempting others when blocks are short, then
    waiting requests are admitted; the output tells the workers what to compute. *)

From Stdlib Require Import QArith.
From S2P Require Import Prelude FreeQueue Request BlockHash BlockPool KVSpec CacheHit SingleType Coordinator KVManager RequestQueue SchedUtils EncoderCache SpecControl SchedOutput SchedState EncoderSched.

#[local] Open Scope Z_scope.
#[local] Set Default Proof Using "Type*".

(** ** The local variables of [schedule] *)

Record Step := mkStep {
  scheduled_new_reqs : list req_ref;
  scheduled_resumed_reqs : list req_ref;
  scheduled_running_reqs : list req_ref;
  preempted_reqs : list req_ref;
  req_to_new_blocks : list (string * KVCacheBlocks);
  num_scheduled_tokens : list (string * Z);
  token_budget : Z;
  scheduled_encoder_inputs : list (string * list Z);
  step_encoder_budget : Z;
  scheduled_spec_decode_tokens : list (string * spec_list);
  req_index : Z;
  scheduled_loras : gset Z;
  step_skipped_waiting : request_queue
}.

Definition set_scheduled_new_reqs (v : list req_ref) (l : Step) : Step :=
  mkStep
    v (scheduled_resumed_reqs l) (scheduled_running_reqs l) (preempted_reqs l)
    (req_to_new_blocks l) (num_scheduled_tokens l) (token_budget l)
    (scheduled_encoder_inputs l) (step_encoder_budget l) (scheduled_spec_decode_tokens
    l) (req_index l) (scheduled_loras l) (step_skipped_waiting l).
Definition set_scheduled_resumed_reqs (v : list req_ref) (l : Step) : Step :=
  mkStep
    (scheduled_new_reqs l) v (scheduled_running_reqs l) (preempted_reqs l)
    (req_to_new_blocks l) (num_scheduled_tokens l) (token_budget l)
    (scheduled_encoder_inputs l) (step_encoder_budget l) (scheduled_spec_decode_tokens
    l) (req_index l) (scheduled_loras l) (step_skipped_waiting l).
Definition set_scheduled_running_reqs (v : list req_ref) (l : Step) : Step :=
  mkStep
    (scheduled_new_reqs l) (scheduled_resumed_reqs l) v (preempted_reqs l)
    (req_to_new_blocks l) (num_scheduled_tokens l) (token_budget l)
    (scheduled_encoder_inputs l) (step_encoder_budget l) (scheduled_spec_decode_tokens
    l) (req_index l) (scheduled_loras l) (step_skipped_waiting l).
Definition set_preempted_reqs (v : list req_ref) (l : Step) : Step :=
  mkStep
    (scheduled_new_reqs l) (scheduled_resumed_reqs l) (scheduled_running_reqs l) v
    (req_to_new_blocks l) (num_scheduled_tokens l) (token_budget l)
    (scheduled_encoder_inputs l) (step_encoder_budget l) (scheduled_spec_decode_tokens
    l) (req_index l) (scheduled_loras l) (step_skipped_waiting l).
Definition set_req_to_new_blocks (v : list (string * KVCacheBlocks)) (l : Step) : Step :=
  mkStep
    (scheduled_new_reqs l) (scheduled_resumed_reqs l) (scheduled_running_reqs l)
    (preempted_reqs l) v (num_scheduled_tokens l) (token_budget l)
    (scheduled_encoder_inputs l) (step_encoder_budget l) (scheduled_spec_decode_tokens
    l) (req_index l) (scheduled_loras l) (step_skipped_waiting l).
Definition set_num_scheduled_tokens (v : list (string * Z)) (l : Step) : Step :=
  mkStep
    (scheduled_new_reqs l) (scheduled_resumed_reqs l) (scheduled_running_reqs l)
    (preempted_reqs l) (req_to_new_blocks l) v (token_budget l)
    (scheduled_encoder_inputs l) (step_encoder_budget l) (scheduled_spec_decode_tokens
    l) (req_index l) (scheduled_loras l) (step_skipped_waiting l).
Definition set_token_budget (v : Z) (l : Step) : Step :=
  mkStep
    (scheduled_new_reqs l) (scheduled_resumed_reqs l) (scheduled_running_reqs l)
    (preempted_reqs l) (req_to_new_blocks l) (num_scheduled_tokens l) v
    (scheduled_encoder_inputs l) (step_encoder_budget l) (scheduled_spec_decode_tokens
    l) (req_index l) (scheduled_loras l) (step_skipped_waiting l).
Definition set_scheduled_encoder_inputs (v : list (string * list Z)) (l : Step) : Step :=
  mkStep
    (scheduled_new_reqs l) (scheduled_resumed_reqs l) (scheduled_running_reqs l)
    (preempted_reqs l) (req_to_new_blocks l) (num_scheduled_tokens l) (token_budget l) v
    (step_encoder_budget l) (scheduled_spec_decode_tokens l) (req_index l)
    (scheduled_loras l) (step_skipped_waiting l).
Definition set_step_encoder_budget (v : Z) (l : Step) : Step :=
  mkStep
    (scheduled_new_reqs l) (scheduled_resumed_reqs l) (scheduled_running_reqs l)
    (preempted_reqs l) (req_to_new_blocks l) (num_scheduled_tokens l) (token_budget l)
    (scheduled_encoder_inputs l) v (scheduled_spec_decode_tokens l) (req_index l)
    (scheduled_loras l) (step_skipped_waiting l).
Definition set_scheduled_spec_decode_tokens (v : list (string * spec_list)) (l : Step) : Step :=
  mkStep
    (scheduled_new_reqs l) (scheduled_resumed_reqs l) (scheduled_running_reqs l)
    (preempted_reqs l) (req_to_new_blocks l) (num_scheduled_tokens l) (token_budget l)
    (scheduled_encoder_inputs l) (step_encoder_budget l) v (req_index l)
    (scheduled_loras l) (step_skipped_waiting l).
Definition set_req_index (v : Z) (l : Step) : Step :=
  mkStep
    (scheduled_new_reqs l) (scheduled_resumed_reqs l) (scheduled_running_reqs l)
    (preempted_reqs l) (req_to_new_blocks l) (num_scheduled_tokens l) (token_budget l)
    (scheduled_encoder_inputs l) (step_encoder_budget l) (scheduled_spec_decode_tokens
    l) v (scheduled_loras l) (step_skipped_waiting l).
Definition set_scheduled_loras (v : gset Z) (l : Step) : Step :=
  mkStep
    (scheduled_new_reqs l) (scheduled_resumed_reqs l) (scheduled_running_reqs l)
    (preempted_reqs l) (req_to_new_blocks l) (num_scheduled_tokens l) (token_budget l)
    (scheduled_encoder_inputs l) (step_encoder_budget l) (scheduled_spec_decode_tokens
    l) (req_index l) v (step_skipped_waiting l).
Definition set_step_skipped_waiting (v : request_queue) (l : Step) : Step :=
  mkStep
    (scheduled_new_reqs l) (scheduled_resumed_reqs l) (scheduled_running_reqs l)
    (preempted_reqs l) (req_to_new_blocks l) (num_scheduled_tokens l) (token_budget l)
    (scheduled_encoder_inputs l) (step_encoder_budget l) (scheduled_spec_decode_tokens
    l) (req_index l) (scheduled_loras l) v.

Section Schedule.
Context {E : Env} {SE : SchedEnv}.
Abbreviation MS := (M Scheduler).

(** The scheduler and the local variables. *)
Record Run := mkRun { sch : Scheduler; loc : Step }.
Abbreviation MR := (M Run).

Definition set_sch (s : Scheduler) (x : Run) : Run := mkRun s (loc x).
Definition set_loc (l : Step) (x : Run) : Run := mkRun (sch x) l.
Definition on_sch {A} : MS A → MR A := zoom sch set_sch.
Definition upd_loc (f : Step → Step) : MR unit := modify (λ x, set_loc (f (loc x)) x).

Inductive flow := Continue | Break.

(** ** Methods *)

Definition _mamba_block_aligned_split (c : SchedulerSettings) (request : Request)
    (num_new_tokens num_new_local_computed_tokens num_external_computed_tokens : Z) : result Z :=
  if negb (num_external_computed_tokens =? 0) then Raise AssertionError
  else
    let computed := num_computed_tokens request + num_new_local_computed_tokens + num_external_computed_tokens in
    if computed <? Z.max (num_prompt_tokens request) (num_tokens request - 1) then
      let block_size := cache_block_size c in
      let last_cache_position := num_tokens request - num_tokens request `mod` block_size in
      let last_cache_position :=
        if use_eagle_ c then Z.max (last_cache_position - block_size) 0 else last_cache_position in
      let after := computed + num_new_tokens in
      if after <? last_cache_position then Ok (num_new_tokens / block_size * block_size)
      else if (computed <? last_cache_position) && (last_cache_position <? after) then
        Ok (last_cache_position - computed)
      else Ok num_new_tokens
    else Ok num_new_tokens.

Definition lift_result {S A} (r : result A) : M S A := match r with Ok a => mret a | Raise e => raise e end.

Definition _preempt_request (r : req_ref) (timestamp : Z) : MS unit :=
  q ← get_req r;
  _ ← assert (bool_decide (status q = RUNNING));
  _ ← on_kv (kv_free q);
  _ ← enc_free q;
  _ ← upd_req r (set_status PREEMPTED);
  _ ← upd_req r (set_num_computed_tokens 0);
  spec ← gets (λ s, request_spec_tokens s r);
  _ ← (match spec with [] => mret tt | _ => assign_spec r [] end);
  _ ← upd_req r (λ q, set_num_preemptions (num_preemptions q + 1) q);
  c ← gets config_;
  _ ← (if s_log_stats c then on_req r (record_event EVENT_PREEMPTED timestamp) else mret tt);
  on_waiting (λ ops, prepend_request r).

(** [max(self.running, key=lambda r: (r.priority, r.arrival_time))]: the first of the
    largest. *)
Definition lower_priority (a b : Request) : bool :=
  (priority a <? priority b) || ((priority a =? priority b) && (arrival_time a <? arrival_time b)).
Definition pick_victim (s : Scheduler) (l : list req_ref) : option req_ref :=
  match l with
  | [] => None
  | x :: l => Some (foldl (λ best r, if lower_priority (obj s best) (obj s r) then r else best) x l)
  end.

Definition sum_encoder_embeds (q : Request) (ids : list Z) : MR Z :=
  l ← collect ids (λ i, lift_result (get_num_encoder_embeds q i)); mret (sumZ l).

(** The victim leaves the running list; what it was given in this step is taken back. *)
Definition take_victim : MR req_ref :=
  s ← gets sch;
  if decide (policy (config_ s) = PRIORITY) then
    victim ← or_raise ValueError (pick_victim s (running s));
    let q := obj s victim in
    let id := request_id q in
    _ ← on_sch (modify (λ s, set_running (remove_first victim (running s)) s));
    l ← gets loc;
    if bool_decide (victim ∈ scheduled_running_reqs l) then
      _ ← upd_loc (λ l, set_scheduled_running_reqs (remove_first victim (scheduled_running_reqs l)) l);
      n ← or_raise KeyError (od_get id (num_scheduled_tokens l));
      _ ← upd_loc (λ l, set_num_scheduled_tokens (od_del id (num_scheduled_tokens l))
                          (set_token_budget (token_budget l + n) l));
      _ ← or_raise KeyError (od_get id (req_to_new_blocks l));
      _ ← upd_loc (λ l, set_req_to_new_blocks (od_del id (req_to_new_blocks l)) l);
      _ ← upd_loc (λ l, set_scheduled_spec_decode_tokens (od_del id (scheduled_spec_decode_tokens l)) l);
      let inputs := od_get id (scheduled_encoder_inputs l) in
      _ ← upd_loc (λ l, set_scheduled_encoder_inputs (od_del id (scheduled_encoder_inputs l)) l);
      _ ← (match inputs with
           | None | Some [] => mret tt
           | Some ids =>
               n ← sum_encoder_embeds q ids;
               upd_loc (λ l, set_step_encoder_budget (step_encoder_budget l + n) l)
           end);
      _ ← upd_loc (λ l, set_req_index (req_index l - 1) l);
      mret victim
    else mret victim
  else
    victim ← or_raise IndexError (last (running s));
    _ ← on_sch (modify (λ s, set_running (take (length (running s) - 1) (running s)) s));
    mret victim.

(** [while True] of the running requests: every round without blocks preempts one. *)
Fixpoint allocate_or_preempt (fuel : nat) (r : req_ref) (num_new_tokens timestamp : Z) : MR (option KVCacheBlocks) :=
  match fuel with
  | O => raise OutOfFuel
  | S fuel =>
      s ← gets sch;
      new_blocks ← on_sch (on_kv (allocate_slots (obj s r) num_new_tokens 0 None
                                    (num_lookahead_tokens (config_ s)) 0 false 0));
      match new_blocks with
      | Some b => mret (Some b)
      | None =>
          victim ← take_victim;
          _ ← on_sch (_preempt_request victim timestamp);
          _ ← upd_loc (λ l, set_preempted_reqs (preempted_reqs l ++ [victim]) l);
          if decide (victim = r) then mret None else allocate_or_preempt fuel r num_new_tokens timestamp
      end
  end.

(** ** The running requests *)

(** The request has already produced all its tokens, whatever the step in flight gives. *)
Definition reached_max_tokens (q : Request) : bool :=
  (0 <? num_output_placeholders q) &&
  (num_prompt_tokens q + max_tokens q <=? num_computed_tokens q + 2 - num_output_placeholders q).

Definition capped (threshold n : Z) : Z := if (0 <? threshold) && (threshold <? n) then threshold else n.

Definition running_num_new_tokens (s : Scheduler) (r : req_ref) (budget : Z) : Z :=
  let q := obj s r in
  let n := tokens_with_spec s r + num_output_placeholders q - num_computed_tokens q in
  let n := Z.min (capped (long_prefill_token_threshold (config_ s)) n) budget in
  Z.min n (max_model_len (config_ s) - 1 - num_computed_tokens q).

Definition shift_of (c : SchedulerSettings) : Z := if use_eagle_ c then 1 else 0.

(** The draft tokens that are verified; the request gives its list away. *)
Definition schedule_spec_tokens (r : req_ref) (num_new_tokens : Z) : MR unit :=
  s ← gets sch;
  let q := obj s r in
  match request_spec_tokens s r with
  | [] => mret tt
  | tokens =>
      let n := num_new_tokens + num_computed_tokens q - num_tokens q - num_output_placeholders q in
      _ ← (if 0 <? n then
             let spec := if n <? len tokens then SpecOwn (py_slice tokens 0 n) else request_spec s r in
             upd_loc (λ l, set_scheduled_spec_decode_tokens
                             (od_set (request_id q) spec (scheduled_spec_decode_tokens l)) l)
           else mret tt);
      on_sch (assign_spec r [])
  end.

Definition schedule_encoder_inputs (r : req_ref) (inputs : list Z) (new_budget : Z) (external : list Z) : MR unit :=
  q ← on_sch (get_req r);
  _ ← (match inputs with
       | [] => mret tt
       | _ =>
           _ ← upd_loc (λ l, set_scheduled_encoder_inputs (od_set (request_id q) inputs (scheduled_encoder_inputs l)) l);
           _ ← on_sch (allocate_encoder_inputs r inputs);
           upd_loc (set_step_encoder_budget new_budget)
       end);
  match external with [] => mret tt | _ => on_sch (allocate_encoder_inputs r external) end.

(** One round of the loop over the running requests. *)
Definition schedule_running_one (step_active_k timestamp : Z) : MR flow :=
  x ← gets id;
  r ← or_raise IndexError (py_get (running (sch x)) (req_index (loc x)));
  let next : MR flow := _ ← upd_loc (λ l, set_req_index (req_index l + 1) l); mret Continue in
  _ ← (let spec := request_spec_tokens (sch x) r in
       if negb (len spec =? 0) && (step_active_k <? len spec) then on_sch (truncate_spec r step_active_k)
       else mret tt);
  x ← gets id;
  let s := sch x in
  let q := obj s r in
  if reached_max_tokens q then next
  else
    let n := running_num_new_tokens s r (token_budget (loc x)) in
    let budget := step_encoder_budget (loc x) in
    e ← (if has_encoder_inputs q then
           on_sch (_try_schedule_encoder_inputs q (num_computed_tokens q) n budget (shift_of (config_ s)))
         else mret ([], n, budget, []));
    let '(inputs, n, new_budget, external) := e in
    n ← (if need_mamba_block_aligned_split (config_ s) then
           lift_result (_mamba_block_aligned_split (config_ s) q n 0 0)
         else mret n);
    if n =? 0 then next
    else
      new_blocks ← allocate_or_preempt (S (length (running s))) r n timestamp;
      match new_blocks with
      | None => mret Break
      | Some blocks =>
          _ ← upd_loc (λ l, set_scheduled_running_reqs (scheduled_running_reqs l ++ [r]) l);
          _ ← upd_loc (λ l, set_req_to_new_blocks (od_set (request_id q) blocks (req_to_new_blocks l)) l);
          _ ← upd_loc (λ l, set_num_scheduled_tokens (od_set (request_id q) n (num_scheduled_tokens l)) l);
          _ ← upd_loc (λ l, set_token_budget (token_budget l - n) l);
          _ ← upd_loc (λ l, set_req_index (req_index l + 1) l);
          _ ← schedule_spec_tokens r n;
          _ ← schedule_encoder_inputs r inputs new_budget external;
          mret Continue
      end.

Fixpoint running_loop (fuel : nat) (step_active_k timestamp : Z) : MR unit :=
  match fuel with
  | O => raise OutOfFuel
  | S fuel =>
      x ← gets id;
      if (req_index (loc x) <? len (running (sch x))) && (0 <? token_budget (loc x)) then
        f ← schedule_running_one step_active_k timestamp;
        match f with Continue => running_loop fuel step_active_k timestamp | Break => mret tt end
      else mret tt
  end.

(** The LoRA adapters of the requests scheduled so far. *)
Definition collect_loras : MR unit :=
  x ← gets id;
  match max_loras (config_ (sch x)) with
  | None => mret tt
  | Some m =>
      let ids := omap (λ r, match lora_request (obj (sch x) r) with
                            | Some lr => if 0 <? lora_int_id lr then Some (lora_int_id lr) else None
                            | None => None
                            end) (scheduled_running_reqs (loc x)) in
      let loras : gset Z := list_to_set ids in
      _ ← upd_loc (set_scheduled_loras loras);
      assert (Z.of_nat (base.size loras) <=? m)
  end.

(** ** The waiting requests *)

Definition _is_blocked_waiting_status (st : RequestStatus) : bool :=
  match st with
  | WAITING_FOR_STRUCTURED_OUTPUT_GRAMMAR | WAITING_FOR_REMOTE_KVS | WAITING_FOR_STREAMING_REQ => true
  | _ => false
  end.

(** The queue a request is taken from. *)
Inductive which_queue := InWaiting | InSkipped.

Definition on_queue {A} (w : which_queue) (op : QueueOps request_queue → M request_queue A) : MS A :=
  match w with InWaiting => on_waiting op | InSkipped => on_skipped op end.

Definition _select_waiting_queue_for_scheduling : MS (option which_queue) :=
  s ← gets id;
  let w := queue_nonempty s (waiting s) in
  let k := queue_nonempty s (skipped_waiting s) in
  if decide (policy (config_ s) = FCFS) then
    mret (if k then Some InSkipped else if w then Some InWaiting else None)
  else if w && k then
    a ← on_waiting (λ ops, peek_request);
    b ← on_skipped (λ ops, peek_request);
    mret (Some (if request_lt (obj s a) (obj s b) then InWaiting else InSkipped))
  else mret (if w then Some InWaiting else if k then Some InSkipped else None).

Definition _update_waiting_for_remote_kv (r : req_ref) : MS unit :=
  s ← gets id;
  _ ← assert (bool_decide (is_Some (connector s)));
  let q := obj s r in
  let id := request_id q in
  _ ← (if decide (id ∈ failed_recving_kv_req_ids s) then
         _ ← (if negb (num_computed_tokens q =? 0) then on_kv (kv_cache_blocks q (num_computed_tokens q))
              else on_kv (kv_free q));
         modify (λ s, set_failed_recving_kv_req_ids (failed_recving_kv_req_ids s ∖ {[id]}) s)
       else
         _ ← on_kv (kv_cache_blocks q (num_computed_tokens q));
         if num_computed_tokens q =? num_tokens q then upd_req r (set_num_computed_tokens (num_tokens q - 1))
         else mret tt);
  s ← gets (λ s, s);
  if decide (id ∈ finished_recving_kv_req_ids s) then
    modify (λ s, set_finished_recving_kv_req_ids (finished_recving_kv_req_ids s ∖ {[id]}) s)
  else raise KeyError.

Definition _try_promote_blocked_waiting_request (r : req_ref) : MS bool :=
  s ← gets id;
  let q := obj s r in
  match status q with
  | WAITING_FOR_REMOTE_KVS =>
      if decide (request_id q ∈ finished_recving_kv_req_ids s) then
        _ ← _update_waiting_for_remote_kv r;
        _ ← upd_req r (λ q, set_status (if num_preemptions q =? 0 then WAITING else PREEMPTED) q);
        mret true
      else mret false
  | WAITING_FOR_STRUCTURED_OUTPUT_GRAMMAR =>
      if bool_decide (is_Some (structured_output_request q)) && grammar_ready q then
        _ ← upd_req r (set_status WAITING); mret true
      else mret false
  | WAITING_FOR_STREAMING_REQ =>
      _ ← assert (match streaming_queue q with None | Some [] => true | _ => false end);
      mret false
  | _ => raise AssertionError
  end.

(** The request at the head of a queue is put aside for this step. *)
Definition skip_request (w : which_queue) (r : req_ref) : MR flow :=
  _ ← on_sch (on_queue w (λ ops, pop_request));
  s ← gets sch;
  x ← gets id;
  let '(o, k) := @prepend_request _ (request_queue_ops (obj s)) r (step_skipped_waiting (loc x)) in
  _ ← lift_result o;
  _ ← upd_loc (set_step_skipped_waiting k);
  mret Continue.

(** [request.prefill_stats.set(...)] on the first scheduling *)
Definition set_first_prefill_stats (r : req_ref) (local external : Z) : MS unit :=
  q ← get_req r;
  match prefill_stats q with
  | None => mret tt
  | Some _ =>
      _ ← assert (local + external <=? num_prompt_tokens q);
      _ ← assert (local + external <=? num_prompt_tokens q);
      upd_req r (set_prefill_stats (Some (mkPrefillStats (num_prompt_tokens q)
        (num_prompt_tokens q - (local + external)) (local + external) local external)))
  end.

(** What the caches hold of a request: blocks, the local and external number of tokens,
    whether they are loaded asynchronously, and the figures for the statistics; [None]
    when the connector can not tell yet. *)
Definition cached_tokens (r : req_ref) : MS (option (KVCacheBlocks * Z * Z * bool * Z * Z * Z)) :=
  q ← get_req r;
  if num_computed_tokens q =? 0 then
    '(blocks, local) ← on_kv (get_computed_blocks q);
    s ← gets id;
    ext ← (match connector s with
           | None => mret (Some (0, false, 0, 0))
           | Some conn =>
               let '((tokens, async), conn) := get_num_new_matched_tokens q local conn in
               _ ← modify (set_connector (Some conn));
               match tokens with
               | None => mret None
               | Some n => mret (Some (n, async, num_tokens q - local, n))
               end
           end);
    match ext with
    | None => mret None
    | Some (external, async, queries, hits) =>
        let total := local + external in
        _ ← assert (total <=? num_tokens q);
        _ ← set_first_prefill_stats r local external;
        mret (Some (blocks, local, external, async, total, queries, hits))
    end
  else mret (Some (EmptyBlocks, 0, 0, false, num_computed_tokens q, 0, 0)).

(** How many tokens a waiting request is given, with its encoder inputs; [None] when it
    can not be scheduled. *)
Definition waiting_num_new_tokens (r : req_ref) (computed : Z) (load_kv_async : bool) (external : Z) :
    MR (option (list Z * Z * Z * list Z)) :=
  x ← gets id;
  let s := sch x in
  let q := obj s r in
  let budget := step_encoder_budget (loc x) in
  if load_kv_async then
    _ ← assert (0 <? external); mret (Some ([], 0, budget, []))
  else
    let n := capped (long_prefill_token_threshold (config_ s)) (num_tokens q - computed) in
    if negb (enable_chunked_prefill (config_ s)) && (token_budget (loc x) <? n) then mret None
    else
      let n := Z.min n (token_budget (loc x)) in
      _ ← assert (0 <? n);
      if has_encoder_inputs q then
        '(inputs, n, new_budget, ext) ← on_sch (_try_schedule_encoder_inputs q computed n budget (shift_of (config_ s)));
        mret (if n =? 0 then None else Some (inputs, n, new_budget, ext))
      else mret (Some ([], n, budget, [])).

(** The request gives up its references to encoder outputs. *)
Definition untouch_encoder (r : req_ref) : MS unit :=
  q ← get_req r;
  if has_encoder_inputs q then enc_free q else mret tt.

(** [connector.update_state_after_alloc] and its statistics *)
Definition tell_connector (r : req_ref) (external queries hits : Z) : MS unit :=
  s ← gets id;
  match connector s with
  | None => mret tt
  | Some conn =>
      let q := obj s r in
      _ ← modify (set_connector (Some (conn_update_state_after_alloc q (get_blocks (kv s) (request_id q)) external conn)));
      match connector_prefix_cache_stats s with
      | Some stats =>
          if negb (queries =? 0) then
            modify (set_connector_prefix_cache_stats (Some (record queries hits (0 <? num_preemptions q) stats)))
          else mret tt
      | None => mret tt
      end
  end.

(** The request was given its blocks: it starts to run. *)
Definition start_request (w : which_queue) (r : req_ref) (n computed : Z) (inputs : list Z) (new_budget : Z)
    (external_inputs : list Z) (timestamp : Z) : MR flow :=
  _ ← on_sch (modify (λ s, set_running (running s ++ [r]) s));
  s ← gets sch;
  _ ← (if s_log_stats (config_ s) then on_sch (on_req r (record_event SCHEDULED timestamp)) else mret tt);
  let q := obj s r in
  _ ← (match status q with
       | WAITING => upd_loc (λ l, set_scheduled_new_reqs (scheduled_new_reqs l ++ [r]) l)
       | PREEMPTED => upd_loc (λ l, set_scheduled_resumed_reqs (scheduled_resumed_reqs l ++ [r]) l)
       | _ => raise RuntimeError
       end);
  _ ← (match max_loras (config_ s), lora_request q with
       | Some _, Some lr => upd_loc (λ l, set_scheduled_loras (scheduled_loras l ∪ {[lora_int_id lr]}) l)
       | _, _ => mret tt
       end);
  _ ← upd_loc (λ l, set_req_to_new_blocks
                      (od_set (request_id q) (get_blocks (kv s) (request_id q)) (req_to_new_blocks l)) l);
  _ ← upd_loc (λ l, set_num_scheduled_tokens (od_set (request_id q) n (num_scheduled_tokens l)) l);
  _ ← upd_loc (λ l, set_token_budget (token_budget l - n) l);
  _ ← on_sch (upd_req r (set_status RUNNING));
  _ ← on_sch (upd_req r (set_num_computed_tokens computed));
  _ ← schedule_encoder_inputs r inputs new_budget external_inputs;
  mret Continue.

Definition exceeds_max_loras (s : Scheduler) (l : Step) (q : Request) : bool :=
  match max_loras (config_ s), lora_request q with
  | Some m, Some lr =>
      (Z.of_nat (base.size (scheduled_loras l)) =? m) && negb (bool_decide (lora_int_id lr ∈ scheduled_loras l))
  | _, _ => false
  end.

(** Blocks for a request, if they are there, and its start. *)
Definition give_blocks (w : which_queue) (r : req_ref) (blocks : KVCacheBlocks) (local external : Z)
    (load_kv_async : bool) (computed queries hits : Z) (inputs : list Z) (n new_budget : Z)
    (external_inputs : list Z) (timestamp : Z) : MR flow :=
  s ← gets sch;
  let q := obj s r in
  let lookahead := if num_computed_tokens q =? 0 then 0 else num_lookahead_tokens (config_ s) in
  num_encoder_tokens ← (match inputs with
                        | [] => mret 0
                        | _ => if is_encoder_decoder (config_ s) && has_encoder_inputs q
                               then sum_encoder_embeds q inputs else mret 0
                        end);
  fits ← (if scheduler_reserve_full_isl (config_ s) then
            on_sch (on_kv (can_fit_full_sequence q local (Some blocks) external num_encoder_tokens))
          else mret true);
  if negb fits then _ ← on_sch (untouch_encoder r); mret Break
  else
    new_blocks ← on_sch (on_kv (allocate_slots q n local (Some blocks) lookahead external
                                  load_kv_async num_encoder_tokens));
    match new_blocks with
    | None => _ ← on_sch (untouch_encoder r); mret Break
    | Some _ =>
        _ ← on_sch (tell_connector r external queries hits);
        r ← on_sch (on_queue w (λ ops, pop_request));
        if load_kv_async then
          _ ← on_sch (upd_req r (set_status WAITING_FOR_REMOTE_KVS));
          s ← gets sch;
          x ← gets id;
          let '(o, k) := @prepend_request _ (request_queue_ops (obj s)) r (step_skipped_waiting (loc x)) in
          _ ← lift_result o;
          _ ← upd_loc (set_step_skipped_waiting k);
          _ ← on_sch (upd_req r (set_num_computed_tokens computed));
          mret Continue
        else start_request w r n computed inputs new_budget external_inputs timestamp
    end.

(** A request that may start: what is cached of it, and its number of tokens. *)
Definition schedule_ready_request (w : which_queue) (r : req_ref) (timestamp : Z) : MR flow :=
  ct ← on_sch (cached_tokens r);
  match ct with
  | None => skip_request w r
  | Some (blocks, local, external, load_kv_async, computed, queries, hits) =>
      e ← waiting_num_new_tokens r computed load_kv_async external;
      match e with
      | None => mret Break
      | Some (inputs, n, new_budget, external_inputs) =>
          s ← gets sch;
          let c := config_ s in
          n ← (if need_mamba_block_aligned_split c then
                 lift_result (_mamba_block_aligned_split c (obj s r) n local external)
               else mret n);
          if need_mamba_block_aligned_split c && (n =? 0) then mret Break
          else give_blocks w r blocks local external load_kv_async computed queries hits
                 inputs n new_budget external_inputs timestamp
      end
  end.

(** One round of the loop over the waiting requests. *)
Definition schedule_waiting_one (timestamp : Z) : MR flow :=
  x ← gets id;
  if len (running (sch x)) =? max_num_running_reqs (config_ (sch x)) then mret Break
  else
    ow ← on_sch _select_waiting_queue_for_scheduling;
    w ← or_raise AssertionError ow;
    r ← on_sch (on_queue w (λ ops, peek_request));
    q ← on_sch (get_req r);
    ready ← (if _is_blocked_waiting_status (status q) then on_sch (_try_promote_blocked_waiting_request r)
             else mret true);
    if negb ready then skip_request w r
    else
      x ← gets id;
      let s := sch x in
      let q := obj s r in
      if exceeds_max_loras s (loc x) q then skip_request w r
      else schedule_ready_request w r timestamp.

Fixpoint waiting_loop (fuel : nat) (timestamp : Z) : MR unit :=
  match fuel with
  | O => raise OutOfFuel
  | S fuel =>
      x ← gets id;
      let s := sch x in
      if (queue_nonempty s (waiting s) || queue_nonempty s (skipped_waiting s)) && (0 <? token_budget (loc x)) then
        f ← schedule_waiting_one timestamp;
        match f with Continue => waiting_loop fuel timestamp | Break => mret tt end
      else mret tt
  end.

(** The second half of [schedule]: no new request starts in a step that preempts one. *)
Definition schedule_waiting (timestamp : Z) : MR unit :=
  x ← gets id;
  let s := sch x in
  if bool_decide (preempted_reqs (loc x) = []) && bool_decide (_pause_state s = UNPAUSED) then
    _ ← waiting_loop (S (Z.to_nat (queue_size s (waiting s) + queue_size s (skipped_waiting s)))) timestamp;
    x ← gets id;
    if queue_nonempty (sch x) (step_skipped_waiting (loc x)) then
      on_sch (on_skipped (λ ops, prepend_requests (queue_list (sch x) (step_skipped_waiting (loc x)))))
    else mret tt
  else mret tt.

(** ** The output of the step *)

(** One request of [_make_cached_request_data]; [resumed] from the second list on. *)
Definition cached_request_one (resumed : bool) (r : req_ref) (d : CachedRequestData) : MR CachedRequestData :=
  x ← gets id;
  let s := sch x in
  let q := obj s r in
  let id := request_id q in
  let c := config_ s in
  new_token_ids ←
    (if use_pp c && negb (async_scheduling c) then
       n ← or_raise KeyError (od_get id (num_scheduled_tokens (loc x)));
       let spec := match od_get id (scheduled_spec_decode_tokens (loc x)) with
                   | Some l => len (spec_tokens s l) | None => 0 end in
       mret (cr_new_token_ids d ++
             [py_slice (_all_token_ids q) (num_computed_tokens q) (num_computed_tokens q + (n - spec))])
     else mret (cr_new_token_ids d));
  let before := bool_decide (id ∈ prev_step_scheduled_req_ids s) in
  _ ← (if resumed then assert (negb before) else mret tt);
  blocks ← or_raise KeyError (od_get id (req_to_new_blocks (loc x)));
  mret (mkCachedRequestData (cr_req_ids d ++ [id])
    (if resumed then cr_resumed_req_ids d ∪ {[id]} else cr_resumed_req_ids d)
    new_token_ids
    (if before then cr_all_token_ids d else od_set id (_all_token_ids q) (cr_all_token_ids d))
    (cr_new_block_ids d ++ [get_block_ids (num_kv_cache_groups (kv s)) (k_pool (kv s)) true blocks])
    (cr_num_computed_tokens d ++ [num_computed_tokens q])
    (cr_num_output_tokens d ++ [num_output_tokens q + num_output_placeholders q])).

Fixpoint cached_request_loop (resumed : bool) (l : list req_ref) (d : CachedRequestData) : MR CachedRequestData :=
  match l with
  | [] => mret d
  | r :: l => d ← cached_request_one resumed r d; cached_request_loop resumed l d
  end.
Definition _make_cached_request_data (running_reqs resumed_reqs : list req_ref) : MR CachedRequestData :=
  d ← cached_request_loop false running_reqs empty_cached_request_data;
  cached_request_loop true resumed_reqs d.

Definition new_request_one (r : req_ref) : MR NewRequestData :=
  x ← gets id;
  let s := sch x in
  let q := obj s r in
  blocks ← or_raise KeyError (od_get (request_id q) (req_to_new_blocks (loc x)));
  let ids := default [] (get_block_ids (num_kv_cache_groups (kv s)) (k_pool (kv s)) false blocks) in
  mret (new_request_data q ids (if use_v2_model_runner (config_ s) then Some (_all_token_ids q) else None)).

(** [_update_after_schedule] of the base class: the flag tells whether a scheduled request
    with structured output samples a token. *)
Definition after_schedule_one (has : bool) (id : string) (n : Z) : MS bool :=
  r ← requests_at id;
  _ ← upd_req r (λ q, set_num_computed_tokens (num_computed_tokens q + n) q);
  _ ← upd_req r (λ q, set_is_prefill_chunk
        (num_computed_tokens q <? num_tokens q + num_output_placeholders q) q);
  q ← get_req r;
  mret (has || (use_structured_output q && negb (is_prefill_chunk q))).
Fixpoint after_schedule_loop (l : list (string * Z)) (has : bool) : MS bool :=
  match l with
  | [] => mret has
  | (id, n) :: l => has ← after_schedule_one has id n; after_schedule_loop l has
  end.

(** [AsyncScheduler._update_after_schedule] *)
Definition async_after_schedule_one (spec : list (string * spec_list)) (pending : bool) (id : string) : MS bool :=
  r ← requests_at id;
  q ← get_req r;
  if is_prefill_chunk q then mret pending
  else
    s ← gets (λ s, s);
    let pending := pending || (use_structured_output q && (0 <? num_output_placeholders q)) in
    let cur := match od_get id spec with Some l => len (spec_tokens s l) | None => 0 end in
    _ ← upd_req r (set_num_output_placeholders (num_output_placeholders q + (1 + cur)));
    _ ← share_spec r;
    mret pending.
Fixpoint async_after_schedule_loop (spec : list (string * spec_list)) (l : list (string * Z)) (pending : bool) : MS bool :=
  match l with
  | [] => mret pending
  | (id, _) :: l => p ← async_after_schedule_one spec pending id; async_after_schedule_loop spec l p
  end.

Definition _update_after_schedule (o : SchedulerOutput ConnMeta) : MS (SchedulerOutput ConnMeta) :=
  has ← after_schedule_loop (out_num_scheduled_tokens o) (out_has_structured_output_requests o);
  _ ← modify (set_finished_req_ids ∅);
  c ← gets config_;
  pending ← (if is_async_scheduler c then
               async_after_schedule_loop (out_scheduled_spec_decode_tokens o) (out_num_scheduled_tokens o)
                 (out_pending_structured_output_tokens o)
             else mret (out_pending_structured_output_tokens o));
  mret (set_out_flags has pending o).

(** The checks at the end of the step. *)
Definition check_constraints : MR Z :=
  x ← gets id;
  let l := loc x in
  let c := config_ (sch x) in
  let total := sumZ (num_scheduled_tokens l).*2 in
  _ ← assert (total <=? max_num_scheduled_tokens c);
  _ ← assert (0 <=? token_budget l);
  _ ← assert (len (running (sch x)) <=? max_num_running_reqs c);
  _ ← assert (len (scheduled_new_reqs l) + len (scheduled_resumed_reqs l) + len (scheduled_running_reqs l)
              <=? len (running (sch x)));
  mret total.

(** The [SchedulerOutput] of the step. *)
Definition build_output (step_active_k total : Z) : MR (SchedulerOutput ConnMeta) :=
  x ← gets id;
  let s := sch x in
  common ← (match running s with
            | [] => mret (replicate (num_kv_cache_groups (kv s)) 0)
            | r :: _ => on_sch (on_kv (kv_get_num_common_prefix_blocks (request_id (obj s r))))
            end);
  _ ← (if use_v2_model_runner (config_ s) then
         upd_loc (λ l, set_scheduled_resumed_reqs []
                         (set_scheduled_new_reqs (scheduled_new_reqs l ++ scheduled_resumed_reqs l) l))
       else mret tt);
  l ← gets loc;
  new_reqs_data ← collect (scheduled_new_reqs l) new_request_one;
  cached_reqs_data ← _make_cached_request_data (scheduled_running_reqs l) (scheduled_resumed_reqs l);
  _ ← on_sch (modify (set_prev_step_scheduled_req_ids (list_to_set (num_scheduled_tokens l).*1)));
  zero ← (if needs_zeroing (config_ s) then
            ids ← on_sch (on_kv kv_take_new_block_ids);
            mret (match ids with [] => None | _ => Some ids end)
          else mret None);
  freed ← on_sch enc_get_freed_mm_hashes;
  s ← gets sch;
  mret (mkSchedulerOutput ConnMeta step_active_k new_reqs_data cached_reqs_data (num_scheduled_tokens l) total
          (scheduled_spec_decode_tokens l) (scheduled_encoder_inputs l) common (finished_req_ids s) freed
          (list_to_set ((λ r, request_id (obj s r)) <$> preempted_reqs l)) false false None None None zero).

(** The connectors see the output and add their metadata. *)
Definition add_connector_meta (o : SchedulerOutput ConnMeta) : MS (SchedulerOutput ConnMeta) :=
  c ← gets connector;
  o ← (match c with
       | None => mret o
       | Some c => let '(m, c) := conn_build_meta o c in
                   _ ← modify (set_connector (Some c)); mret (set_out_kv_meta (Some m) o)
       end);
  c ← gets ec_connector;
  match c with
  | None => mret o
  | Some c => let '(m, c) := ec_build_meta o c in
              _ ← modify (set_ec_connector (Some c)); mret (set_out_ec_meta (Some m) o)
  end.

Definition schedule_run (timestamp : Z) : MR (SchedulerOutput ConnMeta) :=
  s ← gets sch;
  let step_active_k := active_num_spec_tokens s in
  _ ← on_sch (on_kv kv_new_step_starts);
  _ ← running_loop (S (length (running s))) step_active_k timestamp;
  _ ← collect_loras;
  _ ← schedule_waiting timestamp;
  total ← check_constraints;
  o ← build_output step_active_k total;
  o ← on_sch (add_connector_meta o);
  on_sch (_update_after_schedule o).

(** [Scheduler.schedule]; the timestamp is the time read at its start. *)
Definition schedule (timestamp : Z) : MS (SchedulerOutput ConnMeta) := λ s,
  let budget := if decide (_pause_state s = PAUSED_ALL) then 0 else max_num_scheduled_tokens (config_ s) in
  let l := mkStep [] [] [] [] [] [] budget [] (max_num_encoder_input_tokens (config_ s)) [] 0 ∅
             (create_request_queue (policy (config_ s))) in
  let '(o, x) := schedule_run timestamp (mkRun s l) in (o, sch x).
End Schedule.
