(* ===== verification/SchedRequests.v ===== *)
(** * Requests that arrive, stop and leave

    The methods of vllm/v1/core/sched/scheduler.py around a step: [add_request],
    [finish_requests] and what frees a request, streaming sessions, the reset of the caches
    and the counters, and the handling of blocks whose transfer failed.  The time read by a
    method is an argument. *)

From Stdlib Require Import QArith.
From S2P Require Import Prelude FreeQueue Request BlockHash BlockPool KVSpec CacheHit SingleType Coordinator KVManager RequestQueue SchedUtils EncoderCache SpecControl SchedOutput SchedState EncoderSched Schedule.

#[local] Open Scope Z_scope.
#[local] Set Default Proof Using "Type*".

(** A dictionary with integer keys, in the order of insertion. *)
Section IntDict.
Context {V : Type}.
Fixpoint zd_get (k : Z) (d : list (Z * V)) : option V :=
  match d with
  | [] => None
  | (k', v) :: d => if decide (k = k') then Some v else zd_get k d
  end.
Fixpoint zd_set (k : Z) (v : V) (d : list (Z * V)) : list (Z * V) :=
  match d with
  | [] => [(k, v)]
  | (k', v') :: d => if decide (k = k') then (k, v) :: d else (k', v') :: zd_set k v d
  end.
End IntDict.

Section Requests.
Context {E : Env} {SE : SchedEnv} (block_hasher : option (M Request (list bytes))).
Abbreviation MS := (M Scheduler).

(** ** Streaming sessions *)

(** The features of an update, moved behind the tokens of the session. *)
Definition shift_feature (base : Z) (f : MultiModalFeatureSpec) : MultiModalFeatureSpec :=
  mkFeature (modality f) (identifier f)
    (mkPlaceholderRange (offset (mm_position f) + base) (length_ (mm_position f)) (is_embed (mm_position f))).

Definition session_update (update : StreamingUpdate) : M Request unit :=
  q ← gets id;
  let computed := num_computed_tokens q in
  let kept := py_slice (_all_token_ids q) (num_prompt_tokens q) computed in
  _ ← modify (λ q, set_all_token_ids (py_slice (_all_token_ids q) 0 computed) q);
  _ ← modify (set_output_token_ids []);
  prompt ← or_raise AssertionError (prompt_token_ids q);
  _ ← modify (set_prompt_token_ids (Some (prompt ++ kept)));
  _ ← modify (λ q, set_mm_features (mm_features q ++ (shift_feature (num_tokens q) <$> default [] (su_mm_features update))) q);
  let new := default [] (su_prompt_token_ids update) in
  _ ← modify (λ q, set_all_token_ids (_all_token_ids q ++ new) q);
  _ ← modify (set_prompt_token_ids (Some (prompt ++ kept ++ new)));
  _ ← update_block_hashes block_hasher;
  _ ← modify (set_num_prompt_tokens (len (prompt ++ kept ++ new)));
  _ ← modify (set_arrival_time (su_arrival_time update));
  modify (set_sampling_params (su_sampling_params update)).

Definition _update_request_as_session (r : req_ref) (update : StreamingUpdate) (now : Z) : MS unit :=
  _ ← on_req r (session_update update);
  q ← get_req r;
  _ ← (if decide (status q = WAITING_FOR_STREAMING_REQ) then
         modify (λ s, set_num_waiting_for_streaming_input (num_waiting_for_streaming_input s - 1) s)
       else mret tt);
  _ ← upd_req r (set_status WAITING);
  c ← gets config_;
  if s_log_stats c then on_req r (record_event QUEUED now) else mret tt.

Definition _enqueue_waiting_request (r : req_ref) : MS unit :=
  q ← get_req r;
  if _is_blocked_waiting_status (status q) then on_skipped (λ ops, RequestQueue.add_request r)
  else on_waiting (λ ops, RequestQueue.add_request r).

Definition _handle_stopped_request (r : req_ref) (now : Z) : MS bool :=
  q ← get_req r;
  if negb (resumable q) then mret true
  else
    match default [] (streaming_queue q) with
    | None :: rest => _ ← upd_req r (set_streaming_queue (Some rest)); mret true
    | Some update :: rest =>
        _ ← upd_req r (set_streaming_queue (Some rest));
        _ ← _update_request_as_session r update now;
        _ ← _enqueue_waiting_request r;
        mret false
    | [] =>
        _ ← upd_req r (set_status WAITING_FOR_STREAMING_REQ);
        _ ← modify (λ s, set_num_waiting_for_streaming_input (num_waiting_for_streaming_input s + 1) s);
        _ ← _enqueue_waiting_request r;
        mret false
    end.

(** ** Freeing a request *)

Definition _connector_finished (r : req_ref) : MS (bool * option string) :=
  s ← gets id;
  match connector s with
  | None => mret (false, None)
  | Some _ =>
      let q := obj s r in
      _ ← on_kv (kv_remove_skipped_blocks (request_id q) (num_computed_tokens q));
      s ← gets (λ s, s);
      block_ids ← or_raise AssertionError (kv_get_block_ids (kv s) (request_id q));
      ids ← (if supports_hma then mret block_ids
             else _ ← assert (bool_decide (num_kv_cache_groups (kv s) = 1%nat)); mret (take 1 block_ids));
      c ← or_raise AttributeError (connector s);
      let '(o, c) := conn_request_finished (obj s r) ids c in
      _ ← modify (set_connector (Some c));
      mret o
  end.

Definition _free_blocks (r : req_ref) : MS unit :=
  q ← get_req r;
  _ ← assert (is_finished q);
  _ ← on_kv (kv_free q);
  s ← gets (λ s, s);
  _ ← or_raise KeyError (requests_get s (request_id q));
  modify (λ s, set_s_requests (od_del (request_id q) (s_requests s)) s).

Definition _free_request (r : req_ref) (delay_free_blocks : bool) : MS (option string) :=
  q ← get_req r;
  _ ← assert (is_finished q);
  '(delay, params) ← _connector_finished r;
  _ ← enc_free q;
  let id := request_id q in
  _ ← modify (λ s, set_finished_req_ids (finished_req_ids s ∪ {[id]}) s);
  _ ← modify (λ s, set_finished_req_ids_dict
        ((λ d, zd_set (client_index q) (default ∅ (zd_get (client_index q) d) ∪ {[id]}) d) <$>
           finished_req_ids_dict s) s);
  _ ← (if delay_free_blocks || delay then mret tt else _free_blocks r);
  mret params.

(** The argument [request_ids]: a string, an iterable or [None]. *)
Inductive finish_ids := FinishOne (id : string) | FinishSet (ids : list string) | FinishAll.

(** The requests to finish, those that run and those that wait. *)
Fixpoint collect_finished (ids : list string) (acc : list req_ref * gset req_ref * list req_ref) :
    MS (list req_ref * gset req_ref * list req_ref) :=
  match ids with
  | [] => mret acc
  | id :: ids =>
      s ← gets (λ s, s);
      match requests_get s id with
      | None => collect_finished ids acc
      | Some r =>
          let '(valid, run, wait) := acc in
          let q := obj s r in
          if is_finished q then collect_finished ids acc
          else if decide (status q = RUNNING) then collect_finished ids (valid ++ [r], run ∪ {[r]}, wait)
          else
            _ ← (if decide (status q = WAITING_FOR_STREAMING_REQ) then
                   modify (λ s, set_num_waiting_for_streaming_input (num_waiting_for_streaming_input s - 1) s)
                 else mret tt);
            collect_finished ids (valid ++ [r], run, wait ++ [r])
      end
  end.

Definition finish_one (finished_status : RequestStatus) (r : req_ref) : MS unit :=
  s ← gets (λ s, s);
  let q := obj s r in
  let id := request_id q in
  delay ← (if decide (status q = WAITING_FOR_REMOTE_KVS) then
             let delay := negb (bool_decide (id ∈ finished_recving_kv_req_ids s)) in
             _ ← modify (λ s, set_finished_recving_kv_req_ids (finished_recving_kv_req_ids s ∖ {[id]}) s);
             _ ← modify (λ s, set_failed_recving_kv_req_ids (failed_recving_kv_req_ids s ∖ {[id]}) s);
             mret delay
           else mret false);
  _ ← upd_req r (set_status finished_status);
  _ ← _free_request r delay;
  mret tt.

Definition finish_requests (request_ids : finish_ids) (finished_status : RequestStatus) : MS (list (string * Z)) :=
  _ ← assert (status_is_finished finished_status);
  s ← gets (λ s, s);
  let ids := match request_ids with
             | FinishOne id => [id]
             | FinishSet ids => str_set_iter (remove_dups ids)
             | FinishAll => (s_requests s).*1
             end in
  '(valid, run, wait) ← collect_finished ids ([], ∅, []);
  _ ← (if decide (run = ∅) then mret tt else modify (λ s, set_running (remove_all (running s) run) s));
  _ ← (match wait with
       | [] => mret tt
       | _ => _ ← on_waiting (λ ops, remove_requests wait); on_skipped (λ ops, remove_requests wait)
       end);
  _ ← for_ valid (finish_one finished_status);
  gets (λ s, (λ r, (request_id (obj s r), client_index (obj s r))) <$> valid).

(** [add_request]: the new object takes its place in the store. *)
Definition add_request (q : Request) (now : Z) : MS unit :=
  s ← gets (λ s, s);
  match requests_get s (request_id q) with
  | Some existing =>
      let e := obj s existing in
      let update := streaming_update_from_request q in
      if decide (status e = WAITING_FOR_STREAMING_REQ) then
        match update with
        | Some u => _update_request_as_session existing u now
        | None => _ ← finish_requests (FinishOne (request_id q)) FINISHED_ABORTED; mret tt
        end
      else
        queue ← or_raise AssertionError (streaming_queue e);
        upd_req existing (set_streaming_queue (Some (queue ++ [update])))
  | None =>
      let r := object_id q in
      _ ← modify (put_obj r (if resumable q then set_streaming_queue (Some []) q else q));
      _ ← _enqueue_waiting_request r;
      _ ← modify (λ s, set_s_requests (od_set (request_id q) r (s_requests s)) s);
      c ← gets config_;
      if s_log_stats c then on_req r (record_event QUEUED now) else mret tt
  end.

(** ** Counters *)

Definition get_request_counts (s : Scheduler) : Z * Z :=
  (len (running s), queue_size s (waiting s) + queue_size s (skipped_waiting s)).

Definition set_pause_state_of (p : PauseState) : MS unit := modify (set_pause_state p).

Definition get_num_unfinished_requests (s : Scheduler) : Z :=
  match _pause_state s with
  | PAUSED_ALL => 0
  | PAUSED_NEW => len (running s)
  | UNPAUSED =>
      queue_size s (waiting s) + queue_size s (skipped_waiting s) - num_waiting_for_streaming_input s
      + len (running s)
  end.
Definition has_unfinished_requests (s : Scheduler) : bool := 0 <? get_num_unfinished_requests s.
Definition has_finished_requests (s : Scheduler) : bool := 0 <? Z.of_nat (base.size (finished_req_ids s)).
Definition has_requests (s : Scheduler) : bool := has_unfinished_requests s || has_finished_requests s.

(** ** Resets *)

Definition reset_connector_cache : MS bool :=
  s ← gets (λ s, s);
  match connector s with
  | None => mret false
  | Some c =>
      let '(ok, c) := conn_reset_cache c in
      _ ← modify (set_connector (Some c));
      match ok with
      | Some false => mret false
      | _ =>
          if s_log_stats (config_ s) then
            stats ← or_raise AssertionError (connector_prefix_cache_stats s);
            _ ← modify (set_connector_prefix_cache_stats (Some (mark_reset stats)));
            mret true
          else mret true
      end
  end.

(** [while self.running]: the last request is preempted first. *)
Fixpoint preempt_all (fuel : nat) (timestamp : Z) : MS unit :=
  match fuel with
  | O => raise OutOfFuel
  | S fuel =>
      s ← gets (λ s, s);
      match last (running s) with
      | None => mret tt
      | Some r =>
          _ ← modify (λ s, set_running (take (length (running s) - 1) (running s)) s);
          _ ← _preempt_request r timestamp;
          _ ← upd_req r (set_num_output_placeholders 0);
          _ ← upd_req r (set_discard_latest_async_tokens true);
          preempt_all fuel timestamp
      end
  end.

Definition reset_prefix_cache (reset_running_requests reset_connector : bool) (timestamp : Z) : MS bool :=
  s ← gets (λ s, s);
  _ ← (if reset_running_requests then
         _ ← preempt_all (S (length (running s))) timestamp;
         modify (set_prev_step_scheduled_req_ids ∅)
       else mret tt);
  ok ← on_kv kv_reset_prefix_cache;
  if reset_running_requests && negb ok then raise RuntimeError
  else if reset_connector then
    ok' ← reset_connector_cache; mret (ok' && ok)
  else mret ok.

Definition reset_encoder_cache : MS unit := enc_reset.

(** ** Statistics *)

Definition make_spec_decoding_stats (stats : option SpecDecodingStats) (num_draft_tokens num_accepted_tokens : Z)
    (num_invalid_spec_tokens : option (list (string * Z))) (request_id : string) : MS (option SpecDecodingStats) :=
  c ← gets config_;
  if negb (s_log_stats c) || (num_draft_tokens =? 0) then mret None
  else
    let stats := default (spec_stats_new (num_spec_tokens c)) stats in
    let num_draft_tokens :=
      match num_invalid_spec_tokens with
      | None => num_draft_tokens
      | Some d => num_draft_tokens - default 0 (od_get request_id d)
      end in
    let '(o, stats) := observe_draft num_draft_tokens num_accepted_tokens stats in
    _ ← lift_result o;
    mret (Some stats).

Definition drain_metrics : MS (list KVCacheEvictionEvent) :=
  on_kv (on_block_pool (λ p,
    match metrics_collector p with
    | None => (Ok [], p)
    | Some m => let '(evs, m) := drain_events m in (Ok evs, set_metrics_collector (Some m) p)
    end)).

Definition make_stats (spec_decoding_stats : option SpecDecodingStats) (kv_connector_stats : option string) :
    MS (option (SchedulerStats * list KVCacheEvictionEvent)) :=
  c ← gets config_;
  if negb (s_log_stats c) then mret None
  else
    ps ← on_kv make_prefix_cache_stats;
    ps ← or_raise AssertionError ps;
    cs ← gets connector_prefix_cache_stats;
    _ ← (match cs with
         | None => mret tt
         | Some _ => modify (set_connector_prefix_cache_stats (Some new_stats))
         end);
    evictions ← drain_metrics;
    s ← gets (λ s, s);
    mret (Some (mkSchedulerStats (len (running s)) (queue_size s (waiting s)) (queue_size s (skipped_waiting s))
                  (usage (kv s)) ps cs spec_decoding_stats kv_connector_stats, evictions)).

(** ** Blocks whose transfer failed *)

(** What the scan of the requests accumulates: the affected requests, the number of their
    tokens, the blocks to evict and the blocks some request will compute again. *)
Record inv_vars := mkInvVars {
  affected_req_ids : list string;
  total_affected_tokens : Z;
  blocks_to_evict : list Z;
  marked_invalid_block_ids : gset Z
}.

(** One block of a request: the flags are [is_affected] and [marked_invalid_block]. *)
Definition invalid_block_one (r : req_ref) (invalid : gset Z) (evict : bool) (req_block_ids : list Z)
    (req_num_computed_tokens : Z) (v : inv_vars) (flags : bool * bool) (idx : nat) (block_id : Z) :
    MS (inv_vars * (bool * bool)) :=
  if negb (bool_decide (block_id ∈ invalid)) then mret (v, flags)
  else if bool_decide (block_id ∈ marked_invalid_block_ids v) then mret (v, (true, flags.2))
  else
    let marked := marked_invalid_block_ids v ∪ {[block_id]} in
    if flags.2 then
      mret (mkInvVars (affected_req_ids v) (total_affected_tokens v) (blocks_to_evict v) marked, (true, true))
    else
      c ← gets config_;
      let computed := Z.of_nat idx * s_block_size c in
      _ ← upd_req r (set_num_computed_tokens computed);
      mret (mkInvVars (affected_req_ids v) (total_affected_tokens v + (req_num_computed_tokens - computed))
              (if evict then remove_dups (blocks_to_evict v ++ drop idx req_block_ids) else blocks_to_evict v) marked,
            (true, true)).

Fixpoint invalid_block_loop (r : req_ref) (invalid : gset Z) (evict : bool) (req_block_ids : list Z)
    (req_num_computed_tokens : Z) (l : list (nat * Z)) (v : inv_vars) (flags : bool * bool) :
    MS (inv_vars * (bool * bool)) :=
  match l with
  | [] => mret (v, flags)
  | (idx, block_id) :: l =>
      '(v, flags) ← invalid_block_one r invalid evict req_block_ids req_num_computed_tokens v flags idx block_id;
      invalid_block_loop r invalid evict req_block_ids req_num_computed_tokens l v flags
  end.

Definition invalid_blocks_request (invalid : gset Z) (num_scheduled_tokens : list (string * Z)) (evict : bool)
    (v : inv_vars) (r : req_ref) : MS inv_vars :=
  s ← gets (λ s, s);
  let q := obj s r in
  let id := request_id q in
  groups ← or_raise AssertionError (kv_get_block_ids (kv s) id);
  ids ← (match groups with [ids] => mret ids | _ => raise ValueError end);
  let bs := s_block_size (config_ s) in
  let computed := num_computed_tokens q - default 0 (od_get id num_scheduled_tokens) in
  let n := Z.to_nat ((computed + bs - 1) / bs) in
  '(v, (is_affected, marked)) ←
    invalid_block_loop r invalid evict ids computed (zip (seq 0 n) ids) v (false, false);
  if negb is_affected then mret v
  else
    v ← (if marked : bool then mret v
         else
           q ← get_req r;
           _ ← upd_req r (set_num_computed_tokens computed);
           mret (mkInvVars (affected_req_ids v) (total_affected_tokens v + (num_computed_tokens q - computed))
                   (blocks_to_evict v) (marked_invalid_block_ids v)));
    mret (mkInvVars (remove_dups (affected_req_ids v ++ [id])) (total_affected_tokens v) (blocks_to_evict v)
            (marked_invalid_block_ids v)).

Fixpoint invalid_blocks_loop (invalid : gset Z) (num_scheduled_tokens : list (string * Z)) (evict : bool)
    (l : list req_ref) (v : inv_vars) : MS inv_vars :=
  match l with
  | [] => mret v
  | r :: l =>
      v ← invalid_blocks_request invalid num_scheduled_tokens evict v r;
      invalid_blocks_loop invalid num_scheduled_tokens evict l v
  end.

Definition _update_requests_with_invalid_blocks (l : list req_ref) (invalid : gset Z)
    (num_scheduled_tokens : list (string * Z)) (evict : bool) : MS inv_vars :=
  invalid_blocks_loop invalid num_scheduled_tokens evict l (mkInvVars [] 0 [] ∅).

Definition _handle_invalid_blocks (invalid_ids : list Z) (num_scheduled_tokens : list (string * Z)) : MS (list string) :=
  s ← gets (λ s, s);
  let invalid : gset Z := list_to_set invalid_ids in
  let async_reqs := filter (λ r, status (obj s r) = WAITING_FOR_REMOTE_KVS) (queue_list s (skipped_waiting s)) in
  a ← _update_requests_with_invalid_blocks async_reqs invalid num_scheduled_tokens false;
  b ← _update_requests_with_invalid_blocks (running s) invalid num_scheduled_tokens true;
  match affected_req_ids a, affected_req_ids b with
  | [], [] => mret []
  | _, _ =>
      let fail := negb (recompute_kv_load_failures (config_ s)) in
      _ ← (match blocks_to_evict b with
           | [] => mret tt
           | ids => if fail then on_kv (kv_evict_blocks (set_iter ids)) else mret tt
           end);
      if fail then mret (remove_dups (affected_req_ids a ++ affected_req_ids b))
      else
        _ ← modify (λ s, set_failed_recving_kv_req_ids
                           (failed_recving_kv_req_ids s ∪ list_to_set (affected_req_ids a)) s);
        mret (affected_req_ids b)
  end.

(** Transfers that ended: the blocks of a request that was sent are freed, a request that
    was received may run. *)
Definition _update_from_kv_xfer_finished (o : KVConnectorOutput) : MS unit :=
  c ← gets connector;
  _ ← (match c with
       | None => mret tt
       | Some c => modify (set_connector (Some (conn_update_output o c)))
       end);
  _ ← for_ (finished_recving o) (λ id,
        s ← gets (λ s, s);
        r ← or_raise AssertionError (requests_get s id);
        if decide (status (obj s r) = WAITING_FOR_REMOTE_KVS) then
          modify (λ s, set_finished_recving_kv_req_ids (finished_recving_kv_req_ids s ∪ {[id]}) s)
        else _ ← assert (is_finished (obj s r)); _free_blocks r);
  for_ (finished_sending o) (λ id,
        s ← gets (λ s, s);
        r ← or_raise AssertionError (requests_get s id);
        _free_blocks r).
End Requests.
