(* ===== verification/SchedUpdate.v ===== *)
(** * After a step

    [update_from_output] of vllm/v1/core/sched/scheduler.py: the tokens the model produced
    are appended to their requests, rejected draft tokens are taken back, requests that
    stop are freed, and the outputs for the clients are built.  Also the two methods that
    receive draft tokens, and the overrides of async_scheduler.py. *)

From Stdlib Require Import QArith.
From S2P Require Import Prelude FreeQueue Request BlockHash BlockPool KVSpec CacheHit SingleType Coordinator KVManager RequestQueue SchedUtils EncoderCache SpecControl SchedOutput SchedState EncoderSched Schedule SchedRequests.

#[local] Open Scope Z_scope.
#[local] Set Default Proof Using "Type*".

Section Update.
Context {E : Env} {SE : SchedEnv} (block_hasher : option (M Request (list bytes))).
Abbreviation MS := (M Scheduler).

(** ** Structured output *)

(** [StructuredOutputManager.should_advance]: the tokens of the reasoning part do not
    advance the grammar. *)
Definition should_advance : M Request bool :=
  q ← gets id;
  match structured_output_request q with
  | None => mret false
  | Some so =>
      if negb (has_reasoner q) || enable_in_reasoning then mret true
      else if default false (reasoning_ended so) then mret true
      else
        let delta_from := num_computed_tokens q - num_output_placeholders q in
        let all := _all_token_ids q in
        let start := if 0 <=? delta_from then delta_from else Z.max (len all + delta_from) 0 in
        _ ← (if is_reasoning_end_streaming q all (drop (Z.to_nat start) all) then
               modify (set_structured_output_request (Some (mkStructuredOutputRequest (so_params so) (Some true))))
             else mret tt);
        mret false
  end.

Definition get_grammar_bitmask (o : SchedulerOutput ConnMeta) (s : Scheduler) : option (list string * string) :=
  if negb (out_has_structured_output_requests o) then None
  else
    let ids := filter (λ id, match requests_get s id with
                             | Some r => use_structured_output (obj s r) && negb (is_prefill_chunk (obj s r))
                             | None => false
                             end = true) (out_num_scheduled_tokens o).*1 in
    match ids with
    | [] => None
    | _ => Some (ids, grammar_bitmask ids (out_scheduled_spec_decode_tokens o))
    end.

(** ** Draft tokens *)

Definition update_draft_one (req_id : string) (tokens : list Z) : MS unit :=
  s ← gets (λ s, s);
  match requests_get s req_id with
  | None => mret tt
  | Some r =>
      let q := obj s r in
      if is_finished q then mret tt
      else if is_prefill_chunk q then
        match request_spec_tokens s r with [] => mret tt | _ => assign_spec r [] end
      else
        advance ← on_req r should_advance;
        let tokens := if advance : bool then grammar_validate_tokens (obj s r) tokens else tokens in
        let tokens := if bool_decide (is_Some (spec_token_controller s))
                      then py_slice tokens 0 (active_num_spec_tokens s) else tokens in
        assign_spec r tokens
  end.
Definition update_draft_token_ids (d : DraftTokenIds) : MS unit :=
  for_ (zip (dt_req_ids d) (dt_draft_token_ids d)) (λ p, update_draft_one p.1 p.2).

(** The placeholders of a scheduled request are replaced by as many draft tokens, -1 for
    those that are missing; the dictionaries are those of the output. *)
Definition draft_in_output_one (req_id : string) (tokens : list Z)
    (acc : list (string * spec_list) * list (string * Z)) : MS (list (string * spec_list) * list (string * Z)) :=
  s ← gets (λ s, s);
  match requests_get s req_id with
  | None => mret acc
  | Some r =>
      let '(sched, invalid) := acc in
      if is_finished (obj s r) then mret acc
      else
        match od_get req_id sched with
        | None => mret acc
        | Some l =>
            let n := len (spec_tokens s l) in
            if n =? 0 then mret acc
            else
              let tokens := py_slice tokens 0 n in
              advance ← on_req r should_advance;
              let tokens := if advance : bool then grammar_validate_tokens (obj s r) tokens else tokens in
              let missing := n - len tokens in
              mret (od_set req_id (SpecOwn (tokens ++ replicate (Z.to_nat missing) (-1))) sched,
                    if missing =? 0 then invalid else od_set req_id missing invalid)
        end
  end.
Fixpoint draft_in_output_loop (l : list (string * list Z)) (acc : list (string * spec_list) * list (string * Z)) :
    MS (list (string * spec_list) * list (string * Z)) :=
  match l with
  | [] => mret acc
  | (id, tokens) :: l => acc ← draft_in_output_one id tokens acc; draft_in_output_loop l acc
  end.
Definition update_draft_token_ids_in_output (d : DraftTokenIds) (o : SchedulerOutput ConnMeta) :
    MS (SchedulerOutput ConnMeta) :=
  '(sched, invalid) ← draft_in_output_loop (zip (dt_req_ids d) (dt_draft_token_ids d))
                        (out_scheduled_spec_decode_tokens o, []);
  mret (set_out_spec sched (Some invalid) o).

(** ** One request of the step *)

(** [_update_request_with_output], of the class of the scheduler. *)
Definition base_update_request (r : req_ref) (new_token_ids : list Z) : MS (list Z * bool) :=
  c ← gets config_;
  on_req r (_update_request_with_output block_hasher (max_model_len c) new_token_ids).

Definition async_update_request (r : req_ref) (new_token_ids : list Z) : MS (list Z * bool) :=
  q ← get_req r;
  if discard_latest_async_tokens q then
    _ ← upd_req r (set_discard_latest_async_tokens false); mret ([], false)
  else
    '(tokens, stopped) ← base_update_request r new_token_ids;
    _ ← upd_req r (λ q, set_num_output_placeholders (num_output_placeholders q - len tokens) q);
    q' ← get_req r;
    _ ← assert (0 <=? num_output_placeholders q');
    _ ← (if decide (status q = RUNNING) then
           on_kv (kv_cache_blocks q' (num_computed_tokens q' - num_output_placeholders q'))
         else mret tt);
    mret (tokens, stopped).

Definition update_request_with_output (r : req_ref) (new_token_ids : list Z) : MS (list Z * bool) :=
  c ← gets config_;
  if is_async_scheduler c then async_update_request r new_token_ids else base_update_request r new_token_ids.

(** [_get_routed_experts]: the slots of the tokens in the attention group, in order. *)
Definition slot_mapping (block_size : Z) (block_ids : list Z) (num_tokens : Z) : list Z :=
  py_slice (concat ((λ b, (λ o, o + b * block_size) <$> seqZ 0 block_size) <$> block_ids)) 0 num_tokens.
Definition _get_routed_experts (r : req_ref) : MS (option string) :=
  s ← gets (λ s, s);
  match routed_experts_attn (config_ s) with
  | None => mret None
  | Some (gid, bs) =>
      let q := obj s r in
      groups ← or_raise AssertionError (kv_get_block_ids (kv s) (request_id q));
      ids ← or_raise IndexError (groups !! gid);
      mret (Some (get_routed_experts (slot_mapping bs ids (num_tokens q - 1))))
  end.

(** The variables of the loop. *)
Record upd_vars := mkUpdVars {
  outputs : list (Z * list EngineCoreOutput);
  u_spec_stats : option SpecDecodingStats;
  stopped_running_reqs : gset req_ref;
  stopped_preempted_reqs : gset req_ref;
  step_draft_tokens : Z;
  step_accepted_tokens : Z
}.

Definition append_output (client : Z) (o : EngineCoreOutput) (l : list (Z * list EngineCoreOutput)) :
    list (Z * list EngineCoreOutput) := zd_set client (default [] (zd_get client l) ++ [o]) l.

(** The draft tokens that were not accepted are taken back. *)
Definition account_spec (o : SchedulerOutput ConnMeta) (req_id : string) (r : req_ref) (generated : list Z)
    (v : upd_vars) : MS upd_vars :=
  s ← gets (λ s, s);
  match spec_tokens s <$> od_get req_id (out_scheduled_spec_decode_tokens o), generated with
  | None, _ | Some [], _ | _, [] => mret v
  | Some tokens, _ =>
      let num_draft := len tokens in
      let num_accepted := len generated - 1 in
      let invalid := match out_num_invalid_spec_tokens o with
                     | None => 0
                     | Some d => default 0 (od_get req_id d)
                     end in
      let effective_draft := Z.max (num_draft - invalid) 0 in
      let effective_accepted := Z.min (Z.max num_accepted 0) effective_draft in
      let num_rejected := num_draft - num_accepted in
      _ ← upd_req r (λ q, if 0 <? num_computed_tokens q
                          then set_num_computed_tokens (num_computed_tokens q - num_rejected) q else q);
      _ ← upd_req r (λ q, if 0 <? num_output_placeholders q
                          then set_num_output_placeholders (num_output_placeholders q - num_rejected) q else q);
      stats ← make_spec_decoding_stats (u_spec_stats v) num_draft num_accepted (out_num_invalid_spec_tokens o) req_id;
      mret (mkUpdVars (outputs v) stats (stopped_running_reqs v) (stopped_preempted_reqs v)
              (step_draft_tokens v + effective_draft) (step_accepted_tokens v + effective_accepted))
  end.

(** A grammar that rejects the tokens ends the request. *)
Definition advance_grammar (r : req_ref) (new_token_ids : list Z) (stopped : bool) : MS bool :=
  match new_token_ids with
  | [] => mret stopped
  | _ =>
      advance ← on_req r should_advance;
      if advance : bool then
        q ← get_req r;
        _ ← assert (bool_decide (is_Some (structured_output_request q)) && grammar_ready q);
        if grammar_accept_tokens q new_token_ids then mret stopped
        else
          _ ← upd_req r (set_status FINISHED_ERROR);
          _ ← upd_req r (set_resumable false);
          mret true
      else mret stopped
  end.

(** The stopped request is freed, or waits for the rest of its session. *)
Definition stop_request (r : req_ref) (status_before_stop : RequestStatus) (now : Z) (v : upd_vars) :
    MS (upd_vars * option string * option FinishReason * option string) :=
  routed ← _get_routed_experts r;
  q ← get_req r;
  finished ← _handle_stopped_request block_hasher r now;
  params ← (if finished : bool then _free_request r false else mret None);
  mret (if decide (status_before_stop = RUNNING)
        then mkUpdVars (outputs v) (u_spec_stats v) (stopped_running_reqs v ∪ {[r]}) (stopped_preempted_reqs v)
               (step_draft_tokens v) (step_accepted_tokens v)
        else mkUpdVars (outputs v) (u_spec_stats v) (stopped_running_reqs v) (stopped_preempted_reqs v ∪ {[r]})
               (step_draft_tokens v) (step_accepted_tokens v),
        routed, get_finished_reason q, params).

(** The output for the client, when there is any. *)
Definition emit_output (mro : ModelRunnerOutput) (req_id : string) (r : req_ref) (new_token_ids : list Z) (stopped : bool)
    (pooler_output routed : option string) (finish_reason : option FinishReason) (params : option string)
    (v : upd_vars) : MS upd_vars :=
  _ ← (match od_get req_id (mro_num_nans_in_logits mro) with
       | Some n => upd_req r (set_num_nans_in_logits n)
       | None => mret tt
       end);
  let has_prompt_logprobs := bool_decide (req_id ∈ mro_prompt_logprobs mro) in
  if negb (bool_decide (new_token_ids = [])) || bool_decide (is_Some pooler_output)
     || bool_decide (is_Some params) || stopped then
    evs ← on_req r Request.take_events;
    ps ← on_req r take_prefill_stats;
    q ← get_req r;
    let out := mkEngineCoreOutput req_id new_token_ids has_prompt_logprobs pooler_output finish_reason
                 (stop_reason q) evs params ps routed (num_nans_in_logits q) in
    mret (mkUpdVars (append_output (client_index q) out (outputs v)) (u_spec_stats v)
            (stopped_running_reqs v) (stopped_preempted_reqs v) (step_draft_tokens v) (step_accepted_tokens v))
  else
    _ ← assert (negb has_prompt_logprobs);
    mret v.

Definition update_one (o : SchedulerOutput ConnMeta) (mro : ModelRunnerOutput) (failed : list string) (now : Z)
    (v : upd_vars) (req_id : string) (num_tokens_scheduled : Z) : MS upd_vars :=
  _ ← assert (0 <? num_tokens_scheduled);
  if bool_decide (req_id ∈ failed) then mret v
  else
    s ← gets (λ s, s);
    match requests_get s req_id with
    | None => mret v
    | Some r =>
        if is_finished (obj s r) then mret v
        else
          req_index ← or_raise KeyError (od_get req_id (mro_req_id_to_index mro));
          generated ← (match mro_sampled_token_ids mro with
                       | [] => mret []
                       | l => or_raise IndexError (py_get l req_index)
                       end);
          v ← account_spec o req_id r generated v;
          q ← get_req r;
          _ ← (if has_encoder_inputs q then _free_encoder_inputs r else mret tt);
          pooler_output ← (match mro_pooler_output mro with
                           | [] => mret None
                           | l => or_raise IndexError (py_get l req_index)
                           end);
          '(new_token_ids, stopped) ←
            (match generated with
             | [] =>
                 if bool_decide (is_Some (pooling_params q)) && bool_decide (is_Some pooler_output) then
                   _ ← upd_req r (set_status FINISHED_STOPPED); mret ([], true)
                 else mret ([], false)
             | _ => update_request_with_output r generated
             end);
          stopped ← advance_grammar r new_token_ids stopped;
          '(v, routed, finish_reason, params) ←
            (if stopped : bool then stop_request r (status q) now v else mret (v, None, None, None));
          emit_output mro req_id r new_token_ids stopped pooler_output routed finish_reason params v
    end.

Fixpoint update_loop (o : SchedulerOutput ConnMeta) (mro : ModelRunnerOutput) (failed : list string) (now : Z)
    (l : list (string * Z)) (v : upd_vars) : MS upd_vars :=
  match l with
  | [] => mret v
  | (id, n) :: l => v ← update_one o mro failed now v id n; update_loop o mro failed now l v
  end.

(** ** The whole step *)

(** The controller sees the whole step; its decision holds from the next one. *)
Definition observe_step (v : upd_vars) : MS unit :=
  c ← gets spec_token_controller;
  match c with
  | None => mret tt
  | Some c =>
      let '(o, c) := SpecControl.observe (step_accepted_tokens v) (step_draft_tokens v) c in
      _ ← lift_result o;
      _ ← modify (set_spec_token_controller (Some c));
      modify (set_active_num_spec_tokens (active_k c))
  end.

(** The requests whose transfer failed end with an error. *)
Definition fail_requests (failed : list string) (outs : list (Z * list EngineCoreOutput)) :
    MS (list (Z * list EngineCoreOutput)) :=
  c ← gets config_;
  match failed with
  | [] => mret outs
  | _ =>
      if recompute_kv_load_failures c then mret outs
      else
        rs ← collect (str_set_iter failed) requests_at;
        _ ← finish_requests (FinishSet failed) FINISHED_ERROR;
        l ← collect rs (λ r,
              evs ← on_req r Request.take_events;
              q ← get_req r;
              mret (client_index q, mkEngineCoreOutput (request_id q) [] false None (get_finished_reason q) None evs
                                      None None None 0));
        mret (foldl (λ outs p, append_output p.1 p.2 outs) outs l)
  end.

Definition collect_events : MS (list KVCacheEvent) :=
  events ← on_kv kv_take_events;
  c ← gets connector;
  match c with
  | None => mret events
  | Some c => let '(evs, c) := conn_take_events c in _ ← modify (set_connector (Some c)); mret (events ++ evs)
  end.

(** The ids of the requests that finished, for the client of each. *)
Definition add_finished (d : list (Z * gset string)) (outs : list (Z * EngineCoreOutputs)) :
    list (Z * EngineCoreOutputs) :=
  foldl (λ outs p,
    let e := default (mkEngineCoreOutputs [] None None) (zd_get p.1 outs) in
    zd_set p.1 (mkEngineCoreOutputs (ecos_outputs e) (ecos_scheduler_stats e) (Some p.2)) outs) outs d.

(** The statistics go to the first client. *)
Definition add_stats (stats : SchedulerStats) (outs : list (Z * EngineCoreOutputs)) : list (Z * EngineCoreOutputs) :=
  match outs with
  | [] => [(0, mkEngineCoreOutputs [] (Some stats) None)]
  | (k, e) :: outs => (k, mkEngineCoreOutputs (ecos_outputs e) (Some stats) (ecos_finished_requests e)) :: outs
  end.

(** The result is the outputs of each client and the events that are published. *)
Definition update_from_output (o : SchedulerOutput ConnMeta) (mro : ModelRunnerOutput) (now : Z) :
    MS (list (Z * EngineCoreOutputs) * list KVCacheEvent) :=
  s ← gets (λ s, s);
  let kco := mro_kv_connector_output mro in
  kv_stats ← (match kco ≫= kco_stats, connector s with
              | Some st, Some c =>
                  let '(st, c) := conn_aggregate_stats st c in
                  _ ← modify (set_connector (Some c)); mret (Some st)
              | st, _ => mret st
              end);
  failed ← (match kco with
            | None => mret []
            | Some k => match invalid_block_ids k with
                        | [] => mret []
                        | ids => _handle_invalid_blocks ids (out_num_scheduled_tokens o)
                        end
            end);
  v ← update_loop o mro failed now (out_num_scheduled_tokens o) (mkUpdVars [] None ∅ ∅ 0 0);
  _ ← observe_step v;
  _ ← (if decide (stopped_running_reqs v = ∅) then mret tt
       else modify (λ s, set_running (remove_all (running s) (stopped_running_reqs v)) s));
  _ ← (if decide (stopped_preempted_reqs v = ∅) then mret tt
       else on_waiting (λ ops, remove_requests (elements (stopped_preempted_reqs v))));
  outs ← fail_requests failed (outputs v);
  _ ← (match kco with None => mret tt | Some k => _update_from_kv_xfer_finished k end);
  events ← collect_events;
  let ecos := (λ p : Z * list EngineCoreOutput, (p.1, mkEngineCoreOutputs p.2 None None)) <$> outs in
  d ← gets finished_req_ids_dict;
  let ecos := add_finished (default [] d) ecos in
  _ ← modify (set_finished_req_ids_dict ((λ _, []) <$> d));
  st ← make_stats (u_spec_stats v) kv_stats;
  mret (match st with None => ecos | Some (st, _) => add_stats st ecos end, events).
End Update.
