(* ===== verification/EngineCore.v ===== *)
(** * The engine core

    vllm/v1/engine/core.py: [EngineCore], which owns the scheduler and drives the workers
    step by step.  The executor with its workers and the multi-modal caches are
    parameters; a future is what the executor hands out for a call that has not returned.
    The times a method reads and the aborts that arrive while the model runs are
    arguments. *)

From Stdlib Require Import QArith.
From S2P Require Import Prelude FreeQueue Request BlockHash BlockPool KVSpec CacheHit SingleType Coordinator KVManager RequestQueue SchedUtils EncoderCache SpecControl SchedOutput SchedState EncoderSched Schedule SchedRequests SchedUpdate.

#[local] Open Scope Z_scope.
#[local] Set Default Proof Using "Type*".

(** The model executor and its workers; [future_result] blocks until the result is there. *)
Class ExecEnv {E : Env} {SE : SchedEnv} := {
  Exec : Type;
  Future : Type;
  execute_model : SchedulerOutput ConnMeta → M Exec Future;
  sample_tokens : option (list string * string) → M Exec Future;
  future_result : Future → M Exec (option ModelRunnerOutput);
  future_done : Exec → Future → bool;
  take_draft_token_ids : M Exec (option DraftTokenIds);
  execute_dummy_batch : M Exec unit;
  supported_tasks : list string;
  (* the caches of multi-modal inputs of the engine and of the workers *)
  clear_mm_caches : M Exec unit;
  exec_reset_encoder_cache : M Exec unit
}.

Definition POOLING_TASKS : list string :=
  ["embed"; "classify"; "token_embed"; "token_classify"; "plugin"; "embed&token_classify"].

(** Fixed by the constructor. *)
Record EngineSettings := mkEngineSettings {
  batch_queue_size : Z;
  use_spec_decode : bool;
  engine_async_scheduling : bool;
  is_ec_consumer : bool;
  is_pooling_model : bool
}.

Inductive PauseMode := PauseAbort | PauseWait | PauseKeep.
#[global] Instance PauseMode_eq_dec : EqDecision PauseMode.
Proof. solve_decision. Defined.

Section Core.
Context {E : Env} {SE : SchedEnv} {XE : ExecEnv} (block_hasher : option (M Request (list bytes))).

(** The batch queue is a [deque]: its left end is the head of the list. *)
Record EngineCore := mkEngineCore {
  engine_settings : EngineSettings;
  scheduler : Scheduler;
  model_executor : Exec;
  aborts_queue : list (list string);
  batch_queue : option (list (Future * SchedulerOutput ConnMeta * Future))
}.
Definition set_scheduler (v : Scheduler) (e : EngineCore) : EngineCore :=
  mkEngineCore (engine_settings e) v (model_executor e) (aborts_queue e) (batch_queue e).
Definition set_model_executor (v : Exec) (e : EngineCore) : EngineCore :=
  mkEngineCore (engine_settings e) (scheduler e) v (aborts_queue e) (batch_queue e).
Definition set_aborts_queue (v : list (list string)) (e : EngineCore) : EngineCore :=
  mkEngineCore (engine_settings e) (scheduler e) (model_executor e) v (batch_queue e).
Definition set_batch_queue (v : option (list (Future * SchedulerOutput ConnMeta * Future))) (e : EngineCore) : EngineCore :=
  mkEngineCore (engine_settings e) (scheduler e) (model_executor e) (aborts_queue e) v.

Abbreviation ME := (M EngineCore).
Definition on_scheduler {A} : M Scheduler A → ME A := zoom scheduler set_scheduler.
Definition on_executor {A} : M Exec A → ME A := zoom model_executor set_model_executor.

(** The constructor, with the scheduler and the executor it builds. *)
Definition engine_init (settings : EngineSettings) (s : Scheduler) (x : Exec) : EngineCore :=
  mkEngineCore settings s x [] (if 1 <? batch_queue_size settings then Some [] else None).

(** ** Requests *)

(** A request for pooling must ask for a task the model has. *)
Definition engine_add_request (q : Request) (now : Z) : ME unit :=
  _ ← (match pooling_params q with
       | None => mret tt
       | Some p =>
           let supported := filter (λ t, t ∈ POOLING_TASKS) supported_tasks in
           if match pp_task p with Some t => bool_decide (t ∈ supported) | None => false end then mret tt else raise ValueError
       end);
  on_scheduler (SchedRequests.add_request block_hasher q now).

Definition abort_requests (request_ids : list string) : ME unit :=
  _ ← on_scheduler (finish_requests (FinishSet request_ids) FINISHED_ABORTED); mret tt.

(** All aborts that have arrived are processed as one batch. *)
Definition _process_aborts_queue : ME unit :=
  q ← gets aborts_queue;
  match q with
  | [] => mret tt
  | _ => _ ← modify (set_aborts_queue []); abort_requests (concat q)
  end.

(** ** Steps *)

(** [with self.log_error_detail(...)]: when the body raises, the statistics are taken and
    the exception goes on. *)
Definition log_error_detail {A} (body : ME A) : ME A := λ e,
  match body e with
  | (Raise x, e') =>
      match on_scheduler (make_stats None None) e' with
      | (Ok _, e'') => (Raise x, e'')
      | (Raise y, e'') => (Raise y, e'')
      end
  | r => r
  end.

(** The output of the model; when the executor leaves sampling to a call of its own, the
    tokens are sampled now. *)
Definition model_output (future : Future) (grammar : option (list string * string)) : ME ModelRunnerOutput :=
  log_error_detail (
    m ← on_executor (future_result future);
    match m with
    | Some m => mret m
    | None =>
        f ← on_executor (sample_tokens grammar);
        m ← on_executor (future_result f);
        or_raise AttributeError m
    end).

(** The thread that serves the input sockets puts aborts on the queue. *)
Definition aborts_arrive (late : list (list string)) : ME unit :=
  modify (λ e, set_aborts_queue (aborts_queue e ++ late) e).

(** [late]: the aborts that arrive during the call.  Where the call runs the model they
    arrive while it runs; an abort that arrives later is one for the next call. *)
Definition step (timestamp now : Z) (late : list (list string)) : ME (list (Z * EngineCoreOutputs) * bool) :=
  s ← gets scheduler;
  if negb (has_requests s) then _ ← aborts_arrive late; mret ([], false)
  else
    o ← on_scheduler (schedule timestamp);
    future ← on_executor (execute_model o);
    grammar ← gets (λ e, get_grammar_bitmask o (scheduler e));
    m ← model_output future grammar;
    _ ← aborts_arrive late;
    _ ← _process_aborts_queue;
    '(outs, _) ← on_scheduler (update_from_output block_hasher o m now);
    mret (outs, 0 <? out_total_num_scheduled_tokens o).

Definition post_step (model_executed : bool) : ME unit :=
  e ← gets (λ e, e);
  let c := engine_settings e in
  if negb (engine_async_scheduling c) && use_spec_decode c && model_executed then
    d ← on_executor take_draft_token_ids;
    match d with
    | None => mret tt
    | Some d => on_scheduler (update_draft_token_ids d)
    end
  else mret tt.

(** [batch_queue.appendleft]: a full [deque] drops its right end. *)
Definition appendleft (x : Future * SchedulerOutput ConnMeta * Future) : ME unit :=
  modify (λ e, set_batch_queue ((λ q, take (Z.to_nat (batch_queue_size (engine_settings e))) (x :: q)) <$> batch_queue e) e).

(** The first part of [step_with_batch_queue]: a batch is scheduled and handed to the
    workers.  Its sampling is deferred when it needs the tokens of the batch before it;
    the step is over at once when there is room for another batch and no result yet. *)
Definition submit_batch (timestamp : Z) : ME (bool * option (SchedulerOutput ConnMeta * Future) * bool) :=
  o ← on_scheduler (schedule timestamp);
  exec_future ← log_error_detail (on_executor (execute_model o));
  c ← gets engine_settings;
  let model_executed := is_ec_consumer c && (0 <? out_total_num_scheduled_tokens o) in
  if negb (is_pooling_model c || negb model_executed) && out_pending_structured_output_tokens o then
    mret (model_executed, Some (o, exec_future), false)
  else
    future ← (if is_pooling_model c || negb model_executed then mret exec_future
              else
                grammar ← gets (λ e, get_grammar_bitmask o (scheduler e));
                on_executor (sample_tokens grammar));
    _ ← appendleft (future, o, exec_future);
    e ← gets (λ e, e);
    q ← or_raise AssertionError (batch_queue e);
    oldest ← or_raise IndexError (last q);
    mret (model_executed, None,
          model_executed && (len q <? batch_queue_size c) && negb (future_done (model_executor e) oldest.1.1)).

(** The last part: the sampling that was deferred. *)
Definition sample_deferred (o : SchedulerOutput ConnMeta) (exec_future : Future) : ME unit :=
  c ← gets engine_settings;
  o ← (if use_spec_decode c then
         d ← on_executor take_draft_token_ids;
         d ← or_raise AssertionError d;
         on_scheduler (update_draft_token_ids_in_output d o)
       else mret o);
  grammar ← gets (λ e, get_grammar_bitmask o (scheduler e));
  future ← on_executor (sample_tokens grammar);
  appendleft (future, o, exec_future).

(** The oldest batch is awaited and its output applied. *)
Definition finish_batch (now : Z) (late : list (list string)) : ME (list (Z * EngineCoreOutputs)) :=
  q ← (q ← gets batch_queue; or_raise AssertionError q);
  '(future, o, exec_fut) ← or_raise IndexError (last q);
  _ ← modify (set_batch_queue (Some (take (length q - 1) q)));
  m ← log_error_detail (
        m ← on_executor (future_result future);
        match m with
        | Some m => mret m
        | None => _ ← on_executor (future_result exec_fut); raise RuntimeError
        end);
  _ ← aborts_arrive late;
  _ ← _process_aborts_queue;
  '(outs, _) ← on_scheduler (update_from_output block_hasher o m now);
  mret outs.

Definition step_with_batch_queue (timestamp now : Z) (late : list (list string)) :
    ME (option (list (Z * EngineCoreOutputs)) * bool) :=
  q ← (q ← gets batch_queue; or_raise AssertionError q);
  c ← gets engine_settings;
  _ ← assert (len q <? batch_queue_size c);
  s ← gets scheduler;
  if negb (has_requests s) && bool_decide (length q = 0%nat) then _ ← aborts_arrive late; mret (None, false)
  else
    '(model_executed, deferred, return_now) ←
      (if has_requests s then submit_batch timestamp else mret (false, None, false));
    if return_now : bool then _ ← aborts_arrive late; mret (None, true)
    else
      outs ← finish_batch now late;
      _ ← (match deferred with
           | Some (o, exec_future) => sample_deferred o exec_future
           | None => mret tt
           end);
      mret (Some outs, model_executed).

(** [step_fn] *)
Definition step_fn (timestamp now : Z) (late : list (list string)) : ME (option (list (Z * EngineCoreOutputs)) * bool) :=
  q ← gets batch_queue;
  match q with
  | None => '(outs, executed) ← step timestamp now late; mret (Some outs, executed)
  | Some _ => step_with_batch_queue timestamp now late
  end.

(** ** Pauses *)

Definition engine_reset_prefix_cache (reset_running_requests reset_connector : bool) (timestamp : Z) : ME bool :=
  on_scheduler (SchedRequests.reset_prefix_cache reset_running_requests reset_connector timestamp).
Definition reset_mm_cache : ME unit := on_executor clear_mm_caches.
Definition engine_reset_encoder_cache : ME unit :=
  _ ← on_scheduler SchedRequests.reset_encoder_cache;
  on_executor exec_reset_encoder_cache.
Definition _reset_caches (reset_running_requests : bool) (timestamp : Z) : ME unit :=
  _ ← engine_reset_prefix_cache reset_running_requests false timestamp;
  _ ← reset_mm_cache;
  engine_reset_encoder_cache.

Definition pause_state_of (mode : PauseMode) : PauseState :=
  match mode with PauseKeep => PAUSED_ALL | _ => PAUSED_NEW end.

Definition engine_pause_scheduler (mode : PauseMode) (clear_cache : bool) (timestamp : Z) : ME unit :=
  match mode with
  | PauseWait => raise ValueError
  | _ =>
      _ ← (if decide (mode = PauseAbort) then
             _ ← on_scheduler (finish_requests FinishAll FINISHED_ABORTED); mret tt
           else mret tt);
      _ ← on_scheduler (set_pause_state_of (pause_state_of mode));
      if clear_cache then _reset_caches true timestamp else mret tt
  end.

Definition resume_scheduler : ME unit := on_scheduler (set_pause_state_of UNPAUSED).
Definition is_scheduler_paused (e : EngineCore) : bool := negb (bool_decide (_pause_state (scheduler e) = UNPAUSED)).
End Core.
