(* ===== verification/EngineProc.v ===== *)
(** * The engine process

    vllm/v1/engine/core.py: [EngineCoreProc], the loop that takes the messages of the
    clients from a queue, steps the engine and puts the outputs on another queue, and
    [DPEngineCoreProc], the same loop for engines of a mixture-of-experts model that work
    in step with each other.  The threads that serve the sockets appear as the events that
    arrive; the times a method reads and the events are arguments. *)

From Stdlib Require Import QArith.
From S2P Require Import Prelude FreeQueue Request BlockHash BlockPool KVSpec CacheHit SingleType Coordinator KVManager RequestQueue SchedUtils EncoderCache SpecControl SchedOutput SchedState EncoderSched Schedule SchedRequests SchedUpdate EngineCore.

#[local] Open Scope Z_scope.
#[local] Set Default Proof Using "Type*".

Inductive EngineShutdownState := RUNNING_ | REQUESTED | SHUTTING_DOWN.
#[global] Instance EngineShutdownState_eq_dec : EqDecision EngineShutdownState.
Proof. solve_decision. Defined.

(** The methods that clients call by name.  [OtherMethod] is a method without effect on
    the scheduler, with the result of its call. *)
Inductive UtilityMethod :=
  | PauseMethod (mode : PauseMode) (clear_cache : bool)
  | ResumeMethod
  | IsPausedMethod
  | ResetPrefixMethod (reset_running_requests reset_connector : bool)
  | ResetMMMethod
  | ResetEncoderMethod
  | OtherMethod (res : result unit).

(** [EngineCoreRequestType] with its data. *)
Inductive EngineCoreRequestType :=
  | ADD (q : Request) (request_wave : Z)
  | ABORT_ (request_ids : list string)
  | START_DP_WAVE (new_wave exclude_eng_index : Z)
  | UTILITY (client_idx call_id : Z) (method : UtilityMethod)
  | EXECUTOR_FAILED
  | WAKEUP.

(** What arrives while the loop runs: a message, a request whose preprocessing raises, or
    a signal to end. *)
Inductive event := Message (m : EngineCoreRequestType) | BadRequest (request_id : string) (client_index : Z) | Signal.

Inductive UtilityResult := ResultNone | ResultBool (b : bool).
Inductive UtilityFailure := ServerShuttingDown | CallFailed (x : exn).
Record UtilityOutput := mkUtilityOutput {
  uo_call_id : Z;
  uo_failure_message : option UtilityFailure;
  uo_result : option UtilityResult
}.

(** [EngineCoreOutputs] with all its fields. *)
Record ProcOutputs := mkProcOutputs {
  po_outputs : EngineCoreOutputs;
  po_counts : option (Z * Z * Z * Z);
  po_utility_output : option UtilityOutput;
  po_wave_complete : option Z;
  po_start_wave : option Z
}.
Definition no_outputs : EngineCoreOutputs := mkEngineCoreOutputs [] None None.
Definition of_scheduler (o : EngineCoreOutputs) : ProcOutputs := mkProcOutputs o None None None None.
Definition of_utility (u : UtilityOutput) : ProcOutputs := mkProcOutputs no_outputs None (Some u) None None.
Definition of_start_wave (w : Z) : ProcOutputs := mkProcOutputs no_outputs None None None (Some w).
Definition of_wave_complete (w : Z) : ProcOutputs := mkProcOutputs no_outputs None None (Some w) None.

(** A callback for when the engine becomes idle: it completes the future [cb_future]. *)
Record IdleCallback := mkIdleCallback { cb_clear_cache : bool; cb_future : nat }.

(** The fields of data-parallel engines; [data_parallel] says which class it is. *)
Record DPState := mkDPState {
  data_parallel : bool;
  engine_index : Z;
  dp_rank : Z;
  has_coordinator : bool;
  publish_dp_lb_stats : bool;
  step_counter : Z;
  current_wave : Z;
  last_counts : Z * Z
}.
Definition set_step_counter (v : Z) (d : DPState) : DPState :=
  mkDPState (data_parallel d) (engine_index d) (dp_rank d) (has_coordinator d) (publish_dp_lb_stats d) v (current_wave d) (last_counts d).
Definition set_current_wave (v : Z) (d : DPState) : DPState :=
  mkDPState (data_parallel d) (engine_index d) (dp_rank d) (has_coordinator d) (publish_dp_lb_stats d) (step_counter d) v (last_counts d).
Definition set_last_counts (v : Z * Z) (d : DPState) : DPState :=
  mkDPState (data_parallel d) (engine_index d) (dp_rank d) (has_coordinator d) (publish_dp_lb_stats d) (step_counter d) (current_wave d) v.

Section Proc.
Context {E : Env} {SE : SchedEnv} {XE : ExecEnv} (block_hasher : option (M Request (list bytes))).

Record EngineCoreProc := mkEngineCoreProc {
  core : EngineCore;
  engines_running : bool;
  shutdown_state : EngineShutdownState;
  shutdown_timeout : Z;
  input_queue : list EngineCoreRequestType;
  output_queue : list (Z * ProcOutputs);
  process_input_queue_block : bool;
  _idle_state_callbacks : list IdleCallback;
  (* the futures handed out so far, and the calls that wait for one *)
  next_future : nat;
  done_callbacks : list (nat * (Z * Z));
  dp : DPState
}.
Definition set_core v (p : EngineCoreProc) : EngineCoreProc :=
  mkEngineCoreProc v (engines_running p) (shutdown_state p) (shutdown_timeout p) (input_queue p) (output_queue p) (process_input_queue_block p) (_idle_state_callbacks p) (next_future p) (done_callbacks p) (dp p).
Definition set_engines_running v (p : EngineCoreProc) : EngineCoreProc :=
  mkEngineCoreProc (core p) v (shutdown_state p) (shutdown_timeout p) (input_queue p) (output_queue p) (process_input_queue_block p) (_idle_state_callbacks p) (next_future p) (done_callbacks p) (dp p).
Definition set_shutdown_state v (p : EngineCoreProc) : EngineCoreProc :=
  mkEngineCoreProc (core p) (engines_running p) v (shutdown_timeout p) (input_queue p) (output_queue p) (process_input_queue_block p) (_idle_state_callbacks p) (next_future p) (done_callbacks p) (dp p).
Definition set_input_queue v (p : EngineCoreProc) : EngineCoreProc :=
  mkEngineCoreProc (core p) (engines_running p) (shutdown_state p) (shutdown_timeout p) v (output_queue p) (process_input_queue_block p) (_idle_state_callbacks p) (next_future p) (done_callbacks p) (dp p).
Definition set_output_queue v (p : EngineCoreProc) : EngineCoreProc :=
  mkEngineCoreProc (core p) (engines_running p) (shutdown_state p) (shutdown_timeout p) (input_queue p) v (process_input_queue_block p) (_idle_state_callbacks p) (next_future p) (done_callbacks p) (dp p).
Definition set_idle_callbacks v (p : EngineCoreProc) : EngineCoreProc :=
  mkEngineCoreProc (core p) (engines_running p) (shutdown_state p) (shutdown_timeout p) (input_queue p) (output_queue p) (process_input_queue_block p) v (next_future p) (done_callbacks p) (dp p).
Definition set_next_future v (p : EngineCoreProc) : EngineCoreProc :=
  mkEngineCoreProc (core p) (engines_running p) (shutdown_state p) (shutdown_timeout p) (input_queue p) (output_queue p) (process_input_queue_block p) (_idle_state_callbacks p) v (done_callbacks p) (dp p).
Definition set_done_callbacks v (p : EngineCoreProc) : EngineCoreProc :=
  mkEngineCoreProc (core p) (engines_running p) (shutdown_state p) (shutdown_timeout p) (input_queue p) (output_queue p) (process_input_queue_block p) (_idle_state_callbacks p) (next_future p) v (dp p).
Definition set_dp v (p : EngineCoreProc) : EngineCoreProc :=
  mkEngineCoreProc (core p) (engines_running p) (shutdown_state p) (shutdown_timeout p) (input_queue p) (output_queue p) (process_input_queue_block p) (_idle_state_callbacks p) (next_future p) (done_callbacks p) v.

(** The constructor, once the handshakes are over. *)
Definition proc_init (timeout : Z) (d : DPState) (c : EngineCore) : EngineCoreProc :=
  mkEngineCoreProc c false RUNNING_ timeout [] [] true [] 0 [] d.

Abbreviation MP := (M EngineCoreProc).
Definition on_core {A} : M EngineCore A → MP A := zoom core set_core.
Definition put_output (client_index : Z) (o : ProcOutputs) : MP unit :=
  modify (λ p, set_output_queue (output_queue p ++ [(client_index, o)]) p).

Definition has_work (p : EngineCoreProc) : bool :=
  engines_running p || has_requests (scheduler (core p)) ||
  match batch_queue (core p) with Some (_ :: _) => true | _ => false end.

Definition is_running (p : EngineCoreProc) : bool := bool_decide (shutdown_state p = RUNNING_).

(** ** Outputs for requests that end *)

Definition _send_finish_outputs_to_client (req_ids : list string) (client_index : Z) (finish_reason : FinishReason) : MP unit :=
  let outputs := (λ id, mkEngineCoreOutput id [] false None (Some finish_reason) None None None None None 0) <$> req_ids in
  put_output client_index (of_scheduler (mkEngineCoreOutputs outputs None (Some (list_to_set req_ids)))).

Definition _send_abort_outputs_to_client (req_ids : list string) (client_index : Z) : MP unit :=
  _send_finish_outputs_to_client req_ids client_index ABORT.

Definition _send_error_outputs_to_client (req_ids : list string) (client_index : Z) : MP unit :=
  _send_finish_outputs_to_client req_ids client_index ERROR.

(** [by_client]: the ids of each client, without repetitions. *)
Definition by_client (aborted_reqs : list (string * Z)) : list (Z * list string) :=
  foldl (λ d '(req_id, client_index),
    let ids := default [] (zd_get client_index d) in
    zd_set client_index (if bool_decide (req_id ∈ ids) then ids else ids ++ [req_id]) d) [] aborted_reqs.

Definition _send_abort_outputs (aborted_reqs : list (string * Z)) : MP unit :=
  for_ (by_client aborted_reqs) (λ '(client_index, req_ids),
    _send_abort_outputs_to_client (str_set_iter req_ids) client_index).

Definition _handle_request_preproc_error (request_id : string) (client_index : Z) : MP unit :=
  _send_error_outputs_to_client [request_id] client_index.

(** The thread of the input sockets: a message goes to the input queue, an abort to the
    queue of aborts too; a request whose preprocessing raises is answered at once.  The
    handler of a signal asks for the shutdown, and a thread of its own wakes the loop up. *)
Definition aborts_of (ev : event) : list (list string) :=
  match ev with Message (ABORT_ ids) => [ids] | _ => [] end.

Definition enqueue (ev : event) : MP unit :=
  match ev with
  | Message m => modify (λ p, set_input_queue (input_queue p ++ [m]) p)
  | BadRequest request_id client_index => _handle_request_preproc_error request_id client_index
  | Signal =>
      _ ← modify (set_shutdown_state REQUESTED);
      modify (λ p, set_input_queue (input_queue p ++ [WAKEUP]) p)
  end.

Definition receive (ev : event) : MP unit :=
  _ ← on_core (aborts_arrive (aborts_of ev)); enqueue ev.

(** ** Shutdown *)

Definition _handle_shutdown : MP bool :=
  p ← gets (λ p, p);
  if decide (shutdown_state p = RUNNING_) then mret true
  else
    _ ← (if decide (shutdown_state p = REQUESTED) then
           _ ← (if shutdown_timeout p =? 0 then
                  aborted_reqs ← on_core (on_scheduler (finish_requests FinishAll FINISHED_ABORTED));
                  _send_abort_outputs aborted_reqs
                else mret tt);
           modify (set_shutdown_state SHUTTING_DOWN)
         else mret tt);
    gets has_work.

Definition _reject_add_in_shutdown (q : Request) : MP bool :=
  p ← gets (λ p, p);
  if decide (shutdown_state p = RUNNING_) then mret false
  else
    _ ← _send_abort_outputs_to_client [request_id q] (client_index q);
    mret true.

Definition _reject_utility_in_shutdown (client_idx call_id : Z) : MP bool :=
  p ← gets (λ p, p);
  if decide (shutdown_state p = RUNNING_) then mret false
  else
    _ ← put_output client_idx (of_utility (mkUtilityOutput call_id (Some ServerShuttingDown) None));
    mret true.

(** ** Pauses *)

(** [future.set_result(None)]: the calls that wait for the future get their answer. *)
Definition set_result (future : nat) : MP unit :=
  p ← gets (λ p, p);
  _ ← for_ (filter (λ c, c.1 = future) (done_callbacks p)) (λ '(_, (client_idx, call_id)),
         put_output client_idx (of_utility (mkUtilityOutput call_id None (Some ResultNone))));
  modify (λ p, set_done_callbacks (filter (λ c, c.1 ≠ future) (done_callbacks p)) p).

Definition engine_idle_callback (timestamp : Z) (cb : IdleCallback) : MP unit :=
  _ ← (if cb_clear_cache cb then on_core (_reset_caches true timestamp) else mret tt);
  set_result (cb_future cb).

(** The callbacks are popped from the end, each once. *)
Fixpoint notify_loop (fuel : nat) (timestamp : Z) : MP unit :=
  match fuel with
  | O => raise OutOfFuel
  | S fuel =>
      cbs ← gets _idle_state_callbacks;
      match last cbs with
      | None => mret tt
      | Some cb =>
          _ ← modify (set_idle_callbacks (take (length cbs - 1) cbs));
          _ ← engine_idle_callback timestamp cb;
          notify_loop fuel timestamp
      end
  end.
Definition _notify_idle_state_callbacks (timestamp : Z) : MP unit :=
  cbs ← gets _idle_state_callbacks; notify_loop (S (length cbs)) timestamp.

(** The result is a future unless the engine is idle already. *)
Definition pause_scheduler (mode : PauseMode) (clear_cache : bool) (timestamp : Z) : MP (option nat) :=
  _ ← (if decide (mode = PauseAbort) then
         aborted_reqs ← on_core (on_scheduler (finish_requests FinishAll FINISHED_ABORTED));
         _send_abort_outputs aborted_reqs
       else mret tt);
  _ ← on_core (on_scheduler (set_pause_state_of (pause_state_of mode)));
  p ← gets (λ p, p);
  if negb (has_work p) then
    _ ← (if clear_cache then on_core (_reset_caches true timestamp) else mret tt);
    mret None
  else
    let future := next_future p in
    _ ← modify (λ p, set_next_future (S future) (set_idle_callbacks (_idle_state_callbacks p ++ [mkIdleCallback clear_cache future]) p));
    mret (Some future).

(** [DPEngineCoreProc.resume_scheduler] wakes up the other engines. *)
Definition proc_resume_scheduler : MP unit :=
  _ ← on_core resume_scheduler;
  p ← gets (λ p, p);
  let d := dp p in
  if data_parallel d && has_coordinator d && negb (engines_running p) && has_unfinished_requests (scheduler (core p)) then
    put_output (-1) (of_start_wave (current_wave d))
  else mret tt.

(** ** Messages *)

(** What the method returns: a value, or a future. *)
Definition utility_call (m : UtilityMethod) (timestamp : Z) : MP (UtilityResult + nat) :=
  match m with
  | PauseMethod mode clear_cache =>
      f ← pause_scheduler mode clear_cache timestamp;
      mret (match f with None => inl ResultNone | Some f => inr f end)
  | ResumeMethod => _ ← proc_resume_scheduler; mret (inl ResultNone)
  | IsPausedMethod => b ← gets (λ p, is_scheduler_paused (core p)); mret (inl (ResultBool b))
  | ResetPrefixMethod a b => b ← on_core (engine_reset_prefix_cache a b timestamp); mret (inl (ResultBool b))
  | ResetMMMethod => _ ← on_core reset_mm_cache; mret (inl ResultNone)
  | ResetEncoderMethod => _ ← on_core engine_reset_encoder_cache; mret (inl ResultNone)
  | OtherMethod (Ok _) => mret (inl ResultNone)
  | OtherMethod (Raise x) => raise x
  end.

(** The answer waits for a future, and an exception goes to the client. *)
Definition _invoke_utility_method (client_idx call_id : Z) (m : UtilityMethod) (timestamp : Z) : MP unit := λ p,
  match utility_call m timestamp p with
  | (Ok (inr future), p') => modify (λ p, set_done_callbacks (done_callbacks p ++ [(future, (client_idx, call_id))]) p) p'
  | (Ok (inl r), p') => put_output client_idx (of_utility (mkUtilityOutput call_id None (Some r))) p'
  | (Raise x, p') => put_output client_idx (of_utility (mkUtilityOutput call_id (Some (CallFailed x)) None)) p'
  end.

(** [add_request] of both classes: a request of an earlier wave starts the next one. *)
Definition proc_add_request (q : Request) (request_wave : Z) (now : Z) : MP unit :=
  _ ← on_core (engine_add_request block_hasher q now);
  p ← gets (λ p, p);
  let d := dp p in
  if data_parallel d && has_coordinator d && negb (request_wave =? current_wave d) then
    if current_wave d <? request_wave then modify (λ p, set_dp (set_current_wave request_wave (dp p)) p)
    else if negb (engines_running p) && bool_decide (_pause_state (scheduler (core p)) = UNPAUSED) then
      _ ← modify (set_engines_running true);
      put_output (-1) (of_start_wave (current_wave d))
    else mret tt
  else mret tt.

(** [DPEngineCoreProc._handle_client_request] for [START_DP_WAVE]. *)
Definition start_dp_wave (new_wave exclude_eng_index : Z) : MP unit :=
  d ← gets dp;
  if negb (exclude_eng_index =? engine_index d) && (current_wave d <=? new_wave) then
    modify (λ p, set_engines_running true (set_dp (set_current_wave new_wave (dp p)) p))
  else mret tt.

(** [START_DP_WAVE] is unknown to the class without data parallelism, which logs it. *)
Definition _handle_client_request (m : EngineCoreRequestType) (timestamp : Z) : MP unit :=
  match m with
  | WAKEUP => mret tt
  | ADD q request_wave =>
      rejected ← _reject_add_in_shutdown q;
      if rejected : bool then mret tt else proc_add_request q request_wave timestamp
  | ABORT_ ids => on_core (abort_requests ids)
  | UTILITY client_idx call_id method =>
      rejected ← _reject_utility_in_shutdown client_idx call_id;
      if rejected : bool then mret tt else _invoke_utility_method client_idx call_id method timestamp
  | EXECUTOR_FAILED => raise RuntimeError
  | START_DP_WAVE new_wave exclude_eng_index =>
      p ← gets (λ p, p);
      if data_parallel (dp p) then start_dp_wave new_wave exclude_eng_index else mret tt
  end.

(** ** The loop *)

(** The loop runs while events arrive.  [arrivals] is a schedule of them: each point of
    the loop at which an arrival can make a difference takes the next group, which may be
    empty. *)
Definition arrive (arrivals : list (list event)) : MP (list (list event)) :=
  match arrivals with
  | [] => mret []
  | evs :: arrivals => _ ← for_ evs receive; mret arrivals
  end.

(** [input_queue.get(block=True)]: the thread sleeps until there is a message, for ever
    if none arrives. *)
Fixpoint await (arrivals : list (list event)) : MP (option (list (list event))) :=
  q ← gets input_queue;
  match q, arrivals with
  | _ :: _, _ => mret (Some arrivals)
  | [], [] => mret None
  | [], evs :: arrivals => _ ← for_ evs receive; await arrivals
  end.

(** The message at the front of the queue is taken and handled. *)
Definition handle_next (arrivals : list (list event)) (timestamp : Z) : MP (list (list event)) :=
  q ← gets input_queue;
  match q with
  | [] => mret arrivals
  | m :: q =>
      _ ← modify (set_input_queue q);
      arrivals ← arrive arrivals;
      _ ← _handle_client_request m timestamp;
      mret arrivals
  end.

(** The first loop of [_process_input_queue] waits for work.  The result is what arrives
    later, or nothing if the loop waits for ever. *)
Fixpoint wait_loop (fuel : nat) (arrivals : list (list event)) (timestamp : Z) : MP (option (list (list event))) :=
  match fuel with
  | O => raise OutOfFuel
  | S fuel =>
      arrivals ← arrive arrivals;
      p ← gets (λ p, p);
      if negb (has_work p) && is_running p then
        _ ← _notify_idle_state_callbacks timestamp;
        q ← gets input_queue;
        arrivals ← arrive arrivals;
        _ ← (match q with [] => on_core (modify (set_aborts_queue [])) | _ => mret tt end);
        got ← (if process_input_queue_block p then await arrivals else arrivals ← arrive arrivals; mret (Some arrivals));
        match got with
        | None => mret None
        | Some arrivals =>
            arrivals ← handle_next arrivals timestamp;
            if process_input_queue_block p then wait_loop fuel arrivals timestamp else mret (Some arrivals)
        end
      else mret (Some arrivals)
  end.

(** The second loop handles what is in the queue. *)
Fixpoint drain_loop (fuel : nat) (arrivals : list (list event)) (timestamp : Z) : MP (list (list event)) :=
  match fuel with
  | O => raise OutOfFuel
  | S fuel =>
      arrivals ← arrive arrivals;
      q ← gets input_queue;
      match q with
      | [] => mret arrivals
      | _ => arrivals ← handle_next arrivals timestamp; drain_loop fuel arrivals timestamp
      end
  end.

(** A turn of a loop takes a message from the queue.  What is left of the arrivals comes
    before the step. *)
Definition _process_input_queue (arrivals : list (list event)) (timestamp : Z) : MP bool :=
  q ← gets input_queue;
  got ← wait_loop (S (length q + length (concat arrivals))) arrivals timestamp;
  match got with
  | None => mret false
  | Some arrivals =>
      q ← gets input_queue;
      arrivals ← drain_loop (S (length q + length (concat arrivals))) arrivals timestamp;
      _ ← for_ (concat arrivals) receive;
      mret true
  end.

(** The times and the events of a pass of the loop: [before] it looks at the state of the
    shutdown, [arrivals] while it processes its input, [late] while the model runs. *)
Record tick := mkTick {
  tk_timestamp : Z;
  tk_now : Z;
  tk_before : list event;
  tk_arrivals : list (list event);
  tk_late : list event
}.

(** What arrives while the model runs goes to the input queue, which is not read before
    the next pass; the aborts among it go to the queue of aborts too, which the step reads
    when the model has run. *)
Definition _process_engine_step (t : tick) : MP bool :=
  _ ← for_ (tk_late t) enqueue;
  '(outputs, model_executed) ← on_core (step_fn block_hasher (tk_timestamp t) (tk_now t) (concat (aborts_of <$> tk_late t)));
  _ ← for_ (default [] outputs) (λ '(client_index, o), put_output client_index (of_scheduler o));
  _ ← on_core (post_step model_executed);
  mret model_executed.

(** How the loop ends: [SystemExit], waiting for input, or not within the given passes. *)
Inductive loop_end := Exited | Waiting | StillRunning.
#[global] Instance loop_end_eq_dec : EqDecision loop_end.
Proof. solve_decision. Defined.

Fixpoint run_busy_loop (ticks : list tick) : MP loop_end :=
  match ticks with
  | [] => mret StillRunning
  | t :: ticks =>
      _ ← for_ (tk_before t) receive;
      go_on ← _handle_shutdown;
      if negb go_on then mret Exited
      else
        ready ← _process_input_queue (tk_arrivals t) (tk_timestamp t);
        if negb ready then mret Waiting
        else
          _ ← _process_engine_step t;
          run_busy_loop ticks
  end.

(** ** Data-parallel engines *)

Definition _maybe_publish_request_counts : MP unit :=
  p ← gets (λ p, p);
  let d := dp p in
  let counts := get_request_counts (scheduler (core p)) in
  if negb (publish_dp_lb_stats d) then mret tt
  else if bool_decide (counts = last_counts d) then mret tt
  else
    _ ← modify (λ p, set_dp (set_last_counts counts (dp p)) p);
    put_output (-1) (mkProcOutputs no_outputs (Some (counts.1, counts.2, step_counter d, current_wave d)) None None None).

(** [ParallelConfig.has_unfinished_dp]: the maximum over all engines; [others] is the
    maximum over the other engines. *)
Definition has_unfinished_dp (others has_unfinished : bool) : bool := has_unfinished || others.

(** The engines agree on every 32nd step only. *)
Definition _has_global_unfinished_reqs (others local_unfinished : bool) : MP bool :=
  _ ← modify (λ p, set_dp (set_step_counter (step_counter (dp p) + 1) (dp p)) p);
  d ← gets dp;
  if negb (step_counter d `mod` 32 =? 0) then mret true else mret (has_unfinished_dp others local_unfinished).

(** The end of a pass of the loop: an engine that has run no batch runs a dummy one if
    other engines may be running. *)
Definition dp_sync (executed others : bool) : MP unit :=
  p ← gets (λ p, p);
  let local_unfinished_reqs := has_unfinished_requests (scheduler (core p)) in
  if negb executed && negb local_unfinished_reqs && negb (engines_running p) then mret tt
  else
    _ ← (if negb executed then on_core (on_executor execute_dummy_batch) else mret tt);
    b ← _has_global_unfinished_reqs others local_unfinished_reqs;
    _ ← modify (set_engines_running b);
    if b : bool then mret tt
    else
      d ← gets dp;
      _ ← (if (dp_rank d =? 0) || negb (has_coordinator d) then
             put_output (if has_coordinator d then -1 else 0) (of_wave_complete (current_wave d))
           else mret tt);
      modify (λ p, set_dp (set_step_counter 0 (set_current_wave (current_wave (dp p) + 1) (dp p))) p).

(** A pass of the loop of [DPEngineCoreProc]; [None] if it goes on. *)
Definition dp_pass (t : tick) (others : bool) : MP (option loop_end) :=
  _ ← for_ (tk_before t) receive;
  go_on ← _handle_shutdown;
  if negb go_on then mret (Some Exited)
  else
    ready ← _process_input_queue (tk_arrivals t) (tk_timestamp t);
    if negb ready then mret (Some Waiting)
    else
      executed ← _process_engine_step t;
      _ ← _maybe_publish_request_counts;
      _ ← dp_sync executed others;
      mret None.

Fixpoint dp_run_busy_loop (ticks : list (tick * bool)) : MP loop_end :=
  match ticks with
  | [] => mret StillRunning
  | (t, others) :: ticks =>
      r ← dp_pass t others;
      match r with
      | Some r => mret r
      | None => dp_run_busy_loop ticks
      end
  end.
End Proc.
