(* ===== verification/Stable.v ===== *)
(** * What a run leaves alone

    A property of the state that every run of an operation keeps, also a run that raises,
    read off the operation step by step, without its preconditions. *)

From S2P Require Import Prelude.

(** ** Properties of the state that every run keeps *)

Definition stable {S A} (I : S → Prop) (m : M S A) : Prop := ∀ s, I s → I (m s).2.

Lemma wp_stable {S A} (I : S → Prop) (m : M S A) Q s :
  stable I m → I s → wp m Q s → wp m (λ a s', Q a s' ∧ I s') s.
Proof. intros Hm HI. specialize (Hm s HI). unfold wp. by destruct (m s) as [[] ?]. Qed.

Section Stable.
Context {S : Type} (I : S → Prop).

Lemma stable_ret {A} (a : A) : stable I (mret a).
Proof. by intros s. Qed.
Lemma stable_raise {A} e : stable I (raise (A := A) e).
Proof. by intros s. Qed.
Lemma stable_gets {A} (f : S → A) : stable I (gets f).
Proof. by intros s. Qed.
Lemma stable_assert b : stable I (assert b).
Proof. intros s. by destruct b. Qed.
Lemma stable_or_raise {A} e (o : option A) : stable I (or_raise e o).
Proof. intros s. by destruct o. Qed.
Lemma stable_modify f : (∀ s, I s → I (f s)) → stable I (modify f).
Proof. intros Hf s. apply Hf. Qed.
Lemma stable_bind {A B} (m : M S A) (k : A → M S B) : stable I m → (∀ a, stable I (k a)) → stable I (m ≫= k).
Proof.
  intros Hm Hk s HI. specialize (Hm s HI). unfold mbind, M_bind. destruct (m s) as [[a|e] s']; [by apply Hk|done].
Qed.
Lemma stable_for {A} (l : list A) (body : A → M S unit) : (∀ x, stable I (body x)) → stable I (for_ l body).
Proof. intros Hb. induction l as [|x l IH]; simpl; [apply stable_ret|]. by apply stable_bind. Qed.
Lemma stable_collect {A B} (l : list A) (body : A → M S B) : (∀ x, stable I (body x)) → stable I (collect l body).
Proof.
  intros Hb. induction l as [|x l IH]; simpl; [apply stable_ret|].
  apply stable_bind; [done|]. intros y. apply stable_bind; [done|]. intros ys. apply stable_ret.
Qed.
Lemma stable_zoom {T A} (get : S → T) (set : T → S → S) (J : T → Prop) (m : M T A) :
  stable J m → (∀ s, I s → J (get s)) → (∀ s t, I s → J t → I (set t s)) → stable I (zoom get set m).
Proof.
  intros Hm Hget Hset s HI. specialize (Hm (get s) (Hget s HI)). unfold zoom. destruct (m (get s)) as [r t]. by apply Hset.
Qed.
End Stable.

Lemma stable_true {S A} (m : M S A) : stable (λ _, True) m.
Proof. by intros s. Qed.

Create HintDb frame.
#[export] Hint Resolve stable_ret stable_raise stable_gets stable_assert stable_or_raise stable_true : frame.

(** One operation, or one branch, at a time. *)
Ltac stable_step :=
  lazymatch goal with
  | |- stable _ (mbind _ _) => apply stable_bind; [|intros ?]
  | |- stable _ (for_ _ _) => apply stable_for; intros ?
  | |- stable _ (collect _ _) => apply stable_collect; intros ?
  | |- stable _ (let _ := _ in _) => cbv zeta
  | |- stable _ (match ?x with _ => _ end) => destruct x
  | |- stable _ _ => solve [auto with frame nocore]
  end.
Ltac stable_run := repeat (cbv zeta beta; stable_step).
