(* ===== verification/SchedFrame.v ===== *)
(** * What a step leaves alone

    [Scheduler.schedule] changes of a request only its status, its number of computed
    tokens, its draft tokens and its statistics; lists of draft tokens only get shorter.
    Both are read off the operations one by one, without their preconditions, also for
    runs that raise. *)

From S2P Require Import Prelude Stable FreeQueue Request BlockHash BlockPool KVSpec CacheHit SingleType Coordinator KVManager Heap RequestQueue SchedUtils EncoderCache SpecControl SchedOutput SchedState EncoderSched Schedule.

#[local] Open Scope Z_scope.
#[local] Set Default Proof Using "Type*".

Lemma stable_lift {S A} (I : S → Prop) (o : result A) : stable I (lift_result o).
Proof. intros s. by destruct o. Qed.
#[export] Hint Resolve stable_lift : frame.

Section Frame.
Context {E : Env} {SE : SchedEnv}.

(** What a step never changes of a request; only the asynchronous scheduler counts the
    tokens in flight. *)
Definition core (async : bool) (q : Request) : Request :=
  set_status WAITING (set_num_computed_tokens 0 (set_spec_token_ids []
    (set_num_output_placeholders (if async then 0 else num_output_placeholders q)
      (set_is_prefill_chunk false (set_num_preemptions 0 (set_prefill_stats None (set_events [] q))))))).

Context (async : bool) (c : req_ref → Request) (D : Z).

(** The requests are those of [c] but for these fields; no list of draft tokens is longer
    than [D]. *)
Definition steady s : Prop :=
  (∀ r, core async (obj s r) = c r ∧ len (spec_token_ids (obj s r)) ≤ D) ∧ len (_spec_token_placeholders s) ≤ D ∧
  is_async_scheduler (config_ s) = async.
Definition steady_request (r : req_ref) (q : Request) : Prop := core async q = c r ∧ len (spec_token_ids q) ≤ D.

Lemma steady_put r q s : steady s → steady_request r q → steady (put_obj r q s).
Proof.
  intros [Ho Hp] Hq. split; [|done]. intros r'. unfold obj. simpl.
  destruct (decide (r' = r)) as [->|Hne]; [by rewrite lookup_insert_eq|]. rewrite lookup_insert_ne by done. apply Ho.
Qed.

Lemma frame_upd r f : (∀ q, steady_request r q → steady_request r (f q)) → stable steady (upd_req r f).
Proof. intros Hf. apply stable_modify. intros s Hs. apply steady_put; [done|]. apply Hf, Hs. Qed.
Lemma frame_on_req {A} r (m : M Request A) : stable (steady_request r) m → stable steady (on_req r m).
Proof.
  intros Hm. apply (stable_zoom _ _ _ (steady_request r)); [done|intros s Hs; apply Hs|]. intros s q. apply steady_put.
Qed.
Lemma frame_get r : stable steady (get_req r).
Proof. apply stable_gets. Qed.
Lemma frame_kv {A} (m : M KVCacheManager A) : stable steady (on_kv m).
Proof. by apply (stable_zoom _ _ _ (λ _, True)); [apply stable_true|..]. Qed.
Lemma frame_enc {A} d ed : stable steady (on_enc (A := A) d ed).
Proof. intros s Hs. unfold on_enc. by destruct (enc s) as [m|m]; [destruct (d m)|destruct (ed m)]. Qed.
Lemma frame_waiting {A} op : stable steady (on_waiting (A := A) op).
Proof. intros s Hs. unfold on_waiting. by destruct (op _ _). Qed.
Lemma frame_skipped {A} op : stable steady (on_skipped (A := A) op).
Proof. intros s Hs. unfold on_skipped. by destruct (op _ _). Qed.

Lemma frame_status r st : stable steady (upd_req r (set_status st)).
Proof. apply frame_upd. by intros q [? ?]. Qed.
Lemma frame_status_of r f : stable steady (upd_req r (λ q, set_status (f q) q)).
Proof. apply frame_upd. by intros q [? ?]. Qed.
Lemma frame_computed r n : stable steady (upd_req r (set_num_computed_tokens n)).
Proof. apply frame_upd. by intros q [? ?]. Qed.
Lemma frame_computed_of r f : stable steady (upd_req r (λ q, set_num_computed_tokens (f q) q)).
Proof. apply frame_upd. by intros q [? ?]. Qed.
Lemma frame_preemptions r f : stable steady (upd_req r (λ q, set_num_preemptions (f q) q)).
Proof. apply frame_upd. by intros q [? ?]. Qed.
Lemma frame_chunk r f : stable steady (upd_req r (λ q, set_is_prefill_chunk (f q) q)).
Proof. apply frame_upd. by intros q [? ?]. Qed.
Lemma frame_placeholders r n : async = true → stable steady (upd_req r (set_num_output_placeholders n)).
Proof. intros Ha. apply frame_upd. intros q [Hq Hl]. split; [|done]. rewrite <- Hq. unfold core. by rewrite Ha. Qed.
Lemma frame_stats r ps : stable steady (upd_req r (set_prefill_stats ps)).
Proof. apply frame_upd. by intros q [? ?]. Qed.
Lemma frame_event r e t : stable steady (on_req r (record_event e t)).
Proof. apply frame_on_req, stable_modify. by intros q [? ?]. Qed.
Lemma frame_clear r : stable steady (assign_spec r []).
Proof.
  apply stable_bind; [apply frame_upd; intros q [? Hl]|intros []; by apply stable_modify]. split; [done|].
  etrans; [|exact Hl]. unfold len. simpl. lia.
Qed.
Lemma py_slice_short {A} (l : list A) k : len (py_slice l 0 k) ≤ len l.
Proof. unfold len, py_slice. rewrite length_take, length_drop. lia. Qed.
Lemma frame_truncate r k : stable steady (truncate_spec r k).
Proof.
  intros s Hs. unfold truncate_spec, request_spec, mbind, M_bind, gets. simpl. case_decide; simpl.
  - destruct Hs as (H1 & H2 & H3). split_and!; [done| |done]. simpl. etrans; [apply py_slice_short|done].
  - apply steady_put; [done|]. destruct Hs as [H1 _]. destruct (H1 r). split; [done|].
    simpl. etrans; [apply py_slice_short|done].
Qed.

Lemma steady_set s f :
  steady s → objs (f s) = objs s ∧ _spec_token_placeholders (f s) = _spec_token_placeholders s ∧ config_ (f s) = config_ s →
  steady (f s).
Proof. intros Hs (Ho & Hp & Hc). unfold steady, obj in *. by rewrite Ho, Hp, Hc. Qed.
Lemma frame_modify f :
  (∀ s, objs (f s) = objs s ∧ _spec_token_placeholders (f s) = _spec_token_placeholders s ∧ config_ (f s) = config_ s) →
  stable steady (modify f).
Proof. intros Hf. apply stable_modify. intros s Hs. by apply steady_set. Qed.
End Frame.

#[export] Hint Resolve frame_get frame_kv frame_enc frame_waiting frame_skipped frame_status frame_status_of frame_computed
  frame_computed_of frame_preemptions frame_chunk frame_stats frame_event frame_clear
  frame_truncate : frame.
#[export] Hint Extern 5 (stable (steady _ _ _) (modify _)) =>
  apply frame_modify; intros; split_and!; repeat case_match; reflexivity : frame.

(** ** The step *)

Section FrameStep.
Context {E : Env} {SE : SchedEnv} (async : bool) (c : req_ref → Request) (D : Z).
Abbreviation steady := (steady async c D).
(** Without draft tokens, none is scheduled. *)
Definition steady_run (x : Run) : Prop := steady (sch x) ∧ (D ≤ 0 → scheduled_spec_decode_tokens (loc x) = []).

Lemma frame_sch {A} (m : M Scheduler A) : stable steady m → stable steady_run (on_sch m).
Proof. intros Hm. apply (stable_zoom _ _ _ steady); [done|by intros x [? _]|]. by intros x s' [_ ?]. Qed.
Lemma frame_loc_with (g : list (string * spec_list) → list (string * spec_list)) f :
  (∀ l, scheduled_spec_decode_tokens (f l) = g (scheduled_spec_decode_tokens l)) → g [] = [] →
  stable steady_run (upd_loc f).
Proof. intros Hf Hg. apply stable_modify. intros x [Hs Hl]. split; [done|]. intros HD. simpl. by rewrite Hf, Hl. Qed.
#[local] Hint Extern 4 (stable steady_run (upd_loc _)) => apply (frame_loc_with (λ d, d)); reflexivity : frame.
#[local] Hint Extern 5 (stable steady_run (upd_loc _)) => eapply (frame_loc_with (od_del _)); reflexivity : frame.
#[local] Hint Extern 4 (stable steady_run (on_sch _)) => apply frame_sch : frame.

Lemma frame_requests_at id : stable steady (requests_at id).
Proof. unfold requests_at. stable_run. Qed.
#[local] Hint Resolve frame_requests_at : frame.

Lemma frame_encoder_loop q computed shift l : ∀ i v, stable steady (encoder_loop q computed shift l i v).
Proof.
  induction l as [|f l IH]; intros i v; cbn [encoder_loop]; [auto with frame|].
  unfold enc_check_and_update_cache, enc_can_allocate. stable_run; apply IH.
Qed.
Lemma frame_try_encoder q a b d e : stable steady (_try_schedule_encoder_inputs q a b d e).
Proof. unfold _try_schedule_encoder_inputs. pose proof frame_encoder_loop. stable_run. Qed.
Lemma frame_enc_free q : stable steady (enc_free q).
Proof. unfold enc_free. stable_run. Qed.
Lemma frame_allocate_encoder r ids : stable steady (allocate_encoder_inputs r ids).
Proof. unfold allocate_encoder_inputs, enc_allocate. stable_run. Qed.
#[local] Hint Resolve frame_try_encoder frame_enc_free frame_allocate_encoder : frame.

Lemma frame_preempt r t : stable steady (_preempt_request r t).
Proof. unfold _preempt_request. stable_run. Qed.
#[local] Hint Resolve frame_preempt : frame.

Lemma frame_embeds q ids : stable steady_run (sum_encoder_embeds q ids).
Proof. unfold sum_encoder_embeds. stable_run. Qed.
#[local] Hint Resolve frame_embeds : frame.
Lemma frame_victim : stable steady_run take_victim.
Proof. unfold take_victim. stable_run. Qed.
#[local] Hint Resolve frame_victim : frame.
Lemma frame_allocate fuel r n t : stable steady_run (allocate_or_preempt fuel r n t).
Proof. induction fuel as [|fuel IH]; cbn [allocate_or_preempt]; stable_run. Qed.
Lemma frame_schedule_spec r n : stable steady_run (schedule_spec_tokens r n).
Proof.
  intros x Hx. unfold schedule_spec_tokens, mbind at 1, M_bind, gets. cbn [fst snd].
  destruct (request_spec_tokens (sch x) r) as [|t l] eqn:Hspec; [done|].
  assert (0 < D) as HD.
  { destruct Hx as [(Ho & Hp & _) _]. unfold request_spec_tokens, request_spec in Hspec. specialize (Ho r).
    case_decide; simpl in Hspec; [rewrite Hspec in Hp|rewrite Hspec in Ho]; unfold len in *; simpl in *; lia. }
  match goal with |- steady_run (?m x).2 => assert (stable steady_run m) as Hm; [|by apply Hm] end.
  stable_step; [|stable_run]. case_match; [|stable_run]. apply stable_modify. intros y [Hs _]. split; [done|lia].
Qed.
Lemma frame_schedule_encoder r l n l' : stable steady_run (schedule_encoder_inputs r l n l').
Proof. unfold schedule_encoder_inputs. stable_run. Qed.
#[local] Hint Resolve frame_allocate frame_schedule_spec frame_schedule_encoder : frame.
Lemma frame_running_one k t : stable steady_run (schedule_running_one k t).
Proof. unfold schedule_running_one. stable_run. Qed.
#[local] Hint Resolve frame_running_one : frame.
Lemma frame_running_loop fuel k t : stable steady_run (running_loop fuel k t).
Proof. induction fuel as [|fuel IH]; cbn [running_loop]; stable_run. Qed.
#[local] Hint Resolve frame_running_loop : frame.
Lemma frame_collect_loras : stable steady_run collect_loras.
Proof. unfold collect_loras. stable_run. Qed.

Lemma frame_on_queue {A} w op : stable steady (on_queue (A := A) w op).
Proof. unfold on_queue. stable_run. Qed.
#[local] Hint Resolve frame_on_queue : frame.
Lemma frame_select : stable steady _select_waiting_queue_for_scheduling.
Proof. unfold _select_waiting_queue_for_scheduling. stable_run. Qed.
Lemma frame_remote r : stable steady (_update_waiting_for_remote_kv r).
Proof. unfold _update_waiting_for_remote_kv. stable_run. Qed.
#[local] Hint Resolve frame_select frame_remote : frame.
Lemma frame_promote r : stable steady (_try_promote_blocked_waiting_request r).
Proof. unfold _try_promote_blocked_waiting_request. stable_run. Qed.
Lemma frame_skip w r : stable steady_run (skip_request w r).
Proof. unfold skip_request. stable_run. Qed.
Lemma frame_first_stats r a b : stable steady (set_first_prefill_stats r a b).
Proof. unfold set_first_prefill_stats. stable_run. Qed.
#[local] Hint Resolve frame_promote frame_skip frame_first_stats : frame.
Lemma frame_cached r : stable steady (cached_tokens r).
Proof. unfold cached_tokens. stable_run. Qed.
Lemma frame_waiting_tokens r a b d : stable steady_run (waiting_num_new_tokens r a b d).
Proof. unfold waiting_num_new_tokens. stable_run. Qed.
Lemma frame_untouch r : stable steady (untouch_encoder r).
Proof. unfold untouch_encoder. stable_run. Qed.
Lemma frame_tell r a b d : stable steady (tell_connector r a b d).
Proof. unfold tell_connector. stable_run. Qed.
Lemma frame_start w r n m l b l' t : stable steady_run (start_request w r n m l b l' t).
Proof. unfold start_request. stable_run. Qed.
#[local] Hint Resolve frame_cached frame_waiting_tokens frame_untouch frame_tell frame_start : frame.
Lemma frame_give w r b a e y m q h l n nb l' t : stable steady_run (give_blocks w r b a e y m q h l n nb l' t).
Proof. unfold give_blocks. stable_run. Qed.
#[local] Hint Resolve frame_give : frame.
Lemma frame_ready w r t : stable steady_run (schedule_ready_request w r t).
Proof. unfold schedule_ready_request. stable_run. Qed.
#[local] Hint Resolve frame_ready : frame.
Lemma frame_waiting_one t : stable steady_run (schedule_waiting_one t).
Proof. unfold schedule_waiting_one. stable_run. Qed.
#[local] Hint Resolve frame_waiting_one : frame.
Lemma frame_waiting_loop fuel t : stable steady_run (waiting_loop fuel t).
Proof. induction fuel as [|fuel IH]; cbn [waiting_loop]; stable_run. Qed.
#[local] Hint Resolve frame_waiting_loop frame_collect_loras : frame.
Lemma frame_schedule_waiting t : stable steady_run (schedule_waiting t).
Proof. unfold schedule_waiting. stable_run. Qed.

Lemma frame_cached_loop b l : ∀ d, stable steady_run (cached_request_loop b l d).
Proof.
  induction l as [|r l IH]; intros d; cbn [cached_request_loop]; [auto with frame|].
  unfold cached_request_one. stable_run; apply IH.
Qed.
Lemma frame_build k n : stable steady_run (build_output k n).
Proof.
  unfold build_output, _make_cached_request_data, new_request_one, enc_get_freed_mm_hashes.
  pose proof frame_cached_loop. stable_run.
Qed.
Lemma frame_constraints : stable steady_run check_constraints.
Proof. unfold check_constraints. stable_run. Qed.
Lemma frame_meta o : stable steady (add_connector_meta o).
Proof. unfold add_connector_meta. stable_run. Qed.
Lemma frame_after_loop l : ∀ has, stable steady (after_schedule_loop l has).
Proof.
  induction l as [|[id n] l IH]; intros has; cbn [after_schedule_loop]; [auto with frame|].
  unfold after_schedule_one. stable_run; apply IH.
Qed.
Lemma frame_async_loop spec l : async = true → ∀ p, stable steady (async_after_schedule_loop spec l p).
Proof.
  intros Ha. pose proof (λ r n, frame_placeholders async c D r n Ha).
  induction l as [|[id n] l IH]; intros p; cbn [async_after_schedule_loop]; [auto with frame|].
  unfold async_after_schedule_one, share_spec. stable_run; apply IH.
Qed.
Lemma frame_after o : stable steady (_update_after_schedule o).
Proof.
  unfold _update_after_schedule. pose proof frame_after_loop. stable_step; [stable_run|]. stable_step; [stable_run|].
  intros s Hs. unfold mbind, M_bind, gets. cbn [fst snd]. destruct (is_async_scheduler (config_ s)) eqn:Ha; cbn [fst snd].
  - assert (async = true) as Hat by (destruct Hs as (_ & _ & <-); exact Ha).
    pose proof (frame_async_loop (out_scheduled_spec_decode_tokens o) (out_num_scheduled_tokens o) Hat
      (out_pending_structured_output_tokens o) s Hs) as Hl.
    by destruct (async_after_schedule_loop _ _ _ s) as [[] ?].
  - done.
Qed.
#[local] Hint Resolve frame_schedule_waiting frame_build frame_constraints frame_meta frame_after : frame.

Lemma frame_schedule t : stable steady (schedule t).
Proof.
  intros s Hs. unfold schedule. set (l := mkStep _ _ _ _ _ _ _ _ _ _ _ _ _).
  assert (stable steady_run (schedule_run t)) as Hrun by (unfold schedule_run; stable_run).
  assert (steady_run (mkRun s l)) as Hx by by split. specialize (Hrun _ Hx).
  destruct (schedule_run t (mkRun s l)). apply Hrun.
Qed.
End FrameStep.
