(* ===== verification/SchedInv.v ===== *)
(** * The invariant of the scheduler

    What holds between the methods of vllm/v1/core/sched/scheduler.py for requests without
    multi-modal inputs and without connectors: every request is in one of the three lists,
    runs with the slots of its computed tokens or waits with none (or those of its
    session), and the queues are in the order of their policy. *)

From Stdlib Require Import FunctionalExtensionality Sorted.
From S2P Require Import Prelude FreeQueue Request BlockHash BlockPool KVSpec CacheHit SingleType Coordinator KVManager KVService Heap RequestQueue SchedUtils EncoderCache SpecControl SchedOutput SchedState EncoderSched Schedule.

#[local] Open Scope Z_scope.
#[local] Set Default Proof Using "Type*".

(** ** The queues *)

(** The requests in a queue, in the order they leave it. *)
Definition qlist (obj : req_ref → Request) (q : request_queue) : list req_ref :=
  queue_iter (QueueOps := request_queue_ops obj) q.

(** The queue is of the class of the policy, and in order. *)
Definition queue_ok (obj : req_ref → Request) (p : SchedulingPolicy) (q : request_queue) : Prop :=
  match p, q with
  | FCFS, FCFSRequestQueue _ => True
  | PRIORITY, PriorityRequestQueue h => heap (H0 := Priority.ref_order obj) (Priority._heap h)
  | _, _ => False
  end.

Lemma queue_call_ok obj (obj_id : ∀ r, object_id (obj r) = r) p c q :
  queue_ok obj p q →
  let '(o, q') := run_queue_call (H := request_queue_ops obj) c q in
  queue_ok obj p q' ∧
  (o, qlist obj q') = list_call (policy_place obj p) (policy_front obj p) c (qlist obj q).
Proof.
  intros Hq. destruct p, q as [q|q]; try done; simpl in *.
  - pose proof (queue_step (QueueLaws := fcfs_laws) c q I) as Hs.
    assert (run_queue_call (H := request_queue_ops obj) c (FCFSRequestQueue q) =
            let '(o, q') := run_queue_call c q in (o, FCFSRequestQueue q')) as ->.
    { destruct c; first [apply dispatch_bind|done]. }
    destruct (run_queue_call c q) as [o q']. by destruct Hs as [_ Hs].
  - pose proof (queue_step (QueueLaws := priority_laws obj obj_id) c q Hq) as Hs.
    assert (run_queue_call (H := request_queue_ops obj) c (PriorityRequestQueue q) =
            let '(o, q') := run_queue_call (H := priority_ops obj) c q in (o, PriorityRequestQueue q')) as ->.
    { destruct c; first [apply dispatch_bind|done]. }
    destruct (run_queue_call c q) as [o q']. by destruct Hs.
Qed.

Lemma create_queue_ok obj p :
  queue_ok obj p (create_request_queue p) ∧ qlist obj (create_request_queue p) = [].
Proof. destruct p; [done|]. split; [|done]. intros i _ Hi. simpl in Hi. lia. Qed.

Section Queue.
Context (obj : req_ref → Request) (obj_id : ∀ r, object_id (obj r) = r) (p : SchedulingPolicy).

#[local] Instance ops : QueueOps request_queue := request_queue_ops obj.
#[local] Abbreviation qlist := (qlist obj).
#[local] Abbreviation queue_ok := (queue_ok obj p).

Lemma policy_front_perm r l : policy_front obj p r l ≡ₚ r :: l.
Proof. destruct p; simpl; [done|by apply place_sorted_perm]. Qed.
Lemma policy_place_perm r l : policy_place obj p r l ≡ₚ r :: l.
Proof. destruct p; simpl; [by rewrite Permutation_app_comm|by apply place_sorted_perm]. Qed.

Lemma fronts_perm rs : ∀ l, foldl (λ l r, policy_front obj p r l) l rs ≡ₚ rs ++ l.
Proof.
  induction rs as [|r rs IH]; intros l; simpl; [done|]. rewrite IH, policy_front_perm.
  by rewrite Permutation_middle.
Qed.

(** A call whose result is wrapped by [run_queue_call] *)
Lemma wp_queue_call {A} (m : M request_queue A) (f : A → queue_out) c q Q :
  queue_ok q → (∀ q, run_queue_call c q = (a ← m; mret (f a)) q) →
  match list_call (policy_place obj p) (policy_front obj p) c (qlist q) with
  | (Ok o, l) => ∀ a q', f a = o → queue_ok q' → qlist q' = l → Q a q'
  | (Raise _, _) => False
  end → wp m Q q.
Proof.
  intros Hq Hm Hl. pose proof (queue_call_ok obj obj_id p c q Hq) as Hc. rewrite Hm in Hc. unfold mbind, M_bind in Hc.
  unfold wp. destruct (m q) as [[a|e] q']; destruct Hc as [Hq' Hc]; rewrite <- Hc in Hl; [|done].
  by apply Hl.
Qed.

Lemma wp_pop x l q Q :
  queue_ok q → qlist q = x :: l → (∀ q', queue_ok q' → qlist q' = l → Q x q') → wp pop_request Q q.
Proof.
  intros Hq Hl HQ. apply (wp_queue_call _ OReq Pop); [done|done|]. simpl. rewrite Hl.
  intros a q' [= ->]. apply HQ.
Qed.

Lemma wp_peek x l q Q :
  queue_ok q → qlist q = x :: l → (∀ q', queue_ok q' → qlist q' = x :: l → Q x q') → wp peek_request Q q.
Proof.
  intros Hq Hl HQ. apply (wp_queue_call _ OReq Peek); [done|done|]. simpl. rewrite Hl.
  intros a q' [= ->]. apply HQ.
Qed.

Lemma wp_prepend r q Q :
  queue_ok q → (∀ q', queue_ok q' → qlist q' ≡ₚ r :: qlist q → Q tt q') → wp (prepend_request r) Q q.
Proof.
  intros Hq HQ. apply (wp_queue_call _ (λ _, OUnit) (Prepend r)); [done|done|]. simpl.
  intros [] q' _ Hq' Hl. apply HQ; [done|]. rewrite Hl. apply policy_front_perm.
Qed.

Lemma wp_prepends rs q Q :
  queue_ok q → (∀ q', queue_ok q' → qlist q' ≡ₚ rs ++ qlist q → Q tt q') → wp (prepend_requests rs) Q q.
Proof.
  intros Hq HQ. apply (wp_queue_call _ (λ _, OUnit) (PrependAll rs)); [done|done|]. simpl.
  intros [] q' _ Hq' Hl. apply HQ; [done|]. rewrite Hl. apply fronts_perm.
Qed.

Lemma wp_add r q Q :
  queue_ok q → (∀ q', queue_ok q' → qlist q' ≡ₚ r :: qlist q → Q tt q') → wp (add_request r) Q q.
Proof.
  intros Hq HQ. apply (wp_queue_call _ (λ _, OUnit) (Add r)); [done|done|]. simpl.
  intros [] q' _ Hq' Hl. apply HQ; [done|]. rewrite Hl. apply policy_place_perm.
Qed.

Lemma wp_removes rs q Q :
  queue_ok q → (∀ q', queue_ok q' → qlist q' = filter (λ r, r ∉ rs) (qlist q) → Q tt q') →
  wp (remove_requests rs) Q q.
Proof.
  intros Hq HQ. apply (wp_queue_call _ (λ _, OUnit) (RemoveAll rs)); [done|done|]. simpl.
  intros [] q' _ Hq' Hl. by apply HQ.
Qed.

Lemma queue_bool_ok q : queue_ok q → queue_bool q = bool_decide (qlist q ≠ []).
Proof.
  intros Hq. pose proof (queue_call_ok obj obj_id p Bool q Hq) as Hc. simpl in Hc. unfold mbind, M_bind, gets in Hc. simpl in Hc.
  destruct Hc as [_ Hc]. by injection Hc.
Qed.

Lemma queue_len_ok q : queue_ok q → queue_len q = len (qlist q).
Proof.
  intros Hq. pose proof (queue_call_ok obj obj_id p Len q Hq) as Hc. simpl in Hc. unfold mbind, M_bind, gets in Hc. simpl in Hc.
  destruct Hc as [_ Hc]. by injection Hc.
Qed.
End Queue.

(** The order of a queue reads only the keys of the requests. *)
Definition order_key (q : Request) : Z * Z * string * Z := (priority q, arrival_time q, request_id q, object_id q).

Lemma request_lt_key a a' b b' :
  order_key a = order_key a' → order_key b = order_key b' → request_lt a b = request_lt a' b'.
Proof. unfold order_key, request_lt. intros [= -> -> -> ->] [= -> -> -> ->]. done. Qed.

Lemma ref_order_key obj obj' :
  (∀ r, order_key (obj r) = order_key (obj' r)) → Priority.ref_order obj = Priority.ref_order obj'.
Proof.
  intros Hk. apply functional_extensionality. intros a. apply functional_extensionality. intros b.
  by apply request_lt_key.
Qed.

Lemma qlist_key obj obj' q : (∀ r, order_key (obj r) = order_key (obj' r)) → qlist obj q = qlist obj' q.
Proof.
  intros Hk. destruct q as [q|[h]]; [done|]. unfold qlist. simpl. unfold Priority.queue_iter.
  by rewrite (ref_order_key obj obj').
Qed.

Lemma queue_ok_key obj obj' p q :
  (∀ r, order_key (obj r) = order_key (obj' r)) → queue_ok obj p q → queue_ok obj' p q.
Proof.
  intros Hk. destruct p, q as [q|[h]]; try done. simpl. by rewrite (ref_order_key obj obj').
Qed.

(** It is enough that the keys of the requests in the queue are the same. *)
Lemma queue_keys_in obj obj' p q :
  (∀ r, object_id (obj r) = r) → (∀ r, object_id (obj' r) = r) → queue_ok obj p q →
  (∀ r, r ∈ qlist obj q → order_key (obj r) = order_key (obj' r)) →
  queue_ok obj' p q ∧ qlist obj' q = qlist obj q.
Proof.
  intros Hid Hid' Hq Hk. destruct p, q as [q|[h]]; try done. simpl in Hq.
  set (l := qlist obj (PriorityRequestQueue (Priority.mkPriority h))) in *.
  destruct (heap_iter_ok obj Hid h Hq) as [Hs Hp].
  change (StronglySorted (@le _ (Priority.ref_order obj)) l) in Hs. change (l ≡ₚ h) in Hp. clearbody l.
  assert (Hlt : ∀ a b, a ∈ h → b ∈ h → request_lt (obj a) (obj b) = request_lt (obj' a) (obj' b)).
  { intros a b Ha Hb. apply request_lt_key; apply Hk; by rewrite Hp. }
  assert (Hin : ∀ i, (i < length h)%nat → h !!! i ∈ h).
  { intros i Hi. by apply list_elem_of_lookup_2 with i, list_lookup_lookup_total_lt. }
  assert (Hheap : heap (H0 := Priority.ref_order obj') h).
  { intros i Hi0 Hi. specialize (Hq i Hi0 Hi). pose proof (par_lt i ltac:(lia)).
    change (request_lt (obj' (h !!! i)) (obj' (h !!! par i)) = false). rewrite <- Hlt; [exact Hq|apply Hin; lia..]. }
  split; [done|]. apply (heap_iter_eq obj' Hid' h); [done|by symmetry|].
  assert (∀ a, a ∈ l → a ∈ h) as Hsub by (intros a; by rewrite Hp). clear Hp Hk.
  induction Hs as [|a l Hs IH Ha]; constructor; [apply IH; set_solver|].
  rewrite Forall_forall in *. intros b Hb. change (request_lt (obj' b) (obj' a) = false).
  rewrite <- Hlt by set_solver. by apply Ha.
Qed.

(** ** The invariant *)

Section Inv.
Context {E : Env} {SE : SchedEnv} {max_len hash_bs : Z} {KS : KVService max_len hash_bs}.
Implicit Types (s : Scheduler) (cov : gmap string Z) (r : req_ref) (q : Request) (P : list req_ref).

(** A model without LoRA adapters, Mamba layers and connectors. *)
Record plain_settings (c : SchedulerSettings) : Prop := {
  ps_max : max_model_len c = max_len;
  ps_loras : max_loras c = None;
  ps_mamba : need_mamba_block_aligned_split c = false;
  ps_zero : needs_zeroing c = false;
  ps_budget : 0 ≤ max_num_scheduled_tokens c;
  ps_lookahead : 0 ≤ num_lookahead_tokens c
}.

(** A request without multi-modal inputs, with its block hashes; its statistics are open
    as long as it has produced nothing. *)
Record plain q : Prop := {
  pl_text : mm_features q = [];
  pl_hashed : hashed max_len hash_bs q;
  pl_stats : is_Some (prefill_stats q) → num_tokens q ≤ num_prompt_tokens q
}.

Record run_ok cov q : Prop := {
  ro_status : status q = RUNNING;
  ro_plain : plain q;
  ro_cov : ∃ c, cov !! request_id q = Some c ∧ 0 ≤ num_computed_tokens q ≤ c;
  ro_len : num_computed_tokens q < max_len
}.

(** The statuses of a request that waits: only structured output waits for a grammar, and
    a session waits for its next part only when none is queued. *)
Definition wait_status q : Prop :=
  match status q with
  | WAITING | PREEMPTED => True
  | WAITING_FOR_STRUCTURED_OUTPUT_GRAMMAR => is_Some (structured_output_request q)
  | WAITING_FOR_STREAMING_REQ => resumable q = true ∧ match streaming_queue q with None | Some [] => True | _ => False end
  | _ => False
  end.

(** It holds nothing, or, as a session, the slots of its computed tokens. *)
Record wait_ok cov q : Prop := {
  wo_status : wait_status q;
  wo_plain : plain q;
  wo_cov : (cov !! request_id q = None ∧ num_computed_tokens q = 0) ∨
           (resumable q = true ∧ ∃ c, cov !! request_id q = Some c ∧ 0 < num_computed_tokens q ≤ c ∧ num_computed_tokens q < num_tokens q)
}.

Definition waiting_list s : list req_ref := qlist (obj s) (waiting s).
Definition skipped_list s : list req_ref := qlist (obj s) (skipped_waiting s).
(** All requests; [P] are those put aside during a step. *)
Definition all_reqs s P : list req_ref := running s ++ waiting_list s ++ skipped_list s ++ P.

Record inv s cov P : Prop := {
  si_obj : ∀ r, object_id (obj s r) = r;
  si_settings : plain_settings (config_ s);
  si_conn : connector s = None;
  si_ec : ec_connector s = None;
  si_waiting : queue_ok (obj s) (policy (config_ s)) (waiting s);
  si_skipped : queue_ok (obj s) (policy (config_ s)) (skipped_waiting s);
  si_ids : NoDup ((λ r, request_id (obj s r)) <$> all_reqs s P);
  si_reg : ∀ r, r ∈ all_reqs s P → requests_get s (request_id (obj s r)) = Some r;
  si_dom : ∀ id r, requests_get s id = Some r → r ∈ all_reqs s P ∧ request_id (obj s r) = id;
  si_cov : ∀ id n, cov !! id = Some n → ∃ r, r ∈ all_reqs s P ∧ request_id (obj s r) = id;
  si_run : ∀ r, r ∈ running s → run_ok cov (obj s r);
  si_wait : ∀ r, r ∈ waiting_list s ++ skipped_list s ++ P → wait_ok cov (obj s r);
  si_kv : serves (kv s) cov;
  si_len : len (running s) ≤ max_num_running_reqs (config_ s);
  si_keys : NoDup (s_requests s).*1
}.

(** A request that was preempted was not scheduled in the last step. *)
Definition prev_ok s : Prop :=
  ∀ r, r ∈ waiting_list s ++ skipped_list s → status (obj s r) = PREEMPTED →
    request_id (obj s r) ∉ prev_step_scheduled_req_ids s.

(** What only pausing and sessions change. *)
Definition flags s : PauseState * Z := (_pause_state s, num_waiting_for_streaming_input s).

(** What no step of [schedule] changes until its end. *)
Definition fixed s : SchedulerSettings * option KVConn * option ECConn * list (string * req_ref) * gset string :=
  (config_ s, connector s, ec_connector s, s_requests s, prev_step_scheduled_req_ids s).

Lemma NoDup_rid s cov P r r' :
  inv s cov P → r ∈ all_reqs s P → r' ∈ all_reqs s P → request_id (obj s r) = request_id (obj s r') → r = r'.
Proof.
  intros Hi Hr Hr' Heq. pose proof (si_reg _ _ _ Hi r Hr) as H1. pose proof (si_reg _ _ _ Hi r' Hr') as H2.
  rewrite Heq in H1. congruence.
Qed.

Lemma inv_nodup s cov P : inv s cov P → NoDup (all_reqs s P).
Proof. intros Hi. by eapply NoDup_fmap_1, si_ids. Qed.

(** One request changes, and moves between the lists. *)
Lemma inv_change s s' cov cov' P P' r :
  inv s cov P → r ∈ all_reqs s P → fixed s' = fixed s →
  (∀ r', r' ≠ r → obj s' r' = obj s r') → order_key (obj s' r) = order_key (obj s r) →
  (∀ id, id ≠ request_id (obj s r) → cov' !! id = cov !! id) → serves (kv s') cov' →
  queue_ok (obj s') (policy (config_ s')) (waiting s') → queue_ok (obj s') (policy (config_ s')) (skipped_waiting s') →
  all_reqs s' P' ≡ₚ all_reqs s P →
  (∀ r', r' ∈ running s' → r' ≠ r → r' ∈ running s) →
  (∀ r', r' ∈ waiting_list s' ++ skipped_list s' ++ P' → r' ≠ r → r' ∈ waiting_list s ++ skipped_list s ++ P) →
  (r ∈ running s' → run_ok cov' (obj s' r)) →
  (r ∈ waiting_list s' ++ skipped_list s' ++ P' → wait_ok cov' (obj s' r)) →
  len (running s') ≤ max_num_running_reqs (config_ s') →
  inv s' cov' P'.
Proof.
  intros Hi Hr Hfix Hobj Hkey Hcov Hkv Hw Hk Hall Hrun Hwait Hr1 Hr2 Hlen.
  unfold fixed in Hfix. injection Hfix as Hc Hcn Hec Hreq Hprev.
  assert (Hk' : ∀ r', order_key (obj s' r') = order_key (obj s r')).
  { intros r'. destruct (decide (r' = r)) as [->|Hne]; [done|]. by rewrite Hobj. }
  assert (Hid : ∀ r', request_id (obj s' r') = request_id (obj s r')).
  { intros r'. specialize (Hk' r'). unfold order_key in Hk'. congruence. }
  assert (Hin : ∀ r', r' ∈ running s ∨ r' ∈ waiting_list s ++ skipped_list s ++ P → r' ∈ all_reqs s P).
  { intros r'. unfold all_reqs. set_solver. }
  assert (Hcv : ∀ r', r' ∈ running s ∨ r' ∈ waiting_list s ++ skipped_list s ++ P → r' ≠ r →
                 cov' !! request_id (obj s r') = cov !! request_id (obj s r')).
  { intros r' Hr' Hne. apply Hcov. intros He. apply Hne. by eapply (NoDup_rid _ _ _ r' r Hi); [apply Hin|..]. }
  destruct Hi as [Hio His Hico Hie Hiw Hik Hids Hreg Hdom Hcovd Hir Hiwt Hikv Hil Hks].
  split; [| |congruence|congruence|done|done|..|done|done|by rewrite Hreq].
  - intros r'. specialize (Hk' r'). unfold order_key in Hk'. rewrite <- (Hio r') at 2. congruence.
  - by rewrite Hc.
  - rewrite Hall. erewrite list_fmap_ext; [exact Hids|]. intros i x _. apply Hid.
  - intros r' Hr'. rewrite Hall in Hr'. rewrite Hid. unfold requests_get. rewrite Hreq. by apply Hreg.
  - intros id r' Hg. rewrite Hall, Hid. apply (Hdom id). unfold requests_get in *. by rewrite <- Hreq.
  - intros id n Hn. destruct (decide (id = request_id (obj s r))) as [->|Hne].
    + exists r. by rewrite Hall, Hid.
    + rewrite Hcov in Hn by done. destruct (Hcovd id n Hn) as (r' & ? & <-). exists r'. by rewrite Hall, Hid.
  - intros r' Hr'. destruct (decide (r' = r)) as [->|Hne]; [by apply Hr1|].
    specialize (Hrun r' Hr' Hne). destruct (Hir r' Hrun). rewrite (Hobj r' Hne). split; try done.
    rewrite Hcv by auto. done.
  - intros r' Hr'. destruct (decide (r' = r)) as [->|Hne]; [by apply Hr2|].
    specialize (Hwait r' Hr' Hne). destruct (Hiwt r' Hwait). rewrite (Hobj r' Hne). split; try done.
    rewrite Hcv by auto. done.
Qed.

(** Nothing that the invariant speaks of changes. *)
Lemma inv_same s s' cov P :
  inv s cov P → fixed s' = fixed s → objs s' = objs s → running s' = running s →
  waiting s' = waiting s → skipped_waiting s' = skipped_waiting s → kv s' = kv s → inv s' cov P.
Proof.
  intros [] Hfix Ho Hr Hw Hk Hkv. unfold fixed in Hfix. injection Hfix as Hc Hcn Hec Hreq Hprev.
  assert (obj s' = obj s) as Hob by (unfold obj; by rewrite Ho).
  split; unfold all_reqs, waiting_list, skipped_list, requests_get in *;
    rewrite ?Hob, ?Hc, ?Hr, ?Hw, ?Hk, ?Hkv, ?Hcn, ?Hec, ?Hreq, ?Hprev; done.
Qed.
End Inv.
