(* ===== verification/SchedRun.v ===== *)
(** * The running requests of a step

    The first loop of [Scheduler.schedule] in vllm/v1/core/sched/scheduler.py: under the
    invariant it raises nothing, ends, keeps every request, stays in its token budget and
    gives every scheduled token a slot, whatever it preempts on the way. *)

From S2P Require Import Prelude Stable FreeQueue Request BlockHash BlockPool KVSpec CacheHit SingleType Coordinator KVManager KVService Heap RequestQueue SchedUtils EncoderCache SpecControl SchedOutput SchedState EncoderSched Schedule SchedFrame SchedInv.

#[local] Open Scope Z_scope.
#[local] Set Default Proof Using "Type*".

(** ** Lists *)

Lemma remove_first_notin x (l : list req_ref) y : y ∈ remove_first x l → y ∈ l.
Proof. apply remove_first_subseteq. Qed.

Lemma remove_first_last x (l : list req_ref) : x ∉ l → remove_first x (l ++ [x]) = l.
Proof.
  induction l as [|y l IH]; intros Hx; simpl.
  - by rewrite bool_decide_true.
  - rewrite bool_decide_false by set_solver. f_equal. apply IH. set_solver.
Qed.

Lemma remove_first_nodup x (l : list req_ref) : NoDup l → NoDup (remove_first x l) ∧ x ∉ remove_first x l.
Proof.
  induction 1 as [|y l Hy Hl IH]; simpl; [split; [constructor|apply not_elem_of_nil]|].
  case_bool_decide as Hd; [by subst|]. destruct IH as [H1 H2]. split.
  - constructor; [|done]. intros Hin. by apply Hy, (remove_first_subseteq x l).
  - set_solver.
Qed.

Lemma remove_first_length x (l : list req_ref) : x ∈ l → S (length (remove_first x l)) = length l.
Proof. intros Hx. apply remove_first_perm in Hx. apply Permutation_length in Hx. simpl in Hx. lia. Qed.

Lemma remove_first_elem x (l : list req_ref) y : NoDup l → y ∈ remove_first x l ↔ y ∈ l ∧ y ≠ x.
Proof.
  intros Hl. split.
  - intros Hy. split; [by eapply remove_first_notin|]. intros ->. by apply (remove_first_nodup x l Hl).
  - intros [Hy Hne]. destruct (decide (x ∈ l)) as [Hx|Hx].
    + rewrite (remove_first_perm x l Hx) in Hy. set_solver.
    + clear Hl. induction l as [|z l IH]; [done|]. simpl. rewrite bool_decide_false by set_solver. set_solver.
Qed.

(** Taking an element out of a list moves the later ones one place forward. *)
Lemma take_tail {A} (l : list A) i x y : x ∈ take i l → x ∈ take (S i) (y :: l).
Proof. intros Hx. simpl. by right. Qed.

Lemma elem_of_take_S {A} (l : list A) i x : x ∈ take i l → x ∈ take (S i) l.
Proof. rewrite !elem_of_take. intros (j & ? & ?). exists j. split; [done|lia]. Qed.

Lemma take_remove_first v (l : list req_ref) : ∀ i x,
  x ∈ take i l → x ≠ v → x ∈ take i (remove_first v l).
Proof.
  induction l as [|y l IH]; intros i x Hx Hne; simpl; [done|].
  destruct i as [|i]; [by apply elem_of_nil in Hx|]. simpl in Hx.
  apply elem_of_cons in Hx. case_bool_decide as Hv; subst.
  - destruct Hx as [->|Hx]; [done|]. by apply elem_of_take_S.
  - simpl. destruct Hx as [->|Hx]; [by left|]. right. by apply IH.
Qed.

Lemma take_remove_first_before v (l : list req_ref) : ∀ i x,
  v ∈ take i l → x ∈ take i l → x ≠ v → x ∈ take (i - 1) (remove_first v l).
Proof.
  induction l as [|y l IH]; intros i x Hv Hx Hne; simpl; [rewrite take_nil in Hx; by apply elem_of_nil in Hx|].
  destruct i as [|i]; [by apply elem_of_nil in Hx|]. simpl in Hv, Hx. simpl. rewrite Nat.sub_0_r.
  apply elem_of_cons in Hx. case_bool_decide as Hd; subst.
  - by destruct Hx as [->|Hx].
  - apply elem_of_cons in Hv as [->|Hv]; [done|]. destruct i as [|i]; [by apply elem_of_nil in Hv|].
    simpl. destruct Hx as [->|Hx]; [by left|]. right.
    specialize (IH (S i) x Hv Hx Hne). simpl in IH. by rewrite Nat.sub_0_r in IH.
Qed.

(** ** Dictionaries *)

Section Dict.
Context {V : Type}.
Implicit Types (d : list (string * V)).

Lemma od_get_set_eq k v d : od_get k (od_set k v d) = Some v.
Proof. by rewrite od_get_set, decide_True. Qed.

Lemma od_get_set_ne k k' v d : k' ≠ k → od_get k' (od_set k v d) = od_get k' d.
Proof. intros Hne. by rewrite od_get_set, decide_False. Qed.

Lemma od_get_del_ne k k' d : k' ≠ k → od_get k' (od_del k d) = od_get k' d.
Proof.
  intros Hne. induction d as [|[k2 v2] d IH]; simpl; [done|]. case_decide; simpl; subst; [by rewrite decide_False|].
  case_decide; [done|exact IH].
Qed.

Lemma od_get_del_none k k' d : od_get k' d = None → od_get k' (od_del k d) = None.
Proof.
  induction d as [|[k2 v2] d IH]; simpl; [done|]. repeat case_decide; simpl; subst; try done.
  - by rewrite decide_False.
Qed.

Lemma od_del_perm k d : k ∈ d.*1 → d.*1 ≡ₚ k :: (od_del k d).*1.
Proof.
  induction d as [|[k2 v2] d IH]; simpl; [by intros ?%elem_of_nil|]. intros Hk. case_decide; subst; [done|].
  simpl. rewrite IH at 1 by set_solver. apply perm_swap.
Qed.

Lemma od_set_perm k v d : k ∉ d.*1 → (od_set k v d).*1 ≡ₚ k :: d.*1.
Proof. intros Hk. rewrite od_set_new by done. rewrite fmap_app. simpl. by rewrite Permutation_app_comm. Qed.

Lemma od_del_nodup k d : NoDup d.*1 → k ∉ (od_del k d).*1 ∧ NoDup (od_del k d).*1.
Proof.
  intros Hd. destruct (decide (k ∈ d.*1)) as [Hk|Hk].
  - rewrite (od_del_perm k d Hk) in Hd. by apply NoDup_cons in Hd.
  - assert (od_del k d = d) as ->; [|done]. clear Hd. induction d as [|[k2 v2] d IH]; simpl; [done|].
    rewrite decide_False by set_solver. f_equal. apply IH. set_solver.
Qed.

Lemma od_get_is_Some k d : k ∈ d.*1 ↔ is_Some (od_get k d).
Proof.
  induction d as [|[k2 v2] d IH]; simpl.
  - split; [by intros ?%elem_of_nil|by intros [? ?]].
  - case_decide; subst; [split; [by eexists|by left]|]. rewrite <- IH. set_solver.
Qed.
End Dict.

(** ** Objects and components *)

Section Run.
Context {E : Env} {SE : SchedEnv} {max_len hash_bs : Z} {KS : KVService max_len hash_bs}.
Implicit Types (s : Scheduler) (cov : gmap string Z) (r : req_ref) (q : Request) (P : list req_ref).

Lemma obj_put r q s : obj (put_obj r q s) r = q.
Proof. unfold obj, put_obj. simpl. by rewrite lookup_insert_eq. Qed.
Lemma obj_put_ne r r' q s : r' ≠ r → obj (put_obj r q s) r' = obj s r'.
Proof. intros Hne. unfold obj, put_obj. simpl. by rewrite lookup_insert_ne. Qed.

Lemma wp_on_kv {A} (m : M KVCacheManager A) Q s :
  wp m (λ a k, Q a (set_kv k s)) (kv s) → wp (on_kv m) Q s.
Proof. apply wp_zoom. Qed.

Lemma wp_on_waiting {A} (op : QueueOps request_queue → M request_queue A) Q s :
  wp (op (request_queue_ops (obj s))) (λ a w, Q a (set_waiting w s)) (waiting s) → wp (on_waiting op) Q s.
Proof. unfold wp, on_waiting. by destruct (op _ (waiting s)) as [[] ?]. Qed.
Lemma wp_on_skipped {A} (op : QueueOps request_queue → M request_queue A) Q s :
  wp (op (request_queue_ops (obj s))) (λ a w, Q a (set_skipped_waiting w s)) (skipped_waiting s) →
  wp (on_skipped op) Q s.
Proof. unfold wp, on_skipped. by destruct (op _ (skipped_waiting s)) as [[] ?]. Qed.

(** An assignment to a request changes only what it assigns. *)
Lemma wp_upd_req r f Q s : Q tt (put_obj r (f (obj s r)) s) → wp (upd_req r f) Q s.
Proof. apply wp_modify. Qed.
Lemma wp_on_req {A} r (m : M Request A) Q s : wp m (λ a q, Q a (put_obj r q s)) (obj s r) → wp (on_req r m) Q s.
Proof. intros HQ. exact (wp_zoom (λ s, obj s r) (put_obj r) m Q s HQ). Qed.

Lemma wp_assign_spec r l Q s :
  (∀ a, Q tt (set_spec_alias a (put_obj r (set_spec_token_ids l (obj s r)) s))) → wp (assign_spec r l) Q s.
Proof. intros HQ. unfold assign_spec. apply wp_bind, wp_upd_req, wp_modify, HQ. Qed.

(** Iteration over an empty set. *)
Context (set_iter_nil : set_iter [] = []).

Lemma enc_free_text q s Q : mm_features q = [] → (∀ e, Q tt (set_enc e s)) → wp (enc_free q) Q s.
Proof.
  intros Hq HQ. unfold enc_free, on_enc, wp.
  assert (py_range 0 (len (mm_features q)) = []) as Hr by by rewrite Hq.
  destruct (enc s) as [m|m]; simpl.
  - unfold EncoderCacheManager.free, EncoderCacheManager.get_cached_input_ids, mbind, M_bind, gets.
    rewrite Hr. cbn [filter list_filter]. rewrite set_iter_nil. simpl. apply HQ.
  - unfold EncoderDecoderCacheManager.free. rewrite Hr. simpl. apply HQ.
Qed.
End Run.

Ltac sch_step :=
  lazymatch goal with
  | |- wp (get_req _) _ _ => apply wp_gets
  | |- wp (gets _) _ _ => apply wp_gets; cbv beta
  | |- wp (upd_req _ _) _ _ => apply wp_upd_req
  | |- wp (on_req _ _) _ _ => apply wp_on_req
  | |- wp (assign_spec _ _) _ _ => apply wp_assign_spec; intros ?
  | |- wp (on_sch _) _ _ => apply wp_zoom
  | |- wp (upd_loc _) _ _ => apply wp_modify
  | |- wp (on_kv _) _ _ => apply wp_on_kv
  | |- wp (on_waiting _) _ _ => apply wp_on_waiting
  | |- wp (on_skipped _) _ _ => apply wp_on_skipped
  | |- _ => wp_prim
  end.

(** ** Changes to one request

    [view s0 s v q R w k kk]: the scheduler [s] differs from [s0] in the object [q] of [v],
    the running list [R], the queues [w] and [k], the manager [kk] and in what the
    invariant does not speak of. *)

Section View.
Context {E : Env} {SE : SchedEnv}.
Implicit Types (s : Scheduler) (q : Request) (R : list req_ref) (w k : request_queue) (kk : KVCacheManager).

Record view s0 s (v : req_ref) q R w k kk : Prop := {
  vw_fixed : fixed s = fixed s0;
  vw_other r : r ≠ v → obj s r = obj s0 r;
  vw_obj : obj s v = q;
  vw_running : running s = R;
  vw_waiting : waiting s = w;
  vw_skipped : skipped_waiting s = k;
  vw_kv : kv s = kk;
  vw_step : flags s = flags s0 ∧ active_num_spec_tokens s = active_num_spec_tokens s0;
  vw_drafts : len (_spec_token_placeholders s) ≤ len (_spec_token_placeholders s0)
}.

Lemma view_refl s v : view s s v (obj s v) (running s) (waiting s) (skipped_waiting s) (kv s).
Proof. by split. Qed.

Lemma view_put s0 s v q R w k kk q' : view s0 s v q R w k kk → view s0 (put_obj v q' s) v q' R w k kk.
Proof.
  intros []. split; try done; [|by rewrite obj_put]. intros r Hr. rewrite obj_put_ne by done. by apply vw_other0.
Qed.

Lemma view_running s0 s v q R w k kk R' : view s0 s v q R w k kk → view s0 (set_running R' s) v q R' w k kk.
Proof. intros []. by split. Qed.
Lemma view_waiting s0 s v q R w k kk w' : view s0 s v q R w k kk → view s0 (set_waiting w' s) v q R w' k kk.
Proof. intros []. by split. Qed.
Lemma view_skipped s0 s v q R w k kk k' : view s0 s v q R w k kk → view s0 (set_skipped_waiting k' s) v q R w k' kk.
Proof. intros []. by split. Qed.
Lemma view_kv s0 s v q R w k kk kk' : view s0 s v q R w k kk → view s0 (set_kv kk' s) v q R w k kk'.
Proof. intros []. by split. Qed.
Lemma view_enc s0 s v q R w k kk e : view s0 s v q R w k kk → view s0 (set_enc e s) v q R w k kk.
Proof. intros []. by split. Qed.
Lemma view_alias s0 s v q R w k kk a : view s0 s v q R w k kk → view s0 (set_spec_alias a s) v q R w k kk.
Proof. intros []. by split. Qed.
Lemma view_placeholders s0 s v q R w k kk a :
  view s0 s v q R w k kk → len a ≤ len (_spec_token_placeholders s) →
  view s0 (set_spec_token_placeholders a s) v q R w k kk.
Proof. intros [] Ha. split; try done. simpl. lia. Qed.

Section Steps.
Context (s0 s : Scheduler) (v : req_ref) (q : Request) (R : list req_ref) (w k : request_queue) (kk : KVCacheManager).
Context (Hv : view s0 s v q R w k kk).
Abbreviation vw s q := (view s0 s v q R w k kk).

Lemma wp_view_get Q : Q q s → wp (get_req v) Q s.
Proof. intros HQ. sch_step. by rewrite (vw_obj _ _ _ _ _ _ _ _ Hv). Qed.
Lemma wp_view_upd f Q : (∀ s', vw s' (f q) → Q tt s') → wp (upd_req v f) Q s.
Proof. intros HQ. sch_step. apply HQ. rewrite (vw_obj _ _ _ _ _ _ _ _ Hv). by eapply view_put. Qed.
Lemma wp_view_req {A} (m : M Request A) Q :
  wp m (λ a q', ∀ s', vw s' q' → Q a s') q → wp (on_req v m) Q s.
Proof.
  intros HQ. sch_step. rewrite (vw_obj _ _ _ _ _ _ _ _ Hv). eapply wp_mono; [exact HQ|]. intros a q' Ha.
  apply Ha. by eapply view_put.
Qed.
Lemma wp_view_spec l Q : (∀ s', vw s' (set_spec_token_ids l q) → Q tt s') → wp (assign_spec v l) Q s.
Proof.
  intros HQ. sch_step. apply HQ. rewrite (vw_obj _ _ _ _ _ _ _ _ Hv). by eapply view_alias, view_put.
Qed.
End Steps.
End View.

Create HintDb view.
#[export] Hint Resolve view_refl view_put view_running view_waiting view_skipped view_kv view_enc view_alias
  view_placeholders : view.

(** One step of a method that works on the viewed request. *)
Ltac view_step :=
  lazymatch goal with
  | H : view _ ?s ?v _ _ _ _ _ |- wp (get_req ?v) _ ?s => apply (wp_view_get _ _ _ _ _ _ _ _ H)
  | H : view _ ?s ?v _ _ _ _ _ |- wp (upd_req ?v _) _ ?s =>
      apply (wp_view_upd _ _ _ _ _ _ _ _ H); clear H; intros ? H
  | H : view _ ?s ?v _ _ _ _ _ |- wp (assign_spec ?v _) _ ?s =>
      apply (wp_view_spec _ _ _ _ _ _ _ _ H); clear H; intros ? H
  | H : view _ ?s ?v _ _ _ _ _ |- wp (on_req ?v _) _ ?s =>
      apply (wp_view_req _ _ _ _ _ _ _ _ H)
  | |- _ => sch_step
  end.

Lemma head_last (R : list req_ref) r : NoDup R → head R = Some r → last R = Some r → R = [r].
Proof.
  intros Hnd Hh Hl. destruct R as [|r0 R]; [done|]. injection Hh as ->. apply last_Some in Hl as [l Hl].
  destruct l as [|y l]; [by injection Hl as ->|]. injection Hl as -> ->. apply NoDup_cons in Hnd as [Hn _]. exfalso. apply Hn. set_solver.
Qed.

(** ** Preemption *)

Section Preempt.
Context {E : Env} {SE : SchedEnv} {max_len hash_bs : Z} {KS : KVService max_len hash_bs}.
Context (set_iter_nil : set_iter [] = []).
Implicit Types (s : Scheduler) (cov : gmap string Z) (r : req_ref) (q : Request) (P : list req_ref).

(** What preemption makes of a request. *)
Record preempted q q' : Prop := {
  pr_status : status q' = PREEMPTED;
  pr_computed : num_computed_tokens q' = 0;
  pr_key : order_key q' = order_key q;
  pr_same : (_all_token_ids q', block_hashes q', mm_features q', num_prompt_tokens q', prefill_stats q') =
            (_all_token_ids q, block_hashes q, mm_features q, num_prompt_tokens q, prefill_stats q)
}.

Lemma plain_same q q' :
  (_all_token_ids q', block_hashes q', mm_features q', num_prompt_tokens q', prefill_stats q') =
  (_all_token_ids q, block_hashes q, mm_features q, num_prompt_tokens q, prefill_stats q) →
  @plain max_len hash_bs q → @plain max_len hash_bs q'.
Proof.
  intros [= Ha Hb Hm Hn Hp] [Ht [H1 H2 H3] Hs]. unfold num_tokens in *.
  split; [congruence|split; unfold num_tokens; by rewrite ?Ha, ?Hb|]. unfold num_tokens. by rewrite Ha, Hn, Hp.
Qed.

(** The assignments of [_preempt_request]. *)
Lemma preempt_view s0 s v q R w k kk cov ts :
  view s0 s v q R w k kk → status q = RUNNING → mm_features q = [] → serves kk cov →
  (∀ r, object_id (obj s0 r) = r) → order_key q = order_key (obj s0 v) →
  queue_ok (obj s0) (policy (config_ s0)) w →
  wp (_preempt_request v ts) (λ _ s', ∃ q' w' kk', view s0 s' v q' R w' k kk' ∧ preempted q q' ∧
    serves kk' (delete (request_id q) cov) ∧
    queue_ok (obj s0) (policy (config_ s0)) w' ∧ qlist (obj s0) w' ≡ₚ v :: qlist (obj s0) w) s.
Proof.
  intros Hv Hst Htext Hkv Hobj Hkey Hw. unfold _preempt_request. sch_step. view_step. sch_step.
  apply wp_assert; [by apply bool_decide_eq_true|]. sch_step. sch_step.
  rewrite (vw_kv _ _ _ _ _ _ _ _ Hv). eapply wp_mono; [by apply srv_free|]. intros [] kk' Hkv'.
  apply (view_kv _ _ _ _ _ _ _ _ kk') in Hv. sch_step. apply (enc_free_text set_iter_nil); [done|]. intros e.
  apply (view_enc _ _ _ _ _ _ _ _ e) in Hv. revert Hv. generalize (set_enc e (set_kv kk' s)). clear s. intros s Hv.
  sch_step. view_step. sch_step. view_step. sch_step. sch_step. sch_step.
  assert (Hspec : ∀ q2 s2, view s0 s2 v q2 R w k kk' → preempted q q2 →
    wp (upd_req v (λ q, set_num_preemptions (num_preemptions q + 1) q) ≫= λ _, gets config_ ≫= λ c,
        (if s_log_stats c then on_req v (record_event EVENT_PREEMPTED ts) else mret ()) ≫= λ _,
        on_waiting (λ ops, prepend_request v))
      (λ _ s', ∃ q' w' kk', view s0 s' v q' R w' k kk' ∧ preempted q q' ∧
        serves kk' (delete (request_id q) cov) ∧
        queue_ok (obj s0) (policy (config_ s0)) w' ∧ qlist (obj s0) w' ≡ₚ v :: qlist (obj s0) w) s2).
  { clear s Hv. intros q2 s Hv Hp. sch_step. view_step. sch_step. sch_step. sch_step.
    eapply wp_mono with (λ _ s', ∃ q', view s0 s' v q' R w k kk' ∧ preempted q q').
    { destruct (s_log_stats _); [|sch_step; eexists; split; [done|by destruct Hp]].
      view_step. unfold record_event. sch_step. intros s3 Hv'. eexists. split; [done|by destruct Hp]. }
    intros [] s3 (q' & Hv' & Hp'). sch_step. rewrite (vw_waiting _ _ _ _ _ _ _ _ Hv').
    assert (∀ r, order_key (obj s0 r) = order_key (obj s3 r)) as Hk.
    { intros r. destruct (decide (r = v)) as [->|Hne].
      - rewrite (vw_obj _ _ _ _ _ _ _ _ Hv'), (pr_key _ _ Hp'). done.
      - by rewrite (vw_other _ _ _ _ _ _ _ _ Hv'). }
    eapply wp_prepend; [|by eapply queue_ok_key|].
    { intros r. specialize (Hk r). specialize (Hobj r). unfold order_key in Hk. congruence. }
    intros w' Hw' Hl. exists q', w', kk'. split_and!; [by eapply view_waiting|done|done|..].
    - eapply queue_ok_key; [|exact Hw']. by intros r.
    - by rewrite !(qlist_key (obj s0) (obj s3)). }
  case_match.
  - sch_step. eapply Hspec; [exact Hv|]. by split.
  - view_step. eapply Hspec; [exact Hv|]. by split.
Qed.
End Preempt.

Lemma text_only q : mm_features q = [] → has_encoder_inputs q = false.
Proof. intros Hq. unfold has_encoder_inputs, num_encoder_inputs. by rewrite Hq. Qed.

(** ** The state of the loop *)

Section Loop.
Context {E : Env} {SE : SchedEnv} {max_len hash_bs : Z} {KS : KVService max_len hash_bs}.
Implicit Types (s : Scheduler) (cov : gmap string Z) (r v : req_ref) (q : Request) (l : Step) (x : Run) (B : Z * Z).

Abbreviation rid s r := (request_id (obj s r)).
Abbreviation computed s r := (num_computed_tokens (obj s r)).
Abbreviation scheduled l := (scheduled_running_reqs l).

(** The tokens a request can be given: those that are known, those in flight, and at most
    [D] draft tokens. *)
Definition within (D : Z) q (n : Z) : Prop :=
  num_computed_tokens q + n ≤ num_tokens q + Z.max 0 (num_output_placeholders q) + Z.max 0 D.

(** The dictionaries of the step speak of the requests [L]; what they were given and what
    is left of the budget add up to [B.1], every token that is given has a slot, and no
    request is given more than it has with [B.2] draft tokens. *)
Record tables s cov l (L : list req_ref) B : Prop := {
  tb_sum : sumZ (num_scheduled_tokens l).*2 + token_budget l = B.1;
  tb_pos : 0 ≤ token_budget l;
  tb_keys : (num_scheduled_tokens l).*1 ≡ₚ (λ r, rid s r) <$> L;
  tb_blocks : (req_to_new_blocks l).*1 ≡ₚ (λ r, rid s r) <$> L;
  tb_slots r : r ∈ L → ∃ n, od_get (rid s r) (num_scheduled_tokens l) = Some n ∧ 0 < n ∧
    cov !! rid s r = Some (computed s r + n) ∧ computed s r + n < max_len ∧ within B.2 (obj s r) n
}.

(** The local variables the loop over the running requests leaves alone. *)
Definition waiting_part l : list req_ref * list req_ref * list (string * list Z) * request_queue :=
  (scheduled_new_reqs l, scheduled_resumed_reqs l, scheduled_encoder_inputs l, step_skipped_waiting l).

Record run_inv s0 x cov B : Prop := {
  ri_inv : inv (sch x) cov [];
  ri_all : all_reqs (sch x) [] ≡ₚ all_reqs s0 [];
  ri_fixed : fixed (sch x) = fixed s0 ∧ flags (sch x) = flags s0;
  ri_idx : 0 ≤ req_index (loc x);
  ri_sub r : r ∈ scheduled (loc x) → r ∈ take (Z.to_nat (req_index (loc x))) (running (sch x));
  ri_nodup : NoDup (scheduled (loc x));
  ri_tables : tables (sch x) cov (loc x) (scheduled (loc x)) B;
  ri_ready r : r ∈ running (sch x) → r ∉ scheduled (loc x) →
    computed (sch x) r ≤ num_tokens (obj (sch x) r) + num_output_placeholders (obj (sch x) r);
  ri_rest : waiting_part (loc x) = ([], [], [], create_request_queue (policy (config_ s0)));
  ri_pre r : r ∈ preempted_reqs (loc x) → r ∈ waiting_list (sch x);
  ri_prev : preempted_reqs (loc x) = [] → prev_ok (sch x);
  ri_old r : r ∈ running (sch x) → r ∈ running s0 ∧ computed (sch x) r = computed s0 r;
  ri_stay r : preempted_reqs (loc x) = [] → r ∈ running s0 → r ∈ running (sch x)
}.

Lemma run_nodup s cov P : inv s cov P → NoDup (running s).
Proof. intros Hi. apply inv_nodup in Hi. by apply NoDup_app in Hi as [? _]. Qed.

Lemma run_elem s cov P r : inv s cov P → r ∈ running s → r ∈ all_reqs s P.
Proof. intros _ Hr. unfold all_reqs. set_solver. Qed.

Lemma sched_in_running s0 x cov B r : run_inv s0 x cov B → r ∈ scheduled (loc x) → r ∈ running (sch x).
Proof. intros Hi Hr. apply (ri_sub _ _ _ _ Hi) in Hr. by eapply subseteq_take in Hr. Qed.

Lemma tables_nodup s cov l L B P :
  tables s cov l L B → inv s cov P → L ⊆ all_reqs s P → NoDup L →
  NoDup (num_scheduled_tokens l).*1 ∧ NoDup (req_to_new_blocks l).*1.
Proof.
  intros [_ _ Hk Hb _] Hi Hsub HL. rewrite Hk, Hb.
  assert (NoDup ((λ r, rid s r) <$> L)) as HN; [|done].
  apply NoDup_fmap_2_strong; [|done]. intros a b Ha Hb' Heq. eapply NoDup_rid; [exact Hi|by apply Hsub..|done].
Qed.

(** Taking back what a request was given. *)
Lemma tables_remove s cov l L B v n P :
  tables s cov l L B → inv s cov P → L ⊆ all_reqs s P → NoDup L → v ∈ L →
  od_get (rid s v) (num_scheduled_tokens l) = Some n →
  ∀ l', num_scheduled_tokens l' = od_del (rid s v) (num_scheduled_tokens l) →
    req_to_new_blocks l' = od_del (rid s v) (req_to_new_blocks l) → token_budget l' = token_budget l + n →
    tables s cov l' (remove_first v L) B.
Proof.
  intros Ht Hi Hsub HL Hv Hn l' Hl1 Hl2 Hl3. destruct Ht as [Hsum Hpos Hk Hb Hs].
  assert (Hn0 : 0 < n). { destruct (Hs v Hv) as (n' & Hn' & ? & _). congruence. }
  split; rewrite ?Hl1, ?Hl2, ?Hl3.
  - rewrite (od_del_sum _ _ _ Hn). lia.
  - lia.
  - apply (Permutation_cons_inv (a := rid s v)). rewrite <- od_del_perm by (apply od_get_is_Some; by eexists).
    rewrite Hk. by rewrite (remove_first_perm v L) at 1.
  - apply (Permutation_cons_inv (a := rid s v)). rewrite <- od_del_perm.
    + rewrite Hb. by rewrite (remove_first_perm v L) at 1.
    + rewrite Hb. apply list_elem_of_fmap. by exists v.
  - intros r Hr. apply (remove_first_elem v L r HL) in Hr as [Hr Hne]. destruct (Hs r Hr) as (m & Hm & ?).
    exists m. split; [|done]. rewrite od_get_del_ne; [done|]. intros He. apply Hne.
    by eapply NoDup_rid; [exact Hi|apply Hsub..|].
Qed.

Lemma pick_fold_elem s (L : list req_ref) : ∀ best,
  foldl (λ best r, if lower_priority (obj s best) (obj s r) then r else best) best L ∈ best :: L.
Proof.
  induction L as [|r L IH]; intros best; simpl; [by left|].
  destruct (lower_priority _ _); [right; apply IH|]. specialize (IH best). set_solver.
Qed.

Lemma pick_victim_elem s (L : list req_ref) v : pick_victim s L = Some v → v ∈ L.
Proof. destruct L as [|r L]; [done|]. intros [= <-]. apply pick_fold_elem. Qed.

Lemma pick_victim_some s (L : list req_ref) r : r ∈ L → ∃ v, pick_victim s L = Some v.
Proof. destruct L as [|r' L]; [by intros ?%elem_of_nil|]. intros _. by eexists. Qed.

(** A step that leaves the tables alone. *)
Lemma tables_ext s cov l l' L B :
  tables s cov l L B → num_scheduled_tokens l' = num_scheduled_tokens l → req_to_new_blocks l' = req_to_new_blocks l →
  token_budget l' = token_budget l → tables s cov l' L B.
Proof. intros [] H1 H2 H3. by split; rewrite ?H1, ?H2, ?H3. Qed.

(** The request the loop is at: not scheduled yet, and not behind the index. *)
Definition current x r : Prop :=
  r ∉ scheduled (loc x) ∧ r ∈ take (S (Z.to_nat (req_index (loc x)))) (running (sch x)) ∧
  (policy (config_ (sch x)) = FCFS → running (sch x) !! Z.to_nat (req_index (loc x)) = Some r).

(** What taking a victim does to the local variables. *)
Record victim_taken s cov l l' v B : Prop := {
  vt_sched : scheduled l' = remove_first v (scheduled l);
  vt_index : req_index l' = if bool_decide (v ∈ scheduled l) then req_index l - 1 else req_index l;
  vt_tables : tables s cov l' (scheduled l') B;
  vt_rest : waiting_part l' = waiting_part l;
  vt_pre : preempted_reqs l' = preempted_reqs l;
  vt_budget : token_budget l ≤ token_budget l'
}.

Lemma remove_first_none v (L : list req_ref) : v ∉ L → remove_first v L = L.
Proof.
  induction L as [|y L IH]; intros Hv; simpl; [done|]. rewrite bool_decide_false by set_solver. f_equal. set_solver.
Qed.

Lemma victim_unscheduled s0 x cov B v :
  run_inv s0 x cov B → v ∉ scheduled (loc x) → victim_taken (sch x) cov (loc x) (loc x) v B.
Proof.
  intros Hi Hv. split; try done; [by rewrite remove_first_none|by rewrite bool_decide_false|by apply Hi].
Qed.

Lemma last_unscheduled s0 x cov B r R v :
  run_inv s0 x cov B → current x r → policy (config_ (sch x)) = FCFS → running (sch x) = R ++ [v] →
  v ∉ scheduled (loc x).
Proof.
  intros Hi (_ & _ & Hr) Hp HR Hv. specialize (Hr Hp). apply (ri_sub _ _ _ _ Hi) in Hv.
  pose proof (run_nodup _ _ _ (ri_inv _ _ _ _ Hi)) as Hnd. rewrite HR in *.
  apply elem_of_take in Hv as (j & Hj & Hlt).
  assert (j = length R) as ->.
  { eapply NoDup_lookup; [exact Hnd|done|]. by rewrite list_lookup_middle. }
  apply lookup_lt_Some in Hr. rewrite length_app in Hr. simpl in Hr. lia.
Qed.

Lemma take_victim_ok s0 x cov B r :
  run_inv s0 x cov B → current x r →
  wp take_victim (λ v x', v ∈ running (sch x) ∧
    sch x' = set_running (remove_first v (running (sch x))) (sch x) ∧
    victim_taken (sch x) cov (loc x) (loc x') v B ∧
    (policy (config_ (sch x)) = FCFS → last (running (sch x)) = Some v)) x.
Proof.
  intros Hi Hcur. destruct Hcur as (Hns & Hin & Hfcfs) eqn:Hc. clear Hc.
  assert (r ∈ running (sch x)) as Hr by by eapply subseteq_take in Hin.
  pose proof (run_nodup _ _ _ (ri_inv _ _ _ _ Hi)) as Hnd.
  unfold take_victim. sch_step. sch_step. case_decide as Hpol.
  - destruct (pick_victim_some (sch x) _ r Hr) as [v Hv]. sch_step. eapply wp_or_raise; [exact Hv|].
    apply pick_victim_elem in Hv. sch_step. sch_step. sch_step. sch_step. sch_step. simpl.
    case_bool_decide as Hsv; sch_step.
    + sch_step. sch_step.
      assert (L : scheduled (loc x) ⊆ all_reqs (sch x) []).
      { intros y Hy. eapply run_elem; [by eapply ri_inv|]. by eapply sched_in_running. }
      destruct (tb_slots _ _ _ _ _ (ri_tables _ _ _ _ Hi) v Hsv) as (n & Hn & Hn0 & _).
      eapply wp_or_raise; [exact Hn|]. sch_step. sch_step. sch_step.
      assert (is_Some (od_get (rid (sch x) v) (req_to_new_blocks (loc x)))) as [b Hb].
      { apply od_get_is_Some. rewrite (tb_blocks _ _ _ _ _ (ri_tables _ _ _ _ Hi)).
        apply list_elem_of_fmap. by exists v. }
      eapply wp_or_raise; [exact Hb|]. sch_step. sch_step. sch_step. sch_step. sch_step. sch_step. sch_step.
      pose proof (ri_rest _ _ _ _ Hi) as Hrest. unfold waiting_part in Hrest. injection Hrest as Hr1 Hr2 Hr3 Hr4.
      rewrite Hr3. simpl. sch_step. sch_step. sch_step. sch_step. split_and!; [done|done| |by rewrite Hpol]. simpl.
      split; simpl; try done; [by rewrite bool_decide_true|..].
      * eapply tables_remove; try done; [apply Hi..|]. by apply Hi.
      * unfold waiting_part. simpl. by rewrite Hr1, Hr2, Hr3, Hr4.
      * lia.
    + split_and!; [done|done| |by rewrite Hpol]. simpl. by eapply victim_unscheduled.
  - assert (policy (config_ (sch x)) = FCFS) as Hp by by destruct (policy _).
    destruct (List.exists_last (l := running (sch x))) as (R0 & y & HR); [by intros Hn; rewrite Hn in Hr; apply elem_of_nil in Hr|].
    rewrite HR in *. sch_step. eapply wp_or_raise; [apply last_snoc|]. sch_step. sch_step. sch_step. sch_step.
    assert (y ∉ R0) as Hy. { apply NoDup_app in Hnd as (_ & Hd & _). intros Hy. by apply (Hd y Hy), list_elem_of_singleton. }
    split_and!; [set_solver| | |intros _; apply last_snoc]; [|simpl; eapply victim_unscheduled; [done|]; by eapply last_unscheduled].
    simpl. rewrite HR, remove_first_last by done. f_equal. rewrite length_app. simpl.
    replace (length R0 + 1 - 1)%nat with (length R0) by lia. by rewrite take_app_length.
Qed.

(** The victim waits, and the loop can go on. *)
Lemma run_inv_preempt s0 x cov B r v l' s' q' w' kk' :
  run_inv s0 x cov B → current x r → v ∈ running (sch x) → victim_taken (sch x) cov (loc x) l' v B →
  view (sch x) s' v q' (remove_first v (running (sch x))) w' (skipped_waiting (sch x)) kk' →
  preempted (obj (sch x) v) q' → serves kk' (delete (rid (sch x) v) cov) →
  (policy (config_ (sch x)) = FCFS → last (running (sch x)) = Some v) →
  queue_ok (obj (sch x)) (policy (config_ (sch x))) w' →
  qlist (obj (sch x)) w' ≡ₚ v :: waiting_list (sch x) →
  let x' := mkRun s' (set_preempted_reqs (preempted_reqs l' ++ [v]) l') in
  run_inv s0 x' (delete (rid (sch x) v) cov) B ∧
  S (length (running s')) = length (running (sch x)) ∧
  len (running s') - req_index l' ≤ len (running (sch x)) - req_index (loc x) ∧
  token_budget (loc x) ≤ token_budget l' ∧
  (v ≠ r → current x' r ∧ obj s' r = obj (sch x) r).
Proof.
  intros Hri Hcur Hv Hvt Hvw Hp Hkv Hlast Hw Hwl x'. pose proof (ri_inv _ _ _ _ Hri) as Hi.
  pose proof (run_nodup _ _ _ Hi) as Hnd.
  assert (Hkey : ∀ r', order_key (obj s' r') = order_key (obj (sch x) r')).
  { intros r'. destruct (decide (r' = v)) as [->|Hne].
    - by rewrite (vw_obj _ _ _ _ _ _ _ _ Hvw), (pr_key _ _ Hp).
    - by rewrite (vw_other _ _ _ _ _ _ _ _ Hvw). }
  assert (Hid : ∀ r', rid s' r' = rid (sch x) r').
  { intros r'. specialize (Hkey r'). unfold order_key in Hkey. congruence. }
  assert (waiting_list s' ≡ₚ v :: waiting_list (sch x)) as Hwl'.
  { unfold waiting_list at 1. rewrite (vw_waiting _ _ _ _ _ _ _ _ Hvw), (qlist_key _ (obj (sch x))); done. }
  assert (skipped_list s' = skipped_list (sch x)) as Hsl'.
  { unfold skipped_list. rewrite (vw_skipped _ _ _ _ _ _ _ _ Hvw). by apply qlist_key. }
  pose proof (vw_running _ _ _ _ _ _ _ _ Hvw) as Hrun.
  pose proof (remove_first_length v _ Hv) as Hlen.
  assert (Hall : all_reqs s' [] ≡ₚ all_reqs (sch x) []).
  { unfold all_reqs. rewrite Hrun, Hwl', Hsl'. simpl. rewrite <- Permutation_middle.
    change (v :: ?a ++ ?b) with ((v :: a) ++ b). by rewrite <- (remove_first_perm v _ Hv). }
  assert (Hinv : inv s' (delete (rid (sch x) v) cov) []).
  { eapply (inv_change (sch x) s' cov _ [] [] v); try done.
    - by eapply run_elem.
    - apply Hvw.
    - apply Hvw.
    - intros id Hne. by rewrite lookup_delete_ne.
    - by rewrite (vw_kv _ _ _ _ _ _ _ _ Hvw).
    - rewrite (vw_waiting _ _ _ _ _ _ _ _ Hvw). pose proof (vw_fixed _ _ _ _ _ _ _ _ Hvw) as Hf.
      injection Hf as -> _ _ _ _. by eapply queue_ok_key; [|exact Hw].
    - rewrite (vw_skipped _ _ _ _ _ _ _ _ Hvw). pose proof (vw_fixed _ _ _ _ _ _ _ _ Hvw) as Hf.
      injection Hf as -> _ _ _ _. eapply queue_ok_key; [|by eapply si_skipped]. done.
    - intros r' Hr' _. rewrite Hrun in Hr'. by eapply remove_first_notin.
    - intros r' Hr' Hne. rewrite Hwl', Hsl' in Hr'. set_solver.
    - rewrite Hrun. intros Hin. by apply (remove_first_nodup v _ Hnd) in Hin.
    - intros _. rewrite (vw_obj _ _ _ _ _ _ _ _ Hvw). destruct Hp as [Hst Hc Hk Hsame].
      pose proof (si_run _ _ _ Hi v Hv) as [_ Hpl _ _]. split.
      + unfold wait_status. by rewrite Hst.
      + by eapply plain_same.
      + left. split; [|done]. unfold order_key in Hk. injection Hk as _ _ -> _. apply lookup_delete_eq.
    - pose proof (vw_fixed _ _ _ _ _ _ _ _ Hvw) as Hf. injection Hf as -> _ _ _ _.
      pose proof (si_len _ _ _ Hi). unfold len in *. rewrite Hrun. lia. }
  destruct Hvt as [Hs1 Hs2 Hs3 Hs4 Hs5 Hs6].
  assert (Hsub : ∀ r', r' ∈ scheduled l' → r' ≠ v ∧ r' ∈ scheduled (loc x)).
  { intros r' Hr'. rewrite Hs1 in Hr'. apply remove_first_elem in Hr' as [? ?]; [done|]. by apply Hri. }
  assert (Htake : ∀ y i, y ≠ v → y ∈ take i (running (sch x)) →
    (v ∈ scheduled (loc x) → v ∈ take i (running (sch x))) →
    y ∈ take (if bool_decide (v ∈ scheduled (loc x)) then i - 1 else i) (running s')).
  { intros y i Hy Hyi Hvi. rewrite Hrun. case_bool_decide as Hb.
    - apply take_remove_first_before; auto.
    - by apply take_remove_first. }
  assert (Hidx : v ∈ scheduled (loc x) → 0 < req_index (loc x)).
  { intros Hvs. apply (ri_sub _ _ _ _ Hri) in Hvs. pose proof (ri_idx _ _ _ _ Hri).
    destruct (decide (req_index (loc x) = 0)) as [H0|]; [|lia]. rewrite H0 in Hvs. by apply elem_of_nil in Hvs. }
  split; [|split_and!].
  - split; simpl; try done.
    + etrans; [exact Hall|]. apply Hri.
    + destruct (ri_fixed _ _ _ _ Hri) as [<- <-]. split; apply Hvw.
    + rewrite Hs2. pose proof (ri_idx _ _ _ _ Hri). case_bool_decide as Hb; [|done]. specialize (Hidx Hb). lia.
    + intros r' Hr'. destruct (Hsub r' Hr') as [Hne Hr2]. rewrite Hs2.
      pose proof (ri_sub _ _ _ _ Hri r' Hr2) as Ht.
      specialize (Htake r' _ Hne Ht (λ H, ri_sub _ _ _ _ Hri v H)).
      case_bool_decide as Hb; [|done]. specialize (Hidx Hb).
      by replace (Z.to_nat (req_index (loc x) - 1)) with (Z.to_nat (req_index (loc x)) - 1)%nat by lia.
    + rewrite Hs1. apply remove_first_nodup. apply Hri.
    + destruct Hs3 as [H1 H2 H3 H4 H5]. split; simpl; try done.
      * rewrite H3. apply (reflexive_eq (R := Permutation)). apply list_fmap_ext. intros i y _. by rewrite Hid.
      * rewrite H4. apply (reflexive_eq (R := Permutation)). apply list_fmap_ext. intros i y _. by rewrite Hid.
      * intros r' Hr'. destruct (Hsub r' Hr') as [Hne _]. destruct (H5 r' Hr') as (n & Hn & Hn0 & Hc & Hm & Hwi).
        exists n. rewrite (vw_other _ _ _ _ _ _ _ _ Hvw r' Hne). split_and!; try done.
        rewrite lookup_delete_ne; [done|]. intros He. apply Hne.
        assert (r' ∈ running (sch x)) as Hr2 by (eapply sched_in_running; [done|by apply Hsub]).
        by eapply NoDup_rid; [exact Hi|eapply run_elem..|].
    + intros r' Hr' Hns. rewrite Hrun in Hr'. apply remove_first_elem in Hr' as [Hr' Hne]; [|done].
      rewrite (vw_other _ _ _ _ _ _ _ _ Hvw r' Hne). apply Hri; [done|]. intros Hin. apply Hns.
      rewrite Hs1. apply remove_first_elem; [apply Hri|done].
    + unfold waiting_part in *. simpl. rewrite Hs4. apply Hri.
    + intros r' Hr'. rewrite Hwl', Hs5 in *. apply elem_of_app in Hr' as [Hr'|Hr']; [right; by apply Hri|].
      apply list_elem_of_singleton in Hr' as ->. by left.
    + intros Hn. by destruct (preempted_reqs l').
    + intros r' Hr'. rewrite Hrun in Hr'. apply remove_first_elem in Hr' as [Hr' Hne]; [|done].
      rewrite (vw_other _ _ _ _ _ _ _ _ Hvw r' Hne). by apply Hri.
    + intros r' Hn. by destruct (preempted_reqs l').
  - rewrite Hrun. exact Hlen.
  - unfold len. rewrite Hrun, Hs2. case_bool_decide; lia.
  - done.
  - intros Hne. destruct Hcur as (Hc1 & Hc2 & Hc3). split; [|by apply Hvw].
    unfold current. simpl. split_and!.
    + rewrite Hs1. intros Hin. apply Hc1. by eapply remove_first_notin.
    + rewrite Hs2. specialize (Htake r _ (not_eq_sym Hne) Hc2 (λ H, elem_of_take_S _ _ _ (ri_sub _ _ _ _ Hri v H))).
      case_bool_decide as Hb; [|done]. specialize (Hidx Hb).
      by replace (S (Z.to_nat (req_index (loc x) - 1))) with (S (Z.to_nat (req_index (loc x))) - 1)%nat by lia.
    + intros Hpol. pose proof (vw_fixed _ _ _ _ _ _ _ _ Hvw) as Hf. injection Hf as Hf _ _ _ _.
      rewrite Hf in Hpol. specialize (Hc3 Hpol). apply last_Some in Hlast as [R0 HR]; [|done].
      assert (v ∉ scheduled (loc x)) as Hns by by eapply last_unscheduled; [done..|].
      rewrite Hs2, bool_decide_false, Hrun by done. rewrite HR in *.
      rewrite remove_first_last.
      * rewrite lookup_app in Hc3. destruct (R0 !! _) eqn:HR0; [done|].
        apply list_lookup_singleton_Some in Hc3 as [_ ?]. by subst.
      * apply NoDup_app in Hnd as (_ & Hd & _). intros Hy. by apply (Hd v Hy), list_elem_of_singleton.
Qed.
End Loop.

(** ** One round, and the loop *)

Section Rounds.
Context {E : Env} {SE : SchedEnv} {max_len hash_bs : Z} {KS : KVService max_len hash_bs}.
Implicit Types (s : Scheduler) (cov : gmap string Z) (r v : req_ref) (q : Request) (l : Step) (x : Run) (B : Z * Z).
Abbreviation rid s r := (request_id (obj s r)).
Abbreviation computed s r := (num_computed_tokens (obj s r)).
Abbreviation scheduled l := (scheduled_running_reqs l).
Abbreviation run_inv := (@run_inv E SE max_len hash_bs KS).

(** A running request changes; a scheduled one keeps its number of computed tokens. *)
Lemma run_inv_view s0 x cov cov' B r s' q' kk' :
  run_inv s0 x cov B → r ∈ running (sch x) →
  view (sch x) s' r q' (running (sch x)) (waiting (sch x)) (skipped_waiting (sch x)) kk' →
  order_key q' = order_key (obj (sch x) r) → num_computed_tokens q' = computed (sch x) r → @run_ok max_len hash_bs cov' q' →
  r ∉ scheduled (loc x) ∧ num_computed_tokens q' ≤ num_tokens q' + num_output_placeholders q' ∨
    (cov' = cov ∧ num_computed_tokens q' = computed (sch x) r ∧ r ∈ scheduled (loc x) ∧
      num_tokens q' = num_tokens (obj (sch x) r) ∧ num_output_placeholders q' = num_output_placeholders (obj (sch x) r)) →
  (∀ id, id ≠ rid (sch x) r → cov' !! id = cov !! id) → serves kk' cov' →
  run_inv s0 (mkRun s' (loc x)) cov' B.
Proof.
  intros Hri Hr Hvw Hkq Hcq Hok Hs Hcov Hkv. pose proof (ri_inv _ _ _ _ Hri) as Hi.
  assert (Hkey : ∀ r', order_key (obj s' r') = order_key (obj (sch x) r')).
  { intros r'. destruct (decide (r' = r)) as [->|Hne].
    - by rewrite (vw_obj _ _ _ _ _ _ _ _ Hvw).
    - by rewrite (vw_other _ _ _ _ _ _ _ _ Hvw). }
  assert (Hid : ∀ r', rid s' r' = rid (sch x) r').
  { intros r'. specialize (Hkey r'). unfold order_key in Hkey. congruence. }
  assert (waiting_list s' = waiting_list (sch x)) as Hwl.
  { unfold waiting_list. rewrite (vw_waiting _ _ _ _ _ _ _ _ Hvw). by apply qlist_key. }
  assert (skipped_list s' = skipped_list (sch x)) as Hsl.
  { unfold skipped_list. rewrite (vw_skipped _ _ _ _ _ _ _ _ Hvw). by apply qlist_key. }
  pose proof (vw_running _ _ _ _ _ _ _ _ Hvw) as Hrun.
  pose proof (vw_fixed _ _ _ _ _ _ _ _ Hvw) as Hf.
  assert (config_ s' = config_ (sch x)) as Hcfg by (unfold fixed in Hf; congruence).
  assert (Hnw : r ∉ waiting_list (sch x) ++ skipped_list (sch x)).
  { intros Hin. pose proof (inv_nodup _ _ _ Hi) as Hnd. unfold all_reqs in Hnd. rewrite app_nil_r in Hnd.
    apply NoDup_app in Hnd as (_ & Hd & _). by apply (Hd r Hr). }
  split; simpl; try (rewrite ?Hrun; by apply Hri).
  - eapply (inv_change (sch x) s' cov cov' [] [] r); try done.
    + by eapply run_elem.
    + apply Hvw.
    + by rewrite (vw_kv _ _ _ _ _ _ _ _ Hvw).
    + rewrite (vw_waiting _ _ _ _ _ _ _ _ Hvw), Hcfg. eapply queue_ok_key; [|by eapply si_waiting]. done.
    + rewrite (vw_skipped _ _ _ _ _ _ _ _ Hvw), Hcfg. eapply queue_ok_key; [|by eapply si_skipped]. done.
    + unfold all_reqs. by rewrite Hrun, Hwl, Hsl.
    + intros r' Hr' _. by rewrite <- Hrun.
    + intros r' Hr' _. by rewrite <- Hwl, <- Hsl.
    + intros _. by rewrite (vw_obj _ _ _ _ _ _ _ _ Hvw).
    + rewrite Hwl, Hsl, app_nil_r. done.
    + rewrite Hrun, Hcfg. by eapply si_len.
  - unfold all_reqs. rewrite Hrun, Hwl, Hsl. apply Hri.
  - destruct (ri_fixed _ _ _ _ Hri) as [<- <-]. split; apply Hvw.
  - destruct (ri_tables _ _ _ _ Hri) as [H1 H2 H3 H4 H5]. split; try done.
    + rewrite H3. apply (reflexive_eq (R := Permutation)). apply list_fmap_ext. intros i y _. by rewrite Hid.
    + rewrite H4. apply (reflexive_eq (R := Permutation)). apply list_fmap_ext. intros i y _. by rewrite Hid.
    + intros r' Hr'. destruct (H5 r' Hr') as (n & Hn & Hn0 & Hc & Hm & Hwi). exists n. rewrite Hid.
      destruct (decide (r' = r)) as [->|Hne].
      * destruct Hs as [[? _]|(-> & Hcm & _ & Ht & Hp)]; [done|]. unfold within in *.
        by rewrite (vw_obj _ _ _ _ _ _ _ _ Hvw), Hcm, Ht, Hp.
      * rewrite (vw_other _ _ _ _ _ _ _ _ Hvw r' Hne). split_and!; try done. rewrite Hcov; [done|].
        intros He. apply Hne. assert (r' ∈ running (sch x)) by (by eapply sched_in_running).
        by eapply NoDup_rid; [exact Hi|eapply run_elem..|].
  - intros r' Hr' Hns. rewrite Hrun in Hr'. destruct (decide (r' = r)) as [->|Hne].
    + rewrite (vw_obj _ _ _ _ _ _ _ _ Hvw). by destruct Hs as [[_ ?]|(_ & _ & ? & _)].
    + rewrite (vw_other _ _ _ _ _ _ _ _ Hvw r' Hne). by apply Hri.
  - rewrite Hwl. apply Hri.
  - intros Hp r' Hr' Hst. rewrite Hwl, Hsl in Hr'. assert (r' ≠ r) as Hne by (by intros ->).
    rewrite (vw_other _ _ _ _ _ _ _ _ Hvw r' Hne) in *. injection Hf as _ _ _ _ ->.
    by apply (ri_prev _ _ _ _ Hri).
  - intros r' Hr'. rewrite Hrun in Hr'. destruct (decide (r' = r)) as [->|Hne].
    + rewrite (vw_obj _ _ _ _ _ _ _ _ Hvw), Hcq. by apply Hri.
    + rewrite (vw_other _ _ _ _ _ _ _ _ Hvw r' Hne). by apply Hri.
Qed.

(** The local variables that the invariant does not speak of. *)
Lemma run_inv_loc s0 x cov B l' :
  run_inv s0 x cov B → scheduled l' = scheduled (loc x) → num_scheduled_tokens l' = num_scheduled_tokens (loc x) →
  req_to_new_blocks l' = req_to_new_blocks (loc x) → token_budget l' = token_budget (loc x) →
  waiting_part l' = waiting_part (loc x) → preempted_reqs l' = preempted_reqs (loc x) →
  req_index (loc x) ≤ req_index l' →
  run_inv s0 (mkRun (sch x) l') cov B.
Proof.
  intros Hri H1 H2 H3 H4 H5 H6 H7. pose proof (ri_idx _ _ _ _ Hri). split; simpl; rewrite ?H1, ?H5, ?H6; try apply Hri.
  - lia.
  - intros r Hr. apply (ri_sub _ _ _ _ Hri) in Hr. apply elem_of_take in Hr as (j & Hj & Hlt).
    apply elem_of_take. exists j. split; [done|lia].
  - by eapply tables_ext; [apply Hri|..].
Qed.

(** The request is given [n] tokens. *)
Lemma run_inv_schedule s0 x cov B r n b :
  run_inv s0 x cov B → current x r → 0 < n ≤ token_budget (loc x) →
  cov !! rid (sch x) r = Some (computed (sch x) r + n) → computed (sch x) r + n < max_len →
  within B.2 (obj (sch x) r) n →
  ∀ l', scheduled l' = scheduled (loc x) ++ [r] →
    num_scheduled_tokens l' = od_set (rid (sch x) r) n (num_scheduled_tokens (loc x)) →
    req_to_new_blocks l' = od_set (rid (sch x) r) b (req_to_new_blocks (loc x)) →
    token_budget l' = token_budget (loc x) - n → req_index l' = req_index (loc x) + 1 →
    waiting_part l' = waiting_part (loc x) → preempted_reqs l' = preempted_reqs (loc x) →
    run_inv s0 (mkRun (sch x) l') cov B.
Proof.
  intros Hri (Hns & Hin & _) Hn Hcov Hm Hwith l' H1 H2 H3 H4 H5 H6 H7. pose proof (ri_inv _ _ _ _ Hri) as Hi.
  assert (r ∈ running (sch x)) as Hr by by eapply subseteq_take in Hin.
  assert (Hnew : ∀ r', r' ∈ scheduled (loc x) → rid (sch x) r' ≠ rid (sch x) r).
  { intros r' Hr' He. apply Hns. assert (r' = r) as <-; [|done].
    eapply NoDup_rid; [exact Hi|by eapply run_elem, sched_in_running|by eapply run_elem|done]. }
  assert (Hk : rid (sch x) r ∉ (λ r, rid (sch x) r) <$> scheduled (loc x)).
  { intros (r' & He & Hr')%list_elem_of_fmap. by apply (Hnew r'). }
  pose proof (ri_idx _ _ _ _ Hri) as Hidx. destruct (ri_tables _ _ _ _ Hri) as [T1 T2 T3 T4 T5].
  split; simpl; rewrite ?H1, ?H6, ?H7; try apply Hri.
  - lia.
  - intros r' Hr'. rewrite H5. replace (Z.to_nat (req_index (loc x) + 1)) with (S (Z.to_nat (req_index (loc x)))) by lia.
    apply elem_of_app in Hr' as [Hr'|Hr'%list_elem_of_singleton]; [|by subst].
    apply elem_of_take_S. by apply Hri.
  - apply NoDup_app. split_and!; [apply Hri| |apply NoDup_singleton]. intros y Hy ->%list_elem_of_singleton. done.
  - split; rewrite ?H2, ?H3, ?H4.
    + rewrite od_set_new by by rewrite T3. rewrite fmap_app, sumZ_app. simpl. lia.
    + lia.
    + rewrite od_set_perm by by rewrite T3. rewrite T3, fmap_app. simpl. by rewrite Permutation_app_comm.
    + rewrite od_set_perm by by rewrite T4. rewrite T4, fmap_app. simpl. by rewrite Permutation_app_comm.
    + intros r' [Hr'|Hr'%list_elem_of_singleton]%elem_of_app.
      * destruct (T5 r' Hr') as (m & Hm' & ?). exists m. rewrite od_get_set_ne by by apply Hnew. done.
      * subst r'. exists n. rewrite od_get_set_eq. split_and!; [done|lia|done..].
  - intros r' Hr' Hns'. apply Hri; [done|]. set_solver.
Qed.
End Rounds.

Section RunningLoop.
Context {E : Env} {SE : SchedEnv} {max_len hash_bs : Z} {KS : KVService max_len hash_bs}.
Context (set_iter_nil : set_iter [] = []).
Implicit Types (s : Scheduler) (cov : gmap string Z) (r v : req_ref) (q : Request) (l : Step) (x : Run) (B : Z * Z).
Abbreviation rid s r := (request_id (obj s r)).
Abbreviation computed s r := (num_computed_tokens (obj s r)).
Abbreviation scheduled l := (scheduled_running_reqs l).
Abbreviation run_inv := (@run_inv E SE max_len hash_bs KS).
Abbreviation left x := (len (running (sch x)) - req_index (loc x)).

Lemma view_of_kv s r kk : view s (set_kv kk s) r (obj s r) (running s) (waiting s) (skipped_waiting s) kk.
Proof. by split. Qed.

Lemma current_running x r : current x r → r ∈ running (sch x).
Proof. intros (_ & Hin & _). by eapply subseteq_take in Hin. Qed.

(** New slots for a running request. *)
Lemma run_inv_alloc s0 x cov B r kk m :
  run_inv s0 x cov B → current x r → serves kk (<[rid (sch x) r := m]> cov) → computed (sch x) r ≤ m →
  run_inv s0 (mkRun (set_kv kk (sch x)) (loc x)) (<[rid (sch x) r := m]> cov) B.
Proof.
  intros Hri Hc Hkv Hm. pose proof (current_running _ _ Hc) as Hr. destruct Hc as (Hns & _ & _).
  destruct (si_run _ _ _ (ri_inv _ _ _ _ Hri) r Hr) as [H1 H2 (c & H3 & H4) H5].
  eapply run_inv_view; [exact Hri|exact Hr|apply view_of_kv|done|done| |left|..|done].
  - split; try done. exists m. rewrite lookup_insert_eq. split; [done|lia].
  - split; [done|]. by apply Hri.
  - intros id Hne. by rewrite lookup_insert_ne.
Qed.

Lemma run_inv_kv s0 x cov B r kk :
  run_inv s0 x cov B → current x r → serves kk cov → run_inv s0 (mkRun (set_kv kk (sch x)) (loc x)) cov B.
Proof.
  intros Hri Hc Hkv. pose proof (current_running _ _ Hc) as Hr. destruct Hc as (Hns & _ & _).
  eapply run_inv_view; [exact Hri|exact Hr|apply view_of_kv|done|done|..|done|done].
  - by eapply si_run; [apply Hri|].
  - left. split; [done|]. by apply Hri.
Qed.

(** Only the running requests hold slots. *)
Definition runners_hold s cov : Prop := ∀ id n, cov !! id = Some n → ∃ r, r ∈ running s ∧ rid s r = id.

(** The loop [while True]: every round preempts one request, at last the one itself; the
    oldest request gets its slots if there are enough for one. *)
Lemma allocate_or_preempt_ok s0 B r n ts : ∀ fuel x cov,
  run_inv s0 x cov B → current x r → (length (running (sch x)) < fuel)%nat →
  0 < n → computed (sch x) r + n < max_len →
  wp (allocate_or_preempt fuel r n ts) (λ o x', ∃ cov', run_inv s0 x' cov' B ∧ left x' ≤ left x ∧
    token_budget (loc x) ≤ token_budget (loc x') ∧
    (is_Some o → current x' r ∧ obj (sch x') r = obj (sch x) r ∧
                 cov' !! rid (sch x) r = Some (computed (sch x) r + n)) ∧
    (srv_ample = true → policy (config_ (sch x)) = FCFS → head (running (sch x)) = Some r → runners_hold (sch x) cov →
     is_Some o)) x.
Proof.
  induction fuel as [|fuel IH]; intros x cov Hri Hc Hfuel Hn Hm; [lia|]. cbn [allocate_or_preempt].
  pose proof (ri_inv _ _ _ _ Hri) as Hi. pose proof (current_running _ _ Hc) as Hr.
  destruct (si_run _ _ _ Hi r Hr) as [Hst Hpl (c & Hcov & Hle) _].
  sch_step. sch_step. sch_step. sch_step. sch_step. unfold Datatypes.id.
  eapply wp_mono.
  { eapply srv_allocate; [by eapply si_kv|apply Hpl|exact Hcov|done|done|done| |lia].
    apply ps_lookahead with (1 := si_settings _ _ _ Hi). }
  intros [b|] kk Hkk; cbn [set_sch].
  - sch_step. eexists. split; [eapply run_inv_alloc; [done..|lia]|]. split; [done|]. split; [done|].
    split; [|done]. intros _. split_and!; [exact Hc|done|by rewrite lookup_insert_eq].
  - destruct Hkk as [Hkk Hoth]. change (set_sch (set_kv kk (sch x)) x) with (mkRun (set_kv kk (sch x)) (loc x)).
    assert (Hri1 : run_inv s0 (mkRun (set_kv kk (sch x)) (loc x)) cov B) by by eapply run_inv_kv.
    sch_step. eapply wp_mono; [by eapply take_victim_ok|]. intros v [s1 l1] (Hv & Hs1 & Hvt & Hlast).
    simpl in Hs1, Hvt, Hv, Hlast. sch_step. sch_step. simpl. rewrite Hs1.
    set (s := set_kv kk (sch x)) in *.
    pose proof (si_run _ _ _ (ri_inv _ _ _ _ Hri1) v Hv) as [Hsv [Htv Hhv _] _ _].
    eapply wp_mono.
    { eapply (preempt_view set_iter_nil s); [eapply view_running, view_refl|done|done|by eapply si_kv, Hri1|..].
      - by eapply si_obj, Hri1.
      - done.
      - by eapply si_waiting, Hri1. }
    intros [] s2 (q' & w' & kk' & Hvw & Hp & Hkv' & Hw' & Hwl). sch_step. sch_step.
    destruct (run_inv_preempt s0 (mkRun s (loc x)) cov B r v l1 s2 q' w' kk') as (Hri2 & Hlen & Hleft & Hbud & Hrest);
      try done.
    simpl in Hlen, Hleft, Hbud, Hrest, Hri2. case_decide as Hd.
    + sch_step. eexists. split; [exact Hri2|]. split_and!; [done|done|by intros [? ?]|].
      intros Hamp Hpol Hhd Hrh. exfalso. destruct (Hoth Hamp) as (id & m & Hne & Hid). destruct (Hrh id m Hid) as (r2 & Hr2 & Hid2).
      specialize (Hlast Hpol). rewrite Hd in Hlast. rewrite (head_last _ r (run_nodup _ _ _ Hi) Hhd Hlast) in Hr2.
      apply list_elem_of_singleton in Hr2 as ->. done.
    + destruct (Hrest Hd) as [Hc2 Hobj]. change (obj s r) with (obj (sch x) r) in Hobj.
      eapply wp_mono; [eapply IH; [exact Hri2|exact Hc2|simpl; change (running s) with (running (sch x)) in Hlen; lia|done|]|].
      { simpl. by rewrite Hobj. }
      intros o x' (cov' & Hri' & Hl' & Hb' & Ho & Hamp'). simpl in Hl', Hb', Ho, Hamp'. rewrite Hobj in Ho.
      exists cov'. split; [done|]. change (running s) with (running (sch x)) in *. split; [lia|]. split; [lia|]. split; [done|].
      pose proof (vw_fixed _ _ _ _ _ _ _ _ Hvw) as Hf. unfold fixed in Hf. injection Hf as Hcf _ _ _ _. rewrite Hcf in Hamp'.
      intros Ha Hpol Hhd Hrh. apply Hamp'; [done|done| |].
      * rewrite (vw_running _ _ _ _ _ _ _ _ Hvw). specialize (Hlast Hpol). apply last_Some in Hlast as [R HR].
        pose proof (run_nodup _ _ _ Hi) as Hnd. rewrite HR in Hnd, Hhd |- *.
        rewrite remove_first_last by (apply NoDup_app in Hnd as (_ & Hdis & _); intros Hy; by apply (Hdis v Hy), list_elem_of_singleton).
        destruct R; [|done]. injection Hhd as ->. done.
      * intros id m [Hne Hid]%lookup_delete_Some. destruct (Hrh id m Hid) as (r2 & Hr2 & Hid2). exists r2.
        assert (r2 ≠ v) as Hn2 by (intros ->; done). rewrite (vw_other _ _ _ _ _ _ _ _ Hvw r2 Hn2). split; [|done].
        rewrite (vw_running _ _ _ _ _ _ _ _ Hvw). apply remove_first_elem; [by eapply run_nodup|done].
Qed.

(** Cutting the draft tokens changes nothing that matters here. *)
Lemma truncate_view s r k Q :
  (∀ s', (∃ d, view s s' r (set_spec_token_ids d (obj s r)) (running s) (waiting s) (skipped_waiting s) (kv s)) → Q tt s') →
  wp (truncate_spec r k) Q s.
Proof.
  intros HQ. unfold truncate_spec. sch_step. sch_step. destruct (request_spec s r) as [l|].
  - sch_step. apply HQ. eexists. eapply view_put, view_refl.
  - sch_step. apply HQ. exists (spec_token_ids (obj s r)).
    assert (set_spec_token_ids (spec_token_ids (obj s r)) (obj s r) = obj s r) as -> by by destruct (obj s r).
    eapply view_placeholders; [apply view_refl|apply py_slice_short].
Qed.

(** A change to the draft tokens of a running request. *)
Lemma run_inv_spec s0 x cov B r s' (d : list Z) :
  run_inv s0 x cov B → r ∈ running (sch x) →
  view (sch x) s' r (set_spec_token_ids d (obj (sch x) r)) (running (sch x)) (waiting (sch x)) (skipped_waiting (sch x))
    (kv (sch x)) →
  run_inv s0 (mkRun s' (loc x)) cov B.
Proof.
  intros Hri Hr Hvw. pose proof (ri_inv _ _ _ _ Hri) as Hi.
  eapply run_inv_view; [exact Hri|exact Hr|exact Hvw|done|done| | |done|by eapply si_kv].
  - destruct (si_run _ _ _ Hi r Hr) as [H1 H2 H3 H4]. split; try done. by eapply plain_same; [|exact H2].
  - destruct (decide (r ∈ scheduled (loc x))) as [Hs|Hs]; [by right|left]. split; [done|]. by apply Hri.
Qed.

Lemma schedule_spec_ok s0 x cov B r n :
  run_inv s0 x cov B → r ∈ running (sch x) →
  wp (schedule_spec_tokens r n) (λ _ x', run_inv s0 x' cov B ∧ running (sch x') = running (sch x) ∧
    req_index (loc x') = req_index (loc x) ∧ mm_features (obj (sch x') r) = mm_features (obj (sch x) r) ∧
    scheduled (loc x') = scheduled (loc x)) x.
Proof.
  intros Hri Hr. unfold schedule_spec_tokens. sch_step. sch_step. case_match; [by sch_step|]. sch_step.
  match goal with |- wp _ ?Q x => assert (Hgo : ∀ l', run_inv s0 (mkRun (sch x) l') cov B →
    req_index l' = req_index (loc x) → scheduled l' = scheduled (loc x) → Q tt (mkRun (sch x) l')) end.
  { intros l' Hl' Hidx Hsc. sch_step. eapply wp_view_spec; [apply view_refl|]. intros s' Hv. simpl in Hv.
    split_and!; [|by apply Hv|done|by simpl; rewrite (vw_obj _ _ _ _ _ _ _ _ Hv)|done].
    change (set_sch s' (mkRun (sch x) l')) with (mkRun s' (loc (mkRun (sch x) l'))).
    by eapply run_inv_spec; [exact Hl'|exact Hr|exact Hv]. }
  case_match; sch_step.
  - apply Hgo; [|done|done]. by eapply run_inv_loc.
  - destruct x. by apply Hgo.
Qed.

Lemma start_current s0 x cov B r :
  run_inv s0 x cov B → py_get (running (sch x)) (req_index (loc x)) = Some r → current x r.
Proof.
  intros Hri Hget. pose proof (ri_idx _ _ _ _ Hri) as Hidx. rewrite py_get_nonneg in Hget by done.
  split_and!; [|apply elem_of_take; exists (Z.to_nat (req_index (loc x))); split; [done|lia]|done].
  intros Hs. apply (ri_sub _ _ _ _ Hri) in Hs. apply elem_of_take in Hs as (j & Hj & Hlt).
  pose proof (NoDup_lookup _ _ _ _ (run_nodup _ _ _ (ri_inv _ _ _ _ Hri)) Hj Hget). lia.
Qed.

(** The number of tokens is positive, in the budget and below the longest sequence. *)
Lemma running_tokens_bounds s0 x cov B r :
  run_inv s0 x cov B → current x r → 0 < token_budget (loc x) → len (request_spec_tokens (sch x) r) ≤ B.2 →
  let n := running_num_new_tokens (sch x) r (token_budget (loc x)) in
  0 ≤ n ≤ token_budget (loc x) ∧ computed (sch x) r + n < max_len ∧ within B.2 (obj (sch x) r) n.
Proof.
  intros Hri Hc Hb Hspec n. pose proof (current_running _ _ Hc) as Hr. pose proof (ri_inv _ _ _ _ Hri) as Hi.
  destruct (si_run _ _ _ Hi r Hr) as [_ _ _ Hlen]. destruct Hc as (Hns & _ & _).
  pose proof (ri_ready _ _ _ _ Hri r Hr Hns) as Hready.
  pose proof (ps_max _ (si_settings _ _ _ Hi)) as Hmax.
  unfold n, within, running_num_new_tokens, tokens_with_spec, capped, num_tokens in *. rewrite Hmax.
  pose proof (len_nonneg (request_spec_tokens (sch x) r)).
  destruct (_ && _) eqn:Hcap; [apply andb_true_iff in Hcap as [?%Z.ltb_lt ?%Z.ltb_lt]|]; lia.
Qed.

Lemma steady_spec async c D s r : steady async c D s → len (request_spec_tokens s r) ≤ D.
Proof.
  intros (Ho & Hp & _). unfold request_spec_tokens, request_spec. case_decide; simpl; [done|]. apply Ho.
Qed.

(** The oldest request is next, and can make progress. *)
Definition leads x cov r : Prop :=
  srv_ample = true ∧ policy (config_ (sch x)) = FCFS ∧ req_index (loc x) = 0 ∧ head (running (sch x)) = Some r ∧
  runners_hold (sch x) cov ∧ computed (sch x) r < num_tokens (obj (sch x) r) ∧ num_output_placeholders (obj (sch x) r) = 0.

Lemma leads_tokens s0 x cov B r :
  run_inv s0 x cov B → leads x cov r → 0 < token_budget (loc x) →
  reached_max_tokens (obj (sch x) r) = false ∧ 0 < running_num_new_tokens (sch x) r (token_budget (loc x)).
Proof.
  intros Hri (_ & _ & _ & Hh & _ & Hlt & Hp) Hb. unfold reached_max_tokens. rewrite Hp. split; [done|].
  pose proof (ri_inv _ _ _ _ Hri) as Hi. pose proof (ps_max _ (si_settings _ _ _ Hi)) as Hmax.
  assert (r ∈ running (sch x)) as Hr by (destruct (running (sch x)); [done|injection Hh as ->; by left]).
  destruct (si_run _ _ _ Hi r Hr) as [_ [_ [Ht _ _] _] _ _].
  unfold running_num_new_tokens, tokens_with_spec, capped, num_tokens in *. rewrite Hmax, Hp.
  pose proof (len_nonneg (request_spec_tokens (sch x) r)).
  destruct (_ && _) eqn:Hcap; [apply andb_true_iff in Hcap as [?%Z.ltb_lt ?%Z.ltb_lt]|]; lia.
Qed.

Lemma schedule_running_one_ok s0 x cov B k ts async c :
  run_inv s0 x cov B → steady_run async c B.2 x → req_index (loc x) < len (running (sch x)) → 0 < token_budget (loc x) →
  wp (schedule_running_one k ts) (λ f x', ∃ cov', run_inv s0 x' cov' B ∧ (f = Continue → left x' < left x) ∧
    ∀ r, leads x cov r → f = Continue ∧ r ∈ scheduled (loc x')) x.
Proof.
  intros Hri Hst Hlt Hb. unfold schedule_running_one. sch_step. sch_step. unfold Datatypes.id.
  destruct (lookup_lt_is_Some_2 (running (sch x)) (Z.to_nat (req_index (loc x)))) as [r Hr].
  { pose proof (ri_idx _ _ _ _ Hri). unfold len in Hlt. lia. }
  rewrite <- py_get_nonneg in Hr by apply Hri. sch_step. eapply wp_or_raise; [exact Hr|].
  pose proof (start_current _ _ _ _ _ Hri Hr) as Hc.
  assert (Hlead : ∀ r', leads x cov r' → r' = r).
  { intros r' (_ & _ & H0 & Hh & _). rewrite H0 in Hr. destruct (running (sch x)); [done|]. unfold py_get in Hr. simpl in *. congruence. }
  clear Hr. pose proof (current_running _ _ Hc) as Hr. sch_step.
  (* the draft tokens are cut *)
  eapply wp_mono with (λ _ x1, (run_inv s0 x1 cov B ∧ current x1 r ∧ left x1 = left x ∧
    token_budget (loc x1) = token_budget (loc x) ∧ r ∈ running (sch x1) ∧ (∀ r', leads x cov r' → r' = r ∧ leads x1 cov r)) ∧
    steady_run async c B.2 x1).
  { apply wp_stable; [case_match; [apply frame_sch, frame_truncate|apply stable_ret]|exact Hst|].
    case_match; [|sch_step; split_and!; try done; intros r' Hl; by pose proof (Hlead r' Hl) as ->]. sch_step. apply truncate_view. intros s' [l Hv].
    assert (Hrun := vw_running _ _ _ _ _ _ _ _ Hv). change (set_sch s' x) with (mkRun s' (loc x)). simpl. rewrite Hrun.
    pose proof (vw_fixed _ _ _ _ _ _ _ _ Hv) as Hf. injection Hf as Hcf _ _ _ _.
    split; [by eapply run_inv_spec|]. split; [|split; [done|split; [done|split; [done|]]]].
    - unfold current in *. simpl. by rewrite Hrun, Hcf.
    - intros r' Hl. pose proof (Hlead r' Hl) as ->. split; [done|]. destruct Hl as (L1 & L2 & L3 & L4 & L5 & L6 & L7).
      unfold leads. simpl. rewrite Hrun, Hcf, (vw_obj _ _ _ _ _ _ _ _ Hv). split_and!; try done.
      intros id n Hid. destruct (L5 id n Hid) as (r2 & Hr2 & Hi2). exists r2. rewrite Hrun. split; [done|].
      destruct (decide (r2 = r)) as [->|Hne]; [by rewrite (vw_obj _ _ _ _ _ _ _ _ Hv)|by rewrite (vw_other _ _ _ _ _ _ _ _ Hv)]. }
  clear Hr Hst Hlead. intros [] x1 [(Hri1 & Hc1 & Hleft & Hb1 & Hr & Hlead) Hst]. rewrite <- Hb1 in Hb. clear Hri Hc Hlt Hb1.
  rewrite <- Hleft. clear Hleft. rename x into xx, x1 into x, Hri1 into Hri, Hc1 into Hc.
  sch_step. sch_step. unfold Datatypes.id.
  pose proof (ri_inv _ _ _ _ Hri) as Hi. pose proof (si_settings _ _ _ Hi) as Hset.
  destruct (si_run _ _ _ Hi r Hr) as [_ [Htext _ _] _ _].
  match goal with |- wp (if _ then ?N else _) ?Q x => assert (Hnext : ¬ leads x cov r → wp N Q x) end.
  { intros Hno. sch_step. sch_step. sch_step. exists cov. split; [|split; [simpl; lia|]].
    - eapply run_inv_loc; try done. simpl. lia.
    - intros r' Hl. by destruct (Hlead r' Hl). }
  destruct (reached_max_tokens _) eqn:Hreach.
  { apply Hnext. intros Hl. destruct (leads_tokens _ _ _ _ _ Hri Hl Hb) as [Hf _]. congruence. }
  assert (has_encoder_inputs (obj (sch x) r) = false) as Henc by by apply text_only.
  rewrite Henc. sch_step. sch_step. cbv beta iota. rewrite (ps_mamba _ Hset). sch_step. sch_step.
  destruct (running_tokens_bounds _ _ _ _ _ Hri Hc Hb (steady_spec _ _ _ _ r (proj1 Hst))) as (Hn & Hm & Hwith).
  set (n := running_num_new_tokens _ _ _) in *. destruct (Z.eqb_spec n 0) as [Hz|Hn0].
  { apply Hnext. intros Hl. destruct (leads_tokens _ _ _ _ _ Hri Hl Hb) as [_ Hf]. fold n in Hf. lia. }
  sch_step. eapply wp_mono; [eapply (allocate_or_preempt_ok s0 B r n ts); [exact Hri|exact Hc|lia|lia|done]|].
  intros [b|] x1 (cov1 & Hri1 & Hl1 & Hb1 & Hsome & Hgive).
  2: { sch_step. exists cov1. split_and!; [done|done|]. intros r' Hl. destruct (Hlead r' Hl) as [_ (L1 & L2 & _ & L4 & L5 & _)].
       by destruct (Hgive L1 L2 L4 L5). }
  destruct (Hsome ltac:(by eexists)) as (Hc1 & Hobj1 & Hcov1). clear Hsome Hnext.
  repeat (sch_step; sch_step). sch_step. cbn [loc sch set_loc].
  match goal with |- wp (schedule_spec_tokens r n) _ ?X => set (x2 := X) end.
  assert (Hri2 : run_inv s0 x2 cov1 B).
  { eapply (run_inv_schedule s0 x1 cov1 B r n b); try done; rewrite ?Hobj1; try done. lia. }
  eapply wp_mono; [by eapply schedule_spec_ok; [exact Hri2|apply (current_running _ _ Hc1)]|].
  intros [] x3 (Hri3 & Hrun3 & Hidx3 & Hmm3 & Hsc3). sch_step. unfold schedule_encoder_inputs.
  sch_step. sch_step. sch_step. sch_step. sch_step. sch_step. sch_step.
  exists cov1. split; [by destruct x3|]. split; [intros _; simpl in *; rewrite Hrun3, Hidx3; simpl; lia|].
  intros r' Hl. destruct (Hlead r' Hl) as [-> _]. split; [done|]. simpl. rewrite Hsc3. simpl. set_solver.
Qed.

(** The loop over the running requests. *)
Lemma running_loop_ok s0 B k ts async c : ∀ fuel x cov,
  run_inv s0 x cov B → steady_run async c B.2 x → Z.max 0 (left x) < Z.of_nat fuel →
  wp (running_loop fuel k ts) (λ _ x', ∃ cov', run_inv s0 x' cov' B) x.
Proof.
  induction fuel as [|fuel IH]; intros x cov Hri Hst Hf; [lia|].
  cbn [running_loop]. sch_step. sch_step. unfold Datatypes.id.
  destruct (_ && _) eqn:Hgo; [|sch_step; by exists cov].
  apply andb_true_iff in Hgo as [?%Z.ltb_lt ?%Z.ltb_lt]. sch_step.
  eapply wp_mono; [apply (wp_stable (steady_run async c B.2)); [apply frame_running_one|exact Hst|by eapply schedule_running_one_ok]|].
  intros [] x' [(cov' & Hri' & Hl & _) Hst']; [|sch_step; by exists cov']. eapply IH; [exact Hri'|exact Hst'|]. specialize (Hl eq_refl). lia.
Qed.
End RunningLoop.
