(* ===== verification/SchedWait.v ===== *)
(** * The waiting requests of a step

    The second loop of [Scheduler.schedule] in vllm/v1/core/sched/scheduler.py: requests
    leave the queues in the order of the policy, are put aside when they are blocked, and
    start to run as long as blocks and the token budget last. *)

From S2P Require Import Prelude FreeQueue Request BlockHash BlockPool KVSpec CacheHit SingleType Coordinator KVManager KVService Heap RequestQueue SchedUtils EncoderCache SpecControl SchedOutput SchedState EncoderSched Schedule SchedFrame SchedInv SchedRun.

#[local] Open Scope Z_scope.
#[local] Set Default Proof Using "Type*".

(** Looking at the head of a queue leaves it as it is. *)
Lemma wp_peek_same obj (obj_id : ∀ r, object_id (obj r) = r) p q y l Q :
  queue_ok obj p q → qlist obj q = y :: l → Q y q → wp (peek_request (QueueOps := request_queue_ops obj)) Q q.
Proof.
  intros Hq Hl HQ.
  assert (Hw : wp (peek_request (QueueOps := request_queue_ops obj)) (λ r _, r = y) q).
  { eapply (wp_peek obj obj_id p); [done|exact Hl|]. done. }
  unfold wp in *. assert ((peek_request (QueueOps := request_queue_ops obj) q).2 = q) as Hs.
  { destruct q as [[d]|[h]]; simpl; [by destruct d|by destruct h]. }
  destruct (peek_request q) as [[r|e] q']; [|done]. simpl in Hs. by subst.
Qed.

Section Wait.
Context {E : Env} {SE : SchedEnv} {max_len hash_bs : Z} {KS : KVService max_len hash_bs}.
Implicit Types (s : Scheduler) (cov : gmap string Z) (r v : req_ref) (q : Request) (l : Step) (x : Run) (B : Z * Z).
Abbreviation rid s r := (request_id (obj s r)).
Abbreviation computed s r := (num_computed_tokens (obj s r)).
Abbreviation inv := (@inv E SE max_len hash_bs KS).
Abbreviation tables := (@tables SE max_len).
Abbreviation plain := (@plain max_len hash_bs).

(** The requests scheduled so far. *)
Definition chosen l : list req_ref := scheduled_running_reqs l ++ scheduled_new_reqs l ++ scheduled_resumed_reqs l.
(** The requests put aside. *)
Definition aside x : list req_ref := qlist (obj (sch x)) (step_skipped_waiting (loc x)).

Record wait_inv s0 x cov B : Prop := {
  wi_inv : inv (sch x) cov (aside x);
  wi_all : all_reqs (sch x) (aside x) ≡ₚ all_reqs s0 [];
  wi_fixed : fixed (sch x) = fixed s0 ∧ flags (sch x) = flags s0;
  wi_aside : queue_ok (obj (sch x)) (policy (config_ (sch x))) (step_skipped_waiting (loc x));
  wi_nodup : NoDup (chosen (loc x));
  wi_sub r : r ∈ chosen (loc x) → r ∈ running (sch x);
  wi_tables : tables (sch x) cov (loc x) (chosen (loc x)) B;
  wi_rest : scheduled_encoder_inputs (loc x) = [] ∧ preempted_reqs (loc x) = [];
  wi_prev r : r ∈ waiting_list (sch x) ++ skipped_list (sch x) ++ aside x → status (obj (sch x) r) = PREEMPTED →
    rid (sch x) r ∉ prev_step_scheduled_req_ids (sch x);
  wi_resumed r : r ∈ scheduled_resumed_reqs (loc x) → rid (sch x) r ∉ prev_step_scheduled_req_ids (sch x);
  wi_ready r : r ∈ running (sch x) → r ∉ chosen (loc x) →
    computed (sch x) r ≤ num_tokens (obj (sch x) r) + num_output_placeholders (obj (sch x) r);
  wi_keep r : r ∈ running s0 → r ∈ running (sch x) ∧ computed (sch x) r = computed s0 r;
  wi_old r : r ∈ running (sch x) → r ∉ chosen (loc x) → r ∈ running s0
}.

Lemma tables_frame s s' cov cov' l L B :
  tables s cov l L B → (∀ r, rid s' r = rid s r) →
  (∀ r, r ∈ L → obj s' r = obj s r ∧ cov' !! rid s r = cov !! rid s r) → tables s' cov' l L B.
Proof.
  intros [H1 H2 H3 H4 H5] Hid Hsame.
  assert ((λ r, rid s' r) <$> L = (λ r, rid s r) <$> L) as Hm by (apply list_fmap_ext; intros i y _; apply Hid).
  split; rewrite ?Hm; try done. intros r Hr. destruct (H5 r Hr) as (n & ?). exists n.
  destruct (Hsame r Hr) as [-> ->]. done.
Qed.

Lemma tables_perm s cov l L L' B : L ≡ₚ L' → tables s cov l L B → tables s cov l L' B.
Proof. intros Hp [H1 H2 H3 H4 H5]. split; rewrite <- ?Hp; try done. intros r Hr. apply H5. by rewrite Hp. Qed.

(** One more request is given tokens. *)
Lemma tables_add s cov l l' L B r n b :
  tables s cov l L B → (∀ r', r' ∈ L → rid s r' ≠ rid s r) → 0 < n ≤ token_budget l →
  cov !! rid s r = Some (computed s r + n) → computed s r + n < max_len → within B.2 (obj s r) n →
  num_scheduled_tokens l' = od_set (rid s r) n (num_scheduled_tokens l) →
  req_to_new_blocks l' = od_set (rid s r) b (req_to_new_blocks l) → token_budget l' = token_budget l - n →
  tables s cov l' (r :: L) B.
Proof.
  intros [H1 H2 H3 H4 H5] Hnew Hn Hcov Hm Hwith Hl1 Hl2 Hl3.
  assert (Hk : rid s r ∉ (λ r, rid s r) <$> L).
  { intros (r' & He & Hr')%list_elem_of_fmap. by apply (Hnew r'). }
  split; rewrite ?Hl1, ?Hl2, ?Hl3.
  - rewrite od_set_new by by rewrite H3. rewrite fmap_app, sumZ_app. simpl. lia.
  - lia.
  - rewrite od_set_perm by by rewrite H3. by rewrite H3.
  - rewrite od_set_perm by by rewrite H4. by rewrite H4.
  - intros r' [->|Hr']%elem_of_cons.
    + exists n. rewrite od_get_set_eq. split_and!; [done|lia|done..].
    + destruct (H5 r' Hr') as (m & ?). exists m. rewrite od_get_set_ne by by apply Hnew. done.
Qed.

(** A request that waits changes, or moves. *)
Lemma wait_inv_change s0 x cov cov' B r s' l' q' R' w' k' kk' :
  wait_inv s0 x cov B → r ∈ waiting_list (sch x) ++ skipped_list (sch x) →
  view (sch x) s' r q' R' w' k' kk' → order_key q' = order_key (obj (sch x) r) →
  (∀ id, id ≠ rid (sch x) r → cov' !! id = cov !! id) → serves kk' cov' →
  let o := obj (sch x) in let p := policy (config_ (sch x)) in
  queue_ok o p w' → queue_ok o p k' → queue_ok o p (step_skipped_waiting l') →
  R' ++ qlist o w' ++ qlist o k' ++ qlist o (step_skipped_waiting l') ≡ₚ all_reqs (sch x) (aside x) →
  (∀ r', r' ∈ R' → r' ≠ r → r' ∈ running (sch x)) → (∀ r', r' ∈ running (sch x) → r' ∈ R') →
  (∀ r', r' ∈ qlist o w' ++ qlist o k' ++ qlist o (step_skipped_waiting l') → r' ≠ r →
     r' ∈ waiting_list (sch x) ++ skipped_list (sch x) ++ aside x) →
  (r ∈ R' → @run_ok max_len hash_bs cov' q') →
  (r ∈ qlist o w' ++ qlist o k' ++ qlist o (step_skipped_waiting l') →
     @wait_ok max_len hash_bs cov' q' ∧ (status q' = PREEMPTED → status (o r) = PREEMPTED)) →
  len R' ≤ max_num_running_reqs (config_ (sch x)) →
  scheduled_encoder_inputs l' = scheduled_encoder_inputs (loc x) → preempted_reqs l' = preempted_reqs (loc x) →
  NoDup (chosen l') → (∀ r', r' ∈ chosen l' → r' ∈ R') → tables s' cov' l' (chosen l') B →
  (∀ r', r' ∈ chosen (loc x) → r' ∈ chosen l') → (r ∈ R' → r ∈ chosen l') →
  (∀ r', r' ∈ scheduled_resumed_reqs l' → rid (sch x) r' ∉ prev_step_scheduled_req_ids (sch x)) →
  wait_inv s0 (mkRun s' l') cov' B.
Proof.
  intros Hwi Hr Hvw Hkq Hcov Hkv o p Hw Hk Ha Hall Hrun Hrun' Hwait Hr1 Hr2 Hlen He Hp Hnd Hsub Htb Hch Hrch Hres.
  pose proof (wi_inv _ _ _ _ Hwi) as Hi.
  assert (Hkey : ∀ r', order_key (obj s' r') = order_key (o r')).
  { intros r'. destruct (decide (r' = r)) as [->|Hne].
    - by rewrite (vw_obj _ _ _ _ _ _ _ _ Hvw).
    - by rewrite (vw_other _ _ _ _ _ _ _ _ Hvw). }
  assert (Hid : ∀ r', rid s' r' = rid (sch x) r').
  { intros r'. specialize (Hkey r'). unfold order_key, o in Hkey. congruence. }
  assert (Hq : ∀ qu, qlist (obj s') qu = qlist o qu) by (intros qu; by apply qlist_key).
  assert (waiting_list s' = qlist o w') as Hwl by (unfold waiting_list; rewrite Hq; f_equal; apply Hvw).
  assert (skipped_list s' = qlist o k') as Hsl by (unfold skipped_list; rewrite Hq; f_equal; apply Hvw).
  pose proof (vw_fixed _ _ _ _ _ _ _ _ Hvw) as Hf.
  assert (config_ s' = config_ (sch x)) as Hcfg by (unfold fixed in Hf; congruence).
  assert (prev_step_scheduled_req_ids s' = prev_step_scheduled_req_ids (sch x)) as Hprev by (unfold fixed in Hf; congruence).
  assert (Hall' : all_reqs s' (aside (mkRun s' l')) ≡ₚ all_reqs (sch x) (aside x)).
  { unfold all_reqs at 1, aside at 1. simpl. by rewrite Hwl, Hsl, Hq, (vw_running _ _ _ _ _ _ _ _ Hvw). }
  assert (Hqk : ∀ qu, queue_ok o p qu → queue_ok (obj s') (policy (config_ s')) qu).
  { intros qu Hqq. rewrite Hcfg. eapply queue_ok_key; [|exact Hqq]. by intros r'. }
  assert (Haside : aside (mkRun s' l') = qlist o (step_skipped_waiting l')) by apply Hq.
  split; simpl; rewrite ?Haside, ?Hwl, ?Hsl, ?Hprev; try done.
  - eapply (inv_change (sch x) s' cov cov' (aside x) _ r); try done.
    + unfold all_reqs. set_solver.
    + apply Hvw.
    + by rewrite (vw_kv _ _ _ _ _ _ _ _ Hvw).
    + rewrite (vw_waiting _ _ _ _ _ _ _ _ Hvw). auto.
    + rewrite (vw_skipped _ _ _ _ _ _ _ _ Hvw). auto.
    + by rewrite <- Haside.
    + by rewrite (vw_running _ _ _ _ _ _ _ _ Hvw).
    + by rewrite Hwl, Hsl.
    + by rewrite (vw_running _ _ _ _ _ _ _ _ Hvw), (vw_obj _ _ _ _ _ _ _ _ Hvw).
    + rewrite Hwl, Hsl, (vw_obj _ _ _ _ _ _ _ _ Hvw). intros Hin. by apply Hr2.
    + by rewrite (vw_running _ _ _ _ _ _ _ _ Hvw), Hcfg.
  - rewrite <- Haside, Hall'. apply Hwi.
  - destruct (wi_fixed _ _ _ _ Hwi) as [<- <-]. split; apply Hvw.
  - auto.
  - by rewrite (vw_running _ _ _ _ _ _ _ _ Hvw).
  - rewrite He, Hp. apply Hwi.
  - intros r' Hr' Hst. rewrite Hid. destruct (decide (r' = r)) as [->|Hne].
    + apply Hwi; [set_solver|]. rewrite (vw_obj _ _ _ _ _ _ _ _ Hvw) in Hst. by apply Hr2.
    + rewrite (vw_other _ _ _ _ _ _ _ _ Hvw r' Hne) in Hst. apply Hwi; [by apply Hwait|done].
  - intros r' Hr'. rewrite Hid. by apply Hres.
  - intros r' Hr' Hn. rewrite (vw_running _ _ _ _ _ _ _ _ Hvw) in Hr'.
    assert (r' ≠ r) as Hne by (intros ->; auto). rewrite (vw_other _ _ _ _ _ _ _ _ Hvw r' Hne). apply Hwi; auto.
  - intros r' Hr'. destruct (wi_keep _ _ _ _ Hwi r' Hr') as [Hin Hc]. rewrite (vw_running _ _ _ _ _ _ _ _ Hvw). split; [auto|].
    rewrite (vw_other _ _ _ _ _ _ _ _ Hvw); [done|]. intros ->. pose proof (inv_nodup _ _ _ Hi) as Hn. unfold all_reqs in Hn.
    apply NoDup_app in Hn as (_ & Hdis & _). apply (Hdis r Hin). set_solver.
  - intros r' Hr' Hn. rewrite (vw_running _ _ _ _ _ _ _ _ Hvw) in Hr'.
    assert (r' ≠ r) as Hne by (intros ->; auto). apply Hwi; auto.
Qed.

(** The request stays where it is. *)
Lemma wait_inv_view s0 x cov B r s' q' kk' :
  wait_inv s0 x cov B → r ∈ waiting_list (sch x) ++ skipped_list (sch x) →
  view (sch x) s' r q' (running (sch x)) (waiting (sch x)) (skipped_waiting (sch x)) kk' →
  order_key q' = order_key (obj (sch x) r) → @wait_ok max_len hash_bs cov q' →
  (status q' = PREEMPTED → status (obj (sch x) r) = PREEMPTED) → serves kk' cov →
  wait_inv s0 (mkRun s' (loc x)) cov B ∧
  waiting_list s' = waiting_list (sch x) ∧ skipped_list s' = skipped_list (sch x).
Proof.
  intros Hwi Hr Hvw Hkq Hok Hst Hkv. pose proof (wi_inv _ _ _ _ Hwi) as Hi.
  assert (Hkey : ∀ r', order_key (obj s' r') = order_key (obj (sch x) r')).
  { intros r'. destruct (decide (r' = r)) as [->|Hne].
    - by rewrite (vw_obj _ _ _ _ _ _ _ _ Hvw).
    - by rewrite (vw_other _ _ _ _ _ _ _ _ Hvw). }
  split; [|split; [unfold waiting_list; rewrite (vw_waiting _ _ _ _ _ _ _ _ Hvw)|
                   unfold skipped_list; rewrite (vw_skipped _ _ _ _ _ _ _ _ Hvw)]; by apply qlist_key].
  assert (Hnr : r ∉ running (sch x)).
  { intros Hrun. pose proof (inv_nodup _ _ _ Hi) as Hnd. unfold all_reqs in Hnd.
    apply NoDup_app in Hnd as (_ & Hd & _). apply (Hd r Hrun). set_solver. }
  eapply (wait_inv_change s0 x cov cov B r s' (loc x)); try done; try apply Hwi;
    try (by eapply si_waiting, Hi); try (by eapply si_skipped, Hi); try (by eapply si_len, Hi).
  eapply tables_frame; [by apply Hwi| |].
  - intros r'. specialize (Hkey r'). unfold order_key in Hkey. congruence.
  - intros r' Hr'. split; [|done]. eapply vw_other; [done|]. intros ->. by apply Hnr, Hwi.
Qed.

(** ** The queues *)

Definition wlist (w : which_queue) s : list req_ref :=
  match w with InWaiting => waiting_list s | InSkipped => skipped_list s end.
Definition put_queue (w : which_queue) (qu : request_queue) s : Scheduler :=
  match w with InWaiting => set_waiting qu s | InSkipped => set_skipped_waiting qu s end.
Definition left_to_do s : nat := (length (waiting_list s) + length (skipped_list s))%nat.

Lemma wlist_elem w s r (l : list req_ref) : wlist w s = r :: l → r ∈ waiting_list s ++ skipped_list s.
Proof. destruct w; simpl; intros ->; set_solver. Qed.

Lemma queue_nonempty_ok s cov P qu :
  inv s cov P → queue_ok (obj s) (policy (config_ s)) qu →
  queue_nonempty s qu = bool_decide (qlist (obj s) qu ≠ []).
Proof. intros Hi Hq. eapply queue_bool_ok; [by eapply si_obj|done]. Qed.

Lemma wp_on_queue_peek w s cov P r (l : list req_ref) Q :
  inv s cov P → wlist w s = r :: l → Q r s → wp (on_queue w (λ ops, peek_request)) Q s.
Proof.
  intros Hi Hl HQ. destruct w; simpl in *; sch_step.
  - eapply wp_peek_same; [by eapply si_obj|by eapply si_waiting|exact Hl|]. by destruct s.
  - eapply wp_peek_same; [by eapply si_obj|by eapply si_skipped|exact Hl|]. by destruct s.
Qed.

Lemma wp_on_queue_pop w s cov P r (l : list req_ref) Q :
  inv s cov P → wlist w s = r :: l →
  (∀ qu, queue_ok (obj s) (policy (config_ s)) qu → qlist (obj s) qu = l → Q r (put_queue w qu s)) →
  wp (on_queue w (λ ops, pop_request)) Q s.
Proof.
  intros Hi Hl HQ. destruct w; simpl in *; sch_step.
  - eapply wp_pop; [by eapply si_obj|by eapply si_waiting|exact Hl|]. exact HQ.
  - eapply wp_pop; [by eapply si_obj|by eapply si_skipped|exact Hl|]. exact HQ.
Qed.

Lemma select_ok s cov P Q :
  inv s cov P → waiting_list s ≠ [] ∨ skipped_list s ≠ [] →
  (∀ w r (l : list req_ref), wlist w s = r :: l → Q (Some w) s) → wp _select_waiting_queue_for_scheduling Q s.
Proof.
  intros Hi Hne HQ. unfold _select_waiting_queue_for_scheduling. sch_step. sch_step. unfold Datatypes.id.
  rewrite !(queue_nonempty_ok s cov P) by (done || by eapply si_waiting || by eapply si_skipped).
  fold (waiting_list s) (skipped_list s).
  destruct (waiting_list s) as [|a lw] eqn:Hw, (skipped_list s) as [|b lk] eqn:Hk; [by destruct Hne| | |];
    rewrite ?bool_decide_true, ?bool_decide_false by (done || auto); simpl.
  - case_decide; sch_step; by apply (HQ InSkipped b lk).
  - case_decide; sch_step; by apply (HQ InWaiting a lw).
  - case_decide; [sch_step; by apply (HQ InSkipped b lk)|].
    sch_step. apply (wp_on_queue_peek InWaiting s cov P a lw); [done|done|].
    sch_step. apply (wp_on_queue_peek InSkipped s cov P b lk); [done|done|].
    sch_step. destruct (request_lt _ _); [by apply (HQ InWaiting a lw)|by apply (HQ InSkipped b lk)].
Qed.

(** The lists of the scheduler and the local variables stay as they are. *)
Definition kept x x' : Prop :=
  loc x' = loc x ∧ running (sch x') = running (sch x) ∧
  waiting_list (sch x') = waiting_list (sch x) ∧ skipped_list (sch x') = skipped_list (sch x).

Lemma kept_wlist w x x' : kept x x' → wlist w (sch x') = wlist w (sch x).
Proof. by intros (_ & _ & ? & ?); destruct w. Qed.

(** ** A blocked request *)

Lemma head_wait s0 x cov B w r (l : list req_ref) :
  wait_inv s0 x cov B → wlist w (sch x) = r :: l → @wait_ok max_len hash_bs cov (obj (sch x) r).
Proof.
  intros Hwi Hl%wlist_elem. eapply si_wait; [by apply Hwi|]. set_solver.
Qed.

Lemma head_not_running s0 x cov B w r (l : list req_ref) :
  wait_inv s0 x cov B → wlist w (sch x) = r :: l → r ∉ running (sch x).
Proof.
  intros Hwi Hl%wlist_elem Hrun. pose proof (inv_nodup _ _ _ (wi_inv _ _ _ _ Hwi)) as Hnd.
  apply NoDup_app in Hnd as (_ & Hd & _). apply (Hd r Hrun). set_solver.
Qed.

(** Neither structured output nor a session. *)
Definition ordinary q : Prop := structured_output_request q = None ∧ resumable q = false.

Lemma promote_ok s0 x cov B w r (l : list req_ref) :
  wait_inv s0 x cov B → wlist w (sch x) = r :: l →
  wp (if _is_blocked_waiting_status (status (obj (sch x) r)) then on_sch (_try_promote_blocked_waiting_request r)
      else mret true)
    (λ ready x', wait_inv s0 x' cov B ∧ kept x x' ∧
       (ready = true → status (obj (sch x') r) = WAITING ∨ status (obj (sch x') r) = PREEMPTED) ∧
       (ordinary (obj (sch x) r) → ready = true ∧ x' = x)) x.
Proof.
  intros Hwi Hl. destruct (head_wait _ _ _ _ _ _ _ Hwi Hl) as [Hst Hpl Hcov]. unfold wait_status in Hst.
  assert (Hord : _is_blocked_waiting_status (status (obj (sch x) r)) = true → ¬ ordinary (obj (sch x) r)).
  { intros Hb [Ho1 Ho2]. rewrite Ho1, Ho2 in Hst. by destruct (status (obj (sch x) r)); destruct Hst. }
  unfold _try_promote_blocked_waiting_request.
  destruct (status (obj (sch x) r)) eqn:Hs; try done; simpl; simpl in Hord; sch_step; try (split_and!; by auto).
  - sch_step. sch_step. unfold Datatypes.id. rewrite Hs.
    case_match; [|sch_step; destruct x; split_and!; try done; intros Ho; by destruct (Hord eq_refl)].
    sch_step. eapply wp_view_upd; [apply view_refl|]. intros s' Hv. sch_step.
    destruct (wait_inv_view s0 x cov B r s' _ _ Hwi (wlist_elem _ _ _ _ Hl) Hv) as (Hwi' & H1 & H2); try done.
    + split; [done|by eapply plain_same; [|exact Hpl]|done].
    + by eapply si_kv, Hwi.
    + split; [exact Hwi'|]. split; [split_and!; try done; apply Hv|]. split; [|intros Ho; by destruct (Hord eq_refl)]. intros _. left.
      simpl. by rewrite (vw_obj _ _ _ _ _ _ _ _ Hv).
  - sch_step. sch_step. unfold Datatypes.id. rewrite Hs. sch_step. destruct Hst as [_ Hst].
    apply wp_assert; [by destruct (streaming_queue _) as [[]|]|]. sch_step. destruct x. split_and!; try done. intros Ho. by destruct (Hord eq_refl).
Qed.

(** The request at the head of a queue is put aside. *)
Lemma skip_ok s0 x cov B w r (l : list req_ref) :
  wait_inv s0 x cov B → wlist w (sch x) = r :: l →
  wp (skip_request w r) (λ f x', wait_inv s0 x' cov B ∧ (left_to_do (sch x') < left_to_do (sch x))%nat) x.
Proof.
  intros Hwi Hl. pose proof (wi_inv _ _ _ _ Hwi) as Hi. unfold skip_request. sch_step. sch_step.
  eapply wp_on_queue_pop; [exact Hi|exact Hl|]. intros qu Hqu Hql. sch_step. sch_step. sch_step. sch_step.
  unfold Datatypes.id. cbn [sch loc set_sch].
  assert (obj (put_queue w qu (sch x)) = obj (sch x)) as -> by by destruct w.
  pose proof (wp_prepend (obj (sch x)) (si_obj _ _ _ Hi) (policy (config_ (sch x))) r (step_skipped_waiting (loc x))
    (λ _ k, queue_ok (obj (sch x)) (policy (config_ (sch x))) k ∧ qlist (obj (sch x)) k ≡ₚ r :: aside x)
    (wi_aside _ _ _ _ Hwi)) as Hp.
  unfold wp in Hp at 1. destruct (prepend_request r (step_skipped_waiting (loc x))) as [[[]|e] k]; [|by apply Hp].
  destruct Hp as [Hk Hkl]; [done|]. cbn [lift_result]. sch_step. sch_step. sch_step. sch_step. sch_step.
  change (set_loc _ _) with (mkRun (put_queue w qu (sch x)) (set_step_skipped_waiting k (loc x))). split.
  - eapply (wait_inv_change s0 x cov cov B r _ _ (obj (sch x) r) (running (sch x))
      (match w with InWaiting => qu | InSkipped => waiting (sch x) end)
      (match w with InWaiting => skipped_waiting (sch x) | InSkipped => qu end)); try done; try apply Hwi.
    + by eapply wlist_elem.
    + destruct w; [eapply view_waiting|eapply view_skipped]; apply view_refl.
    + destruct w; [done|]. by eapply si_waiting.
    + destruct w; [|done]. by eapply si_skipped.
    + unfold all_reqs. simpl. rewrite Hkl.
      destruct w; simpl in Hl; rewrite Hl, Hql; fold (waiting_list (sch x)) (skipped_list (sch x)); solve_Permutation.
    + simpl. intros r' Hr' Hne. destruct w; simpl in Hl; rewrite Hl; rewrite Hql, Hkl in Hr';
      fold (waiting_list (sch x)) (skipped_list (sch x)) in Hr'; set_solver.
    + intros _. split; [by eapply head_wait|done].
    + eapply (tables_ext _ _ (loc x)); [|done..]. eapply (tables_frame (sch x)); [by apply (wi_tables _ _ _ _ Hwi)|by destruct w|by destruct w].
    + intros Hr. by destruct (head_not_running _ _ _ _ _ _ _ Hwi Hl).
  - assert (Hq : ∀ y, qlist (obj (put_queue w qu (sch x))) y = qlist (obj (sch x)) y) by by destruct w.
    unfold left_to_do, waiting_list, skipped_list. cbn [sch]. rewrite !Hq.
    destruct w; simpl in *; [unfold waiting_list in Hl|unfold skipped_list in Hl]; rewrite Hl, Hql; simpl; lia.
Qed.

(** ** What the caches hold of a request *)

(** The first [computed] tokens of the request at hand are in the cache: it has just been
    looked up, or it is a session that holds them. *)
Definition found s cov r (b : KVCacheBlocks) (local computed : Z) : Prop :=
  (cov !! rid s r = None ∧ num_computed_tokens (obj s r) = 0 ∧ hit_of (kv s) (obj s r) b local ∧
   computed = local ∧ 0 ≤ computed) ∨
  (∃ c, cov !! rid s r = Some c ∧ 0 < computed ≤ c ∧ computed = num_computed_tokens (obj s r) ∧
        local = 0 ∧ b = EmptyBlocks).

Lemma prefill_stats_ok s r local Q :
  (is_Some (prefill_stats (obj s r)) → local ≤ num_prompt_tokens (obj s r)) →
  (∀ st s', (st = prefill_stats (obj s r) ∨ is_Some (prefill_stats (obj s r))) →
     view s s' r (set_prefill_stats st (obj s r)) (running s) (waiting s) (skipped_waiting s) (kv s) → Q tt s') →
  wp (set_first_prefill_stats r local 0) Q s.
Proof.
  intros Hle HQ. unfold set_first_prefill_stats. sch_step. sch_step. destruct (prefill_stats (obj s r)) eqn:Hp.
  - assert (local + 0 <=? num_prompt_tokens (obj s r) = true) as Ha.
    { apply Z.leb_le. rewrite Z.add_0_r. by apply Hle. }
    sch_step. apply wp_assert; [done|]. sch_step. apply wp_assert; [done|].
    eapply wp_view_upd; [apply view_refl|]. intros s' Hv. eapply HQ; [by right|exact Hv].
  - sch_step. apply (HQ None); [by left|].
    assert (set_prefill_stats None (obj s r) = obj s r) as ->; [|apply view_refl].
    destruct (obj s r). simpl in *. by subst.
Qed.

Lemma view_after_kv s s' kk0 r q R w k kk : view (set_kv kk0 s) s' r q R w k kk → view s s' r q R w k kk.
Proof. intros []. by split. Qed.

Lemma cached_ok s0 x cov B w r (l : list req_ref) :
  wait_inv s0 x cov B → wlist w (sch x) = r :: l →
  wp (on_sch (cached_tokens r)) (λ o x', ∃ b local computed,
    o = Some (b, local, 0, false, computed, 0, 0) ∧ wait_inv s0 x' cov B ∧ kept x x' ∧
    found (sch x') cov r b local computed ∧ computed < num_tokens (obj (sch x') r) ∧
    status (obj (sch x') r) = status (obj (sch x) r)) x.
Proof.
  intros Hwi Hl. destruct (head_wait _ _ _ _ _ _ _ Hwi Hl) as [Hst Hpl Hcov].
  pose proof (wi_inv _ _ _ _ Hwi) as Hi.
  unfold cached_tokens. sch_step. sch_step. sch_step. case_match eqn:Hz.
  - apply Z.eqb_eq in Hz. destruct Hcov as [[Hnone _]|(_ & c & _ & ? & _)]; [|lia].
    sch_step. sch_step. eapply wp_mono.
    { eapply srv_lookup; [by eapply si_kv|apply Hpl|done|done]. }
    intros [b n] k' (Hk' & Hn & Hhit). simpl in Hn, Hhit. sch_step. sch_step. unfold Datatypes.id. simpl.
    rewrite (si_conn _ _ _ Hi). sch_step. sch_step. sch_step. apply wp_assert; [apply Z.leb_le; lia|]. sch_step.
    apply prefill_stats_ok.
    { intros Hs. pose proof (pl_stats _ Hpl Hs). change (obj (set_kv k' (sch x)) r) with (obj (sch x) r). lia. }
    intros st s' Hs Hv. apply view_after_kv in Hv. change (obj (set_kv k' (sch x)) r) with (obj (sch x) r) in Hs, Hv.
    sch_step. exists b, n, n. split; [by rewrite Z.add_0_r|]. change (set_sch s' x) with (mkRun s' (loc x)).
    destruct (wait_inv_view s0 x cov B r s' _ _ Hwi (wlist_elem _ _ _ _ Hl) Hv) as (Hwi' & H1 & H2); try done.
    { split; [done| |by left]. destruct Hpl as [Ht Hh Hps]. split; [done|by destruct Hh|].
      simpl. intros Hs'. apply Hps. by destruct Hs as [<-|?]. }
    split; [exact Hwi'|]. split; [split_and!; try done; apply Hv|]. simpl.
    unfold found. rewrite (vw_obj _ _ _ _ _ _ _ _ Hv), (vw_kv _ _ _ _ _ _ _ _ Hv). split_and!; [left|exact (proj2 Hn)|done].
    simpl. split_and!; try done; [|lia]. by eapply srv_hit_ext; [| |exact Hhit].
  - apply Z.eqb_neq in Hz. destruct Hcov as [[_ ?]|(_ & c & Hc & Hle & Hlt)]; [done|].
    sch_step. eexists EmptyBlocks, 0, _. split; [done|]. destruct x as [s l']. split; [exact Hwi|].
    split; [done|]. split_and!; [|exact Hlt|done]. right. by exists c.
Qed.

(** ** The number of tokens *)

Lemma waiting_tokens_ok x r (computed : Z) :
  mm_features (obj (sch x) r) = [] → 0 ≤ computed < num_tokens (obj (sch x) r) → 0 < token_budget (loc x) →
  wp (waiting_num_new_tokens r computed false 0) (λ o x', x' = x ∧
    match o with
    | None => enable_chunked_prefill (config_ (sch x)) = false ∧ token_budget (loc x) < num_tokens (obj (sch x) r)
    | Some (inputs, n, new_budget, external) =>
        inputs = [] ∧ external = [] ∧ 0 < n ≤ token_budget (loc x) ∧ computed + n ≤ num_tokens (obj (sch x) r)
    end) x.
Proof.
  intros Htext Hc Hb. unfold waiting_num_new_tokens. sch_step. sch_step. unfold Datatypes.id.
  set (n := capped _ _).
  assert (0 < n ≤ num_tokens (obj (sch x) r) - computed).
  { unfold n, capped. destruct (_ && _) eqn:Hcap; [apply andb_true_iff in Hcap as [?%Z.ltb_lt ?%Z.ltb_lt]|]; lia. }
  destruct (negb _ && _) eqn:Hch.
  { sch_step. apply andb_true_iff in Hch as [?%negb_true_iff ?%Z.ltb_lt]. split_and!; [done|done|lia]. }
  sch_step. apply wp_assert; [apply Z.ltb_lt; lia|].
  rewrite text_only by done. sch_step. split_and!; [done..| | |]; lia.
Qed.

(** ** Blocks for a waiting request *)

Lemma fits_ok s cov P r b local computed enc Q :
  inv s cov P → found s cov r b local computed → local ≤ max_len →
  (∀ f : bool, (f = false → srv_ample = true → cov !! rid s r = None → others_hold cov (obj s r)) → Q f s) →
  wp (if scheduler_reserve_full_isl (config_ s) then
        on_kv (can_fit_full_sequence (obj s r) local (Some b) 0 enc) else mret true) Q s.
Proof.
  intros Hi Hf Hlm HQ. case_match; [|sch_step; by apply HQ]. sch_step. pose proof (si_kv _ _ _ Hi) as Hkv.
  assert (set_kv (kv s) s = s) as Hsame by by destruct s.
  destruct Hf as [(Hn & H0 & Hh & -> & _)|(c & Hc & ? & ? & -> & ->)].
  - eapply wp_mono; [by eapply srv_can_fit_hit|]. intros f k' [-> Hf]. rewrite Hsame. apply HQ. auto.
  - eapply wp_mono; [by eapply srv_can_fit|]. intros f k' ->. rewrite Hsame. apply HQ. intros _ _. congruence.
Qed.

Lemma allocate_waiting_ok s cov P r b local computed n lookahead enc :
  inv s cov P → found s cov r b local computed → hashed max_len hash_bs (obj s r) →
  0 < n → 0 ≤ lookahead → computed + n ≤ max_len →
  wp (on_kv (allocate_slots (obj s r) n local (Some b) lookahead 0 false enc)) (λ o s', ∃ kk, s' = set_kv kk s ∧
    match o with
    | None => serves kk cov ∧ (srv_ample = true → others_hold cov (obj s r))
    | Some _ => serves kk (<[rid s r := computed + n]> cov)
    end) s.
Proof.
  intros Hi Hf Hh Hn Hl Hm. sch_step. pose proof (si_kv _ _ _ Hi) as Hkv.
  destruct Hf as [(Hnone & H0 & Hhit & -> & _)|(c & Hc & Hle & -> & -> & ->)].
  - eapply wp_mono; [by eapply srv_allocate_hit|]. intros o kk Ho. by exists kk.
  - eapply wp_mono; [eapply srv_allocate; [done|done|exact Hc|lia|done..]|]. intros o kk Ho. by exists kk.
Qed.

(** ** A request starts *)

(** What the start of a request does to the local variables. *)
Record started s l l' r (n : Z) : Prop := {
  st_tokens : num_scheduled_tokens l' = od_set (rid s r) n (num_scheduled_tokens l);
  st_blocks : ∃ b, req_to_new_blocks l' = od_set (rid s r) b (req_to_new_blocks l);
  st_budget : token_budget l' = token_budget l - n;
  st_chosen : chosen l' ≡ₚ r :: chosen l;
  st_resumed : scheduled_resumed_reqs l' = scheduled_resumed_reqs l ∨
    (status (obj s r) = PREEMPTED ∧ scheduled_resumed_reqs l' = scheduled_resumed_reqs l ++ [r]);
  st_rest : scheduled_encoder_inputs l' = scheduled_encoder_inputs l ∧ preempted_reqs l' = preempted_reqs l ∧
    step_skipped_waiting l' = step_skipped_waiting l
}.

(** The request runs from the token [computed] on. *)
Record running_from q q' (computed : Z) : Prop := {
  rf_status : status q' = RUNNING;
  rf_computed : num_computed_tokens q' = computed;
  rf_key : order_key q' = order_key q;
  rf_same : (_all_token_ids q', block_hashes q', mm_features q', num_prompt_tokens q', prefill_stats q') =
            (_all_token_ids q, block_hashes q, mm_features q, num_prompt_tokens q, prefill_stats q)
}.

Lemma start_view s s1 l1 w r R wq kq kk n computed new_budget ts :
  view s s1 r (obj s r) R wq kq kk → max_loras (config_ s) = None →
  status (obj s r) = WAITING ∨ status (obj s r) = PREEMPTED →
  wp (start_request w r n computed [] new_budget [] ts) (λ f x', ∃ q',
    view s (sch x') r q' (R ++ [r]) wq kq kk ∧ running_from (obj s r) q' computed ∧ started s l1 (loc x') r n)
    (mkRun s1 l1).
Proof.
  intros Hv Hlora Hst. unfold start_request. sch_step. sch_step. sch_step. cbn [sch set_sch]. sch_step. sch_step. cbn [sch loc set_sch].
  apply (view_running _ _ _ _ _ _ _ _ (running s1 ++ [r])) in Hv as Hv2.
  assert (running s1 = R) as HR by apply Hv. rewrite HR in Hv2 |- *. clear Hv HR. rename Hv2 into Hv.
  set (s2 := set_running (R ++ [r]) s1) in *. clearbody s2.
  assert (config_ s2 = config_ s) as Hcfg. { pose proof (vw_fixed _ _ _ _ _ _ _ _ Hv) as Hf. unfold fixed in Hf. congruence. }
  rewrite (vw_obj _ _ _ _ _ _ _ _ Hv), Hcfg, Hlora. sch_step.
  eapply wp_mono with (λ _ x', loc x' = l1 ∧ ∃ q', view s (sch x') r q' (R ++ [r]) wq kq kk ∧
    order_key q' = order_key (obj s r) ∧
    (_all_token_ids q', block_hashes q', mm_features q', num_prompt_tokens q', prefill_stats q') =
    (_all_token_ids (obj s r), block_hashes (obj s r), mm_features (obj s r), num_prompt_tokens (obj s r), prefill_stats (obj s r))).
  { case_match; [|by sch_step; split; [done|]; eexists]. sch_step. cbn [sch]. view_step. unfold record_event. sch_step.
    intros s3 Hv'. split; [done|]. by eexists. }
  intros _ [s3 l3] (Hl3 & q3 & Hv3 & Hk3 & Hs3). simpl in Hl3, Hv3. subst l3. sch_step.
  set (l2 := match status (obj s r) with
             | WAITING => set_scheduled_new_reqs (scheduled_new_reqs l1 ++ [r]) l1
             | _ => set_scheduled_resumed_reqs (scheduled_resumed_reqs l1 ++ [r]) l1 end).
  eapply wp_mono with (λ _ x', x' = mkRun s3 l2).
  { unfold l2. destruct Hst as [-> | ->]; sch_step; done. }
  intros _ x' ->. sch_step. sch_step. sch_step. sch_step. sch_step. sch_step. sch_step. sch_step.
  cbn [loc sch set_loc]. sch_step. sch_step. cbn [sch]. view_step. sch_step. sch_step. cbn [sch set_sch]. view_step.
  unfold schedule_encoder_inputs. sch_step. sch_step. sch_step. cbn [sch set_sch]. sch_step. sch_step. sch_step. sch_step. sch_step.
  eexists. cbn [sch loc set_sch set_loc]. split; [exact Hv3|]. split; [by split|].
  unfold l2. destruct Hst as [Hs | Hs]; rewrite Hs; (split; cbn; [done|by eexists|done| |by auto|done]).
  - unfold chosen. cbn. solve_Permutation.
  - unfold chosen. cbn. solve_Permutation.
Qed.

Lemma wait_inv_start s0 x cov B w r (l : list req_ref) qu kk n computed s' l' q' :
  wait_inv s0 x cov B → wlist w (sch x) = r :: l → len (running (sch x)) ≠ max_num_running_reqs (config_ (sch x)) →
  queue_ok (obj (sch x)) (policy (config_ (sch x))) qu → qlist (obj (sch x)) qu = l →
  serves kk (<[rid (sch x) r := computed + n]> cov) → 0 ≤ computed → 0 < n ≤ token_budget (loc x) →
  computed + n < max_len → computed + n ≤ num_tokens (obj (sch x) r) →
  view (sch x) s' r q' (running (sch x) ++ [r])
    (match w with InWaiting => qu | InSkipped => waiting (sch x) end)
    (match w with InWaiting => skipped_waiting (sch x) | InSkipped => qu end) kk →
  running_from (obj (sch x) r) q' computed → started (sch x) (loc x) l' r n →
  wait_inv s0 (mkRun s' l') (<[rid (sch x) r := computed + n]> cov) B ∧
  (left_to_do s' < left_to_do (sch x))%nat.
Proof.
  intros Hwi Hl Hmax Hqu Hql Hkv H0 Hn Hm Hle Hv Hrf Hstd. pose proof (wi_inv _ _ _ _ Hwi) as Hi.
  pose proof (head_not_running _ _ _ _ _ _ _ Hwi Hl) as Hnr. destruct Hrf as [Hq1 Hq2 Hq3 Hq4].
  destruct Hstd as [Hl1 [b Hl2] Hl3 Hl4 Hl5 (Hl6 & Hl7 & Hl8)].
  assert (Hkey : ∀ r', order_key (obj s' r') = order_key (obj (sch x) r')).
  { intros r'. destruct (decide (r' = r)) as [->|Hne].
    - by rewrite (vw_obj _ _ _ _ _ _ _ _ Hv).
    - by rewrite (vw_other _ _ _ _ _ _ _ _ Hv). }
  assert (Hid : ∀ r', rid s' r' = rid (sch x) r').
  { intros r'. specialize (Hkey r'). unfold order_key in Hkey. congruence. }
  assert (Hin : ∀ r', r' ∈ running (sch x) → r' ≠ r ∧ rid (sch x) r' ≠ rid (sch x) r).
  { intros r' Hr'. assert (r' ≠ r) as Hne by (intros ->; done). split; [done|]. intros He. apply Hne.
    apply wlist_elem in Hl. eapply (NoDup_rid _ _ _ r' r Hi); [..|done]; unfold all_reqs; set_solver. }
  split.
  - eapply (wait_inv_change s0 x cov _ B r s' l'); [exact Hwi|by eapply wlist_elem|exact Hv|done|..].
    + intros id Hne. by rewrite lookup_insert_ne.
    + done.
    + destruct w; [done|]. by eapply si_waiting.
    + destruct w; [|done]. by eapply si_skipped.
    + rewrite Hl8. apply Hwi.
    + rewrite Hl8. fold (aside x). unfold all_reqs. destruct w; simpl in Hl; rewrite Hl, Hql;
        fold (waiting_list (sch x)) (skipped_list (sch x)); solve_Permutation.
    + intros r' Hr' Hne. set_solver.
    + intros r' Hr'. apply elem_of_app. by left.
    + rewrite Hl8. fold (aside x). intros r' Hr' Hne. destruct w; simpl in Hl; rewrite Hl; rewrite Hql in Hr';
        fold (waiting_list (sch x)) (skipped_list (sch x)) in Hr'; set_solver.
    + intros _. destruct (head_wait _ _ _ _ _ _ _ Hwi Hl) as [_ Hpl _]. split; [done|by eapply plain_same| |lia].
      exists (computed + n). unfold order_key in Hq3. injection Hq3 as _ _ -> _. rewrite lookup_insert_eq. split; [done|lia].
    + rewrite Hl8. fold (aside x). intros Hr'. exfalso. pose proof (inv_nodup _ _ _ Hi) as Hnd. unfold all_reqs in Hnd.
      apply NoDup_app in Hnd as (_ & _ & Hnd). destruct w; simpl in Hl; rewrite Hl in Hnd; rewrite Hql in Hr';
        fold (waiting_list (sch x)) (skipped_list (sch x)) in Hr'.
      * apply NoDup_cons in Hnd as [Hnd _]. set_solver.
      * apply NoDup_app in Hnd as (_ & Hd & Hnd). apply NoDup_cons in Hnd as [Hnd _]. specialize (Hd r). set_solver.
    + pose proof (si_len _ _ _ Hi). unfold len in *. rewrite length_app. simpl. lia.
    + done.
    + done.
    + rewrite Hl4. apply NoDup_cons. split; [|apply Hwi]. intros Hc. by apply Hnr, Hwi.
    + intros r' Hr'. rewrite Hl4 in Hr'. apply elem_of_cons in Hr' as [->|Hr']; [set_solver|].
      apply (wi_sub _ _ _ _ Hwi) in Hr'. set_solver.
    + eapply tables_perm; [symmetry; exact Hl4|].
      eapply (tables_add s' _ (loc x) l' _ B r n b); rewrite ?Hid; try done.
      * eapply (tables_frame (sch x)); [by apply Hwi|done|]. intros r' Hr'%(wi_sub _ _ _ _ Hwi).
        destruct (Hin r' Hr'). split; [by apply Hv|]. by rewrite lookup_insert_ne.
      * intros r' Hr'%(wi_sub _ _ _ _ Hwi). rewrite Hid. by apply Hin.
      * rewrite lookup_insert_eq. by rewrite (vw_obj _ _ _ _ _ _ _ _ Hv), Hq2.
      * by rewrite (vw_obj _ _ _ _ _ _ _ _ Hv), Hq2.
      * rewrite (vw_obj _ _ _ _ _ _ _ _ Hv). unfold within. rewrite Hq2. injection Hq4 as Ht _ _ _ _.
        unfold num_tokens in *. rewrite Ht. lia.
    + intros r' Hr'. rewrite Hl4. by right.
    + intros _. rewrite Hl4. by left.
    + intros r' Hr'. destruct Hl5 as [He|[Hp He]]; rewrite He in Hr'; [by eapply (wi_resumed _ _ _ _ Hwi)|].
      apply elem_of_app in Hr' as [Hr'| ->%list_elem_of_singleton]; [by eapply (wi_resumed _ _ _ _ Hwi)|].
      apply (wi_prev _ _ _ _ Hwi); [|done]. apply wlist_elem in Hl. set_solver.
  - unfold left_to_do, waiting_list, skipped_list.
    rewrite !(qlist_key (obj s') (obj (sch x))) by done.
    rewrite (vw_waiting _ _ _ _ _ _ _ _ Hv), (vw_skipped _ _ _ _ _ _ _ _ Hv).
    destruct w; simpl in *; [unfold waiting_list in Hl|unfold skipped_list in Hl]; rewrite Hl, Hql; simpl; lia.
Qed.

(** ** One round, and the loop *)

Lemma untouch_text s r Q : mm_features (obj s r) = [] → Q tt s → wp (untouch_encoder r) Q s.
Proof. intros Ht HQ. unfold untouch_encoder. sch_step. sch_step. rewrite text_only by done. by sch_step. Qed.

Lemma tell_no_connector s r a b c Q : connector s = None → Q tt s → wp (tell_connector r a b c) Q s.
Proof. intros Hc HQ. unfold tell_connector. sch_step. sch_step. unfold Datatypes.id. rewrite Hc. by sch_step. Qed.

Lemma wait_inv_kv s0 x cov B w r (l : list req_ref) kk :
  wait_inv s0 x cov B → wlist w (sch x) = r :: l → serves kk cov → wait_inv s0 (mkRun (set_kv kk (sch x)) (loc x)) cov B.
Proof.
  intros Hwi Hl Hkv. pose proof (head_wait _ _ _ _ _ _ _ Hwi Hl) as Hok.
  by destruct (wait_inv_view s0 x cov B r _ _ _ Hwi (wlist_elem _ _ _ _ Hl) (view_kv _ _ _ _ _ _ _ _ kk (view_refl (sch x) r))) as [? _].
Qed.

(** Blocks for the request at the head of a queue, and its start. *)
Lemma give_blocks_ok s0 x cov B w r (l : list req_ref) b local computed n new_budget ts :
  wait_inv s0 x cov B → wlist w (sch x) = r :: l → found (sch x) cov r b local computed →
  status (obj (sch x) r) = WAITING ∨ status (obj (sch x) r) = PREEMPTED →
  0 < n ≤ token_budget (loc x) → computed + n ≤ num_tokens (obj (sch x) r) →
  len (running (sch x)) ≠ max_num_running_reqs (config_ (sch x)) →
  wp (give_blocks w r b local 0 false computed 0 0 [] n new_budget [] ts)
    (λ f x', ∃ cov', wait_inv s0 x' cov' B ∧ (f = Continue → (left_to_do (sch x') < left_to_do (sch x))%nat) ∧
       (srv_ample = true → cov = ∅ → running (sch x') ≠ [])) x.
Proof.
  intros Hwi Hl Hf Hst Hn Hle Hmax. pose proof (wi_inv _ _ _ _ Hwi) as Hi.
  destruct (head_wait _ _ _ _ _ _ _ Hwi Hl) as [_ Hpl _]. pose proof (hd_tokens _ _ _ (pl_hashed _ Hpl)) as Htok.
  assert (0 ≤ computed) as H0 by (destruct Hf as [(_ & _ & _ & _ & ?)|(c & _ & ? & _)]; lia).
  unfold give_blocks. sch_step. sch_step. sch_step. sch_step. sch_step.
  assert (Hnone : cov = ∅ → ¬ others_hold cov (obj (sch x) r)) by (intros -> (id & m & _ & Hid); by rewrite lookup_empty in Hid).
  eapply wp_mono with (λ f x', x' = x ∧ (f = false → srv_ample = true → cov = ∅ → False)).
  { destruct (scheduler_reserve_full_isl _) eqn:Hr; [|by sch_step]. sch_step.
    pose proof (fits_ok (sch x) cov (aside x) r b local computed 0 (λ f s', s' = sch x ∧ (f = false → srv_ample = true → cov = ∅ → False)) Hi Hf) as Hfit.
    rewrite Hr in Hfit. eapply wp_mono; [apply Hfit|].
    - destruct Hf as [(_ & _ & _ & <- & _)|(c & _ & _ & _ & -> & _)]; lia.
    - intros f Hno. split; [done|]. intros Hff Ha Hc. apply (Hnone Hc), Hno; [done|done|by rewrite Hc, lookup_empty].
    - intros f s' [-> Hno]. by destruct x. }
  intros [|] ? [-> Hno]; cbn [negb]; cycle 1.
  { sch_step. sch_step. apply untouch_text; [apply (pl_text _ Hpl)|]. sch_step. exists cov. split_and!; [by destruct x|done|].
    intros Ha Hc. by destruct (Hno eq_refl Ha Hc). }
  sch_step. sch_step. eapply wp_mono; [eapply allocate_waiting_ok; [exact Hi|exact Hf|apply Hpl|lia| |lia]|].
  { case_match; [lia|]. apply ps_lookahead with (1 := si_settings _ _ _ Hi). }
  intros [nb|] s1 (kk & -> & Hkk).
  - sch_step. sch_step. apply tell_no_connector; [by eapply (si_conn _ _ _ Hi)|]. sch_step. sch_step. cbn [sch set_sch].
    assert (Hq : ∀ qu, queue_ok (obj (sch x)) (policy (config_ (sch x))) qu → qlist (obj (sch x)) qu = l →
      wp (start_request w r n computed [] new_budget [] ts) (λ f x', ∃ cov', wait_inv s0 x' cov' B ∧
        (f = Continue → (left_to_do (sch x') < left_to_do (sch x))%nat) ∧ (srv_ample = true → cov = ∅ → running (sch x') ≠ []))
        (mkRun (put_queue w qu (set_kv kk (sch x))) (loc x))).
    { intros qu Hqu Hql. eapply wp_mono.
      { eapply (start_view (sch x)); [|apply ps_loras with (1 := si_settings _ _ _ Hi)|done].
        instantiate (1 := kk).
        instantiate (1 := match w with InWaiting => skipped_waiting (sch x) | InSkipped => qu end).
        instantiate (1 := match w with InWaiting => qu | InSkipped => waiting (sch x) end).
        instantiate (1 := running (sch x)).
        destruct w; [eapply view_waiting|eapply view_skipped]; eapply view_kv, view_refl. }
      intros f [s' l'] (q' & Hv & Hrf & Hs). simpl in Hv, Hs. eexists.
      destruct (wait_inv_start s0 x cov B w r l qu kk n computed s' l' q') as [Hw1 Hw2]; try done; try lia.
      split_and!; [exact Hw1|done|]. intros _ _. cbn [sch]. rewrite (vw_running _ _ _ _ _ _ _ _ Hv). by destruct (running (sch x)). }
    destruct w; simpl; sch_step.
    + eapply wp_pop; [by eapply (si_obj _ _ _ Hi)|by eapply (si_waiting _ _ _ Hi)|exact Hl|]. exact Hq.
    + eapply wp_pop; [by eapply (si_obj _ _ _ Hi)|by eapply (si_skipped _ _ _ Hi)|exact Hl|]. exact Hq.
  - sch_step. sch_step. apply untouch_text; [apply (pl_text _ Hpl)|]. sch_step. destruct Hkk as [Hkk Hoth]. exists cov. split_and!; [|done|].
    + exact (wait_inv_kv s0 x cov B w r l kk Hwi Hl Hkk).
    + intros Ha Hc. by destruct (Hnone Hc (Hoth Ha)).
Qed.

Lemma wait_config s0 x cov B : wait_inv s0 x cov B → config_ (sch x) = config_ s0.
Proof. intros Hwi. destruct (wi_fixed _ _ _ _ Hwi) as [Hf _]. unfold fixed in Hf. congruence. Qed.

Lemma kept_left x x' : kept x x' → left_to_do (sch x') = left_to_do (sch x).
Proof. intros (_ & _ & H1 & H2). unfold left_to_do. by rewrite H1, H2. Qed.

(** A step that keeps the lists leaves the request at the head of its queue, and the budgets. *)
Lemma kept_head s0 x x' cov B w r (l : list req_ref) :
  wait_inv s0 x cov B → wait_inv s0 x' cov B → kept x x' → wlist w (sch x) = r :: l → 0 < token_budget (loc x) →
  len (running (sch x)) ≠ max_num_running_reqs (config_ (sch x)) →
  wlist w (sch x') = r :: l ∧ 0 < token_budget (loc x') ∧
  len (running (sch x')) ≠ max_num_running_reqs (config_ (sch x')).
Proof.
  intros Hwi Hwi' Hk Hl Hb Hmax. rewrite (kept_wlist w _ _ Hk). destruct Hk as (-> & -> & _).
  by rewrite (wait_config _ _ _ _ Hwi'), <- (wait_config _ _ _ _ Hwi).
Qed.

(** Long prompts are computed in parts, or fit the budget. *)
Definition chunks (c : SchedulerSettings) (budget : Z) : Prop := enable_chunked_prefill c = true ∨ max_len ≤ budget.

Lemma schedule_ready_ok s0 x cov B w r (l : list req_ref) ts :
  wait_inv s0 x cov B → wlist w (sch x) = r :: l → 0 < token_budget (loc x) →
  status (obj (sch x) r) = WAITING ∨ status (obj (sch x) r) = PREEMPTED →
  len (running (sch x)) ≠ max_num_running_reqs (config_ (sch x)) →
  wp (schedule_ready_request w r ts) (λ f x', ∃ cov', wait_inv s0 x' cov' B ∧
    (f = Continue → (left_to_do (sch x') < left_to_do (sch x))%nat) ∧
    (srv_ample = true → cov = ∅ → chunks (config_ (sch x)) (token_budget (loc x)) → running (sch x') ≠ [])) x.
Proof.
  intros Hwi Hl Hb Hst Hmax. unfold schedule_ready_request. sch_step.
  eapply wp_mono; [by eapply cached_ok|]. intros ct x1 (b & local & computed & -> & Hwi1 & Hk & Hf & Hc & Hst1).
  rewrite <- Hst1 in Hst. rewrite <- (kept_left _ _ Hk).
  destruct (kept_head _ _ _ _ _ _ _ _ Hwi Hwi1 Hk Hl Hb Hmax) as (Hl1 & Hb1 & Hmax1).
  assert (config_ (sch x) = config_ (sch x1)) as -> by by rewrite (wait_config _ _ _ _ Hwi), (wait_config _ _ _ _ Hwi1).
  assert (token_budget (loc x) = token_budget (loc x1)) as -> by by destruct Hk as (-> & _).
  clear Hwi x Hst1 Hk Hl Hb Hmax. rename x1 into x. pose proof (wi_inv _ _ _ _ Hwi1) as Hi.
  destruct (head_wait _ _ _ _ _ _ _ Hwi1 Hl1) as [_ Hpl _].
  assert (0 ≤ computed) as Hc0 by (destruct Hf as [(_ & _ & _ & _ & ?)|(c & _ & ? & _)]; lia).
  sch_step. eapply wp_mono; [eapply waiting_tokens_ok; [apply (pl_text _ Hpl)|done|done]|].
  intros [[[[inputs n] nb] ext]|] x1 [-> He].
  2: { sch_step. exists cov. split_and!; [done|done|]. intros _ _ Hch. exfalso. destruct He as [He1 He2].
       pose proof (hd_tokens _ _ _ (pl_hashed _ Hpl)). destruct Hch as [Hch|Hch]; [congruence|lia]. }
  destruct He as (-> & -> & Hn & Hle).
  sch_step. sch_step. rewrite (ps_mamba _ (si_settings _ _ _ Hi)). sch_step. sch_step. cbn [andb].
  eapply wp_mono; [by eapply give_blocks_ok|]. intros f x' (cov' & H1 & H2 & H3). exists cov'. split_and!; auto.
Qed.

(** No request holds slots, and those that wait can start. *)
Definition opens x cov : Prop :=
  srv_ample = true ∧ running (sch x) = [] ∧ cov = ∅ ∧ 0 < max_num_running_reqs (config_ (sch x)) ∧
  chunks (config_ (sch x)) (token_budget (loc x)) ∧
  ∀ r, r ∈ waiting_list (sch x) ++ skipped_list (sch x) → ordinary (obj (sch x) r).

Lemma schedule_waiting_one_ok s0 x cov B ts :
  wait_inv s0 x cov B → waiting_list (sch x) ≠ [] ∨ skipped_list (sch x) ≠ [] → 0 < token_budget (loc x) →
  wp (schedule_waiting_one ts) (λ f x', ∃ cov', wait_inv s0 x' cov' B ∧
    (f = Continue → (left_to_do (sch x') < left_to_do (sch x))%nat) ∧ (opens x cov → running (sch x') ≠ [])) x.
Proof.
  intros Hwi Hne Hb. pose proof (wi_inv _ _ _ _ Hwi) as Hi. unfold schedule_waiting_one. sch_step. sch_step.
  unfold Datatypes.id. case_match eqn:Hmax.
  { sch_step. exists cov. split_and!; [done|done|]. intros (_ & Hr & _ & Hm & _). apply Z.eqb_eq in Hmax. rewrite Hr in Hmax. unfold len in Hmax. simpl in Hmax. lia. }
  apply Z.eqb_neq in Hmax.
  sch_step. sch_step. eapply select_ok; [exact Hi|done|]. intros w r l Hl.
  sch_step. eapply wp_or_raise; [done|]. sch_step. sch_step. eapply wp_on_queue_peek; [exact Hi|exact Hl|].
  sch_step. sch_step. sch_step. sch_step. assert (∀ s', s' = sch x → set_sch s' x = x) as Hx by (intros ? ->; by destruct x).
  rewrite !Hx by done. eapply wp_mono; [exact (promote_ok s0 x cov B w r l Hwi Hl)|].
  intros ready x1 (Hwi1 & Hk & Hst & Hord). rewrite <- (kept_left _ _ Hk).
  assert (Hop : opens x cov → ready = true ∧ x1 = x) by (intros (_ & _ & _ & _ & _ & Ho); apply Hord, Ho; by eapply wlist_elem).
  destruct (kept_head _ _ _ _ _ _ _ _ Hwi Hwi1 Hk Hl Hb Hmax) as (Hl1 & Hb1 & Hmax1).
  pose proof (si_settings _ _ _ (wi_inv _ _ _ _ Hwi1)) as [_ Hlora _ _ _ _].
  destruct ready; cbn [negb].
  2: { eapply wp_mono; [by eapply skip_ok|]. intros f x' [? ?]. exists cov. split_and!; [done|done|]. intros Ho. by destruct (Hop Ho). }
  sch_step. sch_step. unfold Datatypes.id.
  assert (exceeds_max_loras (sch x1) (loc x1) (obj (sch x1) r) = false) as -> by by unfold exceeds_max_loras; rewrite Hlora.
  eapply wp_mono; [by eapply schedule_ready_ok; auto|]. intros f x' (cov' & H1 & H2 & H3). exists cov'. split_and!; [done|done|].
  intros Ho. destruct (Hop Ho) as [_ ->]. destruct Ho as (? & _ & ? & _ & ? & _). by apply H3.
Qed.

Lemma waiting_loop_ok s0 B ts : ∀ fuel x cov,
  wait_inv s0 x cov B → (left_to_do (sch x) < fuel)%nat →
  wp (waiting_loop fuel ts) (λ _ x', ∃ cov', wait_inv s0 x' cov' B) x.
Proof.
  induction fuel as [|fuel IH]; intros x cov Hwi Hfuel; [lia|]. cbn [waiting_loop]. sch_step. sch_step.
  pose proof (wi_inv _ _ _ _ Hwi) as Hi. unfold Datatypes.id.
  rewrite !(queue_nonempty_ok (sch x) cov (aside x)) by (done || by eapply si_waiting || by eapply si_skipped).
  case_match eqn:Hc; [|by sch_step; exists cov].
  apply andb_true_iff in Hc as [Hne Hb%Z.ltb_lt]. apply orb_true_iff in Hne. rewrite !bool_decide_eq_true in Hne.
  sch_step. eapply wp_mono; [by eapply schedule_waiting_one_ok|]. intros [|] x' (cov' & Hwi' & Hlt & _); [|by sch_step; exists cov'].
  eapply IH; [exact Hwi'|]. specialize (Hlt eq_refl). lia.
Qed.
End Wait.
