(* ===== verification/SchedStep.v ===== *)
(** * A step of the scheduler

    [Scheduler.schedule] as a whole: the two loops, the checks at the end, the output for
    the workers and the bookkeeping after it.  A step raises nothing, loses no request,
    keeps to the token budget, and every token it schedules has its slot. *)

From S2P Require Import Prelude Stable FreeQueue Request BlockHash BlockPool KVSpec CacheHit SingleType Coordinator KVManager KVService Heap RequestQueue SchedUtils EncoderCache SpecControl SchedOutput SchedState EncoderSched Schedule SchedFrame SchedInv SchedRun SchedWait.

#[local] Open Scope Z_scope.
#[local] Set Default Proof Using "Type*".

Lemma bind_ok_run {St A B} (m : M St A) (f : A → M St B) s a s' : m s = (Ok a, s') → (m ≫= f) s = f a s'.
Proof. unfold mbind, M_bind. by intros ->. Qed.

Section Step.
Context {E : Env} {SE : SchedEnv} {max_len hash_bs : Z} {KS : KVService max_len hash_bs}.
Implicit Types (s : Scheduler) (cov : gmap string Z) (r v : req_ref) (q : Request) (l : Step) (x : Run) (B : Z * Z).
Abbreviation rid s r := (request_id (obj s r)).
Abbreviation computed s r := (num_computed_tokens (obj s r)).
Abbreviation inv := (@inv E SE max_len hash_bs KS).
Abbreviation tables := (@tables SE max_len).
Abbreviation run_inv := (@run_inv E SE max_len hash_bs KS).
Abbreviation wait_inv := (@wait_inv E SE max_len hash_bs KS).

(** When both loops are done. *)
Record step_inv s0 x cov B : Prop := {
  sp_inv : inv (sch x) cov [];
  sp_all : all_reqs (sch x) [] ≡ₚ all_reqs s0 [];
  sp_fixed : fixed (sch x) = fixed s0 ∧ flags (sch x) = flags s0;
  sp_nodup : NoDup (chosen (loc x));
  sp_sub r : r ∈ chosen (loc x) → r ∈ running (sch x);
  sp_tables : tables (sch x) cov (loc x) (chosen (loc x)) B;
  sp_resumed r : r ∈ scheduled_resumed_reqs (loc x) → rid (sch x) r ∉ prev_step_scheduled_req_ids (sch x);
  sp_ready r : r ∈ running (sch x) → r ∉ chosen (loc x) →
    computed (sch x) r ≤ num_tokens (obj (sch x) r) + num_output_placeholders (obj (sch x) r);
  sp_keep r : r ∈ running (sch x) → r ∈ running s0 → computed (sch x) r = computed s0 r;
  sp_old r : r ∈ running (sch x) → r ∉ chosen (loc x) → r ∈ running s0
}.

Lemma chosen_running l : scheduled_new_reqs l = [] → scheduled_resumed_reqs l = [] → chosen l = scheduled_running_reqs l.
Proof. intros H1 H2. unfold chosen. by rewrite H1, H2, !app_nil_r. Qed.

Lemma run_inv_parts s0 x cov B :
  run_inv s0 x cov B → scheduled_new_reqs (loc x) = [] ∧ scheduled_resumed_reqs (loc x) = [] ∧
  scheduled_encoder_inputs (loc x) = [] ∧ step_skipped_waiting (loc x) = create_request_queue (policy (config_ (sch x))).
Proof.
  intros Hri. pose proof (ri_rest _ _ _ _ Hri) as Hr. destruct (ri_fixed _ _ _ _ Hri) as [Hf _].
  unfold waiting_part, fixed in *. injection Hr as -> -> -> ->. injection Hf as -> _ _ _ _. done.
Qed.

(** No request waited: preemption, or the scheduler is paused. *)
Lemma step_of_run s0 x cov B : run_inv s0 x cov B → step_inv s0 x cov B.
Proof.
  intros Hri. destruct (run_inv_parts _ _ _ _ Hri) as (H1 & H2 & _). pose proof (chosen_running _ H1 H2) as Hc.
  split; rewrite ?Hc; try by apply Hri.
  - intros r Hr. by eapply sched_in_running.
  - rewrite H2. by intros r ?%elem_of_nil.
  - intros r Hr _. by apply (ri_old _ _ _ _ Hri).
  - intros r Hr _. by apply (ri_old _ _ _ _ Hri).
Qed.

Lemma wait_of_run s0 x cov B : run_inv s0 x cov B → preempted_reqs (loc x) = [] → wait_inv s0 x cov B.
Proof.
  intros Hri Hp. destruct (run_inv_parts _ _ _ _ Hri) as (H1 & H2 & H3 & H4).
  pose proof (chosen_running _ H1 H2) as Hc.
  destruct (create_queue_ok (obj (sch x)) (policy (config_ (sch x)))) as [Hq Hl].
  assert (aside x = []) as Ha by (unfold aside; by rewrite H4).
  split; rewrite ?Hc, ?Ha; try by apply Hri.
  - by rewrite H4.
  - intros r Hr. by eapply sched_in_running.
  - done.
  - rewrite app_nil_r. by eapply ri_prev.
  - rewrite H2. by intros r ?%elem_of_nil.
  - intros r Hr. pose proof (ri_stay _ _ _ _ Hri r Hp Hr) as Hin. split; [done|]. by apply (ri_old _ _ _ _ Hri).
  - intros r Hr _. by apply (ri_old _ _ _ _ Hri).
Qed.

(** The requests that were put aside wait again. *)
Lemma put_back_ok s0 x cov B :
  wait_inv s0 x cov B →
  wp (x ← gets Datatypes.id;
      if queue_nonempty (sch x) (step_skipped_waiting (loc x)) then
        on_sch (on_skipped (λ ops, prepend_requests (queue_list (sch x) (step_skipped_waiting (loc x)))))
      else mret tt) (λ _ x', ∃ cov', step_inv s0 x' cov' B) x.
Proof.
  intros Hwi. sch_step. sch_step. unfold Datatypes.id.
  pose proof (wi_inv _ _ _ _ Hwi) as Hi.
  rewrite (queue_nonempty_ok (sch x) cov (aside x)) by (done || apply Hwi). fold (aside x).
  case_bool_decide as Hne.
  - sch_step. sch_step. eapply wp_prepends; [by eapply si_obj|by eapply si_skipped|]. intros k Hk Hkl. exists cov.
    set (s' := set_skipped_waiting k (sch x)).
    assert (skipped_list s' ≡ₚ aside x ++ skipped_list (sch x)) as Hsk by exact Hkl.
    assert (Hall : all_reqs s' [] ≡ₚ all_reqs (sch x) (aside x)).
    { unfold all_reqs. change (waiting_list s') with (waiting_list (sch x)). change (running s') with (running (sch x)).
      rewrite Hsk. solve_Permutation. }
    change (set_sch s' x) with (mkRun s' (loc x)). split; cbn [sch loc]; try by apply Hwi.
    + destruct Hi as [H1 H2 H3 H4 H5 H6 H7 H8 HD HC H9 H10 H11 H12]. split; try done.
      * by rewrite Hall.
      * intros r Hr. apply H8. by rewrite <- Hall.
      * intros id r Hr. rewrite Hall. by apply (HD id).
      * intros id n Hn. destruct (HC id n Hn) as (r & ? & ?). exists r. by rewrite Hall.
      * intros r Hr. apply H10. rewrite Hsk in Hr. change (waiting_list s') with (waiting_list (sch x)) in Hr. set_solver.
    + etrans; [exact Hall|]. apply Hwi.
    + eapply (tables_frame (sch x)); [by apply (wi_tables _ _ _ _ Hwi)|done|done].
    + intros r _ Hr. by apply (wi_keep _ _ _ _ Hwi).
  - sch_step. exists cov. assert (aside x = []) as Ha by (destruct (aside x); [done|by destruct Hne]).
    destruct Hwi as [W1 W2 W3 W4 W5 W6 W7 W8 W9 W10 W11 W12 W13]. rewrite Ha in W1, W2. split; try done.
    intros r _ Hr. by apply W12.
Qed.

Lemma schedule_waiting_ok s0 x cov B ts :
  run_inv s0 x cov B → wp (schedule_waiting ts) (λ _ x', ∃ cov', step_inv s0 x' cov' B) x.
Proof.
  intros Hri. unfold schedule_waiting. sch_step. sch_step. unfold Datatypes.id.
  case_match eqn:Hc; [|sch_step; exists cov; by apply step_of_run].
  apply andb_true_iff in Hc as [Hp%bool_decide_eq_true _]. sch_step.
  pose proof (wait_of_run _ _ _ _ Hri Hp) as Hwi. pose proof (wi_inv _ _ _ _ Hwi) as Hi.
  eapply wp_mono; [eapply waiting_loop_ok; [exact Hwi|]|].
  { unfold queue_size, left_to_do.
    rewrite !(queue_len_ok (obj (sch x)) (si_obj _ _ _ Hi) (policy (config_ (sch x)))) by (by eapply si_waiting || by eapply si_skipped).
    unfold waiting_list, skipped_list, len. lia. }
  intros [] x' (cov' & Hwi'). by eapply put_back_ok.
Qed.

(** ** The checks *)

Lemma chosen_length l :
  len (scheduled_new_reqs l) + len (scheduled_resumed_reqs l) + len (scheduled_running_reqs l) = len (chosen l).
Proof. unfold len, chosen. rewrite !length_app. lia. Qed.

Lemma check_constraints_ok s0 x cov B Q :
  step_inv s0 x cov B → B.1 ≤ max_num_scheduled_tokens (config_ (sch x)) →
  Q (sumZ (num_scheduled_tokens (loc x)).*2) x → wp check_constraints Q x.
Proof.
  intros Hsp HB HQ. pose proof (tb_sum _ _ _ _ _ (sp_tables _ _ _ _ Hsp)). pose proof (tb_pos _ _ _ _ _ (sp_tables _ _ _ _ Hsp)).
  unfold check_constraints. sch_step. sch_step. unfold Datatypes.id.
  sch_step. apply wp_assert; [apply Z.leb_le; lia|]. sch_step. apply wp_assert; [by apply Z.leb_le|].
  sch_step. apply wp_assert; [apply Z.leb_le; by eapply si_len, Hsp|]. sch_step. apply wp_assert; [|by sch_step].
  apply Z.leb_le. rewrite chosen_length. unfold len.
  pose proof (submseteq_length _ _ (NoDup_submseteq _ _ (sp_nodup _ _ _ _ Hsp) (sp_sub _ _ _ _ Hsp))). lia.
Qed.

(** ** The output *)

(** The tables of the step have entries for the requests of [L]. *)
Definition described x (L : list req_ref) : Prop :=
  ∀ r, r ∈ L → is_Some (od_get (rid (sch x) r) (num_scheduled_tokens (loc x))) ∧
               is_Some (od_get (rid (sch x) r) (req_to_new_blocks (loc x))).

Lemma new_data_ok x (L : list req_ref) :
  described x L → wp (collect L new_request_one) (λ d x', x' = x ∧ nr_req_id <$> d = (λ r, rid (sch x) r) <$> L) x.
Proof.
  induction L as [|r L IH]; intros Hd; cbn [collect]; [by sch_step|].
  destruct (Hd r) as [_ [b Hb]]; [by left|]. sch_step. unfold new_request_one at 1. sch_step. sch_step. unfold Datatypes.id.
  sch_step. eapply wp_or_raise; [exact Hb|]. sch_step. sch_step.
  eapply wp_mono; [apply IH; intros r' Hr'; apply Hd; by right|]. intros d x' [-> Hl]. sch_step. split; [done|].
  rewrite !fmap_cons, Hl. done.
Qed.

Lemma cached_data_ok x (resumed : bool) (L : list req_ref) : ∀ d,
  described x L → (resumed = true → ∀ r, r ∈ L → rid (sch x) r ∉ prev_step_scheduled_req_ids (sch x)) →
  wp (cached_request_loop resumed L d) (λ d' x', x' = x ∧
    cr_req_ids d' = cr_req_ids d ++ ((λ r, rid (sch x) r) <$> L)) x.
Proof.
  induction L as [|r L IH]; intros d Hd Hprev; cbn [cached_request_loop]; [sch_step; by rewrite app_nil_r|].
  destruct (Hd r) as [[n Hn] [b Hb]]; [by left|]. sch_step. unfold cached_request_one at 1. sch_step. sch_step.
  unfold Datatypes.id. sch_step. eapply wp_mono with (λ _ x', x' = x).
  { case_match; [|by sch_step]. sch_step. eapply wp_or_raise; [exact Hn|]. by sch_step. }
  intros tokens ? ->. sch_step. eapply wp_mono with (λ _ x', x' = x).
  { destruct resumed; [|by sch_step]. apply wp_assert; [|done]. rewrite bool_decide_false; [done|]. apply Hprev; [done|by left]. }
  intros [] ? ->. sch_step. eapply wp_or_raise; [exact Hb|]. sch_step.
  eapply wp_mono; [apply IH; [|intros Hr r' Hr'; apply Hprev; [done|by right]]|].
  { intros r' Hr'. apply Hd. by right. }
  intros d' x' [-> ->]. split; [done|]. simpl. by rewrite <- app_assoc.
Qed.

(** What the output tells the workers. *)
Record output_of s l (total : Z) (o : SchedulerOutput ConnMeta) : Prop := {
  oo_tokens : out_num_scheduled_tokens o = num_scheduled_tokens l;
  oo_total : out_total_num_scheduled_tokens o = total;
  oo_ids : (nr_req_id <$> out_scheduled_new_reqs o) ++ cr_req_ids (out_scheduled_cached_reqs o) ≡ₚ
           (num_scheduled_tokens l).*1;
  oo_spec : out_scheduled_spec_decode_tokens o = scheduled_spec_decode_tokens l
}.

Lemma step_described s0 x cov B : step_inv s0 x cov B → described x (chosen (loc x)).
Proof.
  intros Hsp r Hr. destruct (sp_tables _ _ _ _ Hsp) as [_ _ H3 H4 _].
  split; apply od_get_is_Some; [rewrite H3|rewrite H4]; apply list_elem_of_fmap; by exists r.
Qed.

Lemma freed_hashes_ok s Q : (∀ a e, Q a (set_enc e s)) → wp enc_get_freed_mm_hashes Q s.
Proof. intros HQ. unfold enc_get_freed_mm_hashes, on_enc, wp. destruct (enc s); simpl; apply HQ. Qed.

Lemma build_output_ok s0 x cov B k total :
  step_inv s0 x cov B →
  wp (build_output k total) (λ o x', output_of (sch x) (loc x) total o ∧
    num_scheduled_tokens (loc x') = num_scheduled_tokens (loc x) ∧
    ∃ e, sch x' = set_enc e (set_prev_step_scheduled_req_ids (list_to_set (num_scheduled_tokens (loc x)).*1) (sch x))) x.
Proof.
  intros Hsp. pose proof (sp_inv _ _ _ _ Hsp) as Hi. unfold build_output. sch_step. sch_step. unfold Datatypes.id. sch_step.
  eapply wp_mono with (λ _ x', x' = x).
  { destruct (running (sch x)) as [|r R] eqn:HR; [by sch_step|]. sch_step. sch_step.
    destruct (si_run _ _ _ Hi r) as [_ _ (c & Hc & _) _]; [rewrite HR; by left|].
    eapply wp_mono; [by eapply srv_common_prefix; [eapply si_kv|exact Hc]|]. intros a kk ->. by destruct x as [[] ?]. }
  intros common ? ->. sch_step.
  set (l2 := if use_v2_model_runner (config_ (sch x)) then
    set_scheduled_resumed_reqs [] (set_scheduled_new_reqs (scheduled_new_reqs (loc x) ++ scheduled_resumed_reqs (loc x)) (loc x))
    else loc x).
  eapply wp_mono with (λ _ x', x' = mkRun (sch x) l2).
  { unfold l2. case_match; sch_step; [done|by destruct x]. }
  intros [] ? ->.
  assert (num_scheduled_tokens l2 = num_scheduled_tokens (loc x) ∧ req_to_new_blocks l2 = req_to_new_blocks (loc x)) as [Hl1 Hl2].
  { unfold l2. by case_match. }
  assert (scheduled_new_reqs l2 ++ scheduled_running_reqs l2 ++ scheduled_resumed_reqs l2 ≡ₚ chosen (loc x)) as Hch.
  { unfold l2, chosen. case_match; simpl; solve_Permutation. }
  assert (Hres : ∀ r, r ∈ scheduled_resumed_reqs l2 → rid (sch x) r ∉ prev_step_scheduled_req_ids (sch x)).
  { intros r Hr. apply (sp_resumed _ _ _ _ Hsp). unfold l2 in Hr. case_match; [by apply elem_of_nil in Hr|done]. }
  assert (Hdesc : ∀ L, (∀ r, r ∈ L → r ∈ chosen (loc x)) → described (mkRun (sch x) l2) L).
  { intros L HL r Hr. cbn [sch loc]. rewrite Hl1, Hl2. by apply (step_described _ _ _ _ Hsp), HL. }
  sch_step. sch_step. cbn [loc]. sch_step.
  eapply wp_mono; [apply new_data_ok, Hdesc; intros r Hr; rewrite <- Hch; set_solver|]. intros news ? [-> Hnews].
  unfold _make_cached_request_data. sch_step. sch_step.
  eapply wp_mono; [apply cached_data_ok; [apply Hdesc; intros r Hr; rewrite <- Hch; set_solver|done]|].
  intros d1 ? [-> Hd1].
  eapply wp_mono; [apply cached_data_ok; [apply Hdesc; intros r Hr; rewrite <- Hch; set_solver|by intros _]|].
  intros d2 ? [-> Hd2]. sch_step. sch_step. sch_step. rewrite (ps_zero _ (si_settings _ _ _ Hi)). sch_step. sch_step.
  sch_step. sch_step. apply freed_hashes_ok. intros hashes e. sch_step. sch_step. sch_step. cbn [sch set_sch loc].
  split; [|by rewrite Hl1; split; [done|eexists]]. split; simpl; [done|done| |unfold l2; by case_match].
  rewrite (tb_keys _ _ _ _ _ (sp_tables _ _ _ _ Hsp)), <- Hch, Hnews, Hd2, Hd1. simpl. by rewrite !fmap_app.
Qed.

(** ** After the step *)

(** A running request changes. *)
Lemma inv_run_view s s' cov r q' :
  inv s cov [] → r ∈ running s → view s s' r q' (running s) (waiting s) (skipped_waiting s) (kv s) →
  order_key q' = order_key (obj s r) → @run_ok max_len hash_bs cov q' →
  inv s' cov [] ∧ waiting_list s' = waiting_list s ∧ skipped_list s' = skipped_list s.
Proof.
  intros Hi Hr Hv Hkq Hok.
  assert (Hkey : ∀ r', order_key (obj s' r') = order_key (obj s r')).
  { intros r'. destruct (decide (r' = r)) as [->|Hne].
    - by rewrite (vw_obj _ _ _ _ _ _ _ _ Hv).
    - by rewrite (vw_other _ _ _ _ _ _ _ _ Hv). }
  assert (waiting_list s' = waiting_list s) as Hwl.
  { unfold waiting_list. rewrite (vw_waiting _ _ _ _ _ _ _ _ Hv). by apply qlist_key. }
  assert (skipped_list s' = skipped_list s) as Hsl.
  { unfold skipped_list. rewrite (vw_skipped _ _ _ _ _ _ _ _ Hv). by apply qlist_key. }
  pose proof (vw_running _ _ _ _ _ _ _ _ Hv) as Hrun. pose proof (vw_fixed _ _ _ _ _ _ _ _ Hv) as Hf.
  assert (config_ s' = config_ s) as Hcfg by (unfold fixed in Hf; congruence).
  split; [|done]. eapply (inv_change s s' cov cov [] [] r); try done; rewrite ?Hwl, ?Hsl, ?Hrun, ?Hcfg.
  - by eapply run_elem.
  - apply Hv.
  - rewrite (vw_kv _ _ _ _ _ _ _ _ Hv). by eapply si_kv.
  - rewrite (vw_waiting _ _ _ _ _ _ _ _ Hv). eapply queue_ok_key; [|by eapply si_waiting]. done.
  - rewrite (vw_skipped _ _ _ _ _ _ _ _ Hv). eapply queue_ok_key; [|by eapply si_skipped]. done.
  - unfold all_reqs. by rewrite Hrun, Hwl, Hsl.
  - done.
  - done.
  - by rewrite (vw_obj _ _ _ _ _ _ _ _ Hv).
  - intros Hin. pose proof (inv_nodup _ _ _ Hi) as Hnd. apply NoDup_app in Hnd as (_ & Hd & _). by apply Hd in Hr.
  - by eapply si_len.
Qed.

(** The requests of [d] have advanced by their tokens; nothing else has changed that
    matters here. *)
Record advanced s s' (d : list (string * Z)) : Prop := {
  ad_fixed : fixed s' = fixed s ∧ flags s' = flags s;
  ad_lists : running s' = running s ∧ waiting_list s' = waiting_list s ∧ skipped_list s' = skipped_list s;
  ad_id r : rid s' r = rid s r;
  ad_tokens r : _all_token_ids (obj s' r) = _all_token_ids (obj s r);
  ad_flight r : num_output_placeholders (obj s r) ≤ num_output_placeholders (obj s' r);
  ad_computed r : r ∈ running s → computed s' r = computed s r + default 0 (od_get (rid s r) d)
}.

Lemma advanced_trans s1 s2 s3 d1 d2 d3 :
  advanced s1 s2 d1 → advanced s2 s3 d2 →
  (∀ id, default 0 (od_get id d3) = default 0 (od_get id d1) + default 0 (od_get id d2)) → advanced s1 s3 d3.
Proof.
  intros [[F1 P1] (R1 & W1 & K1) I1 T1 G1 C1] [[F2 P2] (R2 & W2 & K2) I2 T2 G2 C2] Hd. split; [split; congruence|split_and!; congruence|..].
  - intros r. by rewrite I2.
  - intros r. by rewrite T2.
  - intros r. specialize (G1 r). specialize (G2 r). lia.
  - intros r Hr. rewrite C2, C1, I1, Hd by congruence. lia.
Qed.

Lemma advanced_view s s' cov r q' (n : Z) :
  inv s cov [] → r ∈ running s → view s s' r q' (running s) (waiting s) (skipped_waiting s) (kv s) →
  order_key q' = order_key (obj s r) → status q' = status (obj s r) →
  (_all_token_ids q', block_hashes q', mm_features q', num_prompt_tokens q', prefill_stats q') =
  (_all_token_ids (obj s r), block_hashes (obj s r), mm_features (obj s r), num_prompt_tokens (obj s r), prefill_stats (obj s r)) →
  num_output_placeholders (obj s r) ≤ num_output_placeholders q' →
  num_computed_tokens q' = computed s r + n → 0 ≤ n → computed s r + n < max_len →
  (∃ c, cov !! rid s r = Some c ∧ computed s r + n ≤ c) →
  inv s' cov [] ∧ advanced s s' [(rid s r, n)].
Proof.
  intros Hi Hr Hv Hk Hst Hsame Hfl Hc Hn Hm (c & Hcov & Hle).
  destruct (si_run _ _ _ Hi r Hr) as [R1 R2 (c' & R3 & R4) R5].
  destruct (inv_run_view s s' cov r q' Hi Hr Hv Hk) as (Hi' & Hw & Hs).
  { split; [congruence|by eapply plain_same| |lia]. exists c. unfold order_key in Hk. injection Hk as _ _ -> _.
    split; [done|]. lia. }
  assert (Hcase : ∀ r', obj s' r' = obj s r' ∨ (r' = r ∧ obj s' r = q')).
  { intros r'. destruct (decide (r' = r)) as [->|Hne]; [right|left]; by destruct Hv; auto. }
  split; [exact Hi'|]. split; [split; apply Hv|split_and!; [apply Hv|done|done]|..].
  - intros r'. destruct (Hcase r') as [-> |[-> ->]]; [done|]. unfold order_key in Hk. congruence.
  - intros r'. destruct (Hcase r') as [-> |[-> ->]]; [done|]. congruence.
  - intros r'. by destruct (Hcase r') as [-> |[-> ->]].
  - intros r' Hr'. simpl. destruct (decide (r' = r)) as [->|Hne].
    + rewrite (vw_obj _ _ _ _ _ _ _ _ Hv), decide_True by done. simpl. lia.
    + rewrite (vw_other _ _ _ _ _ _ _ _ Hv) by done. rewrite decide_False; [simpl; lia|]. intros He. apply Hne.
      eapply (NoDup_rid _ _ _ r' r Hi); [by eapply run_elem..|done].
Qed.

Lemma wp_requests_at s id r Q : requests_get s id = Some r → Q r s → wp (requests_at id) Q s.
Proof. intros Hr HQ. unfold requests_at. sch_step. sch_step. by eapply wp_or_raise. Qed.

(** The requests the list [d] names run, and have slots for their tokens. *)
Definition to_advance s cov (d : list (string * Z)) : Prop :=
  ∀ id n, (id, n) ∈ d → ∃ r, r ∈ running s ∧ rid s r = id ∧ 0 ≤ n ∧ computed s r + n < max_len ∧
    ∃ c, cov !! id = Some c ∧ computed s r + n ≤ c.

Lemma to_advance_step s s' cov r n (d : list (string * Z)) :
  advanced s s' [(rid s r, n)] → rid s r ∉ d.*1 → to_advance s cov d → to_advance s' cov d.
Proof.
  intros [_ (Hrun & _ & _) Hid _ _ Hc] Hnot Hd id m Hin. destruct (Hd id m Hin) as (r' & Hr' & He & H0 & Hm & Hcov).
  exists r'. rewrite Hrun, Hid, (Hc r' Hr'). simpl. rewrite decide_False; [simpl; by rewrite Z.add_0_r|].
  intros Heq. apply Hnot. rewrite <- Heq, He. apply list_elem_of_fmap. by exists (id, m).
Qed.

Lemma od_get_split id n (d : list (string * Z)) id' :
  id ∉ d.*1 → default 0 (od_get id' ((id, n) :: d)) = default 0 (od_get id' [(id, n)]) + default 0 (od_get id' d).
Proof.
  intros Hid. simpl. case_decide as He; [|done]. subst id'. simpl.
  destruct (od_get id d) as [m|] eqn:Hd; simpl; [|lia]. exfalso. apply Hid, od_get_is_Some. by exists m.
Qed.

Lemma after_schedule_one_ok s cov r n has :
  inv s cov [] → r ∈ running s → 0 ≤ n → computed s r + n < max_len → (∃ c, cov !! rid s r = Some c ∧ computed s r + n ≤ c) →
  wp (after_schedule_one has (rid s r) n) (λ _ s', inv s' cov [] ∧ advanced s s' [(rid s r, n)]) s.
Proof.
  intros Hi Hr Hn Hm Hc. unfold after_schedule_one. sch_step.
  eapply wp_requests_at; [by eapply si_reg; [exact Hi|eapply run_elem]|]. pose proof (view_refl s r) as Hv.
  sch_step. view_step. sch_step. view_step. sch_step. view_step. sch_step.
  by eapply advanced_view; [exact Hi|exact Hr|exact Hv|..].
Qed.

Lemma after_schedule_ok cov : ∀ (d : list (string * Z)) s has,
  inv s cov [] → NoDup d.*1 → to_advance s cov d →
  wp (after_schedule_loop d has) (λ _ s', inv s' cov [] ∧ advanced s s' d) s.
Proof.
  induction d as [|[id n] d IH]; intros s has Hi Hnd Hd; cbn [after_schedule_loop].
  - sch_step. split; [done|]. split; try done. intros r _. simpl. lia.
  - apply NoDup_cons in Hnd as [Hnot Hnd]. destruct (Hd id n) as (r & Hr & <- & Hn & Hm & Hc); [by left|].
    sch_step. eapply wp_mono; [by apply after_schedule_one_ok|]. intros has' s' [Hi' Ha].
    eapply wp_mono; [apply IH; [done|done|]|].
    + eapply to_advance_step; [exact Ha|done|]. intros id m Hin. apply Hd. by right.
    + intros b s2 [Hi2 Ha2]. split; [done|]. eapply advanced_trans; [exact Ha|exact Ha2|]. intros id. by apply od_get_split.
Qed.

(** The asynchronous scheduler counts the tokens in flight. *)
Lemma async_after_ok cov spec : ∀ (d : list (string * Z)) s pending,
  inv s cov [] → (∀ id n, (id, n) ∈ d → ∃ r, r ∈ running s ∧ rid s r = id) →
  wp (async_after_schedule_loop spec d pending) (λ _ s', inv s' cov [] ∧ advanced s s' []) s.
Proof.
  assert (Hrefl : ∀ s, advanced s s []).
  { intros s. split; try done. intros r _. simpl. lia. }
  induction d as [|[id n] d IH]; intros s pending Hi Hd; cbn [async_after_schedule_loop]; [by sch_step|].
  destruct (Hd id n) as (r & Hr & <-); [by left|]. sch_step. unfold async_after_schedule_one. sch_step.
  eapply wp_requests_at; [by eapply si_reg; [exact Hi|eapply run_elem]|]. sch_step. sch_step.
  case_match; [sch_step; eapply IH; [done|]; intros id m Hin; apply (Hd id m); by right|].
  pose proof (view_refl s r) as Hv. sch_step. sch_step. sch_step. view_step. sch_step. unfold share_spec. sch_step. sch_step.
  match goal with |- wp _ _ (set_spec_alias ?a _) => apply (view_alias _ _ _ _ _ _ _ _ a) in Hv end.
  destruct (si_run _ _ _ Hi r Hr) as [R1 R2 (c & R3 & R4) R5].
  match type of Hv with view _ ?s' _ ?q' _ _ _ _ => set (s1 := s') in *; set (q1 := q') in * end.
  assert (inv s1 cov [] ∧ advanced s s1 []) as [Hi' Ha].
  { destruct (advanced_view s s1 cov r q1 0 Hi Hr Hv) as [? Ha]; try done; try (simpl; lia).
    { unfold q1. simpl. case_match; [pose proof (len_nonneg (spec_tokens s s0))|]; lia. }
    { exists c. split; [done|lia]. }
    split; [done|]. eapply advanced_trans; [exact (Hrefl s)|exact Ha|]. intros id. simpl. by case_decide. }
  clearbody s1 q1.
  eapply wp_mono; [eapply IH; [exact Hi'|]|].
  - intros id m Hin. destruct (Hd id m) as (r' & Hr' & <-); [by right|]. exists r'.
    destruct Ha as [_ (-> & _) -> _ _ _]. done.
  - intros b s2 [? Ha2]. split; [done|]. by eapply advanced_trans; [exact Ha|exact Ha2|].
Qed.

Lemma inv_marks s cov P e p f :
  inv s cov P → inv (set_finished_req_ids f (set_enc e (set_prev_step_scheduled_req_ids p s))) cov P.
Proof. intros []. by split. Qed.

Lemma no_connector_meta s cov P o Q : inv s cov P → Q o s → wp (add_connector_meta o) Q s.
Proof.
  intros Hi HQ. unfold add_connector_meta. sch_step. sch_step. rewrite (si_conn _ _ _ Hi). sch_step. sch_step. sch_step. sch_step.
  rewrite (si_ec _ _ _ Hi). by sch_step.
Qed.

(** The flags of the output aside, [_update_after_schedule] advances the requests. *)
Lemma update_after_ok s cov o :
  inv s cov [] → NoDup (out_num_scheduled_tokens o).*1 → to_advance s cov (out_num_scheduled_tokens o) →
  wp (_update_after_schedule o) (λ o' s', inv s' cov [] ∧ advanced s s' (out_num_scheduled_tokens o) ∧
    (is_async_scheduler (config_ s) = false → finished_req_ids s' = ∅) ∧
    ∃ has pending, o' = set_out_flags has pending o) s.
Proof.
  intros Hi Hnd Hd. unfold _update_after_schedule. sch_step.
  eapply wp_mono; [by apply (after_schedule_ok cov)|]. intros has s1 [Hi1 Ha1]. sch_step. sch_step. sch_step. sch_step. sch_step.
  set (s2 := set_finished_req_ids ∅ s1). assert (inv s2 cov []) as Hi2 by (destruct Hi1; by split).
  assert (advanced s s2 (out_num_scheduled_tokens o)) as Ha2 by (destruct Ha1; by split).
  assert (config_ s2 = config_ s) as Hc2 by (destruct Ha2 as [[F _] _ _ _ _ _]; unfold fixed in F; congruence).
  eapply wp_mono with (λ _ s', inv s' cov [] ∧ advanced s2 s' [] ∧ (is_async_scheduler (config_ s) = false → finished_req_ids s' = ∅)).
  - rewrite Hc2. case_match; [|sch_step; split; [done|]; split; [|done]; split; try done; intros r _; simpl; lia].
    eapply wp_mono; [apply (async_after_ok cov); [done|]|by intros ?? [? ?]]. intros id n Hin. destruct (Hd id n Hin) as (r & Hr & Hid & _). exists r.
    destruct Ha2 as [_ (-> & _) -> _ _ _]. done.
  - intros pending s3 (Hi3 & Ha3 & Hfin). sch_step. split; [done|]. split; [|split; [done|by eexists _, _]].
    eapply advanced_trans; [exact Ha2|exact Ha3|]. intros id. simpl. lia.
Qed.

(** ** The step *)

Context (set_iter_perm : ∀ l : list Z, NoDup l → set_iter l ≡ₚ l).

Lemma iter_nil : set_iter [] = [].
Proof. apply Permutation_nil_r, set_iter_perm, NoDup_nil_2. Qed.

Definition ready s : Prop :=
  ∀ r, r ∈ running s → computed s r ≤ num_tokens (obj s r) + num_output_placeholders (obj s r).

Definition step_budget s : Z := if decide (_pause_state s = PAUSED_ALL) then 0 else max_num_scheduled_tokens (config_ s).
Definition first_step s : Step :=
  mkStep [] [] [] [] [] [] (step_budget s) [] (max_num_encoder_input_tokens (config_ s)) [] 0 ∅
    (create_request_queue (policy (config_ s))).

Definition step_limits s : Z * Z := (step_budget s, num_spec_tokens (config_ s)).

Lemma start_run_inv s cov :
  inv s cov [] → prev_ok s → ready s → run_inv s (mkRun s (first_step s)) cov (step_limits s).
Proof.
  intros Hi Hp Hr. assert (0 ≤ step_budget s) as HB.
  { pose proof (ps_budget _ (si_settings _ _ _ Hi)). unfold step_budget. case_decide; lia. }
  assert (Hnil : ∀ (A : Type) (y : A), y ∉ []) by (intros A y; by intros ?%elem_of_nil).
  split; simpl; try done; try (by intros r ?%Hnil).
  - apply NoDup_nil_2.
  - split; simpl; try done. by intros r ?%Hnil.
  - intros r Hin _. by apply Hr.
Qed.

Lemma step_to_advance s0 x cov B :
  step_inv s0 x cov B → NoDup (num_scheduled_tokens (loc x)).*1 ∧
  (∀ id n, (id, n) ∈ num_scheduled_tokens (loc x) → ∃ r, r ∈ running (sch x) ∧ rid (sch x) r = id ∧ 0 < n ∧
     computed (sch x) r + n < max_len ∧ cov !! id = Some (computed (sch x) r + n) ∧ within B.2 (obj (sch x) r) n).
Proof.
  intros Hsp. pose proof (sp_tables _ _ _ _ Hsp) as Ht.
  assert (chosen (loc x) ⊆ all_reqs (sch x) []) as Hsub.
  { intros r Hr. eapply run_elem; [by apply Hsp|]. by apply Hsp. }
  destruct (tables_nodup _ _ _ _ _ _ Ht (sp_inv _ _ _ _ Hsp) Hsub (sp_nodup _ _ _ _ Hsp)) as [Hnd _].
  split; [done|]. intros id n Hin.
  assert (id ∈ (num_scheduled_tokens (loc x)).*1) as Hid by (apply list_elem_of_fmap; by exists (id, n)).
  rewrite (tb_keys _ _ _ _ _ Ht) in Hid. apply list_elem_of_fmap in Hid as (r & -> & Hr).
  destruct (tb_slots _ _ _ _ _ Ht r Hr) as (m & Hm & H0 & Hc & Hlt & Hwi). exists r.
  assert (m = n) as ->; [|split_and!; try done; by apply Hsp].
  apply od_get_elem in Hin; [|done]. congruence.
Qed.

(** What a step leaves behind. *)
Record step_done s s' cov' (o : SchedulerOutput ConnMeta) : Prop := {
  sd_inv : inv s' cov' [];
  sd_all : all_reqs s' [] ≡ₚ all_reqs s [];
  sd_config : config_ s' = config_ s;
  sd_flags : flags s' = flags s ∧ (is_async_scheduler (config_ s) = false → finished_req_ids s' = ∅);
  sd_prev : prev_ok s';
  sd_total : out_total_num_scheduled_tokens o = sumZ (out_num_scheduled_tokens o).*2 ∧
             out_total_num_scheduled_tokens o ≤ step_budget s;
  sd_nodup : NoDup (out_num_scheduled_tokens o).*1;
  sd_ids : (nr_req_id <$> out_scheduled_new_reqs o) ++ cr_req_ids (out_scheduled_cached_reqs o) ≡ₚ
           (out_num_scheduled_tokens o).*1;
  sd_slots id n : (id, n) ∈ out_num_scheduled_tokens o → ∃ r, r ∈ running s' ∧ rid s' r = id ∧ 0 < n ∧
    cov' !! id = Some (computed s' r);
  sd_ready r : r ∈ running s' → within (num_spec_tokens (config_ s)) (obj s' r) 0;
  sd_spec : num_spec_tokens (config_ s) ≤ 0 → out_scheduled_spec_decode_tokens o = [];
  sd_keep r : r ∈ running s' → r ∈ running s →
    computed s' r = computed s r + default 0 (od_get (rid s' r) (out_num_scheduled_tokens o));
  sd_old r : r ∈ running s' → rid s' r ∉ (out_num_scheduled_tokens o).*1 → r ∈ running s
}.

Lemma finish_step_ok s0 x cov k :
  step_inv s0 x cov (step_limits s0) →
  (num_spec_tokens (config_ s0) ≤ 0 → scheduled_spec_decode_tokens (loc x) = []) →
  wp (total ← check_constraints;
      o ← build_output k total;
      o ← on_sch (add_connector_meta o);
      on_sch (_update_after_schedule o)) (λ o x', step_done s0 (sch x') cov o ∧
        out_num_scheduled_tokens o = num_scheduled_tokens (loc x) ∧ running (sch x') = running (sch x) ∧
        ∀ r, rid (sch x') r = rid (sch x) r) x.
Proof.
  intros Hsp Hno. pose proof (sp_inv _ _ _ _ Hsp) as Hi. destruct (step_to_advance _ _ _ _ Hsp) as [Hnd Hadv].
  destruct (sp_fixed _ _ _ _ Hsp) as [Hf _].
  assert (config_ (sch x) = config_ s0) as Hcfg by (unfold fixed in Hf; congruence).
  pose proof (tb_sum _ _ _ _ _ (sp_tables _ _ _ _ Hsp)) as Hsum. pose proof (tb_pos _ _ _ _ _ (sp_tables _ _ _ _ Hsp)) as Hpos.
  cbn [fst step_limits] in Hsum. sch_step. eapply check_constraints_ok; [exact Hsp| |].
  { rewrite Hcfg. pose proof (ps_budget _ (si_settings _ _ _ Hi)) as H0. rewrite Hcfg in H0. unfold step_limits, step_budget. simpl. case_decide; lia. }
  sch_step. eapply wp_mono; [by eapply build_output_ok|]. intros o x1 ([Ho1 Ho2 Ho3 Ho4] & Hl1 & e & Hx1). sch_step. sch_step. rewrite Hx1.
  set (s1 := set_enc e _). assert (inv s1 cov []) as Hi1 by (destruct Hi; by split).
  eapply no_connector_meta; [exact Hi1|]. sch_step. cbn [sch set_sch].
  eapply wp_mono; [eapply update_after_ok; [exact Hi1|by rewrite Ho1|]|].
  { rewrite Ho1. intros id n Hin. destruct (Hadv id n Hin) as (r & ? & ? & ? & ? & ? & _). exists r.
    split_and!; try done; [lia|]. by eexists. }
  intros o' s' (Hi' & Ha & Hfin & has & pending & ->). destruct Ha as [[F P] (R & W & K) I T G C]. cbn [sch set_sch].
  split; [|by cbn; rewrite Ho1, R; split_and!]. split; cbn; try done; rewrite ?Ho1, ?Ho2.
  - etrans; [|apply Hsp]. unfold all_reqs. by rewrite R, W, K.
  - unfold fixed in F. injection F as -> _ _ _ _. done.
  - split; [rewrite P; by destruct (sp_fixed _ _ _ _ Hsp) as [_ <-]|]. rewrite <- Hcfg. exact Hfin.
  - intros r Hr _. unfold fixed in F. injection F as _ _ _ _ ->. cbn. rewrite W, K in Hr. rewrite I. intros Hin.
    apply elem_of_list_to_set in Hin. apply list_elem_of_fmap in Hin as ([id n] & Hid & Hin). simpl in Hid. subst id.
    destruct (Hadv _ _ Hin) as (r' & Hr' & Heq & _).
    change (obj s1) with (obj (sch x)) in Heq. change (waiting_list s1) with (waiting_list (sch x)) in Hr.
    change (skipped_list s1) with (skipped_list (sch x)) in Hr.
    assert (r' = r) as ->. { eapply (NoDup_rid _ _ _ _ _ Hi); [by eapply run_elem| |exact Heq]. unfold all_reqs. set_solver. }
    pose proof (inv_nodup _ _ _ Hi) as Hn. unfold all_reqs in Hn. rewrite app_nil_r in Hn.
    apply NoDup_app in Hn as (_ & Hd & _). by apply (Hd r).
  - split; [done|]. lia.
  - done.
  - done.
  - intros id n Hin. destruct (Hadv id n Hin) as (r & Hr & Hid & H0 & _ & Hc & _). exists r. rewrite R, I.
    split_and!; try done. rewrite (C r Hr), Ho1. change (obj s1) with (obj (sch x)). by rewrite Hid, (od_get_elem _ _ _ Hnd Hin).
  - intros r Hr. rewrite R in Hr. change (running s1) with (running (sch x)) in Hr. unfold within, num_tokens.
    specialize (G r). rewrite T, (C r Hr), Ho1. change (obj s1) with (obj (sch x)) in *.
    destruct (decide (r ∈ chosen (loc x))) as [Hch|Hch].
    + destruct (tb_slots _ _ _ _ _ (sp_tables _ _ _ _ Hsp) r Hch) as (n & -> & _ & _ & _ & Hwi).
      unfold within, num_tokens, step_limits in Hwi. simpl in Hwi |- *. lia.
    + pose proof (sp_ready _ _ _ _ Hsp r Hr Hch) as Hrd. unfold num_tokens in Hrd.
      destruct (od_get _ _) as [n|] eqn:Hn; simpl; [|lia]. exfalso. apply Hch.
      assert (rid (sch x) r ∈ (num_scheduled_tokens (loc x)).*1) as Hin by (apply od_get_is_Some; by exists n).
      rewrite (tb_keys _ _ _ _ _ (sp_tables _ _ _ _ Hsp)) in Hin. apply list_elem_of_fmap in Hin as (r' & He & Hr').
      assert (r = r') as ->; [|done]. eapply (NoDup_rid _ _ _ _ _ Hi); [by eapply run_elem|eapply run_elem; [exact Hi|]; by apply Hsp|done].
  - by rewrite Ho4.
  - intros r Hr Hr0. rewrite R in Hr. change (running s1) with (running (sch x)) in Hr. rewrite (C r Hr), Ho1, I.
    change (obj s1) with (obj (sch x)). by rewrite (sp_keep _ _ _ _ Hsp).
  - intros r Hr Hn. rewrite R in Hr. change (running s1) with (running (sch x)) in Hr. apply (sp_old _ _ _ _ Hsp); [done|].
    intros Hc. apply Hn. rewrite I. change (obj s1) with (obj (sch x)). rewrite (tb_keys _ _ _ _ _ (sp_tables _ _ _ _ Hsp)).
    apply list_elem_of_fmap. by exists r.
Qed.

Definition drafts_ok s : Prop :=
  (∀ r, len (spec_token_ids (obj s r)) ≤ num_spec_tokens (config_ s)) ∧
  len (_spec_token_placeholders s) ≤ num_spec_tokens (config_ s).

Lemma drafts_steady s :
  drafts_ok s → steady (is_async_scheduler (config_ s)) (λ r, core (is_async_scheduler (config_ s)) (obj s r))
                  (num_spec_tokens (config_ s)) s.
Proof. intros [H1 H2]. by split. Qed.

(** The two loops of [schedule]. *)
Definition both_loops (ts : Z) : M Run unit :=
  s ← gets sch;
  _ ← on_sch (on_kv kv_new_step_starts);
  _ ← running_loop (S (length (running s))) (active_num_spec_tokens s) ts;
  _ ← collect_loras;
  schedule_waiting ts.

Lemma both_loops_ok s cov ts :
  inv s cov [] → prev_ok s → ready s → drafts_ok s →
  wp (both_loops ts) (λ _ x, (∃ cov', step_inv s x cov' (step_limits s)) ∧
    (num_spec_tokens (config_ s) ≤ 0 → scheduled_spec_decode_tokens (loc x) = [])) (mkRun s (first_step s)).
Proof.
  intros Hi Hp Hr Hd. unfold both_loops. sch_step. sch_step. sch_step. sch_step. sch_step.
  eapply wp_mono; [by eapply srv_new_step, si_kv|]. intros [] kk ->. cbn [sch loc set_sch].
  replace (set_kv (kv s) s) with s by by destruct s. sch_step.
  pose proof (drafts_steady s Hd) as Hst.
  eapply wp_mono; [eapply wp_stable; [apply frame_running_loop|split; [exact Hst|done]|
    eapply (running_loop_ok iter_nil s (step_limits s)); [by apply start_run_inv|split; [exact Hst|done]|simpl; unfold len; lia]]|].
  intros [] x ((cov1 & Hri) & Hst1). unfold collect_loras. sch_step. sch_step. sch_step. unfold Datatypes.id.
  rewrite (ps_loras _ (si_settings _ _ _ (ri_inv _ _ _ _ Hri))). sch_step.
  eapply wp_mono; [eapply wp_stable; [apply frame_schedule_waiting|exact Hst1|by eapply schedule_waiting_ok]|].
  intros [] x' (Hsp & [_ Hno]). done.
Qed.

(** A step in which the loops establish [P]. *)
Lemma schedule_after (P : Run → Prop) s cov ts :
  inv s cov [] → prev_ok s → ready s → drafts_ok s → wp (both_loops ts) (λ _ x, P x) (mkRun s (first_step s)) →
  ∃ o s' cov' x, schedule ts s = (Ok o, s') ∧ step_done s s' cov' o ∧ P x ∧
    out_num_scheduled_tokens o = num_scheduled_tokens (loc x) ∧ running s' = running (sch x) ∧
    ∀ r, rid s' r = rid (sch x) r.
Proof.
  intros Hi Hp Hr Hd HP. pose proof (both_loops_ok s cov ts Hi Hp Hr Hd) as Hok.
  assert (schedule_run ts (mkRun s (first_step s)) =
    (both_loops ts ≫= λ _, total ← check_constraints; o ← build_output (active_num_spec_tokens s) total;
       o ← on_sch (add_connector_meta o); on_sch (_update_after_schedule o)) (mkRun s (first_step s))) as Heq.
  { unfold schedule_run, both_loops, mbind, M_bind, gets. cbn [sch]. repeat (case_match; try done). all: simplify_eq; done. }
  unfold wp in HP, Hok. destruct (both_loops ts _) as [[[]|e] x] eqn:Hb; [|done]. destruct Hok as [[cov' Hsp] Hno].
  pose proof (finish_step_ok s x cov' (active_num_spec_tokens s) Hsp Hno) as Hw. apply wp_run in Hw as (o & x' & Hrun & Hdone & Ho & HR).
  exists o, (sch x'), cov', x. split; [|done]. unfold schedule. fold (step_budget s). fold (first_step s).
  by rewrite Heq, (bind_ok_run _ _ _ _ _ Hb), Hrun.
Qed.

Lemma schedule_done s cov ts :
  inv s cov [] → prev_ok s → ready s → drafts_ok s →
  ∃ o s' cov', schedule ts s = (Ok o, s') ∧ step_done s s' cov' o.
Proof.
  intros Hi Hp Hr Hd. destruct (schedule_after (λ _, True) s cov ts Hi Hp Hr Hd) as (o & s' & cov' & x & Hrun & Hdone & _).
  { eapply wp_mono; [by eapply both_loops_ok|]. done. }
  by exists o, s', cov'.
Qed.
End Step.
