(* ===== verification/SchedLife.v ===== *)
(** * Requests come and go

    The scheduler of vllm/v1/core/sched/scheduler.py from its constructor on: requests
    arrive, steps are scheduled, the output of the model is applied. *)

From S2P Require Import Prelude FreeQueue Request BlockHash BlockPool KVSpec CacheHit SingleType Coordinator KVManager KVCalls HitToSlots KVService Heap RequestQueue SchedUtils EncoderCache SpecControl SchedOutput SchedState EncoderSched Schedule SchedRequests SchedFrame SchedInv SchedRun SchedWait SchedStep.

#[local] Open Scope Z_scope.
#[local] Set Default Proof Using "Type*".

Section Life.
Context {E : Env} {SE : SchedEnv} {max_len hash_bs : Z} {KS : KVService max_len hash_bs}.
Implicit Types (s : Scheduler) (cov : gmap string Z) (r v : req_ref) (q : Request).
Abbreviation rid s r := (request_id (obj s r)).
Abbreviation computed s r := (num_computed_tokens (obj s r)).
Abbreviation inv := (@inv E SE max_len hash_bs KS).

(** What holds between the steps. *)
Record idle s cov : Prop := {
  id_inv : inv s cov [];
  id_prev : prev_ok s;
  id_ready : ready s;
  id_drafts : drafts_ok s
}.

(** ** The constructor *)

(** A configuration without LoRA adapters, Mamba layers and connectors. *)
Record plain_config (vc : VllmConfig) (kc : KVCacheConfig) : Prop := {
  pc_len : c_max_model_len vc = max_len;
  pc_loras : c_max_loras vc = None;
  pc_mamba : has_mamba_layers kc && c_mamba_cache_align vc = false;
  pc_zero : needs_kv_cache_zeroing kc = false;
  pc_budget : 0 ≤ truthy_or (c_max_num_scheduled_tokens vc) (c_max_num_batched_tokens vc);
  pc_seqs : 0 ≤ c_max_num_seqs vc;
  pc_spec : match c_speculative vc with Some (n, _, _) => 0 ≤ n | None => True end
}.

(** A scheduler without requests. *)
Lemma empty_idle s :
  objs s = ∅ → s_requests s = [] → running s = [] → connector s = None → ec_connector s = None →
  waiting s = create_request_queue (policy (config_ s)) → skipped_waiting s = create_request_queue (policy (config_ s)) →
  @plain_settings max_len (config_ s) → 0 ≤ max_num_running_reqs (config_ s) → serves (kv s) ∅ →
  0 ≤ num_spec_tokens (config_ s) → len (_spec_token_placeholders s) ≤ num_spec_tokens (config_ s) → idle s ∅.
Proof.
  intros Ho Hreq Hrun Hc Hec Hw Hk Hset Hmax Hkv Hspec Hph.
  assert (Hobj : ∀ r, object_id (obj s r) = r) by (intros r; unfold obj; by rewrite Ho).
  destruct (create_queue_ok (obj s) (policy (config_ s))) as [Hq Hql].
  assert (waiting_list s = [] ∧ skipped_list s = []) as [Hwl Hsl] by (unfold waiting_list, skipped_list; by rewrite Hw, Hk).
  assert (all_reqs s [] = []) as Hall by (unfold all_reqs; by rewrite Hrun, Hwl, Hsl).
  assert (Hnil : ∀ r, r ∉ []) by (intros r; by intros ?%elem_of_nil).
  split.
  - split; rewrite ?Hall, ?Hrun, ?Hwl, ?Hsl, ?Hw, ?Hk; try done; try (by intros r ?%Hnil).
    + apply NoDup_nil_2.
    + intros id r. unfold requests_get. by rewrite Hreq.
    + rewrite Hreq. apply NoDup_nil_2.
  - intros r Hr. rewrite Hwl, Hsl in Hr. by apply Hnil in Hr.
  - intros r Hr. rewrite Hrun in Hr. by apply Hnil in Hr.
  - split; [|done]. intros r. unfold obj. by rewrite Ho.
Qed.

Lemma init_idle is_async vc kc bs hbs mm finished log s :
  scheduler_init is_async vc kc bs hbs mm None None finished log = Ok s →
  plain_config vc kc → serves (kv s) ∅ → idle s ∅.
Proof.
  intros Hinit [H1 H2 H3 H4 H5 H6 H7] Hkv. unfold scheduler_init in Hinit. cbn [bool_decide andb] in Hinit.
  destruct (negb _); [done|]. destruct (policy_of _); [|done]. destruct (_ && negb _); [done|].
  destruct (c_speculative vc) as [[[n eagle] draft]|].
  - destruct (controller_init _ _ _ _ _ _ _ _) as [ctl|]; [|done]. destruct (kv_cache_manager_init _ _ _ _ _ _ _ _ _ _ _); [|done].
    destruct (_ && negb _); [done|]. injection Hinit as <-. apply empty_idle; try done.
    + split; try done. simpl. by destruct (eagle || draft).
    + simpl. destruct is_async; unfold len; rewrite ?length_replicate; simpl; lia.
  - destruct (kv_cache_manager_init _ _ _ _ _ _ _ _ _ _ _); [|done].
    destruct (_ && negb _); [done|]. injection Hinit as <-. apply empty_idle; try done. simpl. by destruct is_async.
Qed.

(** ** A new request *)

(** A request that was not seen before and waits for its first step. *)
Record arriving s q : Prop := {
  ar_plain : @plain max_len hash_bs q;
  ar_status : status q = WAITING ∨ (status q = WAITING_FOR_STRUCTURED_OUTPUT_GRAMMAR ∧ is_Some (structured_output_request q));
  ar_computed : num_computed_tokens q = 0;
  ar_session : resumable q = false;
  ar_drafts : spec_token_ids q = [];
  ar_id : requests_get s (request_id q) = None;
  ar_object : object_id q ∉ all_reqs s []
}.

Lemma not_registered s cov q : inv s cov [] → requests_get s (request_id q) = None →
  cov !! request_id q = None ∧ ∀ r, r ∈ all_reqs s [] → rid s r ≠ request_id q.
Proof.
  intros Hi Hn. assert (∀ r, r ∈ all_reqs s [] → rid s r ≠ request_id q) as Hne.
  { intros r Hr He. pose proof (si_reg _ _ _ Hi r Hr) as Hg. rewrite He in Hg. congruence. }
  split; [|done]. destruct (cov !! _) as [n|] eqn:Hc; [|done]. destruct (si_cov _ _ _ Hi _ _ Hc) as (r & Hr & He).
  by destruct (Hne r Hr).
Qed.

Lemma arrive_idle s s' cov q q' :
  idle s cov → arriving s q → let r := object_id q in
  config_ s' = config_ s → connector s' = connector s → ec_connector s' = ec_connector s →
  prev_step_scheduled_req_ids s' = prev_step_scheduled_req_ids s → kv s' = kv s → running s' = running s →
  s_requests s' = od_set (request_id q) r (s_requests s) →
  (∀ r', r' ≠ r → obj s' r' = obj s r') → obj s' r = q' → order_key q' = order_key q → spec_token_ids q' = [] →
  _spec_token_placeholders s' = _spec_token_placeholders s →
  @wait_ok max_len hash_bs cov q' → status q' ≠ PREEMPTED →
  queue_ok (obj s') (policy (config_ s)) (waiting s') → queue_ok (obj s') (policy (config_ s)) (skipped_waiting s') →
  waiting_list s' ++ skipped_list s' ≡ₚ r :: waiting_list s ++ skipped_list s →
  idle s' cov ∧ all_reqs s' [] ≡ₚ r :: all_reqs s [].
Proof.
  intros [Hi Hp Hr [Hd1 Hd2]] [Hpl Hst Hc Hses Hdr Hid Hnew] r Hcfg Hcn Hec Hprev Hkv Hrun Hreq Hoth Hobj Hkey Hsp Hph Hok Hnp Hw Hk Hl.
  assert (Hall : all_reqs s' [] ≡ₚ r :: all_reqs s []).
  { unfold all_reqs. rewrite !app_nil_r, Hrun, Hl. solve_Permutation. }
  destruct (not_registered s cov q Hi Hid) as [Hcov Hne].
  assert (request_id q' = request_id q ∧ object_id q' = r) as Hq by (unfold order_key in Hkey; injection Hkey as ? ? ? ?; done).
  destruct Hq as [Hqid Hqobj].
  assert (Hold : ∀ r', r' ∈ all_reqs s [] → r' ≠ r) by (intros r' Hr' ->; done).
  assert (Hsub : ∀ r', r' ∈ running s ∨ r' ∈ waiting_list s ++ skipped_list s → r' ∈ all_reqs s []).
  { unfold all_reqs. intros r' [|]; set_solver. }
  split; [|done]. split.
  - split; rewrite ?Hcfg, ?Hcn, ?Hec, ?Hkv, ?Hrun; try by apply Hi.
    + intros r'. destruct (decide (r' = r)) as [->|]; [by rewrite Hobj|]. rewrite Hoth by done. by apply Hi.
    + done.
    + done.
    + rewrite Hall, fmap_cons, Hobj, Hqid. apply NoDup_cons. split.
      * intros (r' & He & Hr')%list_elem_of_fmap. rewrite Hoth in He by auto. by apply (Hne r').
      * erewrite list_fmap_ext; [apply (si_ids _ _ _ Hi)|]. intros i r' Hr'. simpl. rewrite Hoth; [done|].
        apply Hold. by eapply list_elem_of_lookup_2.
    + intros r' Hr'. rewrite Hall in Hr'. unfold requests_get. rewrite Hreq. apply elem_of_cons in Hr' as [->|Hr'].
      * rewrite Hobj, Hqid. apply od_get_set_eq.
      * rewrite Hoth by auto. rewrite od_get_set_ne by auto. by apply Hi.
    + intros id r' Hg. rewrite Hall. unfold requests_get in Hg. rewrite Hreq in Hg.
      destruct (decide (id = request_id q)) as [->|Hn]; [rewrite od_get_set_eq in Hg; simplify_eq; split; [by left|done]|].
      rewrite od_get_set_ne in Hg by done. destruct (si_dom _ _ _ Hi id r' Hg) as [Hin Hk']. split; [by right|]. by rewrite Hoth by auto.
    + intros id n Hn. destruct (si_cov _ _ _ Hi id n Hn) as (r' & Hr' & <-). exists r'. rewrite Hall, Hoth by auto.
      split; [by right|done].
    + intros r' Hr'. rewrite Hoth by auto. by apply Hi.
    + intros r' Hr'. rewrite app_assoc, app_nil_r, Hl in Hr'. apply elem_of_cons in Hr' as [->|Hr']; [by rewrite Hobj|].
      rewrite Hoth by auto. apply Hi. by rewrite app_nil_r.
    + rewrite Hreq. apply od_set_NoDup, Hi.
  - intros r' Hr' Hs. rewrite Hl in Hr'. rewrite Hprev. apply elem_of_cons in Hr' as [->|Hr']; [by rewrite Hobj in Hs|].
    rewrite Hoth in * by auto. by apply Hp.
  - intros r' Hr'. rewrite Hrun in Hr'. rewrite Hoth by auto. by apply Hr.
  - unfold drafts_ok. rewrite Hcfg, Hph. split; [|done]. intros r'. destruct (decide (r' = r)) as [->|]; [|by rewrite Hoth].
    rewrite Hobj, Hsp. etrans; [|apply (Hd1 r)]. apply len_nonneg.
Qed.

Lemma put_obj_id r q s : objs s !! r = Some q → put_obj r q s = s.
Proof. intros Hs. unfold put_obj. rewrite insert_id by done. by destruct s. Qed.

Lemma add_request_ok hasher s cov q now :
  idle s cov → arriving s q →
  wp (SchedRequests.add_request hasher q now) (λ _ s', (idle s' cov ∧ all_reqs s' [] ≡ₚ object_id q :: all_reqs s []) ∧
    config_ s' = config_ s ∧ (∀ r, r ≠ object_id q → obj s' r = obj s r) ∧
    set_events [] (obj s' (object_id q)) = set_events [] q) s.
Proof.
  intros Hidle Har. pose proof (id_inv _ _ Hidle) as Hi. pose proof Har as [Hpl Hst Hc Hses Hdr Hid Hnew].
  set (r := object_id q) in *. unfold SchedRequests.add_request. sch_step. sch_step. rewrite Hid. cbv zeta.
  rewrite Hses. fold r. sch_step. sch_step. set (s1 := put_obj r q s).
  assert (Ho1 : ∀ r', r' ≠ r → obj s1 r' = obj s r') by (intros; by apply obj_put_ne).
  assert (Hor : obj s1 r = q) by apply obj_put.
  assert (Hid1 : ∀ r', object_id (obj s1 r') = r').
  { intros r'. destruct (decide (r' = r)) as [->|]; [by rewrite Hor|]. rewrite Ho1 by done. by apply Hi. }
  assert (Hkeys : ∀ r', r' ∈ waiting_list s ++ skipped_list s → order_key (obj s r') = order_key (obj s1 r')).
  { intros r' Hr'. rewrite Ho1; [done|]. intros ->. apply Hnew. unfold all_reqs. set_solver. }
  destruct (queue_keys_in (obj s) (obj s1) (policy (config_ s)) (waiting s)) as [Hw1 Hwl1];
    [apply Hi|done|apply Hi|intros r' Hr'; apply Hkeys; set_solver|].
  destruct (queue_keys_in (obj s) (obj s1) (policy (config_ s)) (skipped_waiting s)) as [Hk1 Hkl1];
    [apply Hi|done|apply Hi|intros r' Hr'; apply Hkeys; set_solver|].
  fold (waiting_list s) in Hwl1. fold (skipped_list s) in Hkl1.
  sch_step. eapply wp_mono with (λ _ s2, ∃ w k, s2 = set_waiting w (set_skipped_waiting k s1) ∧
    queue_ok (obj s1) (policy (config_ s)) w ∧ queue_ok (obj s1) (policy (config_ s)) k ∧
    qlist (obj s1) w ++ qlist (obj s1) k ≡ₚ r :: waiting_list s ++ skipped_list s).
  { unfold _enqueue_waiting_request. sch_step. sch_step. rewrite Hor.
    destruct Hst as [-> | [-> _]]; cbn [_is_blocked_waiting_status]; sch_step.
    - eapply wp_add; [done|exact Hw1|]. intros w Hw Hl. exists w, (skipped_waiting s1). split_and!; try done.
      rewrite Hl. change (waiting s1) with (waiting s). change (skipped_waiting s1) with (skipped_waiting s). by rewrite Hwl1, Hkl1.
    - eapply wp_add; [done|exact Hk1|]. intros k Hk Hl. exists (waiting s1), k. split_and!; try done.
      rewrite Hl. change (waiting s1) with (waiting s). change (skipped_waiting s1) with (skipped_waiting s).
      rewrite Hwl1, Hkl1. solve_Permutation. }
  intros [] s2 (w & k & -> & Hw & Hk & Hl). sch_step. sch_step. sch_step. sch_step.
  set (s3 := set_s_requests _ _). destruct (not_registered s cov q Hi Hid) as [Hcov _].
  assert (Hgo : ∀ q', order_key q' = order_key q → status q' = status q → num_computed_tokens q' = num_computed_tokens q → spec_token_ids q' = spec_token_ids q →
    (_all_token_ids q', block_hashes q', mm_features q', num_prompt_tokens q', prefill_stats q') =
    (_all_token_ids q, block_hashes q, mm_features q, num_prompt_tokens q, prefill_stats q) →
    set_events [] q' = set_events [] q →
    (idle (put_obj r q' s3) cov ∧ all_reqs (put_obj r q' s3) [] ≡ₚ r :: all_reqs s []) ∧
    config_ (put_obj r q' s3) = config_ s ∧ (∀ r', r' ≠ r → obj (put_obj r q' s3) r' = obj s r') ∧
    set_events [] (obj (put_obj r q' s3) r) = set_events [] q).
  { intros q' Hkey Hs' Hc' Hd' Hsame Hev. split; [|split_and!; [done| |by rewrite obj_put]; intros r' Hr'; rewrite obj_put_ne by done; by apply Ho1].
    assert (Hkk : ∀ r', order_key (obj s1 r') = order_key (obj (put_obj r q' s3) r')).
    { intros r'. destruct (decide (r' = r)) as [->|Hne]; [by rewrite Hor, obj_put|]. by rewrite obj_put_ne. }
    eapply (arrive_idle s _ cov q q'); try done.
    - intros r' Hr'. rewrite obj_put_ne by done. by apply Ho1.
    - apply obj_put.
    - by rewrite Hd'.
    - assert (structured_output_request q' = structured_output_request q) as Hso by exact (f_equal structured_output_request Hev).
      split; [unfold wait_status; rewrite Hs', Hso; by destruct Hst as [-> | [-> ?]]|by eapply plain_same|left].
      unfold order_key in Hkey. injection Hkey as _ _ -> _. by rewrite Hc'.
    - rewrite Hs'. by destruct Hst as [-> | [-> _]].
    - by eapply queue_ok_key.
    - by eapply queue_ok_key.
    - unfold waiting_list at 1, skipped_list at 1. rewrite <- (qlist_key (obj s1) _ (waiting _) Hkk), <- (qlist_key (obj s1) _ (skipped_waiting _) Hkk).
      exact Hl. }
  case_match.
  - sch_step. unfold record_event. sch_step. change (obj s3 r) with (obj s1 r). rewrite Hor. by apply Hgo.
  - sch_step. rewrite <- (put_obj_id r q s3); [by apply Hgo|].
    change (objs s3) with (<[r := q]> (objs s)). apply lookup_insert_eq.
Qed.
End Life.

(** ** A step is safe *)

Section Safe.
Context {E : Env} {SE : SchedEnv} {max_len hash_bs : Z} {KS : KVService max_len hash_bs}.

(** C4: A step of the scheduler is safe.  Between steps ([idle]: every registered request
    is in exactly one of the running list and the two queues, runs with the slots of its
    computed tokens or waits with none), [schedule] raises no exception, whatever the
    policy and the number of free blocks, and its loops end.  No request is lost or
    duplicated, though requests may be preempted or started.  The number of scheduled
    tokens is the sum of the shares and within the budget of the step; each scheduled
    request is described to the workers exactly once, is running, has a positive share,
    and the KV cache has slots for its computed tokens, this step's included, at least; a
    request that ran before and runs on has advanced by its share.  Afterwards the part [inv]
    of [idle] holds again (the lists, the registry, the slots) and so does [prev_ok]; the
    rest of it holds once the output of the step is applied. *)
Theorem schedule_step_safe (s : Scheduler) (cov : gmap string Z) (timestamp : Z) :
  (∀ l : list Z, NoDup l → set_iter l ≡ₚ l) → idle (max_len := max_len) s cov →
  ∃ o s' cov', schedule timestamp s = (Ok o, s') ∧
    inv s' cov' [] ∧ prev_ok s' ∧ all_reqs s' [] ≡ₚ all_reqs s [] ∧
    out_total_num_scheduled_tokens o = sumZ (out_num_scheduled_tokens o).*2 ∧
    out_total_num_scheduled_tokens o ≤ step_budget s ∧
    NoDup (out_num_scheduled_tokens o).*1 ∧
    (nr_req_id <$> out_scheduled_new_reqs o) ++ cr_req_ids (out_scheduled_cached_reqs o) ≡ₚ
      (out_num_scheduled_tokens o).*1 ∧
    ∀ id n, (id, n) ∈ out_num_scheduled_tokens o →
      ∃ r, r ∈ running s' ∧ request_id (obj s' r) = id ∧ 0 < n ∧
           cov' !! id = Some (num_computed_tokens (obj s' r)) ∧
           (r ∈ running s → num_computed_tokens (obj s' r) = num_computed_tokens (obj s r) + n).
Proof.
  intros Hset [Hi Hp Hr Hdr]. destruct (schedule_done Hset s cov timestamp Hi Hp Hr Hdr) as (o & s' & cov' & Hrun & Hd).
  exists o, s', cov'. destruct Hd as [D1 D2 D3 DF D4 [D5 D6] D7 D8 D9 _ _ Hkeep _]. split_and!; try done.
  intros id n Hin. destruct (D9 id n Hin) as (r & Hr' & Hid & Hn & Hcov). exists r. split_and!; try done. intros Hold.
  rewrite (Hkeep r Hr' Hold), Hid, (od_get_elem _ _ _ D7 Hin). done.
Qed.
End Safe.

#[local] Existing Instances test_env test_sched_env.

(** Two requests of three and five tokens in the scheduler of the small instance. *)
Definition small_hasher : option (M Request (list bytes)) :=
  Some (request_block_hasher (λ _, []) injective_hash [0] 2).
Definition small_sampling (n : Z) : SamplingParams := mkSamplingParams (Some n) 0 None None None None None None.
Definition small_request (id : string) (oid : Z) (tokens : list Z) (n : Z) : Request :=
  match request_init small_hasher id (Some tokens) (Some (small_sampling n)) None 0 (Some oid) 0 oid None None None None 0
          false None with
  | Ok r => r
  | Raise _ => short_request
  end.
Definition small_start : Scheduler := get_ok (small_init false "fcfs" None None) I.
Definition request_a : Request := small_request "a" 1 [5; 6; 7] 2.
Definition request_b : Request := small_request "b" 2 [5; 6; 7; 8; 9] 2.
Definition one_waiting : Scheduler := snd (SchedRequests.add_request small_hasher request_a 1 small_start).
Definition two_waiting : Scheduler := snd (SchedRequests.add_request small_hasher request_b 1 one_waiting).

#[local] Instance small_service : KVService 64 2 := unitary_service full2 1 1 64 2 true false.

Lemma small_start_init :
  scheduler_init false (small_vllm "fcfs" None None) small_kv 2 (Some 2) (Some small_budget) None None false true = Ok small_start.
Proof. vm_compute. reflexivity. Qed.
Lemma small_config : plain_config (max_len := 64) (small_vllm "fcfs" None None) small_kv.
Proof. by split. Qed.

Lemma small_start_kv :
  kv_cache_manager_init small_kv 64 2 (Some 16) true false true false 1 1 None = Ok (kv small_start).
Proof. vm_compute. reflexivity. Qed.

Lemma small_kv_serves : serves (kv small_start) ∅.
Proof.
  apply (unitary_init full2 1 1 64 2 true false small_kv (mkGroup ["a"] full2 false) (Some 16) false false None);
    [exact small_start_kv|done..|split_and!; vm_compute; (done || by eexists)|exact I|done].
Qed.

Lemma small_idle : idle small_start ∅.
Proof. exact (init_idle _ _ _ _ _ _ _ _ _ small_start_init small_config small_kv_serves). Qed.

Lemma small_arriving s q :
  plain (max_len := 64) (hash_bs := 2) q → status q = WAITING → num_computed_tokens q = 0 → resumable q = false → spec_token_ids q = [] →
  requests_get s (request_id q) = None → bool_decide (object_id q ∉ all_reqs s []) = true →
  arriving (max_len := 64) (hash_bs := 2) s q.
Proof. intros. split; try done; [by left|by apply bool_decide_eq_true in H5]. Qed.

Lemma small_plain q :
  mm_features q = [] → (0 <? num_tokens q) && (num_tokens q <? 64) = true → len (block_hashes q) = num_tokens q / 2 →
  bool_decide (NoDup (block_hashes q)) = true → num_tokens q <=? num_prompt_tokens q = true →
  plain (max_len := 64) (hash_bs := 2) q.
Proof.
  intros H1 [H2%Z.ltb_lt H3%Z.ltb_lt]%andb_true_iff H4 H5%bool_decide_eq_true H6%Z.leb_le. by split.
Qed.

Lemma two_waiting_idle : idle two_waiting ∅.
Proof.
  assert (Hadd : ∀ s q, idle s ∅ → arriving (max_len := 64) (hash_bs := 2) s q → idle (snd (SchedRequests.add_request small_hasher q 1 s)) ∅).
  { intros s q Hs Hq. pose proof (add_request_ok small_hasher s ∅ q 1 Hs Hq) as Hw.
    unfold wp in Hw. destruct (SchedRequests.add_request _ _ _ _) as [[[]|e] s']; [by destruct Hw as [[? _] _]|done]. }
  apply Hadd; [apply Hadd; [exact small_idle|]|]; (apply small_arriving; [apply small_plain|..]; by vm_compute).
Qed.

Lemma schedule_step_safe_witness :
  ∃ o s', schedule 3 two_waiting = (Ok o, s') ∧ out_num_scheduled_tokens o = [("a", 3); ("b", 3)] ∧
    running s' = [1; 2] ∧ ∃ cov', inv s' cov' [].
Proof.
  destruct (schedule_step_safe two_waiting ∅ 3) as (o & s' & cov' & Hrun & Hi & _).
  { intros l _. done. }
  { exact two_waiting_idle. }
  exists o, s'. split; [exact Hrun|].
  assert (match schedule 3 two_waiting with
          | (Ok o, s') => (out_num_scheduled_tokens o, running s') = ([("a", 3); ("b", 3)], [1; 2])
          | _ => False
          end) as Hv by (vm_compute; reflexivity).
  rewrite Hrun in Hv. injection Hv as Hv1 Hv2. split; [exact Hv1|]. split; [exact Hv2|]. by exists cov'.
Defined.
