(* ===== verification/SchedLeave.v ===== *)
(** * Requests leave

    What frees a request in vllm/v1/core/sched/scheduler.py, [_free_request], and
    [finish_requests], which ends requests from outside: under the invariant they raise
    nothing, and the requests are gone from the lists, the table and the KV cache. *)

From S2P Require Import Prelude FreeQueue Request BlockHash BlockPool KVSpec CacheHit SingleType Coordinator KVManager KVService Heap RequestQueue SchedUtils EncoderCache SpecControl SchedOutput SchedState EncoderSched Schedule SchedRequests SchedFrame SchedInv SchedRun SchedStep SchedLife.

#[local] Open Scope Z_scope.
#[local] Set Default Proof Using "Type*".

(** ** Lists *)

Lemma filter_notin_id (l : list req_ref) (G : gset req_ref) : (∀ y, y ∈ l → y ∉ G) → filter (λ y, y ∉ G) l = l.
Proof.
  induction l as [|x l IH]; intros Hl; [done|]. rewrite filter_cons_True by (apply Hl; by left). f_equal. apply IH.
  intros y Hy. apply Hl. by right.
Qed.

Lemma filter_notin_nil (l : list req_ref) : filter (λ y, y ∉ []) l = l.
Proof. induction l as [|x l IH]; [done|]. rewrite filter_cons_True by apply not_elem_of_nil. by rewrite IH. Qed.

(** [remove_all] takes out exactly the requests that have stopped. *)
Lemma remove_first_filter x (l : list req_ref) : NoDup l → remove_first x l = filter (λ y, y ∉ ({[x]} : gset req_ref)) l.
Proof.
  induction 1 as [|y l Hy Hl IH]; [done|]. cbn [remove_first]. case_bool_decide as Hxy.
  - subst y. rewrite filter_cons_False by set_solver. symmetry. apply filter_notin_id. intros z Hz. set_solver.
  - rewrite filter_cons_True by set_solver. by rewrite IH.
Qed.

Lemma remove_all_filter (l : list req_ref) (G : gset req_ref) : NoDup l → remove_all l G = filter (λ y, y ∉ G) l.
Proof.
  intros Hl. unfold remove_all. case_decide as HG.
  - subst G. symmetry. apply filter_notin_id. intros z Hz. set_solver.
  - destruct (elements G) as [|x [|y L]] eqn:He; [done| |done].
    assert (G = {[x]}) as ->; [|by apply remove_first_filter].
    apply set_eq. intros z. rewrite <- elem_of_elements, He. set_solver.
Qed.

(** ** A request leaves *)

Section Leave.
Context {E : Env} {SE : SchedEnv} {max_len hash_bs : Z} {KS : KVService max_len hash_bs}.
Implicit Types (s : Scheduler) (cov : gmap string Z) (r : req_ref) (q : Request) (P R : list req_ref).
Implicit Types (w k : request_queue) (kk : KVCacheManager).
Abbreviation rid s r := (request_id (obj s r)).
Abbreviation inv := (@inv E SE max_len hash_bs KS).

(** The table of requests without one of them. *)
Definition unregister (id : string) s : Scheduler := set_s_requests (od_del id (s_requests s)) s.

Lemma view_unregister s0 s v q R w k kk id :
  view s0 s v q R w k kk → view (unregister id s0) (unregister id s) v q R w k kk.
Proof.
  intros [Hf]. split; try done. unfold fixed in *. injection Hf as H1 H2 H3 H4 H5. unfold unregister. simpl.
  by rewrite H1, H2, H3, H4, H5.
Qed.

(** A request leaves the lists, the table of requests and the KV cache. *)
Lemma inv_leave s s' cov P P' r :
  inv s cov P → fixed s' = fixed (unregister (rid s r) s) →
  (∀ r', r' ≠ r → obj s' r' = obj s r') → order_key (obj s' r) = order_key (obj s r) →
  serves (kv s') (delete (rid s r) cov) → waiting s' = waiting s → skipped_waiting s' = skipped_waiting s →
  running s ++ P ≡ₚ r :: running s' ++ P' → running s' ⊆ running s → P' ⊆ P →
  len (running s') ≤ max_num_running_reqs (config_ s) →
  inv s' (delete (rid s r) cov) P' ∧ all_reqs s P ≡ₚ r :: all_reqs s' P'.
Proof.
  intros Hi Hfix Hobj Hkey Hkv Hw Hk Hrun Hsr Hsp Hlen.
  unfold fixed in Hfix. injection Hfix as Hc Hcn Hec Hreq Hprev. simpl in *.
  assert (Hk' : ∀ r', order_key (obj s r') = order_key (obj s' r')).
  { intros r'. destruct (decide (r' = r)) as [->|Hne]; [done|]. by rewrite Hobj. }
  assert (waiting_list s' = waiting_list s) as Hwl by (unfold waiting_list; rewrite Hw; symmetry; by apply qlist_key).
  assert (skipped_list s' = skipped_list s) as Hsl by (unfold skipped_list; rewrite Hk; symmetry; by apply qlist_key).
  assert (Hall : all_reqs s P ≡ₚ r :: all_reqs s' P').
  { unfold all_reqs. rewrite Hwl, Hsl. transitivity ((running s ++ P) ++ waiting_list s ++ skipped_list s); [solve_Permutation|].
    rewrite Hrun. solve_Permutation. }
  assert (r ∉ all_reqs s' P') as Hnr.
  { pose proof (inv_nodup _ _ _ Hi) as Hnd. rewrite Hall in Hnd. by apply NoDup_cons in Hnd as [? _]. }
  assert (Hold : ∀ r', r' ∈ all_reqs s' P' → r' ∈ all_reqs s P ∧ r' ≠ r ∧ rid s r' ≠ rid s r).
  { intros r' Hr'. assert (r' ∈ all_reqs s P) as Hin by (rewrite Hall; by right). assert (r' ≠ r) as Hne by by intros ->.
    split_and!; [done|done|]. intros He. apply Hne. eapply NoDup_rid; [exact Hi|done| |done]. rewrite Hall. by left. }
  assert (Hrs : ∀ r', r' ∈ running s' → r' ∈ all_reqs s' P') by (intros r'; unfold all_reqs; set_solver).
  assert (Hws : ∀ r', r' ∈ waiting_list s' ++ skipped_list s' ++ P' → r' ∈ all_reqs s' P') by (intros r'; unfold all_reqs; set_solver).
  destruct (od_del_nodup (rid s r) (s_requests s) (si_keys _ _ _ Hi)) as [Hdn Hds].
  split; [|done]. split; rewrite ?Hc, ?Hcn, ?Hec, ?Hw, ?Hk; try done; try by apply Hi.
  - intros r'. specialize (Hk' r'). unfold order_key in Hk'. rewrite <- (si_obj _ _ _ Hi r') at 2. congruence.
  - eapply queue_ok_key; [exact Hk'|apply Hi].
  - eapply queue_ok_key; [exact Hk'|apply Hi].
  - pose proof (si_ids _ _ _ Hi) as Hn. rewrite Hall in Hn. apply NoDup_cons in Hn as [_ Hn].
    erewrite list_fmap_ext; [exact Hn|]. intros i r' Hr'. specialize (Hk' r'). unfold order_key in Hk'. simpl. congruence.
  - intros r' Hr'. destruct (Hold r' Hr') as (Hin & Hne & Hid). rewrite Hobj by done. unfold requests_get.
    rewrite Hreq, od_get_del_ne by done. by apply Hi.
  - intros id r' Hg. unfold requests_get in Hg. rewrite Hreq in Hg. destruct (decide (id = rid s r)) as [->|Hne].
    { destruct Hdn. apply od_get_is_Some. by exists r'. }
    rewrite od_get_del_ne in Hg by done. destruct (si_dom _ _ _ Hi _ _ Hg) as [Hin Hkr]. rewrite Hall in Hin.
    apply elem_of_cons in Hin as [->|Hin]; [done|]. split; [done|]. by rewrite Hobj by (by intros ->).
  - intros id n Hn. apply lookup_delete_Some in Hn as [Hne Hn]. destruct (si_cov _ _ _ Hi id n Hn) as (r' & Hr' & <-).
    exists r'. rewrite Hall in Hr'. apply elem_of_cons in Hr' as [->|Hr']; [done|]. split; [done|].
    by rewrite Hobj by (by intros ->).
  - intros r' Hr'. destruct (Hold r' (Hrs r' Hr')) as (Hin & Hne & Hid). rewrite Hobj by done.
    destruct (si_run _ _ _ Hi r') as [? ? Hcv ?]; [by apply Hsr|]. split; try done. by rewrite lookup_delete_ne.
  - intros r' Hr'. destruct (Hold r' (Hws r' Hr')) as (Hin & Hne & Hid). rewrite Hobj by done.
    destruct (si_wait _ _ _ Hi r') as [? ? Hcv]; [rewrite Hwl, Hsl in Hr'; set_solver|]. split; try done. by rewrite lookup_delete_ne.
  - by rewrite Hreq.
Qed.


Lemma view_same s0 s s' r q R w k kk :
  view s0 s r q R w k kk → fixed s' = fixed s → objs s' = objs s → running s' = running s → waiting s' = waiting s →
  skipped_waiting s' = skipped_waiting s → kv s' = kv s → flags s' = flags s →
  active_num_spec_tokens s' = active_num_spec_tokens s → _spec_token_placeholders s' = _spec_token_placeholders s →
  view s0 s' r q R w k kk.
Proof.
  intros [? ? ? ? ? ? ? [? ?] ?] Hf Ho. intros. assert (obj s' = obj s) as Hob by (unfold obj; by rewrite Ho).
  split; rewrite ?Hob; try congruence; try done. split; congruence.
Qed.


Context (set_iter_nil : set_iter [] = []).

(** [_free_request] without a connector. *)
Lemma free_request_ok s0 s r q R w k kk cov :
  view s0 s r q R w k kk → connector s0 = None → requests_get s0 (request_id q) = Some r →
  is_finished q = true → mm_features q = [] → serves kk cov →
  wp (_free_request r false) (λ params s', params = None ∧ ∃ kk',
    view (unregister (request_id q) s0) s' r q R w k kk' ∧ serves kk' (delete (request_id q) cov)) s.
Proof.
  intros Hv Hcn Hreg Hfin Htext Hkv.
  pose proof (vw_fixed _ _ _ _ _ _ _ _ Hv) as Hf. unfold fixed in Hf. injection Hf as Hc Hc2 Hc3 Hc4 Hc5.
  unfold _free_request. sch_step. view_step. sch_step. apply wp_assert; [done|]. sch_step.
  unfold _connector_finished. sch_step. sch_step. unfold Datatypes.id. rewrite Hc2, Hcn. sch_step.
  sch_step. apply (enc_free_text set_iter_nil); [done|]. intros e. sch_step. sch_step. sch_step. sch_step.
  match goal with |- wp _ _ ?st => set (s1 := st) end.
  assert (view s0 s1 r q R w k kk) as Hv1 by by eapply view_same.
  sch_step. unfold _free_blocks. simpl. sch_step. view_step. sch_step. apply wp_assert; [done|]. sch_step. sch_step.
  rewrite (vw_kv _ _ _ _ _ _ _ _ Hv1). eapply wp_mono; [by apply srv_free|]. intros [] kk' Hkv'.
  apply (view_kv _ _ _ _ _ _ _ _ kk') in Hv1. clearbody s1. sch_step. sch_step. sch_step.
  eapply wp_or_raise.
  { pose proof (vw_fixed _ _ _ _ _ _ _ _ Hv1) as Hf1. unfold requests_get, fixed in *. injection Hf1 as _ _ _ Hr1 _.
    simpl in *. rewrite Hr1. exact Hreg. }
  sch_step. sch_step. split; [done|]. exists kk'. split; [|done].
  by apply (view_unregister _ _ _ _ _ _ _ _ (request_id q)) in Hv1.
Qed.
End Leave.

(** ** Requests that are ended from outside *)

Section Finish.
Context {E : Env} {SE : SchedEnv} {max_len hash_bs : Z} {KS : KVService max_len hash_bs}.
Context (set_iter_nil : set_iter [] = []).
Implicit Types (s : Scheduler) (cov : gmap string Z) (r : req_ref) (q : Request) (P L R W : list req_ref).
Abbreviation rid s r := (request_id (obj s r)).
Abbreviation inv := (@inv E SE max_len hash_bs KS).
Abbreviation runs s r := (status (obj s r) = RUNNING).

(** Requests only change their places. *)
Lemma inv_lists s s' cov P P' :
  inv s cov P → fixed s' = fixed s → objs s' = objs s → kv s' = kv s →
  queue_ok (obj s) (policy (config_ s)) (waiting s') → queue_ok (obj s) (policy (config_ s)) (skipped_waiting s') →
  all_reqs s' P' ≡ₚ all_reqs s P → running s' ⊆ running s →
  waiting_list s' ++ skipped_list s' ++ P' ⊆ waiting_list s ++ skipped_list s ++ P →
  len (running s') ≤ max_num_running_reqs (config_ s) → inv s' cov P'.
Proof.
  intros [H1 H2 H3 H4 H5 H6 H7 Hreg Hdom Hcov Hrn Hwt H13 H14 H15] Hf Ho Hkv Hw Hk Hall Hr Hws Hlen. assert (obj s' = obj s) as Hob by (unfold obj; by rewrite Ho).
  unfold fixed in Hf. injection Hf as Hc Hcn Hec Hreq Hprev. unfold requests_get in *.
  split; rewrite ?Hob, ?Hc, ?Hcn, ?Hec, ?Hkv, ?Hall; unfold requests_get; rewrite ?Hreq; try done.
  - intros r Hin. rewrite Hall in Hin. by apply Hreg.
  - intros id r Hg. rewrite Hall. by apply Hdom.
  - intros id n Hn. destruct (Hcov id n Hn) as (r & Hr' & ?). exists r. by rewrite Hall.
  - intros r Hin. by apply Hrn, Hr.
  - intros r Hin. by apply Hwt, Hws.
Qed.

(** The requests that are found are those of the table. *)
Lemma collect_finished_ok s cov P : inv s cov P → ∀ ids n valid run wait,
  wp (collect_finished ids (valid, run, wait)) (λ res s', ∃ n',
    s' = set_num_waiting_for_streaming_input n' s ∧ ((∀ r, r ∈ all_reqs s P → resumable (obj s r) = false) → n' = n) ∧
    let L := omap (requests_get s) ids in
    res = (valid ++ L, run ∪ list_to_set (filter (λ r, runs s r) L), wait ++ filter (λ r, ¬ runs s r) L))
    (set_num_waiting_for_streaming_input n s).
Proof.
  intros Hi. induction ids as [|id ids IH]; intros n valid run wait; cbn [collect_finished].
  { sch_step. exists n. split; [done|]. split; [done|]. simpl. rewrite !app_nil_r. by rewrite union_empty_r_L. }
  sch_step. sch_step. change (requests_get (set_num_waiting_for_streaming_input n s) id) with (requests_get s id). cbn [omap list_omap].
  destruct (requests_get s id) as [r|] eqn:Hg; [|apply IH].
  change (obj (set_num_waiting_for_streaming_input n s) r) with (obj s r).
  assert (is_finished (obj s r) = false) as ->.
  { destruct (si_dom _ _ _ Hi id r Hg) as [Hin _]. unfold all_reqs in Hin. apply elem_of_app in Hin as [Hin|Hin].
    - unfold is_finished. by rewrite (ro_status _ _ (si_run _ _ _ Hi r Hin)).
    - pose proof (wo_status _ _ (si_wait _ _ _ Hi r Hin)) as Hs. unfold wait_status in Hs. unfold is_finished. by destruct (status (obj s r)). }
  cbn [filter list_filter]. case_decide as Hrun.
  - rewrite (decide_False (P := ¬ runs s r)) by tauto. eapply wp_mono; [apply (IH n)|]. intros res s' (n' & -> & Hn & ->). exists n'.
    split; [done|]. split; [done|]. simpl. rewrite <- app_assoc. by rewrite union_assoc_L.
  - rewrite (decide_True (P := ¬ runs s r)) by done.
    assert (Hgo : ∀ n1, ((∀ r, r ∈ all_reqs s P → resumable (obj s r) = false) → n1 = n) →
      wp (collect_finished ids (valid ++ [r], run, wait ++ [r]))
      (λ res s', ∃ n', s' = set_num_waiting_for_streaming_input n' s ∧ ((∀ r, r ∈ all_reqs s P → resumable (obj s r) = false) → n' = n) ∧
         res = (valid ++ r :: omap (requests_get s) ids,
                run ∪ list_to_set (filter (λ r, runs s r) (omap (requests_get s) ids)),
                wait ++ r :: filter (λ r, ¬ runs s r) (omap (requests_get s) ids)))
      (set_num_waiting_for_streaming_input n1 s)).
    { intros n1 Hn1. eapply wp_mono; [apply (IH n1)|]. intros res s' (n' & -> & Hn & ->). exists n'. rewrite <- !app_assoc.
      split_and!; [done| |done]. intros Hres. rewrite Hn by done. by apply Hn1. }
    case_decide as Hsr; sch_step; sch_step; apply Hgo; [|done]. intros Hres.
    destruct (si_dom _ _ _ Hi id r Hg) as [Hin _]. specialize (Hres r Hin). unfold all_reqs in Hin. apply elem_of_app in Hin as [Hin|Hin].
    + by destruct Hrun; apply (ro_status _ _ (si_run _ _ _ Hi r Hin)).
    + pose proof (wo_status _ _ (si_wait _ _ _ Hi r Hin)) as Hs. unfold wait_status in Hs. rewrite Hsr in Hs. destruct Hs. congruence.
Qed.

(** What is left when the requests [L] have gone. *)
Record gone s s' (st : RequestStatus) L cov' : Prop := {
  gn_inv : inv s' cov' [];
  gn_all : all_reqs s [] ≡ₚ L ++ all_reqs s' [];
  gn_running : running s' = filter (λ r, r ∉ L) (running s);
  gn_waiting : waiting_list s' ++ skipped_list s' ⊆ waiting_list s ++ skipped_list s;
  gn_obj r : r ∉ L → obj s' r = obj s r;
  gn_left r : r ∈ L → obj s' r = set_status st (obj s r) ∧ requests_get s' (rid s r) = None ∧ cov' !! rid s r = None;
  gn_none id : requests_get s id = None → requests_get s' id = None;
  gn_rest : config_ s' = config_ s ∧ prev_step_scheduled_req_ids s' = prev_step_scheduled_req_ids s ∧
            len (_spec_token_placeholders s') ≤ len (_spec_token_placeholders s);
  gn_flags : _pause_state s' = _pause_state s ∧
    ((∀ r, r ∈ all_reqs s [] → resumable (obj s r) = false) →
     num_waiting_for_streaming_input s' = num_waiting_for_streaming_input s);
  gn_finished : L = [] → finished_req_ids s' = finished_req_ids s
}.

(** Requests are being freed: [R] and [W] are left to do, those that ran and those that
    waited; [L] are free. *)
Definition held R s : Scheduler := set_running (running s ++ R) s.

Record freeing s0 s (st : RequestStatus) L R W cov : Prop := {
  fr_inv : inv (held R s) cov W;
  fr_all : all_reqs s0 [] ≡ₚ L ++ all_reqs (held R s) W;
  fr_obj r : r ∉ L → obj s r = obj s0 r;
  fr_left r : r ∈ L → obj s r = set_status st (obj s0 r) ∧ requests_get s (rid s0 r) = None ∧ cov !! rid s0 r = None;
  fr_none id : requests_get s0 id = None → requests_get s id = None;
  fr_rest : config_ s = config_ s0 ∧ prev_step_scheduled_req_ids s = prev_step_scheduled_req_ids s0 ∧
            len (_spec_token_placeholders s) ≤ len (_spec_token_placeholders s0)
}.

Lemma view_held s1 s r q R0 w k kk R : view s1 s r q R0 w k kk → view (held R s1) (held R s) r q (R0 ++ R) w k kk.
Proof. intros [? ? ? HR ? ? ? ? ?]. split; try done. simpl. by rewrite HR. Qed.

Lemma finish_one_ok s0 s st L R W cov r L' :
  freeing s0 s st L R W cov → status_is_finished st = true → R ++ W ≡ₚ r :: L' →
  wp (finish_one st r) (λ _ s', ∃ R' W' cov', freeing s0 s' st (r :: L) R' W' cov' ∧ R' ++ W' ≡ₚ L' ∧
    flags s' = flags s ∧ running s' = running s ∧ waiting_list s' = waiting_list s ∧ skipped_list s' = skipped_list s) s.
Proof.
  intros [Hi Hall Hobj Hleft Hnone (Hcfg & Hprev & Hph)] Hst HL.
  assert (r ∈ R ∨ r ∈ W) as Hr by (apply elem_of_app; rewrite HL; by left).
  assert (r ∈ all_reqs (held R s) W) as Hin by (unfold all_reqs; simpl; set_solver).
  assert (status (obj s r) ≠ WAITING_FOR_REMOTE_KVS ∧ mm_features (obj s r) = []) as [Hns Htext].
  { destruct Hr as [Hr|Hr].
    - destruct (si_run _ _ _ Hi r) as [Hs [? _ _] _ _]; [simpl; set_solver|]. change (obj (held R s)) with (obj s) in *. split; congruence.
    - destruct (si_wait _ _ _ Hi r) as [Hs [? _ _] _]; [set_solver|]. change (obj (held R s)) with (obj s) in *. split; [|done].
      unfold wait_status in Hs. intros He. by rewrite He in Hs. }
  pose proof (si_reg _ _ _ Hi r Hin) as Hreg. change (requests_get s (rid s r) = Some r) in Hreg.
  unfold finish_one. sch_step. sch_step. rewrite decide_False by done. sch_step. sch_step. sch_step. sch_step. sch_step.
  set (s1 := put_obj r _ s). assert (view s s1 r (set_status st (obj s r)) (running s) (waiting s) (skipped_waiting s) (kv s)) as Hv
    by eapply view_put, view_refl.
  eapply wp_mono; [eapply (free_request_ok set_iter_nil s s1 r (set_status st (obj s r))); try done|].
  { apply (si_conn _ _ _ Hi). }
  { apply (si_kv _ _ _ Hi). }
  intros params s2 (-> & kk' & Hv2 & Hkv). sch_step. simpl in Hv2, Hkv.
  pose proof (vw_obj _ _ _ _ _ _ _ _ Hv2) as Ho2. pose proof (vw_other _ _ _ _ _ _ _ _ Hv2) as Hoth.
  pose proof (vw_running _ _ _ _ _ _ _ _ Hv2) as HR2. pose proof (vw_fixed _ _ _ _ _ _ _ _ Hv2) as Hf.
  change (obj (unregister (rid s r) s)) with (obj s) in Hoth.
  assert (∃ R' W', R' ++ W' ≡ₚ L' ∧ R ++ W ≡ₚ r :: R' ++ W' ∧ R' ⊆ R ∧ W' ⊆ W ∧ length R' ≤ length R)%nat as (R' & W' & HL' & HRW & HsR & HsW & Hlen).
  { destruct Hr as [Hr|Hr].
    - apply list_elem_of_split in Hr as (a & b & ->). exists (a ++ b), W.
      assert (R_ : (a ++ r :: b) ++ W ≡ₚ r :: (a ++ b) ++ W) by solve_Permutation. split_and!; [|done|set_solver|done|rewrite !length_app; simpl; lia].
      rewrite R_ in HL. by apply (inj (cons r)) in HL.
    - apply list_elem_of_split in Hr as (a & b & ->). exists R, (a ++ b).
      assert (R_ : R ++ a ++ r :: b ≡ₚ r :: R ++ a ++ b) by solve_Permutation. split_and!; [|done|done|set_solver|lia].
      rewrite R_ in HL. by apply (inj (cons r)) in HL. }
  destruct (inv_leave (held R s) (held R' s2) cov W W' r Hi) as [Hi' Hall']; try done.
  { change (obj (held R' s2)) with (obj s2). by rewrite Ho2. }
  { change (kv (held R' s2)) with (kv s2). by rewrite (vw_kv _ _ _ _ _ _ _ _ Hv2). }
  { apply (vw_waiting _ _ _ _ _ _ _ _ Hv2). }
  { apply (vw_skipped _ _ _ _ _ _ _ _ Hv2). }
  { simpl. rewrite HR2, <- !app_assoc, HRW. solve_Permutation. }
  { simpl. rewrite HR2. set_solver. }
  { pose proof (si_len _ _ _ Hi) as Hl. unfold len in *. simpl in Hl |- *. rewrite HR2. rewrite !length_app in *. lia. }
  change (obj (held R s) r) with (obj s r) in Hi'.
  assert (Hk : ∀ r', order_key (obj s2 r') = order_key (obj s r')).
  { intros r'. destruct (decide (r' = r)) as [->|]; [by rewrite Ho2|by rewrite Hoth]. }
  assert (r ∉ L) as HrL.
  { intros HrL. destruct (Hleft r HrL) as (He & Hn & _). rewrite He in Hreg. simpl in Hreg. congruence. }
  assert (rid s r = rid s0 r) as Hid by by rewrite Hobj.
  exists R', W', (delete (rid s r) cov). split_and!; try done; [| |by unfold waiting_list; rewrite (vw_waiting _ _ _ _ _ _ _ _ Hv2); apply qlist_key|by unfold skipped_list; rewrite (vw_skipped _ _ _ _ _ _ _ _ Hv2); apply qlist_key].
  - split; try done.
    + etrans; [exact Hall|]. rewrite Hall'. solve_Permutation.
    + intros r' Hr'. rewrite Hoth by set_solver. apply Hobj. set_solver.
    + intros r' Hr'. apply elem_of_cons in Hr' as [->|Hr'].
      * rewrite Ho2, Hobj by done. split_and!; [done| |by rewrite <- Hid, lookup_delete_eq].
        unfold requests_get. unfold fixed in Hf. injection Hf as _ _ _ -> _. rewrite <- Hid. simpl. apply eq_None_not_Some.
        rewrite <- od_get_is_Some. by apply (od_del_nodup (rid s r)), (si_keys _ _ _ Hi).
      * destruct (Hleft r' Hr') as (He & Hn & Hc). assert (r' ≠ r) by (by intros ->). rewrite Hoth by done.
        split_and!; [done| |by rewrite lookup_delete_None; right].
        unfold requests_get. unfold fixed in Hf. injection Hf as _ _ _ -> _. by apply od_get_del_none.
    + intros id Hn. unfold requests_get. unfold fixed in Hf. injection Hf as _ _ _ -> _. apply od_get_del_none. by apply Hnone.
    + unfold fixed in Hf. injection Hf as -> _ _ _ ->. simpl. split_and!; try done.
      pose proof (vw_drafts _ _ _ _ _ _ _ _ Hv2) as Hd. simpl in Hd. lia.
  - by destruct (vw_step _ _ _ _ _ _ _ _ Hv2).
Qed.

Lemma finish_loop_ok s0 st : status_is_finished st = true → ∀ L' s L R W cov,
  freeing s0 s st L R W cov → R ++ W ≡ₚ L' →
  wp (for_ L' (finish_one st)) (λ _ s', ∃ cov', freeing s0 s' st (rev L' ++ L) [] [] cov' ∧
    (L' = [] → s' = s) ∧ flags s' = flags s ∧ running s' = running s ∧ waiting_list s' = waiting_list s ∧ skipped_list s' = skipped_list s) s.
Proof.
  intros Hst. induction L' as [|r L' IH]; intros s L R W cov Hf HL; cbn [for_ rev].
  { apply Permutation_nil_r in HL. apply app_nil in HL as [-> ->]. sch_step. by exists cov. }
  sch_step. eapply wp_mono; [by eapply finish_one_ok|]. intros [] s1 (R' & W' & cov' & Hf1 & HL1 & H0 & H1 & H2 & H3).
  eapply wp_mono; [by eapply IH|]. intros [] s2 (cov2 & Hf2 & _ & H7 & H4 & H5 & H6). exists cov2.
  rewrite <- app_assoc. split_and!; [done|done|congruence..].
Qed.

Lemma elem_of_rev (l : list req_ref) x : x ∈ rev l ↔ x ∈ l.
Proof. by rewrite !list_elem_of_In, <- in_rev. Qed.

(** The requests an argument of [finish_requests] names. *)
Definition finish_list (a : finish_ids) s : list string :=
  match a with FinishOne id => [id] | FinishSet ids => ids | FinishAll => (s_requests s).*1 end.

(** The requests of the table with these ids, those that run and those that wait. *)
Lemma found_ok s cov ids : inv s cov [] → NoDup ids →
  let L := omap (requests_get s) ids in
  NoDup L ∧ (∀ r, r ∈ L ↔ r ∈ all_reqs s [] ∧ rid s r ∈ ids) ∧ filter (λ r, runs s r) L ⊆ running s ∧
  filter (λ r, ¬ runs s r) L ⊆ waiting_list s ++ skipped_list s.
Proof.
  intros Hi Hnd L.
  assert (Hel : ∀ r, r ∈ L ↔ r ∈ all_reqs s [] ∧ rid s r ∈ ids).
  { intros r. unfold L. rewrite list_elem_of_omap. split.
    - intros (id & Hid & Hg). destruct (si_dom _ _ _ Hi id r Hg) as [? <-]. done.
    - intros [Hin Hid]. exists (rid s r). split; [done|]. by apply (si_reg _ _ _ Hi). }
  assert (Hst : ∀ r, r ∈ all_reqs s [] → (runs s r ∧ r ∈ running s) ∨ (¬ runs s r ∧ r ∈ waiting_list s ++ skipped_list s)).
  { intros r Hin. unfold all_reqs in Hin. rewrite app_nil_r in Hin. apply elem_of_app in Hin as [Hin|Hin].
    - left. by rewrite (ro_status _ _ (si_run _ _ _ Hi r Hin)).
    - right. split; [|done]. destruct (si_wait _ _ _ Hi r) as [Hs _ _]; [by rewrite app_nil_r|]. intros He. unfold wait_status in Hs. by rewrite He in Hs. }
  split_and!; [|done|..].
  - clear Hel. unfold L. induction Hnd as [|id ids Hid Hnd IH]; [constructor|]. simpl. destruct (requests_get s id) as [r|] eqn:Hg; [|done].
    constructor; [|done]. rewrite list_elem_of_omap. intros (id' & Hid' & Hg').
    destruct (si_dom _ _ _ Hi _ _ Hg) as [_ H1]. destruct (si_dom _ _ _ Hi _ _ Hg') as [_ H2]. congruence.
  - intros r [Hr Hin]%list_elem_of_filter. apply Hel in Hin as [Hin _]. destruct (Hst r Hin) as [[_ ?]|[? _]]; done.
  - intros r [Hr Hin]%list_elem_of_filter. apply Hel in Hin as [Hin _]. destruct (Hst r Hin) as [[? _]|[_ ?]]; done.
Qed.

Lemma filter_out_perm (A B : list req_ref) : NoDup A → NoDup B → B ⊆ A → filter (λ r, r ∉ B) A ++ B ≡ₚ A.
Proof.
  intros HA HB Hsub. apply NoDup_Permutation; [|done|].
  - apply NoDup_app. split_and!; [by apply NoDup_filter| |done]. intros x [Hx _]%list_elem_of_filter. done.
  - intros x. rewrite elem_of_app, list_elem_of_filter. destruct (decide (x ∈ B)); [|tauto]. split; [intros _; by apply Hsub|by right].
Qed.

(** The lists without the requests. *)
Lemma out_of_lists_ok s cov st R W s' n :
  inv s cov [] → NoDup R → NoDup W → R ⊆ running s → W ⊆ waiting_list s ++ skipped_list s →
  s' = set_running (filter (λ r, r ∉ R) (running s)) (set_num_waiting_for_streaming_input n s) →
  wp (match W with
      | [] => mret tt
      | _ => _ ← on_waiting (λ ops, remove_requests W); on_skipped (λ ops, remove_requests W)
      end) (λ _ s2, freeing s s2 st [] R W cov ∧ flags s2 = flags s' ∧ finished_req_ids s2 = finished_req_ids s' ∧ running s2 = running s' ∧
        waiting_list s2 ++ skipped_list s2 ⊆ waiting_list s ++ skipped_list s) s'.
Proof.
  intros Hi HR HW HsR HsW ->. set (s' := set_running _ _).
  pose proof (inv_nodup _ _ _ Hi) as Hnd. unfold all_reqs in Hnd. rewrite app_nil_r in Hnd. apply NoDup_app in Hnd as (Hnr & _ & Hnw).
  assert (Hgo : ∀ w k, queue_ok (obj s) (policy (config_ s)) w → queue_ok (obj s) (policy (config_ s)) k →
    qlist (obj s) w = filter (λ r, r ∉ W) (waiting_list s) → qlist (obj s) k = filter (λ r, r ∉ W) (skipped_list s) →
    freeing s (set_skipped_waiting k (set_waiting w s')) st [] R W cov ∧
      flags (set_skipped_waiting k (set_waiting w s')) = flags s' ∧
      finished_req_ids (set_skipped_waiting k (set_waiting w s')) = finished_req_ids s' ∧ running (set_skipped_waiting k (set_waiting w s')) = running s' ∧
      waiting_list (set_skipped_waiting k (set_waiting w s')) ++ skipped_list (set_skipped_waiting k (set_waiting w s')) ⊆ waiting_list s ++ skipped_list s).
  { intros w k Hw Hk Hlw Hlk. set (s2 := set_skipped_waiting k (set_waiting w s')).
    assert (waiting_list s2 ++ skipped_list s2 ++ W ≡ₚ waiting_list s ++ skipped_list s) as Hpw.
    { change (qlist (obj s) w ++ qlist (obj s) k ++ W ≡ₚ waiting_list s ++ skipped_list s).
      rewrite Hlw, Hlk, app_assoc, <- filter_app. by apply filter_out_perm. }
    assert (running s2 ++ R ≡ₚ running s) as Hpr by by apply filter_out_perm.
    assert (all_reqs (held R s2) W ≡ₚ all_reqs s []) as Hall.
    { unfold all_reqs. rewrite app_nil_r. change (waiting_list (held R s2)) with (waiting_list s2).
      change (skipped_list (held R s2)) with (skipped_list s2). rewrite Hpw. change (running (held R s2)) with (running s2 ++ R). by rewrite Hpr. }
    split_and!; [|done|done|done|].
    - split; try done.
      + eapply (inv_lists s); try done.
        * change (running (held R s2)) with (running s2 ++ R). by rewrite Hpr.
        * change (waiting_list s2 ++ skipped_list s2 ++ W ⊆ waiting_list s ++ skipped_list s ++ []). rewrite Hpw, app_nil_r. done.
        * pose proof (si_len _ _ _ Hi) as Hl. apply Permutation_length in Hpr. unfold len in *. change (running (held R s2)) with (running s2 ++ R). by rewrite Hpr.
      + intros r Hr. by apply elem_of_nil in Hr.
    - intros x Hx. rewrite <- Hpw. set_solver. }
  destruct W as [|x W].
  - sch_step. apply (Hgo (waiting s) (skipped_waiting s)); rewrite ?filter_notin_nil; try done; apply Hi.
  - sch_step. sch_step. eapply wp_removes; [apply Hi|apply (si_waiting _ _ _ Hi)|]. intros w Hw Hlw. sch_step.
    eapply wp_removes; [apply Hi|apply (si_skipped _ _ _ Hi)|]. intros k Hk Hlk. by apply Hgo.
Qed.

Lemma finish_requests_ok s cov a st :
  inv s cov [] → status_is_finished st = true → (∀ l : list string, NoDup l → str_set_iter l ≡ₚ l) →
  wp (finish_requests a st) (λ _ s', ∃ L cov', gone s s' st L cov' ∧
    ∀ r, r ∈ L ↔ r ∈ all_reqs s [] ∧ rid s r ∈ finish_list a s) s.
Proof.
  intros Hi Hst Hset. unfold finish_requests. sch_step. apply wp_assert; [done|]. sch_step. sch_step.
  set (ids := match a with FinishOne id => [id] | FinishSet ids => str_set_iter (remove_dups ids) | FinishAll => (s_requests s).*1 end).
  assert (NoDup ids ∧ ∀ id, id ∈ ids ↔ id ∈ finish_list a s) as [Hnd Hids].
  { destruct a as [id|l|]; simpl; [split; [apply NoDup_singleton|done]| |split; [apply Hi|done]].
    unfold ids. pose proof (Hset _ (NoDup_remove_dups l)) as Hp. split; [rewrite Hp; apply NoDup_remove_dups|].
    intros id. rewrite Hp. apply elem_of_remove_dups. }
  clearbody ids. sch_step.
  pose proof (collect_finished_ok s cov [] Hi ids (num_waiting_for_streaming_input s) [] ∅ []) as Hc.
  assert (set_num_waiting_for_streaming_input (num_waiting_for_streaming_input s) s = s) as Hs by by destruct s. rewrite Hs in Hc.
  eapply wp_mono; [exact Hc|]. intros [[valid run] wait] s1 (n' & -> & Hn' & [= -> -> ->]).
  rewrite union_empty_l_L. cbn [app]. destruct (found_ok s cov ids Hi Hnd) as (HL & Hel & HR & HW).
  set (L := omap (requests_get s) ids) in *. sch_step.
  pose proof (inv_nodup _ _ _ Hi) as Hnr. apply NoDup_app in Hnr as [Hnr _].
  apply wp_mono with (λ _ s2, s2 = set_running (filter (λ r, r ∉ filter (λ r, runs s r) L) (running s)) (set_num_waiting_for_streaming_input n' s)).
  { assert (∀ A : list req_ref, filter (λ r, r ∉ (list_to_set (filter (λ r, runs s r) L) : gset req_ref)) A = filter (λ r, r ∉ filter (λ r, runs s r) L) A) as Hf.
    { intros A. apply list_filter_iff. intros x. by rewrite elem_of_list_to_set. }
    case_decide as He; sch_step; [|by rewrite remove_all_filter, Hf by done].
    rewrite <- Hf, He, filter_notin_id by (intros y _; apply not_elem_of_empty). by destruct s. }
  intros [] s2 ->. sch_step.
  eapply wp_mono; [eapply (out_of_lists_ok s cov st (filter (λ r, runs s r) L) (filter (λ r, ¬ runs s r) L)); try done; by apply NoDup_filter|].
  intros [] s3 (Hfr & Hflag & Hfin & Hrun & Hwait). sch_step.
  eapply wp_mono; [eapply (finish_loop_ok s st Hst L); [exact Hfr|apply filter_app_complement]|].
  intros [] s4 (cov' & Hf4 & Hnil4 & Hflag4 & Hrun4 & Hw4 & Hk4). sch_step. exists (rev L), cov'. rewrite app_nil_r in Hf4.
  split.
  - destruct Hf4 as [Hi4 Hall4 Ho4 Hl4 Hn4 Hr4]. assert (held [] s4 = s4) as Heq by (unfold held; rewrite app_nil_r; by destruct s4).
    rewrite Heq in *. split; try done.
    + rewrite Hrun4, Hrun. simpl. erewrite filter_ext_in; [done|]. intros x Hx. simpl.
      assert (runs s x) by apply (ro_status _ _ (si_run _ _ _ Hi x Hx)). rewrite elem_of_rev, list_elem_of_filter. tauto.
    + by rewrite Hw4, Hk4.
    + rewrite Hflag in Hflag4. injection Hflag4 as -> ->. split; [done|]. intros Hres. by apply Hn'.
    + intros Hnil. rewrite Hnil4; [by rewrite Hfin|]. by rewrite <- (rev_involutive L), Hnil.
  - intros r. rewrite <- Hids, <- Hel. apply elem_of_rev.
Qed.
End Finish.
