(* ===== verification/SchedApply.v ===== *)
(** * The output of the model is applied

    [Scheduler.update_from_output] of vllm/v1/core/sched/scheduler.py after a step, for
    requests that generate text without draft tokens: it raises nothing, keeps the
    invariant, and the requests that stop leave the scheduler and the KV cache. *)

From Stdlib Require Import QArith.
From S2P Require Import Prelude Stable FreeQueue Request BlockHash BlockPool KVSpec CacheHit SingleType Coordinator KVManager KVCalls HitToSlots KVService Heap RequestQueue SchedUtils EncoderCache SpecControl SchedOutput SchedState EncoderSched Schedule SchedRequests SchedUpdate SchedFrame SchedInv SchedRun SchedWait SchedStep SchedLife SchedLeave.

#[local] Open Scope Z_scope.
#[local] Set Default Proof Using "Type*".

Lemma stable_of_wp {S A} (I : S → Prop) (m : M S A) : (∀ s, I s → wp m (λ _, I) s) → stable I m.
Proof. intros Hm s HI. specialize (Hm s HI). unfold wp in Hm. by destruct (m s) as [[] ?]. Qed.

(** ** One request *)

(** What appending output never changes of a request. *)
Definition output_core (q : Request) : Request :=
  set_block_hashes [] (set_prompt_embeds_per_block_hashes ∅ (set_all_token_ids [] (set_output_token_ids []
    (set_status WAITING (set_stop_reason None q))))).

Section OneRequest.
Context (sha256 : list bytes → bytes) (hash_function : bytes * list Z * option (list ExtraKey) → bytes).
Context (NONE_HASH : bytes) (max_len hash_bs : Z) (Hbs : 0 < hash_bs).
Implicit Types (q : Request).
Abbreviation hasher := (Some (request_block_hasher sha256 hash_function NONE_HASH hash_bs)).
Abbreviation hash_inv := (hash_inv sha256 hash_function NONE_HASH hash_bs).

Lemma hasher_quiet : quiet_hasher hasher.
Proof. intros f [= <-] q. by apply request_block_hasher_total. Qed.

Lemma frame_append c toks : stable (λ q, output_core q = c) (append_output_token_ids hasher toks).
Proof.
  apply stable_of_wp. intros q Hq. eapply wp_mono; [apply append_output_quiet, hasher_quiet|].
  intros _ q' (hs & m & ->). by rewrite <- Hq.
Qed.
Lemma frame_check_stop c n : stable (λ q, output_core q = c) (check_stop n).
Proof. unfold check_stop. stable_run; by apply stable_modify. Qed.
Lemma frame_append_loop c n todo : ∀ done, stable (λ q, output_core q = c) (append_loop hasher n done todo).
Proof.
  induction todo as [|t todo IH]; intros done; cbn [append_loop]; [auto with frame|].
  pose proof frame_append. pose proof frame_check_stop. stable_run; done.
Qed.

Definition text_hashes q : Prop := hash_inv q ∧ mm_features q = [].

(** The fields the hashes are computed from, and they. *)
Definition hash_fields q :=
  (_all_token_ids q, block_hashes q, _prompt_embeds_per_block_hashes q, mm_features q, lora_request q, cache_salt q,
   prompt_embeds q).
Lemma text_hashes_same q q' : text_hashes q → hash_fields q' = hash_fields q → text_hashes q'.
Proof.
  intros [(Hm & Hs & Hh) Ht] [= Ha Hb Hc Hf Hl Hsa Hp]. split; [|congruence].
  split_and!; [unfold memo_ok; by rewrite Hc, Hp|by rewrite Hf|]. rewrite Hb, Hh.
  assert (num_full q' hash_bs = num_full q hash_bs) as -> by (unfold num_full, num_tokens; by rewrite Ha).
  symmetry. apply hashes_upto_ext; try done. exists []. by rewrite app_nil_r.
Qed.

Lemma append_text_hashes toks : stable text_hashes (append_output_token_ids hasher toks).
Proof.
  apply stable_of_wp. intros q [Hq Ht].
  eapply wp_mono; [apply wp_stable with (I := λ q', output_core q' = output_core q); [apply frame_append|done|]|].
  { apply append_output_hashes; [done|done|]. left. by rewrite Ht. }
  intros _ q' ((_ & _ & Hq') & Hc). split; [done|]. apply (f_equal mm_features) in Hc. simpl in Hc. congruence.
Qed.
Lemma check_stop_text_hashes n : stable text_hashes (check_stop n).
Proof. unfold check_stop. stable_run; apply stable_modify; intros q Hq; by eapply text_hashes_same. Qed.
Lemma append_loop_text_hashes n todo : ∀ done, stable text_hashes (append_loop hasher n done todo).
Proof.
  induction todo as [|t todo IH]; intros done; cbn [append_loop]; [auto with frame|].
  pose proof append_text_hashes. pose proof check_stop_text_hashes. stable_run; done.
Qed.

(** A request that generates text: its hashes are those of its blocks, its limits leave
    room for the smallest output asked for, and it is below them. *)
Record served q : Prop := {
  sv_hash : text_hashes q;
  sv_params : ∃ sp, generating sp q ∧ num_prompt_tokens q + sp_min_tokens sp ≤ max_len;
  sv_tokens : num_tokens q = num_prompt_tokens q + num_output_tokens q;
  sv_room : num_output_tokens q < max_tokens q;
  sv_plain : structured_output_request q = None ∧ resumable q = false ∧ num_output_placeholders q = 0
}.

(** What the output of a step makes of it. *)
Record answered q (toks kept : list Z) (stopped : bool) q' : Prop := {
  an_core : output_core q' = output_core q;
  an_tokens : _all_token_ids q' = _all_token_ids q ++ kept;
  an_outputs : _output_token_ids q' = _output_token_ids q ++ kept;
  an_kept : cut_at_stop max_len q toks kept stopped;
  an_stop : if stopped then is_finished q' = true
            else status q' = status q ∧ num_tokens q' < max_len ∧ served q'
}.

Lemma output_ok toks q :
  served q → num_tokens q < max_len →
  wp (_update_request_with_output hasher max_len toks) (λ '(kept, stopped) q', answered q toks kept stopped q') q.
Proof.
  intros Hsv Hlen. pose proof Hsv as [Hh (sp & [Hp Hs Hmin] & Hfit) Ht Hroom Hpl].
  unfold _update_request_with_output.
  eapply wp_mono; [apply (wp_stable text_hashes); [apply append_loop_text_hashes|done|]|].
  { apply (wp_stable (λ q', output_core q' = output_core q)); [apply frame_append_loop|done|].
    apply (append_loop_spec hasher sp max_len hasher_quiet toks q [] q); try done; [unfold grown; by rewrite !app_nil_r|].
    intros l l' Hl. symmetry in Hl. by apply app_nil in Hl as [-> _]. }
  intros [kept stopped] q' (((Hg & Hout & Hrest) & Hc) & Hh').
  destruct Hg as (Ho & Ha & Hm & Hpp & Hsp). split; try done. destruct Hout as [_ Hout].
  destruct stopped; [by destruct Hout|]. destruct Hout as (Hst & Hlt & Hmm). split; [done|].
  pose proof (f_equal num_prompt_tokens Hc) as Hn. simpl in Hn.
  assert (num_tokens q' = num_prompt_tokens q' + num_output_tokens q') as Ht'.
  { unfold num_tokens, num_output_tokens in *. rewrite Ha, Ho, !len_app. lia. }
  assert (num_tokens q' < max_len) as Hl.
  { destruct (decide (sp_min_tokens sp ≤ num_output_tokens q')); [by apply Hmm|lia]. }
  split; [done|]. split; try done.
  - exists sp. split; [split; try done; lia|lia].
  - pose proof (f_equal structured_output_request Hc). pose proof (f_equal resumable Hc).
    pose proof (f_equal num_output_placeholders Hc). simpl in *. destruct Hpl as (? & ? & ?). split_and!; congruence.
Qed.

Context (hash_inj : ∀ x y, hash_function x = hash_function y → x = y).
Context (hash_not_none : ∀ x, hash_function x ≠ NONE_HASH).
Context (hash_not_empty : ∀ x, hash_function x ≠ []).

(** The hashes of a request are all different. *)
Lemma text_hashed q : text_hashes q → 0 < num_tokens q < max_len → hashed max_len hash_bs q.
Proof.
  intros [(_ & _ & Hh) _] Hn. split; [done| |]; rewrite Hh; unfold hashes_upto.
  - unfold len, num_full. rewrite length_fmap, length_seq. apply Z2Nat.id, Z.div_pos; lia.
  - apply NoDup_fmap_2_strong; [|apply NoDup_seq]. intros i j _ _ He.
    by eapply (chain_hash_blocks sha256 hash_function NONE_HASH hash_inj hash_not_none hash_not_empty q q hash_bs).
Qed.
End OneRequest.

(** ** One request of the step *)

Section Apply.
Context {E : Env} {SE : SchedEnv} {max_len hash_bs : Z} {KS : KVService max_len hash_bs}.
Context (sha256 : list bytes → bytes) (hash_function : bytes * list Z * option (list ExtraKey) → bytes).
Context (NONE_HASH : bytes) (Hbs : 0 < hash_bs).
Context (hash_inj : ∀ x y, hash_function x = hash_function y → x = y).
Context (hash_not_none : ∀ x, hash_function x ≠ NONE_HASH).
Context (hash_not_empty : ∀ x, hash_function x ≠ []).
Context (set_iter_nil : set_iter [] = []).
Implicit Types (s : Scheduler) (cov : gmap string Z) (r : req_ref) (q : Request) (v : upd_vars).
Implicit Types (w k : request_queue) (kk : KVCacheManager).
Abbreviation hasher := (Some (request_block_hasher sha256 hash_function NONE_HASH hash_bs)).
Abbreviation served := (served sha256 hash_function NONE_HASH max_len hash_bs).
Abbreviation rid s r := (request_id (obj s r)).
Abbreviation inv := (@inv E SE max_len hash_bs KS).

(** A scheduler of text models, not the asynchronous one, without draft tokens. *)
Record text_settings (c : SchedulerSettings) : Prop := {
  ts_sync : is_async_scheduler c = false;
  ts_spec : num_spec_tokens c ≤ 0;
  ts_routed : routed_experts_attn c = None;
  ts_log : s_log_stats c = true → srv_log = true
}.

(** The variables after a running request has stopped. *)
Definition stopped_vars r v : upd_vars :=
  mkUpdVars (outputs v) (u_spec_stats v) (stopped_running_reqs v ∪ {[r]}) (stopped_preempted_reqs v)
    (step_draft_tokens v) (step_accepted_tokens v).

Lemma stop_request_ok s0 s r q R w k kk cov now v :
  view s0 s r q R w k kk → text_settings (config_ s0) → connector s0 = None → requests_get s0 (request_id q) = Some r →
  is_finished q = true → resumable q = false → mm_features q = [] → serves kk cov →
  wp (stop_request hasher r RUNNING now v) (λ '(v', _, _, params) s', ∃ kk',
    view (unregister (request_id q) s0) s' r q R w k kk' ∧ serves kk' (delete (request_id q) cov) ∧
    v' = stopped_vars r v ∧ params = None) s.
Proof.
  intros Hv Hts Hcn Hreg Hfin Hres Htext Hkv.
  pose proof (vw_fixed _ _ _ _ _ _ _ _ Hv) as Hf. unfold fixed in Hf. injection Hf as Hc Hc2 Hc3 Hc4 Hc5.
  unfold stop_request, _get_routed_experts. sch_step. sch_step. sch_step. rewrite Hc, (ts_routed _ Hts). sch_step.
  sch_step. view_step. sch_step. unfold _handle_stopped_request. sch_step. view_step. rewrite Hres. cbn [negb]. sch_step.
  sch_step. eapply wp_mono; [by eapply (free_request_ok set_iter_nil)|]. intros params s1 (-> & kk' & Hv1 & Hkv1).
  sch_step. by exists kk'.
Qed.

(** What the output of a request changes of it, besides its tokens. *)
Definition told_core q : Request := set_num_nans_in_logits 0 (set_events [] (set_prefill_stats None q)).

Definition told_vars v v' : Prop :=
  stopped_running_reqs v' = stopped_running_reqs v ∧ stopped_preempted_reqs v' = stopped_preempted_reqs v ∧
  step_draft_tokens v' = step_draft_tokens v.

Lemma emit_output_ok s0 s r q R w k kk mro id toks (stopped : bool) routed reason v :
  view s0 s r q R w k kk → (id ∈ mro_prompt_logprobs mro → toks ≠ [] ∨ stopped = true) →
  wp (emit_output mro id r toks stopped None routed reason None v) (λ v' s', ∃ q',
    view s0 s' r q' R w k kk ∧ told_core q' = told_core q ∧ told_vars v v' ∧
    (toks ≠ [] → prefill_stats q' = None) ∧ (is_Some (prefill_stats q') → is_Some (prefill_stats q))) s.
Proof.
  intros Hv Hlp. unfold emit_output. sch_step.
  eapply wp_mono with (λ _ s', ∃ q', view s0 s' r q' R w k kk ∧ told_core q' = told_core q ∧ prefill_stats q' = prefill_stats q).
  { case_match; [|sch_step; by exists q]. view_step. by eexists. }
  intros [] s1 (q1 & Hv1 & Hc1 & Hp1). clear s Hv. cbn [is_Some bool_decide].
  rewrite (bool_decide_eq_false_2 (is_Some None)) by (by intros [? ?]). rewrite !orb_false_r.
  destruct (negb _ || stopped) eqn:Hgo.
  - sch_step. view_step. unfold Request.take_events. sch_step. sch_step.
    eapply wp_mono with (λ _ q2, told_core q2 = told_core q1 ∧ prefill_stats q2 = prefill_stats q1).
    { case_match; [by sch_step|]. by sch_step; sch_step; sch_step. }
    intros evs q2 [Hc2 Hp2] s2 Hv2. clear s1 Hv1. sch_step. view_step. unfold take_prefill_stats. sch_step. sch_step.
    eapply wp_mono with (λ _ q3, told_core q3 = told_core q2 ∧ prefill_stats q3 = None).
    { case_match eqn:He; [|by sch_step]. by sch_step; sch_step; sch_step. }
    intros ps q3 [Hc3 Hp3] s3 Hv3. clear s2 Hv2. sch_step. view_step. sch_step. exists q3.
    split_and!; try done; [congruence|]. intros [? Hs]. congruence.
  - apply orb_false_iff in Hgo as [Hgo ->]. apply negb_false_iff, bool_decide_eq_true in Hgo.
    sch_step. apply wp_assert.
    { apply negb_true_iff, bool_decide_eq_false. intros Hin. by destruct (Hlp Hin). }
    sch_step. exists q1. split_and!; try done. by rewrite Hp1.
Qed.

(** ** The loop *)

(** The running list without the requests that have stopped: they leave it at the end. *)
Definition trim (G : gset req_ref) s : Scheduler := set_running (filter (λ r, r ∉ G) (running s)) s.

(** What a step leaves of its requests, whether they go on or not. *)
Definition lasting q : list Z * Z * Z * Z := (spec_token_ids q, num_computed_tokens q, max_tokens q, num_prompt_tokens q).

(** The tokens the model sampled for a request. *)
Definition sampled (mro : ModelRunnerOutput) (id : string) : list Z :=
  match od_get id (mro_req_id_to_index mro), mro_sampled_token_ids mro with
  | None, _ | _, [] => []
  | Some i, l => default [] (py_get l i)
  end.

(** What the workers promise for the requests [D] of a step: a row of tokens for each, and
    log-probabilities of a prompt only together with tokens. *)
Record answers (D : list (string * Z)) (mro : ModelRunnerOutput) : Prop := {
  as_row id n : (id, n) ∈ D → ∃ i, od_get id (mro_req_id_to_index mro) = Some i ∧
    (mro_sampled_token_ids mro = [] ∨ is_Some (py_get (mro_sampled_token_ids mro) i));
  as_logprobs id n : (id, n) ∈ D → id ∈ mro_prompt_logprobs mro → sampled mro id ≠ [];
  as_pooling : mro_pooler_output mro = [];
  as_connector : mro_kv_connector_output mro = None
}.

Context (s0 : Scheduler) (cov0 : gmap string Z) (D : list (string * Z)) (mro : ModelRunnerOutput).
Context (Hi0 : inv s0 cov0 []) (HD : NoDup D.*1) (Hans : answers D mro).

(** What request [r] of [s0] has become: of the tokens sampled for it, if it is its turn,
    it has kept those up to its stop, and it is in [G] exactly if it must stop. *)
Definition told s0 q r (turn : Prop) `{!Decision turn} (G : gset req_ref) : Prop :=
  ∃ kept, cut_at_stop max_len (obj s0 r) (if decide turn then sampled mro (rid s0 r) else []) kept (bool_decide (r ∈ G)) ∧
    _output_token_ids q = _output_token_ids (obj s0 r) ++ kept.
Lemma told_turn s1 q r (P P' : Prop) `{!Decision P, !Decision P'} G : (P ↔ P') → told s1 q r P G → told s1 q r P' G.
Proof using Type. intros HP (kept & Hk & Ho). exists kept. split; [|done]. by rewrite (decide_ext P' P _ _ (symmetry HP)). Qed.

(** The requests [d] are still to be looked at. *)
Record applying (d : list (string * Z)) s cov v : Prop := {
  ap_inv : inv (trim (stopped_running_reqs v) s) cov [];
  ap_prev : prev_ok s;
  ap_ready : ready (trim (stopped_running_reqs v) s);
  ap_served r : r ∈ all_reqs (trim (stopped_running_reqs v) s) [] → served (obj s r);
  ap_settings : text_settings (config_ s);
  ap_nodup : NoDup (running s);
  ap_vars : stopped_preempted_reqs v = ∅ ∧ step_draft_tokens v = 0;
  ap_all : all_reqs s0 [] ≡ₚ elements (stopped_running_reqs v) ++ all_reqs (trim (stopped_running_reqs v) s) [];
  ap_left r : r ∈ stopped_running_reqs v → is_finished (obj s r) = true;
  ap_suffix : ∃ before, D = before ++ d;
  ap_todo id n : (id, n) ∈ d → 0 < n ∧
    (requests_get s id = None ∨ ∃ r, r ∈ running (trim (stopped_running_reqs v) s) ∧ rid s r = id);
  ap_ids r : rid s r = rid s0 r;
  ap_fresh r : r ∈ all_reqs s0 [] → rid s0 r ∈ d.*1 → obj s r = obj s0 r;
  ap_tokens r : r ∈ all_reqs s0 [] → told s0 (obj s r) r (rid s0 r ∈ D.*1 ∧ rid s0 r ∉ d.*1) (stopped_running_reqs v);
  ap_drafts : (∀ r, lasting (obj s r) = lasting (obj s0 r)) ∧
    len (_spec_token_placeholders s) ≤ len (_spec_token_placeholders s0);
  ap_config : config_ s = config_ s0 ∧ flags s = flags s0 ∧ running s = running s0;
  ap_other r : r ∉ all_reqs s0 [] → obj s r = obj s0 r;
  ap_none id : requests_get s0 id = None → requests_get s id = None
}.

Lemma trim_elem G s r : r ∈ running (trim G s) ↔ r ∈ running s ∧ r ∉ G.
Proof. simpl. rewrite list_elem_of_filter. tauto. Qed.

(** The tokens of the other requests stay as they are. *)
Lemma tokens_step id n d s cov v s' v' r q' kept :
  applying ((id, n) :: d) s cov v → r ∈ running (trim (stopped_running_reqs v) s) → rid s r = id →
  (∀ r', r' ≠ r → obj s' r' = obj s r') → obj s' r = q' →
  _output_token_ids q' = _output_token_ids (obj s r) ++ kept →
  cut_at_stop max_len (obj s r) (sampled mro id) kept (bool_decide (r ∈ stopped_running_reqs v')) →
  (∀ r', r' ≠ r → r' ∈ stopped_running_reqs v' ↔ r' ∈ stopped_running_reqs v) →
  ∀ r', r' ∈ all_reqs s0 [] →
    (rid s0 r' ∈ d.*1 → obj s' r' = obj s0 r') ∧
    told s0 (obj s' r') r' (rid s0 r' ∈ D.*1 ∧ rid s0 r' ∉ d.*1) (stopped_running_reqs v').
Proof.
  intros Ha Hr Hid Hoth Hobj Hout Hcut Hsub r' Hr'. pose proof (ap_ids _ _ _ _ Ha) as Hids.
  destruct (ap_suffix _ _ _ _ Ha) as [before Hsuf].
  assert (HDi : id ∈ D.*1) by (rewrite Hsuf, fmap_app; set_solver).
  assert (Hnd : id ∉ d.*1).
  { rewrite Hsuf, fmap_app in HD. apply NoDup_app in HD as (_ & _ & Hc). by apply NoDup_cons in Hc as [? _]. }
  assert (r ∈ all_reqs s0 []) as Hr0 by (rewrite (ap_all _ _ _ _ Ha); unfold all_reqs; set_solver).
  destruct (decide (r' = r)) as [->|Hne].
  - rewrite <- Hids, Hid. split; [done|]. exists kept. rewrite decide_True by done. rewrite <- Hids, Hid, Hobj, Hout.
    rewrite (ap_fresh _ _ _ _ Ha r) in Hcut |- * by (rewrite <- ?Hids, ?Hid; set_solver). done.
  - rewrite Hoth by done. split; [intros Hin; apply (ap_fresh _ _ _ _ Ha); set_solver|].
    assert (rid s0 r' ≠ id). { rewrite <- Hid, Hids. intros He. by apply Hne, (NoDup_rid _ _ _ _ _ Hi0). }
    assert (Hturn : rid s0 r' ∈ D.*1 ∧ rid s0 r' ∉ ((id, n) :: d).*1 ↔ rid s0 r' ∈ D.*1 ∧ rid s0 r' ∉ d.*1) by set_solver.
    destruct (told_turn _ _ _ _ _ _ Hturn (ap_tokens _ _ _ _ Ha r' Hr')) as (kept' & Hk & Ho).
    exists kept'. split; [|done]. by rewrite (bool_decide_ext _ _ (Hsub r' Hne)).
Qed.

Lemma todo_step id n d s cov v s' v' r :
  applying ((id, n) :: d) s cov v → rid s r = id → (∀ r', rid s' r' = rid s r') →
  (∀ r', r' ≠ r → r' ∈ running (trim (stopped_running_reqs v) s) → r' ∈ running (trim (stopped_running_reqs v') s')) →
  (∀ id, requests_get s id = None → requests_get s' id = None) →
  ∀ id' n', (id', n') ∈ d → 0 < n' ∧
    (requests_get s' id' = None ∨ ∃ r', r' ∈ running (trim (stopped_running_reqs v') s') ∧ rid s' r' = id').
Proof.
  intros Ha Hid Hids Hrun Hnone id' n' Hin. destruct (ap_todo _ _ _ _ Ha id' n') as [H0 Hor]; [by right|].
  split; [done|]. destruct Hor as [Hn|(r' & Hr' & Hid')]; [left; by apply Hnone|right]. exists r'. rewrite Hids. split; [|done]. apply Hrun; [|done]. intros ->.
  destruct (ap_suffix _ _ _ _ Ha) as [before Hsuf]. rewrite Hsuf, fmap_app in HD.
  apply NoDup_app in HD as (_ & _ & Hc). apply NoDup_cons in Hc as [Hn _]. apply Hn.
  simpl. rewrite <- Hid, Hid'. apply list_elem_of_fmap. by exists (id', n').
Qed.

Lemma view_trim s1 s r q R w k kk G G' :
  view s1 s r q R w k kk → view (trim G s1) (trim G' s) r q (filter (λ r, r ∉ G') R) w k kk.
Proof. intros [? ? ? HR ? ? ? ? ?]. split; try done. simpl. by rewrite HR. Qed.

Lemma drafts_step s s' r q' R w k kk :
  (∀ r, lasting (obj s r) = lasting (obj s0 r)) ∧
    len (_spec_token_placeholders s) ≤ len (_spec_token_placeholders s0) →
  view s s' r q' R w k kk → lasting q' = lasting (obj s r) →
  (∀ r, lasting (obj s' r) = lasting (obj s0 r)) ∧
    len (_spec_token_placeholders s') ≤ len (_spec_token_placeholders s0).
Proof.
  intros [Hd Hl] [? Hoth Hobj _ _ _ _ _ Hle] Hq. split; [|lia]. intros r'. rewrite <- Hd.
  destruct (decide (r' = r)) as [->|]; [by rewrite Hobj|by rewrite Hoth].
Qed.

Lemma apply_kept id n d s cov v s' v' r q' :
  applying ((id, n) :: d) s cov v → r ∈ running (trim (stopped_running_reqs v) s) → rid s r = id →
  view s s' r q' (running s) (waiting s) (skipped_waiting s) (kv s) →
  order_key q' = order_key (obj s r) → status q' = RUNNING → @plain max_len hash_bs q' → served q' →
  num_computed_tokens q' = num_computed_tokens (obj s r) → num_tokens (obj s r) ≤ num_tokens q' →
  _output_token_ids q' = _output_token_ids (obj s r) ++ sampled mro id →
  cut_at_stop max_len (obj s r) (sampled mro id) (sampled mro id) false → lasting q' = lasting (obj s r) →
  told_vars v v' → applying d s' cov v'.
Proof.
  intros Ha Hr Hid Hv Hkey Hst Hpl Hsv Hcomp Hlen Hout Hcut Hsp (Hv1 & Hv2 & Hv3). pose proof (ap_inv _ _ _ _ Ha) as Hi.
  pose proof (vw_obj _ _ _ _ _ _ _ _ Hv) as Hobj. pose proof (vw_other _ _ _ _ _ _ _ _ Hv) as Hoth.
  pose proof (vw_fixed _ _ _ _ _ _ _ _ Hv) as Hf. pose proof (vw_running _ _ _ _ _ _ _ _ Hv) as HR.
  assert (config_ s' = config_ s) as Hcfg by (unfold fixed in Hf; congruence).
  assert (Hids : ∀ r', rid s' r' = rid s r').
  { intros r'. destruct (decide (r' = r)) as [->|?]; [rewrite Hobj; unfold order_key in Hkey; congruence|by rewrite Hoth]. }
  assert (stopped_running_reqs v' = stopped_running_reqs v) as HG by done.
  destruct (si_run _ _ _ Hi r Hr) as [_ _ Hc Hl].
  destruct (inv_run_view (trim (stopped_running_reqs v) s) (trim (stopped_running_reqs v) s') cov r q') as (Hi' & Hwl & Hsl);
    [done|done|by apply view_trim|done| |].
  { change (obj (trim _ s) r) with (obj s r) in *. assert (request_id q' = rid s r) as Hq by (unfold order_key in Hkey; congruence).
    split; rewrite ?Hq, ?Hcomp; done. }
  assert (all_reqs (trim (stopped_running_reqs v) s') [] = all_reqs (trim (stopped_running_reqs v) s) []) as Hall.
  { unfold all_reqs. rewrite Hwl, Hsl. simpl. by rewrite HR. }
  assert (flags s' = flags s) as HF by by destruct (vw_step _ _ _ _ _ _ _ _ Hv).
  pose proof (tokens_step _ _ _ _ _ _ s' v' r q' _ Ha Hr Hid Hoth Hobj Hout) as Htok.
  rewrite bool_decide_eq_false_2 in Htok by (rewrite HG; by apply trim_elem in Hr as [_ ?]).
  specialize (Htok Hcut ltac:(by rewrite HG)).
  split; rewrite ?HG, ?Hall, ?Hcfg, ?HR, ?HF; try by apply Ha.
  - done.
  - intros r' Hr' Hs'. unfold fixed in Hf. injection Hf as _ _ _ _ ->. rewrite Hids.
    change (waiting_list (trim (stopped_running_reqs v) s')) with (waiting_list s') in Hwl.
    change (skipped_list (trim (stopped_running_reqs v) s')) with (skipped_list s') in Hsl. rewrite Hwl, Hsl in Hr'.
    apply (ap_prev _ _ _ _ Ha); [done|]. destruct (decide (r' = r)) as [->|]; [by rewrite Hobj, Hst in Hs'|by rewrite <- Hoth].
  - intros r' Hr'. simpl in Hr'. rewrite HR in Hr'. pose proof (ap_ready _ _ _ _ Ha r' Hr') as Hrd.
    change (obj (trim _ s') r') with (obj s' r'). change (obj (trim _ s) r') with (obj s r') in Hrd.
    destruct (decide (r' = r)) as [->|]; [|by rewrite Hoth]. rewrite Hobj. destruct Hsv as [_ _ _ _ (_ & _ & ->)].
    assert (served (obj s r)) as [_ _ _ _ (_ & _ & Hp)] by (apply (ap_served _ _ _ _ Ha); unfold all_reqs; set_solver). lia.
  - intros r' Hr'. destruct (decide (r' = r)) as [->|]; [by rewrite Hobj|]. rewrite Hoth by done. by apply Ha.
  - rewrite Hv2, Hv3. apply Ha.
  - intros r' Hr'. destruct (decide (r' = r)) as [->|]; [by apply trim_elem in Hr as [_ ?]|]. rewrite Hoth by done. by apply Ha.
  - destruct (ap_suffix _ _ _ _ Ha) as [before ->]. exists (before ++ [(id, n)]). by rewrite <- app_assoc.
  - rewrite <- HG. eapply todo_step; try done; [intros r' _; by rewrite HG, !trim_elem, HR|].
    unfold fixed, requests_get in *. by injection Hf as _ _ _ -> _.
  - intros r'. rewrite Hids. apply (ap_ids _ _ _ _ Ha).
  - intros r' Hr'. by apply Htok.
  - intros r' Hr'. rewrite <- HG. by apply Htok.
  - by eapply drafts_step; [apply (ap_drafts _ _ _ _ Ha)|..].
  - intros r' Hr'. rewrite Hoth; [by apply (ap_other _ _ _ _ Ha)|]. intros ->. apply Hr'. rewrite (ap_all _ _ _ _ Ha).
    unfold all_reqs. set_solver.
  - intros id' Hn. apply (ap_none _ _ _ _ Ha) in Hn. unfold fixed, requests_get in *. by injection Hf as _ _ _ -> _.
Qed.

Lemma apply_left id n d s cov v s' v' r q' kk kept :
  applying ((id, n) :: d) s cov v → r ∈ running (trim (stopped_running_reqs v) s) → rid s r = id →
  view (unregister id s) s' r q' (running s) (waiting s) (skipped_waiting s) kk → serves kk (delete id cov) →
  order_key q' = order_key (obj s r) → is_finished q' = true →
  _output_token_ids q' = _output_token_ids (obj s r) ++ kept → cut_at_stop max_len (obj s r) (sampled mro id) kept true → lasting q' = lasting (obj s r) →
  told_vars (stopped_vars r v) v' → applying d s' (delete id cov) v'.
Proof.
  intros Ha Hr Hid Hv Hkv Hkey Hfin Hout Hgen Hsp (Hv1 & Hv2 & Hv3). pose proof (ap_inv _ _ _ _ Ha) as Hi.
  pose proof (vw_obj _ _ _ _ _ _ _ _ Hv) as Hobj. pose proof (vw_other _ _ _ _ _ _ _ _ Hv) as Hoth.
  pose proof (vw_fixed _ _ _ _ _ _ _ _ Hv) as Hf. pose proof (vw_running _ _ _ _ _ _ _ _ Hv) as HR.
  change (obj (unregister id s)) with (obj s) in Hoth.
  assert (config_ s' = config_ s) as Hcfg by (unfold fixed in Hf; injection Hf as -> _ _ _ _; done).
  assert (Hids : ∀ r', rid s' r' = rid s r').
  { intros r'. destruct (decide (r' = r)) as [->|?]; [rewrite Hobj; unfold order_key in Hkey; congruence|by rewrite Hoth]. }
  set (G := stopped_running_reqs v) in *. assert (stopped_running_reqs v' = G ∪ {[r]}) as HG by done.
  pose proof Hr as [Hrr HrG]%trim_elem. pose proof (ap_nodup _ _ _ _ Ha) as Hnd.
  assert (running (trim G s) ≡ₚ r :: running (trim (G ∪ {[r]}) s')) as Hperm.
  { simpl. rewrite HR. apply NoDup_Permutation; [by apply NoDup_filter|constructor; [rewrite list_elem_of_filter; set_solver|by apply NoDup_filter]|].
    intros x. rewrite elem_of_cons, !list_elem_of_filter. destruct (decide (x = r)) as [->|]; set_solver. }
  destruct (inv_leave (trim G s) (trim (G ∪ {[r]}) s') cov [] [] r Hi) as [Hi' Hall]; try done.
  { change (rid (trim G s) r) with (rid s r). rewrite Hid. exact Hf. }
  { change (obj (trim (G ∪ {[r]}) s')) with (obj s'). by rewrite Hobj. }
  { change (obj (trim G s) r) with (obj s r). rewrite Hid. change (kv (trim (G ∪ {[r]}) s')) with (kv s').
    by rewrite (vw_kv _ _ _ _ _ _ _ _ Hv). }
  { apply (vw_waiting _ _ _ _ _ _ _ _ Hv). }
  { apply (vw_skipped _ _ _ _ _ _ _ _ Hv). }
  { by rewrite !app_nil_r. }
  { intros x Hx. rewrite Hperm. by right. }
  { pose proof (si_len _ _ _ Hi) as Hl. apply Permutation_length in Hperm. unfold len in *. simpl in Hl |- *. simpl in Hperm. lia. }
  change (obj (trim G s) r) with (obj s r) in Hi'. rewrite Hid in Hi'.
  assert (waiting_list s' = waiting_list s ∧ skipped_list s' = skipped_list s) as [Hwl Hsl].
  { assert (Hk : ∀ r', order_key (obj s' r') = order_key (obj s r')).
    { intros r'. destruct (decide (r' = r)) as [->|?]; [by rewrite Hobj|by rewrite Hoth]. }
    unfold waiting_list, skipped_list. rewrite (vw_waiting _ _ _ _ _ _ _ _ Hv), (vw_skipped _ _ _ _ _ _ _ _ Hv).
    split; by apply qlist_key. }
  assert (Hsub : ∀ r', r' ∈ all_reqs (trim (G ∪ {[r]}) s') [] → r' ∈ all_reqs (trim G s) [] ∧ r' ≠ r).
  { intros r' Hr'. split; [rewrite Hall; by right|]. intros ->. pose proof (inv_nodup _ _ _ Hi) as Hn. rewrite Hall in Hn.
    by apply NoDup_cons in Hn as [? _]. }
  assert (flags s' = flags s) as HF by by destruct (vw_step _ _ _ _ _ _ _ _ Hv).
  pose proof (tokens_step _ _ _ _ _ _ s' v' r q' _ Ha Hr Hid Hoth Hobj Hout) as Htok.
  rewrite bool_decide_eq_true_2 in Htok by (rewrite HG; set_solver).
  specialize (Htok Hgen ltac:(rewrite HG; fold G; set_solver)).
  split; rewrite ?HG, ?Hcfg, ?HR, ?HF; try by apply Ha.
  - done.
  - intros r' Hr' Hs'. unfold fixed in Hf. injection Hf as _ _ _ _ ->. rewrite Hids. simpl. rewrite Hwl, Hsl in Hr'.
    apply (ap_prev _ _ _ _ Ha); [done|]. rewrite <- Hoth; [done|]. intros ->.
    pose proof (inv_nodup _ _ _ Hi) as Hn. apply NoDup_app in Hn as (_ & Hd & _). apply (Hd r); [done|].
    rewrite app_nil_r. exact Hr'.
  - intros r' Hr'. destruct (Hsub r') as [_ Hne]; [unfold all_reqs; set_solver|].
    change (obj (trim _ s') r') with (obj s' r'). rewrite Hoth by done. apply (ap_ready _ _ _ _ Ha). fold G. rewrite Hperm. by right.
  - intros r' Hr'. destruct (Hsub r' Hr') as [Hin Hne]. rewrite Hoth by done. by apply (ap_served _ _ _ _ Ha).
  - destruct (ap_vars _ _ _ _ Ha). rewrite Hv2, Hv3. done.
  - rewrite (ap_all _ _ _ _ Ha). fold G. rewrite Hall, elements_disj_union by set_solver. rewrite elements_singleton.
    solve_Permutation.
  - intros r' Hr'. destruct (decide (r' = r)) as [->|Hne]; [by rewrite Hobj|]. rewrite Hoth by done.
    apply (ap_left _ _ _ _ Ha). fold G. set_solver.
  - destruct (ap_suffix _ _ _ _ Ha) as [before ->]. exists (before ++ [(id, n)]). by rewrite <- app_assoc.
  - rewrite <- HG. eapply todo_step; try done; [fold G; intros r' Hne; rewrite HG, !trim_elem, HR; set_solver|].
    intros id' Hn. unfold fixed, requests_get in *. injection Hf as _ _ _ -> _. by apply od_get_del_none.
  - intros r'. rewrite Hids. apply (ap_ids _ _ _ _ Ha).
  - intros r' Hr'. by apply Htok.
  - intros r' Hr'. rewrite <- HG. by apply Htok.
  - by eapply (drafts_step (unregister id s)); [apply (ap_drafts _ _ _ _ Ha)|..].
  - intros r' Hr'. rewrite Hoth; [by apply (ap_other _ _ _ _ Ha)|]. intros ->. apply Hr'. rewrite (ap_all _ _ _ _ Ha).
    fold G. unfold all_reqs. set_solver.
  - intros id' Hn. apply (ap_none _ _ _ _ Ha) in Hn. unfold fixed, requests_get in *. injection Hf as _ _ _ -> _. by apply od_get_del_none.
Qed.

(** What an answer and the output of a request leave of it. *)
Lemma answered_same q q1 q2 toks kept stopped :
  answered sha256 hash_function NONE_HASH max_len hash_bs q toks kept stopped q1 → told_core q2 = told_core q1 →
  order_key q2 = order_key q ∧ num_computed_tokens q2 = num_computed_tokens q ∧ mm_features q2 = mm_features q ∧
  _all_token_ids q2 = _all_token_ids q ++ kept ∧ _output_token_ids q2 = _output_token_ids q ++ kept ∧
  status q2 = status q1 ∧ num_prompt_tokens q2 = num_prompt_tokens q ∧ lasting q2 = lasting q.
Proof.
  intros [Hc Ha Ho _ _] Ht.
  pose proof (f_equal order_key Hc) as K1. pose proof (f_equal num_computed_tokens Hc). pose proof (f_equal mm_features Hc).
  pose proof (f_equal num_prompt_tokens Hc). 
  assert (lasting q1 = lasting q) as L1 by exact (f_equal lasting Hc). assert (lasting q2 = lasting q1) as L2 by exact (f_equal lasting Ht).
  pose proof (f_equal order_key Ht) as K2. pose proof (f_equal num_computed_tokens Ht). pose proof (f_equal mm_features Ht).
  pose proof (f_equal _all_token_ids Ht). pose proof (f_equal _output_token_ids Ht). pose proof (f_equal status Ht).
  pose proof (f_equal num_prompt_tokens Ht).
  unfold order_key in *. simpl in *. split_and!; congruence.
Qed.

Lemma served_told q q' : told_core q' = told_core q → served q → served q'.
Proof.
  intros Ht [Hh (sp & [Hp Hs Hm] & Hfit) Hn Hr Hpl].
  assert (hash_fields q' = hash_fields q) as Hhf.
  { pose proof (f_equal hash_fields Ht) as Hx. exact Hx. }
  pose proof (f_equal pooling_params Ht). pose proof (f_equal sampling_params Ht). pose proof (f_equal max_tokens Ht).
  pose proof (f_equal num_prompt_tokens Ht). pose proof (f_equal _output_token_ids Ht). pose proof (f_equal _all_token_ids Ht).
  pose proof (f_equal structured_output_request Ht). pose proof (f_equal resumable Ht).
  pose proof (f_equal num_output_placeholders Ht). unfold num_tokens, num_output_tokens in *. simpl in *.
  split.
  - by eapply text_hashes_same.
  - exists sp. split; [split; [congruence|congruence|lia]|lia].
  - unfold num_tokens, num_output_tokens. congruence.
  - unfold num_output_tokens. congruence.
  - destruct Hpl as (? & ? & ?). split_and!; congruence.
Qed.

Lemma served_plain q : served q → 0 < num_tokens q < max_len → prefill_stats q = None → @plain max_len hash_bs q.
Proof.
  intros [Hh _ _ _ _] Hn Hp. split; [by destruct Hh|by apply (text_hashed sha256 hash_function NONE_HASH)|]. rewrite Hp. by intros [? ?].
Qed.

(** The grammar of a request without one is not asked. *)
Lemma no_grammar s r q R w k kk s1 toks (stopped : bool) Q :
  view s1 s r q R w k kk → structured_output_request q = None →
  (∀ s', view s1 s' r q R w k kk → Q stopped s') → wp (advance_grammar r toks stopped) Q s.
Proof.
  intros Hv Hso HQ. unfold advance_grammar. destruct toks; [sch_step; by apply HQ|].
  sch_step. view_step. unfold should_advance. sch_step. sch_step. unfold Datatypes.id. rewrite Hso. sch_step.
  intros s' Hv'. sch_step. by apply HQ.
Qed.

(** The request has no new tokens. *)
Lemma update_none_ok now id n d s cov v r :
  applying ((id, n) :: d) s cov v → r ∈ running (trim (stopped_running_reqs v) s) → rid s r = id → sampled mro id = [] →
  (id ∈ mro_prompt_logprobs mro → False) →
  wp ('(new_token_ids, stopped) ←
        (if bool_decide (is_Some (pooling_params (obj s r))) && bool_decide (is_Some (None : option string)) then
           _ ← upd_req r (set_status FINISHED_STOPPED); mret ([], true)
         else mret ([], false));
      stopped ← advance_grammar r new_token_ids stopped;
      '(v, routed, finish_reason, params) ←
        (if stopped : bool then stop_request hasher r (status (obj s r)) now v else mret (v, None, None, None));
      emit_output mro id r new_token_ids stopped None routed finish_reason params v)
    (λ v' s', ∃ cov', applying d s' cov' v') s.
Proof.
  intros Ha Hr Hid Hgen Hlp. pose proof (view_refl s r) as Hv.
  assert (served (obj s r)) as Hsv by (apply (ap_served _ _ _ _ Ha); unfold all_reqs; set_solver).
  destruct (si_run _ _ _ (ap_inv _ _ _ _ Ha) r Hr) as [Hst Hpl _ _]. change (obj (trim _ s) r) with (obj s r) in *.
  rewrite (bool_decide_eq_false_2 (is_Some None)) by (by intros [? ?]). rewrite andb_false_r.
  sch_step. sch_step. sch_step. apply (no_grammar _ _ _ _ _ _ _ _ _ _ _ Hv); [by apply Hsv|]. clear Hv. intros s' Hv.
  sch_step. sch_step.
  eapply wp_mono; [eapply (emit_output_ok _ _ _ _ _ _ _ _ mro id [] false _ _ v Hv); intros Hin; by apply Hlp in Hin|].
  intros v' s2 (q' & Hv' & Hc & Hvars & _ & Hps). exists cov.
  pose proof (f_equal order_key Hc) as H1. pose proof (f_equal num_computed_tokens Hc) as H2. pose proof (f_equal status Hc) as H3.
  pose proof (f_equal _all_token_ids Hc) as H4. pose proof (f_equal _output_token_ids Hc) as H5.
  pose proof (f_equal num_prompt_tokens Hc) as H6. pose proof (f_equal block_hashes Hc) as H7. pose proof (f_equal mm_features Hc) as H8. assert (lasting q' = lasting (obj s r)) as H9 by exact (f_equal lasting Hc).
  simpl in *. eapply apply_kept; try done.
  - congruence.
  - destruct Hpl as [Htx [Ht Hh Hnd] Hs]. unfold num_tokens in *.
    split; [congruence|split; unfold num_tokens; rewrite ?H4, ?H7; done|]. unfold num_tokens. rewrite H4, H6. intros Hq. by apply Hs, Hps.
  - by eapply served_told.
  - unfold num_tokens. by rewrite H4.
  - by rewrite H5, Hgen, app_nil_r.
  - rewrite Hgen. apply cut_none.
Qed.

(** The request has new tokens. *)
Lemma update_some_ok now id n d s cov v r toks :
  applying ((id, n) :: d) s cov v → r ∈ running (trim (stopped_running_reqs v) s) → rid s r = id → sampled mro id = toks →
  toks ≠ [] →
  wp ('(new_token_ids, stopped) ← update_request_with_output hasher r toks;
      stopped ← advance_grammar r new_token_ids stopped;
      '(v, routed, finish_reason, params) ←
        (if stopped : bool then stop_request hasher r (status (obj s r)) now v else mret (v, None, None, None));
      emit_output mro id r new_token_ids stopped None routed finish_reason params v)
    (λ v' s', ∃ cov', applying d s' cov' v') s.
Proof.
  intros Ha Hr Hid Hgen Hne. pose proof (view_refl s r) as Hv. pose proof (ap_inv _ _ _ _ Ha) as Hi.
  assert (served (obj s r)) as Hsv by (apply (ap_served _ _ _ _ Ha); unfold all_reqs; set_solver).
  destruct (si_run _ _ _ Hi r Hr) as [Hst Hpl _ _]. pose proof (si_settings _ _ _ Hi) as Hset.
  pose proof (si_conn _ _ _ Hi) as Hcn. pose proof (si_kv _ _ _ Hi) as Hkv.
  assert (requests_get s (rid s r) = Some r) as Hreg by (apply (si_reg _ _ _ Hi); unfold all_reqs; set_solver).
  change (obj (trim _ s) r) with (obj s r) in *. change (config_ (trim _ s)) with (config_ s) in *.
  change (connector (trim _ s)) with (connector s) in *. change (kv (trim _ s)) with (kv s) in *.
  pose proof (ap_settings _ _ _ _ Ha) as Hts. sch_step. unfold update_request_with_output, base_update_request.
  sch_step. sch_step. rewrite (ts_sync _ Hts). sch_step. sch_step. rewrite (ps_max _ Hset). view_step.
  eapply wp_mono; [apply output_ok; [done|done|destruct Hpl as [_ [? _ _] _]; lia]|].
  intros [kept stopped] q1 Han s1 Hv1. clear Hv. pose proof Han as [Hc Htok Hout Hcut Hstop].
  assert (structured_output_request q1 = None ∧ resumable q1 = false) as [Hso Hres].
  { pose proof (f_equal structured_output_request Hc) as G1. pose proof (f_equal resumable Hc) as G2.
    destruct Hsv as [_ _ _ _ (? & ? & _)]. simpl in *. split; congruence. }
  sch_step. apply (no_grammar _ _ _ _ _ _ _ _ _ _ _ Hv1); [done|]. clear s1 Hv1. intros s1 Hv1. sch_step. destruct stopped.
  - assert (mm_features q1 = [] ∧ order_key q1 = order_key (obj s r)) as [Htx Hk1].
    { destruct (answered_same _ _ q1 _ _ _ Han eq_refl) as (? & _ & -> & _). split; [apply Hpl|done]. }
    assert (request_id q1 = id) as Hid1 by (unfold order_key in Hk1; congruence).
    rewrite Hst. eapply wp_mono; [eapply (stop_request_ok s s1 r q1); try done; by rewrite Hid1, <- Hid|].
    intros [[[v1 routed] reason] params] s2 (kk' & Hv2 & Hkv2 & -> & ->). rewrite Hid1 in *.
    eapply wp_mono; [eapply (emit_output_ok _ _ _ _ _ _ _ _ mro id kept true _ _ _ Hv2); by right|].
    intros v' s3 (q2 & Hv3 & Hc2 & Hvars & _). exists (delete id cov).
    destruct (answered_same _ _ q2 _ _ _ Han Hc2) as (Hk2 & _ & _ & _ & Ho2 & Hs2 & _ & Hsp2).
    eapply (apply_left id n d s cov v s3 v' r q2 kk' kept); try done; [|by rewrite Hgen]. unfold is_finished. rewrite Hs2. exact Hstop.
  - sch_step. destruct Hstop as (Hs1 & Hlen & Hsv1). pose proof (cut_kept _ _ _ _ Hcut). subst kept.
    eapply wp_mono; [eapply (emit_output_ok _ _ _ _ _ _ _ _ mro id toks false _ _ v Hv1); by left|].
    intros v' s2 (q2 & Hv2 & Hc2 & Hvars & Hps & _). exists cov.
    destruct (answered_same _ _ q2 _ _ _ Han Hc2) as (Hk2 & Hn2 & _ & Ha2 & Ho2 & Hs2 & _ & Hsp2).
    assert (num_tokens q2 = num_tokens q1) as Hnt by (unfold num_tokens; by rewrite Ha2, Htok).
    assert (num_tokens (obj s r) ≤ num_tokens q2) as Hle.
    { unfold num_tokens. rewrite Ha2, len_app. pose proof (len_nonneg toks). lia. }
    pose proof (served_told _ _ Hc2 Hsv1) as Hsv2. eapply apply_kept; try done.
    + congruence.
    + apply served_plain; [done| |by apply Hps]. destruct Hpl as [_ [? _ _] _]. lia.
    + by rewrite Hgen.
    + by rewrite Hgen.
Qed.

(** The request was aborted during the step. *)
Lemma apply_gone id n d s cov v : applying ((id, n) :: d) s cov v → requests_get s id = None → applying d s cov v.
Proof.
  intros Ha Hgone. pose proof Ha as [Hi Hp Hr Hsv Hset Hnd Hvars Hall Hl [before Hsuf] Htodo Hid Hfr Ht Hdr Hcf Hot Hno]. split; try done.
  - exists (before ++ [(id, n)]). by rewrite <- app_assoc.
  - intros id' n' Hin. apply Htodo. by right.
  - intros r Hin Hd. apply Hfr; [done|by right].
  - intros r Hin. destruct (Ht r Hin) as (kept & Hk & Ho). destruct (decide (rid s0 r = id)) as [He|Hne].
    + exfalso. rewrite decide_False in Hk by (rewrite He; set_solver). apply cut_nil in Hk as [_ HnG%bool_decide_eq_false].
      rewrite Hall in Hin. apply elem_of_app in Hin as [Hin%elem_of_elements|Hin]; [done|].
      pose proof (si_reg _ _ _ Hi r Hin) as Hg. change (requests_get s (rid s r) = Some r) in Hg. rewrite Hid, He in Hg. congruence.
    + eapply told_turn; [|exact (Ht r Hin)]. set_solver.
Qed.

Lemma update_one_ok (o : SchedulerOutput ConnMeta) now id n d s cov v :
  out_scheduled_spec_decode_tokens o = [] → applying ((id, n) :: d) s cov v →
  wp (update_one hasher o mro [] now v id n) (λ v' s', ∃ cov', applying d s' cov' v') s.
Proof.
  intros Hspec Ha. destruct (ap_todo _ _ _ _ Ha id n) as [Hn [Hgone|(r & Hr & Hid)]]; [by left| |].
  { unfold update_one. sch_step. apply wp_assert; [by apply Z.ltb_lt|].
    rewrite bool_decide_eq_false_2 by apply not_elem_of_nil. sch_step. sch_step. rewrite Hgone. sch_step.
    exists cov. by apply apply_gone with id n. }
  pose proof (ap_inv _ _ _ _ Ha) as Hi.
  destruct (ap_suffix _ _ _ _ Ha) as [before Hsuf].
  assert ((id, n) ∈ D) as HinD by (rewrite Hsuf; set_solver).
  destruct (as_row _ _ Hans id n HinD) as (i & Hrow & Htok). pose proof (as_logprobs _ _ Hans id n HinD) as Hlp.
  assert (requests_get s id = Some r) as Hreg.
  { rewrite <- Hid. apply (si_reg _ _ _ Hi). unfold all_reqs. set_solver. }
  destruct (si_run _ _ _ Hi r Hr) as [Hst Hpl _ _]. change (obj (trim _ s) r) with (obj s r) in *.
  unfold update_one. sch_step. apply wp_assert; [by apply Z.ltb_lt|].
  rewrite bool_decide_eq_false_2 by apply not_elem_of_nil. sch_step. sch_step. rewrite Hreg.
  unfold is_finished. rewrite Hst. change (status_is_finished RUNNING) with false. cbv iota. sch_step. eapply wp_or_raise; [exact Hrow|]. sch_step.
  apply wp_mono with (λ g s', g = sampled mro id ∧ s' = s).
  { unfold sampled. rewrite Hrow. destruct (mro_sampled_token_ids mro) as [|l0 l]; [by sch_step|].
    destruct Htok as [|[g Hg]]; [done|]. eapply wp_or_raise; [exact Hg|]. by rewrite Hg. }
  intros g ? [-> ->]. unfold account_spec. sch_step. sch_step. sch_step. rewrite Hspec. cbn [od_get fmap option_fmap option_map].
  sch_step. sch_step. sch_step. rewrite (text_only _ (pl_text _ Hpl)). sch_step. sch_step. sch_step.
  rewrite (as_pooling _ _ Hans). sch_step.
  destruct (sampled mro id) as [|t g] eqn:Hgen.
  - eapply (update_none_ok now id n d s cov v r); try done. intros Hin. by apply Hlp in Hin.
  - by eapply (update_some_ok now id n d s cov v r).
Qed.

Lemma update_loop_ok (o : SchedulerOutput ConnMeta) now : out_scheduled_spec_decode_tokens o = [] → ∀ d s cov v,
  applying d s cov v →
  wp (update_loop hasher o mro [] now d v) (λ v' s', (∃ cov', applying [] s' cov' v') ∧ (d = [] → s' = s)) s.
Proof.
  intros Hspec. induction d as [|[id n] d IH]; intros s cov v Ha; cbn [update_loop]; [sch_step; split; [by exists cov|done]|].
  sch_step. eapply wp_mono; [by eapply update_one_ok|]. intros v' s' [cov' Ha'].
  eapply wp_mono; [by eapply IH|]. by intros v2 s2 [? _].
Qed.

(** ** The whole step *)

(** What the step leaves behind: the requests in [G] are gone. *)
Record applied (G : gset req_ref) s' cov' : Prop := {
  al_inv : inv s' cov' [];
  al_prev : prev_ok s';
  al_ready : ready s';
  al_served r : r ∈ all_reqs s' [] → served (obj s' r);
  al_settings : text_settings (config_ s');
  al_all : all_reqs s0 [] ≡ₚ elements G ++ all_reqs s' [];
  al_left r : r ∈ G → is_finished (obj s' r) = true ∧ requests_get s' (rid s' r) = None ∧ cov' !! rid s' r = None;
  al_ids r : rid s' r = rid s0 r;
  al_tokens r : r ∈ all_reqs s0 [] → told s0 (obj s' r) r (rid s0 r ∈ D.*1) G;
  al_drafts : (∀ r, lasting (obj s' r) = lasting (obj s0 r)) ∧
    len (_spec_token_placeholders s') ≤ len (_spec_token_placeholders s0);
  al_config : config_ s' = config_ s0 ∧ flags s' = flags s0 ∧ running s' = filter (λ r, r ∉ G) (running s0);
  al_other r : r ∉ all_reqs s0 [] → obj s' r = obj s0 r;
  al_none id : requests_get s0 id = None → requests_get s' id = None
}.

(** Nothing that matters here has changed. *)
Definition alike s s' cov : Prop :=
  fixed s' = fixed s ∧ objs s' = objs s ∧ running s' = running s ∧ waiting s' = waiting s ∧
  skipped_waiting s' = skipped_waiting s ∧ _spec_token_placeholders s' = _spec_token_placeholders s ∧ serves (kv s') cov ∧
  flags s' = flags s ∧ finished_req_ids s' = finished_req_ids s.

Lemma applied_alike G s s' cov : applied G s cov → alike s s' cov → applied G s' cov.
Proof.
  intros [Hi Hp Hr Hsv Hset Hall Hl Hid Ht Hdr Hcf Hot Hno] (Hf & Ho & Hru & Hw & Hk & Hph & Hkv & Hfl & _).
  assert (obj s' = obj s) as Hob by (unfold obj; by rewrite Ho).
  assert (all_reqs s' [] = all_reqs s []) as Ha by (unfold all_reqs, waiting_list, skipped_list; by rewrite Hob, Hru, Hw, Hk).
  pose proof Hf as Hf'. unfold fixed in Hf'. injection Hf' as Hc Hcn Hec Hreq Hprev.
  split; rewrite ?Ha, ?Hc, ?Hfl, ?Hru; try done.
  - assert (inv (set_kv (kv s) s') cov []) as Hi'.
    { eapply inv_same; [exact Hi|done..]. }
    destruct Hi'. by split.
  - unfold prev_ok, waiting_list, skipped_list in *. by rewrite Hob, Hw, Hk, Hprev.
  - unfold ready in *. by rewrite Hru, Hob.
  - by rewrite Hob.
  - intros r Hin. rewrite Hob. unfold requests_get. rewrite Hreq. by apply Hl.
  - intros r. by rewrite Hob.
  - intros r. rewrite Hob. apply Ht.
  - by rewrite Hob, Hph.
  - by rewrite Hob.
  - unfold requests_get. by rewrite Hreq.
Qed.

Lemma applying_done s cov v :
  applying [] s cov v → applied (stopped_running_reqs v) (trim (stopped_running_reqs v) s) cov.
Proof.
  intros [Hi Hp Hr Hsv Hset Hnd Hvars Hall Hl Hsuf Htodo Hid Hfr Ht Hdr Hcf Hot Hno]. split; try done.
  - intros r Hin. split; [by apply Hl|].
    assert (∀ r', r' ∈ all_reqs (trim (stopped_running_reqs v) s) [] → rid s r' ≠ rid s r) as Hne.
    { intros r' Hr'. rewrite !Hid. intros He. apply elem_of_elements in Hin.
      pose proof (inv_nodup _ _ _ Hi0) as Hn. rewrite Hall in Hn. apply NoDup_app in Hn as (_ & Hd & _). apply (Hd r Hin).
      assert (r' = r) as <-; [|done]. eapply (NoDup_rid _ _ _ _ _ Hi0); rewrite ?Hall; set_solver. }
    split; apply eq_None_not_Some.
    + intros [r' Hg]. destruct (si_dom _ _ _ Hi _ _ Hg) as [Hr' He]. by apply (Hne r').
    + intros [n Hc]. destruct (si_cov _ _ _ Hi _ _ Hc) as (r' & Hr' & He). by apply (Hne r').
  - intros r Hin. eapply told_turn; [|exact (Ht r Hin)]. split; [tauto|]. intros ?. split; [done|apply not_elem_of_nil].
  - destruct Hcf as (? & ? & HR). split_and!; try done. simpl. by rewrite HR.
Qed.

Lemma trim_none s : trim ∅ s = s.
Proof. unfold trim. rewrite filter_notin_id by (intros y _; apply not_elem_of_empty). by destruct s. Qed.

Lemma observe_quiet s v Q : step_draft_tokens v = 0 →
  (∀ s', fixed s' = fixed s → objs s' = objs s → running s' = running s → waiting s' = waiting s →
         skipped_waiting s' = skipped_waiting s → kv s' = kv s → _spec_token_placeholders s' = _spec_token_placeholders s →
         flags s' = flags s → finished_req_ids s' = finished_req_ids s → Q tt s') → wp (observe_step v) Q s.
Proof.
  intros Hd HQ. unfold observe_step. sch_step. sch_step. destruct (spec_token_controller s) as [c|]; [|sch_step; by apply HQ].
  unfold SpecControl.observe, mbind at 1, M_bind, gets. unfold Datatypes.id. rewrite Hd. cbn [Z.leb orb].
  cbv beta iota. simpl. sch_step. sch_step. sch_step. sch_step. by apply HQ.
Qed.

(** The counters and the events. *)
Lemma make_stats_ok G s cov st ks :
  applied G s cov → wp (make_stats st ks) (λ _ s', applied G s' cov ∧ finished_req_ids s' = finished_req_ids s) s.
Proof.
  intros Ha. unfold make_stats. sch_step. sch_step. destruct (s_log_stats (config_ s)) eqn:Hlog; cbn [negb]; [|by sch_step].
  sch_step. sch_step. pose proof (si_kv _ _ _ (al_inv _ _ _ Ha)) as Hkv.
  eapply wp_mono; [by apply srv_stats|]. intros ps kk [Hkv1 Hps].
  destruct (Hps (ts_log _ (al_settings _ _ _ Ha) Hlog)) as [p ->].
  sch_step. eapply wp_or_raise; [done|]. sch_step. sch_step. sch_step.
  eapply wp_mono with (λ _ s1, alike s s1 cov ∧ kv s1 = kk).
  { case_match; sch_step; done. }
  intros [] s1 [Hs1 Hk1]. sch_step. unfold drain_metrics. sch_step. apply wp_on_block_pool. unfold wp at 1.
  rewrite <- Hk1 in Hkv1.
  destruct (metrics_collector _) as [m|] eqn:Hm; [destruct (drain_events m) as [evs m']|]; cbv beta iota; sch_step; sch_step; sch_step;
    (split; [eapply applied_alike; [exact Ha|]|by apply Hs1]); destruct Hs1 as (? & ? & ? & ? & ? & ? & ? & ? & ?); split_and!; try done; simpl.
  - by apply srv_metrics.
  - replace (set_coordinator _ _) with (kv s1); [done|]. by destruct (kv s1) as [? ? ? ? ? [] ?].
Qed.

Lemma update_from_output_ok (o : SchedulerOutput ConnMeta) now :
  out_num_scheduled_tokens o = D → out_scheduled_spec_decode_tokens o = [] →
  prev_ok s0 → ready s0 → (∀ r, r ∈ all_reqs s0 [] → served (obj s0 r)) → text_settings (config_ s0) →
  (∀ id n, (id, n) ∈ D → 0 < n ∧ (requests_get s0 id = None ∨ ∃ r, r ∈ running s0 ∧ rid s0 r = id)) →
  wp (update_from_output hasher o mro now) (λ _ s', ∃ G cov', applied G s' cov' ∧ (D = [] → finished_req_ids s' = finished_req_ids s0)) s0.
Proof.
  intros HoD Hspec Hp Hr Hsv Hset Htodo. unfold update_from_output. sch_step. sch_step. rewrite (as_connector _ _ Hans).
  cbn [mbind option_bind]. sch_step. sch_step. sch_step. sch_step. sch_step. rewrite HoD.
  eapply wp_mono; [apply (update_loop_ok o now Hspec D s0 cov0)|].
  { assert (NoDup (running s0)) as Hnd by (pose proof (inv_nodup _ _ _ Hi0) as Hn; by apply NoDup_app in Hn as [? _]).
    split; simpl; rewrite ?trim_none; try done.
    - by exists [].
    - intros id n Hin. by rewrite filter_notin_id by (intros y _; apply not_elem_of_empty); apply Htodo.
    - intros r Hin. exists []. rewrite decide_False by tauto. split; [apply cut_none|by rewrite app_nil_r]. }
  intros v s ((cov & Ha) & Hnil). sch_step. apply observe_quiet; [by apply Ha|]. intros s1 F1 F2 F3 F4 F5 F6 F7 F8 F9.
  set (G := stopped_running_reqs v). sch_step.
  apply wp_mono with (λ _ s2, alike (trim G s) s2 cov).
  { pose proof (si_kv _ _ _ (ap_inv _ _ _ _ Ha)) as Hkv. fold G. case_decide as HG.
    - sch_step. fold G in HG. rewrite HG, trim_none. split_and!; try done. by rewrite F6.
    - sch_step. fold G in HG. split_and!; try done; simpl; [by rewrite F3, remove_all_filter by apply Ha|by rewrite F6]. }
  intros [] s2 Hs2. pose proof (applied_alike _ _ _ _ (applying_done _ _ _ Ha) Hs2) as Hap. fold G in Hap.
  sch_step. rewrite decide_True by apply Ha. sch_step. sch_step. unfold fail_requests. sch_step. sch_step. sch_step.
  sch_step. sch_step. sch_step. unfold collect_events. sch_step. sch_step.
  eapply wp_mono; [apply srv_events, (si_kv _ _ _ (al_inv _ _ _ Hap))|]. intros evs kk Hkk. sch_step. sch_step.
  change (connector (set_kv kk s2)) with (connector s2). rewrite (si_conn _ _ _ (al_inv _ _ _ Hap)). sch_step. sch_step.
  sch_step. sch_step. sch_step. sch_step. eapply wp_mono; [eapply (make_stats_ok G); eapply applied_alike; [exact Hap|]|].
  { by split_and!. }
  intros st s3 [Hs3 Hfin]. sch_step. exists G, cov. split; [done|]. intros HD0. rewrite Hfin. simpl.
  destruct Hs2 as (_ & _ & _ & _ & _ & _ & _ & _ & ->). simpl. by rewrite Hnil.
Qed.
End Apply.
