(* ===== verification/SchedOrder.v ===== *)
(** * The order of the running requests

    Under first come, first served the running list is a queue of its own: a step takes
    requests only from its end, when slots run out, and puts new ones only there; what was
    scheduled stays scheduled.  The operations of a step are shown to respect any property
    of the list that both moves respect. *)

From S2P Require Import Prelude Stable FreeQueue Request BlockHash BlockPool KVSpec CacheHit SingleType Coordinator KVManager KVService Heap RequestQueue SchedUtils EncoderCache SpecControl SchedOutput SchedState EncoderSched Schedule SchedFrame.

#[local] Open Scope Z_scope.
#[local] Set Default Proof Using "Type*".

Section Order.
Context {E : Env} {SE : SchedEnv}.
Context (P : SchedulerSettings → list req_ref → Prop) (H : req_ref → Prop).

(** The running list has [P], and the requests of [H] are scheduled. *)
Definition lined s : Prop := P (config_ s) (running s).
Definition lined_run (x : Run) : Prop := lined (sch x) ∧ ∀ r, H r → r ∈ scheduled_running_reqs (loc x).

(** ** Calls that leave the list as it is *)

Lemma line_modify f : (∀ s, running (f s) = running s ∧ config_ (f s) = config_ s) → stable lined (modify f).
Proof. intros Hf. apply stable_modify. intros s. unfold lined. by destruct (Hf s) as [-> ->]. Qed.
Lemma line_upd r f : stable lined (upd_req r f).
Proof. by apply line_modify. Qed.
Lemma line_get r : stable lined (get_req r).
Proof. apply stable_gets. Qed.
Lemma line_on_req {A} r (m : M Request A) : stable lined (on_req r m).
Proof. by apply (stable_zoom _ _ _ (λ _, True)); [apply stable_true|..]. Qed.
Lemma line_kv {A} (m : M KVCacheManager A) : stable lined (on_kv m).
Proof. by apply (stable_zoom _ _ _ (λ _, True)); [apply stable_true|..]. Qed.
Lemma line_enc {A} d ed : stable lined (on_enc (A := A) d ed).
Proof. intros s Hs. unfold on_enc. by destruct (enc s) as [m|m]; [destruct (d m)|destruct (ed m)]. Qed.
Lemma line_waiting {A} op : stable lined (on_waiting (A := A) op).
Proof. intros s Hs. unfold on_waiting. by destruct (op _ _). Qed.
Lemma line_skipped {A} op : stable lined (on_skipped (A := A) op).
Proof. intros s Hs. unfold on_skipped. by destruct (op _ _). Qed.
#[local] Hint Resolve line_upd line_get line_on_req line_kv line_enc line_waiting line_skipped : frame.
#[local] Hint Extern 5 (stable lined (modify _)) => apply line_modify; intros; split; repeat case_match; reflexivity : frame.

Lemma line_assign r l : stable lined (assign_spec r l).
Proof. unfold assign_spec. stable_run. Qed.
Lemma line_truncate r k : stable lined (truncate_spec r k).
Proof. unfold truncate_spec. stable_run. Qed.
Lemma line_requests_at id : stable lined (requests_at id).
Proof. unfold requests_at. stable_run. Qed.
#[local] Hint Resolve line_assign line_truncate line_requests_at : frame.

Lemma line_sch {A} (m : M Scheduler A) : stable lined m → stable lined_run (on_sch m).
Proof. intros Hm. apply (stable_zoom _ _ _ lined); [done|by intros x [? _]|]. by intros x s' [_ ?]. Qed.
Lemma line_loc f :
  (∀ l, scheduled_running_reqs (f l) = scheduled_running_reqs l ∨
        ∃ r, scheduled_running_reqs (f l) = scheduled_running_reqs l ++ [r]) → stable lined_run (upd_loc f).
Proof.
  intros Hf. apply stable_modify. intros x [Hs Hl]. split; [done|]. intros r Hr. simpl. specialize (Hl r Hr).
  destruct (Hf (loc x)) as [-> |[r' ->]]; set_solver.
Qed.
#[local] Hint Extern 4 (stable lined_run (upd_loc _)) => apply line_loc; intros; left; reflexivity : frame.
#[local] Hint Extern 5 (stable lined_run (upd_loc _)) => apply line_loc; intros; right; eexists; reflexivity : frame.
#[local] Hint Extern 4 (stable lined_run (on_sch _)) => apply line_sch : frame.

Lemma line_encoder_loop q computed shift l : ∀ i v, stable lined (encoder_loop q computed shift l i v).
Proof.
  induction l as [|f l IH]; intros i v; cbn [encoder_loop]; [auto with frame|].
  unfold enc_check_and_update_cache, enc_can_allocate. stable_run; apply IH.
Qed.
Lemma line_try_encoder q a b d e : stable lined (_try_schedule_encoder_inputs q a b d e).
Proof. unfold _try_schedule_encoder_inputs. pose proof line_encoder_loop. stable_run. Qed.
Lemma line_enc_free q : stable lined (enc_free q).
Proof. unfold enc_free. stable_run. Qed.
Lemma line_allocate_encoder r ids : stable lined (allocate_encoder_inputs r ids).
Proof. unfold allocate_encoder_inputs, enc_allocate. stable_run. Qed.
#[local] Hint Resolve line_try_encoder line_enc_free line_allocate_encoder : frame.
Lemma line_preempt r t : stable lined (_preempt_request r t).
Proof. unfold _preempt_request. stable_run. Qed.
Lemma line_schedule_encoder r l n l' : stable lined_run (schedule_encoder_inputs r l n l').
Proof. unfold schedule_encoder_inputs. stable_run. Qed.
Lemma line_schedule_spec r n : stable lined_run (schedule_spec_tokens r n).
Proof. unfold schedule_spec_tokens. stable_run. Qed.
#[local] Hint Resolve line_preempt line_schedule_encoder line_schedule_spec : frame.

(** ** The running requests: some leave from the end *)

Section Running.
Context (Hpop : ∀ c l, P c l → policy c = FCFS ∧ P c (take (length l - 1) l)).

Lemma line_victim : stable lined_run take_victim.
Proof.
  intros x [Hs Hl]. unfold take_victim, mbind at 1, M_bind, gets. cbn [fst snd].
  destruct (Hpop _ _ Hs) as [Hf Hp]. rewrite decide_False by by rewrite Hf.
  destruct (last (running (sch x))); by split.
Qed.
#[local] Hint Resolve line_victim : frame.
Lemma line_allocate fuel r n t : stable lined_run (allocate_or_preempt fuel r n t).
Proof. induction fuel as [|fuel IH]; cbn [allocate_or_preempt]; stable_run. Qed.
#[local] Hint Resolve line_allocate : frame.
Lemma line_running_one k t : stable lined_run (schedule_running_one k t).
Proof. unfold schedule_running_one. stable_run. Qed.
#[local] Hint Resolve line_running_one : frame.
Lemma line_running_loop fuel k t : stable lined_run (running_loop fuel k t).
Proof. induction fuel as [|fuel IH]; cbn [running_loop]; stable_run. Qed.
End Running.

(** ** The waiting requests: some join at the end *)

Lemma line_on_queue {A} w op : stable lined (on_queue (A := A) w op).
Proof. unfold on_queue. stable_run. Qed.
#[local] Hint Resolve line_on_queue : frame.
Lemma line_select : stable lined _select_waiting_queue_for_scheduling.
Proof. unfold _select_waiting_queue_for_scheduling. stable_run. Qed.
Lemma line_remote r : stable lined (_update_waiting_for_remote_kv r).
Proof. unfold _update_waiting_for_remote_kv. stable_run. Qed.
#[local] Hint Resolve line_select line_remote : frame.
Lemma line_promote r : stable lined (_try_promote_blocked_waiting_request r).
Proof. unfold _try_promote_blocked_waiting_request. stable_run. Qed.
Lemma line_skip w r : stable lined_run (skip_request w r).
Proof. unfold skip_request. stable_run. Qed.
Lemma line_first_stats r a b : stable lined (set_first_prefill_stats r a b).
Proof. unfold set_first_prefill_stats. stable_run. Qed.
#[local] Hint Resolve line_promote line_skip line_first_stats : frame.
Lemma line_cached r : stable lined (cached_tokens r).
Proof. unfold cached_tokens. stable_run. Qed.
Lemma line_waiting_tokens r a b d : stable lined_run (waiting_num_new_tokens r a b d).
Proof. unfold waiting_num_new_tokens. stable_run. Qed.
Lemma line_untouch r : stable lined (untouch_encoder r).
Proof. unfold untouch_encoder. stable_run. Qed.
Lemma line_tell r a b d : stable lined (tell_connector r a b d).
Proof. unfold tell_connector. stable_run. Qed.
Lemma line_embeds q ids : stable lined_run (sum_encoder_embeds q ids).
Proof. unfold sum_encoder_embeds. stable_run. Qed.
#[local] Hint Resolve line_cached line_waiting_tokens line_untouch line_tell line_embeds : frame.
Lemma line_collect_loras : stable lined_run collect_loras.
Proof. unfold collect_loras. stable_run. Qed.

Section Waiting.
Context (Hpush : ∀ c l r, P c l → P c (l ++ [r])).

Lemma line_push r : stable lined (modify (λ s, set_running (running s ++ [r]) s)).
Proof. apply stable_modify. intros s. apply Hpush. Qed.
#[local] Hint Resolve line_push | 1 : frame.
Lemma line_start w r n m l b l' t : stable lined_run (start_request w r n m l b l' t).
Proof. unfold start_request. stable_run. Qed.
#[local] Hint Resolve line_start : frame.
Lemma line_give w r b a e y m q h l n nb l' t : stable lined_run (give_blocks w r b a e y m q h l n nb l' t).
Proof. unfold give_blocks. stable_run. Qed.
#[local] Hint Resolve line_give : frame.
Lemma line_ready w r t : stable lined_run (schedule_ready_request w r t).
Proof. unfold schedule_ready_request. stable_run. Qed.
#[local] Hint Resolve line_ready : frame.
Lemma line_waiting_one t : stable lined_run (schedule_waiting_one t).
Proof. unfold schedule_waiting_one. stable_run. Qed.
#[local] Hint Resolve line_waiting_one : frame.
Lemma line_waiting_loop fuel t : stable lined_run (waiting_loop fuel t).
Proof. induction fuel as [|fuel IH]; cbn [waiting_loop]; stable_run. Qed.
#[local] Hint Resolve line_waiting_loop : frame.
Lemma line_schedule_waiting t : stable lined_run (schedule_waiting t).
Proof. unfold schedule_waiting. stable_run. Qed.
End Waiting.
End Order.
