(* ===== verification/SchedProgress.v ===== *)
(** * Every step makes progress

    First come, first served, with room for one request of the greatest length: the oldest
    running request keeps its place and is given tokens in every step, and when none runs
    one of those that wait is started. *)

From S2P Require Import Prelude Stable FreeQueue Request BlockHash BlockPool KVSpec CacheHit SingleType Coordinator KVManager KVService Heap RequestQueue SchedUtils EncoderCache SpecControl SchedOutput SchedState EncoderSched Schedule SchedFrame SchedInv SchedRun SchedWait SchedStep SchedLife SchedOrder.

#[local] Open Scope Z_scope.
#[local] Set Default Proof Using "Type*".

Lemma wp_conj {S A} (m : M S A) Q1 Q2 s : wp m Q1 s → wp m Q2 s → wp m (λ a s', Q1 a s' ∧ Q2 a s') s.
Proof. unfold wp. by destruct (m s) as [[] ?]. Qed.

Section Progress.
Context {E : Env} {SE : SchedEnv} {max_len hash_bs : Z} {KS : KVService max_len hash_bs}.
Context (set_iter_perm : ∀ l : list Z, NoDup l → set_iter l ≡ₚ l).
Implicit Types (s : Scheduler) (cov : gmap string Z) (r h : req_ref) (q : Request) (x : Run).
Abbreviation rid s r := (request_id (obj s r)).
Abbreviation computed s r := (num_computed_tokens (obj s r)).
Abbreviation scheduled l := (scheduled_running_reqs l).
Abbreviation inv := (@inv E SE max_len hash_bs KS).
Abbreviation run_inv := (@run_inv E SE max_len hash_bs KS).
Abbreviation wait_inv := (@wait_inv E SE max_len hash_bs KS).

(** Every running request has tokens to compute. *)
Definition hungry s : Prop := ∀ r, r ∈ running s → computed s r < num_tokens (obj s r).

(** A scheduler that lets requests run to their end. *)
Record eager s : Prop := {
  eg_ample : srv_ample = true;
  eg_fcfs : policy (config_ s) = FCFS;
  eg_open : _pause_state s = UNPAUSED;
  eg_budget : 0 < max_num_scheduled_tokens (config_ s);
  eg_slots : 0 < max_num_running_reqs (config_ s);
  eg_chunks : chunks (max_len := max_len) (config_ s) (max_num_scheduled_tokens (config_ s))
}.
Definition simple s : Prop :=
  ∀ r, r ∈ all_reqs s [] → ordinary (obj s r) ∧ num_output_placeholders (obj s r) = 0.

Lemma only_runners s cov : inv s cov [] → simple s → runners_hold s cov.
Proof.
  intros Hi Hsm id n Hn. destruct (si_cov _ _ _ Hi id n Hn) as (r & Hr & Hid). exists r. split; [|done].
  pose proof Hr as Hr'. unfold all_reqs in Hr'. apply elem_of_app in Hr' as [|Hw]; [done|].
  destruct (Hsm r Hr) as [[_ Hres] _]. destruct (wo_cov _ _ (si_wait _ _ _ Hi r Hw)) as [[Hc _]|[Hc _]]; congruence.
Qed.

Lemma eager_budget s : eager s → step_budget s = max_num_scheduled_tokens (config_ s).
Proof. intros He. unfold step_budget. by rewrite decide_False by by rewrite (eg_open _ He). Qed.

(** The oldest running request keeps its place and is scheduled. *)
Lemma loops_head s cov ts h :
  idle (max_len := max_len) s cov → eager s → simple s → hungry s → head (running s) = Some h →
  wp (both_loops ts) (λ _ x, head (running (sch x)) = Some h ∧ h ∈ scheduled (loc x)) (mkRun s (first_step s)).
Proof.
  intros [Hi Hp Hr Hd] He Hsm Hh Hhd. unfold both_loops. sch_step. sch_step. sch_step. sch_step. sch_step.
  eapply wp_mono; [by eapply srv_new_step, si_kv|]. intros [] kk ->. cbn [sch loc set_sch].
  replace (set_kv (kv s) s) with s by by destruct s. sch_step.
  pose proof (drafts_steady set_iter_perm s Hd) as Hst. set (x0 := mkRun s (first_step s)).
  pose proof (start_run_inv set_iter_perm s cov Hi Hp Hr) as Hri. fold x0 in Hri.
  set (P1 := λ (c : SchedulerSettings) (l : list req_ref), policy c = FCFS ∧ l `prefix_of` running s).
  assert (Hpop : ∀ c l, P1 c l → policy c = FCFS ∧ P1 c (take (length l - 1) l)).
  { intros c l [Hc Hl]. split; [done|]. split; [done|]. etrans; [apply prefix_take|done]. }
  assert (steady_run (is_async_scheduler (config_ s)) (λ r, core (is_async_scheduler (config_ s)) (obj s r))
            (num_spec_tokens (config_ s)) x0) as Hst0 by by split.
  assert (0 < step_budget s) as HB by (rewrite eager_budget by done; apply He).
  assert (0 < len (running s)) as Hlen by (destruct (running s); [done|unfold len; simpl; lia]).
  assert (leads x0 cov h) as Hlead.
  { assert (h ∈ running s) as Hin by (destruct (running s); [done|injection Hhd as ->; by left]).
    split_and!; [apply He|apply He|done|done|by apply only_runners|by apply Hh|apply Hsm; by eapply run_elem]. }
  apply wp_mono with (λ _ x, (∃ cov', run_inv s x cov' (step_limits s)) ∧ head (running (sch x)) = Some h ∧ h ∈ scheduled (loc x)).
  { cbn [running_loop]. sch_step. sch_step. unfold Datatypes.id.
    change (req_index (loc x0)) with 0. change (token_budget (loc x0)) with (step_budget s). change (running (sch x0)) with (running s).
    rewrite !(proj2 (Z.ltb_lt _ _)) by done. cbn [andb]. sch_step.
    eapply wp_mono; [eapply (wp_stable (lined_run P1 (λ _, False)));
      [by apply line_running_one|split; [split; [apply He|done]|done]|
       eapply wp_stable; [apply frame_running_one|exact Hst0|
         eapply (schedule_running_one_ok (iter_nil set_iter_perm) s x0 cov (step_limits s)); done]]|].
    intros f x1 (((cov1 & Hri1 & Hl1 & Hnext) & Hst1) & [HP _]). destruct (Hnext h Hlead) as [-> Hin].
    eapply wp_mono; [eapply (wp_stable (lined_run P1 (λ r, r = h)));
      [by apply line_running_loop|split; [done|by intros ? ->]|
       eapply (running_loop_ok (iter_nil set_iter_perm) s (step_limits s)); [exact Hri1|exact Hst1|]]|].
    { specialize (Hl1 eq_refl). simpl in Hl1. unfold len in *. lia. }
    intros [] x2 ((cov2 & Hri2) & [_ Hpre] & Hin2). specialize (Hin2 h eq_refl). split; [by exists cov2|]. split; [|done].
    apply (ri_sub _ _ _ _ Hri2) in Hin2. apply subseteq_take in Hin2. destruct (running (sch x2)) as [|y l]; [by apply elem_of_nil in Hin2|].
    destruct Hpre as [k Hk]. rewrite Hk in Hhd. done. }
  intros [] x1 ((cov1 & Hri1) & Hhd1 & Hin1). unfold collect_loras. sch_step. sch_step. sch_step. unfold Datatypes.id.
  rewrite (ps_loras _ (si_settings _ _ _ (ri_inv _ _ _ _ Hri1))). sch_step.
  set (P2 := λ (c : SchedulerSettings) (l : list req_ref), head l = Some h).
  eapply wp_mono; [eapply (wp_stable (lined_run P2 (λ r, r = h)));
    [apply line_schedule_waiting|split; [exact Hhd1|by intros ? ->]|by eapply schedule_waiting_ok]|].
  { intros c l r. unfold P2. by destruct l. }
  intros [] x2 (_ & Hhd2 & Hin2). split; [exact Hhd2|by apply Hin2].
Qed.

(** When no request runs, one of those that wait is started. *)
Lemma waiting_starts s0 x cov B ts :
  wait_inv s0 x cov B → opens x cov → _pause_state (sch x) = UNPAUSED → 0 < token_budget (loc x) →
  waiting_list (sch x) ≠ [] ∨ skipped_list (sch x) ≠ [] →
  wp (schedule_waiting ts) (λ _ x', running (sch x') ≠ []) x.
Proof.
  intros Hwi Hop Hun Hb Hne. pose proof (wi_inv _ _ _ _ Hwi) as Hi. unfold schedule_waiting. sch_step. sch_step. unfold Datatypes.id.
  rewrite !bool_decide_eq_true_2 by (done || apply Hwi). cbn [andb]. sch_step.
  set (P := λ (c : SchedulerSettings) (l : list req_ref), l ≠ []).
  assert (Hpush : ∀ c l r, P c l → P c (l ++ [r])) by (intros c l r _; unfold P; by destruct l).
  eapply wp_mono with (λ _ x', (∃ cov', wait_inv s0 x' cov' B) ∧ lined_run P (λ _, False) x').
  2: { intros [] x' [[cov' Hwi'] Hl]. eapply wp_mono; [eapply (wp_stable (lined_run P (λ _, False)));
         [|exact Hl|by eapply put_back_ok]|by intros [] x2 [_ [? _]]].
       apply stable_bind; [apply stable_gets|]. intros y. case_match; [apply line_sch, line_skipped|apply stable_ret]. }
  cbn [waiting_loop]. sch_step. sch_step. unfold Datatypes.id.
  rewrite !(queue_nonempty_ok (sch x) cov (aside x)) by (done || by eapply si_waiting || by eapply si_skipped).
  fold (waiting_list (sch x)) (skipped_list (sch x)).
  replace (_ || _) with true by (symmetry; apply orb_true_iff; rewrite !bool_decide_eq_true; done).
  rewrite (proj2 (Z.ltb_lt _ _) Hb). cbn [andb]. sch_step.
  eapply wp_mono; [by eapply schedule_waiting_one_ok|]. intros f x1 (cov1 & Hwi1 & Hlt & Hrun). specialize (Hrun Hop).
  assert (lined_run P (λ _, False) x1) as Hl1 by by split.
  destruct f; [|sch_step; split; [by exists cov1|done]].
  eapply wp_mono; [eapply (wp_stable (lined_run P (λ _, False))); [by apply line_waiting_loop|exact Hl1|
    eapply waiting_loop_ok; [exact Hwi1|]]|done].
  specialize (Hlt eq_refl). unfold queue_size, left_to_do in *.
  rewrite !(queue_len_ok (obj (sch x)) (si_obj _ _ _ Hi) (policy (config_ (sch x)))) by (by eapply si_waiting || by eapply si_skipped).
  fold (waiting_list (sch x)) (skipped_list (sch x)). unfold len. lia.
Qed.

Lemma loops_start s cov ts :
  idle (max_len := max_len) s cov → eager s → simple s → running s = [] → all_reqs s [] ≠ [] →
  wp (both_loops ts) (λ _ x, running (sch x) ≠ []) (mkRun s (first_step s)).
Proof.
  intros [Hi Hp Hr Hd] He Hsm Hnil Hne. unfold both_loops. sch_step. sch_step. sch_step. sch_step. sch_step.
  eapply wp_mono; [by eapply srv_new_step, si_kv|]. intros [] kk ->. cbn [sch loc set_sch].
  replace (set_kv (kv s) s) with s by by destruct s. sch_step. set (x0 := mkRun s (first_step s)). change (set_sch s x0) with x0.
  pose proof (start_run_inv set_iter_perm s cov Hi Hp Hr) as Hri. fold x0 in Hri.
  cbn [running_loop]. sch_step. sch_step. unfold Datatypes.id. change (running (sch x0)) with (running s).
  change (req_index (loc x0) <? len (running s)) with (0 <? len (running s)). rewrite Hnil. change (0 <? len []) with false. cbn [andb]. sch_step.
  unfold collect_loras. sch_step. sch_step. sch_step. unfold Datatypes.id.
  rewrite (ps_loras _ (si_settings _ _ _ (ri_inv _ _ _ _ Hri))). sch_step.
  eapply waiting_starts; [exact (wait_of_run _ _ _ _ Hri eq_refl)| |apply He| |].
  - split_and!; [apply He|done| |apply He| |].
    + apply map_empty. intros id. apply eq_None_not_Some. intros [n Hn].
      destruct (only_runners s cov Hi Hsm id n Hn) as (r & Hin & _). rewrite Hnil in Hin. by apply elem_of_nil in Hin.
    + change (token_budget (loc x0)) with (step_budget s). rewrite eager_budget by done. apply He.
    + intros r Hin. apply Hsm. unfold all_reqs. rewrite app_nil_r. apply elem_of_app. by right.
  - change (token_budget (loc x0)) with (step_budget s). rewrite eager_budget by done. apply He.
  - change (sch x0) with s. unfold all_reqs in Hne. rewrite Hnil, app_nil_r in Hne. simpl in Hne.
    destruct (waiting_list s); [by right|by left].
Qed.

(** ** Whole steps *)

Lemma schedule_head s cov ts h :
  idle (max_len := max_len) s cov → eager s → simple s → hungry s → head (running s) = Some h →
  ∃ o s' cov', schedule ts s = (Ok o, s') ∧ step_done s s' cov' o ∧ head (running s') = Some h ∧
    rid s' h ∈ (out_num_scheduled_tokens o).*1 ∧ computed s h < computed s' h.
Proof.
  intros Hid He Hsm Hh Hhd. pose proof Hid as [Hi Hp Hr Hd].
  destruct (schedule_after set_iter_perm (λ x, (head (running (sch x)) = Some h ∧ h ∈ scheduled (loc x)) ∧ ∃ cov', step_inv s x cov' (step_limits s))
    s cov ts Hi Hp Hr Hd) as (o & s' & cov' & x & Hrun & Hdone & ((Hx1 & Hx2) & cx & Hsp) & Ho & HR & Hids).
  { eapply wp_conj; [by eapply loops_head|]. eapply wp_mono; [by eapply (both_loops_ok set_iter_perm)|]. by intros ?? [? _]. }
  assert (rid s' h ∈ (out_num_scheduled_tokens o).*1) as Hin.
  { rewrite Ho, Hids, (tb_keys _ _ _ _ _ (sp_tables _ _ _ _ Hsp)). apply list_elem_of_fmap. exists h. split; [done|]. unfold chosen. set_solver. }
  exists o, s', cov'. rewrite HR. split_and!; try done.
  assert (∀ l : list req_ref, head l = Some h → h ∈ l) as Hhl by (intros [|y l] [= ->]; by left).
  rewrite (sd_keep _ _ _ _ Hdone h); [|by rewrite HR; apply Hhl|by apply Hhl].
  pose proof Hin as [n Hn]%od_get_is_Some. rewrite Hn. simpl.
  apply list_elem_of_fmap in Hin as ([id m] & He' & Hm). simpl in He'. destruct (sd_slots _ _ _ _ Hdone _ _ Hm) as (_ & _ & _ & H0 & _).
  apply od_get_elem in Hm; [|apply Hdone]. rewrite <- He' in Hm. assert (m = n) as -> by congruence. lia.
Qed.

Lemma schedule_start s cov ts :
  idle (max_len := max_len) s cov → eager s → simple s → running s = [] → all_reqs s [] ≠ [] →
  ∃ o s', schedule ts s = (Ok o, s') ∧ running s' ≠ [].
Proof.
  intros Hid He Hsm Hnil Hne. pose proof Hid as [Hi Hp Hr Hd].
  destruct (schedule_after set_iter_perm (λ x, running (sch x) ≠ []) s cov ts Hi Hp Hr Hd) as (o & s' & cov' & x & Hrun & _ & Hx & _ & HR & _);
    [by eapply loops_start|]. exists o, s'. by rewrite HR.
Qed.
End Progress.
