(* ===== verification/EngineSafe.v ===== *)
(** * The engine serves its requests

    The calls of vllm/v1/engine/core.py on the scheduler, in any order: requests arrive and
    are aborted, steps are scheduled, run and applied.  For the synchronous scheduler of a
    text model without draft tokens, nothing ever raises, and the scheduler and the KV
    cache stay in step. *)

From Stdlib Require Import QArith.
From S2P Require Import Prelude FreeQueue Request BlockHash BlockPool KVSpec CacheHit SingleType Coordinator KVManager KVCalls HitToSlots KVService Heap RequestQueue SchedUtils EncoderCache SpecControl SchedOutput SchedState EncoderSched Schedule SchedRequests SchedUpdate EngineCore SchedFrame SchedInv SchedRun SchedWait SchedStep SchedLife SchedLeave SchedApply.

#[local] Open Scope Z_scope.
#[local] Set Default Proof Using "Type*".

Lemma wp_bind_inv {S A B} (m : M S A) (k : A → M S B) Q s : wp (m ≫= k) Q s → wp m (λ a s', wp (k a) Q s') s.
Proof. unfold wp, mbind, M_bind. by destruct (m s) as [[] ?]. Qed.
Lemma wp_with_run {S A} (m : M S A) Q s : wp m Q s → wp m (λ a s', Q a s' ∧ m s = (Ok a, s')) s.
Proof. unfold wp. by destruct (m s) as [[] ?]. Qed.

Section Serving.
Context {E : Env} {SE : SchedEnv} {max_len hash_bs : Z} {KS : KVService max_len hash_bs}.
Context (sha256 : list bytes → bytes) (hash_function : bytes * list Z * option (list ExtraKey) → bytes).
Context (NONE_HASH : bytes) (Hbs : 0 < hash_bs).
Context (hash_inj : ∀ x y, hash_function x = hash_function y → x = y).
Context (hash_not_none : ∀ x, hash_function x ≠ NONE_HASH).
Context (hash_not_empty : ∀ x, hash_function x ≠ []).
Context (set_iter_perm : ∀ l : list Z, NoDup l → set_iter l ≡ₚ l).
Context (str_set_iter_perm : ∀ l : list string, NoDup l → str_set_iter l ≡ₚ l).
Implicit Types (s : Scheduler) (cov : gmap string Z) (r : req_ref) (q : Request).
Abbreviation hasher := (Some (request_block_hasher sha256 hash_function NONE_HASH hash_bs)).
Abbreviation served := (served sha256 hash_function NONE_HASH max_len hash_bs).
Abbreviation rid s r := (request_id (obj s r)).

(** The state between two calls. *)
Record serving s cov : Prop := {
  sg_idle : idle (max_len := max_len) s cov;
  sg_served r : r ∈ all_reqs s [] → served (obj s r);
  sg_settings : text_settings (config_ s)
}.

(** ** The calls on the scheduler *)

(** Fields a step changes do not matter for being served. *)
Lemma served_core q q' : core false q' = core false q → served q → served q'.
Proof.
  intros Hc [Hh (sp & [Hp Hs Hm] & Hfit) Hn Hr Hpl].
  assert (hash_fields q' = hash_fields q) as Hhf by exact (f_equal hash_fields Hc).
  pose proof (f_equal pooling_params Hc). pose proof (f_equal sampling_params Hc). pose proof (f_equal max_tokens Hc).
  pose proof (f_equal num_prompt_tokens Hc). pose proof (f_equal _output_token_ids Hc). pose proof (f_equal _all_token_ids Hc).
  pose proof (f_equal structured_output_request Hc). pose proof (f_equal resumable Hc).
  pose proof (f_equal num_output_placeholders Hc). unfold num_tokens, num_output_tokens in *. simpl in *.
  split.
  - by eapply text_hashes_same.
  - exists sp. split; [split; [congruence|congruence|lia]|lia].
  - unfold num_tokens, num_output_tokens. congruence.
  - unfold num_output_tokens. congruence.
  - destruct Hpl as (? & ? & ?). split_and!; congruence.
Qed.

Lemma schedule_serving s cov ts :
  serving s cov →
  wp (schedule ts) (λ o s', ∃ cov', serving s' cov' ∧ step_done s s' cov' o ∧ (∀ r, core false (obj s' r) = core false (obj s r)) ∧
    schedule ts s = (Ok o, s')) s.
Proof.
  intros [[Hi Hp Hr Hd] Hsv Hset]. destruct (schedule_done set_iter_perm s cov ts Hi Hp Hr Hd) as (o & s' & cov' & Hrun & Hdone).
  pose proof (drafts_steady set_iter_perm s Hd) as Hst. apply (frame_schedule _ _ _ ts) in Hst. rewrite Hrun in Hst. simpl in Hst.
  unfold wp. rewrite Hrun. exists cov'.
  pose proof (sd_config _ _ _ _ Hdone) as Hcfg. destruct Hst as (Hcore & Hph & _). rewrite (ts_sync _ Hset) in Hcore.
  split; [|split; [done|split; [intros r; by destruct (Hcore r)|done]]].
  assert (Hsv' : ∀ r, r ∈ all_reqs s' [] → served (obj s' r)).
  { intros r Hin. eapply served_core; [apply Hcore|]. apply Hsv. by rewrite <- (sd_all _ _ _ _ Hdone). }
  split; [split|done|by rewrite Hcfg].
  - apply Hdone.
  - apply Hdone.
  - intros r Hin. pose proof (sd_ready _ _ _ _ Hdone r Hin) as Hw. pose proof (ts_spec _ Hset).
    destruct (Hsv' r) as [_ _ _ _ (_ & _ & Hz)]; [unfold all_reqs; set_solver|]. unfold within in Hw. lia.
  - unfold drafts_ok. rewrite Hcfg. split; [|done]. intros r. apply Hcore.
Qed.

Lemma finish_serving s cov a st :
  serving s cov → status_is_finished st = true →
  wp (finish_requests a st) (λ _ s', ∃ L cov', serving s' cov' ∧ gone s s' st L cov' ∧
    ∀ r, r ∈ L ↔ r ∈ all_reqs s [] ∧ rid s r ∈ finish_list a s) s.
Proof using Type set_iter_perm str_set_iter_perm.
  intros [[Hi Hp Hr Hd] Hsv Hset] Hst.
  eapply wp_mono; [by eapply (finish_requests_ok (iter_nil set_iter_perm) s cov a st Hi Hst)|].
  intros _ s' (L & cov' & Hg & HL). exists L, cov'. split; [|done].
  pose proof Hg as [Gi Ga Gr Gw Go Gl Gn (Gc & Gp & Gd)].
  pose proof (inv_nodup _ _ _ Hi) as Hnd. rewrite Ga in Hnd. apply NoDup_app in Hnd as (_ & Hdis & _).
  assert (Hout : ∀ r, r ∈ all_reqs s' [] → r ∉ L) by (intros r Hr1 Hr2; by apply (Hdis r)).
  assert (Hin : ∀ r, r ∈ running s' ∨ r ∈ waiting_list s' ++ skipped_list s' → r ∈ all_reqs s' []).
  { intros r. unfold all_reqs. rewrite app_nil_r. intros [?|?]; apply elem_of_app; [by left|by right]. }
  split; [split| |by rewrite Gc].
  - done.
  - intros r Hr1 Hs. rewrite Gp. rewrite Go in * by auto. apply Hp; [by apply Gw|done].
  - intros r Hr1. rewrite Go by auto. apply Hr. rewrite Gr in Hr1. by apply list_elem_of_filter in Hr1 as [_ ?].
  - destruct Hd as [Hd1 Hd2]. unfold drafts_ok. rewrite Gc. split; [|lia]. intros r. destruct (decide (r ∈ L)) as [HrL|HrL].
    + destruct (Gl r HrL) as [-> _]. apply Hd1.
    + rewrite Go by done. apply Hd1.
  - intros r Hr1. rewrite Go by auto. apply Hsv. rewrite Ga. apply elem_of_app. by right.
Qed.

Lemma update_serving s cov (o : SchedulerOutput ConnMeta) mro now :
  serving s cov → NoDup (out_num_scheduled_tokens o).*1 → answers (out_num_scheduled_tokens o) mro →
  out_scheduled_spec_decode_tokens o = [] →
  (∀ id n, (id, n) ∈ out_num_scheduled_tokens o → 0 < n ∧
     (requests_get s id = None ∨ ∃ r, r ∈ running s ∧ rid s r = id)) →
  wp (update_from_output hasher o mro now) (λ _ s', ∃ G cov', serving s' cov' ∧
    applied sha256 hash_function NONE_HASH s (out_num_scheduled_tokens o) mro G s' cov' ∧
    (out_num_scheduled_tokens o = [] → finished_req_ids s' = finished_req_ids s)) s.
Proof.
  intros [[Hi Hp Hr Hd] Hsv Hset] Hnd Hans Hspec Htodo.
  eapply wp_mono; [eapply (update_from_output_ok sha256 hash_function NONE_HASH Hbs hash_inj hash_not_none hash_not_empty
    (iter_nil set_iter_perm) s cov _ mro Hi Hnd Hans o now eq_refl Hspec Hp Hr Hsv Hset Htodo)|].
  intros _ s' (G & cov' & Ha & Hfin). exists G, cov'. split; [|done]. destruct Ha as [A1 A2 A3 A4 A5 _ _ _ _ [D1 D2] [A6 _]].
  split; [split|done|done]; try done. destruct Hd as [Hd1 Hd2]. unfold drafts_ok. rewrite A6. split; [|lia]. intros r. specialize (D1 r). unfold lasting in D1. injection D1 as -> _ _ _. apply Hd1.
Qed.

Lemma add_serving s cov q now :
  serving s cov → arriving (max_len := max_len) (hash_bs := hash_bs) s q → served q →
  wp (SchedRequests.add_request hasher q now) (λ _ s', serving s' cov ∧ all_reqs s' [] ≡ₚ object_id q :: all_reqs s []) s.
Proof.
  intros [Hid Hsv Hset] Har Hq. eapply wp_mono; [by apply add_request_ok|].
  intros [] s' ([Hid' Hall] & Hcfg & Hoth & Hnew). split; [|done]. split; [done| |by rewrite Hcfg].
  intros r Hr. rewrite Hall in Hr. destruct (decide (r = object_id q)) as [->|Hne].
  - eapply served_core; [|exact Hq]. exact (f_equal (core false) Hnew).
  - rewrite Hoth by done. apply Hsv. set_solver.
Qed.
End Serving.

(** ** The engine *)

Section Engine.
Context {E : Env} {SE : SchedEnv} {XE : ExecEnv} {max_len hash_bs : Z} {KS : KVService max_len hash_bs}.
Context (sha256 : list bytes → bytes) (hash_function : bytes * list Z * option (list ExtraKey) → bytes).
Context (NONE_HASH : bytes) (Hbs : 0 < hash_bs).
Context (hash_inj : ∀ x y, hash_function x = hash_function y → x = y).
Context (hash_not_none : ∀ x, hash_function x ≠ NONE_HASH).
Context (hash_not_empty : ∀ x, hash_function x ≠ []).
Context (set_iter_perm : ∀ l : list Z, NoDup l → set_iter l ≡ₚ l).
Context (str_set_iter_perm : ∀ l : list string, NoDup l → str_set_iter l ≡ₚ l).
Implicit Types (e : EngineCore) (s : Scheduler) (cov : gmap string Z) (r : req_ref) (q : Request).
Abbreviation hasher := (Some (request_block_hasher sha256 hash_function NONE_HASH hash_bs)).
Abbreviation served := (served sha256 hash_function NONE_HASH max_len hash_bs).
Abbreviation serving := (serving sha256 hash_function NONE_HASH).
Abbreviation rid s r := (request_id (obj s r)).

(** A call of the executor: the model is run on the batch, and sampled when that is a
    call of its own. *)
Definition run_model (o : SchedulerOutput ConnMeta) (grammar : option (list string * string)) : M Exec ModelRunnerOutput :=
  f ← execute_model o;
  m ← future_result f;
  match m with
  | Some m => mret m
  | None => f ← sample_tokens grammar; m ← future_result f; or_raise AttributeError m
  end.

(** What the workers promise: they answer for every request of a batch. *)
Context (workers_answer : ∀ o g x, wp (run_model o g) (λ m _, answers (out_num_scheduled_tokens o) m) x).

Lemma wp_on_scheduler {A} (m : M Scheduler A) Q e :
  wp m (λ a s, Q a (set_scheduler s e)) (scheduler e) → wp (on_scheduler m) Q e.
Proof using Type. apply wp_zoom. Qed.

(** A call that raises nothing is logged nowhere. *)
Lemma wp_log_error {A} (m : M EngineCore A) Q e : wp m Q e → wp (log_error_detail m) Q e.
Proof using Type. unfold wp, log_error_detail. by destruct (m e) as [[] ?]. Qed.

(** The executor is asked for the output while the scheduler rests. *)
Lemma on_executor_ok {A} (m : M Exec A) Q e :
  wp m (λ a x, Q a (set_model_executor x e)) (model_executor e) → wp (on_executor m) Q e.
Proof using Type. apply wp_zoom. Qed.

Lemma model_output_ok (Q : ModelRunnerOutput → Prop) f g e :
  wp (m ← future_result f;
      match m with
      | Some m => mret m
      | None => f ← sample_tokens g; m ← future_result f; or_raise AttributeError m
      end) (λ m _, Q m) (model_executor e) →
  wp (model_output f g) (λ m e', Q m ∧ ∃ x, e' = set_model_executor x e) e.
Proof.
  intros Hm. apply wp_log_error. apply wp_bind_inv in Hm. sch_step. apply on_executor_ok.
  eapply wp_mono; [exact Hm|]. clear Hm. intros [m|] x Hm; [sch_step; split; [exact Hm|by eexists]|].
  apply wp_bind_inv in Hm. sch_step. apply on_executor_ok. eapply wp_mono; [exact Hm|]. clear Hm. intros f' x' Hm. simpl in Hm.
  apply wp_bind_inv in Hm. sch_step. apply on_executor_ok. eapply wp_mono; [exact Hm|]. clear Hm. intros [m|] x2 Hm; [|done].
  split; [exact Hm|]. by eexists.
Qed.

Lemma process_aborts_ok e cov :
  serving (scheduler e) cov →
  wp _process_aborts_queue (λ _ e', ∃ L cov' s', e' = set_aborts_queue [] (set_scheduler s' e) ∧ serving s' cov' ∧
    gone (scheduler e) s' FINISHED_ABORTED L cov' ∧
    ∀ r, r ∈ L ↔ r ∈ all_reqs (scheduler e) [] ∧ rid (scheduler e) r ∈ concat (aborts_queue e)) e.
Proof.
  intros Hs. unfold _process_aborts_queue. sch_step. sch_step. destruct (aborts_queue e) as [|ids qs] eqn:Hq.
  - sch_step. exists [], cov, (scheduler e). split_and!; [|done| |].
    + destruct e. simpl in Hq. by subst.
    + pose proof (sg_idle _ _ _ _ _ Hs) as [Hi _ _ _].
      split; try done; try (intros r Hr; by apply elem_of_nil in Hr).
      by rewrite filter_notin_nil.
    + intros r. simpl. split; [intros Hr; by apply elem_of_nil in Hr|intros [_ Hr]; by apply elem_of_nil in Hr].
  - sch_step. sch_step. unfold abort_requests. sch_step. apply wp_on_scheduler.
    eapply wp_mono; [by eapply (finish_serving sha256 hash_function NONE_HASH set_iter_perm str_set_iter_perm)|]. intros _ s' (L & cov' & Hs' & Hg & HL). sch_step.
    by exists L, cov', s'.
Qed.

(** What a step does to the requests: [D] are those of the batch, [L] were aborted while the
    model ran, [G] have finished. *)
Record stepped s s' (D : list (string * Z)) (mro : ModelRunnerOutput) (late : list string) (L : list req_ref)
    (G : gset req_ref) cov' : Prop := {
  sp_all : all_reqs s [] ≡ₚ L ++ elements G ++ all_reqs s' [];
  sp_aborted r : r ∈ all_reqs s [] → r ∈ L ↔ rid s r ∈ late;
  sp_gone r : r ∈ L ∨ r ∈ G → is_finished (obj s' r) = true ∧ requests_get s' (rid s r) = None ∧ cov' !! rid s r = None;
  sp_tokens r : r ∈ all_reqs s [] → ∃ kept,
    cut_at_stop max_len (obj s r) (if decide (r ∉ L ∧ rid s r ∈ D.*1) then sampled mro (rid s r) else []) kept (bool_decide (r ∈ G)) ∧
    _output_token_ids (obj s' r) = _output_token_ids (obj s r) ++ kept
}.

(** The three parts of a step. *)
Lemma stepped_ok s s1 s2 s3 (o : SchedulerOutput ConnMeta) mro late L G cov1 cov2 cov3 :
  step_done s s1 cov1 o → (∀ r, core false (obj s1 r) = core false (obj s r)) →
  gone s1 s2 FINISHED_ABORTED L cov2 → (∀ r, r ∈ L ↔ r ∈ all_reqs s1 [] ∧ rid s1 r ∈ late) →
  applied sha256 hash_function NONE_HASH s2 (out_num_scheduled_tokens o) mro G s3 cov3 →
  stepped s s3 (out_num_scheduled_tokens o) mro late L G cov3.
Proof.
  intros Hdone Hcore Hg HL Ha. pose proof (sd_all _ _ _ _ Hdone) as Hall1.
  assert (Hid1 : ∀ r, rid s1 r = rid s r) by (intros r; exact (f_equal request_id (Hcore r))).
  assert (Hout1 : ∀ r, _output_token_ids (obj s1 r) = _output_token_ids (obj s r)) by (intros r; exact (f_equal _output_token_ids (Hcore r))).
  assert (Hid2 : ∀ r, rid s2 r = rid s1 r).
  { intros r. destruct (decide (r ∈ L)) as [HrL|HrL]; [by destruct (gn_left _ _ _ _ _ Hg r HrL) as [-> _]|by rewrite (gn_obj _ _ _ _ _ Hg)]. }
  assert (Hdis : ∀ r, r ∈ L → r ∉ all_reqs s2 []).
  { pose proof (inv_nodup _ _ _ (sd_inv _ _ _ _ Hdone)) as Hn. rewrite (gn_all _ _ _ _ _ Hg) in Hn. by apply NoDup_app in Hn as (_ & ? & _). }
  split.
  - by rewrite <- Hall1, (gn_all _ _ _ _ _ Hg), (al_all _ _ _ _ _ _ _ _ _ Ha).
  - intros r Hr. rewrite <- Hid1, HL, Hall1. tauto.
  - intros r [HrL|HrG].
    + destruct (gn_left _ _ _ _ _ Hg r HrL) as (Ho & Hn & _). rewrite (al_other _ _ _ _ _ _ _ _ _ Ha) by auto. rewrite Ho. split; [done|].
      rewrite Hid1 in Hn. apply (al_none _ _ _ _ _ _ _ _ _ Ha) in Hn. split; [done|]. apply eq_None_not_Some. intros [n Hc].
      pose proof (al_inv _ _ _ _ _ _ _ _ _ Ha) as Hi. destruct (si_cov _ _ _ Hi _ _ Hc) as (r' & Hr' & He).
      pose proof (si_reg _ _ _ Hi r' Hr') as Hg'. rewrite He in Hg'. congruence.
    + destruct (al_left _ _ _ _ _ _ _ _ _ Ha r HrG) as (? & ? & ?). by rewrite (al_ids _ _ _ _ _ _ _ _ _ Ha), Hid2, Hid1 in *.
  - intros r Hr. destruct (decide (r ∈ L)) as [HrL|HrL].
    + exists []. rewrite decide_False, bool_decide_eq_false_2 by (try tauto; intros HG; apply (Hdis r HrL);
        rewrite (al_all _ _ _ _ _ _ _ _ _ Ha); set_solver).
      split; [apply cut_none|]. rewrite (al_other _ _ _ _ _ _ _ _ _ Ha) by auto.
      destruct (gn_left _ _ _ _ _ Hg r HrL) as (-> & _). simpl. by rewrite Hout1, app_nil_r.
    + assert (r ∈ all_reqs s2 []) as Hr2.
      { rewrite <- Hall1, (gn_all _ _ _ _ _ Hg) in Hr. set_solver. }
      destruct (al_tokens _ _ _ _ _ _ _ _ _ Ha r Hr2) as (kept & Hk & Ho). exists kept.
      rewrite Hid2, Hid1 in Hk. rewrite (gn_obj _ _ _ _ _ Hg) in Hk, Ho by done. rewrite Hout1 in Ho. split; [|done].
      rewrite (decide_ext (r ∉ L ∧ rid s r ∈ (out_num_scheduled_tokens o).*1) (rid s r ∈ (out_num_scheduled_tokens o).*1)) by tauto. revert Hk. apply cut_same.
      * symmetry. exact (f_equal sampling_params (Hcore r)).
      * symmetry. exact (f_equal max_tokens (Hcore r)).
      * symmetry. exact (f_equal num_tokens (Hcore r)).
      * by rewrite Hout1.
Qed.

(** The parts of a step: the batch is scheduled, the model runs, requests that were
    aborted meanwhile go, the output is applied. *)
Record parts s ts (late : list string) s' cov' (o : SchedulerOutput ConnMeta) mro (L : list req_ref) (G : gset req_ref) s1 s2 cov1 cov2 : Prop := {
  pt_schedule : schedule ts s = (Ok o, s1);
  pt_done : step_done s s1 cov1 o;
  pt_core r : core false (obj s1 r) = core false (obj s r);
  pt_model : ∃ g x x', run_model o g x = (Ok mro, x');
  pt_gone : gone s1 s2 FINISHED_ABORTED L cov2;
  pt_late r : r ∈ L ↔ r ∈ all_reqs s1 [] ∧ rid s1 r ∈ late;
  pt_applied : applied (max_len := max_len) (hash_bs := hash_bs) sha256 hash_function NONE_HASH s2 (out_num_scheduled_tokens o) mro G s' cov';
  pt_quiet : out_num_scheduled_tokens o = [] → finished_req_ids s' = finished_req_ids s2
}.

Lemma step_ok e cov ts now late :
  serving (scheduler e) cov →
  wp (step hasher ts now late) (λ res e', ∃ cov' s' x,
    e' = mkEngineCore (engine_settings e) s' x (if has_requests (scheduler e) then [] else aborts_queue e ++ late) (batch_queue e) ∧
    serving s' cov' ∧
    if has_requests (scheduler e) then
      ∃ o mro L G s1 s2 cov1 cov2, answers (out_num_scheduled_tokens o) mro ∧
        parts (scheduler e) ts (concat (aborts_queue e ++ late)) s' cov' o mro L G s1 s2 cov1 cov2 ∧
        res.2 = (0 <? sumZ (out_num_scheduled_tokens o).*2)
    else s' = scheduler e ∧ res = ([], false)) e.
Proof.
  intros Hs. unfold step. sch_step. sch_step. destruct (has_requests (scheduler e)) eqn:Hhas; cbn [negb].
  2: { unfold aborts_arrive. sch_step. sch_step. sch_step. exists cov, (scheduler e), (model_executor e). by destruct e. }
  sch_step. apply wp_on_scheduler. eapply wp_mono; [by eapply (schedule_serving sha256 hash_function NONE_HASH Hbs hash_inj hash_not_none hash_not_empty set_iter_perm str_set_iter_perm)|]. intros o s1 (cov1 & Hs1 & Hdone & Hcore & Hsched).
  set (e1 := set_scheduler s1 e). set (g := get_grammar_bitmask o s1).
  pose proof (wp_with_run _ _ _ (workers_answer o g (model_executor e))) as Hrun.
  eapply (wp_mono _ _ (λ m _, answers (out_num_scheduled_tokens o) m ∧ ∃ x', run_model o g (model_executor e) = (Ok m, x'))) in Hrun; [|by intros m x' [? ?]; eauto].
  apply wp_bind_inv in Hrun.
  sch_step. apply on_executor_ok. eapply wp_mono; [exact Hrun|]. clear Hrun. intros f x1 Hrun. sch_step. sch_step. cbv beta.
  change (get_grammar_bitmask o (scheduler (set_model_executor x1 e1))) with g.
  sch_step. eapply wp_mono; [eapply (model_output_ok (λ m, answers (out_num_scheduled_tokens o) m ∧ ∃ x', run_model o g (model_executor e) = (Ok m, x')) f g); exact Hrun|].
  intros m ? ((Hans & x' & Hmodel) & x2 & ->). unfold aborts_arrive. sch_step. sch_step. sch_step.
  set (e2 := set_aborts_queue _ _). assert (scheduler e2 = s1) as He2 by done.
  eapply wp_mono; [apply (process_aborts_ok e2 cov1); by rewrite He2|]. intros [] ? (L & cov2 & s2 & -> & Hs2 & Hg & HL).
  rewrite He2 in Hg, HL. sch_step. apply wp_on_scheduler. simpl scheduler.
  eapply wp_mono; [eapply (update_serving sha256 hash_function NONE_HASH Hbs hash_inj hash_not_none hash_not_empty set_iter_perm str_set_iter_perm s2 cov2 o m now); try done|].
  { apply Hdone. }
  { apply Hdone. apply sg_settings in Hs. apply Hs. }
  { intros id n Hin. destruct (sd_slots _ _ _ _ Hdone id n Hin) as (r & Hr & Hid & Hn & _). split; [done|].
    destruct (decide (r ∈ L)) as [HrL|HrL]; [left; rewrite <- Hid; by apply (gn_left _ _ _ _ _ Hg)|right].
    exists r. rewrite (gn_running _ _ _ _ _ Hg), (gn_obj _ _ _ _ _ Hg) by done. split; [by apply list_elem_of_filter|done]. }
  intros [outs evs] s3 (G & cov3 & Hs3 & Hap & Hquiet). sch_step. exists cov3, s3, x2. split_and!; [done|done|].
  exists o, m, L, G, s1, s2, cov1, cov2. split_and!; [done| |simpl; by destruct (sd_total _ _ _ _ Hdone) as [-> _]].
  split; try done. by exists g, (model_executor e), x'.
Qed.

(** ** Any sequence of calls *)

Inductive engine_call :=
  | AddCall (q : Request) (now : Z)
  | AbortCall (ids : list string)
  | StepCall (timestamp now : Z) (late : list (list string)).

Definition run_engine_call (c : engine_call) : M EngineCore unit :=
  match c with
  | AddCall q now => engine_add_request hasher q now
  | AbortCall ids => abort_requests ids
  | StepCall timestamp now late => _ ← step hasher timestamp now late; mret tt
  end.

(** The requests that are added are new and can be served; aborts may name any request. *)
Definition legal_call e (c : engine_call) : Prop :=
  match c with
  | AddCall q _ => arriving (max_len := max_len) (hash_bs := hash_bs) (scheduler e) q ∧ served q
  | _ => True
  end.
Fixpoint legal_calls (l : list engine_call) e : Prop :=
  match l with
  | [] => True
  | c :: l => legal_call e c ∧ legal_calls l (run_engine_call c e).2
  end.

Lemma call_ok e cov c :
  serving (scheduler e) cov → legal_call e c → wp (run_engine_call c) (λ _ e', ∃ cov', serving (scheduler e') cov') e.
Proof.
  intros Hs Hl. destruct c as [q now|ids|ts now late]; cbn [run_engine_call].
  - destruct Hl as [Har Hq]. unfold engine_add_request. sch_step. destruct Hq as [Hh (sp & Hg & Hfit) Hn Hr Hpl] eqn:Hq'.
    rewrite (gen_pooling _ _ Hg). sch_step. apply wp_on_scheduler.
    eapply wp_mono; [by eapply (add_serving sha256 hash_function NONE_HASH Hbs hash_inj hash_not_none hash_not_empty set_iter_perm str_set_iter_perm)|].
    intros [] s' [Hs' _]. by exists cov.
  - unfold abort_requests. sch_step. apply wp_on_scheduler.
    eapply wp_mono; [by eapply (finish_serving sha256 hash_function NONE_HASH set_iter_perm str_set_iter_perm)|].
    intros _ s' (L & cov' & Hs' & _). sch_step. by exists cov'.
  - sch_step. eapply wp_mono; [by eapply step_ok|]. intros res e' (cov' & s' & x & -> & Hs' & _). sch_step. by exists cov'.
Qed.

Lemma calls_ok l : ∀ e cov, serving (scheduler e) cov → legal_calls l e →
  ∃ e' cov', for_ l run_engine_call e = (Ok tt, e') ∧ serving (scheduler e') cov'.
Proof.
  induction l as [|c l IH]; intros e cov Hs Hl; [by exists e, cov|]. destruct Hl as [Hc Hl].
  pose proof (call_ok e cov c Hs Hc) as Hrun. apply wp_run in Hrun as ([] & e1 & Hrun & cov1 & Hs1). rewrite Hrun in Hl.
  destruct (IH e1 cov1 Hs1 Hl) as (e2 & cov2 & Hrest & Hs2). exists e2, cov2. split; [|done].
  cbn [for_]. unfold mbind, M_bind. by rewrite Hrun.
Qed.
End Engine.

(** ** Theorems *)

Section Claims.
Context {E : Env} {SE : SchedEnv} {XE : ExecEnv} {max_len hash_bs : Z} {KS : KVService max_len hash_bs}.
Context (sha256 : list bytes → bytes) (hash_function : bytes * list Z * option (list ExtraKey) → bytes).
Context (NONE_HASH : bytes) (hash_bs_pos : 0 < hash_bs).
Context (hash_inj : ∀ x y, hash_function x = hash_function y → x = y).
Context (hash_not_none : ∀ x, hash_function x ≠ NONE_HASH).
Context (hash_not_empty : ∀ x, hash_function x ≠ []).
Context (set_iter_perm : ∀ l : list Z, NoDup l → set_iter l ≡ₚ l).
Context (str_set_iter_perm : ∀ l : list string, NoDup l → str_set_iter l ≡ₚ l).
Context (workers_answer : ∀ o g x, wp (run_model o g) (λ m _, answers (out_num_scheduled_tokens o) m) x).
Abbreviation hasher := (Some (request_block_hasher sha256 hash_function NONE_HASH hash_bs)).
Abbreviation served := (served sha256 hash_function NONE_HASH max_len hash_bs).
Abbreviation serving := (serving sha256 hash_function NONE_HASH).
Abbreviation rid s r := (request_id (obj s r)).

Lemma init_serving vc kc bs mm finished log s :
  scheduler_init false vc kc bs (Some hash_bs) mm None None finished log = Ok s → plain_config (max_len := max_len) vc kc →
  c_speculative vc = None → c_enable_return_routed_experts vc = false → (log = true → srv_log = true) →
  serves (kv s) ∅ → serving s ∅.
Proof using Type.
  intros Hinit Hpc Hspec Hre Hlog Hkv. pose proof (init_idle _ _ _ _ _ _ _ _ _ Hinit Hpc Hkv) as Hid.
  assert (∃ p, running s = [] ∧ waiting s = create_request_queue p ∧ skipped_waiting s = create_request_queue p ∧
    text_settings (config_ s)) as (p & Hrun & Hw & Hk & Hset).
  { unfold scheduler_init in Hinit. cbn [bool_decide andb] in Hinit. destruct (negb _); [done|]. destruct (policy_of _) as [p|]; [|done].
    destruct (_ && negb _); [done|]. rewrite Hspec, Hre in Hinit. destruct (kv_cache_manager_init _ _ _ _ _ _ _ _ _ _ _); [|done].
    injection Hinit as <-. exists p. by split_and!. }
  assert (all_reqs s [] = []) as Hall.
  { destruct (create_queue_ok (obj s) p) as [_ Hq]. unfold all_reqs, waiting_list, skipped_list. by rewrite Hrun, Hw, Hk, Hq. }
  split; [done| |done]. intros r Hr. rewrite Hall in Hr. by apply elem_of_nil in Hr.
Qed.

(** C1: The engine never raises.  The setting: the synchronous scheduler, of either policy
    and with any number of blocks, without drafts, LoRA, structured output or connectors
    ([plain_config]); a KV-cache manager that serves ([KVService], which managers with one
    group of attention layers do); a hash function without collisions; workers that answer
    for each request of a batch.  Start the engine and let clients add text requests that are
    new (their ids are not in use) and within the limits, abort any requests, also while the
    model runs, and the loop make steps, in any order.  Then no call raises; afterwards every
    request that is registered is in
    exactly one of the running list and the queues, and is below its limits, with the hashes
    of its blocks; and a request that is not registered holds no KV-cache slots. *)
Theorem engine_never_raises vc kc bs mm finished log s settings x calls :
  scheduler_init false vc kc bs (Some hash_bs) mm None None finished log = Ok s →
  plain_config (max_len := max_len) vc kc → c_speculative vc = None → c_enable_return_routed_experts vc = false →
  (log = true → srv_log = true) → serves (kv s) ∅ →
  legal_calls (max_len := max_len) (hash_bs := hash_bs) sha256 hash_function NONE_HASH calls (engine_init settings s x) →
  ∃ e cov, for_ calls (run_engine_call (hash_bs := hash_bs) sha256 hash_function NONE_HASH) (engine_init settings s x) = (Ok tt, e) ∧
    serving (scheduler e) cov ∧
    NoDup ((λ r, rid (scheduler e) r) <$> all_reqs (scheduler e) []) ∧
    (∀ id r, requests_get (scheduler e) id = Some r ↔ r ∈ all_reqs (scheduler e) [] ∧ rid (scheduler e) r = id) ∧
    (∀ r, r ∈ all_reqs (scheduler e) [] → served (obj (scheduler e) r)) ∧
    (∀ id, requests_get (scheduler e) id = None → cov !! id = None).
Proof.
  intros Hinit Hpc Hspec Hre Hlog Hkv Hl. pose proof (init_serving _ _ _ _ _ _ _ Hinit Hpc Hspec Hre Hlog Hkv) as Hs.
  destruct (calls_ok sha256 hash_function NONE_HASH hash_bs_pos hash_inj hash_not_none hash_not_empty set_iter_perm str_set_iter_perm
    workers_answer calls (engine_init settings s x) ∅ Hs Hl) as (e & cov & Hrun & Hs').
  pose proof (id_inv _ _ (sg_idle _ _ _ _ _ Hs')) as Hi. exists e, cov. split_and!; [done|done|apply Hi| |apply Hs'|].
  - intros id r. split; [apply (si_dom _ _ _ Hi)|]. intros [Hr <-]. by apply (si_reg _ _ _ Hi).
  - intros id Hn. apply eq_None_not_Some. intros [n Hc]. destruct (si_cov _ _ _ Hi _ _ Hc) as (r & Hr & <-).
    pose proof (si_reg _ _ _ Hi r Hr). congruence.
Qed.

(** C7: What a step of the engine does.  In the setting of the theorem above, with work to
    do, [step] raises nothing: it schedules a batch [o], the workers run it and return
    [mro], the aborts that have arrived are processed and the output is applied.  The
    requests before it are those whose abort has arrived, those that finish, and those
    that go on, each once.  Those that are gone are finished, and neither registered nor do
    they hold KV-cache slots.  A request of the batch that was not aborted appends its
    sampled tokens up to the first after which it is due to stop (end of sequence, stop
    token, length, repetition, not before [min_tokens]), and it finishes exactly if there is
    one; a request that is not in the batch appends nothing and does not finish. *)
Theorem engine_step_exact e cov timestamp now late :
  serving (scheduler e) cov → has_requests (scheduler e) = true →
  ∃ outs e' cov' (o : SchedulerOutput ConnMeta) s1 mro (L : list req_ref) (G : gset req_ref),
    let s := scheduler e in let s' := scheduler e' in let D := out_num_scheduled_tokens o in
    schedule timestamp s = (Ok o, s1) ∧ (∃ g x x', run_model o g x = (Ok mro, x')) ∧
    step hasher timestamp now late e = (Ok (outs, 0 <? sumZ D.*2), e') ∧
    serving s' cov' ∧ NoDup D.*1 ∧ answers D mro ∧
    all_reqs s [] ≡ₚ L ++ elements G ++ all_reqs s' [] ∧
    (∀ r, r ∈ all_reqs s [] → r ∈ L ↔ rid s r ∈ concat (aborts_queue e ++ late)) ∧
    (∀ r, r ∈ L ∨ r ∈ G → is_finished (obj s' r) = true ∧ requests_get s' (rid s r) = None ∧ cov' !! rid s r = None) ∧
    (∀ r, r ∈ all_reqs s [] → ∃ kept,
      cut_at_stop max_len (obj s r) (if decide (r ∉ L ∧ rid s r ∈ D.*1) then sampled mro (rid s r) else []) kept (bool_decide (r ∈ G)) ∧
      _output_token_ids (obj s' r) = _output_token_ids (obj s r) ++ kept).
Proof.
  intros Hs Hhas.
  pose proof (step_ok sha256 hash_function NONE_HASH hash_bs_pos hash_inj hash_not_none hash_not_empty set_iter_perm str_set_iter_perm
    workers_answer e cov timestamp now late Hs) as Hw.
  apply wp_run in Hw as ([outs b] & e' & Hrun & cov' & s' & x & He & Hs' & Hst). rewrite Hhas in Hst.
  destruct Hst as (o & mro & L & G & s1 & s2 & cov1 & cov2 & Hans & [P1 P2 P3 P4 P5 P6 P7] & Hb). simpl in Hb. subst b.
  edestruct (stepped_ok sha256 hash_function NONE_HASH hash_bs_pos hash_inj hash_not_none hash_not_empty set_iter_perm
    str_set_iter_perm workers_answer) as [S1 S2 S3 S4]; [exact P2|exact P3|exact P5|exact P6|exact P7|].
  exists outs, e', cov', o, s1, mro, L, G. rewrite He. cbv zeta. split_and!; try done; [by rewrite <- He|apply P2].
Qed.

(** C8: Ending requests from outside is exact.  [finish_requests], for one request, a set
    of them or all, raises nothing whatever the ids; it ends exactly the requests that are
    registered under them, whether they run or wait: they are then in no list and in no
    table, hold no KV-cache slots, have the given status and are otherwise as before, like
    all other requests, which stay where they were. *)
Theorem finish_requests_exact s cov request_ids finished_status :
  serving s cov → status_is_finished finished_status = true →
  ∃ res s' L cov', finish_requests request_ids finished_status s = (Ok res, s') ∧ serving s' cov' ∧
    (∀ r, r ∈ L ↔ r ∈ all_reqs s [] ∧ rid s r ∈ finish_list request_ids s) ∧
    all_reqs s [] ≡ₚ L ++ all_reqs s' [] ∧ running s' = filter (λ r, r ∉ L) (running s) ∧
    (∀ r, obj s' r = if decide (r ∈ L) then set_status finished_status (obj s r) else obj s r) ∧
    (∀ r, r ∈ L → requests_get s' (rid s r) = None ∧ cov' !! rid s r = None).
Proof using Type set_iter_perm str_set_iter_perm.
  intros Hs Hst.
  pose proof (finish_serving sha256 hash_function NONE_HASH set_iter_perm str_set_iter_perm s cov request_ids finished_status Hs Hst) as Hw.
  apply wp_run in Hw as (res & s' & Hrun & L & cov' & Hs' & [] & HL). exists res, s', L, cov'. split_and!; try done.
  - intros r. case_decide as Hr; [by apply gn_left|by apply gn_obj].
  - intros r Hr. by apply gn_left.
Qed.
End Claims.

(** ** A small engine *)

#[local] Existing Instances test_env test_sched_env.

(** Workers that sample the token 7 for every request. *)
Definition sevens (o : SchedulerOutput ConnMeta) : ModelRunnerOutput :=
  mkModelRunnerOutput ((λ p : string * Z, (p.1, 0)) <$> out_num_scheduled_tokens o) [[7]] [] [] None [].
#[local] Instance test_exec_env : ExecEnv := {|
  Exec := option (SchedulerOutput ConnMeta);
  Future := ModelRunnerOutput;
  execute_model o := _ ← modify (λ _, Some o); mret (sevens o);
  sample_tokens _ := o ← gets (λ o, o); o ← or_raise AssertionError o; mret (sevens o);
  future_result f := mret (Some f);
  future_done _ _ := true;
  take_draft_token_ids := mret None;
  execute_dummy_batch := mret tt;
  supported_tasks := ["generate"];
  clear_mm_caches := mret tt;
  exec_reset_encoder_cache := mret tt
|}.

Lemma sevens_answer o g x : wp (run_model o g) (λ m _, answers (out_num_scheduled_tokens o) m) x.
Proof.
  change (answers (out_num_scheduled_tokens o) (sevens o)). split; try done; [|by intros ?? ? ?%elem_of_nil].
  intros id n Hin. exists 0. split; [|right; by eexists]. unfold sevens. cbn [mro_req_id_to_index].
  induction (out_num_scheduled_tokens o) as [|[id' n'] d IH]; [by apply elem_of_nil in Hin|]. rewrite fmap_cons. cbn [od_get fst].
  case_decide; [done|]. apply IH. apply elem_of_cons in Hin as [[= -> ->]|]; done.
Qed.

#[local] Instance engine_service : KVService 64 2 := unitary_service full2 1 1 64 2 true false.

Definition small_settings : EngineSettings := mkEngineSettings 1 false false true false.
Definition small_engine : EngineCore := engine_init small_settings small_start None.
Definition small_calls : list engine_call :=
  [AddCall request_a 1; AddCall request_b 1; StepCall 2 3 []; StepCall 4 5 [["b"]]; StepCall 6 7 []; AbortCall ["zzz"]].

Abbreviation small_served := (served (λ _, []) injective_hash [0] 64 2).
Lemma small_request_served q (n : Z) :
  bool_decide (block_hashes q = hashes_upto (λ _, []) injective_hash [0] q 2 (num_full q 2)) = true →
  _prompt_embeds_per_block_hashes q = ∅ → mm_features q = [] → pooling_params q = None → sampling_params q = Some (small_sampling n) →
  structured_output_request q = None → resumable q = false → num_output_placeholders q = 0 →
  (0 <? n) && (max_tokens q =? n) && (num_tokens q =? num_prompt_tokens q) && (num_output_tokens q =? 0) && (num_prompt_tokens q <? 64) = true →
  small_served q.
Proof.
  intros Hh Hm Ht Hp Hs Hso Hre Hpl Hb. apply bool_decide_eq_true in Hh. rewrite !andb_true_iff, !Z.ltb_lt, !Z.eqb_eq in Hb.
  destruct Hb as ((((H1 & H2) & H3) & H4) & H5).
  split; [|exists (small_sampling n); split; [split; simpl; [done|done|lia]|simpl; lia]|lia|lia|done].
  split; [|done]. split; [intros a b h; by rewrite Hm, lookup_empty|]. split; [rewrite Ht; by repeat constructor|done].
Qed.

Abbreviation small_run := (run_engine_call (hash_bs := 2) (λ _, []) injective_hash [0]).
Abbreviation small_serving := (serving (max_len := 64) (hash_bs := 2) (λ _, []) injective_hash [0]).

Lemma small_legal : legal_calls (max_len := 64) (hash_bs := 2) (λ _, []) injective_hash [0] small_calls small_engine.
Proof.
  assert (Hq : ∀ e q, bool_decide (requests_get (scheduler e) (request_id q) = None ∧ object_id q ∉ all_reqs (scheduler e) []) = true →
    q = request_a ∨ q = request_b →
    arriving (max_len := 64) (hash_bs := 2) (scheduler e) q ∧ small_served q).
  { intros e q [H1 H2]%bool_decide_eq_true Hq. split.
    - apply small_arriving; [apply small_plain|..]; destruct Hq as [-> | ->];
        first [exact H1|by apply bool_decide_eq_true|vm_compute; reflexivity].
    - apply (small_request_served q 2); destruct Hq as [-> | ->]; vm_compute; reflexivity. }
  split; [apply Hq; [vm_compute; reflexivity|by left]|]. split; [apply Hq; [vm_compute; reflexivity|by right]|]. done.
Qed.

Lemma engine_never_raises_witness :
  ∃ e cov, for_ small_calls small_run small_engine = (Ok tt, e) ∧ small_serving (scheduler e) cov ∧
    s_requests (scheduler e) = [] ∧
    (λ r, (_output_token_ids (obj (scheduler e) r), status (obj (scheduler e) r))) <$> [1; 2] =
      [([7; 7], FINISHED_LENGTH_CAPPED); ([7], FINISHED_ABORTED)].
Proof.
  destruct (engine_never_raises (max_len := 64) (hash_bs := 2) (λ _, []) injective_hash [0] ltac:(lia) injective_hash_inj
    ltac:(discriminate) ltac:(discriminate) ltac:(done) ltac:(done) sevens_answer
    (small_vllm "fcfs" None None) small_kv 2 (Some small_budget) false true small_start small_settings None small_calls
    small_start_init small_config eq_refl eq_refl ltac:(done) small_kv_serves small_legal) as (e & cov & Hrun & Hs & _).
  exists e, cov. split; [exact Hrun|]. split; [exact Hs|].
  assert (match for_ small_calls small_run small_engine with
          | (Ok tt, e) => (s_requests (scheduler e),
              (λ r, (_output_token_ids (obj (scheduler e) r), status (obj (scheduler e) r))) <$> [1; 2]) =
              ([], [([7; 7], FINISHED_LENGTH_CAPPED); ([7], FINISHED_ABORTED)])
          | _ => False
          end) as Hv by (vm_compute; reflexivity).
  change (for_ small_calls small_run small_engine = (Ok tt, e)) in Hrun. rewrite Hrun in Hv. apply pair_equal_spec in Hv as [Hv1 Hv2].
  split; [exact Hv1|exact Hv2].
Defined.

(** The state after the two requests have arrived. *)
Definition small_arrived : EngineCore := (for_ (take 2 small_calls) small_run small_engine).2.
Lemma small_arrived_serving : ∃ cov, small_serving (scheduler small_arrived) cov.
Proof.
  destruct (calls_ok (max_len := 64) (hash_bs := 2) (λ _, []) injective_hash [0] ltac:(lia) injective_hash_inj
    ltac:(discriminate) ltac:(discriminate) ltac:(done) ltac:(done) sevens_answer (take 2 small_calls) small_engine ∅)
    as (e & cov & Hrun & Hs).
  - eapply init_serving; [exact small_start_init|exact small_config|done..|exact small_kv_serves].
  - pose proof small_legal as (H1 & H2 & _). by split_and!.
  - exists cov. unfold small_arrived. by rewrite Hrun.
Qed.

Lemma engine_step_exact_witness :
  ∃ outs e', step small_hasher 2 3 [["b"]] small_arrived = (Ok (outs, true), e') ∧
    (∃ cov', small_serving (scheduler e') cov') ∧ running (scheduler e') = [1] ∧
    _output_token_ids (obj (scheduler e') 1) = [7].
Proof.
  destruct small_arrived_serving as [cov Hs].
  destruct (engine_step_exact (max_len := 64) (hash_bs := 2) (λ _, []) injective_hash [0] ltac:(lia) injective_hash_inj
    ltac:(discriminate) ltac:(discriminate) ltac:(done) ltac:(done) sevens_answer small_arrived cov 2 3 [["b"]] Hs)
    as (outs & e' & cov' & o & s1 & mro & L & G & _ & _ & Hrun & Hs' & _).
  { vm_compute. reflexivity. }
  assert (match step small_hasher 2 3 [["b"]] small_arrived with
          | (Ok (_, b), e') => (b, running (scheduler e'), _output_token_ids (obj (scheduler e') 1)) = (true, [1], [7])
          | _ => False
          end) as Hv by (vm_compute; reflexivity).
  change (step small_hasher 2 3 [["b"]] small_arrived = (Ok (outs, 0 <? sumZ (out_num_scheduled_tokens o).*2), e')) in Hrun. rewrite Hrun in Hv.
  apply pair_equal_spec in Hv as [[Hv1 Hv2]%pair_equal_spec Hv3]. exists outs, e'. rewrite Hv1 in Hrun. split; [exact Hrun|].
  split; [exists cov'; exact Hs'|]. split; [exact Hv2|exact Hv3].
Defined.

Lemma finish_requests_exact_witness :
  ∃ s', finish_requests (FinishSet ["b"; "b"; "zzz"]) FINISHED_ABORTED (scheduler small_arrived) = (Ok [("b", 0)], s') ∧
    (∃ cov', small_serving s' cov') ∧ s_requests s' = [("a", 1)].
Proof.
  destruct small_arrived_serving as [cov Hs].
  destruct (finish_requests_exact (max_len := 64) (hash_bs := 2) (λ _, []) injective_hash [0] ltac:(done) ltac:(done) (scheduler small_arrived) cov
    (FinishSet ["b"; "b"; "zzz"]) FINISHED_ABORTED Hs eq_refl) as (res & s' & L & cov' & Hrun & Hs' & _).
  assert (match finish_requests (FinishSet ["b"; "b"; "zzz"]) FINISHED_ABORTED (scheduler small_arrived) with
          | (Ok res, s') => (res, s_requests s') = ([("b", 0)], [("a", 1)])
          | _ => False
          end) as Hv by (vm_compute; reflexivity).
  rewrite Hrun in Hv. apply pair_equal_spec in Hv as [Hv1 Hv2]. exists s'. rewrite Hv1 in Hrun. split; [exact Hrun|].
  split; [exists cov'; exact Hs'|exact Hv2].
Defined.
