(* ===== verification/EngineArrive.v ===== *)
(** * Requests from clients

    The message of a client becomes a request: EngineCoreRequest of vllm/v1/engine/__init__.py,
    [Request.from_engine_core_request] and [EngineCore.preprocess_add_request].  A message
    with a prompt of tokens and valid parameters becomes a request of the kind that the
    engine serves.  The cache of received inputs and the compilation of grammars are
    parameters; trace headers and the arguments of reasoning parsers are left out. *)

From S2P Require Import Prelude FreeQueue Request BlockHash BlockPool KVSpec CacheHit SingleType Coordinator KVManager KVCalls HitToSlots KVService Heap RequestQueue SchedUtils EncoderCache SpecControl SchedOutput SchedState EncoderSched Schedule SchedRequests SchedUpdate EngineCore SchedFrame SchedInv SchedRun SchedWait SchedStep SchedLife SchedLeave SchedApply EngineSafe.

#[local] Open Scope Z_scope.

Record EngineCoreRequest := mkEngineCoreRequest {
  m_request_id : string;
  m_prompt_token_ids : option (list Z);
  m_mm_features : option (list MultiModalFeatureSpec);
  m_sampling_params : option SamplingParams;
  m_pooling_params : option PoolingParams;
  m_arrival_time : Z;
  m_lora_request : option LoRARequest;
  m_cache_salt : option string;
  m_prompt_embeds : option (list bytes);
  m_client_index : Z;
  m_current_wave : Z;
  m_priority : Z;
  m_resumable : bool;
  m_reasoning_ended : option bool
}.

Definition set_m_mm_features (f : option (list MultiModalFeatureSpec)) (m : EngineCoreRequest) : EngineCoreRequest :=
  mkEngineCoreRequest (m_request_id m) (m_prompt_token_ids m) f (m_sampling_params m) (m_pooling_params m) (m_arrival_time m)
    (m_lora_request m) (m_cache_salt m) (m_prompt_embeds m) (m_client_index m) (m_current_wave m) (m_priority m) (m_resumable m)
    (m_reasoning_ended m).

(** [oid] is the identity of the new object. *)
Definition from_engine_core_request (block_hasher : option (M Request (list bytes))) (oid : Z) (m : EngineCoreRequest) : result Request :=
  request_init block_hasher (m_request_id m) (m_prompt_token_ids m) (m_sampling_params m) (m_pooling_params m) (m_client_index m)
    (Some (m_arrival_time m)) 0 oid (m_prompt_embeds m) (m_mm_features m) (m_lora_request m) (m_cache_salt m) (m_priority m)
    (m_resumable m) (m_reasoning_ended m).

Definition preprocess_add_request (mm_receiver_cache : option (list MultiModalFeatureSpec → result (list MultiModalFeatureSpec)))
    (grammar_init : Request → result Request) (block_hasher : option (M Request (list bytes))) (oid : Z) (m : EngineCoreRequest) :
    result (Request * Z) :=
  let received :=
    match mm_receiver_cache, m_mm_features m with
    | Some get_and_update_features, Some ((_ :: _) as features) =>
        match get_and_update_features features with
        | Ok features => Ok (set_m_mm_features (Some features) m)
        | Raise e => Raise e
        end
    | _, _ => Ok m
    end in
  match received with
  | Raise e => Raise e
  | Ok m =>
      match from_engine_core_request block_hasher oid m with
      | Raise e => Raise e
      | Ok req =>
          match (if use_structured_output req then grammar_init req else Ok req) with
          | Ok req => Ok (req, m_current_wave m)
          | Raise e => Raise e
          end
      end
  end.

(** A prompt of tokens, fewer than the greatest length, and parameters that pass validation:
    some output is asked for, and the smallest fits. *)
Record text_message (max_len : Z) (m : EngineCoreRequest) (ids : list Z) (sp : SamplingParams) (n : Z) : Prop := {
  tm_ids : m_prompt_token_ids m = Some ids;
  tm_len : 0 < len ids < max_len;
  tm_sampling : m_sampling_params m = Some sp;
  tm_max : sp_max_tokens sp = Some n ∧ 0 < n ∧ sp_min_tokens sp ≤ n ∧ len ids + sp_min_tokens sp ≤ max_len;
  tm_plain : sp_structured_outputs sp = None ∧ m_pooling_params m = None ∧ m_resumable m = false;
  tm_text : default [] (m_mm_features m) = [] ∧ m_prompt_embeds m = None
}.

Section Arrive.
#[local] Set Default Proof Using "Type*".
Context {E : Env} {SE : SchedEnv} {max_len hash_bs : Z} {KS : KVService max_len hash_bs}.
Context (sha256 : list bytes → bytes) (hash_function : bytes * list Z * option (list ExtraKey) → bytes) (NONE_HASH : bytes).
Context (hash_bs_pos : 0 < hash_bs) (hash_inj : ∀ x y, hash_function x = hash_function y → x = y).
Context (hash_not_none : ∀ x, hash_function x ≠ NONE_HASH) (hash_not_empty : ∀ x, hash_function x ≠ []).
Abbreviation hasher := (Some (request_block_hasher sha256 hash_function NONE_HASH hash_bs)).

(** The request of a message before its blocks are hashed. *)
Definition unhashed (m : EngineCoreRequest) (ids : list Z) (sp : SamplingParams) (n oid : Z) : Request :=
  mkRequest (m_request_id m) (m_client_index m) (m_priority m) (Some sp) None (m_lora_request m) None (m_arrival_time m) WAITING [] None
    n (Some ids) None ∅ (len ids) [] ids 0 false [] 0 (m_cache_salt m) [] false 0 (Some (mkPrefillStats 0 0 0 0 0)) []
    (get_skip_reading_prefix_cache (Some sp) None) false None (sp_extra_args sp ≫= lookup "kv_transfer_params"%string) 0 oid.

Lemma made_request m ids sp n oid : m_prompt_token_ids m = Some ids → m_sampling_params m = Some sp → sp_max_tokens sp = Some n →
  sp_structured_outputs sp = None → m_pooling_params m = None → m_resumable m = false → default [] (m_mm_features m) = [] → m_prompt_embeds m = None →
  ∃ q, from_engine_core_request hasher oid m = Ok q ∧ ∃ hs mm, q = set_block_hashes hs (set_prompt_embeds_per_block_hashes mm (unhashed m ids sp n oid)) ∧
    hash_inv sha256 hash_function NONE_HASH hash_bs q.
Proof.
  intros Hids Hsp Hmax Hso Hpool Hres Htext Hemb. set (r0 := unhashed m ids sp n oid).
  assert (from_engine_core_request hasher oid m = match update_block_hashes hasher r0 with (Ok _, r) => Ok r | (Raise e, _) => Raise e end) as ->.
  { unfold from_engine_core_request, request_init, py_min_max_tokens, from_sampling_params. rewrite Hids, Hsp, Hpool, Hmax, Hso, Hemb, Hres, Htext. done. }
  assert (wp (update_block_hashes hasher) (λ _ r', block_hashes r' = hashes_upto sha256 hash_function NONE_HASH r0 hash_bs (num_full r0 hash_bs) ∧
    memo_ok sha256 r' ∧ ∃ mm, r' = set_block_hashes (hashes_upto sha256 hash_function NONE_HASH r0 hash_bs (num_full r0 hash_bs)) (set_prompt_embeds_per_block_hashes mm r0)) r0) as Hw.
  { apply hasher_spec; simpl; [done|by repeat constructor|intros a b h Hl; change (@empty (gmap (Z * Z) bytes) _ !! (a, b) = Some h) in Hl; by rewrite lookup_empty in Hl|lia|done|by left]. }
  apply wp_run in Hw as ([] & q & Hrun & Hb & Hm & mm & Hq). rewrite Hrun. exists q. split; [done|]. eexists _, mm. split; [exact Hq|].
  split; [done|]. split; [rewrite Hq; by repeat constructor|]. rewrite Hb, Hq. symmetry.
  change (num_full (set_block_hashes _ _) hash_bs) with (num_full r0 hash_bs). apply hashes_upto_ext; try done. exists []. by rewrite app_nil_r.
Qed.

Lemma no_features_received cache m : default [] (m_mm_features m) = [] →
  match cache, m_mm_features m with
  | Some get_and_update_features, Some ((_ :: _) as features) =>
      match get_and_update_features features with
      | Ok features => Ok (set_m_mm_features (Some features) m)
      | Raise e => Raise e
      end
  | _, _ => Ok m
  end = Ok m.
Proof. destruct cache, (m_mm_features m) as [[|]|]; done. Qed.

(** C13: What clients send is what the engine serves.  A message with a prompt of tokens and
    valid parameters is made into a request without an exception, whatever the cache of
    inputs and the grammars do: it waits, has the hashes of all full blocks of its prompt and
    no others, and meets the conditions under which the engine never raises. *)
Theorem text_message_is_served cache grammar_init s oid m ids sp n :
  text_message max_len m ids sp n → requests_get s (m_request_id m) = None → oid ∉ all_reqs s [] →
  ∃ q, preprocess_add_request cache grammar_init hasher oid m = Ok (q, m_current_wave m) ∧
    request_id q = m_request_id m ∧ _all_token_ids q = ids ∧ status q = WAITING ∧
    block_hashes q = hashes_upto sha256 hash_function NONE_HASH q hash_bs (Z.to_nat (len ids / hash_bs)) ∧
    arriving (max_len := max_len) (hash_bs := hash_bs) s q ∧ served sha256 hash_function NONE_HASH max_len hash_bs q.
Proof.
  intros [Hids Hlen Hsp (Hmax & Hn & Hmin & Hroom) (Hso & Hpool & Hres) [Htext Hemb]] Hid Hoid.
  destruct (made_request m ids sp n oid) as (q & Hq & hs & mm & -> & Hinv); [done..|]. set (q := set_block_hashes _ _) in *.
  assert (text_hashes sha256 hash_function NONE_HASH hash_bs q) as Ht by done.
  exists q. split; [|split_and!; [done..| | |]].
  - unfold preprocess_add_request. rewrite (no_features_received cache m Htext), Hq. done.
  - destruct Ht as [(_ & _ & ->) _]. done.
  - split; [split|..]; try done; [|by left]. by apply (text_hashed sha256 hash_function NONE_HASH).
  - split; try done; [exists sp; split; [by split|done]|unfold num_tokens, num_output_tokens, len; simpl; unfold len; lia].
Qed.
End Arrive.

(** A prompt of five tokens, two full blocks, for an idle scheduler. *)
#[local] Existing Instances test_env test_sched_env.
#[local] Instance arrive_service : KVService 64 2 := unitary_service full2 1 1 64 2 true false.
Definition message : EngineCoreRequest :=
  mkEngineCoreRequest "m" (Some [5; 6; 7; 8; 9]) (Some []) (Some (small_sampling 2)) None 3 None None None 0 7 0 false None.

Lemma text_message_is_served_witness :
  ∃ q, preprocess_add_request (Some (λ _, Raise RuntimeError)) Ok (Some (request_block_hasher (λ _, []) injective_hash [0] 2)) 4 message = Ok (q, 7) ∧
    _all_token_ids q = [5; 6; 7; 8; 9] ∧ len (block_hashes q) = 2 ∧
    arriving (max_len := 64) (hash_bs := 2) small_start q ∧ served (λ _, []) injective_hash [0] 64 2 q.
Proof.
  destruct (text_message_is_served (max_len := 64) (hash_bs := 2) (λ _, []) injective_hash [0] ltac:(lia) injective_hash_inj
    ltac:(discriminate) ltac:(discriminate) (Some (λ _, Raise RuntimeError)) Ok small_start 4 message [5; 6; 7; 8; 9] (small_sampling 2) 2)
    as (q & Hq & _ & Ht & _ & Hb & Ha & Hs).
  - split; try reflexivity; [by vm_compute|split_and!; vm_compute; done..].
  - vm_compute. reflexivity.
  - assert (all_reqs small_start [] = []) as -> by (vm_compute; reflexivity). apply not_elem_of_nil.
  - exists q. split; [exact Hq|]. split; [exact Ht|]. split; [|by split].
    rewrite Hb. unfold hashes_upto. unfold len. rewrite length_fmap, length_seq. reflexivity.
Defined.
