(* ===== verification/EngineQueue.v ===== *)
(** * The batch queue of the engine

    [step_with_batch_queue] of vllm/v1/engine/core.py: several batches are in flight, and
    their outputs are applied in the order in which they were scheduled. *)

From S2P Require Import Prelude Stable FreeQueue Request BlockHash BlockPool KVSpec CacheHit SingleType Coordinator KVManager RequestQueue SchedUtils EncoderCache SpecControl SchedOutput SchedState EncoderSched Schedule SchedRequests SchedUpdate EngineCore SchedFrame SchedLife EngineSafe.

#[local] Open Scope Z_scope.
#[local] Set Default Proof Using "Type*".

(** ** Calls that return *)

Section Runs.
Context {S : Type}.
Lemma run_bind {A B} (m : M S A) (k : A → M S B) s b s' : (m ≫= k) s = (Ok b, s') → ∃ a s1, m s = (Ok a, s1) ∧ k a s1 = (Ok b, s').
Proof. unfold mbind, M_bind. destruct (m s) as [[a|x] s1]; [by exists a, s1|done]. Qed.
Lemma run_or_raise {A} x (o : option A) (a : A) (s s' : S) : or_raise x o s = (Ok a, s') → o = Some a ∧ s' = s.
Proof. destruct o; intros [=]; by subst. Qed.
Lemma run_assert b (s s' : S) : assert b s = (Ok tt, s') → b = true ∧ s' = s.
Proof. destruct b; intros [=]; by subst. Qed.
End Runs.

(** The next call of the run in [H]. *)
Tactic Notation "run" hyp(H) "as" simple_intropattern(a) simple_intropattern(s) ident(H1) :=
  try clear H1; apply run_bind in H as (a & s & H1 & H).

Section Queue.
Context {E : Env} {SE : SchedEnv} {XE : ExecEnv}.
Abbreviation batch := (Future * SchedulerOutput ConnMeta * Future)%type.
Implicit Types (e : EngineCore) (q : list batch) (c : EngineSettings).

(** The settings and the queue. *)
Definition holds c q e : Prop := engine_settings e = c ∧ batch_queue e = Some q.

Lemma keeps_scheduler {A} c q (m : M Scheduler A) : stable (holds c q) (on_scheduler m).
Proof. by apply (stable_zoom _ _ _ (λ _, True)); [apply stable_true|..]. Qed.
Lemma keeps_executor {A} c q (m : M Exec A) : stable (holds c q) (on_executor m).
Proof. by apply (stable_zoom _ _ _ (λ _, True)); [apply stable_true|..]. Qed.
Lemma keeps_aborts c q f : stable (holds c q) (modify (λ e, set_aborts_queue (f e) e)).
Proof. by apply stable_modify. Qed.
Lemma keeps_log {A} c q (m : M EngineCore A) : stable (holds c q) m → stable (holds c q) (log_error_detail m).
Proof.
  intros Hm e He. specialize (Hm e He). unfold log_error_detail. destruct (m e) as [[a|x] e']; [done|].
  pose proof (keeps_scheduler c q (make_stats None None) e' Hm) as Hs. by destruct (on_scheduler _ e') as [[] ?].
Qed.
Lemma keeps_process_aborts c q : stable (holds c q) _process_aborts_queue.
Proof.
  unfold _process_aborts_queue, abort_requests. apply stable_bind; [auto with frame|]. intros [|ids l]; [auto with frame|].
  apply stable_bind; [apply (keeps_aborts c q (λ _, []))|]. intros _. apply stable_bind; [apply keeps_scheduler|]. auto with frame.
Qed.

Lemma run_scheduler {A} (m : M Scheduler A) e a e' : on_scheduler m e = (Ok a, e') → ∃ s', m (scheduler e) = (Ok a, s') ∧ e' = set_scheduler s' e.
Proof. unfold on_scheduler, zoom. destruct (m (scheduler e)) as [[]]; intros [=]; subst; by eexists. Qed.
Lemma run_executor {A} (m : M Exec A) e a e' : on_executor m e = (Ok a, e') → ∃ x', m (model_executor e) = (Ok a, x') ∧ e' = set_model_executor x' e.
Proof. unfold on_executor, zoom. destruct (m (model_executor e)) as [[]]; intros [=]; subst; by eexists. Qed.
Lemma run_log {A} (m : M EngineCore A) e a e' : log_error_detail m e = (Ok a, e') → m e = (Ok a, e').
Proof. unfold log_error_detail. destruct (m e) as [[] ?]; [done|]. by destruct (on_scheduler _ _) as [[] ?]. Qed.

(** A batch is put on the left. *)
Lemma appendleft_run c q x e e' :
  holds c q e → len q < batch_queue_size c → appendleft x e = (Ok tt, e') → holds c (x :: q) e' ∧ model_executor e' = model_executor e.
Proof.
  intros [Hc Hq] Hlen [= <-]. split; [|done]. split; [done|]. simpl. rewrite Hq, Hc. simpl. f_equal. apply take_ge.
  unfold len in Hlen. simpl. lia.
Qed.

(** The scheduler makes a batch of the state, and the workers are given it. *)
Definition scheduled_by (ts : Z) e (o : SchedulerOutput ConnMeta) (exec_future : Future) : Prop :=
  ∃ s1 x1, schedule ts (scheduler e) = (Ok o, s1) ∧ execute_model o (model_executor e) = (Ok exec_future, x1).

Definition sampled_by (future : Future) : Prop := ∃ g x x', sample_tokens g x = (Ok future, x').

(** An entry that a step puts into the queue: the batch of this step, with the drafts of the
    step before where these come late, the future of its execution and that of its tokens. *)
Definition submitted (ts : Z) e (y : batch) : Prop :=
  ∃ o, scheduled_by ts e o y.2 ∧ (y.1.1 = y.2 ∨ sampled_by y.1.1) ∧
    (y.1.2 = o ∨ use_spec_decode (engine_settings e) = true ∧ ∃ d s s', update_draft_token_ids_in_output d o s = (Ok y.1.2, s')).

Lemma submit_batch_run c q ts e executed deferred now e1 :
  holds c q e → len q < batch_queue_size c → submit_batch ts e = (Ok (executed, deferred, now), e1) →
  match deferred with
  | Some (o, f) => scheduled_by ts e o f ∧ holds c q e1 ∧ now = false
  | None => ∃ y, submitted ts e y ∧ holds c (y :: q) e1 ∧ (now = true → len (y :: q) < batch_queue_size c)
  end.
Proof.
  intros He Hlen H. unfold submit_batch in H. run H as o e2 H1. apply run_scheduler in H1 as (s1 & Hs & ->).
  run H as f e3 H1. apply run_log, run_executor in H1 as (x1 & Hx & ->). run H as c' e4 H1. injection H1 as <- <-. cbv zeta in H.
  assert (scheduled_by ts e o f) as Hby by by exists s1, x1.
  assert (holds c q (set_model_executor x1 (set_scheduler s1 e))) as He2 by done. destruct (negb _ && _); [by injection H as <- <- <- <-|].
  run H as future e5 H1. assert (holds c q e5 ∧ (future = f ∨ sampled_by future)) as [He5 Hfu].
  { destruct (is_pooling_model _ || _); [injection H1 as <- <-; auto|]. run H1 as g e6 H2. injection H2 as <- <-.
    apply run_executor in H1 as (x2 & Hx2 & ->). split; [done|]. right. by eexists _, _, _. }
  run H as [] e6 H2. apply (appendleft_run c q) in H2 as [He6 _]; [|done..]. run H as e7 e8 H2. injection H2 as <- <-.
  run H as q1 e9 H2. apply run_or_raise in H2 as [Hq1 ->]. run H as old e10 H2. apply run_or_raise in H2 as [_ ->].
  injection H as <- <- Hnow <-. destruct He6 as [Hc6 Hq6]. rewrite Hq6 in Hq1. injection Hq1 as <-.
  exists (future, o, f). split; [exists o; split_and!; [done|done|by left]|]. split; [done|]. intros ->.
  apply andb_true_iff in Hnow as [[_ Hnow]%andb_true_iff _]. apply Z.ltb_lt in Hnow. destruct He as [<- _]. exact Hnow.
Qed.

Lemma sample_deferred_run c q o f e e' :
  holds c q e → len q < batch_queue_size c → sample_deferred o f e = (Ok tt, e') →
  ∃ future o', holds c ((future, o', f) :: q) e' ∧ sampled_by future ∧
    (o' = o ∨ use_spec_decode c = true ∧ ∃ d s s', update_draft_token_ids_in_output d o s = (Ok o', s')).
Proof.
  intros He Hlen H. unfold sample_deferred in H. run H as c' e1 H1. injection H1 as <- <-. run H as o' e1 H1.
  assert (holds c q e1 ∧ (o' = o ∨ use_spec_decode c = true ∧ ∃ d s s', update_draft_token_ids_in_output d o s = (Ok o', s'))) as [He1 Ho].
  { destruct He as [Hc Hq]. rewrite Hc in H1. destruct (use_spec_decode c); [|injection H1 as <- <-; by repeat split; auto].
    run H1 as d e2 H2. apply run_executor in H2 as (x2 & _ & ->). run H1 as d' e3 H2. apply run_or_raise in H2 as [_ ->].
    apply run_scheduler in H1 as (s3 & H1 & ->). split; [done|]. right. split; [done|]. by eexists _, _, _. }
  run H as g e2 H1. injection H1 as <- <-. run H as future e3 H1. apply run_executor in H1 as (x3 & Hx & ->).
  apply (appendleft_run c q) in H as [He' _]; [|done..]. exists future, o'. split; [done|]. split; [by eexists _, _, _|done].
Qed.

Context (hasher : option (M Request (list bytes))).

(** The oldest batch [x] is finished in state [e1], from which it was taken: its own future
    gives the output of the model, aborts that have arrived are processed, and the output is
    applied to the scheduler together with the batch as it was scheduled. *)
Definition finished_batch (x : batch) (now : Z) (late : list (list string)) e1 (outs : list (Z * EngineCoreOutputs)) e2 : Prop :=
  ∃ m x' e3 evs s3,
    future_result x.1.1 (model_executor e1) = (Ok (Some m), x') ∧
    (_ ← aborts_arrive late; _process_aborts_queue) (set_model_executor x' e1) = (Ok tt, e3) ∧
    update_from_output hasher x.1.2 m now (scheduler e3) = (Ok (outs, evs), s3) ∧ e2 = set_scheduler s3 e3.

Lemma finish_batch_run c q now late e outs e' :
  holds c q e → finish_batch hasher now late e = (Ok outs, e') →
  ∃ q' x, q = q' ++ [x] ∧ holds c q' e' ∧ finished_batch x now late (set_batch_queue (Some q') e) outs e'.
Proof.
  intros [Hc Hq] H. unfold finish_batch in H. run H as q0 e0 H1. run H1 as q1 e1 H2. injection H2 as <- <-.
  apply run_or_raise in H1 as [Hq0 ->]. rewrite Hq in Hq0. injection Hq0 as <-.
  run H as y e1 H1. apply run_or_raise in H1 as [[q' ->]%last_Some ->]. destruct y as [[future o] exec_fut].
  run H as [] e1 H1. injection H1 as <-. rewrite length_app, Nat.add_sub, take_app_length in H. set (e1 := set_batch_queue (Some q') e) in *.
  run H as m e2 H1. apply run_log in H1. run H1 as m' e3 H2. apply run_executor in H2 as (x' & Hx & ->).
  destruct m' as [m'|]; [injection H1 as <- <-|run H1 as ? ? H2; discriminate H1].
  run H as [] e3 H1. run H as [] e4 H2. run H as [outs' evs] e5 H3. apply run_scheduler in H3 as (s5 & Hu & ->). injection H as <- <-.
  assert (holds c q' e4) as He4.
  { injection H1 as <-. pose proof (keeps_process_aborts c q' (set_aborts_queue (aborts_queue e ++ late) (set_model_executor x' e1))) as K.
    change (aborts_queue (set_model_executor x' e1)) with (aborts_queue e) in H2. rewrite H2 in K. by apply K. }
  exists q', (future, o, exec_fut). split; [done|]. split; [done|]. exists m', x', e4, evs, s5. split_and!; try done.
  injection H1 as <-. exact H2.
Qed.

(** The state in which the oldest batch is awaited: after a batch was submitted, if there
    are requests. *)
Definition after_submit (ts : Z) e e1 : Prop :=
  if has_requests (scheduler e) then ∃ r, submit_batch ts e = (Ok r, e1) else e1 = e.

(** C23: The batch queue is first in, first out and never overflows.  Whatever the scheduler
    and the workers do, a call of [step_with_batch_queue] on a queue that is not full and
    that returns adds at most one batch, on the left: the one it has scheduled, with the
    future of its execution; it takes away the oldest one, on the right, exactly when it
    returns outputs.  These are what [update_from_output] makes of that batch, as it was
    scheduled, and of the result of its own future, in the state the call has then
    reached: after the new batch was submitted and the aborts that have arrived were
    processed.  No other batch is dropped or reordered, and the queue is not full afterwards,
    so that the assertion at the start of the next call holds. *)
Theorem batch_queue_fifo e q timestamp now late outs executed e' :
  batch_queue e = Some q → len q < batch_queue_size (engine_settings e) →
  step_with_batch_queue hasher timestamp now late e = (Ok (outs, executed), e') →
  ∃ q' new old, batch_queue e' = Some q' ∧ new ++ q = q' ++ old ∧ (length new ≤ 1)%nat ∧
    len q' < batch_queue_size (engine_settings e') ∧ (∀ y, y ∈ new → submitted timestamp e y) ∧
    match outs with
    | None => old = []
    | Some outs => ∃ x e1 q1 e2, old = [x] ∧ after_submit timestamp e e1 ∧ batch_queue e1 = Some (q1 ++ [x]) ∧
        finished_batch x now late (set_batch_queue (Some q1) e1) outs e2 ∧
        (e' = e2 ∨ ∃ o f, sample_deferred o f e2 = (Ok tt, e'))
    end.
Proof.
  intros Hq Hlen H. set (c := engine_settings e) in *. assert (holds c q e) as He by done.
  assert (∀ q', holds c q' e' → batch_queue e' = Some q' ∧ engine_settings e' = c) as Hend by by intros q' [? ?].
  unfold step_with_batch_queue in H. run H as q0 e0 H1. run H1 as q1 e1 H2. injection H2 as <- <-.
  apply run_or_raise in H1 as [Hq0 ->]. rewrite Hq in Hq0. injection Hq0 as <-. run H as c' e1 H1. injection H1 as <- <-.
  run H as [] e1 H1. apply run_assert in H1 as [_ ->]. run H as s e1 H1. injection H1 as <- <-.
  destruct (negb _ && _).
  { run H as [] e1 H1. injection H1 as <-. injection H as <- <- <-. exists q, [], []. rewrite app_nil_r. split_and!; try done; [simpl; lia|].
    intros y Hy. by apply elem_of_nil in Hy. }
  run H as [[ex deferred] return_now] e1 H1.
  assert (after_submit timestamp e e1 ∧ ∃ new, holds c (new ++ q) e1 ∧ (return_now = true → len (new ++ q) < batch_queue_size c) ∧
    match deferred with
    | Some (o, f) => scheduled_by timestamp e o f ∧ new = [] ∧ return_now = false
    | None => (length new ≤ 1)%nat ∧ ∀ y, y ∈ new → submitted timestamp e y
    end) as (Hsub & new & He1 & Hnow & Hnew).
  { unfold after_submit. destruct (has_requests (scheduler e)).
    - split; [by eexists|]. pose proof (submit_batch_run c q _ _ _ _ _ _ He Hlen H1) as Hs. destruct deferred as [[o f]|].
      + destruct Hs as (? & ? & ->). by exists [].
      + destruct Hs as (y & Hy & He1 & Hn). exists [y]. split_and!; try done; try (simpl; lia). by intros ? ->%list_elem_of_singleton.
    - injection H1 as <- <- <- <-. split; [done|]. exists []. split_and!; try done; try (simpl; lia). intros y Hy. by apply elem_of_nil in Hy. }
  destruct return_now.
  { run H as [] e2 H2. injection H2 as <-. injection H as <- <- <-. exists (new ++ q), new, []. rewrite app_nil_r.
    destruct deferred as [[o f]|]; [by destruct Hnew as (_ & _ & ?)|]. destruct Hnew. destruct He1 as [Hc1 Hq1].
    split_and!; try done. simpl. rewrite Hc1. by apply Hnow. }
  run H as os e2 H2. destruct (finish_batch_run c _ _ _ _ _ _ He1 H2) as (q' & x & Hx & He2 & Hfin).
  run H as [] e3 H3. injection H as <- <- <-.
  assert (Hlq : len q' < batch_queue_size c).
  { apply (f_equal length) in Hx. rewrite !length_app in Hx. simpl in Hx. unfold len in *.
    destruct deferred as [[o f]|]; destruct Hnew as (Hn & Hnew); [destruct Hnew as [-> _]|]; simpl in *; lia. }
  destruct deferred as [[o f]|].
  - destruct Hnew as (Hby & -> & _). simpl in Hx. destruct (sample_deferred_run c q' o f e2 e3 He2 Hlq H3) as (future & o' & He3 & Hfu & Ho).
    destruct (Hend _ He3) as [Hq3 Hc3]. exists ((future, o', f) :: q'), [(future, o', f)], [x]. rewrite Hc3. split_and!; [done|by rewrite Hx|done| | |].
    + subst q. unfold len in *. rewrite length_app in Hlen. simpl in *. lia.
    + intros y ->%list_elem_of_singleton. exists o. split_and!; [done|by right|done].
    + exists x, e1, q', e2. destruct He1 as [_ Hq1]. split_and!; try done; [by rewrite Hq1, Hx|]. right. by exists o, f.
  - injection H3 as <-. destruct Hnew as [Hn Hall]. destruct (Hend _ He2) as [Hq3 Hc3]. exists q', new, [x]. rewrite Hc3. split_and!; try done.
    exists x, e1, q', e2. destruct He1 as [_ Hq1]. split_and!; try done; [by rewrite Hq1, Hx|]. by left.
Qed.
End Queue.

(** ** Two batches in flight *)

#[local] Existing Instances test_env test_sched_env test_exec_env.

Definition pipelined : EngineCore :=
  mkEngineCore (mkEngineSettings 2 false false true false) (scheduler small_arrived) None [] (Some []).

Lemma batch_queue_fifo_witness :
  ∃ outs e' x e1 q1 e2, step_with_batch_queue small_hasher 2 3 [] pipelined = (Ok (Some outs, true), e') ∧
    batch_queue e' = Some [] ∧ running (scheduler e') = [1; 2] ∧
    batch_queue e1 = Some (q1 ++ [x]) ∧ finished_batch small_hasher x 3 [] (set_batch_queue (Some q1) e1) outs e2.
Proof.
  assert (match step_with_batch_queue small_hasher 2 3 [] pipelined with
          | (Ok (Some _, true), e') => (length <$> batch_queue e', running (scheduler e')) = (Some 0%nat, [1; 2])
          | _ => False
          end) as Hv by (vm_compute; reflexivity).
  destruct (step_with_batch_queue small_hasher 2 3 [] pipelined) as [r e'] eqn:Hrun.
  destruct r as [[[outs|] []]|]; [|exact (False_ind _ Hv)..]. apply pair_equal_spec in Hv as [Hv1 Hv2].
  destruct (batch_queue_fifo small_hasher pipelined [] 2 3 [] (Some outs) true e')
    as (q' & new & old & Hq & _ & _ & _ & _ & x & e1 & q1 & e2 & _ & _ & Hq1 & Hx & _).
  { reflexivity. }
  { vm_compute. reflexivity. }
  { exact Hrun. }
  exists outs, e', x, e1, q1, e2. split; [reflexivity|]. split; [|split; [exact Hv2|by split]].
  rewrite Hq in Hv1 |- *. simpl in Hv1. injection Hv1 as Hv1. apply nil_length_inv in Hv1. by rewrite Hv1.
Defined.
