(* ===== verification/EngineLive.v ===== *)
(** * The engine finishes its requests

    With room for one request of the greatest length, workers that sample a token whenever
    all tokens of a request are computed, and the policy first come, first served, every
    step of the engine brings its requests nearer to their end: the requests that are there
    finish in a bounded number of steps, and after a signal the loop of the engine process
    ends, whatever its clients send. *)

From S2P Require Import Prelude FreeQueue Request BlockHash BlockPool KVSpec CacheHit SingleType Coordinator KVManager KVCalls HitToSlots KVService Heap RequestQueue SchedUtils EncoderCache SpecControl SchedOutput SchedState EncoderSched Schedule SchedRequests SchedUpdate EngineCore EngineProc SchedFrame SchedInv SchedRun SchedWait SchedStep SchedLife SchedLeave SchedApply SchedOrder SchedProgress EngineSafe.

#[local] Open Scope Z_scope.
#[local] Set Default Proof Using "Type*".

(** ** A measure *)

Section Sums.
Context {A : Type}.
Implicit Types (f g : A → Z) (l : list A).

Lemma sumZ_fmap_le f g l : (∀ x, x ∈ l → f x ≤ g x) → sumZ (f <$> l) ≤ sumZ (g <$> l).
Proof.
  induction l as [|x l IH]; intros Hle; [done|]. rewrite !fmap_cons. cbn [sumZ foldr].
  pose proof (Hle x ltac:(by left)). specialize (IH ltac:(intros y Hy; apply Hle; by right)). unfold sumZ in IH. lia.
Qed.
Lemma sumZ_fmap_lt f g l x : (∀ x, x ∈ l → f x ≤ g x) → x ∈ l → f x < g x → sumZ (f <$> l) < sumZ (g <$> l).
Proof.
  intros Hle Hin Hlt. apply list_elem_of_split in Hin as (a & b & ->). rewrite !fmap_app, !fmap_cons, !sumZ_app. cbn [sumZ foldr].
  pose proof (sumZ_fmap_le f g a ltac:(intros y Hy; apply Hle; set_solver)).
  pose proof (sumZ_fmap_le f g b ltac:(intros y Hy; apply Hle; set_solver)). unfold sumZ in *. lia.
Qed.
Lemma sumZ_fmap_len f l : (∀ x, x ∈ l → 1 ≤ f x) → len l ≤ sumZ (f <$> l).
Proof.
  intros Hle. etrans; [|apply (sumZ_fmap_le (λ _, 1)), Hle]. clear Hle. induction l as [|x l IH]; [done|].
  rewrite fmap_cons. unfold len, sumZ in *. simpl. lia.
Qed.
Lemma sumZ_fmap_perm f l l' : l ≡ₚ l' → sumZ (f <$> l) = sumZ (f <$> l').
Proof. induction 1; rewrite ?fmap_cons; unfold sumZ in *; simpl; lia. Qed.
End Sums.

(** The workers sample a token for every request whose tokens are all computed; [s1] is the
    scheduler after the batch [o] was made. *)
Definition samples {E : Env} {SE : SchedEnv} (s1 : Scheduler) (o : SchedulerOutput ConnMeta) (mro : ModelRunnerOutput) : Prop :=
  ∀ r, r ∈ running s1 → request_id (obj s1 r) ∈ (out_num_scheduled_tokens o).*1 →
    num_tokens (obj s1 r) ≤ num_computed_tokens (obj s1 r) → sampled mro (request_id (obj s1 r)) ≠ [].

Section Measure.
Context {E : Env} {SE : SchedEnv} {max_len hash_bs : Z} {KS : KVService max_len hash_bs}.
Context (sha256 : list bytes → bytes) (hash_function : bytes * list Z * option (list ExtraKey) → bytes) (NONE_HASH : bytes).
Context (max_len_pos : 0 < max_len).
Implicit Types (s : Scheduler) (cov : gmap string Z) (r h : req_ref) (q : Request).
Abbreviation serving := (serving (max_len := max_len) (hash_bs := hash_bs) sha256 hash_function NONE_HASH).
Abbreviation computed s r := (num_computed_tokens (obj s r)).

(** The tokens a request may still generate. *)
Definition remaining q : Z := max_tokens q - num_output_tokens q.
Definition total s : Z := sumZ ((λ r, remaining (obj s r)) <$> all_reqs s []).
(** The tokens the oldest running request has to compute. *)
Definition head_left s : Z :=
  match running s with [] => max_len + 1 | h :: _ => num_tokens (obj s h) - computed s h end.
Definition work s : Z := total s * (max_len + 2) + head_left s.

Lemma serving_remaining s cov r : serving s cov → r ∈ all_reqs s [] → 1 ≤ remaining (obj s r).
Proof. intros Hs Hr. destruct (sg_served _ _ _ _ _ Hs r Hr) as [_ _ _ Hroom _]. unfold remaining. lia. Qed.

Lemma serving_simple s cov : serving s cov → simple s.
Proof. intros Hs r Hr. destruct (sg_served _ _ _ _ _ Hs r Hr) as [_ _ _ _ (? & ? & ?)]. by split; [split|]. Qed.

Lemma serving_running s cov r : serving s cov → r ∈ running s → 0 ≤ computed s r ∧ 0 < num_tokens (obj s r) < max_len.
Proof.
  intros Hs Hr. destruct (si_run _ _ _ (id_inv _ _ (sg_idle _ _ _ _ _ Hs)) r Hr) as [_ [_ [? _ _] _] (c & _ & ?) _]. lia.
Qed.

Lemma head_left_bounds s cov : serving s cov → hungry s → 1 ≤ head_left s ≤ max_len + 1.
Proof.
  intros Hs Hh. unfold head_left. destruct (running s) as [|h t] eqn:Hr; [lia|].
  assert (h ∈ running s) as Hin by (rewrite Hr; by left). pose proof (Hh h Hin). pose proof (serving_running s cov h Hs Hin). lia.
Qed.

Lemma total_nonneg s cov : serving s cov → 0 ≤ total s.
Proof.
  intros Hs. etrans; [apply (len_nonneg (all_reqs s []))|]. apply sumZ_fmap_len. intros r. by apply (serving_remaining s cov).
Qed.
Lemma work_nonneg s cov : serving s cov → hungry s → 0 < work s.
Proof. intros Hs Hh. pose proof (head_left_bounds s cov Hs Hh). pose proof (total_nonneg s cov Hs). unfold work. nia. Qed.

(** The requests [X] are gone, the others went on. *)
Lemma work_less s s' cov cov' (X : list req_ref) :
  serving s cov → serving s' cov' → hungry s → hungry s' → all_reqs s [] ≡ₚ X ++ all_reqs s' [] →
  (∀ r, r ∈ all_reqs s' [] → remaining (obj s' r) ≤ remaining (obj s r)) →
  (head_left s' ≤ head_left s → work s' ≤ work s) ∧
  (X ≠ [] ∨ (∃ r, r ∈ all_reqs s' [] ∧ remaining (obj s' r) < remaining (obj s r)) ∨ head_left s' < head_left s → work s' < work s).
Proof.
  intros Hs Hs' Hh Hh' Hall Hle. pose proof (head_left_bounds s cov Hs Hh). pose proof (head_left_bounds s' cov' Hs' Hh').
  assert (total s = sumZ ((λ r, remaining (obj s r)) <$> X) + sumZ ((λ r, remaining (obj s r)) <$> all_reqs s' [])) as Ht.
  { unfold total. rewrite (sumZ_fmap_perm _ _ _ Hall). by rewrite fmap_app, sumZ_app. }
  assert (len X ≤ sumZ ((λ r, remaining (obj s r)) <$> X)) as HX.
  { apply sumZ_fmap_len. intros r Hr. apply (serving_remaining s cov r Hs). rewrite Hall. set_solver. }
  pose proof (sumZ_fmap_le _ _ _ Hle) as Hsum. fold (total s') in Hsum.
  assert (total s' + len X ≤ total s) as Htot by lia. pose proof (len_nonneg X). unfold work. split; [nia|].
  intros [Hne|[(r & Hr & Hlt)|Hlt]].
  - assert (0 < len X) by (destruct X; [done|unfold len; simpl; lia]). nia.
  - pose proof (sumZ_fmap_lt _ _ _ r Hle Hr Hlt) as Hs2. fold (total s') in Hs2. assert (total s' < total s) by lia. nia.
  - nia.
Qed.

(** The state of an engine that can finish its requests. *)
Record calm s : Prop := {
  cm_eager : eager (max_len := max_len) (hash_bs := hash_bs) s;
  cm_hungry : hungry s;
  cm_sessions : num_waiting_for_streaming_input s = 0
}.
End Measure.

Section Live.
Context {E : Env} {SE : SchedEnv} {XE : ExecEnv} {max_len hash_bs : Z} {KS : KVService max_len hash_bs}.
Context (sha256 : list bytes → bytes) (hash_function : bytes * list Z * option (list ExtraKey) → bytes).
Context (NONE_HASH : bytes) (Hbs : 0 < hash_bs) (max_len_pos : 0 < max_len).
Context (hash_inj : ∀ x y, hash_function x = hash_function y → x = y).
Context (hash_not_none : ∀ x, hash_function x ≠ NONE_HASH).
Context (hash_not_empty : ∀ x, hash_function x ≠ []).
Context (set_iter_perm : ∀ l : list Z, NoDup l → set_iter l ≡ₚ l).
Context (str_set_iter_perm : ∀ l : list string, NoDup l → str_set_iter l ≡ₚ l).
Context (workers_answer : ∀ o g x, wp (run_model o g) (λ m _, answers (out_num_scheduled_tokens o) m) x).
Context (workers_sample : ∀ ts s o s1 g x m x', schedule ts s = (Ok o, s1) → run_model o g x = (Ok m, x') → samples s1 o m).
Implicit Types (e : EngineCore) (s : Scheduler) (cov : gmap string Z) (r h : req_ref) (q : Request).
Abbreviation hasher := (Some (request_block_hasher sha256 hash_function NONE_HASH hash_bs)).
Abbreviation serving := (serving (max_len := max_len) (hash_bs := hash_bs) sha256 hash_function NONE_HASH).
Abbreviation parts := (parts (max_len := max_len) (hash_bs := hash_bs) sha256 hash_function NONE_HASH).
Abbreviation calm := (calm (max_len := max_len) (hash_bs := hash_bs)).
Abbreviation work := (work (max_len := max_len)).
Abbreviation rid s r := (request_id (obj s r)).
Abbreviation computed s r := (num_computed_tokens (obj s r)).

Lemma has_unfinished_ok s cov : serving s cov → calm s → has_unfinished_requests s = bool_decide (all_reqs s [] ≠ []).
Proof using Type.
  intros Hs [He _ Hn]. unfold has_unfinished_requests, get_num_unfinished_requests, queue_size. rewrite (eg_open _ He), Hn.
  pose proof (id_inv _ _ (sg_idle _ _ _ _ _ Hs)) as Hi.
  rewrite !(queue_len_ok (obj s) (si_obj _ _ _ Hi) (policy (config_ s))) by (by eapply si_waiting || by eapply si_skipped).
  fold (waiting_list s) (skipped_list s).
  assert (len (waiting_list s) + len (skipped_list s) - 0 + len (running s) = len (all_reqs s [])) as ->
    by (unfold all_reqs, len; rewrite !length_app; simpl; lia).
  unfold len. destruct (all_reqs s []); [done|]. rewrite bool_decide_eq_true_2 by done. apply Z.ltb_lt. simpl. lia.
Qed.

(** ** A step *)

Section Step.
Context (s s' s1 s2 : Scheduler) (cov cov' cov1 cov2 : gmap string Z) (ts : Z) (late : list string).
Context (o : SchedulerOutput ConnMeta) (mro : ModelRunnerOutput) (L : list req_ref) (G : gset req_ref).
Context (Hs : serving s cov) (Hs' : serving s' cov') (Hc : calm s).
Context (Hp : parts s ts late s' cov' o mro L G s1 s2 cov1 cov2).
Abbreviation D := (out_num_scheduled_tokens o).

Lemma step_all : all_reqs s [] ≡ₚ (L ++ elements G) ++ all_reqs s' [].
Proof.
  destruct Hp as [_ P2 _ _ P5 _ P7 _]. rewrite <- (sd_all _ _ _ _ P2), (gn_all _ _ _ _ _ P5), (al_all _ _ _ _ _ _ _ _ _ P7).
  by rewrite app_assoc.
Qed.

Lemma step_gone_not r : r ∈ all_reqs s' [] → r ∉ L ∧ r ∉ G.
Proof.
  intros Hr. pose proof (inv_nodup _ _ _ (id_inv _ _ (sg_idle _ _ _ _ _ Hs))) as Hn. rewrite step_all in Hn.
  apply NoDup_app in Hn as (_ & Hd & _). split; intros Hin; apply (Hd r); [set_solver|done|apply elem_of_app; right; by apply elem_of_elements|done].
Qed.

(** A request that goes on. *)
Lemma step_request r : r ∈ all_reqs s' [] →
  max_tokens (obj s' r) = max_tokens (obj s r) ∧ num_prompt_tokens (obj s' r) = num_prompt_tokens (obj s r) ∧
  computed s' r = computed s1 r ∧ num_tokens (obj s1 r) = num_tokens (obj s r) ∧ rid s1 r = rid s r ∧
  _output_token_ids (obj s' r) = _output_token_ids (obj s r) ++ (if decide (rid s r ∈ D.*1) then sampled mro (rid s r) else []).
Proof.
  intros Hr. destruct (step_gone_not r Hr) as [HL HG]. destruct Hp as [_ P2 P3 _ P5 P6 P7 _].
  pose proof (gn_obj _ _ _ _ _ P5 r HL) as Ho. destruct (al_drafts _ _ _ _ _ _ _ _ _ P7) as [Hl _]. specialize (Hl r). rewrite Ho in Hl.
  unfold lasting in Hl. injection Hl as _ Hcm Hmx Hpr. pose proof (f_equal max_tokens (P3 r)). pose proof (f_equal num_prompt_tokens (P3 r)).
  pose proof (f_equal _all_token_ids (P3 r)) as Hat. assert (Hid : rid s1 r = rid s r) by exact (f_equal request_id (P3 r)). simpl in *.
  assert (r ∈ all_reqs s []) as Hin by (rewrite step_all; set_solver).
  destruct (stepped_ok sha256 hash_function NONE_HASH Hbs hash_inj hash_not_none hash_not_empty set_iter_perm str_set_iter_perm workers_answer
    s s1 s2 s' o mro late L G cov1 cov2 cov' P2 P3 P5 P6 P7) as [_ _ _ Htok].
  destruct (Htok r Hin) as (kept & Hk & Hout). rewrite bool_decide_eq_false_2 in Hk by done. apply cut_kept in Hk. subst kept.
  split_and!; try congruence; [unfold num_tokens; congruence|]. rewrite Hout. f_equal. apply decide_ext. tauto.
Qed.
Lemma step_tokens r : r ∈ all_reqs s' [] →
  let kept := if decide (rid s r ∈ D.*1) then sampled mro (rid s r) else [] in
  num_tokens (obj s' r) = num_tokens (obj s r) + len kept ∧ remaining (obj s' r) = remaining (obj s r) - len kept.
Proof.
  intros Hr kept. destruct (step_request r Hr) as (Hm & Hpr & _ & _ & _ & Ho). fold kept in Ho.
  assert (r ∈ all_reqs s []) as Hin by (rewrite step_all; set_solver).
  pose proof (sv_tokens _ _ _ _ _ _ (sg_served _ _ _ _ _ Hs r Hin)) as H1. pose proof (sv_tokens _ _ _ _ _ _ (sg_served _ _ _ _ _ Hs' r Hr)) as H2.
  unfold remaining, num_output_tokens in *. rewrite Ho, len_app in *. lia.
Qed.

Lemma step_running r : r ∈ running s' ↔ r ∈ running s1 ∧ r ∉ L ∧ r ∉ G.
Proof.
  destruct Hp as [_ _ _ _ P5 _ P7 _]. destruct (al_config _ _ _ _ _ _ _ _ _ P7) as (_ & _ & ->).
  rewrite (gn_running _ _ _ _ _ P5), !list_elem_of_filter. tauto.
Qed.

(** A running request has computed no more than its tokens. *)
Lemma step_within r : r ∈ running s1 → computed s1 r ≤ num_tokens (obj s1 r).
Proof.
  intros Hr. pose proof (pt_done _ _ _ _ _ _ _ _ _ _ _ _ _ _ _ _ Hp) as P2. pose proof (sd_ready _ _ _ _ P2 r Hr) as Hw.
  pose proof (ts_spec _ (sg_settings _ _ _ _ _ Hs)) as Hsp. unfold within in Hw.
  assert (r ∈ all_reqs s []) as Hin by (rewrite <- (sd_all _ _ _ _ P2); unfold all_reqs; set_solver).
  destruct (sg_served _ _ _ _ _ Hs r Hin) as [_ _ _ _ (_ & _ & Hz)].
  assert (num_output_placeholders (obj s1 r) = num_output_placeholders (obj s r)) as Hz1
    by exact (f_equal num_output_placeholders (pt_core _ _ _ _ _ _ _ _ _ _ _ _ _ _ _ _ Hp r)). lia.
Qed.

Lemma step_hungry : hungry s'.
Proof.
  intros r Hr. assert (r ∈ all_reqs s' []) as Hin by (unfold all_reqs; set_solver). pose proof Hr as (Hr1 & HL & HG)%step_running.
  destruct (step_request r Hin) as (_ & _ & -> & Ht & Hid & _). destruct (step_tokens r Hin) as [-> _].
  pose proof (step_within r Hr1) as Hw. destruct Hp as [P1 P2 _ (g & x & x' & P4) _ _ _ _].
  pose proof (workers_sample _ _ _ _ _ _ _ _ P1 P4 r Hr1) as Hsam. rewrite Hid in Hsam. case_decide as HD.
  - specialize (Hsam HD). pose proof (len_nonneg (sampled mro (rid s r))).
    destruct (decide (num_tokens (obj s1 r) ≤ computed s1 r)) as [Hle|]; [|lia]. specialize (Hsam Hle).
    destruct (sampled mro (rid s r)); [done|]. unfold len. simpl. lia.
  - assert (r ∈ running s) as Hr0 by (apply (sd_old _ _ _ _ P2); [done|by rewrite Hid]). pose proof (cm_hungry _ Hc r Hr0).
    rewrite (sd_keep _ _ _ _ P2 r Hr1 Hr0), Hid. destruct (od_get _ _) eqn:Hg; [|unfold len; simpl; lia].
    exfalso. apply HD. apply od_get_is_Some. by eexists.
Qed.

Lemma step_calm : calm s'.
Proof.
  split; [|exact step_hungry|].
  - destruct Hp as [_ P2 _ _ P5 _ P7 _]. destruct (al_config _ _ _ _ _ _ _ _ _ P7) as (C1 & F1 & _).
    destruct (gn_rest _ _ _ _ _ P5) as (C2 & _). destruct (gn_flags _ _ _ _ _ P5) as [F2 _]. destruct (sd_flags _ _ _ _ P2) as [F3 _].
    injection F1 as F1 _. injection F3 as F3 _. destruct (cm_eager _ Hc) as [E1 E2 E3 E4 E5 E6].
    assert (config_ s' = config_ s) as Hcfg by (rewrite C1, C2; apply P2). split; rewrite ?Hcfg; try done. congruence.
  - destruct Hp as [_ P2 P3 _ P5 _ P7 _]. destruct (al_config _ _ _ _ _ _ _ _ _ P7) as (_ & F1 & _).
    destruct (gn_flags _ _ _ _ _ P5) as [_ F2]. destruct (sd_flags _ _ _ _ P2) as [F3 _]. injection F1 as _ F1. injection F3 as _ F3.
    rewrite F1, F2, F3; [apply Hc|]. intros r Hr. rewrite (sd_all _ _ _ _ P2) in Hr.
    destruct (sg_served _ _ _ _ _ Hs r Hr) as [_ _ _ _ (_ & ? & _)]. pose proof (f_equal resumable (P3 r)) as He. simpl in He. congruence.
Qed.

(** No request comes; those that are there come nearer to their end. *)
Lemma step_less : all_reqs s [] ≠ [] → work s' < work s.
Proof.
  intros Hne. pose proof step_hungry as Hh'. pose proof (serving_simple _ _ _ max_len_pos _ _ Hs) as Hsm.
  pose proof (sg_idle _ _ _ _ _ Hs) as Hid. pose proof Hc as [He Hh _].
  destruct (work_less _ _ _ max_len_pos s s' cov cov' _ Hs Hs' Hh Hh' step_all) as [_ Hlt].
  { intros r Hr. destruct (step_tokens r Hr) as [_ ->]. pose proof (len_nonneg (if decide (rid s r ∈ D.*1) then sampled mro (rid s r) else [])). lia. }
  assert (Hout : ∀ r, r ∈ running s1 → r ∉ running s' → work s' < work s).
  { intros r Hr Hn. apply Hlt. left. rewrite step_running in Hn. intros [HL HG]%app_nil. apply Hn. split; [done|].
    apply elements_empty_inv in HG. rewrite HL, HG. set_solver. }
  pose proof (pt_schedule _ _ _ _ _ _ _ _ _ _ _ _ _ _ _ _ Hp) as P1.
  destruct (running s) as [|h t] eqn:Hrun.
  - destruct (schedule_start set_iter_perm s cov ts Hid He Hsm Hrun Hne) as (o2 & s3 & Hsch & Hne1). rewrite P1 in Hsch. injection Hsch as <- <-.
    destruct (running s') as [|h' t'] eqn:Hrun'.
    + destruct (running s1) as [|r l] eqn:Hr1; [done|]. apply (Hout r); [by left|apply not_elem_of_nil].
    + apply Hlt. right. right. unfold head_left. rewrite Hrun, Hrun'. assert (h' ∈ running s') as Hin by (rewrite Hrun'; by left).
      pose proof (serving_running _ _ _ max_len_pos s' cov' h' Hs' Hin). lia.
  - destruct (schedule_head set_iter_perm s cov ts h Hid He Hsm Hh ltac:(by rewrite Hrun)) as (o2 & s3 & cov3 & Hsch & _ & Hhd & HD & Hcm).
    rewrite P1 in Hsch. injection Hsch as <- <-.
    assert (h ∈ running s1) as Hin1 by (destruct (running s1); [done|injection Hhd as ->; by left]).
    destruct (decide (h ∈ running s')) as [Hin|Hn]; [|by apply (Hout h)].
    assert (h ∈ all_reqs s' []) as Hall by (unfold all_reqs; set_solver). apply Hlt. right.
    destruct (step_request h Hall) as (_ & _ & Hc1 & _ & Hid1 & _). destruct (step_tokens h Hall) as [Ht Hrm].
    rewrite Hid1 in HD. rewrite decide_True in Ht, Hrm by done. pose proof (len_nonneg (sampled mro (rid s h))).
    destruct (decide (len (sampled mro (rid s h)) = 0)) as [Hz|]; [|left; exists h; split; [done|lia]].
    right. unfold head_left. assert (head (running s') = Some h) as Hhd'.
    { destruct Hp as [_ _ _ _ P5 _ P7 _]. destruct (al_config _ _ _ _ _ _ _ _ _ P7) as (_ & _ & ->). rewrite (gn_running _ _ _ _ _ P5).
      apply step_running in Hin as (_ & HL & HG). destruct (running s1) as [|y l]; [done|]. injection Hhd as ->. by rewrite !filter_cons_True. }
    rewrite Hrun. destruct (running s'); [done|]. injection Hhd' as ->. lia.
Qed.

(** Without requests, a step forgets those that had finished. *)
Lemma step_empty : all_reqs s [] = [] → has_requests s' = false.
Proof.
  intros Hnil. pose proof step_all as Hall. rewrite Hnil in Hall. symmetry in Hall. apply Permutation_nil_r, app_nil in Hall as [[HL _]%app_nil Hall'].
  pose proof step_calm as Hc'. unfold has_requests. rewrite (has_unfinished_ok s' cov' Hs' Hc'), bool_decide_eq_false_2 by by intros [].
  unfold has_finished_requests. destruct Hp as [_ P2 _ _ P5 _ P7 P8]. assert (D = []) as HD.
  { destruct D as [|[id n] d] eqn:HDe; [done|]. destruct (sd_slots _ _ _ _ P2 id n) as (r & Hr & _); [rewrite HDe; by left|].
    assert (r ∈ all_reqs s1 []) as Hin by (unfold all_reqs; set_solver). rewrite (sd_all _ _ _ _ P2), Hnil in Hin. by apply elem_of_nil in Hin. }
  rewrite (P8 HD), (gn_finished _ _ _ _ _ P5 HL), (proj2 (sd_flags _ _ _ _ P2)); [done|]. apply (ts_sync _ (sg_settings _ _ _ _ _ Hs)).
Qed.
End Step.

(** ** Requests that leave from outside *)

Lemma gone_calm s s' cov cov' st (L : list req_ref) :
  serving s cov → serving s' cov' → calm s → gone s s' st L cov' →
  calm s' ∧ work s' ≤ work s ∧ (all_reqs s [] = [] → all_reqs s' [] = [] ∧ has_requests s' = has_requests s).
Proof.
  intros Hs Hs' Hc Hg. pose proof Hg as [_ Gall Grun _ Gobj _ _ (Gc & _) (Gp & Gn) Gf].
  pose proof (inv_nodup _ _ _ (id_inv _ _ (sg_idle _ _ _ _ _ Hs))) as Hnd. rewrite Gall in Hnd. apply NoDup_app in Hnd as (_ & Hd & _).
  assert (Hob : ∀ r, r ∈ all_reqs s' [] → obj s' r = obj s r) by (intros r Hr; apply Gobj; intros HL; by apply (Hd r)).
  assert (Hin : ∀ r, r ∈ running s' → r ∈ all_reqs s' []) by (intros r Hr; unfold all_reqs; set_solver).
  assert (hungry s') as Hh'.
  { intros r Hr. rewrite Hob by auto. apply (cm_hungry _ Hc). rewrite Grun in Hr. by apply list_elem_of_filter in Hr as [_ ?]. }
  assert (calm s') as Hc'.
  { split; [|done|].
    - destruct (cm_eager _ Hc) as [E1 E2 E3 E4 E5 E6]. split; rewrite ?Gc; try done. congruence.
    - rewrite Gn; [apply Hc|]. intros r Hr. destruct (sg_served _ _ _ _ _ Hs r Hr) as [_ _ _ _ (_ & ? & _)]. done. }
  split; [done|]. split.
  - destruct (work_less _ _ _ max_len_pos s s' cov cov' L Hs Hs' (cm_hungry _ Hc) Hh' Gall) as [Hle Hlt].
    { intros r Hr. by rewrite Hob. }
    destruct (decide (L = [])) as [->|Hne]; [|apply Z.lt_le_incl, Hlt; by left]. apply Hle.
    rewrite filter_notin_nil in Grun. unfold head_left. rewrite Grun. destruct (running s) as [|h t] eqn:Hr; [done|].
    rewrite Hob; [done|]. apply Hin. rewrite Grun. by left.
  - intros Hnil. rewrite Hnil in Gall. symmetry in Gall. apply Permutation_nil_r, app_nil in Gall as [HL Hall]. split; [done|].
    unfold has_requests, has_finished_requests. by rewrite (has_unfinished_ok s cov), (has_unfinished_ok s' cov'), Hnil, Hall, Gf.
Qed.

(** ** The engine *)

(** A step of an engine that can finish its requests. *)
Lemma step_live e cov ts now late :
  serving (scheduler e) cov → calm (scheduler e) →
  wp (step hasher ts now late) (λ _ e', ∃ cov', serving (scheduler e') cov' ∧ calm (scheduler e') ∧
    batch_queue e' = batch_queue e ∧ engine_settings e' = engine_settings e ∧
    if decide (all_reqs (scheduler e) [] = []) then all_reqs (scheduler e') [] = [] ∧ has_requests (scheduler e') = false
    else work (scheduler e') < work (scheduler e)) e.
Proof.
  intros Hs Hc. eapply wp_mono; [by eapply (step_ok sha256 hash_function NONE_HASH Hbs hash_inj hash_not_none hash_not_empty set_iter_perm
    str_set_iter_perm workers_answer)|].
  intros res e' (cov' & s' & x & -> & Hs' & Hif). exists cov'. simpl. split; [done|].
  destruct (has_requests (scheduler e)) eqn:Hhas.
  - destruct Hif as (o & mro & L & G & s1 & s2 & cov1 & cov2 & _ & Hp & _).
    pose proof (step_calm _ _ _ _ _ _ _ _ _ _ _ _ _ _ Hs Hs' Hc Hp) as Hc'. split_and!; try done. case_decide as Hnil.
    + split; [|exact (step_empty _ _ _ _ _ _ _ _ _ _ _ _ _ _ Hs Hs' Hc Hp Hnil)].
      pose proof (step_all _ _ _ _ _ _ _ _ _ _ _ _ _ _ Hs Hs' Hc Hp) as Hall. rewrite Hnil in Hall. symmetry in Hall.
      by apply Permutation_nil_r, app_nil in Hall as [_ ?].
    + exact (step_less _ _ _ _ _ _ _ _ _ _ _ _ _ _ Hs Hs' Hc Hp Hnil).
  - destruct Hif as [-> ->]. split_and!; try done. unfold has_requests in Hhas. rewrite (has_unfinished_ok (scheduler e) cov Hs Hc) in Hhas.
    apply orb_false_iff in Hhas as [Hnil%bool_decide_eq_false Hfin]. case_decide as Hd; [|by destruct Hnil].
    split; [done|]. unfold has_requests. rewrite (has_unfinished_ok (scheduler e) cov Hs Hc), Hfin, Hd. done.
Qed.

(** Steps, one after the other. *)
Definition make_step (t : Z * Z * list (list string)) : M EngineCore unit :=
  let '(ts, now, late) := t in _ ← step hasher ts now late; mret tt.

Lemma steps_live l : ∀ e cov,
  serving (scheduler e) cov → calm (scheduler e) → all_reqs (scheduler e) [] = [] ∨ work (scheduler e) < len l →
  ∃ e' cov', for_ l make_step e = (Ok tt, e') ∧ serving (scheduler e') cov' ∧ all_reqs (scheduler e') [] = [].
Proof.
  induction l as [|[[ts now] late] l IH]; intros e cov Hs Hc Hn.
  - exists e, cov. split_and!; try done. destruct Hn as [|Hn]; [done|].
    pose proof (work_nonneg _ _ _ max_len_pos _ cov Hs (cm_hungry _ Hc)). unfold len in Hn. simpl in Hn. lia.
  - pose proof (step_live e cov ts now late Hs Hc) as Hw. apply wp_run in Hw as (res & e1 & Hrun & cov1 & Hs1 & Hc1 & _ & _ & Hd).
    destruct (IH e1 cov1 Hs1 Hc1) as (e' & cov' & Hrest & Hfin).
    { case_decide as Hnil; [left; by destruct Hd|]. right. destruct Hn as [|Hn]; [done|]. unfold len in *. simpl in Hn. lia. }
    exists e', cov'. split; [|done]. cbn [for_]. rewrite (bind_ok_run _ _ _ tt e1); [done|]. unfold make_step.
    by rewrite (bind_ok_run _ _ _ _ _ Hrun).
Qed.

(** ** The process after a signal *)

Abbreviation core := EngineProc.core.

(** Whatever clients send; a worker that fails ends the loop by an exception. *)
Definition harmless (m : EngineCoreRequestType) : Prop := match m with EXECUTOR_FAILED => False | _ => True end.
Definition harmless_event (ev : event) : Prop := match ev with Message m => harmless m | _ => True end.

Record ending (p : EngineCoreProc) cov : Prop := {
  en_serving : serving (scheduler (core p)) cov;
  en_calm : calm (scheduler (core p));
  en_state : shutdown_state p ≠ RUNNING_;
  en_alone : engines_running p = false ∧ data_parallel (dp p) = false;
  en_sync : batch_queue (core p) = None ∧ use_spec_decode (engine_settings (core p)) = false;
  en_input : Forall harmless (input_queue p)
}.
Abbreviation sched p := (scheduler (core p)).

(** Nothing was added. *)
Definition quieter (p p' : EngineCoreProc) : Prop :=
  work (sched p') ≤ work (sched p) ∧ (all_reqs (sched p) [] = [] → all_reqs (sched p') [] = [] ∧ has_requests (sched p') = has_requests (sched p)).
Lemma quieter_refl p : quieter p p.
Proof. done. Qed.
Lemma quieter_trans p1 p2 p3 : quieter p1 p2 → quieter p2 p3 → quieter p1 p3.
Proof. intros [H1 H2] [H3 H4]. split; [lia|]. intros H. destruct (H2 H) as [H5 <-]. by apply H4. Qed.

Lemma wp_on_core {A} (m : M EngineCore A) Q p : wp m (λ a e, Q a (set_core e p)) (core p) → wp (on_core m) Q p.
Proof using Type. apply wp_zoom. Qed.

Lemma wp_core_inv {A} (m : M EngineCore A) Q p : wp (on_core m) Q p → wp m (λ a e, Q a (set_core e p)) (core p).
Proof using Type. unfold wp, on_core, zoom. by destruct (m (core p)) as [[] ?]. Qed.

Lemma finish_ending p cov a :
  ending p cov → wp (on_core (on_scheduler (finish_requests a FINISHED_ABORTED))) (λ _ p', ∃ cov' s',
    p' = set_core (set_scheduler s' (core p)) p ∧ ending p' cov' ∧ quieter p p') p.
Proof.
  intros [Hs Hc Hst Hal Hsy Hin]. apply wp_on_core.
  apply wp_on_scheduler.
  eapply wp_mono; [exact (finish_serving sha256 hash_function NONE_HASH set_iter_perm str_set_iter_perm _ cov a FINISHED_ABORTED Hs eq_refl)|].
  intros _ s' (L & cov' & Hs' & Hg & _). exists cov', s'. destruct (gone_calm _ _ _ _ _ _ Hs Hs' Hc Hg) as (Hc' & Hle & Hnil).
  split; [done|]. by split; [split|].
Qed.

(** Outputs do not matter. *)
Lemma output_ending p cov c o : ending p cov → wp (put_output c o) (λ _ p', ending p' cov ∧ quieter p p' ∧ input_queue p' = input_queue p) p.
Proof. intros [Hs Hc Hst Hal Hsy Hin]. by split; [split|]. Qed.
Lemma outputs_ending {A} (l : list A) (f : A → M EngineCoreProc unit) : 
  (∀ x p cov, ending p cov → wp (f x) (λ _ p', ending p' cov ∧ quieter p p' ∧ input_queue p' = input_queue p) p) →
  ∀ p cov, ending p cov → wp (for_ l f) (λ _ p', ending p' cov ∧ quieter p p' ∧ input_queue p' = input_queue p) p.
Proof.
  intros Hf. induction l as [|x l IH]; intros p cov Hp; cbn [for_]; [sch_step; split_and!; try done; apply quieter_refl|].
  sch_step. eapply wp_mono; [by apply Hf|]. intros [] p1 (Hp1 & Hq1 & Hi1). eapply wp_mono; [by eapply IH|].
  intros [] p2 (Hp2 & Hq2 & Hi2). split_and!; [done|by eapply quieter_trans|congruence].
Qed.

Lemma shutdown_ending p cov :
  ending p cov → wp _handle_shutdown (λ b p', b = has_requests (sched p') ∧ ∃ cov', ending p' cov' ∧ quieter p p') p.
Proof.
  intros Hp. unfold _handle_shutdown. sch_step. sch_step. rewrite decide_False by apply Hp. sch_step.
  eapply wp_mono with (λ _ p', ∃ cov', ending p' cov' ∧ quieter p p').
  { case_decide; [|sch_step; exists cov; split; [done|apply quieter_refl]]. sch_step.
    eapply wp_mono with (λ _ p', ∃ cov', ending p' cov' ∧ quieter p p').
    { case_match; [|sch_step; exists cov; split; [done|apply quieter_refl]]. sch_step.
      eapply wp_mono; [by eapply finish_ending|]. intros ids ? (cov' & s' & -> & Hp' & Hq).
      eapply wp_mono; [eapply outputs_ending; [|exact Hp']|].
      { intros [c x] p1 cov1 Hp1. by apply output_ending. }
      intros [] p2 (Hp2 & Hq2 & _). exists cov'. split; [done|]. by eapply quieter_trans. }
    intros [] p1 (cov1 & [Hs Hc Hst Hal Hsy Hin] & Hq). sch_step. exists cov1. split; [by split|done]. }
  intros [] p1 (cov1 & Hp1 & Hq1). sch_step. split; [|by exists cov1]. unfold has_work.
  destruct (en_alone _ _ Hp1) as [-> _]. destruct (en_sync _ _ Hp1) as [-> _]. by rewrite orb_false_r.
Qed.

Lemma enqueue_ending ev p cov : harmless_event ev → ending p cov → wp (enqueue ev) (λ _ p', ending p' cov ∧ quieter p p') p.
Proof.
  intros Hev [Hs Hc Hst Hal Hsy Hin]. destruct ev as [m|id c|]; cbn [enqueue].
  - sch_step. split; [|done]. split; try done. simpl. by apply Forall_app; split; [|constructor].
  - eapply wp_mono; [apply (output_ending p cov); by split|]. by intros [] p' (? & ? & _).
  - sch_step. sch_step. sch_step. split; [|done]. split; try done. simpl. by apply Forall_app; split; [|repeat constructor].
Qed.

Lemma receive_ending ev p cov : harmless_event ev → ending p cov → wp (receive ev) (λ _ p', ending p' cov ∧ quieter p p') p.
Proof.
  intros Hev [Hs Hc Hst Hal Hsy Hin]. unfold receive, aborts_arrive. sch_step. apply wp_on_core. sch_step.
  eapply wp_mono; [by apply enqueue_ending; [|split]|]. done.
Qed.

Lemma for_ending (f : event → M EngineCoreProc unit) :
  (∀ ev p cov, harmless_event ev → ending p cov → wp (f ev) (λ _ p', ending p' cov ∧ quieter p p') p) →
  ∀ evs, Forall harmless_event evs → ∀ p cov, ending p cov → wp (for_ evs f) (λ _ p', ending p' cov ∧ quieter p p') p.
Proof.
  intros Hf. induction 1 as [|ev evs Hev _ IH]; intros p cov Hp; cbn [for_]; [sch_step; split; [done|apply quieter_refl]|].
  sch_step. eapply wp_mono; [by eapply Hf|]. intros [] p1 [Hp1 Hq1]. eapply wp_mono; [by eapply IH|].
  intros [] p2 [Hp2 Hq2]. split; [done|]. by eapply quieter_trans.
Qed.

(** A schedule of arrivals. *)
Abbreviation harmless_arrivals := (Forall (Forall harmless_event)).

(** Only the events of the group that arrives can make the input queue longer. *)
Lemma enqueue_length ev p : wp (enqueue ev) (λ _ p', (length (input_queue p') ≤ S (length (input_queue p)))%nat) p.
Proof using Type.
  destruct ev as [m|id c|]; cbn [enqueue]; [sch_step|apply wp_modify; simpl; lia|sch_step; sch_step; sch_step]; simpl; rewrite length_app; simpl; lia.
Qed.
Lemma receives_length evs : ∀ p, wp (for_ evs receive) (λ _ p', (length (input_queue p') ≤ length evs + length (input_queue p))%nat) p.
Proof using Type.
  induction evs as [|ev evs IH]; intros p; cbn [for_]; [by sch_step|]. sch_step. unfold receive, aborts_arrive. sch_step. apply wp_on_core. sch_step.
  eapply wp_mono; [apply enqueue_length|]. intros [] p1 H1. eapply wp_mono; [apply IH|]. intros [] p2 H2. simpl in *. lia.
Qed.

Lemma arrive_ending arrivals p cov :
  harmless_arrivals arrivals → ending p cov →
  wp (arrive arrivals) (λ rest p', harmless_arrivals rest ∧ ending p' cov ∧ quieter p p' ∧
    (length (input_queue p') + length (concat rest) ≤ length (input_queue p) + length (concat arrivals))%nat) p.
Proof.
  intros Ha Hp. destruct arrivals as [|evs arrivals]; cbn [arrive]; [sch_step; split_and!; try done; apply quieter_refl|].
  apply Forall_cons in Ha as [Hev Ha]. sch_step. eapply wp_mono; [exact (wp_conj _ _ _ _ (receives_length evs p) (for_ending _ receive_ending evs Hev p cov Hp))|].
  intros [] p1 [Hl [Hp1 Hq1]]. sch_step. split_and!; try done. simpl. rewrite length_app. lia.
Qed.

(** A message: nothing is added any more, and utility calls are refused. *)
Lemma message_ending p cov ts m :
  ending p cov → harmless m →
  wp (_handle_client_request hasher m ts) (λ _ p', (∃ cov', ending p' cov' ∧ quieter p p') ∧ input_queue p' = input_queue p) p.
Proof.
  intros Hp Hm. pose proof Hp as [Hs Hc Hst Hal Hsy Hin].
  assert (Hout : ∀ c o, wp (_ ← put_output c o; mret true) (λ b p', b = true ∧ (∃ cov', ending p' cov' ∧ quieter p p') ∧ input_queue p' = input_queue p) p).
  { intros c o. sch_step. eapply wp_mono; [by eapply output_ending|]. intros [] p2 (Hp2 & Hq2 & Hi2). sch_step. split; [done|].
    split; [|by rewrite Hi2]. by exists cov. }
  destruct m as [q' w|ids|w i|c i m| |]; cbn [_handle_client_request]; try done.
  - sch_step. unfold _reject_add_in_shutdown. sch_step. sch_step. rewrite decide_False by done.
    eapply wp_mono; [apply Hout|]. by intros b p2 [-> ?].
  - unfold abort_requests. apply wp_on_core. sch_step. pose proof (finish_ending p cov (FinishSet ids) Hp) as Hw.
    eapply wp_mono; [exact (wp_core_inv _ _ _ Hw)|]. intros l e (cov' & s' & He & Hp' & Hq'). sch_step. split; [by exists cov'|]. by rewrite He.
  - sch_step. sch_step. destruct Hal as [_ ->]. sch_step. split; [|done]. exists cov. split; [done|apply quieter_refl].
  - sch_step. unfold _reject_utility_in_shutdown. sch_step. sch_step. rewrite decide_False by done.
    eapply wp_mono; [apply Hout|]. by intros b p2 [-> ?].
  - sch_step. split; [|done]. exists cov. split; [done|apply quieter_refl].
Qed.

Lemma handle_ending p cov arrivals ts m msgs :
  ending p cov → harmless_arrivals arrivals → input_queue p = m :: msgs →
  wp (handle_next hasher arrivals ts) (λ rest p', harmless_arrivals rest ∧ (∃ cov', ending p' cov' ∧ quieter p p') ∧
    (length (input_queue p') + length (concat rest) < length (input_queue p) + length (concat arrivals))%nat) p.
Proof.
  intros Hp Ha Hq. unfold handle_next. sch_step. sch_step. rewrite Hq.
  pose proof Hp as [Hs Hc Hst Hal Hsy Hin]. rewrite Hq in Hin. apply Forall_cons in Hin as [Hm Hin]. sch_step. sch_step.
  set (p1 := set_input_queue msgs p). assert (ending p1 cov) as Hp1 by by split.
  sch_step. eapply wp_mono; [by apply (arrive_ending arrivals p1 cov)|]. intros rest p2 (Hr & Hp2 & Hq2 & Hl2). sch_step.
  eapply wp_mono; [by apply (message_ending p2 cov ts m)|]. intros [] p3 [(cov3 & Hp3 & Hq3) Hi3]. sch_step. split; [done|].
  split; [exists cov3; split; [done|]; by eapply quieter_trans; [|exact Hq3]|]. rewrite Hi3. simpl in *. lia.
Qed.

Lemma drain_ending ts : ∀ fuel arrivals p cov, ending p cov → harmless_arrivals arrivals →
  (length (input_queue p) + length (concat arrivals) < fuel)%nat →
  wp (drain_loop hasher fuel arrivals ts) (λ rest p', harmless_arrivals rest ∧ ∃ cov', ending p' cov' ∧ quieter p p') p.
Proof.
  induction fuel as [|fuel IH]; intros arrivals p cov Hp Ha Hf; [lia|]. cbn [drain_loop]. sch_step.
  eapply wp_mono; [by apply (arrive_ending arrivals p cov)|]. intros rest p1 (Hr & Hp1 & Hq1 & Hl1). sch_step. sch_step.
  destruct (input_queue p1) as [|m msgs] eqn:Hq.
  { sch_step. split; [done|]. by exists cov. }
  sch_step. eapply wp_mono; [by eapply handle_ending|]. intros rest' p2 (Hr' & (cov2 & Hp2 & Hq2) & Hl2). rewrite Hq in Hl2.
  eapply wp_mono; [eapply (IH rest' p2 cov2 Hp2 Hr'); lia|]. intros rest3 p3 (Hr3 & cov3 & Hp3 & Hq3). split; [done|]. exists cov3. split; [done|].
  eapply quieter_trans; [exact Hq1|]. by eapply quieter_trans.
Qed.

Lemma input_ending p cov arrivals ts :
  ending p cov → harmless_arrivals arrivals →
  wp (_process_input_queue hasher arrivals ts) (λ b p', b = true ∧ ∃ cov', ending p' cov' ∧ quieter p p') p.
Proof.
  intros Hp Ha. unfold _process_input_queue. sch_step. sch_step. sch_step. cbn [wait_loop]. sch_step.
  eapply wp_mono; [by apply (arrive_ending arrivals p cov)|]. intros rest p1 (Hr & Hp1 & Hq1 & _). sch_step. sch_step.
  assert (is_running p1 = false) as -> by (apply bool_decide_eq_false_2, Hp1). rewrite andb_false_r. sch_step. sch_step. sch_step. sch_step.
  eapply wp_mono; [eapply drain_ending; [exact Hp1|exact Hr|lia]|]. intros rest2 p2 (Hr2 & cov2 & Hp2 & Hq2). sch_step.
  eapply wp_mono; [apply (for_ending _ receive_ending (concat rest2)); [by apply Forall_concat|exact Hp2]|]. intros [] p3 [Hp3 Hq3].
  sch_step. split; [done|]. exists cov2. split; [done|]. eapply quieter_trans; [exact Hq1|]. by eapply quieter_trans.
Qed.

Lemma pass_ending p0 cov0 t :
  ending p0 cov0 → Forall harmless_event (tk_late t) → wp (_process_engine_step hasher t) (λ _ p', ∃ cov', ending p' cov' ∧
    if decide (all_reqs (sched p0) [] = []) then all_reqs (sched p') [] = [] ∧ has_requests (sched p') = false
    else all_reqs (sched p') [] = [] ∧ has_requests (sched p') = false ∨ work (sched p') < work (sched p0)) p0.
Proof.
  intros Hp0 Hl. unfold _process_engine_step. sch_step.
  eapply wp_mono; [exact (for_ending _ enqueue_ending (tk_late t) Hl p0 cov0 Hp0)|]. intros [] p [Hp [Hle0 Hnil0]]. clear Hp0.
  rename cov0 into cov. destruct Hp as [Hs Hc Hst Hal [Hb Hsp] Hin]. sch_step. apply wp_on_core. unfold step_fn. sch_step. sch_step.
  rewrite Hb. sch_step. eapply wp_mono; [by eapply step_live|]. intros [outs ex] e' (cov' & Hs' & Hc' & Hb' & He' & Hd). sch_step. sch_step.
  set (p1 := set_core e' p). assert (ending p1 cov') as Hp1 by (split; simpl; rewrite ?Hb', ?He'; done).
  eapply wp_mono; [eapply outputs_ending; [|exact Hp1]|].
  { intros [c x] p2 cov2 Hp2. by eapply output_ending. }
  intros [] p2 (Hp2 & Hq2 & _). sch_step. apply wp_on_core. unfold post_step. sch_step. sch_step. destruct (en_sync _ _ Hp2) as [_ ->].
  rewrite andb_false_r. cbn [andb]. sch_step. sch_step. exists cov'. assert (set_core (core p2) p2 = p2) as -> by by destruct p2. split; [done|].
  destruct Hq2 as [Hle Hnil]. change (sched p1) with (scheduler e') in *.
  destruct (decide (all_reqs (sched p) [] = [])) as [Hn|Hn].
  - destruct Hd as [Hd1 Hd2]. destruct (Hnil Hd1) as [? Heq]. rewrite Heq. case_decide; [done|by left].
  - case_decide as Hn0; [by destruct (Hnil0 Hn0)|]. right. lia.
Qed.

(** The passes that are left at most. *)
Definition passes s : Z := if decide (all_reqs s [] = []) then (if has_requests s then 2 else 1) else work s + 2.

(** Whatever arrives, before a pass, while it processes its input and while the model runs. *)
Definition harmless_tick (t : tick) : Prop :=
  Forall harmless_event (tk_before t) ∧ Forall (Forall harmless_event) (tk_arrivals t) ∧ Forall harmless_event (tk_late t).

Lemma loop_ending ticks : Forall harmless_tick ticks → ∀ p cov,
  ending p cov → passes (sched p) ≤ len ticks →
  ∃ p' cov', run_busy_loop hasher ticks p = (Ok Exited, p') ∧ ending p' cov' ∧ has_requests (sched p') = false.
Proof.
  induction 1 as [|t ticks (Ht1 & Ht2 & Ht3) _ IH]; intros p0 cov0 Hp0 Hn.
  { exfalso. pose proof (work_nonneg _ _ _ max_len_pos _ cov0 (en_serving _ _ Hp0) (cm_hungry _ (en_calm _ _ Hp0))) as Hw. unfold passes, len in Hn. simpl in Hn.
    repeat case_match; lia. }
  assert (wp (run_busy_loop hasher (t :: ticks)) (λ res p', res = Exited ∧ ∃ cov', ending p' cov' ∧ has_requests (sched p') = false) p0) as Hw.
  2: { apply wp_run in Hw as (res & p' & Hrun & -> & cov' & Hp' & Hf). by exists p', cov'. }
  cbn [run_busy_loop]. sch_step. eapply wp_mono; [exact (for_ending _ receive_ending _ Ht1 p0 cov0 Hp0)|]. intros [] p [Hp Hq0].
  sch_step. eapply wp_mono; [by eapply shutdown_ending|]. intros b p1 (-> & cov1 & Hp1 & Hq01). pose proof (quieter_trans _ _ _ Hq0 Hq01) as Hq1.
  destruct (has_requests (sched p1)) eqn:Hhas; cbn [negb]; [|sch_step; split; [done|by exists cov1]].
  sch_step. eapply wp_mono; [by eapply input_ending|]. intros b p2 (-> & cov2 & Hp2 & Hq2). cbn [negb]. sch_step.
  eapply wp_mono; [by eapply pass_ending|]. intros b p3 (cov3 & Hp3 & Hd).
  destruct (IH p3 cov3 Hp3) as (p' & cov' & Hrun & Hp' & Hf); [|unfold wp; rewrite Hrun; split; [done|by exists cov']].
  pose proof (quieter_trans _ _ _ Hq1 Hq2) as [Hle Hnil]. unfold len in Hn. simpl in Hn.
  pose proof (work_nonneg _ _ _ max_len_pos _ cov0 (en_serving _ _ Hp0) (cm_hungry _ (en_calm _ _ Hp0))) as Hw.
  unfold passes in Hn |- *. destruct (decide (all_reqs (sched p0) [] = [])) as [Hn0|Hn0].
  - destruct (Hnil Hn0) as [Hn2 Hh2]. rewrite decide_True in Hd by done. destruct Hd as [Hd1 ->]. rewrite decide_True by done.
    destruct Hq1 as [_ Hq1]. destruct (Hq1 Hn0) as [_ Hh1]. rewrite Hhas in Hh1. rewrite <- Hh1 in Hn. unfold len. lia.
  - destruct (decide (all_reqs (sched p2) [] = [])) as [Hn2|Hn2].
    + destruct Hd as [Hd1 ->]. rewrite decide_True by done. unfold len. lia.
    + destruct Hd as [[Hd1 ->]|Hd]; [rewrite decide_True by done; unfold len; lia|]. unfold len. repeat case_match; lia.
Qed.
End Live.

(** ** Theorems *)

Section Claims.
Context {E : Env} {SE : SchedEnv} {XE : ExecEnv} {max_len hash_bs : Z} {KS : KVService max_len hash_bs}.
Context (sha256 : list bytes → bytes) (hash_function : bytes * list Z * option (list ExtraKey) → bytes).
Context (NONE_HASH : bytes) (hash_bs_pos : 0 < hash_bs) (max_len_pos : 0 < max_len).
Context (hash_inj : ∀ x y, hash_function x = hash_function y → x = y).
Context (hash_not_none : ∀ x, hash_function x ≠ NONE_HASH).
Context (hash_not_empty : ∀ x, hash_function x ≠ []).
Context (set_iter_perm : ∀ l : list Z, NoDup l → set_iter l ≡ₚ l).
Context (str_set_iter_perm : ∀ l : list string, NoDup l → str_set_iter l ≡ₚ l).
Context (workers_answer : ∀ o g x, wp (run_model o g) (λ m _, answers (out_num_scheduled_tokens o) m) x).
Context (workers_sample : ∀ ts s o s1 g x m x', schedule ts s = (Ok o, s1) → run_model o g x = (Ok m, x') → samples s1 o m).
Abbreviation hasher := (Some (request_block_hasher sha256 hash_function NONE_HASH hash_bs)).
Abbreviation serving := (serving (max_len := max_len) (hash_bs := hash_bs) sha256 hash_function NONE_HASH).

(** A scheduler without requests holds nothing. *)
Lemma nothing_left s cov : serving s cov → all_reqs s [] = [] → s_requests s = [] ∧ running s = [] ∧ serves (kv s) ∅.
Proof using Type.
  intros Hs Hnil. pose proof (id_inv _ _ (sg_idle _ _ _ _ _ Hs)) as Hi.
  assert (Hno : ∀ r, r ∉ all_reqs s []) by (intros r; rewrite Hnil; apply not_elem_of_nil). split_and!.
  - destruct (s_requests s) as [|[id r] l] eqn:Hr; [done|]. destruct (si_dom _ _ _ Hi id r) as [Hin _]; [|by apply Hno in Hin].
    unfold requests_get. rewrite Hr. cbn [od_get fst snd]. by rewrite decide_True.
  - unfold all_reqs in Hnil. by apply app_nil in Hnil as [? _].
  - assert (cov = ∅) as <-; [|apply Hi]. apply map_empty. intros id. apply eq_None_not_Some. intros [n Hn].
    destruct (si_cov _ _ _ Hi id n Hn) as (r & Hr & _). by apply Hno in Hr.
Qed.

(** C2: Every request finishes.  The engine of a text model with the synchronous scheduler,
    policy first come, first served, not paused, whose KV cache has a block for every block of
    a request of the greatest length; the workers sample a token for each request of a batch
    whose tokens are all computed.  Then [work], at most the sum over the requests of the
    tokens they may still generate, times the greatest length plus two, plus the greatest
    length plus one, bounds the number of steps: after as many steps, preemptions and aborts
    included, no request is left, and none holds KV-cache slots. *)
Theorem requests_finish e cov (steps : list (Z * Z * list (list string))) :
  serving (scheduler e) cov → calm (max_len := max_len) (hash_bs := hash_bs) (scheduler e) →
  work (max_len := max_len) (scheduler e) < len steps →
  ∃ e', for_ steps (make_step (hash_bs := hash_bs) sha256 hash_function NONE_HASH) e = (Ok tt, e') ∧
    s_requests (scheduler e') = [] ∧ running (scheduler e') = [] ∧ serves (kv (scheduler e')) ∅.
Proof.
  intros Hs Hc Hn.
  destruct (steps_live sha256 hash_function NONE_HASH hash_bs_pos max_len_pos hash_inj hash_not_none hash_not_empty set_iter_perm str_set_iter_perm
    workers_answer workers_sample steps e cov Hs Hc (or_intror Hn)) as (e' & cov' & Hrun & Hs' & Hnil).
  exists e'. split; [done|]. by eapply nothing_left.
Qed.

(** C3: After a signal the engine process ends.  In the setting of [requests_finish] (one
    KV-cache group, text requests, policy first come, first served, not paused, blocks
    enough for one request of the greatest length, workers that sample), for a process without
    batch queue, drafts and data parallelism: once the shutdown is requested, with a timeout
    or with none, [run_busy_loop] leaves its loop in at most [work] and two passes, whatever
    clients send at any point of a pass (new requests and utility calls, which it refuses,
    aborts, malformed requests, more signals; only a failure of the workers is excluded): it
    raises nothing, every request has finished and no KV-cache slot is held. *)
Theorem shutdown_completes (p : EngineCoreProc) cov (ticks : list tick) :
  ending (max_len := max_len) (hash_bs := hash_bs) sha256 hash_function NONE_HASH p cov →
  Forall harmless_tick ticks →
  work (max_len := max_len) (scheduler (EngineProc.core p)) + 2 ≤ len ticks →
  ∃ p', run_busy_loop hasher ticks p = (Ok Exited, p') ∧ has_work p' = false ∧
    s_requests (scheduler (EngineProc.core p')) = [] ∧ serves (kv (scheduler (EngineProc.core p'))) ∅.
Proof.
  intros Hp Ht Hn.
  destruct (loop_ending sha256 hash_function NONE_HASH hash_bs_pos max_len_pos hash_inj hash_not_none hash_not_empty set_iter_perm str_set_iter_perm
    workers_answer workers_sample ticks Ht p cov Hp) as (p' & cov' & Hrun & Hp' & Hf).
  { pose proof (work_nonneg _ _ _ max_len_pos _ cov (en_serving _ _ _ _ _ Hp) (cm_hungry _ (en_calm _ _ _ _ _ Hp))).
    unfold passes. repeat case_match; lia. }
  destruct Hp' as [Hs' Hc' _ [Hr _] [Hb _] _]. exists p'. split; [done|]. unfold has_work. rewrite Hr, Hb, Hf. split; [done|].
  unfold has_requests in Hf. apply orb_false_iff in Hf as [Hf _].
  rewrite (has_unfinished_ok sha256 hash_function NONE_HASH _ cov') in Hf by done. apply bool_decide_eq_false in Hf.
  destruct (nothing_left _ _ Hs') as (? & _ & ?); [by destruct (all_reqs (scheduler (EngineProc.core p')) []); [|destruct Hf]|]. done.
Qed.
End Claims.

(** ** A small engine *)

#[local] Existing Instances test_env test_sched_env test_exec_env.

(** The greatest length is ten, five blocks of two tokens, and there are seven blocks: two
    requests that grow to eight and nine tokens do not fit together. *)
Definition live_vllm : VllmConfig :=
  mkVllmConfig "fcfs" 4 None 16 0 true false false false 10 false (Some 8) 2 true false 1 1 1 None None
    false None true false false.
#[local] Instance live_service : KVService 10 2 := unitary_service full2 1 1 10 2 true true.
Definition live_init : result Scheduler := scheduler_init false live_vllm small_kv 2 (Some 2) (Some small_budget) None None false true.
Definition live_start : Scheduler := get_ok live_init I.
Definition live_engine : EngineCore := engine_init small_settings live_start None.
Definition live_a : Request := small_request "a" 1 [5; 6; 7; 5] 4.
Definition live_b : Request := small_request "b" 2 [8; 9; 8; 9; 8] 4.
Definition live_calls : list engine_call := [AddCall live_a 1; AddCall live_b 1].
Abbreviation live_run := (run_engine_call (hash_bs := 2) (λ _, []) injective_hash [0]).
Definition live_arrived : EngineCore := (for_ live_calls live_run live_engine).2.
Abbreviation live_serving := (serving (max_len := 10) (hash_bs := 2) (λ _, []) injective_hash [0]).

Lemma sevens_sample ts s o s1 g x m x' : schedule ts s = (Ok o, s1) → run_model o g x = (Ok m, x') → samples s1 o m.
Proof.
  intros _ Hrun r _ Hin _. change ((Ok (sevens o), Some o) = (Ok m, x')) in Hrun. injection Hrun as <- _.
  unfold sampled, sevens. cbn [mro_req_id_to_index mro_sampled_token_ids].
  assert (od_get (request_id (obj s1 r)) ((λ p : string * Z, (p.1, 0)) <$> out_num_scheduled_tokens o) = Some 0) as ->; [|done].
  induction (out_num_scheduled_tokens o) as [|[id n] d IH]; [by apply elem_of_nil in Hin|]. rewrite fmap_cons in *. cbn [od_get fst] in *.
  case_decide; [done|]. apply IH. apply elem_of_cons in Hin as [|]; done.
Qed.

Lemma live_kv_serves : serves (kv live_start) ∅.
Proof.
  apply (unitary_init full2 1 1 10 2 true true small_kv (mkGroup ["a"] full2 false) (Some 16) false false None);
    [vm_compute; reflexivity|done..|split_and!; vm_compute; (done || by eexists)|exact I|done].
Qed.

Lemma live_request_ok e q :
  bool_decide (requests_get (scheduler e) (request_id q) = None ∧ object_id q ∉ all_reqs (scheduler e) []) = true → q = live_a ∨ q = live_b →
  arriving (max_len := 10) (hash_bs := 2) (scheduler e) q ∧ served (λ _, []) injective_hash [0] 10 2 q.
Proof.
  intros [H1 H2]%bool_decide_eq_true Hq.
  assert (plain (max_len := 10) (hash_bs := 2) q) as Hpl.
  { assert (bool_decide (mm_features q = [] ∧ 0 < num_tokens q < 10 ∧ len (block_hashes q) = num_tokens q / 2 ∧ NoDup (block_hashes q) ∧
      num_tokens q ≤ num_prompt_tokens q) = true) as Hb by (destruct Hq as [-> | ->]; vm_compute; reflexivity).
    apply bool_decide_eq_true in Hb as (? & ? & ? & ? & ?). by split. }
  split.
  - split; try done; try (destruct Hq as [-> | ->]; vm_compute; reflexivity). left. destruct Hq as [-> | ->]; vm_compute; reflexivity.
  - assert (bool_decide (block_hashes q = hashes_upto (λ _, []) injective_hash [0] q 2 (num_full q 2) ∧
      _prompt_embeds_per_block_hashes q = ∅ ∧ mm_features q = []) = true) as Hb by (destruct Hq as [-> | ->]; vm_compute; reflexivity).
    apply bool_decide_eq_true in Hb as (Hh & Hm & Ht). split.
    + split; [|done]. split; [intros a b h; by rewrite Hm, lookup_empty|]. split; [rewrite Ht; by repeat constructor|done].
    + exists (small_sampling 4). destruct Hq as [-> | ->]; (split; [split; vm_compute; [reflexivity|reflexivity|intros [=]]|vm_compute; intros [=]]).
    + destruct Hq as [-> | ->]; vm_compute; reflexivity.
    + destruct Hq as [-> | ->]; vm_compute; reflexivity.
    + destruct Hq as [-> | ->]; vm_compute; split_and!; reflexivity.
Qed.

Lemma live_arrived_serving : ∃ cov, live_serving (scheduler live_arrived) cov.
Proof.
  destruct (calls_ok (max_len := 10) (hash_bs := 2) (λ _, []) injective_hash [0] ltac:(lia) injective_hash_inj
    ltac:(discriminate) ltac:(discriminate) ltac:(done) ltac:(done) sevens_answer live_calls live_engine ∅)
    as (e & cov & Hrun & Hs).
  - eapply (init_serving (max_len := 10) (hash_bs := 2) _ _ _ live_vllm small_kv 2 (Some small_budget) false true);
      [vm_compute; reflexivity|by split|done..|exact live_kv_serves].
  - split; [apply live_request_ok; [vm_compute; reflexivity|by left]|]. split; [|done].
    apply live_request_ok; [vm_compute; reflexivity|by right].
  - exists cov. unfold live_arrived. by rewrite Hrun.
Qed.

Lemma live_arrived_calm : calm (max_len := 10) (hash_bs := 2) (scheduler live_arrived).
Proof.
  split; [split; try (vm_compute; reflexivity); left; vm_compute; reflexivity| |vm_compute; reflexivity].
  assert (running (scheduler live_arrived) = []) as Hr by (vm_compute; reflexivity). intros r Hin. rewrite Hr in Hin. by apply elem_of_nil in Hin.
Qed.

Definition live_steps : list (Z * Z * list (list string)) := replicate 120 (2, 3, []).

Lemma requests_finish_witness :
  ∃ e', for_ live_steps (make_step (hash_bs := 2) (λ _, []) injective_hash [0]) live_arrived = (Ok tt, e') ∧
    s_requests (scheduler e') = [] ∧ serves (kv (scheduler e')) ∅ ∧
    (λ r, (_output_token_ids (obj (scheduler e') r), num_preemptions (obj (scheduler e') r))) <$> [1; 2] =
      [([7; 7; 7; 7], 0); ([7; 7; 7; 7], 1)].
Proof.
  destruct live_arrived_serving as [cov Hs].
  destruct (requests_finish (max_len := 10) (hash_bs := 2) (λ _, []) injective_hash [0] ltac:(lia) ltac:(lia) injective_hash_inj
    ltac:(discriminate) ltac:(discriminate) ltac:(done) ltac:(done) sevens_answer sevens_sample live_arrived cov live_steps Hs live_arrived_calm)
    as (e' & Hrun & Hreq & _ & Hkv).
  { vm_compute. reflexivity. }
  assert (match for_ live_steps (make_step (hash_bs := 2) (λ _, []) injective_hash [0]) live_arrived with
          | (Ok tt, e') => (λ r, (_output_token_ids (obj (scheduler e') r), num_preemptions (obj (scheduler e') r))) <$> [1; 2] =
              [([7; 7; 7; 7], 0); ([7; 7; 7; 7], 1)]
          | _ => False
          end) as Hv by (vm_compute; reflexivity).
  rewrite Hrun in Hv. exists e'. split; [exact Hrun|]. split; [exact Hreq|]. split; [exact Hkv|exact Hv].
Defined.

(** A signal with a timeout; new requests, utility calls and another signal come too late. *)
Definition live_dp : DPState := mkDPState false 0 0 false false 0 0 (0, 0).
Definition live_proc : EngineCoreProc := set_shutdown_state REQUESTED (proc_init 5 live_dp live_arrived).
Definition live_tick : tick :=
  mkTick 2 3 [Signal] [[Message (ADD request_a 0)]; [Message (UTILITY 0 9 (PauseMethod PauseAbort true)); BadRequest "z" 0]; [Signal]]
    [Message (ABORT_ ["zzz"]); Signal].
Definition live_ticks : list tick := mkTick 2 3 [] [] [Message (ABORT_ ["b"])] :: replicate 120 live_tick.

Lemma shutdown_completes_witness :
  ∃ p', run_busy_loop (Some (request_block_hasher (λ _, []) injective_hash [0] 2)) live_ticks live_proc = (Ok Exited, p') ∧
    has_work p' = false ∧ serves (kv (scheduler (EngineProc.core p'))) ∅ ∧
    (λ r, (_output_token_ids (obj (scheduler (EngineProc.core p')) r), status (obj (scheduler (EngineProc.core p')) r))) <$> [1; 2] =
      [([7; 7; 7; 7], FINISHED_LENGTH_CAPPED); ([], FINISHED_ABORTED)].
Proof.
  destruct live_arrived_serving as [cov Hs].
  destruct (shutdown_completes (max_len := 10) (hash_bs := 2) (λ _, []) injective_hash [0] ltac:(lia) ltac:(lia) injective_hash_inj
    ltac:(discriminate) ltac:(discriminate) ltac:(done) ltac:(done) sevens_answer sevens_sample live_proc cov live_ticks)
    as (p' & Hrun & Hw & _ & Hkv).
  { split; [exact Hs|exact live_arrived_calm|discriminate|by split|split; vm_compute; reflexivity|constructor]. }
  { constructor; [|apply Forall_replicate]; split_and!; repeat constructor. }
  { vm_compute. discriminate. }
  assert (match run_busy_loop (Some (request_block_hasher (λ _, []) injective_hash [0] 2)) live_ticks live_proc with
          | (Ok Exited, p') =>
              (λ r, (_output_token_ids (obj (scheduler (EngineProc.core p')) r), status (obj (scheduler (EngineProc.core p')) r))) <$> [1; 2] =
              [([7; 7; 7; 7], FINISHED_LENGTH_CAPPED); ([], FINISHED_ABORTED)]
          | _ => False
          end) as Hv by (vm_compute; reflexivity).
  rewrite Hrun in Hv. exists p'. split; [exact Hrun|]. split; [exact Hw|]. split; [exact Hkv|exact Hv].
Defined.
