(* ===== verification/KVGaps.v ===== *)
(** * Where the plan of the cache falls short

    Three concrete plans that [get_kv_cache_configs] accepts: memory that is exactly enough by
    its own account but not for the scheduler, quantized windows whose pages are planned too
    small, and a pipeline stage with a layer that gets no tensor. *)

From S2P Require Import Prelude FreeQueue Request BlockHash BlockPool KVSpec KVConfig KVGroups KVPlan CacheHit SingleType Coordinator KVManager KVCalls HitToSlots KVService Heap RequestQueue SchedUtils EncoderCache SpecControl SchedOutput SchedState EncoderSched Schedule SchedRequests SchedUpdate EngineCore EngineProc SchedFrame SchedInv SchedRun SchedWait SchedStep SchedLife SchedLeave SchedApply SchedOrder SchedProgress EngineSafe EngineLive.

#[local] Open Scope Z_scope.
#[local] Existing Instances test_env test_sched_env test_exec_env.

(** ** Exactly enough memory *)

(** One layer of full attention with blocks of two tokens and pages of eight bytes, sequences
    of at most ten tokens, and memory for the five blocks of one of them. *)
Definition exact_config : PlanConfig := mkPlanConfig (KVSpec.mkVllmConfig 10 1 1 8 MambaNone 0) None false false 10.
Definition exact_kv : result KVCacheConfig :=
  '(cfgs, _) ← get_kv_cache_configs exact_config [[("a", full2)]] [5 * 8]; generate_scheduler_kv_cache_config cfgs.
Definition exact_plan : KVCacheConfig := match exact_kv with Ok kv => kv | Raise _ => mkKVCacheConfig 0 [] [] end.

#[local] Instance exact_service : KVService 10 2 := unitary_service full2 1 1 10 2 true true.
Definition exact_init : result Scheduler := scheduler_init false live_vllm exact_plan 2 (Some 2) (Some small_budget) None None false true.
Definition exact_engine : EngineCore := engine_init small_settings (get_ok exact_init I) None.
(** Five tokens and five more: ten, the greatest length. *)
Definition longest_request : Request := small_request "b" 2 [8; 9; 8; 9; 8] 5.
Definition exact_arrived : EngineCore := (run_engine_call (hash_bs := 2) (λ _, []) injective_hash [0] (AddCall longest_request 1) exact_engine).2.
Definition exact_steps (n : nat) : result unit * EngineCore :=
  for_ (replicate n (2, 3, [])) (make_step (hash_bs := 2) (λ _, []) injective_hash [0]) exact_arrived.
Definition stuck (p : result unit * EngineCore) : bool :=
  let q := obj (scheduler p.2) (object_id longest_request) in
  match p.1 with Ok _ => true | Raise _ => false end &&
  bool_decide (status q = PREEMPTED ∧ len (_output_token_ids q) = 4 ∧ num_preemptions q = 1 ∧ running (scheduler p.2) = []).

(** Memory that passes the check may still not hold the longest request.  With memory for
    exactly the five blocks of a sequence of the greatest length [get_kv_cache_configs]
    accepts the model, but the block pool keeps one of them as the null block: the only
    request of the engine, which may grow to ten tokens, is preempted at nine in the fifth
    step, and a hundred steps on it still waits, with no token more. *)
Theorem exact_memory_starves :
  exact_kv = Ok exact_plan ∧ num_blocks exact_plan = 5 ∧
  max_memory_usage_blocks full2 (pc_vllm exact_config) = Ok 5 ∧
  forallb (λ n, stuck (exact_steps n)) [5; 10; 100]%nat = true.
Proof. split_and!; vm_compute; reflexivity. Qed.

(** ** Pages of quantized windows *)

(** Keys and values of eight bits, with a scale for each token and head. *)
Definition int8_attention : AttentionSpec := mkAttention 16 1 8 (mkDtype "int8" 1) INT8_PER_TOKEN_HEAD None.
Definition int8_window : KVCacheSpec := make_sliding_window int8_attention 17 None.
Definition int8_layers : layer_specs := [("f", make_full int8_attention None None None); ("w", int8_window)].
Definition one_type_config : PlanConfig := mkPlanConfig (KVSpec.mkVllmConfig 64 1 1 32 MambaNone 0) None true false 64.

(** Without the hybrid manager [unify_hybrid_kv_cache_specs] turns a sliding window into full
    attention and drops [kv_quant_mode]: the layer ["w"] has pages of 384 bytes, and its
    tensor is planned with pages of 256. *)
Theorem quantized_window_loses_scales :
  page_size_bytes int8_window = Ok 384 ∧
  match get_kv_cache_configs one_type_config [int8_layers] [10000] with
  | Ok ([w], _) => wc_num_blocks w = 15 ∧ mkTensor (256 * 15) ["w"] ∈ wc_kv_cache_tensors w
  | _ => False
  end.
Proof. split; [vm_compute; reflexivity|]. vm_compute. split; [reflexivity|]. right. left. Qed.

(** ** A layer without a tensor *)

Definition mla_layer (ratio : Z) : KVCacheSpec := make_mla (mkAttention 64 1 8 (mkDtype "uint8" 1) NONE None) None None None (mkMLA None None ratio None).
Definition mla_window : KVCacheSpec := SlidingWindowMLASpec (mkAttention 32 1 8 (mkDtype "uint8" 1) NONE None) 17 (mkMLA None None 1 None).
Definition parted_stages : list layer_specs := [[("c4", mla_layer 1); ("w0", mla_window)]; [("c128", mla_layer 8); ("w1", mla_window)]].

(** The windows are padded to the pages of ["c4"], which are not on the second stage: there
    [_get_kv_cache_config_deepseek_v4] makes tensors only for the pages of ["c128"], and the
    layer ["w1"] is in none. *)
Theorem parted_stage_loses_a_layer :
  match get_kv_cache_configs stage_config parted_stages [100000; 100000] with
  | Ok ([w1; w2], _) => concat (shared_by <$> wc_kv_cache_tensors w1) = ["c4"; "w0"] ∧ concat (shared_by <$> wc_kv_cache_tensors w2) = ["c128"]
  | _ => False
  end.
Proof. vm_compute. by split. Qed.
