(* ===== verification/Float.v ===== *)
(** * Python's floats

    A float is the rational number it denotes.  An operation computes the exact result and
    rounds it to 53 bits, ties to even; the numbers of this library stay far from the range
    where doubles overflow or lose bits.  The rounding is shown to be monotone and exact on
    the integers up to 2^53. *)

From Stdlib Require Import QArith Qround Qpower Lqa.
From S2P Require Import Prelude.

#[local] Open Scope Z_scope.

(** ** Operations *)

(** The nearest integer, an even one of two. *)
Definition round_even (q : Q) : Z :=
  let f := Qfloor q in
  match (q - inject_Z f ?= 1 # 2)%Q with
  | Lt => f
  | Gt => f + 1
  | Eq => if Z.even f then f else f + 1
  end.

(** The power of two below a positive number. *)
Definition exponent (q : Q) : Z :=
  let k := Z.log2 (Qnum q) - Z.log2 (Zpos (Qden q)) in
  if Qle_bool (2 ^ k) q then k else k - 1.

Definition fl_pos (q : Q) : Q :=
  let e := exponent q - 52 in (inject_Z (round_even (q * 2 ^ (- e))) * 2 ^ e)%Q.

Definition fl (q : Q) : Q :=
  match Qnum q with
  | Z0 => 0%Q
  | Zpos _ => fl_pos q
  | Zneg _ => (- fl_pos (- q))%Q
  end.

Definition Qlt_b (x y : Q) : bool := negb (Qle_bool y x).
(** [max(a, b)] and [min(a, b)] return the first of two equal arguments. *)
Definition py_maxQ (a b : Q) : Q := if Qlt_b a b then b else a.
Definition py_minQ (a b : Q) : Q := if Qlt_b b a then b else a.
(** [int(x)] *)
Definition py_int (q : Q) : Z := if Qlt_b q 0 then Qceiling q else Qfloor q.


(** ** Powers of two *)

Lemma pow2_pos e : (0 < 2 ^ e)%Q.
Proof. by apply Qpower_0_lt. Qed.

Lemma pow2_plus a b : (2 ^ (a + b) == 2 ^ a * 2 ^ b)%Q.
Proof. by apply Qpower_plus. Qed.

Lemma pow2_inv e : (2 ^ e * 2 ^ (- e) == 1)%Q.
Proof. rewrite <- pow2_plus. by rewrite Z.add_opp_diag_r. Qed.

Lemma pow2_le a b : a ≤ b → (2 ^ a <= 2 ^ b)%Q.
Proof. intros. by apply Qpower_le_compat_l. Qed.

Lemma pow2_Z e : 0 ≤ e → (inject_Z (2 ^ e) == 2 ^ e)%Q.
Proof. intros. by apply Zpower_Qpower. Qed.

Lemma Qmult_le_pow2 x y e : (x <= y)%Q → (x * 2 ^ e <= y * 2 ^ e)%Q.
Proof. intros. apply Qmult_le_compat_r; [done|]. apply Qlt_le_weak, pow2_pos. Qed.

Lemma exponent_spec q : (0 < q)%Q → (2 ^ exponent q <= q < 2 ^ (exponent q + 1))%Q.
Proof.
  intros Hq. unfold exponent. set (a := Z.log2 (Qnum q)). set (b := Z.log2 (Zpos (Qden q))).
  assert (0 < Qnum q) as Hn by (unfold Qlt in Hq; simpl in Hq; lia).
  pose proof (Z.log2_spec (Qnum q) Hn) as [Ha1 Ha2]. fold a in Ha1, Ha2.
  pose proof (Z.log2_spec (Zpos (Qden q)) ltac:(lia)) as [Hb1 Hb2]. fold b in Hb1, Hb2.
  pose proof (Z.log2_nonneg (Qnum q)) as Ha. fold a in Ha. pose proof (Z.log2_nonneg (Zpos (Qden q))) as Hb. fold b in Hb.
  assert (q * inject_Z (Zpos (Qden q)) == inject_Z (Qnum q))%Q as Hnd.
  { destruct q as [n d]. unfold Qeq, inject_Z, Qmult. simpl. lia. }
  rewrite Zle_Qle in Ha1, Hb1. rewrite Zlt_Qlt in Ha2, Hb2.
  rewrite pow2_Z in Ha1, Ha2, Hb1, Hb2 by lia.
  assert (q < 2 ^ (a - b + 1))%Q as Hup.
  { apply Qnot_le_lt. intros Hle. apply (Qlt_irrefl (inject_Z (Qnum q))).
    eapply Qlt_le_trans; [exact Ha2|]. rewrite <- Hnd.
    assert (2 ^ Z.succ a == 2 ^ (a - b + 1) * 2 ^ b)%Q as ->
      by (rewrite <- pow2_plus; by replace (a - b + 1 + b) with (Z.succ a) by lia).
    pose proof (pow2_pos (a - b + 1)). pose proof (pow2_pos b). nra. }
  assert (2 ^ (a - b - 1) < q)%Q as Hlo.
  { apply Qnot_le_lt. intros Hle. apply (Qlt_irrefl (inject_Z (Qnum q))).
    eapply Qlt_le_trans; [|exact Ha1]. rewrite <- Hnd.
    assert (2 ^ a == 2 ^ (a - b - 1) * 2 ^ Z.succ b)%Q as ->
      by (rewrite <- pow2_plus; by replace (a - b - 1 + Z.succ b) with a by lia).
    pose proof (pow2_pos (a - b - 1)). pose proof (pow2_pos (Z.succ b)). nra. }
  destruct (Qle_bool (2 ^ (a - b)) q) eqn:Hk.
  - apply Qle_bool_iff in Hk. done.
  - replace (a - b - 1 + 1) with (a - b) by lia. split; [by apply Qlt_le_weak|].
    apply Qnot_le_lt. intros Hle%Qle_bool_iff. congruence.
Qed.

(** ** Rounding to an integer *)

Lemma floor_bounds q : (inject_Z (Qfloor q) <= q < inject_Z (Qfloor q) + 1)%Q.
Proof.
  split; [apply Qfloor_le|]. pose proof (Qlt_floor q) as Hq. by rewrite inject_Z_plus in Hq.
Qed.

Lemma round_even_floor q : Qfloor q ≤ round_even q ≤ Qfloor q + 1.
Proof. unfold round_even. destruct (_ ?= _)%Q; [destruct (Z.even _)|..]; lia. Qed.

Lemma round_even_mono x y : (x <= y)%Q → round_even x ≤ round_even y.
Proof.
  intros Hxy. pose proof (Qfloor_resp_le x y Hxy) as Hf.
  destruct (decide (Qfloor x = Qfloor y)) as [Heq|Hne].
  - unfold round_even. rewrite <- Heq.
    destruct (x - inject_Z (Qfloor x) ?= 1 # 2)%Q eqn:Hx;
      destruct (y - inject_Z (Qfloor x) ?= 1 # 2)%Q eqn:Hy; try (destruct (Z.even _)); try lia; exfalso;
      first [apply Qeq_alt in Hx|apply Qlt_alt in Hx|apply Qgt_alt in Hx];
      first [apply Qeq_alt in Hy|apply Qlt_alt in Hy|apply Qgt_alt in Hy]; lra.
  - pose proof (round_even_floor x). pose proof (round_even_floor y). lia.
Qed.

Lemma round_even_Z z : round_even (inject_Z z) = z.
Proof.
  unfold round_even. rewrite Qfloor_Z.
  assert (inject_Z z - inject_Z z ?= 1 # 2 = Lt)%Q as ->; [|done]. rewrite <- Qlt_alt. lra.
Qed.

Lemma round_even_eq x z : (x == inject_Z z)%Q → round_even x = z.
Proof.
  intros Hx. rewrite <- (round_even_Z z). apply Z.le_antisymm; apply round_even_mono; rewrite Hx; apply Qle_refl.
Qed.

(** ** Rounding to 53 bits *)

Lemma fl_pos_nonneg q : (0 < q)%Q → (0 <= fl_pos q)%Q.
Proof.
  intros Hq. unfold fl_pos. set (e := exponent q - 52). pose proof (pow2_pos e). pose proof (pow2_pos (- e)).
  assert (0 ≤ round_even (q * 2 ^ (- e))) as Hr.
  { rewrite <- (round_even_Z 0). apply round_even_mono.
    apply (Qmult_le_0_compat q); by apply Qlt_le_weak. }
  rewrite Zle_Qle in Hr. apply Qmult_le_0_compat; [done|by apply Qlt_le_weak].
Qed.

(** A rounded number is between the powers of two around it. *)
Lemma fl_pos_binade q : (0 < q)%Q → (2 ^ exponent q <= fl_pos q <= 2 ^ (exponent q + 1))%Q.
Proof.
  intros Hq. pose proof (exponent_spec q Hq) as [Hlo Hhi]. unfold fl_pos. set (k := exponent q) in *.
  assert (∀ j, 0 ≤ 52 + j → (inject_Z (2 ^ (52 + j)) * 2 ^ (k - 52) == 2 ^ (k + j))%Q) as Hback.
  { intros j Hj. rewrite pow2_Z by lia. rewrite <- pow2_plus. by replace (52 + j + (k - 52)) with (k + j) by lia. }
  assert (∀ j, 0 ≤ 52 + j → (2 ^ (k + j) * 2 ^ (- (k - 52)) == inject_Z (2 ^ (52 + j)))%Q) as Hfwd.
  { intros j Hj. rewrite pow2_Z by lia. rewrite <- pow2_plus. by replace (k + j + - (k - 52)) with (52 + j) by lia. }
  split.
  - rewrite <- (Z.add_0_r k) at 1. rewrite <- (Hback 0) by lia. apply Qmult_le_pow2. rewrite <- Zle_Qle.
    rewrite <- (round_even_Z (2 ^ (52 + 0))). apply round_even_mono. rewrite <- Hfwd by lia.
    apply Qmult_le_pow2. by rewrite Z.add_0_r.
  - rewrite <- (Hback 1) by lia. apply Qmult_le_pow2. rewrite <- Zle_Qle.
    rewrite <- (round_even_Z (2 ^ (52 + 1))). apply round_even_mono. rewrite <- Hfwd by lia.
    apply Qmult_le_pow2. by apply Qlt_le_weak.
Qed.

Lemma exponent_mono x y : (0 < x)%Q → (x <= y)%Q → exponent x ≤ exponent y.
Proof.
  intros Hx Hxy. destruct (decide (exponent x ≤ exponent y)) as [|Hn]; [done|]. exfalso.
  pose proof (exponent_spec x Hx) as [H1 _]. pose proof (exponent_spec y ltac:(lra)) as [_ H2].
  pose proof (pow2_le (exponent y + 1) (exponent x) ltac:(lia)). lra.
Qed.

Lemma fl_pos_mono x y : (0 < x)%Q → (x <= y)%Q → (fl_pos x <= fl_pos y)%Q.
Proof.
  intros Hx Hxy. pose proof (exponent_mono x y Hx Hxy) as He.
  destruct (decide (exponent x = exponent y)) as [Heq|Hne].
  - unfold fl_pos. rewrite <- Heq. apply Qmult_le_pow2. rewrite <- Zle_Qle. by apply round_even_mono, Qmult_le_pow2.
  - pose proof (fl_pos_binade x Hx) as [_ H1]. pose proof (fl_pos_binade y ltac:(lra)) as [H2 _].
    pose proof (pow2_le (exponent x + 1) (exponent y) ltac:(lia)). lra.
Qed.

(** Integers of up to 53 bits are exact. *)
Lemma fl_pos_Z z : 0 < z ≤ 2 ^ 53 → (fl_pos (inject_Z z) == inject_Z z)%Q.
Proof.
  intros Hz. assert (0 < inject_Z z)%Q as Hq by (change 0%Q with (inject_Z 0); rewrite <- Zlt_Qlt; lia).
  pose proof (exponent_spec _ Hq) as [Hlo _]. unfold fl_pos. set (e := exponent (inject_Z z)) in *.
  assert (inject_Z z <= 2 ^ 53)%Q as Hhi by (rewrite <- (pow2_Z 53) by lia; rewrite <- Zle_Qle; lia).
  assert (∃ w, inject_Z z * 2 ^ (- (e - 52)) == inject_Z w)%Q as [w Hw].
  { destruct (decide (e ≤ 52)) as [He|He].
    - exists (z * 2 ^ (52 - e)). rewrite inject_Z_mult, pow2_Z by lia. by replace (- (e - 52)) with (52 - e) by lia.
    - exists (2 ^ 52). assert (e = 53) as ->.
      { destruct (decide (e ≤ 53)); [lia|]. exfalso. pose proof (pow2_le 54 e ltac:(lia)).
        assert (2 ^ 53 < 2 ^ 54)%Q by (by vm_compute). lra. }
      assert (inject_Z z == 2 ^ 53)%Q as -> by lra. by vm_compute. }
  rewrite (round_even_eq _ w Hw), <- Hw, <- Qmult_assoc, (Qmult_comm (2 ^ _)), pow2_inv. ring.
Qed.

Lemma fl_cases q : (q < 0 ∧ fl q == - fl_pos (- q))%Q ∨ (q == 0 ∧ fl q == 0)%Q ∨ (0 < q ∧ fl q == fl_pos q)%Q.
Proof.
  destruct q as [[|n|n] d]; unfold fl; simpl; [right; left|right; right|left]; split; done.
Qed.

Lemma fl_nonneg q : (0 <= q → 0 <= fl q)%Q.
Proof.
  intros Hq. destruct (fl_cases q) as [[? _]|[[_ ->]|[? ->]]]; [lra|lra|by apply fl_pos_nonneg].
Qed.

Lemma fl_le_Z q c : 0 ≤ c ≤ 2 ^ 53 → (q <= inject_Z c)%Q → (fl q <= inject_Z c)%Q.
Proof.
  intros Hc Hq. assert (0 <= inject_Z c)%Q as H0 by (change 0%Q with (inject_Z 0); rewrite <- Zle_Qle; lia).
  destruct (fl_cases q) as [[Hneg ->]|[[_ ->]|[Hpos ->]]]; [|done|].
  - pose proof (fl_pos_nonneg (- q) ltac:(lra)). lra.
  - rewrite <- (fl_pos_Z c); [by apply fl_pos_mono|]. split; [|lia]. rewrite Zlt_Qlt. change (inject_Z 0) with 0%Q. lra.
Qed.

Lemma Qlt_b_iff x y : Qlt_b x y = true ↔ (x < y)%Q.
Proof.
  unfold Qlt_b. rewrite negb_true_iff. split; intros Hxy.
  - apply Qnot_le_lt. intros Hle%Qle_bool_iff. congruence.
  - apply not_true_is_false. rewrite Qle_bool_iff. by apply Qlt_not_le.
Qed.

Lemma py_minQ_spec a b : (py_minQ a b <= a ∧ py_minQ a b <= b ∧ (py_minQ a b = a ∨ py_minQ a b = b))%Q.
Proof.
  unfold py_minQ. destruct (Qlt_b b a) eqn:Hab; [apply Qlt_b_iff in Hab; split; [lra|]; split; [lra|by right]|].
  split; [lra|]. split; [|by left]. apply Qnot_lt_le. intros Hlt%Qlt_b_iff. congruence.
Qed.

Lemma py_maxQ_spec a b : (a <= py_maxQ a b ∧ b <= py_maxQ a b ∧ (py_maxQ a b = a ∨ py_maxQ a b = b))%Q.
Proof.
  unfold py_maxQ. destruct (Qlt_b a b) eqn:Hab; [apply Qlt_b_iff in Hab; split; [lra|]; split; [lra|by right]|].
  split; [lra|]. split; [|by left]. apply Qnot_lt_le. intros Hlt%Qlt_b_iff. congruence.
Qed.
