(* ===== verification/OffloadPolicy.v ===== *)
(** * Replacement policies of the CPU offload cache

    vllm/v1/kv_offload/cpu/policies: what a policy keeps of the blocks that were offloaded
    to CPU memory, and which of them it gives up.  [CachePolicy] is the interface of
    abstract.py, [CachePolicyLaws] what the manager relies on; [LRUCachePolicy] (lru.py) and
    [ARCCachePolicy] (arc.py) are its two implementations.

    A block's status is an object that the manager changes in place through the reference
    [get] returns.  The dictionaries of a policy hold the only reference to it, so the model
    keeps the status itself in them, and [cp_update] is an assignment to its fields. *)

From Stdlib Require Import QArith.
From S2P Require Import Prelude Float.

#[local] Set Default Proof Using "Type*".
#[local] Open Scope Z_scope.

(** ** [BlockStatus] *)

(** What a C integer of [w] bits holds after an assignment. *)
Definition c_int (w z : Z) : Z := (z + 2 ^ (w - 1)) mod 2 ^ w - 2 ^ (w - 1).

Record BlockStatus := mkBlockStatus { st_ref_cnt : Z; st_block_id : Z }.

#[global] Instance BlockStatus_eq_dec : EqDecision BlockStatus.
Proof. solve_decision. Defined.

Definition BlockStatus_init (block_id : Z) : BlockStatus := mkBlockStatus (c_int 32 (-1)) (c_int 64 block_id).
Definition set_ref_cnt (v : Z) (b : BlockStatus) : BlockStatus := mkBlockStatus (c_int 32 v) (st_block_id b).
Definition is_ready (b : BlockStatus) : bool := 0 <=? st_ref_cnt b.

(** ** The interface *)
Section Policies.
Context {K : Type} `{Countable K}.

Class CachePolicy (P : Type) := {
  cp_init : Z → P;
  cp_get : P → K → option BlockStatus;
  cp_update : K → BlockStatus → P → P;
  cp_insert : K → BlockStatus → P → P;
  cp_remove : K → M P unit;
  cp_touch : list K → P → P;
  cp_evict : Z → gset K → M P (option (list (K * BlockStatus)))
}.

(** A block may be given up when no transfer uses it and it is not protected. *)
Definition evictable (protected : gset K) (key : K) (block : BlockStatus) : bool :=
  (st_ref_cnt block =? 0) && negb (bool_decide (key ∈ protected)).

(** What a policy promises to the manager: it is a map from keys to blocks; touching
    changes no block; an eviction gives up the number of blocks it was asked for, none of
    them in use or protected, or nothing at all. *)
Class CachePolicyLaws (P : Type) `{!CachePolicy P} := {
  cp_ok : P → Prop;
  cp_init_ok c : 0 ≤ c → cp_ok (cp_init c) ∧ ∀ k, cp_get (cp_init c) k = None;
  cp_update_ok p k b b' : cp_ok p → cp_get p k = Some b →
    cp_ok (cp_update k b' p) ∧
    ∀ k', cp_get (cp_update k b' p) k' = if decide (k' = k) then Some b' else cp_get p k';
  cp_insert_ok p k b : cp_ok p → cp_get p k = None →
    cp_ok (cp_insert k b p) ∧
    ∀ k', cp_get (cp_insert k b p) k' = if decide (k' = k) then Some b else cp_get p k';
  cp_remove_ok p k b : cp_ok p → cp_get p k = Some b →
    wp (cp_remove k) (λ _ p', cp_ok p' ∧
      ∀ k', cp_get p' k' = if decide (k' = k) then None else cp_get p k') p;
  cp_touch_ok p ks : cp_ok p → cp_ok (cp_touch ks p) ∧ ∀ k', cp_get (cp_touch ks p) k' = cp_get p k';
  cp_evict_ok p n protected : cp_ok p → 0 < n →
    wp (cp_evict n protected) (λ o p', cp_ok p' ∧
      match o with
      | None => p' = p
      | Some l => len l = n ∧ NoDup l.*1 ∧
          (∀ k b, (k, b) ∈ l → cp_get p k = Some b ∧ evictable protected k b = true) ∧
          (∀ k, cp_get p' k = if decide (k ∈ l.*1) then None else cp_get p k)
      end) p
}.

(** ** Least recently used *)
Record LRUCachePolicy := mkLRU { lru_blocks : list (K * BlockStatus) }.

Definition lru_init (cache_capacity : Z) : LRUCachePolicy := mkLRU [].
Definition lru_get (p : LRUCachePolicy) (key : K) : option BlockStatus := od_get key (lru_blocks p).
Definition lru_update (key : K) (block : BlockStatus) (p : LRUCachePolicy) : LRUCachePolicy :=
  mkLRU (od_set key block (lru_blocks p)).
Definition lru_insert (key : K) (block : BlockStatus) (p : LRUCachePolicy) : LRUCachePolicy :=
  mkLRU (od_set key block (lru_blocks p)).

(** [del d[key]] *)
Definition lru_del (key : K) : M LRUCachePolicy unit :=
  p ← gets lru_blocks;
  _ ← or_raise KeyError (od_get key p);
  modify (λ p, mkLRU (od_del key (lru_blocks p))).
Definition lru_remove (key : K) : M LRUCachePolicy unit := lru_del key.

Definition lru_touch (keys : list K) (p : LRUCachePolicy) : LRUCachePolicy :=
  mkLRU (foldl (λ d key, if od_mem key d then od_move_to_end key d else d) (lru_blocks p) (reverse keys)).

(** The loop that collects candidates; it stops at the [n]-th. *)
Fixpoint lru_candidates (n : Z) (protected : gset K) (items candidates : list (K * BlockStatus)) :
    list (K * BlockStatus) :=
  match items with
  | [] => candidates
  | (key, block) :: items =>
      if evictable protected key block then
        let candidates := candidates ++ [(key, block)] in
        if len candidates =? n then candidates else lru_candidates n protected items candidates
      else lru_candidates n protected items candidates
  end.

Definition lru_evict (n : Z) (protected : gset K) : M LRUCachePolicy (option (list (K * BlockStatus))) :=
  if n =? 0 then mret (Some []) else
  d ← gets lru_blocks;
  let candidates := lru_candidates n protected d [] in
  if len candidates <? n then mret None else
  _ ← for_ candidates (λ '(key, _), lru_del key);
  mret (Some candidates).

#[global] Instance LRU_policy : CachePolicy LRUCachePolicy := {|
  cp_init := lru_init; cp_get := lru_get; cp_update := lru_update; cp_insert := lru_insert;
  cp_remove := lru_remove; cp_touch := lru_touch; cp_evict := lru_evict
|}.

(** ** Adaptive replacement *)
Record ARCCachePolicy := mkARC {
  cache_capacity : Z;
  target_t1_size : Q;
  t1 : list (K * BlockStatus);
  t2 : list (K * BlockStatus);
  b1 : list (K * unit);
  b2 : list (K * unit)
}.

Definition set_t1 v p := mkARC (cache_capacity p) (target_t1_size p) v (t2 p) (b1 p) (b2 p).
Definition set_t2 v p := mkARC (cache_capacity p) (target_t1_size p) (t1 p) v (b1 p) (b2 p).
Definition set_b1 v p := mkARC (cache_capacity p) (target_t1_size p) (t1 p) (t2 p) v (b2 p).
Definition set_b2 v p := mkARC (cache_capacity p) (target_t1_size p) (t1 p) (t2 p) (b1 p) v.
Definition set_target v p := mkARC (cache_capacity p) v (t1 p) (t2 p) (b1 p) (b2 p).

Definition arc_init (capacity : Z) : ARCCachePolicy := mkARC capacity 0%Q [] [] [] [].

(** [self.t1.get(key) or self.t2.get(key)]; a status object is true. *)
Definition arc_get (p : ARCCachePolicy) (key : K) : option BlockStatus :=
  match od_get key (t1 p) with Some block => Some block | None => od_get key (t2 p) end.

Definition arc_update (key : K) (block : BlockStatus) (p : ARCCachePolicy) : ARCCachePolicy :=
  if od_mem key (t1 p) then set_t1 (od_set key block (t1 p)) p else set_t2 (od_set key block (t2 p)) p.

Definition arc_insert (key : K) (block : BlockStatus) (p : ARCCachePolicy) : ARCCachePolicy :=
  let p := set_t1 (od_set key block (t1 p)) p in
  let p := set_b1 (od_del key (b1 p)) p in
  set_b2 (od_del key (b2 p)) p.

Definition arc_remove (key : K) : M ARCCachePolicy unit :=
  p ← gets id;
  match od_get key (t1 p) with
  | Some _ => modify (set_t1 (od_del key (t1 p)))
  | None => modify (set_t2 (od_del key (t2 p)))
  end.

(** One key of [touch]. *)
Definition arc_touch_one (p : ARCCachePolicy) (key : K) : ARCCachePolicy :=
  match od_get key (t1 p) with
  | Some block =>
      let p := set_t1 (od_del key (t1 p)) p in
      if negb (is_ready block) then set_t1 (od_set key block (t1 p)) p
      else set_t2 (od_set key block (t2 p)) p
  | None =>
      if od_mem key (t2 p) then set_t2 (od_move_to_end key (t2 p)) p
      else if od_mem key (b1 p) then
        let delta := py_maxQ 1 (fl (inject_Z (len (b2 p)) / inject_Z (len (b1 p)))) in
        let p := set_target (py_minQ (fl (target_t1_size p + delta)) (inject_Z (cache_capacity p))) p in
        set_b1 (od_move_to_end key (b1 p)) p
      else if od_mem key (b2 p) then
        let delta := py_maxQ 1 (fl (inject_Z (len (b1 p)) / inject_Z (len (b2 p)))) in
        let p := set_target (py_maxQ (fl (target_t1_size p - delta)) 0) p in
        set_b2 (od_move_to_end key (b2 p)) p
      else p
  end.

Definition arc_touch (keys : list K) (p : ARCCachePolicy) : ARCCachePolicy :=
  foldl arc_touch_one p (reverse keys).

(** The first block of a list that may be given up and was not selected before. *)
Fixpoint arc_first (protected already_selected : gset K) (items : list (K * BlockStatus)) :
    option (K * BlockStatus) :=
  match items with
  | [] => None
  | (key, block) :: items =>
      if evictable protected key block && negb (bool_decide (key ∈ already_selected)) then Some (key, block)
      else arc_first protected already_selected items
  end.

(** [for _ in range(n)]: select [n] blocks, each from T1 or T2, or fail. *)
Fixpoint arc_select (p : ARCCachePolicy) (protected : gset K) (n : nat) (already_selected : gset K)
    (virtual_t1_size : Z) (candidates : list (K * BlockStatus * bool)) :
    option (list (K * BlockStatus * bool)) :=
  match n with
  | O => Some candidates
  | S n =>
      let from_t1 :=
        if py_int (target_t1_size p) <=? virtual_t1_size then arc_first protected already_selected (t1 p)
        else None in
      match from_t1 with
      | Some (key, block) =>
          arc_select p protected n ({[key]} ∪ already_selected) (virtual_t1_size - 1)
            (candidates ++ [(key, block, true)])
      | None =>
          match arc_first protected already_selected (t2 p) with
          | Some (key, block) =>
              arc_select p protected n ({[key]} ∪ already_selected) virtual_t1_size
                (candidates ++ [(key, block, false)])
          | None => None
          end
      end
  end.

(** One candidate moves to its ghost list. *)
Definition arc_apply (c : K * BlockStatus * bool) : M ARCCachePolicy (K * BlockStatus) :=
  let '(key, block, from_t1) := c in
  p ← gets id;
  _ ← (if (from_t1 : bool) then
         _ ← or_raise KeyError (od_get key (t1 p));
         _ ← modify (set_t1 (od_del key (t1 p)));
         modify (set_b1 (od_set key tt (b1 p)))
       else
         _ ← or_raise KeyError (od_get key (t2 p));
         _ ← modify (set_t2 (od_del key (t2 p)));
         modify (set_b2 (od_set key tt (b2 p))));
  mret (key, block).

(** [ghost.popitem(last=False)], [n] times. *)
Fixpoint pop_oldest (n : nat) (ghost : list (K * unit)) : result (list (K * unit)) :=
  match n, ghost with
  | O, _ => Ok ghost
  | S n, [] => Raise KeyError
  | S n, _ :: ghost => pop_oldest n ghost
  end.
Definition trim {S} (capacity : Z) (ghost : list (K * unit)) : M S (list (K * unit)) :=
  match pop_oldest (Z.to_nat (len ghost - capacity)) ghost with
  | Ok g => mret g
  | Raise e => raise e
  end.

Definition arc_evict (n : Z) (protected : gset K) : M ARCCachePolicy (option (list (K * BlockStatus))) :=
  if n =? 0 then mret (Some []) else
  p ← gets id;
  match arc_select p protected (Z.to_nat n) ∅ (len (t1 p)) [] with
  | None => mret None
  | Some candidates =>
      result ← collect candidates arc_apply;
      g1 ← gets b1;
      g1 ← trim (cache_capacity p) g1;
      _ ← modify (set_b1 g1);
      g2 ← gets b2;
      g2 ← trim (cache_capacity p) g2;
      _ ← modify (set_b2 g2);
      mret (Some result)
  end.

#[global] Instance ARC_policy : CachePolicy ARCCachePolicy := {|
  cp_init := arc_init; cp_get := arc_get; cp_update := arc_update; cp_insert := arc_insert;
  cp_remove := arc_remove; cp_touch := arc_touch; cp_evict := arc_evict
|}.
End Policies.
Arguments CachePolicy K {_ _} P.
Arguments CachePolicyLaws K {_ _} P {_}.
Arguments LRUCachePolicy K : clear implicits.
Arguments ARCCachePolicy K : clear implicits.
