(* ===== verification/OffloadLaws.v ===== *)
(** * The replacement policies keep their promises

    Both policies of OffloadPolicy.v satisfy the laws the manager is proved against, LRU
    gives up the blocks that were not used for longest, and ARC keeps its four lists apart
    and bounded. *)

From Stdlib Require Import QArith Lqa.
From S2P Require Import Prelude Float OffloadPolicy.

#[local] Set Default Proof Using "Type*".
#[local] Open Scope Z_scope.

Section Laws.
Context {K : Type} `{Countable K}.
Implicit Types (k key : K) (b block : BlockStatus) (protected : gset K).

(** ** LRU *)

Definition ev_items protected (items : list (K * BlockStatus)) : list (K * BlockStatus) :=
  filter (λ kb, evictable protected kb.1 kb.2 = true) items.

(** The candidates are the first [n] blocks that may be given up. *)
Lemma lru_candidates_take n protected items acc : len acc < n →
  lru_candidates n protected items acc = acc ++ take (Z.to_nat (n - len acc)) (ev_items protected items).
Proof.
  unfold ev_items. revert acc. induction items as [|[k b] items IH]; intros acc Hn; simpl.
  - by destruct (Z.to_nat _); rewrite app_nil_r.
  - destruct (evictable protected k b) eqn:He.
    + rewrite filter_cons_True by done. rewrite len_app, len_cons, len_nil.
      replace (Z.to_nat (n - len acc)) with (S (Z.to_nat (n - (len acc + 1)))) by lia. simpl.
      destruct (Z.eqb_spec (len acc + (1 + 0)) n) as [Heq|Hne].
      * replace (Z.to_nat (n - (len acc + 1))) with O by lia. done.
      * rewrite IH by (rewrite len_app, len_cons, len_nil; lia).
        rewrite <- app_assoc, len_app, len_cons, len_nil. simpl. repeat f_equal; lia.
    + rewrite filter_cons_False by (simpl; congruence). by apply IH.
Qed.

Lemma lru_del_wp k b p : od_get k (lru_blocks p) = Some b →
  wp (lru_del k) (λ _ p', lru_blocks p' = od_del k (lru_blocks p)) p.
Proof.
  intros Hk. unfold lru_del. repeat wp_prim. eapply wp_or_raise; [done|]. by wp_prim.
Qed.

(** Deleting some of its keys one by one leaves the other items of a dictionary in their order. *)
Lemma od_del_filter {V} k (l : list K) (d : list (K * V)) : NoDup d.*1 →
  od_del k (filter (λ kv, kv.1 ∉ l) d) = filter (λ kv, kv.1 ∉ l ++ [k]) d.
Proof.
  induction d as [|[k0 v0] d IH]; [done|]. rewrite fmap_cons, NoDup_cons. intros [Hk Hd].
  rewrite !filter_cons. simpl. case_decide as Hl; simpl.
  - destruct (decide (k = k0)) as [<-|Hne].
    + case_decide as Hno; [set_solver|]. apply filter_ext_in. intros [k' v'] Hin. simpl in *.
      assert (k' ≠ k) by (intros ->; apply Hk; by apply (list_elem_of_fmap_2 fst) in Hin). set_solver.
    + case_decide as Hno; [by rewrite IH|set_solver].
  - case_decide as Hno; [set_solver|by apply IH].
Qed.

Lemma lru_del_all (l : list (K * BlockStatus)) p : NoDup (lru_blocks p).*1 → NoDup l.*1 →
  (∀ kb, kb ∈ l → kb ∈ lru_blocks p) →
  wp (for_ l (λ '(key, _), lru_del key)) (λ _ p', lru_blocks p' = filter (λ kb, kb.1 ∉ l.*1) (lru_blocks p)) p.
Proof.
  intros Hd Hl Hin.
  apply wp_for with (I := λ done p', lru_blocks p' = filter (λ kb, kb.1 ∉ done.*1) (lru_blocks p)); [| |done].
  - symmetry. apply filter_keep. intros ? _. apply not_elem_of_nil.
  - intros done_ [k b] todo p' -> Hp'.
    assert (od_get k (lru_blocks p') = Some b) as Hk.
    { rewrite Hp'. apply od_get_elem.
      - eapply sublist_NoDup; [exact Hd|]. apply fmap_sublist. apply sublist_filter.
      - apply list_elem_of_filter. split; [|apply Hin; set_solver]. simpl.
        rewrite fmap_app, fmap_cons in Hl. apply NoDup_app in Hl as (_ & Hl & _).
        intros Hk. apply (Hl k Hk). by left. }
    eapply wp_mono; [by apply (lru_del_wp k b)|]. intros [] p'' Hp''. simpl.
    rewrite Hp'', Hp', od_del_filter by done. by rewrite fmap_app.
Qed.

Lemma lru_evict_wp n protected p : NoDup (lru_blocks p).*1 → 0 ≤ n →
  let ev := ev_items protected (lru_blocks p) in
  wp (lru_evict n protected) (λ o p',
    if len ev <? n then o = None ∧ p' = p
    else o = Some (take (Z.to_nat n) ev) ∧
         lru_blocks p' = filter (λ kb, kb.1 ∉ (take (Z.to_nat n) ev).*1) (lru_blocks p)) p.
Proof.
  intros Hd Hn ev. unfold lru_evict. destruct (Z.eqb_spec n 0) as [->|Hn0].
  - apply wp_ret. rewrite (proj2 (Z.ltb_ge _ _)) by apply len_nonneg. split; [done|].
    symmetry. apply filter_keep. intros ? _. apply not_elem_of_nil.
  - wp_prim. wp_prim. rewrite lru_candidates_take by (unfold len; simpl; lia). fold ev.
    replace (n - len []) with n by (unfold len; simpl; lia). simpl.
    replace (len (take (Z.to_nat n) ev) <? n) with (len ev <? n)
      by (unfold len; rewrite length_take; destruct (Z.ltb_spec (Z.of_nat (length ev)) n);
          symmetry; [apply Z.ltb_lt|apply Z.ltb_ge]; lia).
    destruct (len ev <? n); [by apply wp_ret|]. wp_prim.
    eapply wp_mono; [apply lru_del_all; [done| |]|].
    + eapply sublist_NoDup; [exact Hd|]. apply fmap_sublist.
      etrans; [apply sublist_take|]. apply sublist_filter.
    + intros kb (i & Hi & _)%elem_of_take. apply list_elem_of_lookup_2 in Hi. by apply list_elem_of_filter in Hi as [_ Hi].
    + intros [] p' Hp'. by apply wp_ret.
Qed.

(** Lookup after the keys of a list were deleted. *)
Lemma od_get_filter {V} k (l : list K) (d : list (K * V)) : NoDup d.*1 →
  od_get k (filter (λ kv, kv.1 ∉ l) d) = if decide (k ∈ l) then None else od_get k d.
Proof.
  intros Hd. case_decide as Hk.
  - apply od_get_None. rewrite list_elem_of_fmap. intros ([k' v] & -> & Hin).
    apply list_elem_of_filter in Hin as [Hl _]. done.
  - destruct (od_get k d) as [v|] eqn:Hv.
    + apply od_get_elem.
      * eapply sublist_NoDup; [exact Hd|]. apply fmap_sublist, sublist_filter.
      * apply list_elem_of_filter. split; [done|]. by apply od_get_Some.
    + apply od_get_None. apply od_get_None in Hv. intros Hin. apply Hv.
      apply list_elem_of_fmap in Hin as ([k' v] & -> & Hin). apply list_elem_of_filter in Hin as [_ Hin].
      by apply (list_elem_of_fmap_2 fst) in Hin.
Qed.

Lemma od_move_NoDup {V} k (d : list (K * V)) : NoDup d.*1 → NoDup (od_move_to_end k d).*1.
Proof. intros Hd. by rewrite od_move_to_end_perm. Qed.

Lemma lru_touch_ok keys p : NoDup (lru_blocks p).*1 →
  NoDup (lru_blocks (lru_touch keys p)).*1 ∧ ∀ k, lru_get (lru_touch keys p) k = lru_get p k.
Proof.
  unfold lru_touch, lru_get. simpl. generalize (reverse keys). intros l. destruct p as [d]. simpl.
  revert d. induction l as [|k0 l IH]; intros d Hd; [done|]. simpl.
  destruct (od_mem k0 d); [|by apply IH].
  destruct (IH (od_move_to_end k0 d)) as [H1 H2]; [by apply od_move_NoDup|]. split; [done|].
  intros k. rewrite H2. by apply od_move_to_end_get.
Qed.

#[global] Program Instance LRU_laws : CachePolicyLaws K (LRUCachePolicy K) := {|
  cp_ok := λ p, NoDup (lru_blocks p).*1
|}.
Next Obligation. intros c _. split; [constructor|done]. Qed.
Next Obligation.
  intros p k b b' Hp _. split; [by apply od_set_NoDup|]. intros k'. apply od_get_set.
Qed.
Next Obligation.
  intros p k b Hp _. split; [by apply od_set_NoDup|]. intros k'. apply od_get_set.
Qed.
Next Obligation.
  intros p k b Hp Hk. eapply wp_mono; [by eapply lru_del_wp|]. intros [] p' Hp'. simpl in *. rewrite Hp'.
  split; [by apply od_del_NoDup|]. intros k'. unfold lru_get. rewrite Hp'. by apply od_get_del.
Qed.
Next Obligation. intros p ks Hp. by apply lru_touch_ok. Qed.
Next Obligation.
  intros p n protected Hp Hn. eapply wp_mono; [by apply lru_evict_wp; [|lia]|].
  intros o p'. simpl. destruct (Z.ltb_spec (len (ev_items protected (lru_blocks p))) n) as [Hlt|Hge].
  { by intros [-> ->]. }
  set (l := take _ _). intros [-> Hp'].
  assert (l `sublist_of` lru_blocks p) as Hsub by (etrans; [apply sublist_take|apply sublist_filter]).
  split; [|split; [|split; [|split]]].
  - rewrite Hp'. eapply sublist_NoDup; [exact Hp|]. apply fmap_sublist, sublist_filter.
  - unfold l, len in *. rewrite length_take. lia.
  - eapply sublist_NoDup; [exact Hp|]. by apply fmap_sublist.
  - intros k b Hin. split; [apply od_get_elem; [done|]; by eapply (sublist_subseteq _ _ Hsub)|].
    apply elem_of_take in Hin as (i & Hi & _). apply list_elem_of_lookup_2 in Hi.
    by apply list_elem_of_filter in Hi as [? _].
  - intros k. unfold lru_get. rewrite Hp'. by apply od_get_filter.
Qed.

(** ** ARC *)

Lemma od_set_key_iff {V} k k' (v : V) d : k' ∈ (od_set k v d).*1 ↔ k' = k ∨ k' ∈ d.*1.
Proof.
  destruct (decide (k ∈ d.*1)) as [Hin|Hin]; [rewrite od_set_keys by done; set_solver|].
  rewrite od_set_new, fmap_app by done. set_solver.
Qed.

Lemma od_move_key_iff {V} k k' (d : list (K * V)) : k' ∈ (od_move_to_end k d).*1 ↔ k' ∈ d.*1.
Proof. by rewrite od_move_to_end_perm. Qed.

Lemma od_move_len {V} k (d : list (K * V)) : len (od_move_to_end k d) = len d.
Proof. unfold len. by rewrite od_move_to_end_perm. Qed.

Lemma od_del_len_le {V} k (d : list (K * V)) : len (od_del k d) ≤ len d.
Proof.
  destruct (decide (k ∈ d.*1)); [rewrite od_del_len by done|rewrite od_del_absent by done]; lia.
Qed.

(** No key is in two of the four lists. *)
Record arc_apart (p : ARCCachePolicy K) : Prop := {
  aa_t1 : NoDup (t1 p).*1;
  aa_t2 : NoDup (t2 p).*1;
  aa_b1 : NoDup (b1 p).*1;
  aa_b2 : NoDup (b2 p).*1;
  aa_t : ∀ k, k ∈ (t1 p).*1 → k ∉ (t2 p).*1;
  aa_b : ∀ k, k ∈ (b1 p).*1 → k ∉ (b2 p).*1;
  aa_1 : ∀ k, k ∈ (b1 p).*1 → k ∉ (t1 p).*1 ∧ k ∉ (t2 p).*1;
  aa_2 : ∀ k, k ∈ (b2 p).*1 → k ∉ (t1 p).*1 ∧ k ∉ (t2 p).*1
}.

Definition arc_small (p : ARCCachePolicy K) : Prop :=
  0 ≤ cache_capacity p ∧ len (b1 p) ≤ cache_capacity p ∧ len (b2 p) ≤ cache_capacity p.

Definition arc_ok (p : ARCCachePolicy K) : Prop := arc_apart p ∧ arc_small p.

Ltac arc_apart_tac :=
  split; simpl;
  [ auto using od_set_NoDup, od_del_NoDup, od_move_NoDup ..
  | | | | ];
  intros ?k'; rewrite ?od_set_key_iff, ?od_move_key_iff, ?od_del_key_iff by auto using od_del_NoDup; naive_solver.

Lemma arc_get_None p k : arc_get p k = None ↔ k ∉ (t1 p).*1 ∧ k ∉ (t2 p).*1.
Proof.
  unfold arc_get. rewrite <- !od_get_None. destruct (od_get k (t1 p)), (od_get k (t2 p)); naive_solver.
Qed.

Lemma od_get_key {V} k (v : V) d : od_get k d = Some v → k ∈ d.*1.
Proof. intros Hk%od_get_Some. by apply (list_elem_of_fmap_2 fst) in Hk. Qed.

Lemma arc_insert_ok p k b : arc_ok p → arc_get p k = None →
  arc_ok (arc_insert k b p) ∧
  ∀ k', arc_get (arc_insert k b p) k' = if decide (k' = k) then Some b else arc_get p k'.
Proof.
  intros [[H1 H2 H3 H4 H5 H6 H7 H8] (Hc & Hs1 & Hs2)] [Hk1 Hk2]%arc_get_None. split; [split|].
  - arc_apart_tac.
  - pose proof (od_del_len_le k (b1 p)). pose proof (od_del_len_le k (b2 p)).
    unfold arc_small. simpl. lia.
  - intros k'. unfold arc_get. simpl. rewrite od_get_set. by case_decide.
Qed.

Lemma arc_update_ok p k b b' : arc_ok p → arc_get p k = Some b →
  arc_ok (arc_update k b' p) ∧
  ∀ k', arc_get (arc_update k b' p) k' = if decide (k' = k) then Some b' else arc_get p k'.
Proof.
  intros [[H1 H2 H3 H4 H5 H6 H7 H8] (Hc & Hs1 & Hs2)] Hk. unfold arc_get, arc_update in *.
  destruct (od_get k (t1 p)) as [b0|] eqn:Hk1.
  - assert (k ∈ (t1 p).*1) as Hin by (by eapply od_get_key). rewrite (proj2 (od_mem_elem _ _)) by done.
    split; [split|].
    + arc_apart_tac.
    + done.
    + intros k'. simpl. rewrite od_get_set. by case_decide.
  - assert (k ∉ (t1 p).*1) as Hin by (by apply od_get_None).
    assert (k ∈ (t2 p).*1) as Hin2 by (by eapply od_get_key).
    replace (od_mem k (t1 p)) with false by (symmetry; apply not_true_iff_false; by rewrite od_mem_elem).
    split; [split|].
    + arc_apart_tac.
    + done.
    + intros k'. simpl. rewrite od_get_set. case_decide; [subst; by rewrite Hk1|done].
Qed.

Lemma arc_remove_ok p k b : arc_ok p → arc_get p k = Some b →
  wp (arc_remove k) (λ _ p', arc_ok p' ∧
    ∀ k', arc_get p' k' = if decide (k' = k) then None else arc_get p k') p.
Proof.
  intros [[H1 H2 H3 H4 H5 H6 H7 H8] (Hc & Hs1 & Hs2)] Hk. unfold arc_get, arc_remove in *.
  wp_prim. wp_prim. simpl. destruct (od_get k (t1 p)) as [b0|] eqn:Hk1; wp_prim; (split; [split|]).
  - arc_apart_tac.
  - done.
  - intros k'. simpl. rewrite od_get_del by done. case_decide; [subst|done].
    apply od_get_None, H5. by eapply od_get_key.
  - arc_apart_tac.
  - done.
  - intros k'. simpl. rewrite od_get_del by done. case_decide; [subst; by rewrite Hk1|done].
Qed.

Lemma arc_touch_one_ok p k : arc_ok p →
  arc_ok (arc_touch_one p k) ∧ ∀ k', arc_get (arc_touch_one p k) k' = arc_get p k'.
Proof.
  intros [[H1 H2 H3 H4 H5 H6 H7 H8] (Hc & Hs1 & Hs2)]. unfold arc_touch_one, arc_get.
  destruct (od_get k (t1 p)) as [b|] eqn:Hk1.
  - assert (k ∈ (t1 p).*1) as Hin by (by eapply od_get_key).
    destruct (is_ready b) eqn:Hb; simpl; (split; [split|]); try done.
    + arc_apart_tac.
    + intros k'. simpl. rewrite od_get_set, od_get_del by done.
      destruct (decide (k' = k)) as [->|]; [by rewrite Hk1|done].
    + arc_apart_tac.
    + intros k'. simpl. rewrite od_get_set, od_get_del by done.
      destruct (decide (k' = k)) as [->|]; [by rewrite Hk1|done].
  - destruct (od_mem k (t2 p)) eqn:Hm2; [|destruct (od_mem k (b1 p)) eqn:Hm3;
      [|destruct (od_mem k (b2 p)) eqn:Hm4; [|done]]]; (split; [split|]); try done.
    + arc_apart_tac.
    + intros k'. simpl. by rewrite od_move_to_end_get.
    + arc_apart_tac.
    + unfold arc_small. simpl. rewrite od_move_len. lia.
    + arc_apart_tac.
    + unfold arc_small. simpl. rewrite od_move_len. lia.
Qed.

Lemma arc_touch_ok keys p : arc_ok p →
  arc_ok (arc_touch keys p) ∧ ∀ k', arc_get (arc_touch keys p) k' = arc_get p k'.
Proof.
  unfold arc_touch. generalize (reverse keys). intros l. revert p.
  induction l as [|k l IH]; intros p Hp; [done|]. simpl.
  destruct (arc_touch_one_ok p k Hp) as [Hp' Hget]. destruct (IH _ Hp') as [Hok Hget'].
  split; [done|]. intros k'. by rewrite Hget'.
Qed.

(** ** Selection *)

Lemma arc_first_spec protected sel items k b : arc_first protected sel items = Some (k, b) →
  (k, b) ∈ items ∧ evictable protected k b = true ∧ k ∉ sel.
Proof.
  induction items as [|[k0 b0] items IH]; simpl; [done|].
  destruct (evictable protected k0 b0 && negb (bool_decide (k0 ∈ sel))) eqn:He.
  - intros [= -> ->]. apply andb_true_iff in He as [? ?%negb_true_iff%bool_decide_eq_false]. set_solver.
  - intros (? & ? & ?)%IH. set_solver.
Qed.

(** What a candidate of an eviction is. *)
Definition arc_candidate (p : ARCCachePolicy K) protected (c : K * BlockStatus * bool) : Prop :=
  c.1 ∈ (if c.2 : bool then t1 p else t2 p) ∧ evictable protected c.1.1 c.1.2 = true.

Lemma arc_select_spec p protected n sel vsz acc cs :
  arc_select p protected n sel vsz acc = Some cs →
  ∃ new, cs = acc ++ new ∧ length new = n ∧ NoDup new.*1.*1 ∧ (∀ k, k ∈ new.*1.*1 → k ∉ sel) ∧
    (∀ c, c ∈ new → arc_candidate p protected c).
Proof.
  revert sel vsz acc. induction n as [|n IH]; intros sel vsz acc; simpl.
  { intros [= ->]. exists []. rewrite app_nil_r. split_and!; [done|done|constructor|set_solver..]. }
  assert (∀ k b (s : bool) vsz', (k, b) ∈ (if s then t1 p else t2 p) → evictable protected k b = true → k ∉ sel →
    arc_select p protected n ({[k]} ∪ sel) vsz' (acc ++ [(k, b, s)]) = Some cs →
    ∃ new, cs = acc ++ new ∧ length new = S n ∧ NoDup new.*1.*1 ∧ (∀ k, k ∈ new.*1.*1 → k ∉ sel) ∧
      (∀ c, c ∈ new → arc_candidate p protected c)) as Hstep.
  { intros k b s vsz' Hin Hev Hsel (new & -> & Hlen & Hnd & Hfresh & Hc)%IH.
    exists ((k, b, s) :: new). rewrite <- app_assoc. simpl. split_and!; [done|by rewrite Hlen| | |].
    - constructor; [|done]. intros Hk%Hfresh. set_solver.
    - intros k' [->|Hk']%elem_of_cons; [done|]. apply Hfresh in Hk'. set_solver.
    - intros c [->|Hc']%elem_of_cons; [done|by apply Hc]. }
  destruct (if _ <=? _ then _ else None) as [[k b]|] eqn:H1.
  - destruct (_ <=? _); [|done]. apply arc_first_spec in H1 as (? & ? & ?). by apply (Hstep k b true).
  - destruct (arc_first _ _ (t2 p)) as [[k b]|] eqn:H2; [|done].
    apply arc_first_spec in H2 as (? & ? & ?). by apply (Hstep k b false).
Qed.

(** A candidate moves to its ghost list. *)
Lemma arc_apply_wp p protected k b s : arc_apart p → arc_candidate p protected (k, b, s) →
  wp (arc_apply (k, b, s)) (λ r p', r = (k, b) ∧ arc_apart p' ∧ cache_capacity p' = cache_capacity p ∧
    target_t1_size p' = target_t1_size p ∧
    t1 p' = (if s then od_del k (t1 p) else t1 p) ∧ t2 p' = (if s then t2 p else od_del k (t2 p))) p.
Proof.
  intros [H1 H2 H3 H4 H5 H6 H7 H8] [Hin _]. simpl in Hin. unfold arc_apply. wp_prim. wp_prim. wp_prim.
  destruct s; simpl; (wp_prim; eapply wp_or_raise; [by apply od_get_elem|]); repeat wp_prim;
    apply (list_elem_of_fmap_2 fst) in Hin; simpl in Hin; (split_and!; [done| |done..]).
  - arc_apart_tac.
  - arc_apart_tac.
Qed.

Lemma arc_apply_all cs p protected : arc_apart p → NoDup cs.*1.*1 →
  (∀ c, c ∈ cs → arc_candidate p protected c) →
  wp (collect cs arc_apply) (λ r p', r = cs.*1 ∧ arc_apart p' ∧ cache_capacity p' = cache_capacity p ∧
    target_t1_size p' = target_t1_size p ∧
    ∀ k, arc_get p' k = if decide (k ∈ cs.*1.*1) then None else arc_get p k) p.
Proof.
  revert p. induction cs as [|[[k b] s] cs IH]; intros p Hp Hnd Hc; simpl; [by apply wp_ret|].
  rewrite !fmap_cons, NoDup_cons in Hnd. destruct Hnd as [Hk Hnd]. simpl in Hk.
  wp_prim. eapply wp_mono; [by eapply arc_apply_wp, Hc; [|left]|].
  intros r p' (-> & Hp' & Hcap & Htgt & H1 & H2). wp_prim.
  assert (∀ k', arc_get p' k' = if decide (k' = k) then None else arc_get p k') as Hget.
  { intros k'. destruct (Hc (k, b, s)) as [Hin _]; [by left|]. simpl in Hin.
    apply (list_elem_of_fmap_2 fst) in Hin. simpl in Hin. destruct Hp. unfold arc_get. rewrite H1, H2.
    destruct s; rewrite od_get_del by done; (destruct (decide (k' = k)) as [->|]; [|done]).
    - by apply od_get_None, aa_t0.
    - replace (od_get k (t1 p)) with (@None BlockStatus); [done|]. symmetry. apply od_get_None. naive_solver. }
  eapply wp_mono; [apply IH; [done|done|]|].
  - intros [[k' b'] s'] Hin'. destruct (Hc (k', b', s')) as [Hin He]; [by right|]. split; [|done].
    assert (k' ≠ k) as Hne.
    { intros ->. apply Hk. apply (list_elem_of_fmap_2 fst), (list_elem_of_fmap_2 fst) in Hin'. done. }
    simpl in *. destruct Hp, s, s'; rewrite ?H1, ?H2; rewrite ?od_del_elem by done; done.
  - intros r p'' (-> & Hp'' & Hcap' & Htgt' & Hget'). apply wp_ret.
    split_and!; [done|done|congruence|congruence|]. intros k'. rewrite Hget', Hget.
    repeat case_decide; set_solver.
Qed.

Lemma pop_oldest_drop n (g : list (K * unit)) : (n ≤ length g)%nat → pop_oldest n g = Ok (drop n g).
Proof. revert g. induction n as [|n IH]; intros [|x g]; simpl; [done..|lia|]. intros ?. apply IH. lia. Qed.

Lemma trim_wp {S} capacity (g : list (K * unit)) (s : S) Q : 0 ≤ capacity →
  (∀ g', g' = drop (Z.to_nat (len g - capacity)) g → len g' ≤ capacity → Q g' s) →
  wp (trim capacity g) Q s.
Proof.
  intros Hc HQ. unfold trim. rewrite pop_oldest_drop by (unfold len; lia). apply wp_ret, HQ; [done|].
  unfold len in *. rewrite length_drop. lia.
Qed.

Lemma arc_drop_ghosts p n1 n2 : arc_apart p → arc_apart (set_b2 (drop n2 (b2 p)) (set_b1 (drop n1 (b1 p)) p)).
Proof.
  assert (∀ n (g : list (K * unit)) k, k ∈ (drop n g).*1 → k ∈ g.*1) as Hd.
  { intros n g k. rewrite fmap_drop. apply sublist_subseteq, sublist_drop. }
  assert (∀ n (g : list (K * unit)), NoDup g.*1 → NoDup (drop n g).*1) as Hn.
  { intros n g Hg. rewrite fmap_drop. eapply sublist_NoDup; [done|apply sublist_drop]. }
  intros []. split; simpl; eauto. intros k ?%Hd ?%Hd. naive_solver.
Qed.

Lemma arc_evict_wp p n protected : arc_ok p → 0 < n →
  wp (arc_evict n protected) (λ o p', arc_ok p' ∧ cache_capacity p' = cache_capacity p ∧
    target_t1_size p' = target_t1_size p ∧
    match o with
    | None => p' = p
    | Some l => len l = n ∧ NoDup l.*1 ∧
        (∀ k b, (k, b) ∈ l → arc_get p k = Some b ∧ evictable protected k b = true) ∧
        (∀ k, arc_get p' k = if decide (k ∈ l.*1) then None else arc_get p k)
    end) p.
Proof.
  intros [Hp (Hcap & Hs1 & Hs2)] Hn. unfold arc_evict. rewrite (proj2 (Z.eqb_neq n 0)) by lia.
  wp_prim. wp_prim. simpl. destruct (arc_select _ _ _ _ _ _) as [cs|] eqn:Hsel; [|by apply wp_ret].
  apply arc_select_spec in Hsel as (new & -> & Hlen & Hnd & _ & Hc). simpl.
  wp_prim. eapply wp_mono; [by eapply arc_apply_all|]. intros r p' (-> & Hp' & Hcap' & Htgt & Hget).
  wp_prim. wp_prim. wp_prim. apply trim_wp; [done|]. intros g1 Hg1 Hl1. wp_prim. wp_prim. wp_prim. wp_prim.
  wp_prim. apply trim_wp; [done|]. intros g2 Hg2 Hl2. repeat wp_prim. subst g1 g2. split; [split|].
  - exact (arc_drop_ghosts p' _ _ Hp').
  - unfold arc_small. simpl. rewrite Hcap'. done.
  - split_and!; [done|done|unfold len; rewrite length_fmap; lia|done| |done].
    intros k b Hin. apply list_elem_of_fmap in Hin as ([[k0 b0] s] & [= -> ->] & Hin).
    destruct (Hc _ Hin) as [Hin' He]. split; [|done]. simpl in Hin'. destruct Hp. unfold arc_get.
    destruct s; [by rewrite (od_get_elem k0 b0)|]. rewrite (od_get_elem k0 b0 (t2 p)) by done.
    replace (od_get k0 (t1 p)) with (@None BlockStatus); [done|]. symmetry. apply od_get_None.
    apply (list_elem_of_fmap_2 fst) in Hin'. simpl in Hin'. naive_solver.
Qed.

Lemma arc_init_ok c : 0 ≤ c → arc_ok (arc_init c).
Proof. intros Hc. split; [split; simpl; [constructor..|set_solver|set_solver|set_solver|set_solver]|done]. Qed.

#[global] Program Instance ARC_laws : CachePolicyLaws K (ARCCachePolicy K) := {| cp_ok := arc_ok |}.
Next Obligation. intros c Hc. split; [by apply arc_init_ok|done]. Qed.
Next Obligation. apply arc_update_ok. Qed.
Next Obligation. apply arc_insert_ok. Qed.
Next Obligation. apply arc_remove_ok. Qed.
Next Obligation. intros p ks. apply arc_touch_ok. Qed.
Next Obligation.
  intros p n protected Hp Hn. eapply wp_mono; [by apply arc_evict_wp|]. by intros o p' (? & _ & _ & ?).
Qed.

(** ** The claims *)

(** C16: The least recently used blocks go first.  An eviction of n blocks by the LRU policy
    raises nothing; it gives up the n blocks that were not used for longest among those that
    no transfer uses and that are not protected, and leaves the others in their order of
    use; when fewer than n blocks can go, it gives up none. *)
Theorem lru_evicts_oldest n protected (p : LRUCachePolicy K) : NoDup (lru_blocks p).*1 → 0 ≤ n →
  let ev := ev_items protected (lru_blocks p) in
  wp (lru_evict n protected) (λ o p',
    if len ev <? n then o = None ∧ p' = p
    else o = Some (take (Z.to_nat n) ev) ∧
         lru_blocks p' = filter (λ kb, kb.1 ∉ (take (Z.to_nat n) ev).*1) (lru_blocks p)) p.
Proof. apply lru_evict_wp. Qed.

(** The states of an ARC policy for [c] blocks. *)
Inductive arc_reach (c : Z) : ARCCachePolicy K → Prop :=
  | ar_init : arc_reach c (arc_init c)
  | ar_insert p k b : arc_reach c p → arc_get p k = None → arc_reach c (arc_insert k b p)
  | ar_update p k b b' : arc_reach c p → arc_get p k = Some b → arc_reach c (arc_update k b' p)
  | ar_remove p k b r p' : arc_reach c p → arc_get p k = Some b → arc_remove k p = (r, p') → arc_reach c p'
  | ar_touch p keys : arc_reach c p → arc_reach c (arc_touch keys p)
  | ar_evict p n protected r p' : arc_reach c p → 0 < n → arc_evict n protected p = (r, p') → arc_reach c p'.

Definition arc_target_ok (c : Z) (p : ARCCachePolicy K) : Prop :=
  cache_capacity p = c ∧ (0 <= target_t1_size p <= inject_Z c)%Q.

Lemma arc_touch_target c p keys : 0 ≤ c ≤ 2 ^ 53 → arc_target_ok c p → arc_target_ok c (arc_touch keys p).
Proof.
  intros Hc. unfold arc_touch. generalize (reverse keys). intros l. revert p.
  induction l as [|k l IH]; intros p Hp; [done|]. simpl. apply IH. clear IH l.
  destruct Hp as [Hcap [H0 H1]]. unfold arc_touch_one.
  destruct (od_get k (t1 p)) as [b|]; [by destruct (negb (is_ready b))|].
  destruct (od_mem k (t2 p)); [done|].
  assert (0 <= inject_Z c)%Q as Hc0 by (change 0%Q with (inject_Z 0); rewrite <- Zle_Qle; lia).
  destruct (od_mem k (b1 p)); [|destruct (od_mem k (b2 p)); [|done]];
    (split; [done|]); simpl; set (delta := py_maxQ 1 _); rewrite ?Hcap;
    pose proof (py_maxQ_spec 1 (fl (inject_Z (len (b2 p)) / inject_Z (len (b1 p))))) as (Hd & _);
    pose proof (py_maxQ_spec 1 (fl (inject_Z (len (b1 p)) / inject_Z (len (b2 p))))) as (Hd' & _).
  - pose proof (py_minQ_spec (fl (target_t1_size p + delta)) (inject_Z c)) as (_ & Hle & [He|He]);
      rewrite He in *; [|lra]. split; [|done]. apply fl_nonneg. unfold delta. lra.
  - pose proof (py_maxQ_spec (fl (target_t1_size p - delta)) 0) as (_ & ? & [He|He]); rewrite He in *; [|lra].
    split; [done|]. apply fl_le_Z; [done|]. unfold delta. lra.
Qed.

Lemma arc_reach_ok c p : 0 ≤ c ≤ 2 ^ 53 → arc_reach c p → arc_ok p ∧ arc_target_ok c p.
Proof.
  intros Hc. induction 1 as [|p k b _ [IH1 IH2] Hk|p k b b' _ [IH1 IH2] Hk|p k b r p' _ [IH1 IH2] Hk Hrun
    |p keys _ [IH1 IH2]|p n protected r p' _ [IH1 IH2] Hn Hrun].
  - split; [apply arc_init_ok; lia|]. split; [done|]. simpl.
    change 0%Q with (inject_Z 0). rewrite <- !Zle_Qle. lia.
  - split; [by apply arc_insert_ok|done].
  - split; [by eapply arc_update_ok|]. unfold arc_update. by destruct (od_mem k (t1 p)).
  - pose proof (arc_remove_ok p k b IH1 Hk) as Hwp. unfold wp in Hwp. rewrite Hrun in Hwp.
    destruct r as [[]|]; [|done]. split; [by apply Hwp|]. revert Hrun. unfold arc_remove, mbind, M_bind, gets. simpl.
    destruct (od_get k (t1 p)); intros [= <-]; done.
  - split; [by apply arc_touch_ok|by apply arc_touch_target].
  - pose proof (arc_evict_wp p n protected IH1 Hn) as Hwp. unfold wp in Hwp. rewrite Hrun in Hwp.
    destruct r as [o|]; [|done]. destruct Hwp as (? & Hcap & Ht & _). split; [done|].
    unfold arc_target_ok. by rewrite Hcap, Ht.
Qed.

(** C17: ARC keeps its books.  Whatever blocks are inserted, removed, touched and evicted, an
    ARC policy for c blocks never has a key in two of its four lists, remembers at most c
    evicted keys of each kind, keeps its target for T1, which is rounded to a double at
    every step, between 0 and c, and an eviction raises nothing. *)
Theorem arc_keeps_its_books c p : 0 ≤ c ≤ 2 ^ 53 → arc_reach c p →
  arc_apart p ∧ len (b1 p) ≤ c ∧ len (b2 p) ≤ c ∧ (0 <= target_t1_size p <= inject_Z c)%Q ∧
  ∀ n protected, 0 < n → ∃ o, (arc_evict n protected p).1 = Ok o.
Proof.
  intros Hc Hp. destruct (arc_reach_ok c p Hc Hp) as [Hok [Hcap Ht]]. pose proof Hok as [Hap (_ & H1 & H2)].
  rewrite Hcap in H1, H2. split_and!; [done|done|done|apply Ht|apply Ht|]. intros n protected Hn.
  pose proof (arc_evict_wp p n protected Hok Hn) as Hwp. apply wp_run in Hwp as (o & p' & -> & _). by exists o.
Qed.
End Laws.

(** ** Examples *)

(** Of the blocks 1 to 4, oldest first, block 2 is being read and block 3 is protected. *)
Definition lru_ex : LRUCachePolicy Z :=
  mkLRU [(1, mkBlockStatus 0 0); (2, mkBlockStatus 1 1); (3, mkBlockStatus 0 2); (4, mkBlockStatus 0 3)].

Lemma lru_evicts_oldest_witness :
  NoDup (lru_blocks lru_ex).*1 ∧ 0 ≤ 2 ∧
  match lru_evict 2 {[3]} lru_ex with
  | (Ok o, p') => o = Some [(1, mkBlockStatus 0 0); (4, mkBlockStatus 0 3)] ∧
      lru_blocks p' = [(2, mkBlockStatus 1 1); (3, mkBlockStatus 0 2)]
  | _ => False
  end.
Proof.
  assert (NoDup (lru_blocks lru_ex).*1) as Hnd by (apply (bool_decide_unpack _); vm_compute; exact I).
  split; [exact Hnd|]. split; [lia|].
  exact (lru_evicts_oldest 2 {[3]} lru_ex Hnd ltac:(lia)).
Defined.

(** Block 1 is stored, evicted, asked for and stored again. *)
Definition arc_ex : ARCCachePolicy Z :=
  arc_insert 1 (BlockStatus_init 0)
    (arc_touch [1] (arc_evict 1 ∅ (arc_update 1 (mkBlockStatus 0 0) (arc_insert 1 (BlockStatus_init 0) (arc_init 1)))).2).

Lemma arc_keeps_its_books_witness :
  0 ≤ 1 ≤ 2 ^ 53 ∧ arc_reach 1 arc_ex ∧ (target_t1_size arc_ex == 1)%Q ∧
  arc_apart arc_ex ∧ len (b1 arc_ex) ≤ 1 ∧ len (b2 arc_ex) ≤ 1 ∧ (0 <= target_t1_size arc_ex <= inject_Z 1)%Q ∧
  ∀ n protected, 0 < n → ∃ o, (arc_evict n protected arc_ex).1 = Ok o.
Proof.
  assert (0 ≤ 1 ≤ 2 ^ 53) as Hc by lia.
  assert (arc_reach 1 arc_ex) as Hr.
  { apply ar_insert; [|vm_compute; reflexivity]. apply ar_touch. eapply (ar_evict _ _ 1 ∅); [|lia|apply surjective_pairing].
    apply (ar_update _ _ _ (BlockStatus_init 0)); [|vm_compute; reflexivity].
    apply ar_insert; [apply ar_init|vm_compute; reflexivity]. }
  split; [exact Hc|]. split; [exact Hr|]. split; [vm_compute; reflexivity|].
  exact (arc_keeps_its_books 1 arc_ex Hc Hr).
Defined.
