(* ===== verification/OffloadManager.v ===== *)
(** * The CPU offload manager

    vllm/v1/kv_offload: the interface [OffloadingManager] (abstract.py), the manager of the
    blocks in CPU memory (cpu/manager.py) over a replacement policy, and the decorator that
    only stores blocks that were asked for often enough (reuse_manager.py).

    [K] is the type of the keys, [C] that of the context of a request, which the managers
    only pass on. *)

From S2P Require Import Prelude OffloadPolicy.

#[local] Set Default Proof Using "Type*".

(** ** Load and store specifications (mediums.py) *)
Inductive LoadStoreSpec :=
  | CPULoadStoreSpec (block_ids : list Z)
  | GPULoadStoreSpec (block_ids group_sizes block_indices : list Z).

Definition medium (spec : LoadStoreSpec) : string :=
  match spec with CPULoadStoreSpec _ => "CPU" | GPULoadStoreSpec _ _ _ => "GPU" end.

Definition GPULoadStoreSpec_init {S} (block_ids group_sizes block_indices : list Z) : M S LoadStoreSpec :=
  _ ← assert (sumZ group_sizes =? len block_ids);
  _ ← assert (len block_indices =? len group_sizes);
  mret (GPULoadStoreSpec block_ids group_sizes block_indices).

Section Manager.
Context {K C : Type} `{Countable K}.

Record PrepareStoreOutput := mkPrepareStoreOutput {
  keys_to_store : list K;
  store_spec : LoadStoreSpec;
  evicted_keys : list K
}.

Record OffloadingEvent := mkOffloadingEvent {
  ev_keys : list K;
  ev_medium : string;
  ev_removed : bool
}.

(** ** [OffloadingManager] *)
Class OffloadingManager (Mg : Type) := {
  om_lookup : K → C → M Mg (option bool);
  om_prepare_load : list K → C → M Mg LoadStoreSpec;
  om_touch : list K → M Mg unit;
  om_complete_load : list K → M Mg unit;
  om_prepare_store : list K → C → M Mg (option PrepareStoreOutput);
  om_complete_store : list K → bool → M Mg unit;
  om_take_events : M Mg (list OffloadingEvent);
  om_shutdown : M Mg unit
}.

(** ** [CPUOffloadingManager] *)
Section CPU.
Context {P : Type} `{!CachePolicy K P}.

Record CPUOffloadingManager := mkCPUManager {
  _num_blocks : Z;
  _num_allocated_blocks : Z;
  _free_list : list Z;
  cpu_events : option (list OffloadingEvent);
  _policy : P
}.

Abbreviation MM := (M CPUOffloadingManager).

Definition set_allocated v m := mkCPUManager (_num_blocks m) v (_free_list m) (cpu_events m) (_policy m).
Definition set_free_list v m := mkCPUManager (_num_blocks m) (_num_allocated_blocks m) v (cpu_events m) (_policy m).
Definition set_events v m := mkCPUManager (_num_blocks m) (_num_allocated_blocks m) (_free_list m) v (_policy m).
Definition set_policy v m := mkCPUManager (_num_blocks m) (_num_allocated_blocks m) (_free_list m) (cpu_events m) v.

(** The constructor, with the policy its argument [cache_policy] names. *)
Definition cpu_manager_init (num_blocks : Z) (enable_events : bool) : CPUOffloadingManager :=
  mkCPUManager num_blocks 0 [] (if enable_events then Some [] else None) (cp_init num_blocks).

Definition _get_num_free_blocks (m : CPUOffloadingManager) : Z :=
  len (_free_list m) + _num_blocks m - _num_allocated_blocks m.

(** [self._free_list.pop()] *)
Definition pop_free : MM Z :=
  l ← gets _free_list;
  match last l with
  | None => raise IndexError
  | Some x => _ ← modify (set_free_list (take (pred (length l)) l)); mret x
  end.

Definition _allocate_blocks (keys : list K) : MM (list BlockStatus) :=
  m ← gets id;
  let num_fresh := Z.min (len keys) (_num_blocks m - _num_allocated_blocks m) in
  let num_reused := len keys - num_fresh in
  _ ← assert (num_reused <=? len (_free_list m));
  fresh ← collect (py_range 0 num_fresh) (λ _,
    n ← gets _num_allocated_blocks;
    _ ← modify (set_allocated (n + 1));
    mret (BlockStatus_init n));
  reused ← collect (py_range 0 num_reused) (λ _, i ← pop_free; mret (BlockStatus_init i));
  mret (fresh ++ reused).

Definition _free_block (block : BlockStatus) : MM unit :=
  modify (λ m, set_free_list (_free_list m ++ [st_block_id block]) m).

Definition _get_load_store_spec (blocks : list BlockStatus) : LoadStoreSpec :=
  CPULoadStoreSpec (st_block_id <$> blocks).

(** [self._policy.get(key)] *)
Definition policy_get (key : K) : MM (option BlockStatus) := gets (λ m, cp_get (_policy m) key).
(** An assignment to [ref_cnt] of the block of a key. *)
Definition assign_ref_cnt (key : K) (block : BlockStatus) (v : Z) : MM unit :=
  modify (λ m, set_policy (cp_update key (set_ref_cnt v block) (_policy m)) m).
(** [self.events.append(event)], when events are kept. *)
Definition emit (event : OffloadingEvent) : MM unit :=
  modify (λ m, set_events (option_map (λ l, l ++ [event]) (cpu_events m)) m).

Definition cpu_lookup (key : K) (req_context : C) : MM (option bool) :=
  block ← policy_get key;
  mret (Some (match block with Some block => is_ready block | None => false end)).

Definition prepare_load (keys : list K) (req_context : C) : MM LoadStoreSpec :=
  blocks ← collect keys (λ key,
    block ← policy_get key;
    block ← or_raise AssertionError block;
    _ ← assert (is_ready block);
    _ ← assign_ref_cnt key block (st_ref_cnt block + 1);
    mret block);
  mret (_get_load_store_spec blocks).

Definition touch (keys : list K) : MM unit := modify (λ m, set_policy (cp_touch keys (_policy m)) m).

Definition complete_load (keys : list K) : MM unit :=
  for_ keys (λ key,
    block ← policy_get key;
    block ← or_raise AssertionError block;
    _ ← assert (0 <? st_ref_cnt block);
    assign_ref_cnt key block (st_ref_cnt block - 1)).

Definition prepare_store (keys : list K) (req_context : C) : MM (option PrepareStoreOutput) :=
  m ← gets id;
  let keys_to_store := filter (λ k, cp_get (_policy m) k = None) keys in
  match keys_to_store with
  | [] => mret (Some (mkPrepareStoreOutput [] (_get_load_store_spec []) []))
  | _ =>
      let num_blocks_to_evict := len keys_to_store - _get_num_free_blocks m in
      evicted ←
        (if 0 <? num_blocks_to_evict then
           evicted ← zoom _policy set_policy (cp_evict num_blocks_to_evict (list_to_set keys));
           match evicted with
           | None => mret None
           | Some evicted =>
               to_evict ← collect evicted (λ '(key, block), _ ← _free_block block; mret key);
               mret (Some to_evict)
           end
         else mret (Some []));
      match evicted with
      | None => mret None
      | Some to_evict =>
          _ ← (if (0 <? len to_evict) then emit (mkOffloadingEvent to_evict "CPU" true) else mret tt);
          blocks ← _allocate_blocks keys_to_store;
          _ ← assert (len blocks =? len keys_to_store);
          _ ← for_ (zip keys_to_store blocks) (λ '(key, block),
                modify (λ m, set_policy (cp_insert key block (_policy m)) m));
          mret (Some (mkPrepareStoreOutput keys_to_store (_get_load_store_spec blocks) to_evict))
      end
  end.

Definition complete_store (keys : list K) (success : bool) : MM unit :=
  if success then
    stored_keys ← collect keys (λ key,
      block ← policy_get key;
      match block with
      | Some block =>
          if negb (is_ready block) then _ ← assign_ref_cnt key block 0; mret [key] else mret []
      | None => mret []
      end);
    let stored_keys := concat stored_keys in
    if 0 <? len stored_keys then emit (mkOffloadingEvent stored_keys "CPU" false) else mret tt
  else
    for_ keys (λ key,
      block ← policy_get key;
      match block with
      | Some block =>
          if negb (is_ready block) then
            _ ← zoom _policy set_policy (cp_remove key);
            _free_block block
          else mret tt
      | None => mret tt
      end).

(** [take_events], run to its end. *)
Definition take_events : MM (list OffloadingEvent) :=
  events ← gets cpu_events;
  match events with
  | None => mret []
  | Some l => _ ← modify (set_events (Some [])); mret l
  end.

#[global] Instance CPU_manager : OffloadingManager CPUOffloadingManager := {|
  om_lookup := cpu_lookup; om_prepare_load := prepare_load; om_touch := touch; om_complete_load := complete_load;
  om_prepare_store := prepare_store; om_complete_store := complete_store; om_take_events := take_events;
  om_shutdown := mret tt
|}.
End CPU.

(** ** [FilterReusedOffloadingManager] *)
Section Filter.
Context {B : Type} `{!OffloadingManager B}.

Record FilterReusedOffloadingManager := mkFilter {
  _backing : B;
  store_threshold : Z;
  max_tracker_size : Z;
  counts : list (K * Z)
}.

Definition set_backing v m := mkFilter v (store_threshold m) (max_tracker_size m) (counts m).
Definition set_counts v m := mkFilter (_backing m) (store_threshold m) (max_tracker_size m) v.

Definition filter_init (backing : B) (store_threshold max_tracker_size : Z) : result FilterReusedOffloadingManager :=
  if store_threshold <? 2 then Raise ValueError
  else if max_tracker_size <? 1 then Raise ValueError
  else Ok (mkFilter backing store_threshold max_tracker_size []).

(** A call of a method of the backing manager. *)
Definition backed {A} (m : M B A) : M FilterReusedOffloadingManager A := zoom _backing set_backing m.

(** The bookkeeping of [lookup]. *)
Definition record_key (key : K) : M FilterReusedOffloadingManager unit :=
  m ← gets id;
  match od_get key (counts m) with
  | Some n => modify (set_counts (od_set key (n + 1) (od_move_to_end key (counts m))))
  | None =>
      _ ← (if max_tracker_size m <=? len (counts m) then
             match counts m with [] => raise KeyError | _ :: d => modify (set_counts d) end
           else mret tt);
      modify (λ m, set_counts (od_set key 1 (counts m)) m)
  end.

Definition filter_lookup (key : K) (req_context : C) : M FilterReusedOffloadingManager (option bool) :=
  _ ← record_key key;
  backed (om_lookup key req_context).

Definition eligible_keys (m : FilterReusedOffloadingManager) (keys : list K) : list K :=
  filter (λ key, store_threshold m ≤ default 0 (od_get key (counts m))) keys.

Definition filter_prepare_store (keys : list K) (req_context : C) :
    M FilterReusedOffloadingManager (option PrepareStoreOutput) :=
  eligible ← gets (λ m, eligible_keys m keys);
  backed (om_prepare_store eligible req_context).

#[global] Instance Filter_manager : OffloadingManager FilterReusedOffloadingManager := {|
  om_lookup := filter_lookup;
  om_prepare_load keys c := backed (om_prepare_load keys c);
  om_touch keys := backed (om_touch keys);
  om_complete_load keys := backed (om_complete_load keys);
  om_prepare_store := filter_prepare_store;
  om_complete_store keys success := backed (om_complete_store keys success);
  om_take_events := backed om_take_events;
  om_shutdown := mret tt
|}.
End Filter.
End Manager.
Arguments OffloadingManager K C Mg : clear implicits.
Arguments PrepareStoreOutput K : clear implicits.
Arguments OffloadingEvent K : clear implicits.
Arguments CPUOffloadingManager K P : clear implicits.
Arguments FilterReusedOffloadingManager K B : clear implicits.

(** [CPUOffloadingManager(num_blocks, cache_policy, enable_events)]: the name picks the class
    of the policy. *)
Definition make_cpu_manager {K} `{Countable K} (num_blocks : Z) (cache_policy : string) (enable_events : bool) :
    result (CPUOffloadingManager K (LRUCachePolicy K) + CPUOffloadingManager K (ARCCachePolicy K)) :=
  if String.eqb cache_policy "lru" then Ok (inl (cpu_manager_init num_blocks enable_events))
  else if String.eqb cache_policy "arc" then Ok (inr (cpu_manager_init num_blocks enable_events))
  else Raise ValueError.
