(* ===== verification/OffloadSafe.v ===== *)
(** * Slots of CPU memory are never shared

    [OffloadingManagerLaws] is what an offload manager promises to the connector that
    drives it: while a load or a store is in flight, the slot it uses stays with its block.
    The CPU manager keeps the promise over any replacement policy that satisfies its own
    laws, and the reuse filter over any manager that does. *)

From S2P Require Import Prelude OffloadPolicy OffloadManager.

#[local] Set Default Proof Using "Type*".

Section Interface.
Context {K C : Type} {Mg : Type} `{!OffloadingManager K C Mg}.

(** The block of a key can be read. *)
Class OffloadingManagerLaws := {
  om_ready : Mg → K → Prop;
  (* the manager is in a good state, [loads] and [stores] are the transfers in flight: the
     key and the slot of each *)
  om_inv : Mg → list (K * Z) → list (K * Z) → Prop;
  om_slots m L S : om_inv m L S →
    NoDup S.*1 ∧ NoDup S.*2 ∧ (∀ i, i ∈ L.*2 → i ∉ S.*2) ∧
    (∀ k k' i j, (k, i) ∈ L → (k', j) ∈ L → k = k' ↔ i = j);
  om_loads m L S k : om_inv m L S → k ∈ L.*1 → om_ready m k;
  om_stores m L S k : om_inv m L S → k ∈ S.*1 → ¬ om_ready m k;
  om_inv_perm m L L' S S' : L ≡ₚ L' → S ≡ₚ S' → om_inv m L S → om_inv m L' S';
  om_lookup_ok m L S k c : om_inv m L S →
    wp (om_lookup k c) (λ r m', om_inv m' L S ∧ (∀ k', om_ready m' k' ↔ om_ready m k') ∧
      (r = Some true → om_ready m k) ∧ (r = Some false → ¬ om_ready m k)) m;
  om_touch_ok m L S ks : om_inv m L S →
    wp (om_touch ks) (λ _ m', om_inv m' L S ∧ ∀ k', om_ready m' k' ↔ om_ready m k') m;
  om_prepare_load_ok m L S ks c : om_inv m L S → (∀ k, k ∈ ks → om_ready m k) → len L + len ks < 2 ^ 31 →
    wp (om_prepare_load ks c) (λ spec m', ∃ ids, spec = CPULoadStoreSpec ids ∧ length ids = length ks ∧
      om_inv m' (zip ks ids ++ L) S ∧ ∀ k', om_ready m' k' ↔ om_ready m k') m;
  om_complete_load_ok m D L S : om_inv m (D ++ L) S →
    wp (om_complete_load D.*1) (λ _ m', om_inv m' L S ∧ ∀ k', om_ready m' k' ↔ om_ready m k') m;
  om_prepare_store_ok m L S ks c : om_inv m L S → NoDup ks →
    wp (om_prepare_store ks c) (λ o m',
      (∀ k, om_ready m' k → om_ready m k) ∧
      match o with
      | None => om_inv m' L S ∧ ∀ k, om_ready m k → om_ready m' k
      | Some out => ∃ ids, store_spec out = CPULoadStoreSpec ids ∧ length ids = length (keys_to_store out) ∧
          keys_to_store out `sublist_of` ks ∧ om_inv m' L (zip (keys_to_store out) ids ++ S) ∧
          (∀ k, om_ready m k → k ∉ evicted_keys out → om_ready m' k)
      end) m;
  om_complete_store_ok m L D S success : om_inv m L (D ++ S) →
    wp (om_complete_store D.*1 success) (λ _ m', om_inv m' L S ∧
      ∀ k', om_ready m' k' ↔ om_ready m k' ∨ success = true ∧ k' ∈ D.*1) m;
  om_take_events_ok m L S : om_inv m L S →
    wp om_take_events (λ _ m', om_inv m' L S ∧ ∀ k', om_ready m' k' ↔ om_ready m k') m
}.
End Interface.
Arguments OffloadingManagerLaws K C Mg {_}.

Lemma c_int_id w z : 0 < w → - 2 ^ (w - 1) ≤ z < 2 ^ (w - 1) → c_int w z = z.
Proof.
  intros Hw Hz. unfold c_int. assert (2 ^ w = 2 * 2 ^ (w - 1)) as He.
  { rewrite <- Z.pow_succ_r by lia. f_equal. lia. }
  rewrite Z.mod_small by lia. lia.
Qed.

(** ** The CPU manager *)
Section CPU.
Context {K C : Type} `{Countable K} {P : Type} `{!CachePolicy K P, !CachePolicyLaws K P}.
Implicit Types (m : CPUOffloadingManager K P) (L S : list (K * Z)) (R : list Z) (k : K) (b : BlockStatus).

Definition get_block m k : option BlockStatus := cp_get (_policy m) k.
Definition cpu_ready m k : Prop := ∃ b, get_block m k = Some b ∧ is_ready b = true.

(** [R] holds the slots that are in nobody's hands while a call is under way. *)
Record cpu_inv (m : CPUOffloadingManager K P) (R : list Z) (L S : list (K * Z)) : Prop := {
  ci_ok : cp_ok (_policy m);
  ci_alloc : 0 ≤ _num_allocated_blocks m ≤ _num_blocks m;
  ci_width : _num_blocks m ≤ 2 ^ 63;
  ci_free : NoDup (_free_list m ++ R);
  ci_free_range i : i ∈ _free_list m ++ R → 0 ≤ i < _num_allocated_blocks m;
  ci_block k b : get_block m k = Some b →
    0 ≤ st_block_id b < _num_allocated_blocks m ∧ st_block_id b ∉ _free_list m ++ R;
  ci_inj k k' b b' : get_block m k = Some b → get_block m k' = Some b' → st_block_id b = st_block_id b' → k = k';
  ci_cover i : 0 ≤ i < _num_allocated_blocks m →
    i ∈ _free_list m ++ R ∨ ∃ k b, get_block m k = Some b ∧ st_block_id b = i;
  ci_ref k b : get_block m k = Some b →
    st_ref_cnt b = if decide (k ∈ S.*1) then -1 else occ k L.*1;
  ci_L k i : (k, i) ∈ L → ∃ b, get_block m k = Some b ∧ st_block_id b = i;
  ci_S k i : (k, i) ∈ S → ∃ b, get_block m k = Some b ∧ st_block_id b = i;
  ci_LS k : k ∈ L.*1 → k ∉ S.*1;
  ci_nd : NoDup S.*1;
  ci_small : len L < 2 ^ 31
}.

Lemma occ_perm `{EqDecision A} (x : A) l l' : l ≡ₚ l' → occ x l = occ x l'.
Proof. intros Hl. unfold occ, len. by rewrite Hl. Qed.

Lemma cpu_inv_perm m R L L' S S' : L ≡ₚ L' → S ≡ₚ S' → cpu_inv m R L S → cpu_inv m R L' S'.
Proof.
  intros HL HS []. split; try done.
  - intros k b Hk. rewrite (ci_ref0 k b Hk), (occ_perm k _ _ (fmap_Permutation fst _ _ HL)).
    erewrite decide_ext; [done|]. by rewrite HS.
  - intros k i. rewrite <- HL. apply ci_L0.
  - intros k i. rewrite <- HS. apply ci_S0.
  - intros k. rewrite <- HL, <- HS. apply ci_LS0.
  - by rewrite <- HS.
  - unfold len in *. by rewrite <- HL.
Qed.

Lemma cpu_ready_iff m R L S k b : cpu_inv m R L S → get_block m k = Some b →
  is_ready b = true ↔ k ∉ S.*1.
Proof.
  intros Hi Hb. unfold is_ready. rewrite (ci_ref _ _ _ _ Hi k b Hb).
  pose proof (occ_nonneg k L.*1). case_decide; [|rewrite Z.leb_le]; naive_solver.
Qed.

(** *** The primitives *)

(** A change of the reference count of a block. *)
Lemma assign_inv m R L S L' S' k b v :
  cpu_inv m R L S → get_block m k = Some b → - 2 ^ 31 ≤ v < 2 ^ 31 →
  (∀ k', k' ≠ k → (if decide (k' ∈ S'.*1) then -1 else occ k' L'.*1) = (if decide (k' ∈ S.*1) then -1 else occ k' L.*1)) →
  v = (if decide (k ∈ S'.*1) then -1 else occ k L'.*1) →
  (∀ k i, (k, i) ∈ L' ++ S' → (k, i) ∈ L ++ S ∨ get_block m k = Some b ∧ st_block_id b = i) →
  (∀ k, k ∈ L'.*1 → k ∉ S'.*1) → NoDup S'.*1 → len L' < 2 ^ 31 →
  wp (assign_ref_cnt k b v) (λ _ m', cpu_inv m' R L' S' ∧ get_block m' k = Some (mkBlockStatus v (st_block_id b)) ∧
    ∀ k', k' ≠ k → get_block m' k' = get_block m k') m.
Proof.
  intros [] Hk Hv Hoth Hve Hpairs Hdisj Hnd Hsm. unfold assign_ref_cnt. wp_prim.
  destruct (cp_update_ok (_policy m) k b (set_ref_cnt v b) ci_ok0 Hk) as [Hok Hget].
  unfold set_ref_cnt in Hok, Hget |- *. rewrite c_int_id in Hok, Hget |- * by lia.
  set (m' := set_policy _ m). assert (∀ k', get_block m' k' = if decide (k' = k) then
    Some (mkBlockStatus v (st_block_id b)) else get_block m k') as Hg by exact Hget.
  assert (∀ k' b', get_block m' k' = Some b' → ∃ b0, get_block m k' = Some b0 ∧ st_block_id b0 = st_block_id b') as Hback.
  { intros k' b'. rewrite Hg. destruct (decide (k' = k)) as [->|]; [|intros ?; by exists b']. intros He. injection He as <-. by exists b. }
  assert (∀ k' b0, get_block m k' = Some b0 → ∃ b', get_block m' k' = Some b' ∧ st_block_id b' = st_block_id b0) as Hfwd.
  { intros k' b0 Hb0. rewrite Hg. destruct (decide (k' = k)) as [->|]; [|by exists b0].
    eexists. split; [done|]. simpl. congruence. }
  split; [|split; [by rewrite Hg, decide_True|intros k' Hne; by rewrite Hg, decide_False]].
  split; simpl; try done.
  - intros k' b' (b0 & Hb0 & <-)%Hback. by apply (ci_block0 k').
  - intros k1 k2 b1 b2 (c1 & H1 & <-)%Hback (c2 & H2 & <-)%Hback. by eapply ci_inj0.
  - intros i Hi. destruct (ci_cover0 i Hi) as [?|(k' & b0 & (b' & ? & ?)%Hfwd & <-)]; [by left|right].
    exists k', b'. split; [done|congruence].
  - intros k' b'. rewrite Hg. destruct (decide (k' = k)) as [->|Hkk]; [intros [= <-]; simpl; done|].
    intros Hb'. rewrite Hoth by done. by apply ci_ref0.
  - intros k' i Hin. destruct (Hpairs k' i) as [[Hin'|Hin']%elem_of_app|[Hb <-]]; [set_solver|..].
    + destruct (ci_L0 _ _ Hin') as (b0 & (b' & ? & ?)%Hfwd & <-). eauto.
    + destruct (ci_S0 _ _ Hin') as (b0 & (b' & ? & ?)%Hfwd & <-). eauto.
    + by apply Hfwd.
  - intros k' i Hin. destruct (Hpairs k' i) as [[Hin'|Hin']%elem_of_app|[Hb <-]]; [set_solver|..].
    + destruct (ci_L0 _ _ Hin') as (b0 & (b' & ? & ?)%Hfwd & <-). eauto.
    + destruct (ci_S0 _ _ Hin') as (b0 & (b' & ? & ?)%Hfwd & <-). eauto.
    + by apply Hfwd.
Qed.

(** A block that changes hands in the policy, its slot taken from or put to the reserve. *)
Lemma insert_inv m R L S k i : cpu_inv m (i :: R) L S → get_block m k = None →
  wp (modify (λ m, set_policy (cp_insert k (BlockStatus_init i) (_policy m)) m))
     (λ _ m', cpu_inv m' R L ((k, i) :: S) ∧ _num_blocks m' = _num_blocks m ∧
        get_block m' k = Some (mkBlockStatus (-1) i) ∧ ∀ k', k' ≠ k → get_block m' k' = get_block m k') m.
Proof.
  intros [] Hk. wp_prim.
  assert (0 ≤ i < _num_allocated_blocks m) as Hi by (apply ci_free_range0; set_solver).
  assert (NoDup (_free_list m ++ R) ∧ i ∉ _free_list m ++ R) as [Hnd Hfresh].
  { rewrite <- Permutation_middle in ci_free0. by apply NoDup_cons in ci_free0 as [? ?]. }
  assert (k ∉ L.*1 ∧ k ∉ S.*1) as [HkL HkS].
  { split; intros ([k' j] & -> & Hin)%list_elem_of_fmap; [destruct (ci_L0 _ _ Hin) as (b & Hb & _)
      |destruct (ci_S0 _ _ Hin) as (b & Hb & _)]; simpl in *; congruence. }
  destruct (cp_insert_ok (_policy m) k (BlockStatus_init i) ci_ok0 Hk) as [Hok Hget].
  unfold BlockStatus_init in Hok, Hget |- *. rewrite !c_int_id in Hok, Hget |- * by lia.
  set (m' := set_policy _ m). assert (∀ k', get_block m' k' = if decide (k' = k) then
    Some (mkBlockStatus (-1) i) else get_block m k') as Hg by exact Hget.
  assert (∀ k' b, get_block m k' = Some b → get_block m' k' = Some b) as Hfwd.
  { intros k' b Hb. rewrite Hg, decide_False; [done|]. intros ->. congruence. }
  split; [|split; [done|split; [by rewrite Hg, decide_True|intros k' Hne; by rewrite Hg, decide_False]]].
  split; simpl; try done.
  - intros j Hj. apply ci_free_range0. set_solver.
  - intros k' b'. rewrite Hg. destruct (decide (k' = k)) as [->|]; [intros [= <-]; done|].
    intros [? ?]%ci_block0. split; [done|set_solver].
  - intros k1 k2 b1 b2. rewrite !Hg.
    destruct (decide (k1 = k)) as [->|], (decide (k2 = k)) as [->|]; [done|..|by apply ci_inj0].
    + intros [= <-] [_ Hn]%ci_block0. simpl. intros Heq. exfalso. apply Hn. rewrite <- Heq. set_solver.
    + intros [_ Hn]%ci_block0 [= <-]. simpl. intros Heq. exfalso. apply Hn. rewrite Heq. set_solver.
  - intros j Hj. destruct (ci_cover0 j Hj) as [Hin|(k' & b & Hb & <-)]; [|right; eauto].
    destruct (decide (j = i)) as [->|]; [right|left; set_solver].
    exists k, (mkBlockStatus (-1) i). split; [|done]. by rewrite Hg, decide_True.
  - intros k' b'. rewrite Hg. destruct (decide (k' = k)) as [->|Hne].
    + intros [= <-]. simpl. by rewrite decide_True by set_solver.
    + intros ->%ci_ref0. erewrite decide_ext; [done|]. set_solver.
  - intros k' j (b & Hb & <-)%ci_L0. eauto.
  - intros k' j [[= -> ->]|Hin]%elem_of_cons.
    + exists (mkBlockStatus (-1) i). split; [|done]. by rewrite Hg, decide_True.
    + destruct (ci_S0 _ _ Hin) as (b & Hb & <-). eauto.
  - intros k' Hk'. apply not_elem_of_cons. split; [by intros ->|by apply ci_LS0].
  - by constructor.
Qed.

(** The policy gives up some blocks that no transfer uses. *)
Lemma leave_inv m R L S0 S (l : list (K * BlockStatus)) (p' : P) : cpu_inv m R L S0 → cp_ok p' → NoDup l.*1 →
  S `sublist_of` S0 → (∀ k, k ∈ S0.*1 → k ∈ S.*1 ∨ k ∈ l.*1) →
  (∀ k b, (k, b) ∈ l → get_block m k = Some b ∧ k ∉ L.*1 ∧ k ∉ S.*1) →
  (∀ k, cp_get p' k = if decide (k ∈ l.*1) then None else get_block m k) →
  cpu_inv (set_policy p' m) ((st_block_id <$> l.*2) ++ R) L S.
Proof.
  intros [] Hok Hnd Hsub HS0 Hl Hget. set (m' := set_policy p' m).
  assert (∀ k, k ∈ S.*1 → k ∈ S0.*1) as HS1 by (apply sublist_subseteq; by apply fmap_sublist).
  assert (∀ k', get_block m' k' = if decide (k' ∈ l.*1) then None else get_block m k') as Hg by exact Hget.
  assert (∀ k b, get_block m' k = Some b → get_block m k = Some b ∧ k ∉ l.*1) as Hback.
  { intros k b. rewrite Hg. by case_decide. }
  assert (∀ k b, get_block m k = Some b → k ∉ l.*1 → get_block m' k = Some b) as Hfwd.
  { intros k b Hb Hn. by rewrite Hg, decide_False. }
  assert (∀ i, i ∈ st_block_id <$> l.*2 → ∃ k b, (k, b) ∈ l ∧ st_block_id b = i) as Hids.
  { intros i (b & -> & ([k b'] & -> & Hin)%list_elem_of_fmap)%list_elem_of_fmap. eauto. }
  assert (∀ k, k ∈ L.*1 ∨ k ∈ S.*1 → k ∉ l.*1) as Hused.
  { intros k Hk ([k' b] & -> & Hin)%list_elem_of_fmap. destruct (Hl _ _ Hin) as (_ & ? & ?). simpl in *. tauto. }
  split; simpl; try done.
  - rewrite app_assoc, (Permutation_app_comm (_free_list m)), <- app_assoc. apply NoDup_app. split_and!; [| |done].
    + clear -Hnd Hl ci_inj0. induction l as [|[k b] l IH]; [constructor|]. rewrite fmap_cons in Hnd.
      apply NoDup_cons in Hnd as [Hk Hnd]. rewrite !fmap_cons. constructor; [|apply IH; set_solver].
      intros (b' & Heq & ([k' b''] & -> & Hin)%list_elem_of_fmap)%list_elem_of_fmap. simpl in *.
      destruct (Hl k b) as [Hb _]; [by left|]. destruct (Hl k' b'') as [Hb' _]; [by right|].
      apply Hk. rewrite (ci_inj0 k k' b b'' Hb Hb' Heq). by apply (list_elem_of_fmap_2 fst) in Hin.
    + intros i (k & b & [Hb _]%Hl & <-)%Hids. by apply (ci_block0 k).
  - intros i [Hi|[(k & b & [Hb _]%Hl & <-)%Hids|Hi]%elem_of_app]%elem_of_app; [|by apply (ci_block0 k)|];
      apply ci_free_range0; set_solver.
  - intros k b [Hb Hk]%Hback. destruct (ci_block0 k b Hb) as [Hr Hn]. split; [done|].
    intros [Hi|[(k' & b' & Hin & Heq)%Hids|Hi]%elem_of_app]%elem_of_app; [set_solver| |set_solver].
    destruct (Hl _ _ Hin) as [Hb' _]. apply Hk. rewrite <- (ci_inj0 k' k b' b Hb' Hb Heq).
    by apply (list_elem_of_fmap_2 fst) in Hin.
  - intros k k' b b' [Hb _]%Hback [Hb' _]%Hback. by eapply ci_inj0.
  - intros i Hi. destruct (ci_cover0 i Hi) as [Hin|(k & b & Hb & <-)]; [left; set_solver|].
    destruct (decide (k ∈ l.*1)) as [Hk|Hk]; [left|right; eauto].
    apply list_elem_of_fmap in Hk as ([k' b'] & -> & Hin). destruct (Hl _ _ Hin) as [Hb' _]. simpl in *.
    assert (b' = b) as -> by congruence. rewrite !elem_of_app. right; left.
    apply list_elem_of_fmap_2. by apply (list_elem_of_fmap_2 snd) in Hin.
  - intros k b [Hb Hk]%Hback. rewrite (ci_ref0 k b Hb). erewrite decide_ext; [done|]. naive_solver.
  - intros k i Hin. destruct (ci_L0 _ _ Hin) as (b & Hb & <-). exists b. split; [|done]. apply Hfwd; [done|].
    apply Hused. left. by apply (list_elem_of_fmap_2 fst) in Hin.
  - intros k i Hin. destruct (ci_S0 k i) as (b & Hb & <-); [by eapply elem_of_sublist|].
    exists b. split; [|done]. apply Hfwd; [done|].
    apply Hused. right. by apply (list_elem_of_fmap_2 fst) in Hin.
  - naive_solver.
  - eapply sublist_NoDup; [exact ci_nd0|]. by apply fmap_sublist.
Qed.

Definition same_ready m m' : Prop := ∀ k, cpu_ready m' k ↔ cpu_ready m k.

Lemma same_ready_trans m1 m2 m3 : same_ready m1 m2 → same_ready m2 m3 → same_ready m1 m3.
Proof. intros H1 H2 k. by rewrite (H2 k), (H1 k). Qed.

(** After a change of one block. *)
Lemma ready_change m m' k b b' : get_block m k = Some b → get_block m' k = Some b' →
  (∀ k', k' ≠ k → get_block m' k' = get_block m k') →
  ∀ k', cpu_ready m' k' ↔ if decide (k' = k) then is_ready b' = true else cpu_ready m k'.
Proof.
  intros Hb Hb' Hoth k'. unfold cpu_ready. destruct (decide (k' = k)) as [->|]; [|by rewrite Hoth].
  rewrite Hb'. naive_solver.
Qed.

(** *** Loads *)

Lemma load_one m R L S k : cpu_inv m R L S → cpu_ready m k → len L + 1 < 2 ^ 31 →
  wp (block ← policy_get k;
      block ← or_raise AssertionError block;
      _ ← assert (is_ready block);
      _ ← assign_ref_cnt k block (st_ref_cnt block + 1);
      mret block)
     (λ b m', cpu_inv m' R ((k, st_block_id b) :: L) S ∧ same_ready m m') m.
Proof.
  intros Hi (b & Hb & Hr) Hlen. wp_prim. apply wp_gets. wp_prim. eapply wp_or_raise; [exact Hb|].
  wp_prim. apply wp_assert; [done|]. wp_prim.
  pose proof (proj1 (cpu_ready_iff m R L S k b Hi Hb) Hr) as HkS.
  pose proof (ci_ref _ _ _ _ Hi k b Hb) as Href. rewrite decide_False in Href by done.
  assert (0 ≤ occ k L.*1 ≤ len L) as Hocc.
  { split; [apply occ_nonneg|]. unfold occ, len. pose proof (length_filter (k =.) L.*1). rewrite length_fmap in *. lia. }
  eapply wp_mono; [apply (assign_inv m R L S ((k, st_block_id b) :: L) S); [done|done|lia|..]|].
  - intros k' Hne. rewrite fmap_cons, occ_cons, (decide_False (P := k' = k)) by done. done.
  - rewrite decide_False, fmap_cons, occ_cons, decide_True by done. lia.
  - intros k' i [[[= -> ->]|Hin]%elem_of_cons|Hin]%elem_of_app; [by right|left..]; set_solver.
  - intros k' [->|Hk']%elem_of_cons; [done|by eapply ci_LS].
  - by eapply ci_nd.
  - rewrite len_cons. lia.
  - intros [] m' (Hi' & Hb' & Hoth). wp_prim. split; [done|]. intros k'.
    rewrite (ready_change m m' k b _ Hb Hb' Hoth). destruct (decide (k' = k)) as [->|]; [|done].
    unfold is_ready. simpl. rewrite Z.leb_le. split; [|lia]. intros _. by exists b.
Qed.

Lemma prepare_load_wp m L S ks (c : C) : cpu_inv m [] L S → (∀ k, k ∈ ks → cpu_ready m k) → len L + len ks < 2 ^ 31 →
  wp (prepare_load ks c) (λ spec m', ∃ ids, spec = CPULoadStoreSpec ids ∧ length ids = length ks ∧
    cpu_inv m' [] (zip ks ids ++ L) S ∧ same_ready m m') m.
Proof.
  intros Hi Hr Hlen. unfold prepare_load. wp_prim.
  lazymatch goal with |- wp (collect ks ?f) _ _ => cut (wp (collect ks f) (λ bs m', length bs = length ks ∧
    cpu_inv m' [] (zip ks (st_block_id <$> bs) ++ L) S ∧ same_ready m m') m) end.
  { intros Hw. eapply wp_mono; [exact Hw|]. intros bs m' (? & ? & ?). wp_prim. exists (st_block_id <$> bs).
    by rewrite length_fmap. }
  revert m L Hi Hr Hlen. induction ks as [|k ks IH]; intros m L Hi Hr Hlen; [by apply wp_ret|].
  rewrite len_cons in Hlen. pose proof (len_nonneg ks). simpl. wp_prim.
  eapply wp_mono; [apply load_one; [done|apply Hr; by left|lia]|].
  intros b m1 [Hi1 Hs1]. wp_prim. eapply wp_mono; [apply IH; [done| |rewrite len_cons; lia]|].
  { intros k' Hk'. apply Hs1, Hr. by right. }
  intros bs m2 (Hl & Hi2 & Hs2). wp_prim. split_and!; [by simpl; rewrite Hl| |by eapply same_ready_trans].
  eapply cpu_inv_perm; [|done|exact Hi2]. simpl. by rewrite Permutation_middle.
Qed.

Lemma unload_one m R L S k i : cpu_inv m R ((k, i) :: L) S →
  wp (block ← policy_get k;
      block ← or_raise AssertionError block;
      _ ← assert (0 <? st_ref_cnt block);
      assign_ref_cnt k block (st_ref_cnt block - 1)) (λ _ m', cpu_inv m' R L S ∧ same_ready m m') m.
Proof.
  intros Hi. destruct (ci_L _ _ _ _ Hi k i) as (b & Hb & Hid); [by left|].
  assert (k ∉ S.*1) as HkS by (apply (ci_LS _ _ _ _ Hi); by left).
  pose proof (ci_ref _ _ _ _ Hi k b Hb) as Href. rewrite decide_False, fmap_cons, occ_cons, decide_True in Href by done.
  pose proof (occ_nonneg k L.*1) as Hocc. pose proof (ci_small _ _ _ _ Hi) as Hsm. rewrite len_cons in Hsm.
  assert (occ k L.*1 ≤ len L) as Hocc2.
  { unfold occ, len. pose proof (length_filter (k =.) L.*1). rewrite length_fmap in *. lia. }
  wp_prim. apply wp_gets. wp_prim. eapply wp_or_raise; [exact Hb|]. wp_prim. apply wp_assert; [apply Z.ltb_lt; lia|].
  eapply wp_mono; [apply (assign_inv m R ((k, i) :: L) S L S); [done|done|lia|..]|].
  - intros k' Hne. rewrite fmap_cons, occ_cons, (decide_False (P := k' = k)) by done. done.
  - rewrite decide_False by done. lia.
  - intros k' j Hin. left. set_solver.
  - intros k' Hk'. apply (ci_LS _ _ _ _ Hi). by right.
  - by eapply ci_nd.
  - lia.
  - intros [] m' (Hi' & Hb' & Hoth). split; [done|]. intros k'.
    rewrite (ready_change m m' k b _ Hb Hb' Hoth). destruct (decide (k' = k)) as [->|]; [|done].
    unfold is_ready, cpu_ready. simpl. rewrite Z.leb_le. split; [|lia]. intros _. exists b. split; [done|].
    unfold is_ready. apply Z.leb_le. lia.
Qed.

Lemma complete_load_wp m D L S : cpu_inv m [] (D ++ L) S →
  wp (complete_load D.*1) (λ _ m', cpu_inv m' [] L S ∧ same_ready m m') m.
Proof.
  unfold complete_load. revert m. induction D as [|[k i] D IH]; intros m Hi; [by apply wp_ret|]. simpl.
  wp_prim. eapply wp_mono; [by apply (unload_one m [] (D ++ L) S k i)|]. intros [] m1 [Hi1 Hs1].
  eapply wp_mono; [by apply IH|]. intros [] m2 [Hi2 Hs2]. split; [done|]. by eapply same_ready_trans.
Qed.

(** *** The end of a store *)

Lemma free_block_inv m R L S b : cpu_inv m (st_block_id b :: R) L S →
  wp (_free_block b) (λ _ m', cpu_inv m' R L S ∧ _policy m' = _policy m ∧
    _num_blocks m' = _num_blocks m ∧ _num_allocated_blocks m' = _num_allocated_blocks m ∧
    len (_free_list m') = len (_free_list m) + 1) m.
Proof.
  intros []. unfold _free_block. wp_prim. split; [|split_and!; [done..|simpl; by rewrite len_app]].
  split; simpl; rewrite <- ?app_assoc; try done.
Qed.

Lemma stored_one m R L S k i : cpu_inv m R L ((k, i) :: S) →
  wp (block ← policy_get k;
      match block with
      | Some block => if negb (is_ready block) then _ ← assign_ref_cnt k block 0; mret [k] else mret []
      | None => mret []
      end)
     (λ r m', r = [k] ∧ cpu_inv m' R L S ∧ ∀ k', cpu_ready m' k' ↔ cpu_ready m k' ∨ k' = k) m.
Proof.
  intros Hi. destruct (ci_S _ _ _ _ Hi k i) as (b & Hb & Hid); [by left|].
  pose proof (ci_ref _ _ _ _ Hi k b Hb) as Href. rewrite decide_True in Href by (by left).
  assert (k ∉ L.*1) as HkL by (intros Hk; apply (ci_LS _ _ _ _ Hi k Hk); by left).
  pose proof (ci_nd _ _ _ _ Hi) as Hnd. rewrite fmap_cons in Hnd. apply NoDup_cons in Hnd as [HkS Hnd]. simpl in HkS.
  wp_prim. apply wp_gets. unfold get_block in Hb. rewrite Hb. unfold is_ready. rewrite Href. simpl.
  wp_prim. eapply wp_mono; [apply (assign_inv m R L ((k, i) :: S) L S); [done|done|lia|..]|].
  - intros k' Hne. erewrite decide_ext; [done|]. set_solver.
  - rewrite decide_False by done. symmetry. by apply occ_not_elem.
  - intros k' j Hin. left. set_solver.
  - intros k' Hk' Hs. apply (ci_LS _ _ _ _ Hi k' Hk'). by right.
  - done.
  - by eapply ci_small.
  - intros [] m' (Hi' & Hb' & Hoth). wp_prim. split; [done|]. split; [done|]. intros k'.
    rewrite (ready_change m m' k b _ Hb Hb' Hoth). destruct (decide (k' = k)) as [->|]; naive_solver.
Qed.

Lemma unstored_one m L S k i : cpu_inv m [] L ((k, i) :: S) →
  wp (block ← policy_get k;
      match block with
      | Some block =>
          if negb (is_ready block) then _ ← zoom _policy set_policy (cp_remove k); _free_block block else mret tt
      | None => mret tt
      end) (λ _ m', cpu_inv m' [] L S ∧ same_ready m m') m.
Proof.
  intros Hi. destruct (ci_S _ _ _ _ Hi k i) as (b & Hb & Hid); [by left|].
  pose proof (ci_ref _ _ _ _ Hi k b Hb) as Href. rewrite decide_True in Href by (by left).
  pose proof (ci_nd _ _ _ _ Hi) as Hnd. rewrite fmap_cons in Hnd. apply NoDup_cons in Hnd as [HkS Hnd]. simpl in HkS.
  wp_prim. apply wp_gets. unfold get_block in Hb. rewrite Hb. unfold is_ready. rewrite Href. simpl.
  wp_prim. apply wp_zoom. eapply wp_mono; [by eapply cp_remove_ok; [eapply ci_ok|]|]. intros [] p' [Hok Hget].
  eapply wp_mono; [apply (free_block_inv _ [] L S)|].
  - apply (leave_inv m [] L ((k, i) :: S) S [(k, b)] p'); [done|done|apply NoDup_singleton| |set_solver| |].
    + by apply sublist_cons.
    + intros k' b' [= -> ->]%list_elem_of_singleton. split_and!; [done| |done].
      intros Hk. apply (ci_LS _ _ _ _ Hi k Hk). by left.
    + intros k'. rewrite Hget. erewrite decide_ext; [done|]. set_solver.
  - intros [] m' (Hi' & Hp' & _). split; [done|]. intros k'. unfold cpu_ready, get_block. rewrite Hp'. simpl.
    rewrite Hget. destruct (decide (k' = k)) as [->|]; [|done]. rewrite Hb. unfold is_ready.
    split; [naive_solver|]. intros (b' & [= <-] & Hr). rewrite Href in Hr. done.
Qed.

Lemma emit_inv m R L S e : cpu_inv m R L S → wp (emit e) (λ _ m', cpu_inv m' R L S ∧ same_ready m m' ∧
  ∀ k, get_block m' k = get_block m k) m.
Proof. intros []. unfold emit. wp_prim. done. Qed.

Lemma complete_store_wp m L D S success : cpu_inv m [] L (D ++ S) →
  wp (complete_store D.*1 success) (λ _ m', cpu_inv m' [] L S ∧
    ∀ k', cpu_ready m' k' ↔ cpu_ready m k' ∨ success = true ∧ k' ∈ D.*1) m.
Proof.
  intros Hi. unfold complete_store. destruct success.
  - wp_prim. lazymatch goal with |- wp (collect _ ?f) _ _ => cut (wp (collect D.*1 f) (λ _ m', cpu_inv m' [] L S ∧
      ∀ k', cpu_ready m' k' ↔ cpu_ready m k' ∨ k' ∈ D.*1) m) end.
    { intros Hw. eapply wp_mono; [exact Hw|]. intros r m' [Hi' Hr]. destruct (0 <? _).
      - eapply wp_mono; [by apply emit_inv|]. intros [] m'' (? & Hs & _). split; [done|].
        intros k'. rewrite (Hs k'), Hr. naive_solver.
      - wp_prim. split; [done|]. intros k'. rewrite Hr. naive_solver. }
    revert m Hi. induction D as [|[k i] D IH]; intros m Hi; [apply wp_ret; split; [done|set_solver]|].
    simpl. wp_prim. eapply wp_mono; [by apply (stored_one m [] L (D ++ S) k i)|]. intros r m1 (-> & Hi1 & Hr1).
    wp_prim. eapply wp_mono; [by apply IH|]. intros rs m2 [Hi2 Hr2]. wp_prim. split; [done|].
    intros k'. rewrite Hr2, Hr1, elem_of_cons. naive_solver.
  - revert m Hi. induction D as [|[k i] D IH]; intros m Hi; [apply wp_ret; split; [done|naive_solver]|].
    simpl. wp_prim. eapply wp_mono; [by apply (unstored_one m L (D ++ S) k i)|]. intros [] m1 [Hi1 Hs1].
    eapply wp_mono; [by apply IH|]. intros [] m2 [Hi2 Hr2]. split; [done|].
    intros k'. rewrite Hr2, (Hs1 k'). naive_solver.
Qed.

(** *** The start of a store *)

Lemma cpu_inv_reserve m R R' L S : R ≡ₚ R' → cpu_inv m R L S → cpu_inv m R' L S.
Proof.
  intros HR []. split; try done.
  - by rewrite <- HR.
  - intros i. rewrite <- HR. apply ci_free_range0.
  - intros k b Hb. rewrite <- HR. by apply (ci_block0 k).
  - intros i Hi. rewrite <- HR. by apply ci_cover0.
Qed.

Lemma free_all m (l : list (K * BlockStatus)) R L S : cpu_inv m ((st_block_id <$> l.*2) ++ R) L S →
  wp (collect l (λ '(key, block), _ ← _free_block block; mret key))
    (λ r m', r = l.*1 ∧ cpu_inv m' R L S ∧ _policy m' = _policy m ∧ _num_blocks m' = _num_blocks m ∧
      _num_allocated_blocks m' = _num_allocated_blocks m ∧ len (_free_list m') = len (_free_list m) + len l) m.
Proof.
  revert m. induction l as [|[k b] l IH]; intros m Hi; [apply wp_ret; split_and!; [done..|rewrite len_nil; lia]|].
  simpl. wp_prim. wp_prim. eapply wp_mono; [by apply (free_block_inv m ((st_block_id <$> l.*2) ++ R) L S)|].
  intros [] m1 (Hi1 & Hp1 & Hn1 & Ha1 & Hl1). wp_prim. wp_prim. eapply wp_mono; [by apply IH|].
  intros r m2 (-> & Hi2 & Hp2 & Hn2 & Ha2 & Hl2). wp_prim. split_and!; [done|done|congruence..|].
  rewrite Hl2, Hl1, len_cons. lia.
Qed.

Lemma fresh_inv m R L S : cpu_inv m R L S → _num_allocated_blocks m < _num_blocks m →
  cpu_inv (set_allocated (_num_allocated_blocks m + 1) m) (_num_allocated_blocks m :: R) L S.
Proof.
  intros [] Hlt. set (n := _num_allocated_blocks m) in *. split; simpl; try done.
  - lia.
  - rewrite <- Permutation_middle. constructor; [|done]. intros ?%ci_free_range0. lia.
  - intros i. rewrite <- Permutation_middle, elem_of_cons. intros [->|?%ci_free_range0]; lia.
  - intros k b Hb. destruct (ci_block0 k b Hb) as [? ?]. split; [lia|].
    rewrite <- Permutation_middle, not_elem_of_cons. split; [lia|done].
  - intros i Hi. rewrite <- Permutation_middle, elem_of_cons. destruct (decide (i = n)) as [->|]; [by left; left|].
    destruct (ci_cover0 i) as [?|?]; [lia|by left; right|by right].
Qed.

Lemma alloc_fresh {A} (l : list A) m R L S : cpu_inv m R L S → _num_allocated_blocks m + len l ≤ _num_blocks m →
  wp (collect l (λ _, n ← gets _num_allocated_blocks; _ ← modify (set_allocated (n + 1)); mret (BlockStatus_init n)))
    (λ bs m', ∃ ids, bs = BlockStatus_init <$> ids ∧ length ids = length l ∧ cpu_inv m' (ids ++ R) L S ∧
       _policy m' = _policy m ∧ _num_blocks m' = _num_blocks m ∧ _free_list m' = _free_list m) m.
Proof.
  revert m R. induction l as [|x l IH]; intros m R Hi Hn; [apply wp_ret; by exists []|].
  rewrite len_cons in Hn. pose proof (len_nonneg l). simpl. wp_prim. wp_prim. wp_prim. wp_prim. wp_prim. wp_prim.
  wp_prim. eapply wp_mono; [apply IH; [apply fresh_inv; [done|lia]|simpl; lia]|].
  intros bs m' (ids & -> & Hl & Hi' & Hp & Hb & Hf). wp_prim. exists (_num_allocated_blocks m :: ids).
  split_and!; [done|by simpl; rewrite Hl| |done..]. eapply cpu_inv_reserve; [|exact Hi']. by rewrite <- Permutation_middle.
Qed.

Lemma alloc_reused {A} (l : list A) m R L S : cpu_inv m R L S → len l ≤ len (_free_list m) →
  wp (collect l (λ _, i ← pop_free; mret (BlockStatus_init i)))
    (λ bs m', ∃ ids, bs = BlockStatus_init <$> ids ∧ length ids = length l ∧ cpu_inv m' (ids ++ R) L S ∧
       _policy m' = _policy m) m.
Proof.
  revert m R. induction l as [|x l IH]; intros m R Hi Hn; [apply wp_ret; by exists []|].
  rewrite len_cons in Hn. pose proof (len_nonneg l). simpl. wp_prim. wp_prim. unfold pop_free. wp_prim. wp_prim.
  destruct (last (_free_list m)) as [i|] eqn:Hlast.
  2: { apply last_None in Hlast. rewrite Hlast, len_nil in Hn. lia. }
  apply last_Some in Hlast as [fl' Hfl]. rewrite Hfl, length_app. simpl.
  replace (pred (length fl' + 1)) with (length fl') by lia. rewrite take_app_length.
  repeat wp_prim. eapply wp_mono; [apply (IH _ (i :: R))|].
  - destruct Hi. rewrite Hfl in *. rewrite <- app_assoc in ci_free0.
    split; simpl; try done; intros ?; rewrite ?cons_middle, ?(app_assoc fl'); eauto.
  - simpl. rewrite Hfl, len_app, len_cons, len_nil in Hn. lia.
  - intros bs m' (ids & -> & Hl & Hi' & Hp). wp_prim. exists (i :: ids).
    split_and!; [done|by simpl; rewrite Hl| |done]. eapply cpu_inv_reserve; [|exact Hi']. by rewrite <- Permutation_middle.
Qed.

Lemma allocate_wp m (keys : list K) L S : cpu_inv m [] L S →
  len keys ≤ len (_free_list m) + _num_blocks m - _num_allocated_blocks m →
  wp (_allocate_blocks keys) (λ bs m', ∃ ids, bs = BlockStatus_init <$> ids ∧ length ids = length keys ∧
    cpu_inv m' ids L S ∧ _policy m' = _policy m) m.
Proof.
  intros Hi Hn. unfold _allocate_blocks. wp_prim. wp_prim. simpl.
  set (nf := Z.min _ _). assert (0 ≤ nf ≤ len keys) as Hnf
    by (pose proof (ci_alloc _ _ _ _ Hi); pose proof (len_nonneg keys); lia).
  assert (len keys - nf ≤ len (_free_list m) ∧ _num_allocated_blocks m + nf ≤ _num_blocks m) as [Hre Hfr]
    by (pose proof (len_nonneg (_free_list m)); unfold nf; lia).
  assert (∀ n, 0 ≤ n → len (py_range 0 n) = n) as Hr by (intros; unfold len; rewrite length_py_range; lia).
  wp_prim. apply wp_assert; [apply Z.leb_le; lia|]. wp_prim.
  eapply wp_mono; [apply (alloc_fresh _ m [] L S Hi); rewrite Hr; lia|].
  intros bs m1 (ids & -> & Hl1 & Hi1 & Hp1 & Hb1 & Hf1). wp_prim.
  eapply wp_mono; [apply (alloc_reused _ m1 _ L S Hi1); rewrite Hf1, Hr; lia|].
  intros bs m2 (ids' & -> & Hl2 & Hi2 & Hp2). wp_prim. exists (ids ++ ids'). split_and!; [by rewrite fmap_app| | |congruence].
  - pose proof (Hr nf). pose proof (Hr (len keys - nf)). rewrite length_app. unfold len in *. lia.
  - eapply cpu_inv_reserve; [|exact Hi2]. by rewrite app_nil_r, Permutation_app_comm.
Qed.

Lemma insert_all m (keys : list K) (ids : list Z) L S : cpu_inv m ids L S → NoDup keys → length ids = length keys →
  (∀ k, k ∈ keys → get_block m k = None) →
  wp (for_ (zip keys (BlockStatus_init <$> ids)) (λ '(key, block),
        modify (λ m, set_policy (cp_insert key block (_policy m)) m)))
     (λ _ m', cpu_inv m' [] L (zip keys ids ++ S) ∧ ∀ k, k ∉ keys → get_block m' k = get_block m k) m.
Proof.
  revert m ids S. induction keys as [|k keys IH]; intros m [|i ids] S Hi Hnd Hl Hnone; simplify_eq/=; [by apply wp_ret|].
  apply NoDup_cons in Hnd as [Hk Hnd]. assert (get_block m k = None) as Hk0 by (apply Hnone; by left).
  wp_prim. eapply wp_mono; [by apply insert_inv|]. intros [] m1 (Hi1 & _ & Hb1 & Hoth).
  eapply wp_mono; [apply IH; [done|done|done|]|].
  - intros k' Hk'. rewrite Hoth; [apply Hnone; by right|]. by intros ->.
  - intros [] m2 [Hi2 Hs2]. split.
    + eapply cpu_inv_perm; [done| |exact Hi2]. by rewrite <- Permutation_middle.
    + intros k' [Hne Hn]%not_elem_of_cons. by rewrite Hs2, Hoth.
Qed.

(** The eviction of [prepare_store], with the slots put back to the free list. *)
Lemma evict_wp m n (protected : gset K) L S : cpu_inv m [] L S → 0 < n →
  wp (evicted ← zoom _policy set_policy (cp_evict n protected);
      match evicted with
      | None => mret None
      | Some evicted =>
          to_evict ← collect evicted (λ '(key, block), _ ← _free_block block; mret key);
          mret (Some to_evict)
      end)
     (λ o m', match o with
      | None => m' = m
      | Some ev => cpu_inv m' [] L S ∧ _num_blocks m' = _num_blocks m ∧
          _num_allocated_blocks m' = _num_allocated_blocks m ∧ len (_free_list m') = len (_free_list m) + n ∧
          len ev = n ∧ NoDup ev ∧
          (∀ k, k ∈ ev → cpu_ready m k ∧ k ∉ L.*1 ∧ k ∉ protected) ∧
          (∀ k, get_block m' k = if decide (k ∈ ev) then None else get_block m k)
      end) m.
Proof.
  intros Hi Hn. wp_prim. apply wp_zoom. eapply wp_mono; [by apply cp_evict_ok; [eapply ci_ok|]|].
  intros [l|] p' [Hok Hl]; simpl; [|apply wp_ret; subst p'; by destruct m].
  destruct Hl as (Hlen & Hnd & Hev & Hget).
  assert (∀ k b, (k, b) ∈ l → get_block m k = Some b ∧ is_ready b = true ∧ k ∉ L.*1 ∧ k ∉ S.*1 ∧ k ∉ protected) as Hl.
  { intros k b [Hb He]%Hev. apply andb_true_iff in He as [Hr%Z.eqb_eq Hp%negb_true_iff%bool_decide_eq_false].
    pose proof (ci_ref _ _ _ _ Hi k b Hb) as Href. rewrite Hr in Href. case_decide; [lia|].
    split; [done|]. unfold is_ready. rewrite Hr. split_and!; [done|by apply occ_not_elem|done|done]. }
  wp_prim. eapply wp_mono; [apply (free_all _ l [] L S)|].
  { eapply (leave_inv m [] L S S l p'); [done|done|done|done|naive_solver| |done]. intros k b ?%Hl. naive_solver. }
  intros r m' (-> & Hi' & Hp & Hb & Ha & Hf). wp_prim. split_and!; try done.
  - rewrite Hf. simpl. lia.
  - unfold len in *. by rewrite length_fmap.
  - intros k ([k' b] & -> & Hin)%list_elem_of_fmap. apply Hl in Hin. unfold cpu_ready. naive_solver.
  - intros k. unfold get_block. rewrite Hp. apply Hget.
Qed.

(** The keys that are not in the cache. *)
Definition missing m (ks : list K) : list K := filter (λ k, get_block m k = None) ks.

Lemma prepare_store_wp m L S ks (c : C) : cpu_inv m [] L S → NoDup ks →
  wp (prepare_store ks c) (λ o m',
    match o with
    | None => m' = m
    | Some out => keys_to_store out = missing m ks ∧
        (∃ ids, store_spec out = CPULoadStoreSpec ids ∧ length ids = length (missing m ks) ∧
           cpu_inv m' [] L (zip (missing m ks) ids ++ S)) ∧
        (∀ k, k ∈ evicted_keys out → cpu_ready m k ∧ k ∉ L.*1 ∧ k ∉ ks) ∧
        (∀ k, k ∉ missing m ks → get_block m' k = if decide (k ∈ evicted_keys out) then None else get_block m k)
    end) m.
Proof.
  intros Hi Hnd. unfold prepare_store. wp_prim. wp_prim. simpl.
  lazymatch goal with |- context [match ?f with [] => _ | _ => _ end] => change f with (missing m ks) end.
  destruct (missing m ks) as [|k0 ks0] eqn:Hms.
  { wp_prim. simpl. split_and!; [done|by exists []|set_solver|]. done. }
  rewrite <- Hms. clear k0 ks0 Hms. set (kts := missing m ks).
  assert (NoDup kts) as Hndk by (by apply NoDup_filter).
  assert (∀ k, k ∈ kts ↔ get_block m k = None ∧ k ∈ ks) as Hkts by (intros k; unfold kts, missing; by rewrite list_elem_of_filter).
  wp_prim. eapply wp_mono with (Q := λ o m', match o with
      | None => m' = m
      | Some ev => cpu_inv m' [] L S ∧
          len kts ≤ len (_free_list m') + _num_blocks m' - _num_allocated_blocks m' ∧
          (∀ k, k ∈ ev → cpu_ready m k ∧ k ∉ L.*1 ∧ k ∉ ks) ∧
          (∀ k, get_block m' k = if decide (k ∈ ev) then None else get_block m k)
      end).
  { unfold _get_num_free_blocks. destruct (Z.ltb_spec 0 (len kts - (len (_free_list m) + _num_blocks m - _num_allocated_blocks m))).
    - eapply wp_mono; [by eapply evict_wp|]. intros [ev|] m'; [|done].
      intros (? & -> & -> & -> & Hlen & _ & Hev & ?). split_and!; [done|lia| |done].
      intros k Hk. destruct (Hev k Hk) as (? & ? & Hp). split_and!; [done|done|]. by rewrite elem_of_list_to_set in Hp.
    - wp_prim. split_and!; [done|lia|set_solver|]. intros k. by rewrite decide_False by set_solver. }
  intros [ev|] m1; simpl; [|intros ->; by wp_prim]. intros (Hi1 & Hroom & Hev & Hget1).
  wp_prim. eapply wp_mono with (Q := λ _ m2, cpu_inv m2 [] L S ∧
    len kts ≤ len (_free_list m2) + _num_blocks m2 - _num_allocated_blocks m2 ∧ ∀ k, get_block m2 k = get_block m1 k).
  { destruct (0 <? len ev); [|by wp_prim]. unfold emit. wp_prim. destruct Hi1. split_and!; done. }
  intros [] m2 (Hi2 & Hroom2 & Hget2). wp_prim. eapply wp_mono; [by apply allocate_wp|].
  intros bs m3 (ids & -> & Hlen & Hi3 & Hp3). wp_prim.
  apply wp_assert; [unfold len; rewrite length_fmap, Hlen; apply Z.eqb_refl|].
  assert (∀ k, get_block m3 k = get_block m1 k) as Hget3 by (intros k; rewrite <- Hget2; unfold get_block; by rewrite Hp3).
  wp_prim. eapply wp_mono; [apply (insert_all m3 kts ids L S Hi3 Hndk Hlen)|].
  { intros k Hk. rewrite Hget3, Hget1. apply Hkts in Hk as [Hk _]. by case_decide. }
  intros [] m4 [Hi4 Hget4]. wp_prim. simpl. split_and!; [done| |done|].
  - exists ids. split_and!; [|done|done]. unfold _get_load_store_spec. f_equal. rewrite <- list_fmap_compose.
    rewrite <- (list_fmap_id ids) at 2. apply list_fmap_ext. intros j i Hj%list_elem_of_lookup_2. simpl.
    destruct (ci_free_range _ _ _ _ Hi3 i) as [H1 H2]; [apply elem_of_app; by right|].
    pose proof (ci_alloc _ _ _ _ Hi3). pose proof (ci_width _ _ _ _ Hi3). apply c_int_id; lia.
  - intros k Hk. by rewrite Hget4, Hget3, Hget1.
Qed.

Lemma cpu_init_inv num_blocks enable_events : 0 ≤ num_blocks ≤ 2 ^ 63 →
  cpu_inv (cpu_manager_init num_blocks enable_events) [] [] [].
Proof.
  intros Hn. destruct (cp_init_ok num_blocks ltac:(lia)) as [Hok Hget].
  assert (∀ k, get_block (cpu_manager_init num_blocks enable_events) k = None) as Hg by exact Hget.
  split; simpl; try done; try (intros; lia); try (intros; rewrite Hg in *; done).
  - constructor.
  - intros i. set_solver.
  - set_solver.
  - set_solver.
  - set_solver.
  - constructor.
Qed.

Lemma cpu_slots m L S : cpu_inv m [] L S → NoDup S.*1 ∧ NoDup S.*2 ∧ (∀ i, i ∈ L.*2 → i ∉ S.*2) ∧
  (∀ k k' i j, (k, i) ∈ L → (k', j) ∈ L → k = k' ↔ i = j).
Proof.
  intros Hi. pose proof (ci_nd _ _ _ _ Hi) as Hnd.
  assert (∀ k i, (k, i) ∈ L ++ S → ∃ b, get_block m k = Some b ∧ st_block_id b = i) as Hslot.
  { intros k i [?|?]%elem_of_app; [by eapply ci_L|by eapply ci_S]. }
  assert (∀ k k' i, (k, i) ∈ L ++ S → (k', i) ∈ L ++ S → k = k') as Hinj.
  { intros k k' i (b & Hb & <-)%Hslot (b' & Hb' & Heq)%Hslot. by eapply (ci_inj _ _ _ _ Hi k k' b b'). }
  split_and!; [done| | |].
  - assert (∀ k k' i, (k, i) ∈ S → (k', i) ∈ S → k = k') as HinjS by (intros k k' i ??; apply (Hinj k k' i); set_solver).
    clear -Hnd HinjS. induction S as [|[k i] S IH]; [constructor|]. rewrite fmap_cons in Hnd.
    apply NoDup_cons in Hnd as [Hk Hnd]. rewrite fmap_cons. constructor; [|apply IH; [done|set_solver]].
    intros ([k' j] & Heq & Hin)%list_elem_of_fmap. simpl in *. subst j.
    apply Hk. rewrite (HinjS k k' i); [|by left|by right]. by apply (list_elem_of_fmap_2 fst) in Hin.
  - intros i ([k j] & -> & HL)%list_elem_of_fmap ([k' j'] & Heq & HS)%list_elem_of_fmap. simpl in Heq. subst j'.
    assert (k = k') as <- by (apply (Hinj k k' j); set_solver).
    apply (ci_LS _ _ _ _ Hi k); [by apply (list_elem_of_fmap_2 fst) in HL|by apply (list_elem_of_fmap_2 fst) in HS].
  - intros k k' i j HL HL'. split; [|intros ->; apply (Hinj k k' j); set_solver].
    intros ->. destruct (Hslot k' i) as (b & ? & <-); [set_solver|]. destruct (Hslot k' j) as (b' & ? & <-); [set_solver|].
    congruence.
Qed.

Lemma touch_wp m L S ks : cpu_inv m [] L S →
  wp (touch ks) (λ _ m', cpu_inv m' [] L S ∧ same_ready m m') m.
Proof.
  intros []. unfold touch. wp_prim. destruct (cp_touch_ok (_policy m) ks ci_ok0) as [Hok Hget].
  set (m' := set_policy _ m). assert (∀ k, get_block m' k = get_block m k) as Hg by exact Hget.
  split; [|intros k; unfold cpu_ready; by rewrite Hg].
  split; simpl; try done; intros *; rewrite ?Hg; eauto; setoid_rewrite Hg; eauto.
Qed.

#[global] Program Instance CPU_laws : OffloadingManagerLaws K C (CPUOffloadingManager K P) := {|
  om_ready := cpu_ready; om_inv m L S := cpu_inv m [] L S
|}.
Next Obligation. apply cpu_slots. Qed.
Next Obligation.
  intros m L S k Hi ([k' i] & -> & Hin)%list_elem_of_fmap. destruct (ci_L _ _ _ _ Hi _ _ Hin) as (b & Hb & _).
  exists b. split; [done|]. eapply (cpu_ready_iff m [] L S k' b Hi Hb). apply (ci_LS _ _ _ _ Hi).
  by apply (list_elem_of_fmap_2 fst) in Hin.
Qed.
Next Obligation.
  intros m L S k Hi Hk (b & Hb & Hr). by apply (cpu_ready_iff m [] L S k b) in Hr.
Qed.
Next Obligation. intros m L L' S S'. apply cpu_inv_perm. Qed.
Next Obligation.
  intros m L S k c Hi. unfold om_lookup. simpl. unfold cpu_lookup. wp_prim. apply wp_gets. wp_prim.
  split; [done|]. split; [done|]. unfold cpu_ready, get_block.
  destruct (cp_get (_policy m) k) as [b|]; [split; intros [= He]|split; [done|]].
  - by exists b.
  - intros (b' & [= <-] & ?). congruence.
  - by intros _ (b' & ? & _).
Qed.
Next Obligation. intros m L S ks Hi. by apply touch_wp. Qed.
Next Obligation. intros m L S ks c Hi Hr Hl. by apply prepare_load_wp. Qed.
Next Obligation. intros m D L S Hi. by apply complete_load_wp. Qed.
Next Obligation.
  intros m L S ks c Hi Hnd. eapply wp_mono; [exact (prepare_store_wp m L S ks c Hi Hnd)|]. intros [out|] m'; [|by intros ->].
  intros (Hkts & (ids & Hspec & Hlen & Hi') & Hev & Hget).
  assert (∀ k, cpu_ready m' k → k ∉ missing m ks) as Hnew.
  { intros k (b & Hb & Hr) Hk. apply (cpu_ready_iff m' [] L _ k b Hi' Hb) in Hr. apply Hr.
    rewrite fmap_app, fst_zip by lia. by apply elem_of_app; left. }
  assert (∀ k, cpu_ready m k → k ∉ missing m ks) as Hold.
  { intros k (b & Hb & _) [Hk _]%list_elem_of_filter. congruence. }
  split_and!.
  - intros k Hr. pose proof (Hnew k Hr) as Hk. unfold cpu_ready in *. rewrite Hget in Hr by done.
    case_decide; [naive_solver|done].
  - exists ids. rewrite Hkts. split_and!; [done|done|apply sublist_filter|done|].
    intros k Hr Hk. unfold cpu_ready. rewrite Hget by (by apply Hold). by rewrite decide_False.
Qed.
Next Obligation. intros m L D S success Hi. by apply complete_store_wp. Qed.
Next Obligation.
  intros m L S Hi. unfold om_take_events. simpl. unfold take_events. wp_prim. wp_prim.
  destruct (cpu_events m); [|by wp_prim]. wp_prim. wp_prim. wp_prim. split; [|done]. by destruct Hi.
Qed.
End CPU.

(** ** The reuse filter *)
Section Filter.
Context {K C : Type} `{Countable K} {B : Type} `{!OffloadingManager K C B, !OffloadingManagerLaws K C B}.
Implicit Types (m : FilterReusedOffloadingManager K B) (k : K).

Definition tracker_ok m : Prop := NoDup (counts m).*1 ∧ 1 ≤ max_tracker_size m ∧ len (counts m) ≤ max_tracker_size m.

(** What the record of one lookup does to the counters. *)
Lemma record_key_wp m k : tracker_ok m →
  wp (record_key k) (λ _ m', tracker_ok m' ∧ _backing m' = _backing m ∧ store_threshold m' = store_threshold m ∧
    max_tracker_size m' = max_tracker_size m ∧ od_get k (counts m') = Some (1 + default 0 (od_get k (counts m))) ∧
    ∀ k' n, k' ≠ k → od_get k' (counts m') = Some n → od_get k' (counts m) = Some n) m.
Proof.
  intros (Hnd & Hmax & Hlen). unfold record_key. wp_prim. wp_prim. simpl.
  destruct (od_get k (counts m)) as [n|] eqn:Hk.
  - wp_prim. assert (k ∈ (od_move_to_end k (counts m)).*1) as Hin.
    { rewrite od_move_to_end_perm. apply od_get_Some in Hk. by apply (list_elem_of_fmap_2 fst) in Hk. }
    assert (len (od_set k (n + 1) (od_move_to_end k (counts m))) = len (counts m)) as Hl.
    { unfold len. rewrite <- (length_fmap fst), od_set_keys, length_fmap by done. by rewrite od_move_to_end_perm. }
    split_and!; try done.
    + unfold tracker_ok, set_counts. cbn [counts max_tracker_size].
      by rewrite Hl, od_set_keys, od_move_to_end_perm by done.
    + simpl. rewrite od_get_set, decide_True by done. f_equal. lia.
    + simpl. intros k' n' Hne. rewrite od_get_set, decide_False by done. by rewrite od_move_to_end_get.
  - assert (k ∉ (counts m).*1) as Hin by (by apply od_get_None). wp_prim.
    eapply wp_mono with (Q := λ _ m1, ∃ d, m1 = set_counts d m ∧ d `suffix_of` counts m ∧ len d < max_tracker_size m).
    { destruct (Z.leb_spec (max_tracker_size m) (len (counts m))).
      - destruct (counts m) as [|x d] eqn:Hd; [rewrite len_nil in *; lia|]. wp_prim. exists d. split_and!; [done| |].
        + by exists [x].
        + rewrite len_cons in *. lia.
      - wp_prim. exists (counts m). split_and!; [by destruct m|done|lia]. }
    intros [] m1 (d & -> & Hsuf & Hd). wp_prim. simpl.
    assert (d `sublist_of` counts m) as Hsub by (destruct Hsuf as [x ->]; by apply sublist_inserts_l).
    assert (k ∉ d.*1) as Hkd by (intros Hk'; apply Hin; by eapply elem_of_sublist, fmap_sublist).
    assert (NoDup d.*1) as Hndd by (eapply sublist_NoDup; [exact Hnd|by apply fmap_sublist]).
    rewrite od_set_new by done. split_and!; try done.
    + unfold tracker_ok, set_counts. cbn [counts max_tracker_size]. rewrite fmap_app, len_app, len_cons, len_nil.
      split_and!; [|done|lia]. apply NoDup_app. split_and!; [done|set_solver|apply NoDup_singleton].
    + simpl. rewrite od_get_app. apply od_get_None in Hkd. rewrite Hkd. simpl. by rewrite decide_True.
    + simpl. intros k' n Hne. rewrite od_get_app. destruct (od_get k' d) as [v|] eqn:Hv.
      * intros [= <-]. apply od_get_elem; [done|]. apply od_get_Some in Hv. by eapply elem_of_sublist.
      * simpl. by rewrite decide_False.
Qed.

Definition filter_inv m (L S : list (K * Z)) : Prop := om_inv (C := C) (_backing m) L S ∧ tracker_ok m.

(** A call that only the backing manager sees. *)
Lemma backed_wp {A} (call : M B A) m Q Q' : tracker_ok m →
  wp call Q (_backing m) →
  (∀ r b m', tracker_ok m' → _backing m' = b → counts m' = counts m → store_threshold m' = store_threshold m →
     max_tracker_size m' = max_tracker_size m → Q r b → Q' r m') →
  wp (backed call) Q' m.
Proof.
  intros Ht Hw HQ. apply wp_zoom. eapply wp_mono; [exact Hw|]. intros r b Hr. by eapply HQ.
Qed.

#[global] Program Instance Filter_laws : OffloadingManagerLaws K C (FilterReusedOffloadingManager K B) := {|
  om_ready m := om_ready (C := C) (_backing m); om_inv := filter_inv
|}.
Next Obligation. intros m L S [Hi _]. by eapply om_slots. Qed.
Next Obligation. intros m L S k [Hi _]. by eapply om_loads. Qed.
Next Obligation. intros m L S k [Hi _]. by eapply om_stores. Qed.
Next Obligation. intros m L L' S S' HL HS [Hi ?]. split; [by eapply om_inv_perm|done]. Qed.
Next Obligation.
  intros m L S k c [Hi Ht]. unfold om_lookup. simpl. unfold filter_lookup. wp_prim.
  eapply wp_mono; [by apply record_key_wp|]. intros [] m1 (Ht1 & Hb1 & _).
  eapply backed_wp; [done|rewrite Hb1; by eapply om_lookup_ok|].
  intros r b m' Ht' <- _ _ _ (? & ? & ? & ?). split_and!; [by split|done..].
Qed.
Next Obligation.
  intros m L S ks [Hi Ht]. eapply backed_wp; [done|by eapply om_touch_ok|].
  intros [] b m' Ht' <- _ _ _ (? & ?). split; [by split|done].
Qed.
Next Obligation.
  intros m L S ks c [Hi Ht] Hr Hl. eapply backed_wp; [done|by eapply om_prepare_load_ok|].
  intros spec b m' Ht' <- _ _ _ (ids & ? & ? & ? & ?). exists ids. split_and!; [done|done|by split|done].
Qed.
Next Obligation.
  intros m D L S [Hi Ht]. eapply backed_wp; [done|by eapply om_complete_load_ok|].
  intros [] b m' Ht' <- _ _ _ (? & ?). split; [by split|done].
Qed.
Next Obligation.
  intros m L S ks c [Hi Ht] Hnd. unfold om_prepare_store. simpl. unfold filter_prepare_store. wp_prim. wp_prim.
  eapply backed_wp; [done|eapply (om_prepare_store_ok _ L S); [done|by apply NoDup_filter]|].
  intros o b m' Ht' <- _ _ _ (H1 & H2). split; [done|].
  destruct o as [out|]; [|by destruct H2 as [? ?]; split; [split|]]. destruct H2 as (ids & ? & ? & Hsub & ? & ?). exists ids.
  split_and!; [done|done|etrans; [exact Hsub|apply sublist_filter]|by split|done].
Qed.
Next Obligation.
  intros m L D S success [Hi Ht]. eapply backed_wp; [done|by eapply om_complete_store_ok|].
  intros [] b m' Ht' <- _ _ _ (? & ?). split; [by split|done].
Qed.
Next Obligation.
  intros m L S [Hi Ht]. eapply backed_wp; [done|by eapply om_take_events_ok|].
  intros r b m' Ht' <- _ _ _ (? & ?). split; [by split|done].
Qed.
End Filter.
