(* ===== verification/OffloadCalls.v ===== *)
(** * Every sequence of calls of an offload manager

    The manager together with the transfers that are in flight: which key is loaded from or
    stored to which slot.  A call is legal when it loads blocks that a lookup finds and ends
    transfers that were started. *)

From S2P Require Import Prelude Stable OffloadPolicy OffloadLaws OffloadManager OffloadSafe.

#[local] Set Default Proof Using "Type*".

Inductive off_call {K C : Type} :=
  | Lookup (k : K) (c : C)
  | PrepareLoad (ks : list K) (c : C)
  | CompleteLoad (ks : list K)
  | Touch (ks : list K)
  | PrepareStore (ks : list K) (c : C)
  | CompleteStore (ks : list K) (success : bool)
  | TakeEvents.
Arguments off_call : clear implicits.

Section World.
Context {K C : Type} `{EqDecision K} {Mg : Type} `{!OffloadingManager K C Mg}.

Record world := mkWorld { manager : Mg; loads : list (K * Z); stores : list (K * Z) }.
Definition set_manager v w := mkWorld v (loads w) (stores w).
Definition set_loads v w := mkWorld (manager w) v (stores w).
Definition set_stores v w := mkWorld (manager w) (loads w) v.

Definition on_manager {A} (m : M Mg A) : M world A := zoom manager set_manager m.

(** The slots of a specification. *)
Definition spec_slots (spec : LoadStoreSpec) : list Z :=
  match spec with CPULoadStoreSpec ids => ids | GPULoadStoreSpec ids _ _ => ids end.
(** The transfers left when one of each key has ended. *)
Definition ended (ks : list K) (l : list (K * Z)) : list (K * Z) := foldl (λ l k, od_del k l) l ks.

Definition run_off (c : off_call K C) : M world unit :=
  match c with
  | Lookup k c => _ ← on_manager (om_lookup k c); mret tt
  | PrepareLoad ks c =>
      spec ← on_manager (om_prepare_load ks c);
      modify (λ w, set_loads (zip ks (spec_slots spec) ++ loads w) w)
  | CompleteLoad ks =>
      _ ← on_manager (om_complete_load (C := C) ks);
      modify (λ w, set_loads (ended ks (loads w)) w)
  | Touch ks => on_manager (om_touch (C := C) ks)
  | PrepareStore ks c =>
      o ← on_manager (om_prepare_store ks c);
      match o with
      | None => mret tt
      | Some out => modify (λ w, set_stores (zip (keys_to_store out) (spec_slots (store_spec out)) ++ stores w) w)
      end
  | CompleteStore ks success =>
      _ ← on_manager (om_complete_store (C := C) ks success);
      modify (λ w, set_stores (ended ks (stores w)) w)
  | TakeEvents => _ ← on_manager (om_take_events (C := C)); mret tt
  end.

(** A lookup would find the block. *)
Definition found (w : world) (c : C) (k : K) : Prop := (om_lookup k c (manager w)).1 = Ok (Some true).

Definition off_legal (c : off_call K C) (w : world) : Prop :=
  match c with
  | PrepareLoad ks c => (∀ k, k ∈ ks → found w c k) ∧ len (loads w) + len ks < 2 ^ 31
  | CompleteLoad ks => ks ⊆+ (loads w).*1
  | PrepareStore ks _ => NoDup ks
  | CompleteStore ks _ => ks ⊆+ (stores w).*1
  | _ => True
  end.

Fixpoint run_offs (cs : list (off_call K C)) : M world unit :=
  match cs with
  | [] => mret tt
  | c :: cs => _ ← run_off c; run_offs cs
  end.

Fixpoint legal_offs (cs : list (off_call K C)) (w : world) : Prop :=
  match cs with
  | [] => True
  | c :: cs => off_legal c w ∧ legal_offs cs (run_off c w).2
  end.

Lemma ended_split ks l : ks ⊆+ l.*1 → ∃ D, D.*1 = ks ∧ l ≡ₚ D ++ ended ks l.
Proof.
  revert l. induction ks as [|k ks IH]; intros l Hks; [by exists []|]. simpl.
  assert (∃ i, l ≡ₚ (k, i) :: od_del k l) as [i Hi].
  { assert (k ∈ l.*1) as Hk by (eapply elem_of_submseteq; [|exact Hks]; by left). clear Hks IH.
    induction l as [|[k0 i0] l IH]; [by apply elem_of_nil in Hk|]. simpl.
    destruct (decide (k = k0)) as [<-|Hne]; [by exists i0|].
    apply elem_of_cons in Hk as [?|Hk]; [done|]. destruct (IH Hk) as [i Hi]. exists i.
    rewrite Hi at 1. apply Permutation_swap. }
  destruct (IH (od_del k l)) as (D & <- & HD).
  { rewrite Hi in Hks. by apply (submseteq_app_inv_l ks _ [k]). }
  exists ((k, i) :: D). split; [done|]. simpl. by rewrite <- HD.
Qed.

Context `{!OffloadingManagerLaws K C Mg}.

Definition world_inv (w : world) : Prop := om_inv (C := C) (manager w) (loads w) (stores w).

Lemma run_off_inv c w : world_inv w → off_legal c w → wp (run_off c) (λ _, world_inv) w.
Proof.
  unfold world_inv. intros Hi Hl. destruct c as [k c|ks c|ks|ks|ks c|ks success|]; simpl in *.
  - wp_prim. apply wp_zoom. eapply wp_mono; [by eapply om_lookup_ok|]. intros r m' [? _]. by wp_prim.
  - destruct Hl as [Hf Hlen]. wp_prim. apply wp_zoom. eapply wp_mono; [eapply om_prepare_load_ok; [done| |done]|].
    + intros k Hk. pose proof (om_lookup_ok _ _ _ k c Hi) as Hw. unfold wp in Hw. specialize (Hf k Hk). unfold found in Hf.
      destruct (om_lookup k c (manager w)) as [[r|] m']; [|done]. simpl in Hf. injection Hf as ->.
      destruct Hw as (_ & _ & Hr & _). by apply Hr.
    + intros spec m' (ids & -> & Hl & Hi' & _). by wp_prim.
  - destruct (ended_split ks (loads w) Hl) as (D & HD & Hp). wp_prim. apply wp_zoom. rewrite <- HD at 1.
    eapply wp_mono; [apply om_complete_load_ok; exact (om_inv_perm _ _ _ _ _ Hp (Permutation_refl _) Hi)|].
    intros [] m' [Hi' _]. by wp_prim.
  - apply wp_zoom. eapply wp_mono; [by eapply om_touch_ok|]. by intros [] m' [? _].
  - wp_prim. apply wp_zoom. eapply wp_mono; [by eapply om_prepare_store_ok|].
    intros [out|] m' [_ Ho]; [|by wp_prim; destruct Ho]. destruct Ho as (ids & Hs & _ & _ & Hi' & _).
    wp_prim. rewrite Hs. done.
  - destruct (ended_split ks (stores w) Hl) as (D & HD & Hp). wp_prim. apply wp_zoom. rewrite <- HD at 1.
    eapply wp_mono; [apply om_complete_store_ok; exact (om_inv_perm _ _ _ _ _ (Permutation_refl _) Hp Hi)|].
    intros [] m' [Hi' _]. by wp_prim.
  - wp_prim. apply wp_zoom. eapply wp_mono; [by eapply om_take_events_ok|]. intros r m' [? _]. by wp_prim.
Qed.

Lemma run_offs_inv cs : ∀ w, world_inv w → legal_offs cs w → wp (run_offs cs) (λ _, world_inv) w.
Proof.
  induction cs as [|c cs IH]; intros w Hi Hl; [by apply wp_ret|]. destruct Hl as [Hc Hl]. simpl.
  pose proof (run_off_inv c w Hi Hc) as Hw. apply wp_run in Hw as ([] & w' & Hrun & Hi'). rewrite Hrun in Hl.
  wp_prim. apply wp_run. exists tt, w'. split; [done|]. by apply IH.
Qed.
End World.
Arguments world : clear implicits.
Arguments mkWorld {K Mg}.

Section Size.
Context {K C : Type} `{Countable K} {P : Type} `{!CachePolicy K P}.

(** No call changes the number of slots. *)
Lemma run_off_size n (c : off_call K C) :
  stable (λ w : world K (CPUOffloadingManager K P), _num_blocks (manager w) = n) (run_off c).
Proof.
  assert (∀ A (m : M (CPUOffloadingManager K P) A), stable (λ m, _num_blocks m = n) m →
    stable (λ w : world K (CPUOffloadingManager K P), _num_blocks (manager w) = n) (on_manager m)) as Hon.
  { intros A m Hm. by eapply stable_zoom. }
  assert (∀ f : CPUOffloadingManager K P → CPUOffloadingManager K P, (∀ m, _num_blocks (f m) = _num_blocks m) →
    stable (λ m, _num_blocks m = n) (modify f)) as Hmod.
  { intros f Hf. apply stable_modify. intros m. by rewrite Hf. }
  assert (∀ A (m : M P A), stable (λ m : CPUOffloadingManager K P, _num_blocks m = n) (zoom _policy set_policy m)) as Hpol.
  { intros A m. by eapply (stable_zoom _ _ _ (λ _, True)); [apply stable_true|..]. }
  destruct c; simpl; unfold om_lookup, om_prepare_load, om_complete_load, om_touch, om_prepare_store,
    om_complete_store, om_take_events, CPU_manager;
    repeat first [apply stable_bind; [|intros ?] | by apply stable_modify | apply stable_ret | apply Hon
                 | match goal with |- stable _ (match ?o with _ => _ end) => destruct o end];
    unfold cpu_lookup, prepare_load, complete_load, touch, prepare_store, complete_store, take_events,
      _allocate_blocks, pop_free, _free_block, policy_get, assign_ref_cnt, emit;
    repeat (cbv zeta beta; first [stable_step | by apply Hmod | apply Hpol]).
Qed.

Lemma run_offs_size n (cs : list (off_call K C)) :
  stable (λ w : world K (CPUOffloadingManager K P), _num_blocks (manager w) = n) (run_offs cs).
Proof. induction cs as [|c cs IH]; [apply stable_ret|]. simpl. apply stable_bind; [apply run_off_size|done]. Qed.
End Size.

(** ** The claims *)

Section Claims.
Context {K C : Type} `{Countable K}.

(** What holds of the slots of the CPU memory, [n] of them: a block that is loaded or stored
    has the slot its transfer was given and cannot be evicted; a block without transfer can;
    no slot is used twice and none is lost. *)
Definition slots_ok {P} `{!CachePolicy K P} (n : Z) (w : world K (CPUOffloadingManager K P)) : Prop :=
  let m := manager w in
  (∀ k i, (k, i) ∈ loads w → get_block m k = Some (mkBlockStatus (occ k (loads w).*1) i)) ∧
  (∀ k i, (k, i) ∈ stores w → get_block m k = Some (mkBlockStatus (-1) i)) ∧
  (∀ k b, get_block m k = Some b → k ∉ (loads w).*1 → k ∉ (stores w).*1 → st_ref_cnt b = 0) ∧
  (∀ k k' b b', get_block m k = Some b → get_block m k' = Some b' → st_block_id b = st_block_id b' → k = k') ∧
  NoDup (_free_list m) ∧ 0 ≤ _num_allocated_blocks m ≤ n ∧
  (∀ k b, get_block m k = Some b → st_block_id b ∉ _free_list m) ∧
  (∀ i, 0 ≤ i < _num_allocated_blocks m ↔
     i ∈ _free_list m ∨ ∃ k b, get_block m k = Some b ∧ st_block_id b = i).

(** Every legal sequence of calls on a fresh manager. *)
Definition calls_safe {P} `{!CachePolicy K P} (n : Z) (m : CPUOffloadingManager K P) : Prop :=
  ∀ cs : list (off_call K C), legal_offs cs (mkWorld m [] []) →
  ∃ w', run_offs cs (mkWorld m [] []) = (Ok tt, w') ∧ slots_ok n w'.

Lemma cpu_inv_slots {P} `{!CachePolicy K P, !CachePolicyLaws K P} (w : world K (CPUOffloadingManager K P)) :
  cpu_inv (manager w) [] (loads w) (stores w) → slots_ok (_num_blocks (manager w)) w.
Proof.
  intros Hi. destruct w as [m L S]. cbn [manager loads stores] in *.
  destruct Hi as [_ Halloc _ Hfree Hrange Hblock Hinj Hcover Href HL HS HLS _ _]. rewrite app_nil_r in Hfree.
  split_and!; cbn [manager loads stores]; try done.
  - intros k i Hin. destruct (HL k i Hin) as (b & Hb & <-). rewrite Hb. f_equal.
    apply (list_elem_of_fmap_2 fst) in Hin. pose proof (Href k b Hb) as Hr. rewrite decide_False in Hr by (by apply HLS).
    destruct b; simpl in *. by f_equal.
  - intros k i Hin. destruct (HS k i Hin) as (b & Hb & <-). rewrite Hb. f_equal.
    apply (list_elem_of_fmap_2 fst) in Hin. pose proof (Href k b Hb) as Hr. rewrite decide_True in Hr by done.
    destruct b; simpl in *. by f_equal.
  - intros k b Hb ??. rewrite (Href k b Hb), decide_False by done. by apply occ_not_elem.
  - lia.
  - lia.
  - intros k b Hb. pose proof (Hblock k b Hb) as [_ Hn]. by rewrite app_nil_r in Hn.
  - intros i. split.
    + intros Hi. destruct (Hcover i Hi) as [Hf|?]; [left; by rewrite app_nil_r in Hf|by right].
    + intros [Hf|(k & b & Hb & <-)]; [apply Hrange; by rewrite app_nil_r|by apply (Hblock k)].
Qed.

Lemma policy_calls_safe {P} `{!CachePolicy K P, !CachePolicyLaws K P} n events : 0 ≤ n ≤ 2 ^ 63 →
  calls_safe n (cpu_manager_init (P := P) n events).
Proof.
  intros Hn cs Hl. set (w := mkWorld _ _ _) in *.
  assert (world_inv (C := C) w) as Hi by exact (cpu_init_inv n events Hn).
  pose proof (run_offs_inv cs w Hi Hl) as Hw. apply wp_run in Hw as ([] & w' & Hrun & Hi').
  exists w'. split; [done|]. pose proof (run_offs_size n cs w eq_refl) as Hsz. rewrite Hrun in Hsz. simpl in Hsz.
  rewrite <- Hsz. by apply cpu_inv_slots.
Qed.

(** C14: CPU memory is never overwritten while it is used.  From the constructor, with either
    replacement policy, every legal sequence of lookups, loads, stores, touches, completions
    and failures of transfers raises nothing, although reference counts are 32-bit integers;
    a block that is being loaded or stored keeps the slot its transfer was given, a block
    without transfers can be evicted, no slot holds two blocks or is free and in use, and no
    slot is lost. *)
Theorem cpu_offload_safe num_blocks cache_policy enable_events mgr : 0 ≤ num_blocks ≤ 2 ^ 63 →
  make_cpu_manager (K := K) num_blocks cache_policy enable_events = Ok mgr →
  match mgr with inl m => calls_safe num_blocks m | inr m => calls_safe num_blocks m end.
Proof.
  intros Hn. unfold make_cpu_manager. destruct (String.eqb cache_policy "lru"); [|destruct (String.eqb cache_policy "arc")];
    intros [= <-]; by apply policy_calls_safe.
Qed.
End Claims.

Section PrepareStore.
Context {K C : Type} `{Countable K} {P : Type} `{!CachePolicy K P, !CachePolicyLaws K P}.

(** C15: What the start of a store does.  In a good state, whatever the replacement policy,
    prepare_store of distinct keys raises nothing; it refuses and changes nothing, or it
    reserves, for exactly the keys that are not in the cache, distinct slots that hold no
    other block, marks them as not ready, evicts only blocks that no transfer uses and that
    are not among the keys, and leaves every other block as it was. *)
Theorem prepare_store_exact (m : CPUOffloadingManager K P) L S ks (c : C) :
  cpu_inv m [] L S → NoDup ks →
  ∃ o m', prepare_store ks c m = (Ok o, m') ∧
  match o with
  | None => m' = m
  | Some out =>
      keys_to_store out = missing m ks ∧
      (∃ ids, store_spec out = CPULoadStoreSpec ids ∧ length ids = length (missing m ks) ∧ NoDup ids ∧
        (∀ k i, (k, i) ∈ zip (missing m ks) ids → get_block m' k = Some (mkBlockStatus (-1) i)) ∧
        (∀ k b, k ∉ missing m ks → get_block m' k = Some b → st_block_id b ∉ ids)) ∧
      (∀ k, k ∈ evicted_keys out → cpu_ready m k ∧ k ∉ L.*1 ∧ k ∉ ks) ∧
      (∀ k, k ∉ missing m ks → get_block m' k = if decide (k ∈ evicted_keys out) then None else get_block m k) ∧
      cpu_inv m' [] L (zip (missing m ks) (spec_slots (store_spec out)) ++ S)
  end.
Proof.
  intros Hi Hnd. pose proof (prepare_store_wp m L S ks c Hi Hnd) as Hw.
  apply wp_run in Hw as (o & m' & Hrun & Ho). exists o, m'. split; [done|]. destruct o as [out|]; [|done].
  destruct Ho as (Hk & (ids & Hs & Hl & Hi') & Hev & Hfr). rewrite Hs. split; [done|]. split; [|done].
  pose proof (cpu_inv_slots (mkWorld m' L (zip (missing m ks) ids ++ S)) Hi') as (_ & Hst & _ & Hinj & _).
  simpl in Hst, Hinj. exists ids. split_and!; [done|done| | |].
  - pose proof (cpu_slots m' L _ Hi') as (_ & Hnd2 & _). rewrite fmap_app, snd_zip in Hnd2 by lia.
    by apply NoDup_app in Hnd2 as [? _].
  - intros k i Hin. apply Hst, elem_of_app. by left.
  - intros k b Hn Hb Hin. apply list_elem_of_lookup_1 in Hin as [j Hj].
    destruct (lookup_lt_is_Some_2 (missing m ks) j) as [k' Hk']; [rewrite <- Hl; by eapply lookup_lt_Some|].
    assert ((k', st_block_id b) ∈ zip (missing m ks) ids) as Hz.
    { apply list_elem_of_lookup. exists j. apply lookup_zip_with_Some. eauto. }
    apply Hn. rewrite (Hinj k k' b (mkBlockStatus (-1) (st_block_id b))); [|done|apply Hst, elem_of_app; by left|done].
    by apply list_elem_of_lookup_2 in Hk'.
Qed.
End PrepareStore.

(** ** Examples *)

(** A manager with two slots, block 1 in the first of them. *)
Definition calls1 : list (off_call Z unit) := [PrepareStore [1] tt; CompleteStore [1] true].
Definition lru2 : CPUOffloadingManager Z (LRUCachePolicy Z) :=
  manager (run_offs calls1 (mkWorld (cpu_manager_init 2 false) [] [])).2.

Lemma lru2_inv : cpu_inv lru2 [] [] [].
Proof.
  pose proof (run_offs_inv calls1 (mkWorld (cpu_manager_init (P := LRUCachePolicy Z) 2 false) [] [])) as Hw.
  apply wp_run in Hw as ([] & w' & Hrun & Hi).
  - unfold world_inv in Hi. unfold lru2. rewrite Hrun. simpl.
    replace (loads w') with (@nil (Z * Z)) in Hi; [replace (stores w') with (@nil (Z * Z)) in Hi; [done|]|];
      (replace w' with (run_offs calls1 (mkWorld (cpu_manager_init (P := LRUCachePolicy Z) 2 false) [] [])).2;
        [vm_compute; reflexivity|by rewrite Hrun]).
  - apply cpu_init_inv. lia.
  - simpl. split_and!; [apply NoDup_singleton| |done].
    apply (bool_decide_unpack _). vm_compute. done.
Qed.

(** Two more blocks: block 1 makes room for one of them. *)
Lemma prepare_store_exact_witness :
  cpu_inv lru2 [] [] [] ∧ NoDup [2; 3] ∧
  match prepare_store [2; 3] tt lru2 with
  | (Ok (Some out), m') => keys_to_store out = [2; 3] ∧ store_spec out = CPULoadStoreSpec [1; 0] ∧
      evicted_keys out = [1] ∧ cpu_inv m' [] [] [(2, 1); (3, 0)]
  | _ => False
  end.
Proof.
  assert (NoDup [2; 3]) as Hnd by (apply (bool_decide_unpack _); vm_compute; done).
  split; [apply lru2_inv|]. split; [done|].
  destruct (prepare_store_exact lru2 [] [] [2; 3] tt lru2_inv Hnd) as (o & m' & Hrun & Ho).
  rewrite Hrun. assert ((prepare_store [2; 3] tt lru2).1 = Ok o) as Hfst by (by rewrite Hrun).
  vm_compute in Hfst. injection Hfst as <-. simpl in *. destruct Ho as (_ & _ & _ & _ & Hi). done.
Defined.

(** A run with the ARC policy in two slots: block 1 is loaded while block 3 takes the slot of
    block 2; the store of block 3 fails. *)
Definition calls2 : list (off_call Z unit) :=
  [PrepareStore [1; 2] tt; CompleteStore [2; 1] true; Lookup 1 tt; PrepareLoad [1; 1] tt; Touch [1];
   PrepareStore [3] tt; CompleteLoad [1]; CompleteStore [3] false; TakeEvents].
Definition arc_mgr2 : CPUOffloadingManager Z (ARCCachePolicy Z) := cpu_manager_init 2 true.

Lemma calls2_legal : legal_offs calls2 (mkWorld arc_mgr2 [] []).
Proof.
  cbn [calls2 legal_offs off_legal].
  split_and!; try exact I; try (apply (bool_decide_unpack _); vm_compute; exact I).
  intros k Hk. assert (k = 1) as -> by set_solver. vm_compute. reflexivity.
Qed.

Lemma cpu_offload_safe_witness :
  0 ≤ 2 ≤ 2 ^ 63 ∧ make_cpu_manager 2 "arc" true = Ok (inr arc_mgr2) ∧ legal_offs calls2 (mkWorld arc_mgr2 [] []) ∧
  ∃ w', run_offs calls2 (mkWorld arc_mgr2 [] []) = (Ok tt, w') ∧ slots_ok 2 w'.
Proof.
  assert (0 ≤ 2 ≤ 2 ^ 63) as Hn by lia. split; [exact Hn|]. split; [reflexivity|]. split; [apply calls2_legal|].
  exact (cpu_offload_safe (C := unit) 2 "arc" true (inr arc_mgr2) Hn eq_refl calls2 calls2_legal).
Defined.

(** The calls that bring an ARC policy to a target of two blocks for T1 while T1 has one. *)
Definition calls3 : list (off_call Z unit) :=
  [PrepareStore [1] tt; CompleteStore [1] true; PrepareStore [2] tt; CompleteStore [2] true;
   PrepareStore [3] tt; CompleteStore [3] true; Touch [1]; Touch [1]; Touch [2]].

(** ARC refuses a store although a block can go: T1 is smaller than its target, so only T2
    is searched, and its one block is among the keys; block 3, in T1, is not used by any
    transfer and not among the keys.  With LRU the same store evicts it. *)
Theorem arc_refuses_a_store :
  let m := manager (run_offs calls3 (mkWorld arc_mgr2 [] [])).2 in
  let m' : CPUOffloadingManager Z (LRUCachePolicy Z) :=
    manager (run_offs calls3 (mkWorld (cpu_manager_init 2 true) [] [])).2 in
  legal_offs calls3 (mkWorld arc_mgr2 [] []) ∧
  (prepare_store [2; 4] tt m).1 = Ok None ∧
  (∃ b, get_block m 3 = Some b ∧ evictable (list_to_set [2; 4]) 3 b = true) ∧
  (prepare_store [2; 4] tt m').1 = Ok (Some (mkPrepareStoreOutput [4] (CPULoadStoreSpec [0]) [3])).
Proof.
  intros m m'. split; [|split_and!].
  - cbn [calls3 legal_offs off_legal].
    split_and!; try exact I; apply (bool_decide_unpack _); vm_compute; exact I.
  - vm_compute. reflexivity.
  - eexists. split; vm_compute; reflexivity.
  - vm_compute. reflexivity.
Qed.
